(* ===== verification/_CoqProject ===== *)
-Q . S2P
Prelude.v
JsNum.v
JsStr.v
Buffer.v
Integer.v
IntegerArith.v
IntegerMul.v
IntegerText.v
IntegerTheorems.v
LongLib.v
MutableLong.v
VInt.v
NewUtils.v
Duration.v
DurationTheorems.v
BigDecimal.v
Uuid.v
JsFloat.v
Policies.v
Token.v
Version.v
Frames.v
LocalDate.v
LocalDateTheorems.v
InetAddress.v
LocalTime.v
Utils.v
JsVal.v
Options.v
OptionsTheorems.v
UtilsTheorems.v
Host.v
Replicas.v
ReplicasTheorems.v
Metadata.v
MetadataTheorems.v
Debouncer.v
LoadBalancing.v
LoadBalancingTheorems.v
DefaultPolicy.v
DefaultPolicyTheorems.v
JsDouble.v
TypeNames.v
Encoder.v
Decoder.v
EncoderValues.v
EncoderTheorems.v
TypeNamesTheorems.v
Schema.v
SchemaTheorems.v
SchemaCache.v
UserHints.v
RoutingKey.v
ExecOptions.v
ExecOptionsTheorems.v
Results.v
ResultsTheorems.v
Flow.v
Limits.v
RequestLogger.v
Addresses.v
Concurrent.v
ConcurrentTheorems.v
Client.v
ClientTheorems.v
Stream.v
ClientExecution.v
MappingTree.v
MappingTreeTheorems.v
Mapping.v
MappingInfo.v
QueryGenerator.v
ObjectSelector.v
MappingHandler.v
ObjectSelectorTheorems.v
MappingResults.v
QueryGeneratorTheorems.v
MappingQueries.v
MappingCache.v
MappingCacheTheorems.v
