(* ===== verification/Prelude.v ===== *)
(** Verification of the ScyllaDB Node.js-RS driver: the logic it runs in
    JavaScript ([lib/]) and, where a JavaScript class is a shell around it, the
    native part ([src/types/], [src/utils/mod.rs]).

    * The program

    The driver sends queries to a cluster of database nodes.  Its own logic is:
    values of the database's types with their binary and text forms; the
    metadata of the cluster (a ring of tokens and the hosts that own them); the
    policies that choose hosts, decide about retries and delays and make
    timestamps; the client, which makes requests to the native session from
    queries, parameters and layers of options, and results from its answers; the
    mapper, which makes queries from documents; caches, queues and helpers
    shared by them.  Values are used by all the parts; the policies ask the
    metadata for replicas; the metadata uses the helpers of [lib/utils.js] and
    the tokens of [lib/token.js]; concurrent execution and the mapper call the
    client.

    * How the code is modelled

    A method is a function; a method that changes its object is a function from
    the old state to the new one; one that can throw returns a [result] with the
    class of the error (messages are not modelled).  Numbers that hold integers
    are [Z]; where the code leaves the integers, [JsNum] and [JsFloat] round as
    IEEE 754 does.  The bitwise operators, buffers and strings are those of
    [JsNum], [Buffer] and [JsStr].  The clock, [Math.random] and random bytes
    are explicit arguments.  The npm package [long] is not part of the
    repository: [LongLib] states its documented interface as a class, with a
    model that shows it can hold; the tokenizer of Token and Metadata is treated
    in the same way.

    * The files

    - Values: [Integer] with [IntegerArith], [IntegerMul], [IntegerText],
      [IntegerTheorems] ([lib/types/integer.js]: the operations
      are those of [Z], canonical forms, text and bytes); [MutableLong]
      ([mutable-long.js]: arithmetic modulo 2^64 on limbs); [VInt]
      ([VIntCoding] of [lib/utils.js]: round trips and sizes);
      [NewUtils] ([lib/new-utils.js]); [Duration], [DurationTheorems]
      ([duration.js]: the text formats with their errors, the binary form);
      [BigDecimal] ([big-decimal.js]); [Uuid] ([uuid.js],
      [time-uuid.js]); [LocalDate], [LocalDateTheorems] ([local-date.js]:
      equivalence with the Gregorian calendar); [LocalTime]
      ([local-time.js]); [InetAddress] ([inet-address.js]); [Version]
      ([version-number.js], [protocol-version.js]); [Frames] (the frame header
      and the timestamps of [lib/types/index.js]).
    - Helpers: [Utils], [UtilsTheorems] ([lib/utils.js]: search, insertion,
      shuffle, sets, named parameters); [Flow] (its callback control flow: what
      the functions that call all at once and one after the other promise, the
      latter proved once for the class [Series], of which each function is an
      instance); [Limits] (the bounded loops [timesLimit] and [times] of
      [promise-utils.js] as step machines); [Addresses] ([AddressResolver] and
      [address-resolution.js]); [RequestLogger]
      ([lib/tracker/request-logger.js]: messages and their bounds).
    - Cluster: [Token] ([lib/token.js]: ranges as arcs of the ring); [Host] ([lib/host.js]); [Replicas], [ReplicasTheorems] (the replica
      mappers of [lib/metadata/schema-parser.js] against reference definitions);
      [Metadata], [MetadataTheorems] ([lib/metadata/index.js]: the ring, its
      ranges and the look-up of replicas agree; the cache of prepared
      statements); [Debouncer]
      ([event-debouncer.js] as a step relation: no event is lost); [Schema],
      [SchemaTheorems] (the parsers of the schema tables, versions 3 and 4, and
      the objects they fill); [SchemaCache] (the loading of these objects:
      concurrent calls share a load); [UserHints] ([adaptUserHints]: the
      user-defined types in the hints of a request).
    - Policies: [Policies] (retry, reconnection, timestamps, speculative
      execution); [LoadBalancing], [LoadBalancingTheorems]
      ([load-balancing.js]: the policies behind the class [LoadBalancingPolicy],
      what they promise as [LoadBalancingLaws], kept by the wrapping policies);
      [DefaultPolicy], [DefaultPolicyTheorems] (the default policy, whose plans
      are generators).
    - Encoding: [JsDouble] (the IEEE 754 formats of Node's Buffer); [TypeNames],
      [TypeNamesTheorems] ([lib/types/index.js] and the parsers of type names of
      [lib/encoder.js]: which of the names written are read back); [Encoder], [Decoder] (the rest of [lib/encoder.js]:
      values to bytes and back); [EncoderValues], [EncoderTheorems] (the format of the native protocol as the
      relation [wire], refined by the encoder and the decoder, built up from
      single values and the loops over parts); [RoutingKey] (the partition key
      of a request).
    - The client: [JsVal] (JavaScript values as options hold them, [deepExtend]);
      [Options], [OptionsTheorems] ([client-options.js] and the builder of
      [src/session.rs]: what is accepted, which values win, what the session is
      built from); [ExecOptions], [ExecOptionsTheorems]
      ([execution-profile.js], [execution-options.js], [query-options.js]);
      [Results], [ResultsTheorems] ([results-wrapper.js], [result-set.js],
      [row.js] and the native values of [src/result.rs]: results against the
      encoder, the iterators); [Client], [ClientTheorems], [ClientExecution]
      ([lib/client.js]: a method is a script of requests to a session that may
      be any function; [nextPageAsync] is the record of the variables it closes
      over; [eachRow] and the connection are step machines); [Stream]
      ([result-stream.js] and [Client.stream]: the rows of [eachRow] through a
      stream that holds one page).
    - [Concurrent], [ConcurrentTheorems]: [lib/concurrent/index.js] and
      [lib/cache.js]; the executors are step machines whose events (a prepared
      statement, an answer, an item of the stream) come in any order.
    - The mapper ([lib/mapping]): [Mapping] ([q.js], [cache.js],
      [table-mappings.js], snake and camel case), [MappingInfo]
      ([model-mapping-info.js], [doc-info-adapter.js]); [MappingTree],
      [MappingTreeTheorems] ([tree.js], the radix tree, as a map);
      [ObjectSelector], [ObjectSelectorTheorems] (the tables that fit a
      document); [QueryGenerator], [QueryGeneratorTheorems] (queries and the
      generated getters, modelled as token scripts); [MappingHandler]
      ([mapping-handler.js], [model-batch-item.js]: the caches as step machines);
      [MappingResults] ([result-mapper.js], [result.js], [mapper.js],
      [model-mapper.js]: documents from rows, batches);
      [MappingQueries] (from a document to the statement); [MappingCache] (the
      answers of an operation with the promise [CacheKeys] are those of its key,
      and with the laws [CacheLaws] of its own document),
      [MappingCacheTheorems] (the operations have the keys, and the laws under
      restrictions).

    This file holds the errors, the [result] monad and the generic lemmas.
    Where the code fails in some cases, the main theorems either say what it does
    there (empty pages, full caches of statements in flight, names that are not
    read back, hosts that do not answer, nothing to do) or have a hypothesis that
    excludes them, with a closed counterexample next to it.

    * Fuel

    Loops whose number of rounds is not structural take fuel: the digits of a
    Number, the division of Integer, the search of [binarySearch], the civil
    calendar.  The functions choose a bound computed from their arguments (a
    number of digits, the length of an array), and running out is the error
    [OutOfFuel]; the theorems give the result, so the bound is enough.  Plans
    are drained with fuel, and the theorems say that all fuel from some number
    on gives the same hosts.

    * Not modelled

    The native client behind [request] and its bindings, DNS and OpenSSL, the
    authentication providers, metrics and logging other than the request logger
    (input and output through the native part); the streams of Node under
    [ResultStream], which may read at any time; the parser of the schema tables
    before version 3 (its rows hold JSON texts); trace and schema agreement,
    the DataStax extensions and geometry (they only throw that they are not
    supported); the error classes, of which the model keeps which one is
    thrown.  Text is Latin-1; where the encoder would need
    more of the language (dates as text, the local fields of a Date, other
    text), the model has no value and says [Unmodelled].
    [inspect], [toJSON] and the getters of options describe values for
    logging. *)
From Stdlib Require Export ZArith Lia Bool Ascii String.
From stdpp Require Export base tactics numbers option list.


Global Open Scope Z_scope.

(** [lia] with the equations of divisions and remainders by constants. *)
Ltac div_lia := Z.to_euclidean_division_equations; lia.

(** ** Errors as values *)

(** The JavaScript error classes the driver throws.  Messages are not part of
    the model: only the class is observable through [instanceof].  The last two
    are the model's own: a loop that ran out of fuel, and a result of the code
    for which the model has no value. *)
Inductive js_error :=
  | TypeError
  | RangeError
  | PlainError
  | SyntaxError
  | ReferenceError
  | ArgumentError
  | DriverInternalError
  | NoHostAvailableError
  | OutOfFuel
  | Unmodelled.

#[export] Instance js_error_eq_dec : EqDecision js_error.
Proof. unfold EqDecision, Decision. decide equality. Defined.

(** A computation that returns a value or throws. *)
Inductive result (A : Type) : Type :=
  | Ok (a : A)
  | Throw (e : js_error).
Arguments Ok {A} a.
Arguments Throw {A} e.

#[export] Instance result_ret : MRet result := fun A a => Ok a.
#[export] Instance result_bind : MBind result := fun A B f m =>
  match m with Ok a => f a | Throw e => Throw e end.
#[export] Instance result_fmap : FMap result := fun A B f m =>
  match m with Ok a => Ok (f a) | Throw e => Throw e end.

#[export] Instance result_eq_dec {A} `{EqDecision A} : EqDecision (result A).
Proof. solve_decision. Defined.

Definition is_ok {A} (r : result A) : bool :=
  match r with Ok _ => true | Throw _ => false end.

Lemma bind_ok {A B} (m : result A) (f : A -> result B) b :
  m ≫= f = Ok b <-> exists a, m = Ok a /\ f a = Ok b.
Proof. destruct m; cbn; naive_solver. Qed.

Lemma bind_ok_l {A B} (a : A) (f : A -> result B) : (Ok a ≫= f) = f a.
Proof. reflexivity. Qed.

(** [traverse f l] runs [f] on the elements from left to right and stops at
    the first error, as a loop whose body throws does. *)
Fixpoint traverse {A B} (f : A -> result B) (l : list A) : result (list B) :=
  match l with
  | [] => Ok []
  | x :: l' => y ← f x; ys ← traverse f l'; Ok (y :: ys)
  end.

Lemma traverse_ok {A B} (f : A -> result B) l ys :
  traverse f l = Ok ys <-> Forall2 (fun x y => f x = Ok y) l ys.
Proof.
  revert ys; induction l as [|x l IH]; intros ys; cbn.
  - split; [intros [= <-]; constructor | by inversion 1].
  - destruct (f x) as [y|e] eqn:Hx; cbn.
    + destruct (traverse f l) as [zs|e] eqn:Hl; cbn.
      * split.
        -- intros [= <-]. constructor; [done|]. by apply IH.
        -- inversion 1 as [|? ? ? ? H1 H2]; subst. rewrite Hx in H1.
           simplify_eq. apply IH in H2. by simplify_eq.
      * split; [done|]. inversion 1 as [|? ? ? ? H1 H2]; subst.
        apply IH in H2. done.
    + split; [done|]. inversion 1; congruence.
Qed.

(** ** Loops *)

(** [js_while p step s] runs [step] at most [p] times.  [inl] goes on with a
    new state, [inr] leaves the loop.  The bound is a binary number and the
    iteration stops as soon as the loop does, so a generous bound costs
    nothing when the definition is evaluated. *)
Fixpoint js_while {S R} (p : positive) (step : S -> S + R) (s : S) : S + R :=
  match p with
  | xH => step s
  | xO q =>
      match js_while q step s with
      | inl s' => js_while q step s'
      | inr r => inr r
      end
  | xI q =>
      match step s with
      | inl s1 =>
          match js_while q step s1 with
          | inl s' => js_while q step s'
          | inr r => inr r
          end
      | inr r => inr r
      end
  end.

Section js_while.
Context {S R : Type} (step : S -> S + R).
Context (I : S -> Prop) (Q : R -> Prop) (m : S -> Z).

Lemma js_while_progress p s :
  (forall s, I s -> match step s with
                    | inl s' => I s' /\ 0 <= m s' < m s
                    | inr r => Q r
                    end) ->
  I s ->
  match js_while p step s with
  | inl s' => I s' /\ 0 <= m s' <= m s - Z.pos p
  | inr r => Q r
  end.
Proof.
  intros Hstep. revert s.
  induction p as [p IH|p IH|]; intros s Hs; cbn.
  - pose proof (Hstep s Hs) as H0. destruct (step s) as [s1|r]; [|done].
    destruct H0 as [HI1 Hm1]. pose proof (IH s1 HI1) as H1.
    destruct (js_while p step s1) as [s2|r]; [|done].
    destruct H1 as [HI2 Hm2]. pose proof (IH s2 HI2) as H2.
    destruct (js_while p step s2); [split; [tauto|lia]|done].
  - pose proof (IH s Hs) as H1.
    destruct (js_while p step s) as [s2|r]; [|done].
    destruct H1 as [HI2 Hm2]. pose proof (IH s2 HI2) as H2.
    destruct (js_while p step s2); [split; [tauto|lia]|done].
  - pose proof (Hstep s Hs) as H0. destruct (step s); [split; [tauto|lia]|done].
Qed.

(** A loop with a variant below its bound terminates, and its result
    satisfies what the exits guarantee. *)
Lemma js_while_total p s :
  (forall s, I s -> match step s with
                    | inl s' => I s' /\ 0 <= m s' < m s
                    | inr r => Q r
                    end) ->
  I s -> m s < Z.pos p -> exists r, js_while p step s = inr r /\ Q r.
Proof.
  intros Hstep Hs Hm. pose proof (js_while_progress p s Hstep Hs) as H.
  destruct (js_while p step s) as [s'|r]; [lia|eauto].
Qed.
End js_while.

(** ** Positional values *)

(** [le_val B ds] is the number whose base-[B] digits are [ds], least
    significant first.  Digits need not be reduced. *)
Fixpoint le_val (B : Z) (ds : list Z) : Z :=
  match ds with
  | [] => 0
  | d :: ds' => d + B * le_val B ds'
  end.

(** [be_val B ds]: most significant digit first. *)
Definition be_val (B : Z) (ds : list Z) : Z := le_val B (rev ds).

Definition digits_in (B : Z) (ds : list Z) : Prop := Forall (fun d => 0 <= d < B) ds.

Lemma le_val_app B l k :
  le_val B (l ++ k) = le_val B l + B ^ Z.of_nat (length l) * le_val B k.
Proof.
  induction l as [|d l IH]; cbn [app le_val length].
  - rewrite Z.pow_0_r. lia.
  - rewrite IH, Nat2Z.inj_succ, Z.pow_succ_r by lia. ring.
Qed.

Lemma le_val_bounds B l :
  0 < B -> digits_in B l -> 0 <= le_val B l < B ^ Z.of_nat (length l).
Proof.
  intros HB. induction 1 as [|d l Hd Hl IH]; cbn [le_val length].
  - rewrite Z.pow_0_r. lia.
  - rewrite Nat2Z.inj_succ, Z.pow_succ_r by lia. nia.
Qed.

Lemma le_val_inj B l k :
  0 < B -> digits_in B l -> digits_in B k -> length l = length k ->
  le_val B l = le_val B k -> l = k.
Proof.
  intros HB Hl. revert k.
  induction Hl as [|d l Hd Hl IH]; intros [|e k] Hk Hlen; cbn; try done.
  intros Hv. inversion Hk as [|? ? He Hk']; subst.
  assert (d = e) as ->.
  { pose proof (Z.mod_unique_pos (d + B * le_val B l) B (le_val B l) d) as H1.
    pose proof (Z.mod_unique_pos (e + B * le_val B k) B (le_val B k) e) as H2.
    rewrite H1, H2 by lia. by rewrite Hv. }
  f_equal. apply IH; [done| by injection Hlen | nia].
Qed.

Lemma le_val_replicate_0 B n : le_val B (replicate n 0) = 0.
Proof. induction n as [|n IH]; cbn; [done|]. rewrite IH. lia. Qed.

Lemma le_val_insert B l i x y :
  l !! i = Some y ->
  le_val B (<[i:=x]> l) = le_val B l + (x - y) * B ^ Z.of_nat i.
Proof.
  revert i. induction l as [|d l IH]; intros [|i] Hi; try done.
  - injection Hi as ->. cbn. rewrite Z.pow_0_r. lia.
  - change (<[S i:=x]> (d :: l)) with (d :: <[i:=x]> l). cbn [le_val].
    rewrite (IH i Hi), Nat2Z.inj_succ, Z.pow_succ_r by lia. ring.
Qed.

Create HintDb jsval.
#[export] Hint Rewrite le_val_app le_val_replicate_0 : jsval.

(** Array reads [a[i]] of an array of Numbers; [undefined] counts as 0, as
    the bitwise operators make it. *)
Definition rd (l : list Z) (i : nat) : Z := default 0 (l !! i).

Lemma lookup_map {A B} (f : A -> B) l i : map f l !! i = f <$> l !! i.
Proof. apply list_lookup_fmap. Qed.
