(* ===== verification/JsNum.v ===== *)
(** JavaScript Number operators on integers.

    A Number that holds an integer is a [Z].  The bitwise operators first
    convert their operands with ToInt32 (ToUint32 for the left operand of
    [>>>]) and take shift counts modulo 32, as ECMAScript says. *)
From S2P Require Import Prelude.

Definition to_uint32 (z : Z) : Z := z mod 2 ^ 32.

Definition to_int32 (z : Z) : Z :=
  let u := z mod 2 ^ 32 in if u <? 2 ^ 31 then u else u - 2 ^ 32.

Definition js_and (a b : Z) : Z := Z.land (to_int32 a) (to_int32 b).
Definition js_or (a b : Z) : Z := Z.lor (to_int32 a) (to_int32 b).
Definition js_xor (a b : Z) : Z := Z.lxor (to_int32 a) (to_int32 b).
Definition js_not (a : Z) : Z := Z.lnot (to_int32 a).
Definition js_shl (a n : Z) : Z := to_int32 (Z.shiftl (to_int32 a) (n mod 32)).
Definition js_shr (a n : Z) : Z := Z.shiftr (to_int32 a) (n mod 32).
Definition js_ushr (a n : Z) : Z := Z.shiftr (to_uint32 a) (n mod 32).

Declare Scope js_scope.
Delimit Scope js_scope with js.
Notation "a .& b" := (js_and a b) (at level 47, left associativity) : js_scope.
Notation "a .| b" := (js_or a b) (at level 49, left associativity) : js_scope.
Notation "a .^ b" := (js_xor a b) (at level 48, left associativity) : js_scope.
Notation ".~ a" := (js_not a) (at level 35, right associativity) : js_scope.
Notation "a .<< n" := (js_shl a n) (at level 45, left associativity) : js_scope.
Notation "a .>> n" := (js_shr a n) (at level 45, left associativity) : js_scope.
Notation "a .>>> n" := (js_ushr a n) (at level 45, left associativity) : js_scope.
Global Open Scope js_scope.

(** The 32-bit signed integers. *)
Definition is_int32 (z : Z) : Prop := - 2 ^ 31 <= z < 2 ^ 31.

(** Every finite Number is a dyadic rational: [Fin m e] is [m / 2^e]. *)
Inductive number :=
  | NaN
  | Infinity (negative : bool)
  | Fin (m : Z) (e : N).

(** A Number that holds the integer [z]. *)
Definition Int (z : Z) : number := Fin z 0.

(** *** ToInt32 and ToUint32 *)

Ltac pow2 := change (2 ^ 32) with 4294967296 in *; change (2 ^ 31) with 2147483648 in *;
             change (2 ^ 16) with 65536 in *; change (2 ^ 8) with 256 in *.

Lemma to_uint32_range z : 0 <= to_uint32 z < 2 ^ 32.
Proof. apply Z.mod_pos_bound; lia. Qed.

Lemma to_int32_range z : is_int32 (to_int32 z).
Proof.
  unfold to_int32, is_int32. pose proof (Z.mod_pos_bound z (2 ^ 32) ltac:(lia)).
  pow2. destruct (Z.ltb_spec (z mod 4294967296) 2147483648); lia.
Qed.

Lemma to_int32_mod z : to_int32 z mod 2 ^ 32 = z mod 2 ^ 32.
Proof.
  unfold to_int32. destruct (_ <? _); [by rewrite Z.mod_mod by lia|].
  rewrite <- (Z.mod_add (_ - _) 1) by lia.
  rewrite <- (Z.mod_mod z (2 ^ 32)) at 2 by lia. f_equal. lia.
Qed.

Lemma to_int32_id z : is_int32 z -> to_int32 z = z.
Proof.
  unfold is_int32, to_int32. intros Hz. pow2.
  destruct (Z.ltb_spec (z mod 4294967296) 2147483648); Z.to_euclidean_division_equations; lia.
Qed.

Lemma to_uint32_id z : 0 <= z < 2 ^ 32 -> to_uint32 z = z.
Proof. apply Z.mod_small. Qed.

Lemma to_uint32_int32 z : to_uint32 (to_int32 z) = to_uint32 z.
Proof. apply to_int32_mod. Qed.

Lemma to_int32_uint32 z : to_int32 (to_uint32 z) = to_int32 z.
Proof. unfold to_int32, to_uint32. by rewrite Z.mod_mod by lia. Qed.

Lemma to_int32_inj z w : to_uint32 z = to_uint32 w -> to_int32 z = to_int32 w.
Proof. unfold to_uint32, to_int32. by intros ->. Qed.

Lemma to_int32_cases z :
  is_int32 z ->
  (0 <= z /\ to_uint32 z = z) \/ (z < 0 /\ to_uint32 z = z + 2 ^ 32).
Proof.
  unfold is_int32, to_uint32. intros Hz. pow2.
  Z.to_euclidean_division_equations; lia.
Qed.

Create HintDb jsnum.
#[export] Hint Rewrite to_uint32_int32 to_int32_uint32 : jsnum.
#[export] Hint Resolve to_int32_range to_uint32_range : jsnum.

(** *** Bits *)

Lemma int32_shiftr z : is_int32 z <-> Z.shiftr z 31 = 0 \/ Z.shiftr z 31 = -1.
Proof.
  unfold is_int32. rewrite Z.shiftr_div_pow2 by lia. pow2.
  Z.to_euclidean_division_equations; lia.
Qed.

Lemma int32_testbit_high z i : is_int32 z -> 31 <= i -> Z.testbit z i = (z <? 0).
Proof.
  intros Hz Hi. replace i with (i - 31 + 31) by lia.
  rewrite <- Z.shiftr_spec by lia.
  assert (Z.shiftr z 31 = if z <? 0 then -1 else 0) as ->.
  { rewrite Z.shiftr_div_pow2 by lia. unfold is_int32 in Hz. pow2.
    destruct (Z.ltb_spec z 0); Z.to_euclidean_division_equations; lia. }
  destruct (z <? 0); [apply Z.bits_m1; lia | apply Z.bits_0].
Qed.

Lemma testbit_to_int32_low z i :
  0 <= i < 32 -> Z.testbit (to_int32 z) i = Z.testbit z i.
Proof.
  intros Hi. rewrite <- (Z.mod_pow2_bits_low (to_int32 z) 32) by lia.
  by rewrite to_int32_mod, Z.mod_pow2_bits_low by lia.
Qed.

Lemma testbit_to_uint32 z i :
  0 <= i -> Z.testbit (to_uint32 z) i = (i <? 32) && Z.testbit z i.
Proof.
  intros Hi. unfold to_uint32. destruct (Z.ltb_spec i 32).
  - by rewrite Z.mod_pow2_bits_low by lia.
  - by rewrite Z.mod_pow2_bits_high by lia.
Qed.

Lemma int32_and a b : is_int32 a -> is_int32 b -> is_int32 (Z.land a b).
Proof. rewrite !int32_shiftr, Z.shiftr_land. intros [-> | ->] [-> | ->]; cbn; auto. Qed.

Lemma int32_or a b : is_int32 a -> is_int32 b -> is_int32 (Z.lor a b).
Proof. rewrite !int32_shiftr, Z.shiftr_lor. intros [-> | ->] [-> | ->]; cbn; auto. Qed.

Lemma int32_xor a b : is_int32 a -> is_int32 b -> is_int32 (Z.lxor a b).
Proof. rewrite !int32_shiftr, Z.shiftr_lxor. intros [-> | ->] [-> | ->]; cbn; auto. Qed.

Lemma int32_not a : is_int32 a -> is_int32 (Z.lnot a).
Proof. unfold is_int32, Z.lnot. lia. Qed.

#[export] Hint Resolve int32_and int32_or int32_xor int32_not : jsnum.

Lemma js_and_int32 a b : is_int32 (a .& b).
Proof. unfold js_and. auto with jsnum. Qed.

Lemma js_or_int32 a b : is_int32 (a .| b).
Proof. unfold js_or. auto with jsnum. Qed.

Lemma js_xor_int32 a b : is_int32 (a .^ b).
Proof. unfold js_xor. auto with jsnum. Qed.

Lemma js_not_int32 a : is_int32 (.~ a).
Proof. unfold js_not. auto with jsnum. Qed.

Lemma js_shl_int32 a n : is_int32 (a .<< n).
Proof. unfold js_shl. auto with jsnum. Qed.

#[export] Hint Resolve js_and_int32 js_or_int32 js_xor_int32 js_not_int32 js_shl_int32 : jsnum.

(** *** Reading the operators arithmetically *)

Lemma mod_pow2_congr a b k n :
  0 <= k <= n -> a mod 2 ^ n = b mod 2 ^ n -> a mod 2 ^ k = b mod 2 ^ k.
Proof.
  intros Hk H. apply Z.bits_inj'. intros i Hi.
  destruct (Z.lt_ge_cases i k).
  - rewrite !Z.mod_pow2_bits_low by lia.
    rewrite <- (Z.mod_pow2_bits_low a n), <- (Z.mod_pow2_bits_low b n) by lia. by rewrite H.
  - by rewrite !Z.mod_pow2_bits_high by lia.
Qed.

(** Masking with [2^k - 1] is reduction modulo [2^k]. *)
Lemma js_and_mask a k : 0 <= k < 32 -> a .& (2 ^ k - 1) = a mod 2 ^ k.
Proof.
  intros Hk. unfold js_and.
  assert (2 ^ k <= 2 ^ 31) by (apply Z.pow_le_mono_r; lia).
  assert (0 < 2 ^ k) by (apply Z.pow_pos_nonneg; lia).
  rewrite (to_int32_id (2 ^ k - 1)) by (unfold is_int32; lia).
  replace (2 ^ k - 1) with (Z.ones k) by (rewrite Z.ones_equiv; lia).
  rewrite Z.land_ones by lia. apply mod_pow2_congr with 32; [lia|]. apply to_int32_mod.
Qed.

Lemma js_and_ffff a : a .& 65535 = a mod 65536.
Proof. apply (js_and_mask a 16). lia. Qed.

Lemma js_and_ff a : a .& 255 = a mod 256.
Proof. apply (js_and_mask a 8). lia. Qed.

Lemma lor_add_disjoint hi lo k :
  0 <= k -> 0 <= lo < 2 ^ k -> Z.lor (hi * 2 ^ k) lo = hi * 2 ^ k + lo.
Proof.
  intros Hk Hlo. rewrite <- Z.add_lor_land.
  enough (Z.land (hi * 2 ^ k) lo = 0) by lia.
  apply Z.bits_inj'. intros i Hi. rewrite Z.land_spec, Z.bits_0.
  destruct (Z.lt_ge_cases i k).
  - by rewrite Z.mul_pow2_bits_low by lia.
  - rewrite <- (Z.mod_small lo (2 ^ k)) by lia.
    rewrite Z.mod_pow2_bits_high by lia. apply andb_false_r.
Qed.

(** Combining a left-shifted high part with a low part that fits below it. *)
Lemma js_or_shl hi lo k :
  0 < k < 32 -> 0 <= lo < 2 ^ k ->
  to_uint32 ((hi .<< k) .| lo) = (hi mod 2 ^ (32 - k)) * 2 ^ k + lo.
Proof.
  intros Hk Hlo.
  rewrite <- lor_add_disjoint, <- Z.shiftl_mul_pow2 by lia.
  apply Z.bits_inj'. intros i Hi.
  rewrite testbit_to_uint32 by lia. unfold js_or, js_shl.
  rewrite (Z.mod_small k 32), !Z.lor_spec, Z.shiftl_spec by lia.
  destruct (Z.ltb_spec i 32) as [Hlt|Hge]; cbn [andb].
  - rewrite !testbit_to_int32_low, Z.shiftl_spec by lia. f_equal.
    destruct (Z.lt_ge_cases i k).
    + by rewrite !Z.testbit_neg_r by lia.
    + by rewrite testbit_to_int32_low, Z.mod_pow2_bits_low by lia.
  - rewrite Z.mod_pow2_bits_high by lia.
    rewrite <- (Z.mod_small lo (2 ^ k)), Z.mod_pow2_bits_high by lia. done.
Qed.

Lemma js_ushr_div a n : 0 <= n < 32 -> a .>>> n = to_uint32 a / 2 ^ n.
Proof. intros Hn. unfold js_ushr. by rewrite Z.mod_small, Z.shiftr_div_pow2 by lia. Qed.

Lemma js_shr_div a n : 0 <= n < 32 -> is_int32 a -> a .>> n = a / 2 ^ n.
Proof. intros Hn Ha. unfold js_shr. by rewrite Z.mod_small, Z.shiftr_div_pow2, to_int32_id by (done || lia). Qed.

Lemma js_shl_mul a n : 0 <= n < 32 -> a .<< n = to_int32 (a * 2 ^ n).
Proof.
  intros Hn. unfold js_shl. rewrite Z.mod_small, Z.shiftl_mul_pow2 by lia.
  apply to_int32_inj. unfold to_uint32.
  rewrite <- Z.mul_mod_idemp_l, to_int32_mod, Z.mul_mod_idemp_l by lia. done.
Qed.

Lemma js_not_eq a : is_int32 a -> .~ a = - a - 1.
Proof. intros Ha. unfold js_not. rewrite to_int32_id by done. unfold Z.lnot. lia. Qed.

(** *** Rounding to a double

    [round53 z] is the Number closest to the integer [z] (ties to even), for
    magnitudes below [2^1024].  [div_floor53 a b] is [Math.floor(a / b)]
    where [a / b] is a Number division of non-negative integers: the exact
    quotient is rounded to 53 significant bits before the floor. *)
Definition round_half_even (num den : Z) : Z :=
  let q := num / den in
  let r := num mod den in
  if (den <? 2 * r) || ((2 * r =? den) && Z.odd q) then q + 1 else q.

Definition round53_abs (z : Z) : Z :=
  if z <? 2 ^ 53 then z
  else let e := Z.log2 z - 52 in round_half_even z (2 ^ e) * 2 ^ e.

Definition round53 (z : Z) : Z := Z.sgn z * round53_abs (Z.abs z).

Definition div_floor53 (a b : Z) : Z :=
  if a =? 0 then 0
  else
    let k0 := 52 - (Z.log2 a - Z.log2 b) in
    let scaled k := (a * 2 ^ Z.max k 0, b * 2 ^ Z.max (- k) 0) in
    let small k := let '(n, d) := scaled k in n <? 2 ^ 52 * d in
    let k := if small k0 then k0 + 1 else k0 in
    let '(n, d) := scaled k in
    let m := round_half_even n d in
    if 0 <=? k then m / 2 ^ k else m * 2 ^ (- k).

Lemma round_half_even_exact q den : 0 < den -> round_half_even (q * den) den = q.
Proof.
  intros Hd. unfold round_half_even. rewrite Z.div_mul, Z.mod_mul by lia.
  destruct (Z.ltb_spec den (2 * 0)); [lia|]. destruct (Z.eqb_spec (2 * 0) den); [lia|]. done.
Qed.

(** *** Bits of the operators *)

Lemma testbit_js_and a b i : 0 <= i < 32 -> Z.testbit (a .& b) i = Z.testbit a i && Z.testbit b i.
Proof. intros Hi. unfold js_and. by rewrite Z.land_spec, !testbit_to_int32_low by lia. Qed.

Lemma testbit_js_or a b i : 0 <= i < 32 -> Z.testbit (a .| b) i = Z.testbit a i || Z.testbit b i.
Proof. intros Hi. unfold js_or. by rewrite Z.lor_spec, !testbit_to_int32_low by lia. Qed.

Lemma testbit_js_xor a b i : 0 <= i < 32 -> Z.testbit (a .^ b) i = xorb (Z.testbit a i) (Z.testbit b i).
Proof. intros Hi. unfold js_xor. by rewrite Z.lxor_spec, !testbit_to_int32_low by lia. Qed.

Lemma testbit_js_not a i : 0 <= i < 32 -> Z.testbit (.~ a) i = negb (Z.testbit a i).
Proof. intros Hi. unfold js_not. by rewrite Z.lnot_spec, testbit_to_int32_low by lia. Qed.

Lemma testbit_js_shl a k i :
  0 <= k < 32 -> 0 <= i < 32 -> Z.testbit (a .<< k) i = (k <=? i) && Z.testbit a (i - k).
Proof.
  intros Hk Hi. unfold js_shl.
  rewrite Z.mod_small, testbit_to_int32_low, Z.shiftl_spec by lia.
  destruct (Z.leb_spec k i); cbn; [by rewrite testbit_to_int32_low by lia|].
  by rewrite Z.testbit_neg_r by lia.
Qed.

Lemma testbit_js_ushr a k i :
  0 <= k < 32 -> 0 <= i < 32 -> Z.testbit (a .>>> k) i = (i + k <? 32) && Z.testbit a (i + k).
Proof.
  intros Hk Hi. unfold js_ushr.
  by rewrite Z.mod_small, Z.shiftr_spec, testbit_to_uint32 by lia.
Qed.

#[export] Hint Rewrite testbit_js_and testbit_js_or testbit_js_xor testbit_js_not
  testbit_js_shl testbit_js_ushr using lia : jsbits.
