(* ===== verification/JsStr.v ===== *)
(** JavaScript strings as lists of characters, with the String and Number
    methods the driver calls on them.  Characters are Latin-1 code units. *)
From S2P Require Import Prelude.
From S2P Require Import JsNum.

(** A JavaScript string. *)
Abbreviation jsstr := (list ascii).

Definition str (s : string) : jsstr := list_ascii_of_string s.

#[export] Instance ascii_eq_dec : EqDecision ascii := ascii_dec.

Definition code (c : ascii) : Z := Z.of_N (N_of_ascii c).
Definition chr (z : Z) : ascii := ascii_of_N (Z.to_N z).

(** [s.substring(i, j)] for [i <= j], and [s.substr(i, n)]. *)
Definition substring (s : jsstr) (i j : nat) : jsstr := take (j - i) (drop i s).
Definition substr (s : jsstr) (i n : nat) : jsstr := take n (drop i s).

(** [s.charAt(i) == c] *)
Definition char_is (s : jsstr) (i : nat) (c : ascii) : bool :=
  match s !! i with Some d => bool_decide (d = c) | None => false end.

(** [s.indexOf(c)] for a one-character [c]; [None] is -1. *)
Fixpoint index_of (c : ascii) (s : jsstr) : option nat :=
  match s with
  | [] => None
  | d :: s' => if decide (d = c) then Some O else S <$> index_of c s'
  end.

Definition contains_char (c : ascii) (s : jsstr) : bool :=
  match index_of c s with Some _ => true | None => false end.

(** [s.split(c)] for a one-character separator. *)
Fixpoint split_on (c : ascii) (s : jsstr) : list jsstr :=
  match s with
  | [] => [[]]
  | d :: s' =>
      if decide (d = c) then [] :: split_on c s'
      else match split_on c s' with
           | w :: ws => (d :: w) :: ws
           | [] => [[d]]
           end
  end.

(** [ws.join(sep)] *)
Fixpoint join (sep : jsstr) (ws : list jsstr) : jsstr :=
  match ws with
  | [] => []
  | [w] => w
  | w :: ws' => w ++ sep ++ join sep ws'
  end.

Definition is_space (c : ascii) : bool :=
  let n := code c in
  (n =? 32) || ((9 <=? n) && (n <=? 13)) || (n =? 160).

Fixpoint trim_start (s : jsstr) : jsstr :=
  match s with
  | c :: s' => if is_space c then trim_start s' else s
  | [] => []
  end.

Definition trim (s : jsstr) : jsstr := rev (trim_start (rev (trim_start s))).

Definition lower (c : ascii) : ascii :=
  let n := code c in
  if ((65 <=? n) && (n <=? 90)) || ((192 <=? n) && (n <=? 222) && negb (n =? 215)) then chr (n + 32) else c.

Definition toLowerCase (s : jsstr) : jsstr := map lower s.

Definition is_digit (c : ascii) : bool := (48 <=? code c) && (code c <=? 57).

(** ** Digits *)

Definition digit_char (d : Z) : ascii := if d <? 10 then chr (48 + d) else chr (87 + d).

Definition char_digit (c : ascii) : option Z :=
  let n := code c in
  if (48 <=? n) && (n <=? 57) then Some (n - 48)
  else if (65 <=? n) && (n <=? 90) then Some (n - 55)
  else if (97 <=? n) && (n <=? 122) then Some (n - 87)
  else None.

(** The digits of [z >= 0], least significant first; none for zero. *)
Fixpoint digits_le (fuel : nat) (radix z : Z) : list Z :=
  match fuel with
  | O => []
  | S fuel' => if z <=? 0 then [] else z mod radix :: digits_le fuel' radix (z / radix)
  end.

(** [z.toString(radix)] for an integer [z]. *)
Definition num_to_string (radix z : Z) : jsstr :=
  let a := Z.abs z in
  let ds := digits_le (S (Z.to_nat (Z.log2 a))) radix a in
  (if z <? 0 then ["-"%char] else []) ++
  (if a =? 0 then ["0"%char] else rev (map digit_char ds)).

(** The longest prefix of radix-[radix] digits. *)
Fixpoint digit_prefix (radix : Z) (s : jsstr) : list Z :=
  match s with
  | [] => []
  | c :: s' =>
      match char_digit c with
      | Some d => if d <? radix then d :: digit_prefix radix s' else []
      | None => []
      end
  end.

(** [parseInt(s, radix)] with a non-zero radix; the value is exact, as the
    driver only parses numbers below [2^53]. *)
Definition parseInt (s : jsstr) (radix : Z) : number :=
  let s := trim_start s in
  let '(neg, s) :=
    match s with
    | c :: s' => if decide (c = "-"%char) then (true, s')
                 else if decide (c = "+"%char) then (false, s') else (false, s)
    | [] => (false, [])
    end in
  let s :=
    match s with
    | z :: x :: s' =>
        if (radix =? 16) && bool_decide (z = "0"%char) && bool_decide (lower x = "x"%char)
        then s' else s
    | _ => s
    end in
  match digit_prefix radix s with
  | [] => NaN
  | ds => let v := be_val radix ds in Int (if neg then - v else v)
  end.

(** ** Digit strings *)

Lemma be_val_app B l k : be_val B (l ++ k) = be_val B l * B ^ Z.of_nat (length k) + be_val B k.
Proof. unfold be_val. rewrite rev_app_distr, le_val_app, length_rev. ring. Qed.

Lemma be_val_cons B d l : be_val B (d :: l) = d * B ^ Z.of_nat (length l) + be_val B l.
Proof. change (d :: l) with ([d] ++ l). rewrite be_val_app. cbn. lia. Qed.

Lemma be_val_bound B l : 0 < B -> digits_in B l -> 0 <= be_val B l < B ^ Z.of_nat (length l).
Proof. intros HB Hl. rewrite <- length_rev. apply le_val_bounds; [done|]. by apply Forall_rev. Qed.

(** Little-endian digits without a zero on top are determined by their value. *)
Lemma le_val_canonical B l k :
  1 < B -> digits_in B l -> digits_in B k -> last l <> Some 0 -> last k <> Some 0 ->
  le_val B l = le_val B k -> l = k.
Proof.
  intros HB Hl. revert k. assert (Hz : forall l, digits_in B l -> last l <> Some 0 -> le_val B l = 0 -> l = []).
  { clear l Hl. intros l Hl. induction Hl as [|d l Hd Hl IH]; intros Hlast Hv; [done|]. cbn in Hv.
    pose proof (le_val_bounds B l ltac:(lia) Hl). assert (d = 0) as -> by nia.
    assert (le_val B l = 0) as E by nia. destruct l as [|e l]; [done|].
    discriminate (IH Hlast E). }
  induction Hl as [|d l Hd Hl IH]; intros k Hk H1 H2 Hv.
  - symmetry. by apply Hz.
  - destruct Hk as [|e k He Hk]; [by apply Hz; [constructor|..]|]. cbn in Hv.
    assert (d = e) as ->.
    { transitivity ((d + B * le_val B l) mod B); [|rewrite Hv];
        rewrite (Z.mul_comm B), Z.mod_add, Z.mod_small by lia; done. }
    f_equal. assert (Ev : le_val B l = le_val B k) by nia.
    apply IH; [done| | |done].
    + destruct l; [done|exact H1].
    + destruct k; [done|exact H2].
Qed.

Lemma digits_le_spec radix : 1 < radix -> forall fuel z,
  0 <= z < 2 ^ Z.of_nat fuel ->
  le_val radix (digits_le fuel radix z) = z /\ digits_in radix (digits_le fuel radix z) /\
  last (digits_le fuel radix z) <> Some 0.
Proof.
  intros Hr. induction fuel as [|fuel IH]; intros z Hz; cbn [digits_le].
  { cbn in *. split; [lia|]. split; [constructor|done]. }
  destruct (Z.leb_spec z 0). { cbn. split; [lia|]. split; [constructor|done]. }
  rewrite Nat2Z.inj_succ, Z.pow_succ_r in Hz by lia.
  assert (Hq : 0 <= z / radix < 2 ^ Z.of_nat fuel).
  { split; [apply Z.div_pos; lia|]. apply Z.div_lt_upper_bound; nia. }
  destruct (IH _ Hq) as (V & D & L). pose proof (Z.div_mod z radix ltac:(lia)).
  pose proof (Z.mod_pos_bound z radix ltac:(lia)). cbn [le_val]. split; [lia|]. split; [by constructor|].
  destruct (digits_le fuel radix (z / radix)) eqn:E; [|exact L]. cbn in *. intros [=]. lia.
Qed.

Definition num_digits (radix z : Z) : list Z := digits_le (S (Z.to_nat (Z.log2 z))) radix z.

Lemma num_digits_spec radix z :
  1 < radix -> 0 <= z ->
  le_val radix (num_digits radix z) = z /\ digits_in radix (num_digits radix z) /\
  last (num_digits radix z) <> Some 0.
Proof.
  intros Hr Hz. apply digits_le_spec; [done|]. split; [done|].
  pose proof (Z.log2_nonneg z). destruct (Z.eq_dec z 0) as [->|]; [done|].
  rewrite Nat2Z.inj_succ, Z2Nat.id by lia. apply Z.log2_spec. lia.
Qed.

Lemma num_to_string_pos radix z :
  0 < z -> num_to_string radix z = map digit_char (rev (num_digits radix z)).
Proof.
  intros Hz. unfold num_to_string, num_digits. rewrite map_rev.
  destruct (Z.ltb_spec z 0); [lia|]. rewrite Z.abs_eq by lia.
  destruct (Z.eqb_spec z 0); [lia|]. done.
Qed.

Lemma num_to_string_opp radix z : z < 0 -> "-"%char :: num_to_string radix (- z) = num_to_string radix z.
Proof.
  intros Hz. unfold num_to_string. rewrite Z.abs_opp.
  destruct (Z.ltb_spec (- z) 0); [lia|]. destruct (Z.ltb_spec z 0); [|lia]. done.
Qed.

Lemma num_to_string_digits radix z :
  1 < radix -> 0 <= z -> exists ds, num_to_string radix z = map digit_char ds /\ digits_in radix ds /\
    be_val radix ds = z /\ ds <> [].
Proof.
  intros Hr Hz. destruct (Z.eq_dec z 0) as [->|].
  { exists [0]. split_and!; [done|apply Forall_singleton; lia|cbn; lia|done]. }
  destruct (num_digits_spec radix z Hr Hz) as (V & D & L).
  exists (rev (num_digits radix z)). rewrite num_to_string_pos by lia.
  split_and!; [done|by apply Forall_rev|by unfold be_val; rewrite rev_involutive|].
  intros E. apply (f_equal (be_val radix)) in E. unfold be_val in E. rewrite rev_involutive, V in E. cbn in E. lia.
Qed.

Lemma le_val_length B l k :
  1 < B -> digits_in B l -> last l <> Some 0 -> le_val B l < B ^ Z.of_nat k -> (length l <= k)%nat.
Proof.
  intros HB D L V. destruct (Nat.le_gt_cases (length l) k) as [|Hgt]; [done|exfalso].
  destruct (last l) as [d|] eqn:E; [|apply last_None in E; subst; cbn in Hgt; lia].
  apply last_Some in E as [l' ->]. rewrite length_app in Hgt. cbn in Hgt.
  apply Forall_app in D as [D1 D2]. inversion D2 as [|? ? D3 _]; subst.
  rewrite le_val_app in V. cbn in V. rewrite Z.mul_0_r, Z.add_0_r in V.
  pose proof (le_val_bounds B l' ltac:(lia) D1). clear D2.
  assert (d <> 0) by congruence.
  assert (B ^ Z.of_nat k <= B ^ Z.of_nat (length l')) by (apply Z.pow_le_mono_r; clear -HB Hgt; lia).
  nia.
Qed.

Lemma rev_replicate {A} n (x : A) : rev (replicate n x) = replicate n x.
Proof. rewrite rev_alt. apply reverse_replicate. Qed.

Lemma map_replicate_digit n : map digit_char (replicate n 0) = replicate n "0"%char.
Proof. induction n as [|n IH]; cbn; [done|by rewrite IH]. Qed.

(** The text of [q * radix^k + r] is the text of [q] followed by the text of
    [r] padded with zeros to [k] digits. *)
Lemma num_to_string_app radix q r k :
  1 < radix -> 0 < q -> 0 <= r < radix ^ Z.of_nat k -> (0 < k)%nat ->
  num_to_string radix (q * radix ^ Z.of_nat k + r) =
  num_to_string radix q ++
    replicate (k - length (num_to_string radix r)) "0"%char ++ num_to_string radix r.
Proof.
  intros Hr Hq Hrk Hk.
  assert (Hp : 0 < radix ^ Z.of_nat k) by (apply Z.pow_pos_nonneg; lia).
  assert (Hpad : exists es, replicate (k - length (num_to_string radix r)) "0"%char ++ num_to_string radix r
      = map digit_char (rev es) /\ digits_in radix es /\ le_val radix es = r /\ length es = k).
  { destruct (Z.eq_dec r 0) as [->|].
    - exists (replicate k 0). split_and!.
      + cbn [num_to_string]. change (length (num_to_string radix 0)) with 1%nat.
        change (num_to_string radix 0) with (replicate 1 "0"%char).
        rewrite <- replicate_add, rev_replicate. replace (k - 1 + 1)%nat with k by lia.
        symmetry. apply map_replicate_digit.
      + apply Forall_replicate. lia.
      + apply le_val_replicate_0.
      + apply length_replicate.
    - destruct (num_digits_spec radix r Hr ltac:(lia)) as (V & D & L).
      assert (Hlen : (length (num_digits radix r) <= k)%nat).
      { apply (le_val_length radix); [done|done|done|lia]. }
      exists (num_digits radix r ++ replicate (k - length (num_digits radix r)) 0). split_and!.
      + rewrite num_to_string_pos, length_map, length_rev by lia.
        rewrite rev_app_distr, map_app, rev_replicate. f_equal.
        symmetry. apply map_replicate_digit.
      + apply Forall_app. split; [done|]. apply Forall_replicate. lia.
      + rewrite le_val_app, le_val_replicate_0. lia.
      + rewrite length_app, length_replicate. lia. }
  destruct Hpad as (es & -> & D & V & L).
  rewrite !num_to_string_pos, <- map_app, <- rev_app_distr by nia. do 2 f_equal.
  destruct (num_digits_spec radix (q * radix ^ Z.of_nat k + r) Hr ltac:(nia)) as (V1 & D1 & L1).
  destruct (num_digits_spec radix q Hr ltac:(nia)) as (V2 & D2 & L2).
  apply (le_val_canonical radix); [done|done|by apply Forall_app|done| |].
  - destruct (num_digits radix q) as [|d l]; [cbn in V2; lia|]. rewrite last_app.
    destruct (last (d :: l)) eqn:E; [exact L2|by apply last_None in E].
  - rewrite V1, le_val_app, V, L, V2. lia.
Qed.

Lemma digit_char_digit d : 0 <= d < 36 -> char_digit (digit_char d) = Some d.
Proof.
  intros Hd. assert (H : forallb (fun d => bool_decide (char_digit (digit_char d) = Some d)) (seqZ 0 36) = true)
    by (vm_compute; reflexivity).
  rewrite forallb_forall in H. specialize (H d ltac:(apply list_elem_of_In, elem_of_seqZ; lia)).
  by apply bool_decide_eq_true_1 in H.
Qed.

Lemma digit_char_plain d : 0 <= d < 36 ->
  is_space (digit_char d) = false /\ digit_char d <> "-"%char /\ digit_char d <> "+"%char.
Proof.
  intros Hd. assert (H : forallb (fun d => negb (is_space (digit_char d)) &&
    bool_decide (digit_char d <> "-"%char) && bool_decide (digit_char d <> "+"%char)) (seqZ 0 36) = true)
    by (vm_compute; reflexivity).
  rewrite forallb_forall in H.
  specialize (H d ltac:(apply list_elem_of_In, elem_of_seqZ; lia)).
  apply andb_prop in H as [[H1 H2]%andb_prop H3]. rewrite negb_true_iff in H1.
  by apply bool_decide_eq_true_1 in H2, H3.
Qed.

Lemma digit_char_is_digit d : 0 <= d < 10 -> is_digit (digit_char d) = true.
Proof.
  intros Hd. assert (H : forallb (fun d => is_digit (digit_char d)) (seqZ 0 10) = true) by (vm_compute; reflexivity).
  rewrite forallb_forall in H. apply H. apply list_elem_of_In, elem_of_seqZ. lia.
Qed.

Lemma digit_char_not_minus d : 0 <= d < 36 -> digit_char d <> "-"%char.
Proof. apply digit_char_plain. Qed.

Lemma contains_minus_digits ds :
  Forall (fun d => 0 <= d < 36) ds -> contains_char "-"%char (map digit_char ds) = false.
Proof.
  unfold contains_char. induction 1 as [|d ds Hd _ IH]; cbn; [done|].
  destruct (decide _) as [E|]; [by apply digit_char_not_minus in E|].
  by destruct (index_of _ _).
Qed.

Lemma digit_prefix_digits radix ds tail :
  2 <= radix <= 36 -> digits_in radix ds ->
  (forall c rest d, tail = c :: rest -> char_digit c = Some d -> radix <= d) ->
  digit_prefix radix (map digit_char ds ++ tail) = ds.
Proof.
  intros Hr Hds Htail. induction Hds as [|d ds Hd _ IH]; cbn.
  - destruct tail as [|c rest]; [done|]. cbn. destruct (char_digit c) eqn:E; [|done].
    specialize (Htail _ _ _ eq_refl E). destruct (Z.ltb_spec z radix); [lia|done].
  - rewrite digit_char_digit by lia. destruct (Z.ltb_spec d radix); [|lia]. by rewrite IH.
Qed.

(** [parseInt] of a non-empty digit string, whatever non-digit follows. *)
Lemma parseInt_prefix radix ds tail :
  2 <= radix <= 36 -> radix <> 16 -> digits_in radix ds -> ds <> [] ->
  (forall c rest d, tail = c :: rest -> char_digit c = Some d -> radix <= d) ->
  parseInt (map digit_char ds ++ tail) radix = Int (be_val radix ds).
Proof.
  intros Hr H16 Hds Hne Htail. pose proof (digit_prefix_digits radix ds tail Hr Hds Htail) as Hpre.
  destruct ds as [|d ds]; [done|]. inversion Hds as [|? ? Hd Hds']; subst.
  destruct (digit_char_plain d ltac:(lia)) as (H1 & H2 & H3).
  unfold parseInt. cbn [map app] in *. cbn [trim_start]. rewrite H1. cbv beta iota.
  destruct (decide _); [done|]. destruct (decide _); [done|]. cbv beta iota.
  destruct (Z.eqb_spec radix 16); [done|]. cbn [andb].
  destruct (map digit_char ds ++ tail) eqn:E; cbv beta iota; by rewrite Hpre.
Qed.

Lemma parseInt_digits radix ds :
  2 <= radix <= 15 -> digits_in radix ds -> ds <> [] ->
  parseInt (map digit_char ds) radix = Int (be_val radix ds).
Proof.
  intros Hr Hds Hne. rewrite <- (app_nil_r (map _ _)). apply parseInt_prefix; try done; lia.
Qed.
