(* ===== verification/Buffer.v ===== *)
(** Node's [Buffer], as a list of bytes (integers in [0, 256)), with the
    fixed-width big-endian accessors the driver uses.  An access past the end
    and a value that does not fit both throw a [RangeError]. *)
From S2P Require Import Prelude.
From S2P Require Import JsNum.

Definition bytes_ok (buf : list Z) : Prop := digits_in 256 buf.

(** The [n] low bytes of [v], least significant first. *)
Fixpoint le_bytes (n : nat) (v : Z) : list Z :=
  match n with
  | O => []
  | S n' => v mod 256 :: le_bytes n' (v / 256)
  end.

Definition be_bytes (n : nat) (v : Z) : list Z := rev (le_bytes n v).

(** [v] read as a signed integer of [n] bytes. *)
Definition to_signed (n : nat) (v : Z) : Z :=
  if v <? 2 ^ (8 * Z.of_nat n - 1) then v else v - 2 ^ (8 * Z.of_nat n).

(** [buf.slice(i, j)] for [0 <= i]; a slice past the end is cut. *)
Definition slice (buf : list Z) (i j : nat) : list Z := take (j - i) (drop i buf).

(** [readUInt8], [readUInt16BE], [readUInt32BE] for [n] = 1, 2, 4. *)
Definition readUInt (n : nat) (buf : list Z) (off : nat) : result Z :=
  if (off + n <=? length buf)%nat then Ok (be_val 256 (slice buf off (off + n)))
  else Throw RangeError.

(** [readInt8], [readInt16BE], [readInt32BE]. *)
Definition readInt (n : nat) (buf : list Z) (off : nat) : result Z :=
  to_signed n <$> readUInt n buf off.

(** The bytes [writeUInt8], [writeUInt16BE], [writeUInt32BE] store. *)
Definition writeUInt (n : nat) (v : Z) : result (list Z) :=
  if (0 <=? v) && (v <? 2 ^ (8 * Z.of_nat n)) then Ok (be_bytes n v) else Throw RangeError.

(** The bytes [writeInt8], [writeInt16BE], [writeInt32BE] store. *)
Definition writeInt (n : nat) (v : Z) : result (list Z) :=
  if (- 2 ^ (8 * Z.of_nat n - 1) <=? v) && (v <? 2 ^ (8 * Z.of_nat n - 1))
  then Ok (be_bytes n v) else Throw RangeError.

(** [src.copy(buf, off)] within bounds. *)
Definition splice (buf : list Z) (off : nat) (bytes : list Z) : list Z :=
  take off buf ++ bytes ++ drop (off + length bytes) buf.

(** ** Facts *)

Lemma length_le_bytes n v : length (le_bytes n v) = n.
Proof. revert v; induction n as [|n IH]; intros v; cbn; [done|by rewrite IH]. Qed.

Lemma le_bytes_ok n v : bytes_ok (le_bytes n v).
Proof.
  revert v; induction n as [|n IH]; intros v; constructor; [|apply IH].
  apply Z.mod_pos_bound; lia.
Qed.

Lemma le_val_le_bytes n v : le_val 256 (le_bytes n v) = v mod 256 ^ Z.of_nat n.
Proof.
  revert v; induction n as [|n IH]; intros v; cbn [le_bytes le_val].
  - by rewrite Z.pow_0_r, Z.mod_1_r.
  - rewrite IH, Nat2Z.inj_succ, Z.pow_succ_r by lia.
    rewrite Z.rem_mul_r by (try apply Z.pow_pos_nonneg; lia). lia.
Qed.

Lemma pow256 n : 256 ^ Z.of_nat n = 2 ^ (8 * Z.of_nat n).
Proof. rewrite Z.pow_mul_r by lia. done. Qed.

Lemma length_be_bytes n v : length (be_bytes n v) = n.
Proof. unfold be_bytes. by rewrite length_rev, length_le_bytes. Qed.

Lemma be_bytes_ok n v : bytes_ok (be_bytes n v).
Proof. unfold be_bytes. apply Forall_rev, le_bytes_ok. Qed.

Lemma be_val_be_bytes n v : be_val 256 (be_bytes n v) = v mod 2 ^ (8 * Z.of_nat n).
Proof. unfold be_val, be_bytes. by rewrite rev_involutive, le_val_le_bytes, pow256. Qed.

Lemma be_val_bounds buf :
  bytes_ok buf -> 0 <= be_val 256 buf < 2 ^ (8 * Z.of_nat (length buf)).
Proof.
  intros H. rewrite <- pow256, <- length_rev. apply le_val_bounds; [lia|]. by apply Forall_rev.
Qed.

Lemma be_bytes_be_val buf : bytes_ok buf -> be_bytes (length buf) (be_val 256 buf) = buf.
Proof.
  intros H. unfold be_bytes. rewrite <- (rev_involutive buf) at 3. f_equal.
  apply (le_val_inj 256).
  - lia.
  - apply le_bytes_ok.
  - by apply Forall_rev.
  - by rewrite length_le_bytes, length_rev.
  - rewrite le_val_le_bytes. apply Z.mod_small.
    pose proof (be_val_bounds buf H). by rewrite pow256.
Qed.

Lemma slice_full buf : slice buf 0 (length buf) = buf.
Proof. unfold slice. by rewrite Nat.sub_0_r, take_ge. Qed.

(** Reading at the offset where [bytes] were put. *)
Lemma slice_app n pre bytes post :
  length bytes = n ->
  slice (pre ++ bytes ++ post) (length pre) (length pre + n) = bytes.
Proof.
  intros <-. unfold slice. replace (length pre + length bytes - length pre)%nat with (length bytes) by lia.
  by rewrite drop_app_length, take_app_length.
Qed.

Lemma to_signed_mod n v :
  (0 < n)%nat -> - 2 ^ (8 * Z.of_nat n - 1) <= v < 2 ^ (8 * Z.of_nat n - 1) ->
  to_signed n (v mod 2 ^ (8 * Z.of_nat n)) = v.
Proof.
  intros Hn Hv. unfold to_signed.
  assert (Hp : 2 ^ (8 * Z.of_nat n) = 2 * 2 ^ (8 * Z.of_nat n - 1)).
  { rewrite <- Z.pow_succ_r by lia. f_equal. lia. }
  rewrite Hp. set (h := 2 ^ _) in *.
  destruct (Z.lt_ge_cases v 0).
  - rewrite <- (Z.mod_add v 1), Z.mod_small by lia.
    destruct (Z.ltb_spec (v + 1 * (2 * h)) h); lia.
  - rewrite Z.mod_small by lia. destruct (Z.ltb_spec v h); lia.
Qed.

Lemma writeUInt_small n v : 0 <= v < 2 ^ (8 * Z.of_nat n) -> writeUInt n v = Ok (be_bytes n v).
Proof.
  intros Hv. unfold writeUInt.
  destruct (Z.leb_spec 0 v), (Z.ltb_spec v (2 ^ (8 * Z.of_nat n))); try lia. done.
Qed.

Lemma readUInt_writeUInt n v bytes pre post :
  writeUInt n v = Ok bytes -> readUInt n (pre ++ bytes ++ post) (length pre) = Ok v.
Proof.
  unfold writeUInt, readUInt. destruct (andb _ _) eqn:E; [intros [= <-]|done].
  apply andb_prop in E as [E1%Z.leb_le E2%Z.ltb_lt].
  rewrite !length_app, length_be_bytes.
  destruct (Nat.leb_spec (length pre + n) (length pre + (n + length post))); [|lia].
  rewrite slice_app, be_val_be_bytes by apply length_be_bytes.
  by rewrite Z.mod_small by lia.
Qed.

Lemma readInt_writeInt n v bytes pre post :
  (0 < n)%nat -> writeInt n v = Ok bytes ->
  readInt n (pre ++ bytes ++ post) (length pre) = Ok v.
Proof.
  intros Hn. unfold writeInt, readInt, readUInt. destruct (andb _ _) eqn:E; [intros [= <-]|done].
  apply andb_prop in E as [E1%Z.leb_le E2%Z.ltb_lt].
  rewrite !length_app, length_be_bytes.
  destruct (Nat.leb_spec (length pre + n) (length pre + (n + length post))); [|lia].
  rewrite slice_app, be_val_be_bytes by apply length_be_bytes. cbn.
  by rewrite to_signed_mod by done.
Qed.

Lemma writeInt_ok n v bytes :
  writeInt n v = Ok bytes -> bytes = be_bytes n v /\ length bytes = n /\ bytes_ok bytes.
Proof.
  unfold writeInt. destruct (andb _ _); [intros [= <-]|done].
  split; [done|]. split; [apply length_be_bytes | apply be_bytes_ok].
Qed.

Lemma writeUInt_ok n v bytes :
  writeUInt n v = Ok bytes -> bytes = be_bytes n v /\ length bytes = n /\ bytes_ok bytes.
Proof.
  unfold writeUInt. destruct (andb _ _); [intros [= <-]|done].
  split; [done|]. split; [apply length_be_bytes | apply be_bytes_ok].
Qed.

#[export] Hint Rewrite length_be_bytes length_le_bytes be_val_be_bytes : jsval.
#[export] Hint Resolve be_bytes_ok le_bytes_ok : jsval.

(** Bytes depend only on the value modulo [2^(8n)], and the bytes of a long
    value are those of its high part followed by those of its low part. *)
Lemma be_bytes_mod n v w :
  v mod 2 ^ (8 * Z.of_nat n) = w mod 2 ^ (8 * Z.of_nat n) -> be_bytes n v = be_bytes n w.
Proof.
  intros E. rewrite <- (be_bytes_be_val (be_bytes n v)), <- (be_bytes_be_val (be_bytes n w)) by apply be_bytes_ok.
  by rewrite !length_be_bytes, !be_val_be_bytes, E.
Qed.

Lemma le_bytes_app a b v : le_bytes (a + b) v = le_bytes a v ++ le_bytes b (v / 256 ^ Z.of_nat a).
Proof.
  revert v. induction a as [|a IH]; intros v; cbn [le_bytes Nat.add app].
  - by rewrite Z.div_1_r.
  - rewrite IH, Nat2Z.inj_succ, Z.pow_succ_r by lia.
    rewrite Z.div_div by (try (apply Z.pow_pos_nonneg); lia). done.
Qed.

Lemma be_bytes_app a b v : be_bytes (a + b) v = be_bytes a (v / 256 ^ Z.of_nat b) ++ be_bytes b v.
Proof. unfold be_bytes. by rewrite Nat.add_comm, le_bytes_app, rev_app_distr. Qed.

Lemma be_bytes_S n v : be_bytes (S n) v = be_bytes n (v / 256) ++ [v mod 256].
Proof. done. Qed.

Lemma be_bytes_head n v : be_bytes (S n) v = (v / 256 ^ Z.of_nat n) mod 256 :: be_bytes n v.
Proof. by rewrite (be_bytes_app 1 n). Qed.
