(* ===== verification/Integer.v ===== *)
(** [lib/types/integer.js]: the arbitrary-precision [Integer].

    An [Integer] keeps little-endian 32-bit signed pieces and a sign (0 or
    -1) that fills all higher pieces.  [Integer_val] is the number it stands
    for; the theorems relate each operation to the arithmetic of [Z]. *)
From S2P Require Import Prelude.
From S2P Require Import JsNum.
From S2P Require Import JsStr.
From S2P Require Import Buffer.

(** ** Data *)

Record Integer := mkInteger { bits_ : list Z; sign_ : Z }.

#[export] Instance Integer_eq_dec : EqDecision Integer.
Proof. solve_decision. Defined.

(** The constructor's loop, from the top piece down: [top] while every piece
    seen equals the sign. *)
Fixpoint Integer_prune (sign : Z) (rbits : list Z) (top : bool) (acc : list Z) : list Z :=
  match rbits with
  | [] => acc
  | b :: rest =>
      let val := b .| 0 in
      if negb top || negb (val =? sign)
      then Integer_prune sign rest false (val :: acc)
      else Integer_prune sign rest top acc
  end.

Definition Integer_new (bits : list Z) (sign : Z) : Integer :=
  mkInteger (Integer_prune sign (rev bits) true []) sign.

Definition Integer_fromInt (value : Z) : Integer :=
  Integer_new [value .| 0] (if value <? 0 then -1 else 0).

Definition Integer_ZERO : Integer := Integer_fromInt 0.
Definition Integer_ONE : Integer := Integer_fromInt 1.
Definition Integer_TWO_PWR_24_ : Integer := Integer_fromInt (1 .<< 24).

Definition Integer_fromBits (bits : list Z) : Integer :=
  let high := rd bits (length bits - 1) in
  Integer_new bits (if (high .& (1 .<< 31)) =? 0 then 0 else -1).

Definition Integer_getBits (x : Integer) (index : Z) : Z :=
  if index <? 0 then 0
  else match bits_ x !! Z.to_nat index with
       | Some b => b
       | None => sign_ x
       end.

Definition Integer_getBitsUnsigned (x : Integer) (index : Z) : Z :=
  let val := Integer_getBits x index in
  if 0 <=? val then val else 2 ^ 32 + val.

Definition Integer_getSign (x : Integer) : Z := sign_ x.

Definition Integer_toInt (x : Integer) : Z :=
  match bits_ x with [] => sign_ x | b :: _ => b end.

Definition Integer_isZero (x : Integer) : bool :=
  (sign_ x =? 0) && forallb (fun b => b =? 0) (bits_ x).

Definition Integer_isNegative (x : Integer) : bool := sign_ x =? -1.

Definition Integer_isOdd (x : Integer) : bool :=
  match bits_ x with
  | [] => sign_ x =? -1
  | b :: _ => negb ((b .& 1) =? 0)
  end.

Definition Integer_length (x : Integer) : nat := length (bits_ x).

(** Loops [for (i = 0; i < len; i++) arr[i] = f(i)]. *)
Definition tabulate (len : nat) (f : Z -> Z) : list Z := map f (seqZ 0 (Z.of_nat len)).

Definition Integer_equals (x other : Integer) : bool :=
  (sign_ x =? sign_ other) &&
  forallb (fun i => Integer_getBits x i =? Integer_getBits other i)
    (seqZ 0 (Z.of_nat (Nat.max (Integer_length x) (Integer_length other)))).

Definition Integer_notEquals (x other : Integer) : bool := negb (Integer_equals x other).

(** ** Addition *)

(** Iterations [i, i + 1, ...] of the loop of [add], [n] of them. *)
Fixpoint Integer_add_loop (x other : Integer) (i : Z) (n : nat) (carry : Z) : list Z :=
  match n with
  | O => []
  | S n' =>
      let a1 := Integer_getBits x i .>>> 16 in
      let a0 := Integer_getBits x i .& 65535 in
      let b1 := Integer_getBits other i .>>> 16 in
      let b0 := Integer_getBits other i .& 65535 in
      let c0 := carry + a0 + b0 in
      let c1 := (c0 .>>> 16) + a1 + b1 in
      let carry' := c1 .>>> 16 in
      let c0' := c0 .& 65535 in
      let c1' := c1 .& 65535 in
      ((c1' .<< 16) .| c0') :: Integer_add_loop x other (i + 1) n' carry'
  end.

Definition Integer_add (x other : Integer) : Integer :=
  let len := Nat.max (Integer_length x) (Integer_length other) in
  Integer_fromBits (Integer_add_loop x other 0 (S len) 0).

Definition Integer_not (x : Integer) : Integer :=
  Integer_new (map js_not (bits_ x)) (.~ sign_ x).

Definition Integer_negate (x : Integer) : Integer := Integer_add (Integer_not x) Integer_ONE.

Definition Integer_subtract (x other : Integer) : Integer := Integer_add x (Integer_negate other).

Definition Integer_abs (x : Integer) : Integer :=
  if sign_ x =? 0 then x else Integer_negate x.

(** ** Comparison *)

Definition Integer_compare (x other : Integer) : Z :=
  let diff := Integer_subtract x other in
  if Integer_isNegative diff then -1
  else if Integer_isZero diff then 0
  else 1.

Definition Integer_greaterThan (x other : Integer) : bool := 0 <? Integer_compare x other.
Definition Integer_greaterThanOrEqual (x other : Integer) : bool := 0 <=? Integer_compare x other.
Definition Integer_lessThan (x other : Integer) : bool := Integer_compare x other <? 0.
Definition Integer_lessThanOrEqual (x other : Integer) : bool := Integer_compare x other <=? 0.

(** ** Bitwise operations and shifts *)

Definition Integer_bitop (op : Z -> Z -> Z) (x other : Integer) : Integer :=
  let len := Nat.max (Integer_length x) (Integer_length other) in
  Integer_new (tabulate len (fun i => op (Integer_getBits x i) (Integer_getBits other i)))
              (op (sign_ x) (sign_ other)).

Definition Integer_and (x other : Integer) : Integer := Integer_bitop js_and x other.
Definition Integer_or (x other : Integer) : Integer := Integer_bitop js_or x other.
Definition Integer_xor (x other : Integer) : Integer := Integer_bitop js_xor x other.

Definition Integer_shiftLeft (x : Integer) (numBits : Z) : Integer :=
  let arrDelta := numBits .>> 5 in
  let bitDelta := Z.rem numBits 32 in
  let len := Z.of_nat (Integer_length x) + arrDelta + (if 0 <? bitDelta then 1 else 0) in
  Integer_new
    (tabulate (Z.to_nat len) (fun i =>
       if 0 <? bitDelta
       then (Integer_getBits x (i - arrDelta) .<< bitDelta) .|
            (Integer_getBits x (i - arrDelta - 1) .>>> (32 - bitDelta))
       else Integer_getBits x (i - arrDelta)))
    (sign_ x).

Definition Integer_shiftRight (x : Integer) (numBits : Z) : Integer :=
  let arrDelta := numBits .>> 5 in
  let bitDelta := Z.rem numBits 32 in
  let len := Z.of_nat (Integer_length x) - arrDelta in
  Integer_new
    (tabulate (Z.to_nat len) (fun i =>
       if 0 <? bitDelta
       then (Integer_getBits x (i + arrDelta) .>>> bitDelta) .|
            (Integer_getBits x (i + arrDelta + 1) .<< (32 - bitDelta))
       else Integer_getBits x (i + arrDelta)))
    (sign_ x).

Definition Integer_shorten (x : Integer) (numBits : Z) : Integer :=
  let arrIndex := (numBits - 1) .>> 5 in
  let bitIndex := Z.rem (numBits - 1) 32 in
  let bits := tabulate (Z.to_nat arrIndex) (Integer_getBits x) in
  let sigBits := if bitIndex =? 31 then 4294967295 else (1 .<< (bitIndex + 1)) - 1 in
  let val := Integer_getBits x arrIndex .& sigBits in
  if negb ((val .& (1 .<< bitIndex)) =? 0)
  then Integer_new (bits ++ [val .| (4294967295 - sigBits)]) (-1)
  else Integer_new (bits ++ [val]) 0.

(** ** The value an [Integer] stands for *)

Definition Integer_val (x : Integer) : Z :=
  le_val (2 ^ 32) (map to_uint32 (bits_ x)) +
  sign_ x * 2 ^ (32 * Z.of_nat (length (bits_ x))).

(** ** Conversions from and to Numbers *)

(** Iterations of [fromNumber]'s loop; [m / 2^e] is the value. *)
Fixpoint Integer_fromNumber_loop (fuel : nat) (m : Z) (e : N) (pow : Z) : list Z :=
  match fuel with
  | O => []
  | S fuel' =>
      if pow * 2 ^ Z.of_N e <=? m
      then to_int32 (m / (2 ^ Z.of_N e * pow)) ::
           Integer_fromNumber_loop fuel' m e (pow * 2 ^ 32)
      else []
  end.

Definition Integer_fromNumber (value : number) : Integer :=
  let nonneg m e :=
    Integer_new (Integer_fromNumber_loop (S (S (Z.to_nat (Z.log2 m / 32)))) m e 1) 0 in
  match value with
  | NaN | Infinity _ => Integer_ZERO
  | Fin m e => if m <? 0 then Integer_negate (nonneg (- m) e) else nonneg m e
  end.

(** [toNumber] of a non-negative value: the accumulating loop, each addition
    rounded to a double. *)
Definition Integer_toNumber_loop (x : Integer) : Z :=
  fst (foldl (fun '(val, pow) i =>
                (round53 (val + Integer_getBitsUnsigned x i * pow), pow * 2 ^ 32))
             (0, 1) (seqZ 0 (Z.of_nat (Integer_length x)))).

Definition Integer_toNumber (x : Integer) : Z :=
  if Integer_isNegative x then - Integer_toNumber_loop (Integer_negate x)
  else Integer_toNumber_loop x.

(** ** Multiplication *)

(** One test of [while ((bits[index] & 0xffff) != bits[index])] and its body. *)
Definition Integer_carry16_step (index : nat) (bits : list Z) : list Z + list Z :=
  let v := rd bits index in
  if (v .& 65535) =? v then inr bits
  else
    let bits := <[S index := rd bits (S index) + (v .>>> 16)]> bits in
    inl (<[index := rd bits index .& 65535]> bits).

Definition Integer_carry16_ (bits : list Z) (index : nat) : list Z :=
  match js_while 2 (Integer_carry16_step index) bits with
  | inl bits' | inr bits' => bits'
  end.

(** [arr[k] += v; carry16_(arr, k)] *)
Definition Integer_accumulate (arr : list Z) (k : nat) (v : Z) : list Z :=
  Integer_carry16_ (<[k := rd arr k + v]> arr) k.

(** The body of the double loop, for pieces [a] and [b] at [k = 2 * i + 2 * j]. *)
Definition Integer_mul_at (arr : list Z) (k : nat) (a b : Z) : list Z :=
  let a1 := a .>>> 16 in
  let a0 := a .& 65535 in
  let b1 := b .>>> 16 in
  let b0 := b .& 65535 in
  let arr := Integer_accumulate arr k (a0 * b0) in
  let arr := Integer_accumulate arr (k + 1) (a1 * b0) in
  let arr := Integer_accumulate arr (k + 1) (a0 * b1) in
  Integer_accumulate arr (k + 2) (a1 * b1).

Definition Integer_mul_products (x other : Integer) (arr : list Z) : list Z :=
  foldl (fun arr i =>
    foldl (fun arr j =>
      Integer_mul_at arr (2 * i + 2 * j)
        (Integer_getBits x (Z.of_nat i)) (Integer_getBits other (Z.of_nat j)))
      arr (seq 0 (Integer_length other)))
    arr (seq 0 (Integer_length x)).

(** The last two loops: combine pairs of 16-bit values in place, clear the rest. *)
Definition Integer_mul_combine (len : nat) (arr : list Z) : list Z :=
  let arr := foldl (fun arr i =>
               <[i := (rd arr (2 * i + 1) .<< 16) .| rd arr (2 * i)]> arr)
             arr (seq 0 len) in
  foldl (fun arr i => <[i := 0]> arr) arr (seq len len).

(** The part of [multiply] reached with two non-negative values. *)
Definition Integer_multiply_nonneg (x other : Integer) : Integer :=
  if Integer_lessThan x Integer_TWO_PWR_24_ && Integer_lessThan other Integer_TWO_PWR_24_
  then Integer_fromNumber (Int (round53 (Integer_toNumber x * Integer_toNumber other)))
  else
    let len := (Integer_length x + Integer_length other)%nat in
    let arr := Integer_mul_products x other (replicate (2 * len) 0) in
    Integer_new (Integer_mul_combine len arr) 0.

(** [multiply] calls itself on negated operands; such a call has no negative
    operand left, so a depth of one is enough. *)
Fixpoint Integer_multiply_rec (depth : nat) (x other : Integer) : Integer :=
  match depth with
  | O => Integer_multiply_nonneg x other
  | S d =>
      if Integer_isZero x then Integer_ZERO
      else if Integer_isZero other then Integer_ZERO
      else if Integer_isNegative x then
        if Integer_isNegative other
        then Integer_multiply_rec d (Integer_negate x) (Integer_negate other)
        else Integer_negate (Integer_multiply_rec d (Integer_negate x) other)
      else if Integer_isNegative other
        then Integer_negate (Integer_multiply_rec d x (Integer_negate other))
      else Integer_multiply_nonneg x other
  end.

Definition Integer_multiply (x other : Integer) : Integer := Integer_multiply_rec 2 x other.

(** ** Division *)

Section division.
(** [Math.ceil(Math.log(approx) / Math.LN2)]: ECMAScript leaves the accuracy
    of [Math.log] to the implementation. *)
Context (ceil_log2 : Z -> Z).

(** The decrement [delta] for an approximation. *)
Definition Integer_div_delta (approx : Z) : Z :=
  let log2 := ceil_log2 approx in
  if log2 <=? 48 then 1 else 2 ^ (log2 - 48).

(** [while (approxRem.isNegative() || approxRem.greaterThan(rem))] *)
Definition Integer_div_refine (other rem : Integer) (delta : Z)
    (s : Z * Integer * Integer) : (Z * Integer * Integer) + (Integer * Integer) :=
  let '(approx, approxRes, approxRem) := s in
  if Integer_isNegative approxRem || Integer_greaterThan approxRem rem then
    let approx := round53 (approx - delta) in
    let approxRes := Integer_fromNumber (Int approx) in
    inl (approx, approxRes, Integer_multiply approxRes other)
  else inr (approxRes, approxRem).

(** One iteration of [while (rem.greaterThanOrEqual(other))]. *)
Definition Integer_div_step (other : Integer) (s : Integer * Integer)
    : (Integer * Integer) + result Integer :=
  let '(res, rem) := s in
  if Integer_greaterThanOrEqual rem other then
    let approx := Z.max 1 (div_floor53 (Integer_toNumber rem) (Integer_toNumber other)) in
    let delta := Integer_div_delta approx in
    let approxRes := Integer_fromNumber (Int approx) in
    match js_while (Z.to_pos (approx + 1)) (Integer_div_refine other rem delta)
            (approx, approxRes, Integer_multiply approxRes other) with
    | inl _ => inr (Throw OutOfFuel)
    | inr (approxRes, approxRem) =>
        let approxRes := if Integer_isZero approxRes then Integer_ONE else approxRes in
        inl (Integer_add res approxRes, Integer_subtract rem approxRem)
    end
  else inr (Ok res).

Definition Integer_divide_nonneg (x other : Integer) : result Integer :=
  match js_while (Z.to_pos (Integer_val x + 1)) (Integer_div_step other)
          (Integer_ZERO, x) with
  | inl _ => Throw OutOfFuel
  | inr r => r
  end.

Fixpoint Integer_divide_rec (depth : nat) (x other : Integer) : result Integer :=
  match depth with
  | O => Integer_divide_nonneg x other
  | S d =>
      if Integer_isZero other then Throw PlainError
      else if Integer_isZero x then Ok Integer_ZERO
      else if Integer_isNegative x then
        if Integer_isNegative other
        then Integer_divide_rec d (Integer_negate x) (Integer_negate other)
        else Integer_negate <$> Integer_divide_rec d (Integer_negate x) other
      else if Integer_isNegative other
        then Integer_negate <$> Integer_divide_rec d x (Integer_negate other)
      else Integer_divide_nonneg x other
  end.

Definition Integer_divide (x other : Integer) : result Integer := Integer_divide_rec 2 x other.

Definition Integer_modulo (x other : Integer) : result Integer :=
  q ← Integer_divide x other; Ok (Integer_subtract x (Integer_multiply q other)).

(** ** Text *)

(** The loop of [toString] on a non-negative value: [rem] and the text so far. *)
Definition Integer_toString_step (radix : Z) (radixToPower : Integer)
    (s : Integer * jsstr) : (Integer * jsstr) + result jsstr :=
  let '(rem, res) := s in
  match Integer_divide rem radixToPower with
  | Throw e => inr (Throw e)
  | Ok remDiv =>
      let intval := Integer_toInt (Integer_subtract rem (Integer_multiply remDiv radixToPower)) in
      let digits := num_to_string radix intval in
      if Integer_isZero remDiv then inr (Ok (digits ++ res))
      else inl (remDiv, replicate (6 - length digits) "0"%char ++ digits ++ res)
  end.

Definition Integer_toString_nonneg (radix : Z) (x : Integer) : result jsstr :=
  let radixToPower := Integer_fromNumber (Int (radix ^ 6)) in
  match js_while (Z.to_pos (Integer_val x + 1)) (Integer_toString_step radix radixToPower)
          (x, []) with
  | inl _ => Throw OutOfFuel
  | inr r => r
  end.

(** [optRadix] is 0 when the argument is absent. *)
Definition Integer_toString (x : Integer) (optRadix : Z) : result jsstr :=
  let radix := if optRadix =? 0 then 10 else optRadix in
  if (radix <? 2) || (36 <? radix) then Throw PlainError
  else if Integer_isZero x then Ok (str "0")
  else if Integer_isNegative x
    then cons "-"%char <$> Integer_toString_nonneg radix (Integer_negate x)
  else Integer_toString_nonneg radix x.
End division.

(** The loop of [fromString]: eight characters at a time. *)
Fixpoint Integer_fromString_loop (fuel : nat) (radix : Z) (s : jsstr) (res : Integer) : Integer :=
  match fuel, s with
  | S fuel', _ :: _ =>
      let size := Nat.min 8 (length s) in
      let value := Integer_fromNumber (parseInt (substring s 0 size) radix) in
      let res :=
        if (size <? 8)%nat
        then let power := Integer_fromNumber (Int (radix ^ Z.of_nat size)) in
             Integer_add (Integer_multiply res power) value
        else Integer_add (Integer_multiply res (Integer_fromNumber (Int (radix ^ 8)))) value in
      Integer_fromString_loop fuel' radix (drop 8 s) res
  | _, _ => res
  end.

Fixpoint Integer_fromString (s : jsstr) (optRadix : Z) : result Integer :=
  match s with
  | [] => Throw TypeError
  | c :: s' =>
      let radix := if optRadix =? 0 then 10 else optRadix in
      if (radix <? 2) || (36 <? radix) then Throw PlainError
      else if decide (c = "-"%char) then Integer_negate <$> Integer_fromString s' radix
      else if contains_char "-"%char s then Throw TypeError
      else Ok (Integer_fromString_loop (length s) radix s Integer_ZERO)
  end.

(** ** Buffers *)

(** The first group of [fromBuffer] when the length is not a multiple of 4:
    the [offset] leading bytes, inverted when the value is negative. *)
Definition Integer_fromBuffer_head (buf : list Z) (sign : Z) (offset : nat) : Z :=
  let value := foldl (fun value j =>
    let byte := rd buf j in
    let byte := if sign =? -1 then (.~ byte) .& 255 else byte in
    value .| (byte .<< ((Z.of_nat offset - Z.of_nat j - 1) * 8))) 0 (seq 0 offset) in
  if sign =? -1 then .~ value else value.

Definition Integer_fromBuffer (buf : list Z) : Integer :=
  let n := ((length buf + 3) / 4)%nat in
  let sign := if (rd buf 0 .& (1 .<< 7)) =? 0 then 0 else -1 in
  let bits := map (fun i =>
    let offset := Z.of_nat (length buf) - (Z.of_nat i + 1) * 4 in
    if offset <? 0 then Integer_fromBuffer_head buf sign (Z.to_nat (offset + 4))
    else to_signed 4 (be_val 256 (slice buf (Z.to_nat offset) (Z.to_nat offset + 4))))
    (seq 0 n) in
  Integer_new bits sign.

(** The bytes of [high] in [toBuffer], before the sign padding. *)
Definition Integer_toBuffer_high (highBits : Z) : list Z :=
  (if 0 <? (highBits .>>> 24) then [(highBits .>> 24) .& 255] else []) ++
  (if 0 <? (highBits .>>> 16) then [(highBits .>> 16) .& 255] else []) ++
  (if 0 <? (highBits .>>> 8) then [(highBits .>> 8) .& 255] else []) ++
  [highBits .& 255].

Definition Integer_toBuffer (value : Integer) : list Z :=
  let sign := sign_ value in
  let bits := bits_ value in
  match bits with
  | [] => [sign mod 256]
  | _ =>
      let highBits := rd bits (length bits - 1) in
      let highBits := if sign =? -1 then .~ highBits else highBits in
      let high := Integer_toBuffer_high highBits in
      let high := if negb ((rd high 0 .>> 7) =? 0) then 0 :: high else high in
      map (fun b => (if sign =? -1 then .~ b else b) mod 256) high ++
      concat (map (fun i => be_bytes 4 (rd bits (length bits - 2 - i)))
                (seq 0 (length bits - 1)))
  end.
