(* ===== verification/IntegerArith.v ===== *)
(** Theorems on [Integer]: the constructor, addition, comparison, bitwise
    operations and shifts compute the operations of [Z] exactly, and every
    result is in canonical form. *)
From S2P Require Import Prelude.
From S2P Require Import JsNum.
From S2P Require Import JsStr.
From S2P Require Import Buffer.
From S2P Require Import Integer.

(** ** Canonical form *)

Definition is_sign (s : Z) : Prop := s = 0 \/ s = -1.

(** 32-bit pieces, a sign of 0 or -1, and no redundant top piece. *)
Record Integer_wf (x : Integer) : Prop := {
  wf_bits : Forall is_int32 (bits_ x);
  wf_sign : is_sign (sign_ x);
  wf_top : last (bits_ x) <> Some (sign_ x)
}.

(** The value of pieces [bits] extended with [sign]. *)
Definition raw_val (bits : list Z) (sign : Z) : Z :=
  le_val (2 ^ 32) (map to_uint32 bits) + sign * 2 ^ (32 * Z.of_nat (length bits)).

Definition raw_get (bits : list Z) (sign : Z) (i : Z) : Z :=
  match bits !! Z.to_nat i with Some b => b | None => sign end.

Lemma pow2_32 n : (2 ^ 32) ^ Z.of_nat n = 2 ^ (32 * Z.of_nat n).
Proof. by rewrite Z.pow_mul_r by lia. Qed.

Lemma map_uint32_digits l : digits_in (2 ^ 32) (map to_uint32 l).
Proof. apply Forall_map, Forall_true. intros z. apply to_uint32_range. Qed.

Lemma raw_val_app bits sign n :
  is_sign sign -> raw_val (bits ++ replicate n sign) sign = raw_val bits sign.
Proof.
  intros Hs. unfold raw_val.
  rewrite map_app, le_val_app, length_app, length_map, length_replicate, pow2_32.
  rewrite Nat2Z.inj_add, Z.mul_add_distr_l, Z.pow_add_r by lia.
  assert (le_val (2 ^ 32) (map to_uint32 (replicate n sign)) = - sign * (2 ^ (32 * Z.of_nat n) - 1)) as ->.
  { clear bits. rewrite <- pow2_32. induction n as [|n IH].
    - cbn. rewrite Z.pow_0_r. lia.
    - cbn [replicate map le_val]. rewrite IH, Nat2Z.inj_succ, Z.pow_succ_r by lia.
      destruct Hs as [-> | ->]; [change (to_uint32 0) with 0 | change (to_uint32 (-1)) with (2 ^ 32 - 1)]; lia. }
  lia.
Qed.

Lemma prune_false sign rbits acc :
  Integer_prune sign rbits false acc = rev (map to_int32 rbits) ++ acc.
Proof.
  revert acc. induction rbits as [|b rbits IH]; intros acc; [done|].
  cbn [Integer_prune negb orb map rev]. rewrite IH, <- app_assoc. cbn. do 2 f_equal.
  unfold js_or. by rewrite Z.lor_0_r.
Qed.

Lemma prune_true sign rbits :
  exists n, rev (map to_int32 rbits) = Integer_prune sign rbits true [] ++ replicate n sign /\
            last (Integer_prune sign rbits true []) <> Some sign.
Proof.
  induction rbits as [|b rbits IH]; [by exists O|].
  cbn [Integer_prune negb orb map rev].
  assert (b .| 0 = to_int32 b) as -> by (unfold js_or; by rewrite Z.lor_0_r).
  destruct (Z.eqb_spec (to_int32 b) sign) as [Hb|Hb]; cbn [negb].
  - destruct IH as (n & Hn & Hl). exists (S n). split; [|done].
    rewrite Hn, Hb, <- app_assoc. f_equal. by rewrite replicate_S_end.
  - exists O. rewrite prune_false, app_nil_r. split; [done|].
    rewrite last_snoc. congruence.
Qed.

Lemma map_uint32_int32 l : map to_uint32 (map to_int32 l) = map to_uint32 l.
Proof. rewrite map_map. apply map_ext. intros. apply to_uint32_int32. Qed.

Lemma Integer_new_spec bits sign :
  is_sign sign ->
  Integer_wf (Integer_new bits sign) /\ Integer_val (Integer_new bits sign) = raw_val bits sign.
Proof.
  intros Hs. destruct (prune_true sign (rev bits)) as (n & Hn & Hl).
  rewrite map_rev, rev_involutive in Hn.
  set (L := Integer_prune sign (rev bits) true []) in *. split.
  - constructor; cbn; fold L; [|done|done].
    assert (HL : Forall is_int32 (map to_int32 bits)).
    { apply Forall_map, Forall_true. intros. apply to_int32_range. }
    rewrite Hn in HL. by apply Forall_app in HL as [HL _].
  - unfold Integer_val. cbn. fold L.
    change (raw_val L sign = raw_val bits sign).
    rewrite <- (raw_val_app L sign n) by done. rewrite <- Hn.
    unfold raw_val. by rewrite map_uint32_int32, length_map.
Qed.

Lemma Integer_new_val bits sign :
  is_sign sign -> Integer_val (Integer_new bits sign) = raw_val bits sign.
Proof. apply Integer_new_spec. Qed.

Lemma Integer_new_wf bits sign : is_sign sign -> Integer_wf (Integer_new bits sign).
Proof. apply Integer_new_spec. Qed.

#[export] Hint Resolve Integer_new_wf wf_sign : jsnum.

Lemma getBits_raw x i :
  0 <= i -> Integer_getBits x i = raw_get (bits_ x) (sign_ x) i.
Proof. intros Hi. unfold Integer_getBits, raw_get. destruct (Z.ltb_spec i 0); [lia|done]. Qed.

(** ** Pieces and bits of a value *)

Lemma raw_val_split bits sign i :
  is_sign sign -> 0 <= i ->
  exists A C, 0 <= A < 2 ^ (32 * i) /\
    raw_val bits sign = A + 2 ^ (32 * i) * (to_uint32 (raw_get bits sign i) + 2 ^ 32 * C).
Proof.
  intros Hs Hi.
  set (n := (length bits + S (Z.to_nat i) - length bits)%nat).
  rewrite <- (raw_val_app bits sign (S (Z.to_nat i))) by done.
  set (ext := bits ++ replicate (S (Z.to_nat i)) sign).
  assert (Hget : ext !! Z.to_nat i = Some (raw_get bits sign i)).
  { unfold ext, raw_get. destruct (bits !! Z.to_nat i) as [b|] eqn:E.
    - apply lookup_app_l_Some, E.
    - apply lookup_ge_None in E. rewrite lookup_app_r by lia.
      apply lookup_replicate_2. lia. }
  pose proof (take_drop_middle ext _ _ Hget) as Hsplit.
  assert (Hlen : (Z.to_nat i < length ext)%nat) by by apply lookup_lt_Some in Hget.
  exists (le_val (2 ^ 32) (map to_uint32 (take (Z.to_nat i) ext))).
  exists (le_val (2 ^ 32) (map to_uint32 (drop (S (Z.to_nat i)) ext)) +
          sign * 2 ^ (32 * (Z.of_nat (length ext) - i - 1))).
  assert (Hpow : (2 ^ 32) ^ Z.of_nat (length (map to_uint32 (take (Z.to_nat i) ext))) = 2 ^ (32 * i)).
  { rewrite length_map, length_take, Nat.min_l, pow2_32 by lia. f_equal. lia. }
  split.
  - rewrite <- Hpow. apply le_val_bounds; [lia|]. apply map_uint32_digits.
  - unfold raw_val. rewrite <- Hsplit at 1. rewrite map_app, le_val_app. cbn [map le_val].
    rewrite Hpow.
    replace (32 * Z.of_nat (length ext)) with
      (32 * i + (32 + 32 * (Z.of_nat (length ext) - i - 1))) by lia.
    rewrite (Z.pow_add_r 2 (32 * i)), (Z.pow_add_r 2 32) by lia. ring.
Qed.

Lemma raw_val_testbit bits sign j :
  is_sign sign -> 0 <= j ->
  Z.testbit (raw_val bits sign) j = Z.testbit (raw_get bits sign (j / 32)) (j mod 32).
Proof.
  intros Hs Hj.
  pose proof (Z.mod_pos_bound j 32 ltac:(lia)) as Hr.
  assert (Hq : 0 <= j / 32) by (apply Z.div_pos; lia).
  destruct (raw_val_split bits sign (j / 32)) as (A & C & HA & ->); [done|done|].
  assert (Hj' : j = j mod 32 + 32 * (j / 32)) by (pose proof (Z.div_mod j 32); lia).
  revert Hr Hq HA Hj'. generalize (j mod 32) (j / 32). intros r q Hr Hq HA ->.
  rewrite <- Z.div_pow2_bits by lia.
  rewrite Z.mul_comm, Z.div_add, Z.div_small, Z.add_0_l by lia.
  rewrite <- (Z.mod_pow2_bits_low _ 32) by lia.
  rewrite Z.mul_comm, Z.mod_add by lia.
  rewrite Z.mod_pow2_bits_low, testbit_to_uint32 by lia.
  by destruct (Z.ltb_spec r 32); [|lia].
Qed.

Lemma Integer_val_raw x : Integer_val x = raw_val (bits_ x) (sign_ x).
Proof. done. Qed.

Lemma Integer_val_testbit x j :
  is_sign (sign_ x) -> 0 <= j ->
  Z.testbit (Integer_val x) j = Z.testbit (Integer_getBits x (j / 32)) (j mod 32).
Proof.
  intros. rewrite Integer_val_raw, raw_val_testbit by done.
  rewrite getBits_raw; [done|]. apply Z.div_pos; lia.
Qed.

Lemma raw_val_range bits sign :
  is_sign sign ->
  - 2 ^ (32 * Z.of_nat (length bits)) <= raw_val bits sign < 2 ^ (32 * Z.of_nat (length bits)) /\
  (sign = 0 <-> 0 <= raw_val bits sign).
Proof.
  intros Hs. unfold raw_val.
  pose proof (le_val_bounds (2 ^ 32) (map to_uint32 bits) ltac:(lia) (map_uint32_digits bits)) as H.
  rewrite length_map, pow2_32 in H. destruct Hs as [-> | ->]; lia.
Qed.

(** The sign of the value is the sign field. *)
Lemma Integer_isNegative_val x : is_sign (sign_ x) -> Integer_isNegative x = (Integer_val x <? 0).
Proof.
  intros Hs. unfold Integer_isNegative. pose proof (raw_val_range (bits_ x) (sign_ x) Hs) as [_ H].
  rewrite Integer_val_raw. destruct Hs as [E | E]; rewrite E in *; cbn.
  - symmetry. apply Z.ltb_ge. tauto.
  - symmetry. apply Z.ltb_lt. lia.
Qed.

Lemma canonical_length bits sign k :
  is_sign sign -> Forall is_int32 bits -> last bits <> Some sign -> (0 < k)%nat ->
  length bits = k -> ~ (- 2 ^ (32 * Z.of_nat (k - 1)) <= raw_val bits sign < 2 ^ (32 * Z.of_nat (k - 1))).
Proof.
  intros Hs Hb Hl Hk Hlen [H1 H2].
  destruct (exists_last (l := bits)) as (init & top & ->); [by intros ->; cbn in *; lia|].
  rewrite last_snoc in Hl. assert (top <> sign) as Htop' by congruence. rewrite length_app in Hlen. cbn in Hlen.
  assert (k - 1 = length init)%nat as Hk1 by lia. rewrite Hk1 in *.
  apply Forall_app in Hb as [_ Htop]. inversion Htop as [|? ? Ht _]; subst.
  unfold raw_val in *. rewrite map_app, le_val_app, length_map, pow2_32, length_app in *.
  cbn [map le_val length] in *.
  replace (32 * Z.of_nat (length init + 1)) with (32 * Z.of_nat (length init) + 32) in * by lia.
  rewrite Z.pow_add_r in * by lia.
  pose proof (le_val_bounds (2 ^ 32) (map to_uint32 init) ltac:(lia) (map_uint32_digits init)) as H.
  rewrite length_map, pow2_32 in H.
  set (P := 2 ^ (32 * Z.of_nat (length init))) in *.
  destruct (to_int32_cases top Ht) as [[? E]|[? E]]; rewrite E in *; unfold is_int32 in Ht;
    destruct Hs as [-> | ->]; pow2; nia.
Qed.

(** Canonical forms are unique. *)
Lemma Integer_val_inj x y :
  Integer_wf x -> Integer_wf y -> Integer_val x = Integer_val y -> x = y.
Proof.
  destruct x as [bx sx], y as [b_y sy]. intros [Hx1 Hx2 Hx3] [Hy1 Hy2 Hy3]; cbn in *.
  rewrite !Integer_val_raw; cbn. intros Hv.
  assert (Hlen : length bx = length b_y).
  { pose proof (raw_val_range bx sx Hx2) as [Rx _]. pose proof (raw_val_range b_y sy Hy2) as [Ry _].
    destruct (lt_eq_lt_dec (length bx) (length b_y)) as [[Hlt| ->]|Hlt]; [|done|].
    - exfalso. apply (canonical_length b_y sy (length b_y)); try done; [lia|].
      assert (2 ^ (32 * Z.of_nat (length bx)) <= 2 ^ (32 * Z.of_nat (length b_y - 1)))
        by (apply Z.pow_le_mono_r; lia). lia.
    - exfalso. apply (canonical_length bx sx (length bx)); try done; [lia|].
      assert (2 ^ (32 * Z.of_nat (length b_y)) <= 2 ^ (32 * Z.of_nat (length bx - 1)))
        by (apply Z.pow_le_mono_r; lia). lia. }
  assert (sx = sy) as <-.
  { pose proof (raw_val_range bx sx Hx2) as [_ Sx]. pose proof (raw_val_range b_y sy Hy2) as [_ Sy].
    rewrite Hv in Sx. destruct Hx2 as [-> | ->], Hy2 as [-> | ->]; try done; exfalso; lia. }
  f_equal. unfold raw_val in Hv. rewrite Hlen in Hv.
  apply Z.add_cancel_r in Hv.
  apply le_val_inj in Hv; [|lia|apply map_uint32_digits..|by rewrite !length_map].
  clear -Hv Hx1 Hy1. revert b_y Hv Hy1. induction Hx1 as [|a l Ha Hl IH]; intros [|b k] Hv Hy; try done.
  cbn in Hv. injection Hv as Hab Hlk. inversion Hy as [|? ? Hb Hk]; subst. f_equal; [|by apply IH].
  rewrite <- (to_int32_id a), <- (to_int32_id b) by done. by apply to_int32_inj.
Qed.

Lemma Integer_isZero_val x : Integer_wf x -> Integer_isZero x = (Integer_val x =? 0).
Proof.
  intros Hx. apply eq_true_iff_eq. rewrite Z.eqb_eq. unfold Integer_isZero. split.
  - intros [Hs%Z.eqb_eq Hb]%andb_prop.
    rewrite Integer_val_raw. unfold raw_val. rewrite Hs.
    assert (map to_uint32 (bits_ x) = replicate (length (bits_ x)) 0) as ->.
    { induction (bits_ x) as [|b l IH]; [done|]. cbn in *.
      apply andb_prop in Hb as [->%Z.eqb_eq Hb]. f_equal. by apply IH. }
    rewrite le_val_replicate_0. lia.
  - intros Hv. assert (x = Integer_ZERO) as ->; [|done].
    apply Integer_val_inj; [done| |done]. constructor; cbn; [constructor|by left|done].
Qed.

(** ** Addition *)

(** [n] pieces from index [i] on, as unsigned numbers. *)
Fixpoint words (x : Integer) (i : Z) (n : nat) : list Z :=
  match n with
  | O => []
  | S n' => to_uint32 (Integer_getBits x i) :: words x (i + 1) n'
  end.

Lemma words_app x i n m :
  words x i (n + m) = words x i n ++ words x (i + Z.of_nat n) m.
Proof.
  revert i. induction n as [|n IH]; intros i; cbn [words Nat.add app Z.of_nat].
  - f_equal. lia.
  - rewrite IH. do 3 f_equal. lia.
Qed.

Lemma words_high x i n :
  Z.of_nat (Integer_length x) <= i -> words x i n = replicate n (to_uint32 (sign_ x)).
Proof.
  revert i. induction n as [|n IH]; intros i Hi; [done|]. cbn [words replicate].
  rewrite IH by lia. f_equal. unfold Integer_length in Hi. rewrite getBits_raw by lia.
  unfold raw_get. by rewrite lookup_ge_None_2 by lia.
Qed.

Lemma words_low x n :
  (n <= Integer_length x)%nat -> words x 0 n = map to_uint32 (take n (bits_ x)).
Proof.
  induction n as [|n IH]; intros Hn; [done|]. unfold Integer_length in *.
  replace (S n) with (n + 1)%nat by lia. rewrite words_app, IH by lia.
  destruct (lookup_lt_is_Some_2 (bits_ x) n ltac:(lia)) as [b Hb].
  rewrite Nat.add_1_r, (take_S_r _ _ b), map_app by done. f_equal. cbn.
  rewrite getBits_raw by lia. unfold raw_get. by rewrite Z.add_0_l, Nat2Z.id, Hb.
Qed.

Lemma Integer_val_words x n :
  is_sign (sign_ x) -> (Integer_length x <= n)%nat ->
  Integer_val x = le_val (2 ^ 32) (words x 0 n) + sign_ x * 2 ^ (32 * Z.of_nat n).
Proof.
  intros Hs Hn. rewrite Integer_val_raw, <- (raw_val_app _ _ (n - Integer_length x)) by done.
  replace n with (Integer_length x + (n - Integer_length x))%nat at 2 by lia.
  rewrite words_app, words_low, words_high by lia. unfold Integer_length in *.
  rewrite take_ge by lia. unfold raw_val.
  rewrite map_app, length_app, length_replicate.
  replace (length (bits_ x) + (n - length (bits_ x)))%nat with n by lia.
  do 2 f_equal. f_equal. generalize (n - length (bits_ x))%nat as k.
  induction k; cbn; congruence.
Qed.

Lemma split16 a : a .>>> 16 = to_uint32 a / 65536 /\ a .& 65535 = to_uint32 a mod 65536.
Proof.
  split; [by rewrite js_ushr_div by lia|]. rewrite js_and_ffff. unfold to_uint32.
  pow2. Z.to_euclidean_division_equations; lia.
Qed.

Lemma js_ushr16 c : 0 <= c < 2 ^ 32 -> c .>>> 16 = c / 65536.
Proof. intros Hc. by rewrite js_ushr_div, to_uint32_id by lia. Qed.

Lemma combine16 hi lo :
  0 <= hi < 65536 -> 0 <= lo < 65536 -> to_uint32 ((hi .<< 16) .| lo) = hi * 65536 + lo.
Proof.
  intros Hh Hl. rewrite js_or_shl by (change (2 ^ 16) with 65536; lia).
  change (2 ^ (32 - 16)) with 65536. change (2 ^ 16) with 65536. by rewrite Z.mod_small.
Qed.

Lemma add_loop_spec x y n : forall i carry,
  0 <= carry <= 1 ->
  exists c, 0 <= c <= 1 /\ length (Integer_add_loop x y i n carry) = n /\
    le_val (2 ^ 32) (map to_uint32 (Integer_add_loop x y i n carry)) + c * 2 ^ (32 * Z.of_nat n)
    = carry + le_val (2 ^ 32) (words x i n) + le_val (2 ^ 32) (words y i n).
Proof.
  induction n as [|n IH]; intros i carry Hc.
  - exists carry. cbn. lia.
  - cbn [Integer_add_loop words map le_val length].
    destruct (split16 (Integer_getBits x i)) as [-> ->].
    destruct (split16 (Integer_getBits y i)) as [-> ->].
    pose proof (to_uint32_range (Integer_getBits x i)) as Hx.
    pose proof (to_uint32_range (Integer_getBits y i)) as Hy.
    set (u := to_uint32 (Integer_getBits x i)) in *.
    set (v := to_uint32 (Integer_getBits y i)) in *. pow2.
    set (c0 := carry + u mod 65536 + v mod 65536).
    assert (H0 : 0 <= c0 < 2 * 65536) by (unfold c0; Z.to_euclidean_division_equations; lia).
    rewrite (js_ushr16 c0) by (pow2; lia).
    set (c1 := c0 / 65536 + u / 65536 + v / 65536).
    assert (H1 : 0 <= c1 < 2 * 65536) by (unfold c1; Z.to_euclidean_division_equations; lia).
    rewrite (js_ushr16 c1) by (pow2; lia).
    destruct (IH (i + 1) (c1 / 65536)) as (c & Hc' & Hlen & Heq).
    { Z.to_euclidean_division_equations; lia. }
    exists c. split; [done|]. split; [by rewrite Hlen|].
    rewrite !js_and_ffff, combine16 by (apply Z.mod_pos_bound; lia).
    replace (32 * Z.of_nat (S n)) with (32 + 32 * Z.of_nat n) by lia.
    rewrite Z.pow_add_r by lia. pow2.
    assert (Hd : c0 mod 65536 + 65536 * (c1 mod 65536) + 4294967296 * (c1 / 65536) = carry + u + v).
    { unfold c1, c0. clear. Z.to_euclidean_division_equations; lia. }
    nia.
Qed.

Lemma raw_val_signed bits :
  raw_val bits (if (rd bits (length bits - 1) .& (1 .<< 31)) =? 0 then 0 else -1) =
  Integer_val (Integer_fromBits bits).
Proof. unfold Integer_fromBits. rewrite Integer_new_val; [done|]. destruct (_ =? 0); [by left|by right]. Qed.

(** [fromBits] reads its pieces as one two's-complement number. *)
Lemma Integer_fromBits_spec bits k :
  length bits = S k ->
  Integer_wf (Integer_fromBits bits) /\
  - 2 ^ (32 * Z.of_nat k + 31) <= Integer_val (Integer_fromBits bits) < 2 ^ (32 * Z.of_nat k + 31) /\
  exists q, Integer_val (Integer_fromBits bits)
            = le_val (2 ^ 32) (map to_uint32 bits) + q * 2 ^ (32 * Z.of_nat (S k)).
Proof.
  intros Hlen. set (s := if (rd bits (length bits - 1) .& (1 .<< 31)) =? 0 then 0 else -1).
  assert (Hs : is_sign s) by (unfold s; destruct (_ =? 0); [by left|by right]).
  rewrite <- raw_val_signed. fold s. split; [by apply Integer_new_wf|]. split.
  2: { exists s. unfold raw_val. by rewrite Hlen. }
  destruct (exists_last (l := bits)) as (init & top & ->); [by intros ->|].
  assert (length init = k) as Hk by (rewrite length_app in Hlen; cbn in Hlen; lia).
  replace s with (if (top .& (1 .<< 31)) =? 0 then 0 else -1).
  2: { unfold s, rd. rewrite length_app. cbn [length].
       rewrite list_lookup_middle by lia. done. }
  assert (Ht : (top .& (1 .<< 31) =? 0) = negb (Z.testbit top 31)).
  { change (1 .<< 31) with (- 2 ^ 31).
    destruct (Z.testbit top 31) eqn:E; cbn.
    - apply Z.eqb_neq. intros H. apply (f_equal (fun z => Z.testbit z 31)) in H.
      rewrite testbit_js_and, E, Z.bits_0 in H by lia. done.
    - apply Z.eqb_eq. apply Z.bits_inj'. intros i Hi. rewrite Z.bits_0. unfold js_and.
      rewrite Z.land_spec. destruct (Z.lt_ge_cases i 31).
      + replace (Z.testbit (to_int32 (- 2 ^ 31)) i) with false; [apply andb_false_r|].
        change (to_int32 (- 2 ^ 31)) with (-1 * 2 ^ 31). by rewrite Z.mul_pow2_bits_low by lia.
      + rewrite int32_testbit_high by auto with jsnum.
        rewrite <- (int32_testbit_high _ 31), testbit_to_int32_low, E by (auto with jsnum; lia). done. }
  rewrite Ht. unfold raw_val. rewrite map_app, le_val_app, length_app, length_map, Hk, pow2_32.
  cbn [map le_val length].
  replace (32 * Z.of_nat (k + 1)) with (32 * Z.of_nat k + 32) by lia.
  rewrite !Z.pow_add_r by lia.
  pose proof (le_val_bounds (2 ^ 32) (map to_uint32 init) ltac:(lia) (map_uint32_digits init)) as H.
  rewrite length_map, pow2_32, Hk in H.
  assert (Hb : Z.testbit top 31 = (2 ^ 31 <=? to_uint32 top)).
  { pose proof (to_uint32_range top) as Hr. rewrite Z.testbit_eqb by lia.
    unfold to_uint32 in *. pow2. destruct (Z.leb_spec 2147483648 (top mod 4294967296));
      [apply Z.eqb_eq | apply Z.eqb_neq]; Z.to_euclidean_division_equations; lia. }
  rewrite Hb. pose proof (to_uint32_range top) as Hr.
  set (P := 2 ^ (32 * Z.of_nat k)) in *. pow2.
  destruct (Z.leb_spec 2147483648 (to_uint32 top)); cbn [negb]; nia.
Qed.

Lemma range_mod_unique a b M : 0 < M -> - M <= a < M -> - M <= b < M -> (exists q, a = b + q * (2 * M)) -> a = b.
Proof. intros ? ? ? [q Hq]. assert (q = 0) by nia. nia. Qed.

Lemma Integer_val_range x n :
  is_sign (sign_ x) -> (Integer_length x <= n)%nat ->
  - 2 ^ (32 * Z.of_nat n) <= Integer_val x < 2 ^ (32 * Z.of_nat n).
Proof.
  intros Hs Hn. pose proof (raw_val_range (bits_ x) (sign_ x) Hs) as [H _].
  unfold Integer_length in Hn.
  assert (2 ^ (32 * Z.of_nat (length (bits_ x))) <= 2 ^ (32 * Z.of_nat n))
    by (apply Z.pow_le_mono_r; lia).
  rewrite Integer_val_raw. lia.
Qed.

Lemma Integer_add_spec x y :
  is_sign (sign_ x) -> is_sign (sign_ y) ->
  Integer_wf (Integer_add x y) /\ Integer_val (Integer_add x y) = Integer_val x + Integer_val y.
Proof.
  intros Hx Hy. unfold Integer_add.
  set (n := Nat.max (Integer_length x) (Integer_length y)).
  destruct (add_loop_spec x y (S n) 0 0) as (c & _ & Hlen & Heq); [lia|].
  destruct (Integer_fromBits_spec _ n Hlen) as (Hwf & Hr & q & Hq).
  split; [done|].
  pose proof (Integer_val_range x n Hx ltac:(lia)) as Rx.
  pose proof (Integer_val_range y n Hy ltac:(lia)) as Ry.
  pose proof (Integer_val_words x (S n) Hx ltac:(lia)) as Wx.
  pose proof (Integer_val_words y (S n) Hy ltac:(lia)) as Wy.
  apply (range_mod_unique _ _ (2 ^ (32 * Z.of_nat n + 31))).
  - apply Z.pow_pos_nonneg; lia.
  - done.
  - rewrite Z.pow_add_r by lia. change (2 ^ 31) with 2147483648. lia.
  - exists (q - c - sign_ x - sign_ y). rewrite Hq.
    rewrite <- Z.pow_succ_r by lia.
    replace (Z.succ (32 * Z.of_nat n + 31)) with (32 * Z.of_nat (S n)) by lia. lia.
Qed.

Lemma Integer_not_spec x :
  is_sign (sign_ x) ->
  Integer_wf (Integer_not x) /\ Integer_val (Integer_not x) = - Integer_val x - 1.
Proof.
  intros Hs. unfold Integer_not.
  assert (Hs' : is_sign (.~ sign_ x)) by (destruct Hs as [-> | ->]; [by right|by left]).
  split; [by apply Integer_new_wf|]. rewrite Integer_new_val by done.
  change (- Integer_val x - 1) with (Z.lnot (Integer_val x)).
  apply Z.bits_inj'. intros j Hj.
  rewrite Z.lnot_spec, Integer_val_raw, !raw_val_testbit by done.
  pose proof (Z.mod_pos_bound j 32 ltac:(lia)).
  unfold raw_get. change (map js_not) with (fmap (M := list) js_not). rewrite list_lookup_fmap.
  destruct (bits_ x !! _); cbn; by rewrite testbit_js_not by lia.
Qed.

Lemma Integer_negate_spec x :
  is_sign (sign_ x) ->
  Integer_wf (Integer_negate x) /\ Integer_val (Integer_negate x) = - Integer_val x.
Proof.
  intros Hs. destruct (Integer_not_spec x Hs) as [Hw Hv].
  unfold Integer_negate. destruct (Integer_add_spec (Integer_not x) Integer_ONE) as [Hw' Hv'].
  - apply Hw.
  - by left.
  - split; [done|]. rewrite Hv', Hv. change (Integer_val Integer_ONE) with 1. lia.
Qed.

Lemma Integer_subtract_spec x y :
  is_sign (sign_ x) -> is_sign (sign_ y) ->
  Integer_wf (Integer_subtract x y) /\ Integer_val (Integer_subtract x y) = Integer_val x - Integer_val y.
Proof.
  intros Hx Hy. destruct (Integer_negate_spec y Hy) as [Hw Hv].
  destruct (Integer_add_spec x (Integer_negate y) Hx (wf_sign _ Hw)) as [Hw' Hv'].
  split; [done|]. unfold Integer_subtract. lia.
Qed.

Lemma Integer_compare_spec x y :
  is_sign (sign_ x) -> is_sign (sign_ y) ->
  Integer_compare x y = Z.sgn (Integer_val x - Integer_val y).
Proof.
  intros Hx Hy. destruct (Integer_subtract_spec x y Hx Hy) as [Hw Hv].
  unfold Integer_compare. rewrite Integer_isNegative_val, Integer_isZero_val, Hv by (done || apply Hw).
  destruct (Z.ltb_spec (Integer_val x - Integer_val y) 0); [lia|].
  destruct (Z.eqb_spec (Integer_val x - Integer_val y) 0); lia.
Qed.

Lemma Integer_equals_spec x y :
  Integer_wf x -> Integer_wf y -> Integer_equals x y = (Integer_val x =? Integer_val y).
Proof.
  intros Hx Hy. apply eq_true_iff_eq. rewrite Z.eqb_eq. unfold Integer_equals. split.
  - intros [Hs%Z.eqb_eq Hb]%andb_prop.
    set (n := Nat.max (Integer_length x) (Integer_length y)) in *.
    rewrite (Integer_val_words x n), (Integer_val_words y n), Hs by (apply wf_sign + lia; done).
    do 2 f_equal. clear -Hb. revert Hb. generalize 0 as i. induction n as [|n IH]; intros i; [done|].
    rewrite Nat2Z.inj_succ, <- Z.add_1_r, seqZ_cons by lia. cbn [forallb words].
    intros [->%Z.eqb_eq Hb]%andb_prop. f_equal.
    replace (Z.pred (Z.of_nat n + 1)) with (Z.of_nat n) in Hb by lia.
    rewrite Z.add_1_r. apply IH, Hb.
  - intros Hv. rewrite (Integer_val_inj x y) by done. rewrite Z.eqb_refl. cbn.
    apply forallb_forall. intros i _. apply Z.eqb_refl.
Qed.

(** ** Bitwise operations *)

Lemma lookup_tabulate len f i :
  0 <= i -> tabulate len f !! Z.to_nat i = if i <? Z.of_nat len then Some (f i) else None.
Proof.
  intros Hi. unfold tabulate. change (map f) with (fmap (M := list) f). rewrite list_lookup_fmap.
  destruct (Z.ltb_spec i (Z.of_nat len)).
  - rewrite lookup_seqZ_lt by lia. cbn. do 2 f_equal. lia.
  - rewrite lookup_seqZ_ge by lia. done.
Qed.

Lemma getBits_high x i : Z.of_nat (Integer_length x) <= i -> Integer_getBits x i = sign_ x.
Proof.
  unfold Integer_length. intros Hi. rewrite getBits_raw by lia.
  unfold raw_get. by rewrite lookup_ge_None_2 by lia.
Qed.

(** Every operation on pieces that acts bit by bit acts so on the values. *)
Section bitop.
Context (op : Z -> Z -> Z) (bop : bool -> bool -> bool) (zop : Z -> Z -> Z).
Context (Hop : forall a b i, 0 <= i < 32 -> Z.testbit (op a b) i = bop (Z.testbit a i) (Z.testbit b i)).
Context (Hzop : forall a b i, Z.testbit (zop a b) i = bop (Z.testbit a i) (Z.testbit b i)).
Context (Hsign : forall a b, is_sign a -> is_sign b -> is_sign (op a b)).

Lemma Integer_bitop_spec x y :
  is_sign (sign_ x) -> is_sign (sign_ y) ->
  Integer_wf (Integer_bitop op x y) /\
  Integer_val (Integer_bitop op x y) = zop (Integer_val x) (Integer_val y).
Proof.
  intros Hx Hy. unfold Integer_bitop. split; [by apply Integer_new_wf, Hsign|].
  rewrite Integer_new_val by auto. apply Z.bits_inj'. intros j Hj.
  pose proof (Z.mod_pos_bound j 32 ltac:(lia)). assert (0 <= j / 32) by (apply Z.div_pos; lia).
  rewrite Hzop, !Integer_val_testbit, raw_val_testbit by auto.
  unfold raw_get. rewrite lookup_tabulate by done.
  destruct (Z.ltb_spec (j / 32) (Z.of_nat (Nat.max (Integer_length x) (Integer_length y)))).
  - by rewrite Hop by lia.
  - rewrite !getBits_high by lia. by rewrite Hop by lia.
Qed.
End bitop.

Lemma Integer_and_spec x y :
  is_sign (sign_ x) -> is_sign (sign_ y) ->
  Integer_wf (Integer_and x y) /\ Integer_val (Integer_and x y) = Z.land (Integer_val x) (Integer_val y).
Proof.
  apply Integer_bitop_spec with andb; [apply testbit_js_and | apply Z.land_spec |].
  intros a b [-> | ->] [-> | ->]; first [by left | by right].
Qed.

Lemma Integer_or_spec x y :
  is_sign (sign_ x) -> is_sign (sign_ y) ->
  Integer_wf (Integer_or x y) /\ Integer_val (Integer_or x y) = Z.lor (Integer_val x) (Integer_val y).
Proof.
  apply Integer_bitop_spec with orb; [apply testbit_js_or | apply Z.lor_spec |].
  intros a b [-> | ->] [-> | ->]; first [by left | by right].
Qed.

Lemma Integer_xor_spec x y :
  is_sign (sign_ x) -> is_sign (sign_ y) ->
  Integer_wf (Integer_xor x y) /\ Integer_val (Integer_xor x y) = Z.lxor (Integer_val x) (Integer_val y).
Proof.
  apply Integer_bitop_spec with xorb; [apply testbit_js_xor | apply Z.lxor_spec |].
  intros a b [-> | ->] [-> | ->]; first [by left | by right].
Qed.

(** ** Shifts *)

Lemma shift_amount n :
  0 <= n < 2 ^ 31 -> n .>> 5 = n / 32 /\ Z.rem n 32 = n mod 32.
Proof.
  intros Hn. split.
  - rewrite js_shr_div by (unfold is_int32; lia). done.
  - apply Z.rem_mod_nonneg; lia.
Qed.

Lemma Integer_shiftLeft_spec x n :
  is_sign (sign_ x) -> 0 <= n < 2 ^ 31 ->
  Integer_wf (Integer_shiftLeft x n) /\ Integer_val (Integer_shiftLeft x n) = Integer_val x * 2 ^ n.
Proof.
  intros Hx Hn. unfold Integer_shiftLeft. split; [by apply Integer_new_wf|].
  rewrite Integer_new_val by done. destruct (shift_amount n Hn) as [-> ->].
  apply Z.bits_inj'. intros j Hj. rewrite Z.mul_pow2_bits by lia.
  rewrite raw_val_testbit by done. unfold raw_get.
  assert (0 <= j / 32) by (apply Z.div_pos; lia). rewrite lookup_tabulate by done.
  pose proof (Z.mod_pos_bound n 32 ltac:(lia)) as Hm.
  pose proof (Z.mod_pos_bound j 32 ltac:(lia)) as Hr.
  assert (Hq : 0 <= n / 32) by (apply Z.div_pos; lia).
  pose proof (Z.div_mod n 32 ltac:(lia)) as Dn. pose proof (Z.div_mod j 32 ltac:(lia)) as Dj.
  set (nq := n / 32) in *. set (nr := n mod 32) in *. set (jq := j / 32) in *. set (jr := j mod 32) in *.
  assert (Hneg : forall i r, i < 0 -> Z.testbit (Integer_getBits x i) r = false).
  { intros i r Hi. unfold Integer_getBits. destruct (Z.ltb_spec i 0); [|lia]. apply Z.bits_0. }
  assert (Hpos : forall q r, 0 <= q -> 0 <= r < 32 -> j - n = 32 * q + r ->
            Z.testbit (Integer_val x) (j - n) = Z.testbit (Integer_getBits x q) r).
  { intros q r H0 H1 H2. rewrite Integer_val_testbit by (done || lia). rewrite H2. f_equal; [f_equal|].
    - rewrite Z.mul_comm, Z.div_add_l, Z.div_small by lia. lia.
    - rewrite Z.add_comm, Z.mul_comm, Z.mod_add, Z.mod_small by lia. done. }
  destruct (Z.ltb_spec jq (Z.of_nat (Z.to_nat (Z.of_nat (Integer_length x) + nq + (if 0 <? nr then 1 else 0))))) as [Hlt|Hge].
  - destruct (Z.ltb_spec 0 nr) as [Hnr|Hnr].
    + rewrite testbit_js_or, testbit_js_shl, testbit_js_ushr by lia.
      destruct (Z.leb_spec nr jr) as [Hle|Hgt]; cbn [andb orb].
      * destruct (Z.ltb_spec (jr + (32 - nr)) 32); [lia|]. rewrite orb_false_r.
        destruct (Z.lt_ge_cases (jq - nq) 0).
        -- rewrite Hneg by done. by rewrite Z.testbit_neg_r by lia.
        -- symmetry. apply Hpos; lia.
      * destruct (Z.ltb_spec (jr + (32 - nr)) 32); [|lia]. cbn [andb].
        destruct (Z.lt_ge_cases (jq - nq - 1) 0).
        -- rewrite Hneg by done. by rewrite Z.testbit_neg_r by lia.
        -- symmetry. apply Hpos; lia.
    + destruct (Z.lt_ge_cases (jq - nq) 0).
      * rewrite Hneg by done. by rewrite Z.testbit_neg_r by lia.
      * symmetry. apply Hpos; lia.
  - rewrite Z2Nat.id in Hge by (destruct (0 <? nr); lia).
    assert (Z.of_nat (Integer_length x) + nq + (if 0 <? nr then 1 else 0) <= jq /\ 0 <= jq - nq)
      as [? ?] by (destruct (0 <? nr); lia).
    destruct (Z.leb_spec nr jr).
    + rewrite (Hpos (jq - nq) (jr - nr)) by lia.
      rewrite getBits_high by (destruct (0 <? nr); lia).
      destruct Hx as [-> | ->]; [by rewrite !Z.bits_0 | by rewrite !Z.bits_m1 by lia].
    + rewrite (Hpos (jq - nq - 1) (jr - nr + 32)) by (destruct (Z.ltb_spec 0 nr); lia).
      rewrite getBits_high by (destruct (Z.ltb_spec 0 nr); lia).
      destruct Hx as [-> | ->]; [by rewrite !Z.bits_0 | by rewrite !Z.bits_m1 by lia].
Qed.

Lemma Integer_shiftRight_spec x n :
  is_sign (sign_ x) -> 0 <= n < 2 ^ 31 ->
  Integer_wf (Integer_shiftRight x n) /\ Integer_val (Integer_shiftRight x n) = Integer_val x / 2 ^ n.
Proof.
  intros Hx Hn. unfold Integer_shiftRight. split; [by apply Integer_new_wf|].
  rewrite Integer_new_val by done. destruct (shift_amount n Hn) as [-> ->].
  apply Z.bits_inj'. intros j Hj. rewrite Z.div_pow2_bits by lia.
  rewrite raw_val_testbit by done. unfold raw_get.
  assert (0 <= j / 32) by (apply Z.div_pos; lia). rewrite lookup_tabulate by done.
  pose proof (Z.mod_pos_bound n 32 ltac:(lia)) as Hm.
  pose proof (Z.mod_pos_bound j 32 ltac:(lia)) as Hr.
  assert (Hq : 0 <= n / 32) by (apply Z.div_pos; lia).
  pose proof (Z.div_mod n 32 ltac:(lia)) as Dn. pose proof (Z.div_mod j 32 ltac:(lia)) as Dj.
  set (nq := n / 32) in *. set (nr := n mod 32) in *. set (jq := j / 32) in *. set (jr := j mod 32) in *.
  assert (Hpos : forall q r, 0 <= q -> 0 <= r < 32 -> j + n = 32 * q + r ->
            Z.testbit (Integer_val x) (j + n) = Z.testbit (Integer_getBits x q) r).
  { intros q r H0 H1 H2. rewrite Integer_val_testbit by (done || lia). rewrite H2. f_equal; [f_equal|].
    - rewrite Z.mul_comm, Z.div_add_l, Z.div_small by lia. lia.
    - rewrite Z.add_comm, Z.mul_comm, Z.mod_add, Z.mod_small by lia. done. }
  destruct (Z.ltb_spec jq (Z.of_nat (Z.to_nat (Z.of_nat (Integer_length x) - nq)))) as [Hlt|Hge].
  - destruct (Z.ltb_spec 0 nr) as [Hnr|Hnr].
    + rewrite testbit_js_or, testbit_js_shl, testbit_js_ushr by lia.
      destruct (Z.ltb_spec (jr + nr) 32); destruct (Z.leb_spec (32 - nr) jr); try lia; cbn [andb orb].
      * rewrite orb_false_r. symmetry. apply Hpos; lia.
      * symmetry. apply Hpos; lia.
    + symmetry. apply Hpos; lia.
  - destruct (Z.lt_ge_cases (jr + nr) 32).
    + rewrite (Hpos (jq + nq) (jr + nr)), getBits_high by lia.
      destruct Hx as [-> | ->]; [by rewrite !Z.bits_0 | by rewrite !Z.bits_m1 by lia].
    + rewrite (Hpos (jq + nq + 1) (jr + nr - 32)), getBits_high by lia.
      destruct Hx as [-> | ->]; [by rewrite !Z.bits_0 | by rewrite !Z.bits_m1 by lia].
Qed.

(** ** Small conversions *)

Lemma Integer_fromInt_spec v :
  is_int32 v -> Integer_wf (Integer_fromInt v) /\ Integer_val (Integer_fromInt v) = v.
Proof.
  intros Hv. unfold Integer_fromInt.
  assert (Hs : is_sign (if v <? 0 then -1 else 0)) by (destruct (v <? 0); [by right|by left]).
  split; [by apply Integer_new_wf|]. rewrite Integer_new_val by done.
  unfold raw_val. cbn [map le_val length]. unfold js_or. rewrite Z.lor_0_r.
  rewrite to_uint32_int32. unfold is_int32 in Hv.
  destruct (to_int32_cases v Hv) as [[? ->]|[? ->]]; destruct (Z.ltb_spec v 0); try lia;
    change (32 * Z.of_nat 1) with 32; pow2; lia.
Qed.

(** [toInt] is the value modulo 2^32, as a signed number. *)
Lemma Integer_toInt_spec x : Integer_wf x -> Integer_toInt x = to_int32 (Integer_val x).
Proof.
  intros Hx. assert (Integer_toInt x = Integer_getBits x 0) as ->.
  { unfold Integer_toInt. rewrite getBits_raw by lia. unfold raw_get. by destruct (bits_ x). }
  assert (is_int32 (Integer_getBits x 0)) as Hi.
  { rewrite getBits_raw by lia. unfold raw_get. change (Z.to_nat 0) with O.
    destruct (bits_ x !! O) eqn:E; [by eapply Forall_lookup; [apply Hx|]|].
    destruct (wf_sign x Hx) as [-> | ->]; unfold is_int32; lia. }
  rewrite <- (to_int32_id (Integer_getBits x 0)) by done. apply to_int32_inj.
  apply Z.bits_inj'. intros i Hi'. rewrite !testbit_to_uint32 by done.
  destruct (Z.ltb_spec i 32); [|done]. cbn.
  rewrite Integer_val_testbit by (apply Hx || done). by rewrite Z.div_small, Z.mod_small by lia.
Qed.
