(* ===== verification/IntegerMul.v ===== *)
(** Theorems on [Integer]: conversions from and to Numbers, and multiplication. *)
From S2P Require Import Prelude.
From S2P Require Import JsNum.
From S2P Require Import JsStr.
From S2P Require Import Buffer.
From S2P Require Import Integer.
From S2P Require Import IntegerArith.

(** ** [fromNumber] *)

Lemma fromNumber_loop_spec fuel m e pow :
  0 <= m -> 0 < pow -> m / 2 ^ Z.of_N e / pow < (2 ^ 32) ^ Z.of_nat fuel ->
  le_val (2 ^ 32) (map to_uint32 (Integer_fromNumber_loop fuel m e pow)) = m / 2 ^ Z.of_N e / pow.
Proof.
  assert (He : 0 < 2 ^ Z.of_N e) by (apply Z.pow_pos_nonneg; lia).
  intros Hm. revert pow. induction fuel as [|fuel IH]; intros pow Hp Hlt.
  - cbn in *. assert (0 <= m / 2 ^ Z.of_N e / pow); [|lia].
    apply Z.div_pos; [apply Z.div_pos|]; lia.
  - cbn [Integer_fromNumber_loop]. destruct (Z.leb_spec (pow * 2 ^ Z.of_N e) m) as [Hle|Hgt].
    + cbn [map le_val]. rewrite IH, to_uint32_int32; [| |].
      * rewrite <- Z.div_div by lia. set (M := m / 2 ^ Z.of_N e / pow).
        rewrite <- (Z.div_div _ pow) by lia. fold M. unfold to_uint32.
        pose proof (Z.div_mod M (2 ^ 32)). lia.
      * lia.
      * rewrite <- Z.div_div by lia. rewrite Nat2Z.inj_succ, Z.pow_succ_r in Hlt by lia.
        apply Z.div_lt_upper_bound; lia.
    + cbn. rewrite Z.div_div, Z.div_small by lia. done.
Qed.

Lemma fromNumber_nonneg m e :
  0 <= m ->
  let x := Integer_new (Integer_fromNumber_loop (S (S (Z.to_nat (Z.log2 m / 32)))) m e 1) 0 in
  Integer_wf x /\ Integer_val x = m / 2 ^ Z.of_N e.
Proof.
  intros Hm x. assert (He : 0 < 2 ^ Z.of_N e) by (apply Z.pow_pos_nonneg; lia).
  split; [apply Integer_new_wf; by left|]. unfold x. rewrite Integer_new_val by by left.
  unfold raw_val. rewrite fromNumber_loop_spec; [rewrite Z.div_1_r; lia|lia|lia|].
  rewrite Z.div_1_r. apply Z.le_lt_trans with m; [apply Z.div_le_upper_bound; nia|].
  destruct (Z.eq_dec m 0) as [->|]; [apply Z.pow_pos_nonneg; lia|].
  rewrite pow2_32. destruct (Z.log2_spec m ltac:(lia)) as [_ H].
  eapply Z.lt_le_trans; [apply H|]. apply Z.pow_le_mono_r; [lia|].
  pose proof (Z.log2_nonneg m). Z.to_euclidean_division_equations; lia.
Qed.

Lemma Integer_fromNumber_fin m e :
  Integer_wf (Integer_fromNumber (Fin m e)) /\
  Integer_val (Integer_fromNumber (Fin m e)) = Z.quot m (2 ^ Z.of_N e).
Proof.
  assert (He : 0 < 2 ^ Z.of_N e) by (apply Z.pow_pos_nonneg; lia).
  unfold Integer_fromNumber. destruct (Z.ltb_spec m 0).
  - destruct (fromNumber_nonneg (- m) e) as [Hw Hv]; [lia|].
    destruct (Integer_negate_spec _ (wf_sign _ Hw)) as [Hw' Hv']. split; [done|].
    rewrite Hv', Hv. rewrite <- (Z.opp_involutive m) at 2.
    rewrite Z.quot_opp_l, Z.quot_div_nonneg by lia. done.
  - rewrite Z.quot_div_nonneg by lia. by apply fromNumber_nonneg.
Qed.

Lemma Integer_fromNumber_int z :
  Integer_wf (Integer_fromNumber (Int z)) /\ Integer_val (Integer_fromNumber (Int z)) = z.
Proof.
  destruct (Integer_fromNumber_fin z 0) as [Hw Hv]. split; [done|].
  unfold Int. rewrite Hv. change (2 ^ Z.of_N 0) with 1. apply Z.quot_1_r.
Qed.

Lemma Integer_ZERO_wf : Integer_wf Integer_ZERO /\ Integer_val Integer_ZERO = 0.
Proof. apply (Integer_fromInt_spec 0). unfold is_int32. lia. Qed.

Lemma Integer_ONE_wf : Integer_wf Integer_ONE /\ Integer_val Integer_ONE = 1.
Proof. apply (Integer_fromInt_spec 1). unfold is_int32. lia. Qed.

(** ** Rounding *)

Lemma round_half_even_bounds num den :
  0 < den -> num / den <= round_half_even num den <= num / den + 1.
Proof. intros Hd. unfold round_half_even. destruct (_ || _); lia. Qed.

Lemma round53_small z : 0 <= z < 2 ^ 53 -> round53 z = z.
Proof.
  intros Hz. unfold round53, round53_abs. rewrite Z.abs_eq by lia.
  destruct (Z.ltb_spec z (2 ^ 53)); lia.
Qed.

Lemma round53_nonneg z : 0 <= z -> 0 <= round53 z <= 2 * z.
Proof.
  intros Hz. unfold round53, round53_abs. rewrite Z.abs_eq by lia.
  destruct (Z.ltb_spec z (2 ^ 53)); [lia|].
  assert (53 <= Z.log2 z) by (apply Z.log2_le_pow2; lia).
  assert (He : 0 < 2 ^ (Z.log2 z - 52)) by (apply Z.pow_pos_nonneg; lia).
  rewrite Z.sgn_pos by lia.
  pose proof (round_half_even_bounds z _ He) as Hb.
  pose proof (Z.div_mod z _ (Z.neq_sym _ _ (Z.lt_neq _ _ He))).
  pose proof (Z.mod_pos_bound z _ He).
  assert (2 ^ (Z.log2 z - 52) <= z).
  { transitivity (2 ^ Z.log2 z); [apply Z.pow_le_mono_r; lia|]. apply Z.log2_spec; lia. }
  nia.
Qed.

(** Integers with at most 53 significant bits are Numbers. *)
Lemma round53_repr m e : 0 <= m < 2 ^ 53 -> 0 <= e -> round53 (m * 2 ^ e) = m * 2 ^ e.
Proof.
  intros Hm He. assert (0 < 2 ^ e) by (apply Z.pow_pos_nonneg; lia).
  unfold round53, round53_abs. rewrite Z.abs_eq by nia.
  destruct (Z.ltb_spec (m * 2 ^ e) (2 ^ 53)); [lia|].
  assert (m <> 0) by (intros ->; lia).
  rewrite Z.sgn_pos by nia. rewrite Z.log2_mul_pow2 by lia.
  assert (Z.log2 m < 53) by (apply Z.log2_lt_pow2; lia).
  assert (53 <= e + Z.log2 m).
  { rewrite <- Z.log2_mul_pow2 by lia. apply Z.log2_le_pow2; nia. }
  set (k := e + Z.log2 m - 52).
  assert (m * 2 ^ e = (m * 2 ^ (e - k)) * 2 ^ k) as ->.
  { rewrite <- Z.mul_assoc, <- Z.pow_add_r by lia. do 2 f_equal. lia. }
  rewrite round_half_even_exact by (apply Z.pow_pos_nonneg; lia). lia.
Qed.

(** ** [toNumber] *)

Lemma getBitsUnsigned_spec x i :
  Integer_wf x -> Integer_getBitsUnsigned x i = to_uint32 (Integer_getBits x i).
Proof.
  intros Hx. unfold Integer_getBitsUnsigned.
  assert (is_int32 (Integer_getBits x i)) as Hi.
  { unfold Integer_getBits. destruct (i <? 0); [unfold is_int32; lia|].
    destruct (bits_ x !! Z.to_nat i) eqn:E; [by eapply Forall_lookup; [apply Hx|]|].
    destruct (wf_sign x Hx) as [-> | ->]; unfold is_int32; lia. }
  destruct (to_int32_cases _ Hi) as [[? ->]|[? ->]];
    destruct (Z.leb_spec 0 (Integer_getBits x i)); lia.
Qed.

(** The loop of [toNumber] after [n] pieces. *)
Lemma toNumber_loop_spec x n :
  Integer_wf x ->
  let s := foldl (fun '(val, pow) i =>
                (round53 (val + Integer_getBitsUnsigned x i * pow), pow * 2 ^ 32))
             (0, 1) (seqZ 0 (Z.of_nat n)) in
  snd s = 2 ^ (32 * Z.of_nat n) /\
  0 <= fst s <= 2 ^ Z.of_nat n * le_val (2 ^ 32) (words x 0 n) /\
  (le_val (2 ^ 32) (words x 0 n) < 2 ^ 53 -> fst s = le_val (2 ^ 32) (words x 0 n)).
Proof.
  intros Hx. induction n as [|n IH]; [split; [done|split; [done|done]]|].
  cbv zeta in *. rewrite seqZ_S, foldl_app, Z.add_0_l.
  replace (Z.of_nat (S n)) with (Z.of_nat n + 1) by lia.
  destruct (foldl _ (0, 1) _) as [v p]. cbn [fst snd foldl] in *.
  destruct IH as (-> & Hv & Hex). rewrite getBitsUnsigned_spec by done.
  replace (words x 0 (S n)) with (words x 0 n ++ [to_uint32 (Integer_getBits x (Z.of_nat n))]).
  2: { replace (S n) with (n + 1)%nat by lia. by rewrite words_app. }
  rewrite le_val_app. cbn [le_val].
  assert (length (words x 0 n) = n) as ->.
  { clear. generalize 0. induction n; intros i; cbn; [done|by rewrite IHn]. }
  rewrite pow2_32. pose proof (to_uint32_range (Integer_getBits x (Z.of_nat n))) as Hw.
  set (w := to_uint32 _) in *. set (P := 2 ^ (32 * Z.of_nat n)) in *.
  set (L := le_val _ _) in *.
  assert (0 < P) by (apply Z.pow_pos_nonneg; lia).
  assert (0 < 2 ^ Z.of_nat n) by (apply Z.pow_pos_nonneg; lia).
  split; [|split].
  - replace (32 * (Z.of_nat n + 1)) with (32 * Z.of_nat n + 32) by lia.
    by rewrite Z.pow_add_r by lia.
  - rewrite Z.pow_add_r by lia. change (2 ^ 1) with 2.
    pose proof (round53_nonneg (v + w * P) ltac:(nia)). nia.
  - intros Hlt. assert (0 <= P * w) by nia. rewrite Hex by nia.
    rewrite round53_small; nia.
Qed.

Lemma Integer_toNumber_small x :
  Integer_wf x -> 0 <= Integer_val x < 2 ^ 53 -> Integer_toNumber x = Integer_val x.
Proof.
  intros Hx Hv. unfold Integer_toNumber. rewrite Integer_isNegative_val by apply Hx.
  destruct (Z.ltb_spec (Integer_val x) 0); [lia|].
  pose proof (Integer_val_words x (Integer_length x) (wf_sign x Hx) ltac:(lia)) as Hw.
  pose proof (raw_val_range (bits_ x) (sign_ x) (wf_sign x Hx)) as [_ [_ Hs]].
  rewrite Integer_val_raw in Hv. rewrite Hs in Hw by lia.
  destruct (toNumber_loop_spec x (Integer_length x) Hx) as (_ & _ & H1).
  unfold Integer_toNumber_loop. rewrite H1; rewrite Integer_val_raw in *; lia.
Qed.

Lemma Integer_toNumber_bound x :
  Integer_wf x -> 0 <= Integer_val x ->
  0 <= Integer_toNumber x <= 2 ^ Z.of_nat (Integer_length x) * Integer_val x.
Proof.
  intros Hx Hv. unfold Integer_toNumber. rewrite Integer_isNegative_val by apply Hx.
  destruct (Z.ltb_spec (Integer_val x) 0); [lia|].
  pose proof (Integer_val_words x (Integer_length x) (wf_sign x Hx) ltac:(lia)) as Hw.
  pose proof (raw_val_range (bits_ x) (sign_ x) (wf_sign x Hx)) as [_ [_ Hs]].
  rewrite Integer_val_raw in Hv. rewrite Hs in Hw by lia.
  destruct (toNumber_loop_spec x (Integer_length x) Hx) as (_ & H1 & _).
  unfold Integer_toNumber_loop. rewrite Hw, Z.mul_0_l, Z.add_0_r. done.
Qed.

(** Canonical lengths follow the magnitude. *)
Lemma Integer_length_bound x k :
  Integer_wf x -> - 2 ^ (32 * Z.of_nat k) <= Integer_val x < 2 ^ (32 * Z.of_nat k) ->
  (Integer_length x <= k)%nat.
Proof.
  intros Hx Hv. unfold Integer_length. destruct (Nat.le_gt_cases (length (bits_ x)) k) as [|Hgt]; [done|].
  exfalso. apply (canonical_length (bits_ x) (sign_ x) (length (bits_ x)));
    [apply Hx|apply Hx|apply Hx|lia|done|].
  rewrite <- Integer_val_raw.
  assert (2 ^ (32 * Z.of_nat k) <= 2 ^ (32 * Z.of_nat (length (bits_ x) - 1)))
    by (apply Z.pow_le_mono_r; lia). lia.
Qed.

(** ** Multiplication: carrying 16-bit values *)

Lemma rd_middle pre d post : rd (pre ++ d :: post) (length pre) = d.
Proof. unfold rd. by rewrite list_lookup_middle. Qed.

Lemma insert_middle (pre : list Z) d e post :
  <[length pre := e]> (pre ++ d :: post) = pre ++ e :: post.
Proof.
  replace (length pre) with (length pre + 0)%nat by lia. by rewrite insert_app_r.
Qed.

Lemma rd_middle_S pre d0 d1 post : rd (pre ++ d0 :: d1 :: post) (S (length pre)) = d1.
Proof.
  replace (pre ++ d0 :: d1 :: post) with ((pre ++ [d0]) ++ d1 :: post) by by rewrite <- app_assoc.
  replace (S (length pre)) with (length (pre ++ [d0])) by (rewrite length_app; cbn; lia).
  apply rd_middle.
Qed.

Lemma insert_middle_S (pre : list Z) d0 d1 e post :
  <[S (length pre) := e]> (pre ++ d0 :: d1 :: post) = pre ++ d0 :: e :: post.
Proof.
  replace (pre ++ d0 :: d1 :: post) with ((pre ++ [d0]) ++ d1 :: post) by by rewrite <- app_assoc.
  replace (S (length pre)) with (length (pre ++ [d0])) by (rewrite length_app; cbn; lia).
  rewrite insert_middle. by rewrite <- app_assoc.
Qed.

(** The [while] loop of [carry16_] ends after at most one iteration when the
    value fits 32 bits. *)
Lemma Integer_carry16_spec pre d0 d1 post :
  0 <= d0 < 2 ^ 32 ->
  js_while 2 (Integer_carry16_step (length pre)) (pre ++ d0 :: d1 :: post) =
  inr (pre ++ d0 mod 65536 :: d1 + d0 / 65536 :: post).
Proof.
  intros Hd. assert (Hsmall : forall a b, 0 <= a < 65536 ->
    Integer_carry16_step (length pre) (pre ++ a :: b :: post) = inr (pre ++ a :: b :: post)).
  { intros a b Ha. unfold Integer_carry16_step. rewrite rd_middle, js_and_ffff, Z.mod_small by lia.
    by rewrite Z.eqb_refl. }
  cbn [js_while]. destruct (Z.lt_ge_cases d0 65536).
  - rewrite Hsmall by lia. rewrite Z.mod_small, Z.div_small by lia. by rewrite Z.add_0_r.
  - assert (Integer_carry16_step (length pre) (pre ++ d0 :: d1 :: post) =
            inl (pre ++ d0 mod 65536 :: d1 + d0 / 65536 :: post)) as ->.
    { unfold Integer_carry16_step. rewrite rd_middle, js_and_ffff.
      pose proof (Z.mod_pos_bound d0 65536 ltac:(lia)).
      destruct (Z.eqb_spec (d0 mod 65536) d0); [lia|].
      rewrite rd_middle_S, insert_middle_S, rd_middle, insert_middle.
      by rewrite js_and_ffff, js_ushr16. }
    apply Hsmall. apply Z.mod_pos_bound. lia.
Qed.

Lemma accumulate_spec pre d0 d1 post k v :
  k = length pre -> 0 <= d0 + v < 2 ^ 32 ->
  Integer_accumulate (pre ++ d0 :: d1 :: post) k v =
  pre ++ (d0 + v) mod 65536 :: d1 + (d0 + v) / 65536 :: post.
Proof.
  intros -> Hv. unfold Integer_accumulate, Integer_carry16_.
  by rewrite rd_middle, insert_middle, Integer_carry16_spec by done.
Qed.

Lemma accumulate_S_spec pre d0 d1 d2 post k v :
  k = length pre -> 0 <= d1 + v < 2 ^ 32 ->
  Integer_accumulate (pre ++ d0 :: d1 :: d2 :: post) (k + 1) v =
  pre ++ d0 :: (d1 + v) mod 65536 :: d2 + (d1 + v) / 65536 :: post.
Proof.
  intros -> Hv.
  replace (pre ++ d0 :: d1 :: d2 :: post) with ((pre ++ [d0]) ++ d1 :: d2 :: post) by by rewrite <- app_assoc.
  rewrite accumulate_spec by (rewrite ?length_app; cbn; done || lia). by rewrite <- app_assoc.
Qed.

Lemma accumulate_SS_spec pre d0 d1 d2 d3 post k v :
  k = length pre -> 0 <= d2 + v < 2 ^ 32 ->
  Integer_accumulate (pre ++ d0 :: d1 :: d2 :: d3 :: post) (k + 2) v =
  pre ++ d0 :: d1 :: (d2 + v) mod 65536 :: d3 + (d2 + v) / 65536 :: post.
Proof.
  intros -> Hv.
  replace (pre ++ d0 :: d1 :: d2 :: d3 :: post) with ((pre ++ [d0; d1]) ++ d2 :: d3 :: post) by by rewrite <- app_assoc.
  rewrite accumulate_spec by (rewrite ?length_app; cbn; done || lia). by rewrite <- app_assoc.
Qed.

(** One 32 by 32 bit product, added where the two upper 16-bit places are
    still empty: no intermediate value reaches 2^32, so nothing is lost. *)
Lemma mul_at_spec pre d0 d1 post k a b :
  k = length pre -> 0 <= d0 < 65536 -> 0 <= d1 < 65536 ->
  exists e, length e = 4%nat /\ digits_in 65536 e /\
    Integer_mul_at (pre ++ d0 :: d1 :: 0 :: 0 :: post) k a b = pre ++ e ++ post /\
    le_val 65536 e = d0 + 65536 * d1 + to_uint32 a * to_uint32 b.
Proof.
  intros Hk H0 H1. unfold Integer_mul_at.
  destruct (split16 a) as [-> ->]. destruct (split16 b) as [-> ->].
  pose proof (to_uint32_range a) as Ha. pose proof (to_uint32_range b) as Hb.
  set (u := to_uint32 a) in *. set (v := to_uint32 b) in *.
  assert (Hu : u = u mod 65536 + 65536 * (u / 65536)) by (pose proof (Z.div_mod u 65536); lia).
  assert (Hv : v = v mod 65536 + 65536 * (v / 65536)) by (pose proof (Z.div_mod v 65536); lia).
  assert (Hu0 : 0 <= u mod 65536 < 65536) by (apply Z.mod_pos_bound; lia).
  assert (Hv0 : 0 <= v mod 65536 < 65536) by (apply Z.mod_pos_bound; lia).
  pow2. assert (Hu1 : 0 <= u / 65536 < 65536) by lia. assert (Hv1 : 0 <= v / 65536 < 65536) by lia.
  revert Hu Hv Hu0 Hv0 Hu1 Hv1. generalize (u mod 65536) (u / 65536) (v mod 65536) (v / 65536).
  intros u0 u1 v0 v1 -> -> Hu0 Hv0 Hu1 Hv1.
  assert (M : forall p q, 0 <= p < 65536 -> 0 <= q < 65536 -> 0 <= p * q <= 65535 * 65535) by (intros; nia).
  pose proof (M u0 v0 Hu0 Hv0). pose proof (M u1 v0 Hu1 Hv0).
  pose proof (M u0 v1 Hu0 Hv1). pose proof (M u1 v1 Hu1 Hv1).
  assert (Hq : (u0 + 65536 * u1) * (v0 + 65536 * v1) =
    u0 * v0 + 65536 * (u1 * v0) + 65536 * (u0 * v1) + 65536 * 65536 * (u1 * v1)) by ring.
  rewrite Hq. clear Hq M.
  revert H H2 H3 H4. generalize (u0 * v0) (u1 * v0) (u0 * v1) (u1 * v1). intros w0 w1 w2 w3 W0 W1 W2 W3.
  rewrite (accumulate_spec pre) by (done || (change (2 ^ 32) with 4294967296; lia)).
  assert (C0 : 0 <= (d0 + w0) / 65536 < 65536) by (Z.to_euclidean_division_equations; lia).
  set (c0 := (d0 + w0) / 65536) in *.
  rewrite (accumulate_S_spec pre) by (done || (change (2 ^ 32) with 4294967296; lia)).
  assert (C1 : 0 <= (d1 + c0 + w1) / 65536 < 65536) by (Z.to_euclidean_division_equations; lia).
  pose proof (Z.mod_pos_bound (d1 + c0 + w1) 65536 ltac:(lia)) as R1.
  rewrite (accumulate_S_spec pre) by (done || (change (2 ^ 32) with 4294967296; lia)).
  set (c1 := (d1 + c0 + w1) / 65536) in *. set (r1 := (d1 + c0 + w1) mod 65536) in *.
  assert (C2 : 0 <= (r1 + w2) / 65536 < 65536) by (Z.to_euclidean_division_equations; lia).
  set (c2 := (r1 + w2) / 65536) in *.
  rewrite (accumulate_SS_spec pre) by (done || (change (2 ^ 32) with 4294967296; lia)).
  set (c3 := (0 + c1 + c2 + w3) / 65536) in *.
  assert (C3 : 0 <= c3 < 65536) by (unfold c3; Z.to_euclidean_division_equations; lia).
  exists [(d0 + w0) mod 65536; (r1 + w2) mod 65536; (0 + c1 + c2 + w3) mod 65536; 0 + c3].
  split; [done|]. split; [|split; [done|]].
  - repeat constructor; try (apply Z.mod_pos_bound; lia); lia.
  - cbn [le_val]. pose proof (Z.div_mod (d0 + w0) 65536). pose proof (Z.div_mod (r1 + w2) 65536).
    pose proof (Z.div_mod (d1 + c0 + w1) 65536). pose proof (Z.div_mod (0 + c1 + c2 + w3) 65536).
    fold c0 in H. fold c2 in H0. fold c1 r1 in H2. fold c3 in H3. lia.
Qed.

(** ** Multiplication by one piece *)

Fixpoint digit_sum (ws : list Z) (c : Z) : Z :=
  match ws with [] => 0 | w :: ws' => to_uint32 w * c + 2 ^ 32 * digit_sum ws' c end.

Lemma digit_sum_val ws c : digit_sum ws c = le_val (2 ^ 32) (map to_uint32 ws) * c.
Proof. induction ws as [|w ws IH]; cbn [digit_sum map le_val]; [lia|]. rewrite IH. ring. Qed.

(** The accumulations of one row of products, position after position. *)
Lemma mul_row_spec (a : Z) (ws : list Z) (step : list Z -> nat -> list Z) :
  forall s pre d0 d1,
  (forall arr p w, ws !! p = Some w -> step arr (s + p)%nat = Integer_mul_at arr (2 * (s + p)) w a \/
                                       step arr (s + p)%nat = Integer_mul_at arr (2 * (s + p)) a w) ->
  length pre = (2 * s)%nat -> 0 <= d0 < 65536 -> 0 <= d1 < 65536 ->
  exists e, length e = (2 * length ws + 2)%nat /\ digits_in 65536 e /\
    foldl step (pre ++ d0 :: d1 :: replicate (2 * length ws) 0) (seq s (length ws)) = pre ++ e /\
    le_val 65536 e = d0 + 65536 * d1 + le_val (2 ^ 32) (map to_uint32 ws) * to_uint32 a.
Proof.
  induction ws as [|w ws IH]; intros s pre d0 d1 Hstep Hpre H0 H1.
  - exists [d0; d1]. split; [done|]. split; [by repeat first [apply Forall_cons; split | apply Forall_nil]|].
    split; [done|]. cbn. lia.
  - cbn [length seq foldl].
    replace (replicate (2 * S (length ws)) 0) with (0 :: 0 :: replicate (2 * length ws) 0)
      by (replace (2 * S (length ws))%nat with (S (S (2 * length ws))) by lia; done).
    assert (exists e, length e = 4%nat /\ digits_in 65536 e /\
      step (pre ++ d0 :: d1 :: 0 :: 0 :: replicate (2 * length ws) 0) s
        = pre ++ e ++ replicate (2 * length ws) 0 /\
      le_val 65536 e = d0 + 65536 * d1 + to_uint32 w * to_uint32 a) as (e & Hle & He & Hs & Hv).
    { specialize (Hstep (pre ++ d0 :: d1 :: 0 :: 0 :: replicate (2 * length ws) 0) O w eq_refl).
      rewrite Nat.add_0_r in Hstep. destruct Hstep as [-> | ->].
      - by apply mul_at_spec.
      - rewrite (Z.mul_comm (to_uint32 w)). by apply mul_at_spec. }
    rewrite Hs. destruct e as [|e0 [|e1 [|e2 [|e3 [|]]]]]; try done.
    inversion He as [|? ? E0 He1]; inversion He1 as [|? ? E1 He2]; inversion He2 as [|? ? E2 He3];
      inversion He3 as [|? ? E3 _]; subst.
    destruct (IH (S s) (pre ++ [e0; e1]) e2 e3) as (f & Hlf & Hf & Hfold & Hvf); try done.
    { intros arr p w' Hp. replace (S s + p)%nat with (s + S p)%nat by lia. by apply Hstep. }
    { rewrite length_app. cbn. lia. }
    exists (e0 :: e1 :: f). split; [cbn; lia|]. split; [by repeat first [apply Forall_cons; split|done]|]. split.
    + rewrite <- app_assoc in Hfold. cbn [app] in *. rewrite Hfold. by rewrite <- app_assoc.
    + cbn [le_val map] in *. rewrite Hvf. lia.
Qed.

(** ** Combining 16-bit values *)

Definition combine_at (arr : list Z) (i : nat) : Z :=
  (rd arr (2 * i + 1) .<< 16) .| rd arr (2 * i).

Lemma combine_loop_spec arr t :
  (2 * t <= length arr)%nat ->
  foldl (fun arr i => <[i := (rd arr (2 * i + 1) .<< 16) .| rd arr (2 * i)]> arr) arr (seq 0 t) =
  map (combine_at arr) (seq 0 t) ++ drop t arr.
Proof.
  induction t as [|t IH]; intros Ht; [done|].
  rewrite seq_S, foldl_app, IH by lia. cbn [foldl Nat.add].
  set (M := map (combine_at arr) (seq 0 t)).
  assert (HM : length M = t) by (unfold M; by rewrite length_map, length_seq).
  assert (Hrd : forall j, (t <= j)%nat -> rd (M ++ drop t arr) j = rd arr j).
  { intros j Hj. unfold rd. rewrite lookup_app_r, HM, lookup_drop by lia. do 2 f_equal. lia. }
  rewrite !Hrd by lia. fold (combine_at arr t).
  destruct (lookup_lt_is_Some_2 arr t ltac:(lia)) as [x Hx].
  rewrite (drop_S arr x t) by done. rewrite <- HM at 1. rewrite insert_middle.
  rewrite map_app, <- app_assoc. done.
Qed.

Lemma clear_loop_spec A B :
  foldl (fun arr i => <[i := 0]> arr) (A ++ B) (seq (length A) (length B)) = A ++ replicate (length B) 0.
Proof.
  revert A. induction B as [|b B IH]; intros A; [done|]. cbn [length seq foldl replicate].
  rewrite insert_middle. replace (A ++ 0 :: B) with ((A ++ [0]) ++ B) by by rewrite <- app_assoc.
  replace (S (length A)) with (length (A ++ [0])) by (rewrite length_app; cbn; lia).
  by rewrite IH, <- app_assoc.
Qed.

Lemma combine_val n : forall arr,
  length arr = (2 * n)%nat -> digits_in 65536 arr ->
  le_val (2 ^ 32) (map to_uint32 (map (combine_at arr) (seq 0 n))) = le_val 65536 arr.
Proof.
  induction n as [|n IH]; intros arr Hl Ha.
  - by destruct arr.
  - destruct arr as [|a0 [|a1 arr]]; cbn in Hl; try lia.
    apply Forall_cons in Ha as [H0 Ha]. apply Forall_cons in Ha as [H1 Ha2].
    cbn [seq map le_val]. rewrite <- seq_shift, (map_map S).
    assert (map (fun i => combine_at (a0 :: a1 :: arr) (S i)) (seq 0 n) = map (combine_at arr) (seq 0 n)) as ->.
    { apply map_ext. intros i. unfold combine_at, rd.
      replace (2 * S i + 1)%nat with (S (S (2 * i + 1))) by lia.
      by replace (2 * S i)%nat with (S (S (2 * i))) by lia. }
    rewrite IH by (done || lia). unfold combine_at at 1, rd. cbn [lookup list_lookup Nat.mul Nat.add default].
    rewrite combine16 by done. unfold id. lia.
Qed.

Lemma mul_combine_spec arr n :
  length arr = (2 * n)%nat -> digits_in 65536 arr ->
  Integer_wf (Integer_new (Integer_mul_combine n arr) 0) /\
  Integer_val (Integer_new (Integer_mul_combine n arr) 0) = le_val 65536 arr.
Proof.
  intros Hl Ha. destruct (Integer_new_spec (Integer_mul_combine n arr) 0) as [Hw Hv]; [by left|].
  split; [done|]. rewrite Hv. unfold Integer_mul_combine. rewrite combine_loop_spec by lia.
  set (M := map (combine_at arr) (seq 0 n)).
  assert (length M = n) as HM by (unfold M; by rewrite length_map, length_seq).
  assert (length (drop n arr) = n) as HD by (rewrite length_drop; lia).
  replace (seq n n) with (seq (length M) (length (drop n arr))) by congruence.
  rewrite clear_loop_spec.
  rewrite raw_val_app by by left. unfold raw_val, M. rewrite combine_val by done. lia.
Qed.

(** ** [multiply] *)

Lemma word_val x :
  Integer_wf x -> 0 <= Integer_val x -> (Integer_length x <= 1)%nat ->
  Integer_val x = to_uint32 (Integer_getBits x 0).
Proof.
  intros Hx Hv Hl. rewrite (Integer_val_words x 1) by (apply Hx || done).
  pose proof (raw_val_range (bits_ x) (sign_ x) (wf_sign x Hx)) as [_ [_ Hs]].
  rewrite Integer_val_raw in Hv. rewrite Hs by done. cbn [words le_val]. lia.
Qed.

Lemma getBits_lookup x i w : bits_ x !! i = Some w -> Integer_getBits x (Z.of_nat i) = w.
Proof. intros Hi. rewrite getBits_raw by lia. unfold raw_get. by rewrite Nat2Z.id, Hi. Qed.

Lemma nonneg_bits_val x :
  Integer_wf x -> 0 <= Integer_val x -> le_val (2 ^ 32) (map to_uint32 (bits_ x)) = Integer_val x.
Proof.
  intros Hx Hv. pose proof (raw_val_range (bits_ x) (sign_ x) (wf_sign x Hx)) as [_ [_ Hs]].
  rewrite Integer_val_raw in *. unfold raw_val in *. rewrite Hs by done. lia.
Qed.

(** The double loop, when one of the factors has a single piece. *)
Lemma mul_products_spec x y :
  Integer_wf x -> Integer_wf y -> 0 <= Integer_val x -> 0 <= Integer_val y ->
  (Integer_length x = 1%nat \/ Integer_length y = 1%nat) ->
  exists arr, Integer_mul_products x y (replicate (2 * (Integer_length x + Integer_length y)) 0) = arr /\
    length arr = (2 * (Integer_length x + Integer_length y))%nat /\ digits_in 65536 arr /\
    le_val 65536 arr = Integer_val x * Integer_val y.
Proof.
  intros Hx Hy Vx Vy Hlen. unfold Integer_mul_products.
  destruct Hlen as [Hl|Hl]; rewrite Hl.
  - rewrite (word_val x) by (done || lia). rewrite <- (nonneg_bits_val y) by done.
    destruct (mul_row_spec (Integer_getBits x 0) (bits_ y)
      (fun arr j => Integer_mul_at arr (2 * 0 + 2 * j) (Integer_getBits x (Z.of_nat 0)) (Integer_getBits y (Z.of_nat j)))
      0 [] 0 0) as (e & He & Hd & Hf & Hv); try done.
    { intros arr p w Hp. cbn beta. change (0 + p)%nat with p. rewrite (getBits_lookup y p w Hp). right. f_equal. }
    exists e. cbn [app] in *. split; [|split; [|split; [done|]]].
    + rewrite <- Hf. cbn [seq foldl]. unfold Integer_length. f_equal.
      by replace (2 * (1 + length (bits_ y)))%nat with (S (S (2 * length (bits_ y)))) by lia.
    + unfold Integer_length. lia.
    + lia.
  - rewrite (word_val y) by (done || lia). rewrite <- (nonneg_bits_val x) by done.
    destruct (mul_row_spec (Integer_getBits y 0) (bits_ x)
      (fun arr i => Integer_mul_at arr (2 * i + 2 * 0) (Integer_getBits x (Z.of_nat i)) (Integer_getBits y (Z.of_nat 0)))
      0 [] 0 0) as (e & He & Hd & Hf & Hv); try done.
    { intros arr p w Hp. cbn beta. change (0 + p)%nat with p. rewrite (getBits_lookup x p w Hp). left. f_equal. lia. }
    exists e. cbn [app] in *. split; [|split; [|split; [done|]]].
    + rewrite <- Hf. cbn [seq foldl]. unfold Integer_length. f_equal.
      by replace (2 * (length (bits_ x) + 1))%nat with (S (S (2 * length (bits_ x)))) by lia.
    + unfold Integer_length. lia.
    + lia.
Qed.

Lemma lessThan_TWO_PWR_24 x :
  Integer_wf x -> Integer_lessThan x Integer_TWO_PWR_24_ = (Integer_val x <? 2 ^ 24).
Proof.
  intros Hx. unfold Integer_lessThan.
  rewrite Integer_compare_spec by (apply Hx || by left).
  change (Integer_val Integer_TWO_PWR_24_) with (2 ^ 24).
  destruct (Z.ltb_spec (Integer_val x) (2 ^ 24)).
  - apply Z.ltb_lt. lia.
  - apply Z.ltb_ge. lia.
Qed.

Lemma Integer_length_0 x : Integer_wf x -> 0 < Integer_val x -> (1 <= Integer_length x)%nat.
Proof.
  intros Hx Hv. destruct (Integer_length x) eqn:E; [|lia].
  pose proof (Integer_val_range x 0 (wf_sign x Hx) ltac:(lia)) as H. cbn in H. lia.
Qed.

Lemma Integer_multiply_nonneg_spec x y :
  Integer_wf x -> Integer_wf y -> 0 < Integer_val x -> 0 < Integer_val y ->
  (Integer_val x < 2 ^ 32 \/ Integer_val y < 2 ^ 32) ->
  Integer_wf (Integer_multiply_nonneg x y) /\
  Integer_val (Integer_multiply_nonneg x y) = Integer_val x * Integer_val y.
Proof.
  intros Hx Hy Vx Vy Hsmall. unfold Integer_multiply_nonneg.
  rewrite !lessThan_TWO_PWR_24 by done.
  destruct (andb _ _) eqn:E.
  - apply andb_prop in E as [E1%Z.ltb_lt E2%Z.ltb_lt].
    rewrite !Integer_toNumber_small by (done || lia).
    rewrite round53_small by nia. apply Integer_fromNumber_int.
  - assert (Integer_length x = 1%nat \/ Integer_length y = 1%nat) as Hl.
    { pose proof (Integer_length_0 x Hx Vx). pose proof (Integer_length_0 y Hy Vy).
      destruct Hsmall as [H1|H1]; [left|right].
      - assert (Integer_length x <= 1)%nat; [|lia]. apply Integer_length_bound; [done|].
        change (32 * Z.of_nat 1) with 32. lia.
      - assert (Integer_length y <= 1)%nat; [|lia]. apply Integer_length_bound; [done|].
        change (32 * Z.of_nat 1) with 32. lia. }
    destruct (mul_products_spec x y) as (arr & -> & Hlen & Hd & Hv); [done|done|lia|lia|done|].
    rewrite <- Hv. by apply mul_combine_spec.
Qed.

(** [multiply] is exact when one factor fits in 32 bits. *)
Lemma Integer_multiply_spec x y :
  Integer_wf x -> Integer_wf y ->
  (Z.abs (Integer_val x) < 2 ^ 32 \/ Z.abs (Integer_val y) < 2 ^ 32) ->
  Integer_wf (Integer_multiply x y) /\
  Integer_val (Integer_multiply x y) = Integer_val x * Integer_val y.
Proof.
  intros Hx Hy Hsmall. unfold Integer_multiply.
  assert (Hpos : forall d a b, Integer_wf a -> Integer_wf b -> 0 < Integer_val a -> 0 < Integer_val b ->
    (Integer_val a < 2 ^ 32 \/ Integer_val b < 2 ^ 32) ->
    Integer_wf (Integer_multiply_rec d a b) /\
    Integer_val (Integer_multiply_rec d a b) = Integer_val a * Integer_val b).
  { intros d a b Ha Hb Va Vb Hs. destruct d; cbn [Integer_multiply_rec].
    - by apply Integer_multiply_nonneg_spec.
    - rewrite !Integer_isZero_val, !Integer_isNegative_val by (done || apply wf_sign; done).
      destruct (Z.eqb_spec (Integer_val a) 0); [lia|]. destruct (Z.eqb_spec (Integer_val b) 0); [lia|].
      destruct (Z.ltb_spec (Integer_val a) 0); [lia|]. destruct (Z.ltb_spec (Integer_val b) 0); [lia|].
      by apply Integer_multiply_nonneg_spec. }
  destruct (Integer_negate_spec x (wf_sign x Hx)) as [Nx NVx].
  destruct (Integer_negate_spec y (wf_sign y Hy)) as [Ny NVy].
  generalize 1%nat as d. intros d. cbn [Integer_multiply_rec].
  rewrite !Integer_isZero_val, !Integer_isNegative_val by (done || apply wf_sign; done).
  destruct (Z.eqb_spec (Integer_val x) 0) as [->|]; [rewrite Z.mul_0_l; apply Integer_ZERO_wf|].
  destruct (Z.eqb_spec (Integer_val y) 0) as [->|]; [rewrite Z.mul_0_r; apply Integer_ZERO_wf|].
  destruct (Z.ltb_spec (Integer_val x) 0); destruct (Z.ltb_spec (Integer_val y) 0).
  - destruct (Hpos d (Integer_negate x) (Integer_negate y)) as [Hw Hv]; [done|done|lia|lia|lia|].
    split; [done|]. rewrite Hv. lia.
  - destruct (Hpos d (Integer_negate x) y) as [Hw Hv]; [done|done|lia|lia|lia|].
    destruct (Integer_negate_spec _ (wf_sign _ Hw)) as [Hw' Hv']. split; [done|]. rewrite Hv'. lia.
  - destruct (Hpos d x (Integer_negate y)) as [Hw Hv]; [done|done|lia|lia|lia|].
    destruct (Integer_negate_spec _ (wf_sign _ Hw)) as [Hw' Hv']. split; [done|]. rewrite Hv'. lia.
  - apply Integer_multiply_nonneg_spec; done || lia.
Qed.

(** Theorems on [Integer]: division, remainder and text conversion. *)

(** ** Division *)

(** Numbers: integers with at most 53 significant bits. *)
Definition repr53 (z : Z) : Prop := exists m k, 0 <= m <= 2 ^ 53 /\ 0 <= k /\ z = m * 2 ^ k.

Lemma log2_mul_bounds z : 0 < z -> 2 ^ Z.log2 z <= z < 2 * 2 ^ Z.log2 z.
Proof.
  intros Hz. rewrite <- Z.pow_succ_r by apply Z.log2_nonneg. by apply Z.log2_spec.
Qed.

(** The scaled quotient that [div_floor53] rounds lies in [1, 2^53). *)
Lemma div_scale_bounds a b k :
  0 < a -> 0 < b -> (k = 52 - (Z.log2 a - Z.log2 b)) ->
  b * 2 ^ Z.max (- k) 0 <= a * 2 ^ Z.max k 0 < 2 ^ 53 * (b * 2 ^ Z.max (- k) 0).
Proof.
  intros Ha Hb Hk. pose proof (log2_mul_bounds a Ha). pose proof (log2_mul_bounds b Hb).
  pose proof (Z.log2_nonneg a). pose proof (Z.log2_nonneg b).
  set (p := Z.max k 0) in *. set (q := Z.max (- k) 0) in *.
  assert (Hp : 0 < 2 ^ p) by (apply Z.pow_pos_nonneg; lia).
  assert (Hq : 0 < 2 ^ q) by (apply Z.pow_pos_nonneg; lia).
  assert (E : 2 ^ Z.log2 a * 2 ^ p = 2 ^ 52 * (2 ^ Z.log2 b * 2 ^ q)).
  { rewrite <- !Z.pow_add_r by lia. f_equal. lia. }
  pow2. change (2 ^ 53) with (2 * 2 ^ 52). assert (0 < 2 ^ 52) by lia.
  set (A := 2 ^ Z.log2 a) in *. set (B := 2 ^ Z.log2 b) in *. set (c := 2 ^ 52) in *.
  assert (1 <= 2 ^ p /\ 1 <= 2 ^ q) as [? ?] by lia.
  assert (2 <= c) by (unfold c; lia).
  split; nia.
Qed.

Lemma div_floor53_bounds a b :
  0 <= a -> 0 < b -> 0 <= div_floor53 a b /\ div_floor53 a b * b <= 2 * a /\ repr53 (div_floor53 a b).
Proof.
  intros Ha Hb. unfold div_floor53. destruct (Z.eqb_spec a 0) as [->|Hnz].
  { split; [lia|]. split; [lia|]. exists 0, 0. lia. }
  set (k0 := 52 - (Z.log2 a - Z.log2 b)).
  pose proof (div_scale_bounds a b k0 ltac:(lia) Hb eq_refl) as Hk0.
  cbv zeta. set (small := a * 2 ^ Z.max k0 0 <? 2 ^ 52 * (b * 2 ^ Z.max (- k0) 0)).
  assert (Hk : let k := if small then k0 + 1 else k0 in
    b * 2 ^ Z.max (- k) 0 <= a * 2 ^ Z.max k 0 < 2 ^ 53 * (b * 2 ^ Z.max (- k) 0)).
  { cbv zeta. destruct small eqn:Es; [|done]. apply Z.ltb_lt in Es. change (2 ^ 53) with (2 * 2 ^ 52).
    destruct (Z.lt_ge_cases k0 0).
    - replace (Z.max (k0 + 1) 0) with (Z.max k0 0) by lia.
      assert (2 ^ Z.max (- k0) 0 = 2 * 2 ^ Z.max (- (k0 + 1)) 0) as E.
      { rewrite <- Z.pow_succ_r by lia. f_equal. lia. }
      rewrite E in *. set (q := 2 ^ Z.max (- (k0 + 1)) 0) in *.
      assert (0 < q) by (apply Z.pow_pos_nonneg; lia). nia.
    - replace (Z.max (- (k0 + 1)) 0) with (Z.max (- k0) 0) by lia.
      assert (2 ^ Z.max (k0 + 1) 0 = 2 * 2 ^ Z.max k0 0) as ->.
      { rewrite <- Z.pow_succ_r by lia. f_equal. lia. }
      set (q := 2 ^ Z.max k0 0) in *. assert (0 < q) by (apply Z.pow_pos_nonneg; lia). nia. }
  cbv zeta in Hk. set (k := if small then k0 + 1 else k0) in *.
  set (n := a * 2 ^ Z.max k 0) in *. set (d := b * 2 ^ Z.max (- k) 0) in *.
  assert (Hd : 0 < d) by (unfold d; apply Z.mul_pos_pos; [lia|apply Z.pow_pos_nonneg; lia]).
  pose proof (round_half_even_bounds n d Hd) as Hm. set (m := round_half_even n d) in *.
  assert (Hq1 : 1 <= n / d) by (apply Z.div_le_lower_bound; lia).
  assert (Hq2 : n / d < 2 ^ 53) by (apply Z.div_lt_upper_bound; lia).
  assert (Hqd : d * (n / d) <= n) by (apply Z.mul_div_le; lia).
  assert (Hmd : m * d <= 2 * n) by nia.
  destruct (Z.leb_spec 0 k).
  - assert (Hp : 0 < 2 ^ k) by (apply Z.pow_pos_nonneg; lia).
    assert (E1 : n = a * 2 ^ k) by (unfold n; do 2 f_equal; lia).
    assert (E2 : d = b) by (unfold d; replace (Z.max (- k) 0) with 0 by lia; lia).
    pose proof (Z.mul_div_le m (2 ^ k) Hp).
    assert (0 <= m / 2 ^ k) by (apply Z.div_pos; lia).
    split; [done|]. split.
    + rewrite E1, E2 in *. nia.
    + exists (m / 2 ^ k), 0. split; [|lia]. split; [done|]. apply Z.div_le_upper_bound; nia.
  - assert (Hp : 0 < 2 ^ (- k)) by (apply Z.pow_pos_nonneg; lia).
    assert (E1 : n = a) by (unfold n; replace (Z.max k 0) with 0 by lia; lia).
    assert (E2 : d = b * 2 ^ (- k)) by (unfold d; do 2 f_equal; lia).
    split; [nia|]. split; [nia|]. exists m, (- k). lia.
Qed.

Section division_spec.
Context (ceil_log2 : Z -> Z).
(** The computed logarithm is off by at most one. *)
Context (ceil_log2_ok : forall a, 1 <= a -> Z.log2 a - 1 <= ceil_log2 a <= Z.log2 a + 2).

(** Subtracting [delta] from an approximation is exact in doubles. *)
Lemma approx_sub_exact a j m k :
  0 <= m < 2 ^ 53 -> 0 <= k <= j -> a = m * 2 ^ k -> 2 ^ j <= a ->
  round53 (a - 2 ^ j) = a - 2 ^ j /\ exists m', 0 <= m' < 2 ^ 53 /\ a - 2 ^ j = m' * 2 ^ k.
Proof.
  intros Hm Hk -> Hle.
  assert (0 < 2 ^ k) by (apply Z.pow_pos_nonneg; lia).
  assert (E : 2 ^ j = 2 ^ (j - k) * 2 ^ k) by (rewrite <- Z.pow_add_r by lia; f_equal; lia).
  assert (0 < 2 ^ (j - k)) by (apply Z.pow_pos_nonneg; lia).
  assert (m * 2 ^ k - 2 ^ j = (m - 2 ^ (j - k)) * 2 ^ k) as -> by (rewrite E; ring).
  assert (0 <= m - 2 ^ (j - k) < 2 ^ 53) by nia.
  split; [apply round53_repr; lia|eauto].
Qed.

(** The exponent of [delta] and a representation of the first approximation
    that is at least as fine. *)
Lemma delta_spec a :
  1 <= a -> repr53 a ->
  exists j m k, Integer_div_delta ceil_log2 a = 2 ^ j /\ 0 <= m < 2 ^ 53 /\ 0 <= k <= j /\
    a = m * 2 ^ k /\ 2 ^ j * 2 ^ 46 <= Z.max (2 ^ 46) a.
Proof.
  intros Ha (m & k & Hm & Hk & E). destruct (ceil_log2_ok a Ha) as [L1 L2].
  pose proof (log2_mul_bounds a ltac:(lia)) as HL. pose proof (Z.log2_nonneg a).
  unfold Integer_div_delta. destruct (Z.leb_spec (ceil_log2 a) 48).
  - exists 0, a, 0. split; [done|].
    assert (2 ^ Z.log2 a <= 2 ^ 49) by (apply Z.pow_le_mono_r; lia).
    change (2 ^ 53) with (2 ^ 4 * 2 ^ 49). lia.
  - remember (ceil_log2 a - 48) as j eqn:Ej. exists j.
    assert (Hj : 2 ^ j * 2 ^ 46 <= 2 ^ Z.log2 a).
    { rewrite <- Z.pow_add_r by lia. apply Z.pow_le_mono_r; lia. }
    destruct (Z.le_gt_cases k j).
    + destruct (Z.eq_dec m (2 ^ 53)) as [Em|].
      * destruct (Z.eq_dec k j) as [Ek|].
        -- exfalso. assert (a = 2 ^ (53 + k)) as Ea by (rewrite E, Em, Z.pow_add_r by lia; lia).
           assert (Z.log2 a = 53 + k) by (rewrite Ea; apply Z.log2_pow2; lia). lia.
        -- exists (2 ^ 52), (k + 1). split; [done|]. split; [lia|]. split; [lia|].
           split; [|lia]. rewrite E, Em, Z.pow_add_r by lia. change (2 ^ 53) with (2 ^ 52 * 2). lia.
      * exists m, k. split; [done|]. lia.
    + exists (m * 2 ^ (k - j)), j. split; [done|].
      assert (Hkj : 2 ^ k = 2 ^ (k - j) * 2 ^ j) by (rewrite <- Z.pow_add_r by lia; f_equal; lia).
      assert (0 < 2 ^ (k - j)) by (apply Z.pow_pos_nonneg; lia).
      split; [|split; [lia|split; [rewrite E, Hkj; ring|lia]]].
      split; [nia|].
      apply (Z.mul_lt_mono_pos_r (2 ^ j)); [apply Z.pow_pos_nonneg; lia|].
      rewrite <- Z.mul_assoc, <- Hkj, <- E.
      assert (2 * 2 ^ Z.log2 a <= 2 ^ 53 * 2 ^ j); [|lia].
      rewrite <- Z.pow_succ_r, <- Z.pow_add_r by lia. apply Z.pow_le_mono_r; lia.
Qed.

(** The inner loop lowers the approximation until it no longer exceeds the
    quotient, and never reaches zero. *)
Lemma refine_spec other rem a j m0 k :
  Integer_wf other -> Integer_wf rem -> 0 < Integer_val other < 2 ^ 32 ->
  Integer_val other <= Integer_val rem -> 2 ^ j * Integer_val other <= Integer_val rem ->
  0 <= m0 < 2 ^ 53 -> 0 <= k <= j -> 1 <= a -> a = m0 * 2 ^ k ->
  exists res p, js_while (Z.to_pos (a + 1)) (Integer_div_refine other rem (2 ^ j))
      (a, Integer_fromNumber (Int a), Integer_multiply (Integer_fromNumber (Int a)) other)
      = inr (res, p) /\
    Integer_wf res /\ Integer_wf p /\ 1 <= Integer_val res /\
    Integer_val p = Integer_val res * Integer_val other /\ Integer_val p <= Integer_val rem.
Proof.
  intros Ho Hr Vo Vr Vj Hm Hk Ha Ea.
  pose (Inv := fun s : Z * Integer * Integer => let '(ap, res, p) := s in
    1 <= ap /\ (exists m, 0 <= m < 2 ^ 53 /\ ap = m * 2 ^ k) /\
    Integer_wf res /\ Integer_wf p /\ Integer_val res = ap /\ Integer_val p = ap * Integer_val other).
  pose (Post := fun q : Integer * Integer => let '(res, p) := q in
    Integer_wf res /\ Integer_wf p /\ 1 <= Integer_val res /\
    Integer_val p = Integer_val res * Integer_val other /\ Integer_val p <= Integer_val rem).
  assert (Hmk : forall z m, 1 <= z -> 0 <= m < 2 ^ 53 -> z = m * 2 ^ k ->
    Inv (z, Integer_fromNumber (Int z), Integer_multiply (Integer_fromNumber (Int z)) other)).
  { intros z m Hz Hm' Ez. destruct (Integer_fromNumber_int z) as [W V].
    destruct (Integer_multiply_spec _ other W Ho) as [W' V']; [lia|].
    rewrite V in V'. unfold Inv. split_and!; eauto. }
  destruct (js_while_total (Integer_div_refine other rem (2 ^ j)) Inv Post (fun s => fst (fst s))
    (Z.to_pos (a + 1)) (a, Integer_fromNumber (Int a), Integer_multiply (Integer_fromNumber (Int a)) other))
    as ([res p] & Hrun & HP).
  - intros [[ap res] p] (H1 & (m & Hm1 & Em) & Wr & Wp & V1 & V2). unfold Integer_div_refine.
    rewrite Integer_isNegative_val by apply Wp. unfold Integer_greaterThan.
    rewrite Integer_compare_spec by (apply wf_sign; done).
    destruct (Z.ltb_spec (Integer_val p) 0); [nia|]. cbn [orb].
    destruct (Z.ltb_spec 0 (Z.sgn (Integer_val p - Integer_val rem))) as [Hgt|Hle].
    + assert (2 ^ j < ap) by nia. assert (0 < 2 ^ j) by (apply Z.pow_pos_nonneg; lia).
      destruct (approx_sub_exact ap j m k) as (-> & m' & Hm' & Em'); [done|done|done|lia|].
      split; [|cbn; lia]. apply (Hmk _ m'); [lia|done|done].
    + cbn. split_and!; [done|done|lia|lia|lia].
  - by apply (Hmk a m0).
  - cbn. lia.
  - exists res, p. done.
Qed.

(** One iteration takes at least one and at most [rem / other] multiples of
    [other] away. *)
Lemma div_step_spec other res rem :
  Integer_wf other -> Integer_wf res -> Integer_wf rem ->
  0 < Integer_val other < 2 ^ 32 -> 0 <= Integer_val rem < 2 ^ 1023 ->
  match Integer_div_step ceil_log2 other (res, rem) with
  | inl (res', rem') =>
      Integer_wf res' /\ Integer_wf rem' /\ 0 <= Integer_val rem' < Integer_val rem /\
      Integer_val res' * Integer_val other + Integer_val rem'
        = Integer_val res * Integer_val other + Integer_val rem
  | inr r => r = Ok res /\ Integer_val rem < Integer_val other
  end.
Proof.
  intros Ho Hres Hrem Vo Vr. unfold Integer_div_step, Integer_greaterThanOrEqual.
  rewrite Integer_compare_spec by (apply wf_sign; done).
  destruct (Z.leb_spec 0 (Z.sgn (Integer_val rem - Integer_val other))) as [Hle|Hlt]; [|split; [done|lia]].
  pose proof (Integer_toNumber_bound rem Hrem ltac:(lia)) as HN.
  assert (Hlen : (Integer_length rem <= 32)%nat).
  { apply Integer_length_bound; [done|]. change (32 * Z.of_nat 32) with (1023 + 1).
    rewrite Z.pow_add_r by lia. lia. }
  assert (Hpow : 2 ^ Z.of_nat (Integer_length rem) <= 2 ^ 32) by (apply Z.pow_le_mono_r; lia).
  rewrite (Integer_toNumber_small other Ho) by lia.
  destruct (div_floor53_bounds (Integer_toNumber rem) (Integer_val other)) as (Hd0 & Hd1 & Hd2); [lia..|].
  set (a := Z.max 1 (div_floor53 (Integer_toNumber rem) (Integer_val other))).
  assert (Ha53 : repr53 a).
  { unfold a. destruct (Z.max_spec 1 (div_floor53 (Integer_toNumber rem) (Integer_val other))) as [[_ ->]|[_ ->]];
      [done|exists 1, 0; lia]. }
  destruct (delta_spec a ltac:(lia) Ha53) as (j & m & k & -> & Hm & Hk & Ea & Hja).
  assert (Hj : 2 ^ j * Integer_val other <= Integer_val rem).
  { assert (0 < 2 ^ j) by (apply Z.pow_pos_nonneg; lia).
    assert (0 < 2 ^ 46) by lia.
    assert (a * Integer_val other <= 2 ^ 33 * Integer_val rem).
    { assert (2 ^ Z.of_nat (Integer_length rem) * Integer_val rem <= 2 ^ 32 * Integer_val rem) by nia.
      unfold a. nia. }
    destruct (Z.max_spec (2 ^ 46) a) as [[_ Em]|[_ Em]]; rewrite Em in Hja.
    - assert (2 ^ j * 2 ^ 46 * Integer_val other <= 2 ^ 33 * Integer_val rem) by nia. lia.
    - assert (2 ^ j <= 1) by nia. nia. }
  destruct (refine_spec other rem a j m k) as (q & p & -> & Wq & Wp & Q1 & Vp & Pr); [done|done|lia|lia|done|done|done|lia|done|].
  rewrite Integer_isZero_val by done. destruct (Z.eqb_spec (Integer_val q) 0); [lia|].
  destruct (Integer_add_spec res q (wf_sign _ Hres) (wf_sign _ Wq)) as [W1 V1].
  destruct (Integer_subtract_spec rem p (wf_sign _ Hrem) (wf_sign _ Wp)) as [W2 V2].
  split_and!; [done|done|nia|nia|nia].
Qed.

Lemma divide_nonneg_spec x other :
  Integer_wf x -> Integer_wf other ->
  0 <= Integer_val x < 2 ^ 1023 -> 0 < Integer_val other < 2 ^ 32 ->
  exists q, Integer_divide_nonneg ceil_log2 x other = Ok q /\ Integer_wf q /\
    Integer_val q = Z.quot (Integer_val x) (Integer_val other).
Proof.
  intros Hx Ho Vx Vo. destruct Integer_ZERO_wf as [HZ VZ].
  destruct (js_while_total (Integer_div_step ceil_log2 other)
    (fun s => Integer_wf s.1 /\ Integer_wf s.2 /\ 0 <= Integer_val s.2 <= Integer_val x /\
      Integer_val s.1 * Integer_val other + Integer_val s.2 = Integer_val x)
    (fun r => exists q, r = Ok q /\ Integer_wf q /\
      Integer_val q = Z.quot (Integer_val x) (Integer_val other))
    (fun s => Integer_val s.2) (Z.to_pos (Integer_val x + 1)) (Integer_ZERO, x))
    as (r & Hrun & q & -> & Hq).
  - intros [res rem] (Wres & Wrem & Vrem & E). cbn [fst snd] in *.
    pose proof (div_step_spec other res rem) as H.
    destruct (Integer_div_step ceil_log2 other (res, rem)) as [[res' rem']|r]; cbn [fst snd].
    + destruct H as (W1 & W2 & V & E2); [done|done|done|lia|lia|]. split_and!; try done; lia.
    + destruct H as (-> & Hlt); [done|done|done|lia|lia|]. exists res. split_and!; [done|done|].
      rewrite Z.quot_div_nonneg by lia. apply (Z.div_unique _ _ _ (Integer_val rem)); lia.
  - cbn [fst snd]. split_and!; [done|done|lia|lia|lia].
  - cbn [snd]. lia.
  - exists q. unfold Integer_divide_nonneg. rewrite Hrun. done.
Qed.

Lemma divide_rec_S d x other :
  Integer_divide_rec ceil_log2 (S d) x other =
  if Integer_isZero other then Throw PlainError
  else if Integer_isZero x then Ok Integer_ZERO
  else if Integer_isNegative x then
    if Integer_isNegative other
    then Integer_divide_rec ceil_log2 d (Integer_negate x) (Integer_negate other)
    else Integer_negate <$> Integer_divide_rec ceil_log2 d (Integer_negate x) other
  else if Integer_isNegative other
    then Integer_negate <$> Integer_divide_rec ceil_log2 d x (Integer_negate other)
  else Integer_divide_nonneg ceil_log2 x other.
Proof. done. Qed.

Lemma divide_spec x other :
  Integer_wf x -> Integer_wf other ->
  Z.abs (Integer_val x) < 2 ^ 1023 -> 0 < Z.abs (Integer_val other) < 2 ^ 32 ->
  exists q, Integer_divide ceil_log2 x other = Ok q /\ Integer_wf q /\
    Integer_val q = Z.quot (Integer_val x) (Integer_val other).
Proof.
  assert (Hpos : forall d a b, Integer_wf a -> Integer_wf b ->
    0 <= Integer_val a < 2 ^ 1023 -> 0 < Integer_val b < 2 ^ 32 ->
    exists q, Integer_divide_rec ceil_log2 d a b = Ok q /\ Integer_wf q /\
      Integer_val q = Z.quot (Integer_val a) (Integer_val b)).
  { intros [|d] a b Ha Hb Va Vb; [by apply divide_nonneg_spec|]. cbn [Integer_divide_rec].
    rewrite !Integer_isZero_val, !Integer_isNegative_val by (done || by apply wf_sign).
    destruct (Z.eqb_spec (Integer_val b) 0); [lia|].
    destruct (Z.eqb_spec (Integer_val a) 0) as [E|].
    { exists Integer_ZERO. destruct Integer_ZERO_wf as [? ->]. rewrite E, Z.quot_0_l by lia. done. }
    destruct (Z.ltb_spec (Integer_val a) 0); [lia|]. destruct (Z.ltb_spec (Integer_val b) 0); [lia|].
    by apply divide_nonneg_spec. }
  assert (Hneg : forall a, Integer_wf a -> Integer_wf (Integer_negate a) /\
    Integer_val (Integer_negate a) = - Integer_val a) by (intros a Ha; apply Integer_negate_spec, Ha).
  intros Hx Ho Vx Vo. unfold Integer_divide.
  destruct (Z.lt_ge_cases (Integer_val x) 0) as [Nx|Nx], (Z.lt_ge_cases (Integer_val other) 0) as [No|No];
    [| | |apply Hpos; done || lia];
    rewrite divide_rec_S;
    rewrite !Integer_isZero_val, !Integer_isNegative_val by (done || by apply wf_sign);
    destruct (Z.eqb_spec (Integer_val other) 0); try lia;
    destruct (Z.eqb_spec (Integer_val x) 0) as [E|]; try lia;
    destruct (Z.ltb_spec (Integer_val x) 0); try lia;
    destruct (Z.ltb_spec (Integer_val other) 0); try lia;
    destruct (Hneg x Hx) as [Wx Nvx]; destruct (Hneg other Ho) as [Wo Nvo].
  - destruct (Hpos 1%nat (Integer_negate x) (Integer_negate other)) as (q & E1 & E2 & E3); [done|done|lia|lia|].
    exists q. split_and!; [done|done|]. rewrite E3, Nvx, Nvo. apply Z.quot_opp_opp; lia.
  - destruct (Hpos 1%nat (Integer_negate x) other) as (q & E1 & E2 & E3); [done|done|lia|lia|].
    destruct (Hneg q E2) as [Wq Vq]. exists (Integer_negate q).
    split_and!; [by rewrite E1|done|].
    rewrite Vq, E3, Nvx, Z.quot_opp_l by lia. lia.
  - exists Integer_ZERO. rewrite E, Z.quot_0_l by lia. by destruct Integer_ZERO_wf.
  - destruct (Hpos 1%nat x (Integer_negate other)) as (q & E1 & E2 & E3); [done|done|lia|lia|].
    destruct (Hneg q E2) as [Wq Vq]. exists (Integer_negate q).
    split_and!; [by rewrite E1|done|].
    rewrite Vq, E3, Nvo, Z.quot_opp_r by lia. lia.
Qed.

Lemma modulo_spec x other :
  Integer_wf x -> Integer_wf other ->
  Z.abs (Integer_val x) < 2 ^ 1023 -> 0 < Z.abs (Integer_val other) < 2 ^ 32 ->
  exists r, Integer_modulo ceil_log2 x other = Ok r /\ Integer_wf r /\
    Integer_val r = Z.rem (Integer_val x) (Integer_val other).
Proof.
  intros Hx Ho Vx Vo. destruct (divide_spec x other Hx Ho Vx Vo) as (q & E & Wq & Vq).
  unfold Integer_modulo. rewrite E. cbn.
  destruct (Integer_multiply_spec q other Wq Ho ltac:(lia)) as [Wm Vm].
  destruct (Integer_subtract_spec x (Integer_multiply q other) (wf_sign _ Hx) (wf_sign _ Wm)) as [Ws Vs].
  exists (Integer_subtract x (Integer_multiply q other)).
  split_and!; [done|done|]. rewrite Vs, Vm, Vq.
  pose proof (Z.quot_rem (Integer_val x) (Integer_val other) ltac:(lia)). lia.
Qed.
End division_spec.
