(* ===== verification/IntegerText.v ===== *)
(** Theorems on [Integer]: text and buffer conversions. *)
From S2P Require Import Prelude.
From S2P Require Import JsNum.
From S2P Require Import JsStr.
From S2P Require Import Buffer.
From S2P Require Import Integer.
From S2P Require Import IntegerArith.
From S2P Require Import IntegerMul.

(** ** [toString] *)

Section toString_spec.
Context (ceil_log2 : Z -> Z).
Context (ceil_log2_ok : forall a, 1 <= a -> Z.log2 a - 1 <= ceil_log2 a <= Z.log2 a + 2).

Lemma toString_step_spec radix R rem res :
  2 <= radix <= 35 -> Integer_wf R -> Integer_val R = radix ^ 6 ->
  Integer_wf rem -> 0 < Integer_val rem < 2 ^ 1023 ->
  match Integer_toString_step ceil_log2 radix R (rem, res) with
  | inl (rem', res') =>
      Integer_wf rem' /\ 0 < Integer_val rem' < Integer_val rem /\
      num_to_string radix (Integer_val rem') ++ res' = num_to_string radix (Integer_val rem) ++ res
  | inr r => r = Ok (num_to_string radix (Integer_val rem) ++ res)
  end.
Proof.
  intros Hr HR VR Hrem Vrem.
  assert (HP : 2 ^ 6 <= radix ^ 6 < 2 ^ 31).
  { split; [apply Z.pow_le_mono_l; lia|].
    apply Z.le_lt_trans with (35 ^ 6); [apply Z.pow_le_mono_l; lia|lia]. }
  unfold Integer_toString_step.
  destruct (divide_spec ceil_log2 ceil_log2_ok rem R Hrem HR) as (q & -> & Wq & Vq); [lia|lia|].
  rewrite VR, Z.quot_div_nonneg in Vq by lia.
  destruct (Integer_multiply_spec q R Wq HR ltac:(lia)) as [Wm Vm].
  destruct (Integer_subtract_spec rem (Integer_multiply q R) (wf_sign _ Hrem) (wf_sign _ Wm)) as [Ws Vs].
  pose proof (Z.div_mod (Integer_val rem) (radix ^ 6) ltac:(lia)) as Edm.
  pose proof (Z.mod_pos_bound (Integer_val rem) (radix ^ 6) ltac:(lia)) as Hmod.
  set (r := Integer_val rem mod radix ^ 6) in *.
  assert (Er : Integer_toInt (Integer_subtract rem (Integer_multiply q R)) = r).
  { rewrite Integer_toInt_spec by done. rewrite Vs, Vm, Vq, VR, to_int32_id; [lia|].
    split; lia. }
  rewrite Er, Integer_isZero_val by done. rewrite Vq in *.
  assert (0 <= Integer_val rem / radix ^ 6) by (apply Z.div_pos; lia).
  destruct (Z.eqb_spec (Integer_val rem / radix ^ 6) 0) as [E0|].
  - do 3 f_equal. lia.
  - split; [done|]. split; [nia|].
    transitivity (num_to_string radix (Integer_val rem / radix ^ 6 * radix ^ 6 + r) ++ res);
      [|do 2 f_equal; lia].
    rewrite (num_to_string_app radix _ r 6) by lia. rewrite Vq, <- !app_assoc. done.
Qed.

Lemma toString_nonneg_spec radix x :
  2 <= radix <= 35 -> Integer_wf x -> 0 < Integer_val x < 2 ^ 1023 ->
  Integer_toString_nonneg ceil_log2 radix x = Ok (num_to_string radix (Integer_val x)).
Proof.
  intros Hr Hx Vx. unfold Integer_toString_nonneg.
  destruct (Integer_fromNumber_int (radix ^ 6)) as [WR VR].
  set (R := Integer_fromNumber _) in *.
  destruct (js_while_total (Integer_toString_step ceil_log2 radix R)
    (fun s => Integer_wf s.1 /\ 0 < Integer_val s.1 <= Integer_val x /\
       num_to_string radix (Integer_val s.1) ++ s.2 = num_to_string radix (Integer_val x))
    (fun r => r = Ok (num_to_string radix (Integer_val x)))
    (fun s => Integer_val s.1) (Z.to_pos (Integer_val x + 1)) (x, [])) as (r & -> & ->).
  - intros [rem res] (W & V & E). cbn [fst snd] in *.
    pose proof (toString_step_spec radix R rem res Hr WR VR W ltac:(lia)) as H.
    destruct (Integer_toString_step _ _ _ _) as [[rem' res']|r]; cbn [fst snd].
    + destruct H as (W' & V' & E'). rewrite <- E. split_and!; [done|lia|lia|done|lia|lia].
    + by rewrite <- E.
  - cbn. split_and!; [done|lia|lia|by rewrite app_nil_r].
  - cbn. lia.
  - done.
Qed.

Lemma toString_spec radix x :
  2 <= radix <= 35 -> Integer_wf x -> Z.abs (Integer_val x) < 2 ^ 1023 ->
  Integer_toString ceil_log2 x radix = Ok (num_to_string radix (Integer_val x)).
Proof.
  intros Hr Hx Vx. unfold Integer_toString.
  destruct (Z.eqb_spec radix 0); [lia|]. destruct (Z.ltb_spec radix 2); [lia|].
  destruct (Z.ltb_spec 36 radix); [lia|]. cbn [orb].
  rewrite Integer_isZero_val, Integer_isNegative_val by (done || apply Hx).
  destruct (Z.eqb_spec (Integer_val x) 0) as [->|]; [done|].
  destruct (Z.ltb_spec (Integer_val x) 0).
  - destruct (Integer_negate_spec x (wf_sign _ Hx)) as [Wn Vn].
    rewrite toString_nonneg_spec, Vn by (done || lia). cbn. f_equal.
    by rewrite num_to_string_opp by lia.
  - apply toString_nonneg_spec; done || lia.
Qed.
End toString_spec.

(** ** [fromString] *)

Lemma fromString_loop_step fuel radix s res :
  s <> [] ->
  Integer_fromString_loop (S fuel) radix s res =
  Integer_fromString_loop fuel radix (drop 8 s)
    (Integer_add (Integer_multiply res
        (Integer_fromNumber (Int (radix ^ Z.of_nat (length (take 8 s))))))
      (Integer_fromNumber (parseInt (take 8 s) radix))).
Proof.
  destruct s as [|c s']; [done|intros _]. cbn [Integer_fromString_loop]. set (s := c :: s').
  assert (substring s 0 (Nat.min 8 (length s)) = take 8 s) as ->.
  { unfold substring. rewrite drop_0, Nat.sub_0_r.
    destruct (Nat.le_ge_cases 8 (length s)); [by rewrite Nat.min_l|].
    rewrite Nat.min_r, !take_ge by done. done. }
  rewrite length_take.
  destruct (Nat.ltb_spec (Nat.min 8 (length s)) 8) as [|Hge]; [done|].
  by replace (Nat.min 8 (length s)) with 8%nat by lia.
Qed.

Lemma fromString_loop_spec radix fuel ds res :
  2 <= radix <= 15 -> digits_in radix ds -> (length ds <= fuel)%nat -> Integer_wf res ->
  Integer_wf (Integer_fromString_loop fuel radix (map digit_char ds) res) /\
  Integer_val (Integer_fromString_loop fuel radix (map digit_char ds) res)
    = Integer_val res * radix ^ Z.of_nat (length ds) + be_val radix ds.
Proof.
  intros Hr. revert ds res. induction fuel as [|fuel IH]; intros ds res Hds Hlen Hres.
  { destruct ds; [|cbn in Hlen; lia]. cbn. rewrite Z.mul_1_r, Z.add_0_r. done. }
  destruct ds as [|d ds']; [cbn; rewrite Z.mul_1_r, Z.add_0_r; done|].
  assert (Hne : d :: ds' <> []) by done. set (ds := d :: ds') in *.
  assert (Hstep : Integer_fromString_loop (S fuel) radix (map digit_char ds) res =
    Integer_fromString_loop fuel radix (map digit_char (drop 8 ds))
      (Integer_add (Integer_multiply res
          (Integer_fromNumber (Int (radix ^ Z.of_nat (length (take 8 ds))))))
        (Integer_fromNumber (Int (be_val radix (take 8 ds)))))).
  { rewrite fromString_loop_step by done.
    rewrite firstn_map, skipn_map, length_map.
    rewrite (parseInt_digits radix (take 8 ds)); [done|lia|by apply Forall_take|done]. }
  rewrite Hstep. clear Hstep.
  destruct (Integer_fromNumber_int (radix ^ Z.of_nat (length (take 8 ds)))) as [W1 V1].
  destruct (Integer_fromNumber_int (be_val radix (take 8 ds))) as [W2 V2].
  assert (0 < radix ^ Z.of_nat (length (take 8 ds)) < 2 ^ 32).
  { split; [apply Z.pow_pos_nonneg; lia|].
    apply Z.le_lt_trans with (15 ^ Z.of_nat (length (take 8 ds))); [apply Z.pow_le_mono_l; lia|].
    apply Z.le_lt_trans with (15 ^ 8); [|lia]. apply Z.pow_le_mono_r; [lia|]. rewrite length_take. lia. }
  destruct (Integer_multiply_spec res _ Hres W1 ltac:(lia)) as [W3 V3].
  destruct (Integer_add_spec _ _ (wf_sign _ W3) (wf_sign _ W2)) as [W4 V4].
  destruct (IH (drop 8 ds) _ (Forall_drop _ _ _ Hds) ltac:(rewrite length_drop; unfold ds in *; cbn in *; lia) W4) as [W5 V5].
  split; [done|]. rewrite V5, V4, V3, V1, V2.
  rewrite <- (take_drop 8 ds) at 5 6. rewrite be_val_app, length_app, Nat2Z.inj_add, Z.pow_add_r by lia. ring.
Qed.

Lemma fromString_digits radix (neg : bool) ds :
  2 <= radix <= 15 -> digits_in radix ds -> ds <> [] ->
  exists x, Integer_fromString ((if neg then ["-"%char] else []) ++ map digit_char ds) radix = Ok x /\
    Integer_wf x /\ Integer_val x = if neg then - be_val radix ds else be_val radix ds.
Proof.
  intros Hr Hds Hne.
  assert (Hpos : exists x, Integer_fromString (map digit_char ds) radix = Ok x /\
      Integer_wf x /\ Integer_val x = be_val radix ds).
  { destruct ds as [|d ds]; [done|].
    destruct (fromString_loop_spec radix (length (d :: ds)) (d :: ds) Integer_ZERO Hr Hds ltac:(lia) (proj1 Integer_ZERO_wf))
      as [W V]. eexists. split; [|split; [exact W|rewrite V, (proj2 Integer_ZERO_wf); lia]].
    change (map digit_char (d :: ds)) with (digit_char d :: map digit_char ds) at 1.
    cbn [Integer_fromString]. destruct (Z.eqb_spec radix 0); [lia|].
    destruct (Z.ltb_spec radix 2); [lia|]. destruct (Z.ltb_spec 36 radix); [lia|]. cbn [orb].
    destruct (decide (digit_char d = "-"%char)) as [E|].
    { exfalso. inversion Hds; subst. by apply (digit_char_not_minus d) in E; [|lia]. }
    change (digit_char d :: map digit_char ds) with (map digit_char (d :: ds)).
    rewrite contains_minus_digits by (eapply Forall_impl; [exact Hds|cbn; lia]).
    by rewrite length_map. }
  destruct neg; [|exact Hpos]. destruct Hpos as (x & E & W & V).
  destruct (Integer_negate_spec x (wf_sign _ W)) as [Wn Vn].
  exists (Integer_negate x). split; [|split; [done|by rewrite Vn, V]].
  cbn [app Integer_fromString]. destruct (Z.eqb_spec radix 0); [lia|].
  destruct (Z.ltb_spec radix 2); [lia|]. destruct (Z.ltb_spec 36 radix); [lia|]. cbn [orb].
  destruct (decide (_ = _)); [|done]. by rewrite E.
Qed.

Lemma fromString_num_to_string radix z :
  2 <= radix <= 15 ->
  exists x, Integer_fromString (num_to_string radix z) radix = Ok x /\ Integer_wf x /\ Integer_val x = z.
Proof.
  intros Hr. destruct (Z.lt_ge_cases z 0) as [Hz|Hz].
  - destruct (num_to_string_digits radix (- z) ltac:(lia) ltac:(lia)) as (ds & E & D & V & N).
    rewrite <- num_to_string_opp, E by done.
    destruct (fromString_digits radix true ds Hr D N) as (x & Ex & W & Vx). exists x. split; [done|]. split; [done|lia].
  - destruct (num_to_string_digits radix z ltac:(lia) Hz) as (ds & E & D & V & N). rewrite E.
    destruct (fromString_digits radix false ds Hr D N) as (x & Ex & W & Vx). exists x. split; [done|]. split; [done|lia].
Qed.

(** ** Buffers *)

(** A buffer read as a big-endian two's complement number. *)
Definition be_signed (buf : list Z) : Z := to_signed (length buf) (be_val 256 buf).

Lemma or_byte acc q b k :
  acc = q * 2 ^ (k + 8) -> 0 <= k -> k + 8 <= 31 -> 0 <= q < 2 ^ (31 - (k + 8)) -> 0 <= b < 256 ->
  acc .| (b .<< k) = acc + b * 2 ^ k.
Proof.
  intros -> Hk Hk2 Hq Hb.
  assert (0 < 2 ^ k) by (apply Z.pow_pos_nonneg; lia).
  assert (E1 : 2 ^ (k + 8) = 256 * 2 ^ k) by (rewrite Z.pow_add_r by lia; lia).
  assert (E2 : 2 ^ 31 = 2 ^ (31 - (k + 8)) * 2 ^ (k + 8)) by (rewrite <- Z.pow_add_r by lia; f_equal; lia).
  rewrite js_shl_mul by lia. unfold js_or.
  assert (is_int32 (b * 2 ^ k)).
  { unfold is_int32. assert (2 ^ (k + 8) <= 2 ^ 31) by (apply Z.pow_le_mono_r; lia). nia. }
  assert (is_int32 (q * 2 ^ (k + 8))).
  { unfold is_int32. rewrite E2. split; [|apply Z.mul_lt_mono_pos_r; lia].
    assert (0 <= q * 2 ^ (k + 8)) by (apply Z.mul_nonneg_nonneg; lia). lia. }
  rewrite (to_int32_id (b * 2 ^ k)), !to_int32_id by done.
  apply lor_add_disjoint; nia.
Qed.

Lemma not_byte b : 0 <= b < 256 -> (.~ b) .& 255 = 255 - b.
Proof.
  intros Hb. rewrite js_and_ff, js_not_eq by (unfold is_int32; lia).
  symmetry. apply Z.mod_unique_pos with (-1); lia.
Qed.

(** The first, shorter group: sign extension of up to three bytes. *)
Lemma fromBuffer_head_spec hd tl sign :
  bytes_ok hd -> (1 <= length hd <= 3)%nat -> is_sign sign ->
  Integer_fromBuffer_head (hd ++ tl) sign (length hd) = be_val 256 hd + sign * 2 ^ (8 * Z.of_nat (length hd)).
Proof.
  intros Hb Hl Hs. unfold Integer_fromBuffer_head, bytes_ok, digits_in in *.
  destruct hd as [|a [|b [|c [|]]]]; cbn in Hl; try lia;
    repeat match goal with H : Forall _ (_ :: _) |- _ => apply Forall_cons_1 in H as [? H] end;
    unfold rd; cbn [length seq foldl app list_lookup lookup default from_option id];
    destruct Hs as [-> | ->]; cbn [Z.eqb Pos.eqb Z.of_nat]; rewrite ?not_byte by done;
    unfold be_val; cbn [rev app le_val length].
  - rewrite (or_byte 0 0) by lia. lia.
  - rewrite (or_byte 0 0) by lia. rewrite js_not_eq by (unfold is_int32; lia). lia.
  - rewrite (or_byte 0 0) by lia. rewrite (or_byte (_ + _) a) by lia. lia.
  - rewrite (or_byte 0 0) by lia. rewrite (or_byte (_ + _) (255 - a)) by lia.
    rewrite js_not_eq by (unfold is_int32; lia). lia.
  - rewrite (or_byte 0 0) by lia. rewrite (or_byte (_ + _) a) by lia. rewrite (or_byte (_ + _) (a * 256 + b)) by lia. lia.
  - rewrite (or_byte 0 0) by lia. rewrite (or_byte (_ + _) (255 - a)) by lia.
    rewrite (or_byte (_ + _) ((255 - a) * 256 + (255 - b))) by lia.
    rewrite js_not_eq by (unfold is_int32; lia). lia.
Qed.

Definition buffer_word (buf : list Z) (i : nat) : Z :=
  let offset := Z.of_nat (length buf) - (Z.of_nat i + 1) * 4 in
  to_signed 4 (be_val 256 (slice buf (Z.to_nat offset) (Z.to_nat offset + 4))).

Lemma to_uint32_signed v : 0 <= v < 2 ^ 32 -> to_uint32 (to_signed 4 v) = v.
Proof.
  intros Hv. unfold to_uint32, to_signed. change (8 * Z.of_nat 4) with 32.
  destruct (_ <? _); [by apply Z.mod_small|].
  symmetry. apply Z.mod_unique_pos with (-1); lia.
Qed.

(** The full words of the buffer, least significant first. *)
Lemma buffer_words_val m : forall hd tl,
  bytes_ok tl -> length tl = (4 * m)%nat ->
  le_val (2 ^ 32) (map to_uint32 (map (buffer_word (hd ++ tl)) (seq 0 m))) = be_val 256 tl.
Proof.
  induction m as [|m IH]; intros hd tl Hb Hl.
  { destruct tl; [done|cbn in Hl; lia]. }
  rewrite <- (take_drop 4 tl) in Hb |- *. set (w := take 4 tl) in *. set (t := drop 4 tl) in *.
  assert (Hw : length w = 4%nat) by (unfold w; rewrite length_take; lia).
  assert (Ht : length t = (4 * m)%nat) by (unfold t; rewrite length_drop; lia).
  apply Forall_app in Hb as [Hb1 Hb2].
  rewrite seq_S, !map_app, le_val_app. rewrite !length_map, length_seq, be_val_app, Ht.
  rewrite app_assoc, (IH (hd ++ w) t Hb2 Ht). cbn [map le_val Nat.add].
  assert (E : buffer_word ((hd ++ w) ++ t) m = to_signed 4 (be_val 256 w)).
  { unfold buffer_word. rewrite !length_app, Hw, Ht.
    replace (Z.to_nat _) with (length hd) by lia. rewrite <- app_assoc, slice_app by done. done. }
  pose proof (be_val_bounds w Hb1) as Hwb. rewrite Hw in Hwb.
  rewrite E, to_uint32_signed, pow2_32, pow256 by exact Hwb.
  replace (8 * Z.of_nat (4 * m)) with (32 * Z.of_nat m) by lia. lia.
Qed.

Lemma sign_bit b : 0 <= b < 256 -> ((b .& (1 .<< 7)) =? 0) = (b <? 128).
Proof.
  intros Hb. assert (H : forallb (fun b => Bool.eqb ((b .& (1 .<< 7)) =? 0) (b <? 128)) (seqZ 0 256) = true)
    by (vm_compute; reflexivity).
  rewrite forallb_forall in H. apply eqb_prop, H, list_elem_of_In, elem_of_seqZ. lia.
Qed.

(** The sign of a non-empty buffer is the top bit of its first byte. *)
Lemma be_signed_sign buf :
  bytes_ok buf -> buf <> [] ->
  let sign := if (rd buf 0 .& (1 .<< 7)) =? 0 then 0 else -1 in
  be_signed buf = be_val 256 buf + sign * 2 ^ (8 * Z.of_nat (length buf)).
Proof.
  intros Hb Hne. destruct buf as [|b l]; [done|]. apply Forall_cons in Hb as [Hb Hl].
  unfold be_signed, to_signed. change (rd (b :: l) 0) with b. rewrite sign_bit by done.
  rewrite be_val_cons. cbn [length]. rewrite Nat2Z.inj_succ.
  replace (8 * Z.succ (Z.of_nat (length l)) - 1) with (7 + 8 * Z.of_nat (length l)) by lia.
  replace (8 * Z.succ (Z.of_nat (length l))) with (8 + 8 * Z.of_nat (length l)) by lia.
  rewrite !Z.pow_add_r, pow256 by lia.
  pose proof (be_val_bounds l Hl) as Hv. set (P := 2 ^ (8 * _)) in *.
  destruct (Z.ltb_spec b 128), (Z.ltb_spec (b * P + be_val 256 l) (2 ^ 7 * P)); nia.
Qed.

Lemma Integer_fromBuffer_spec buf :
  bytes_ok buf -> buf <> [] ->
  Integer_wf (Integer_fromBuffer buf) /\ Integer_val (Integer_fromBuffer buf) = be_signed buf.
Proof.
  intros Hb Hne. rewrite (be_signed_sign buf Hb Hne). cbv zeta. unfold Integer_fromBuffer.
  set (sign := if _ =? 0 then 0 else -1).
  assert (Hs : is_sign sign) by (unfold sign; destruct (_ =? 0); [by left|by right]).
  set (m := (length buf / 4)%nat). set (k := (length buf mod 4)%nat).
  pose proof (Nat.div_mod (length buf) 4 ltac:(lia)) as Hdm.
  pose proof (Nat.mod_upper_bound (length buf) 4 ltac:(lia)) as Hk. fold m k in Hdm, Hk.
  assert (Hhd : length (take k buf) = k) by (rewrite length_take; lia).
  assert (Htl : length (drop k buf) = (4 * m)%nat) by (rewrite length_drop; lia).
  pose proof (Forall_take _ k _ Hb) as Hb1. pose proof (Forall_drop _ k _ Hb) as Hb2.
  pose proof (buffer_words_val m (take k buf) (drop k buf) Hb2 Htl) as Hwords.
  rewrite take_drop in Hwords.
  set (word := fun i : nat => _).
  assert (Hlow : map word (seq 0 m) = map (buffer_word buf) (seq 0 m)).
  { apply map_ext_in. intros i [_ Hi]%in_seq. unfold word, buffer_word. cbv zeta.
    destruct (Z.ltb_spec (Z.of_nat (length buf) - (Z.of_nat i + 1) * 4) 0); [lia|done]. }
  destruct (Integer_new_spec (map word (seq 0 ((length buf + 3) / 4)%nat)) sign Hs) as [W V].
  split; [done|]. rewrite V. clear W V. unfold raw_val.
  destruct (Nat.eq_dec k O) as [Ek|Nk].
  - replace ((length buf + 3) / 4)%nat with m
      by (rewrite Hdm, Ek; apply Nat.div_unique with 3%nat; lia).
    rewrite Hlow, Hwords, !length_map, length_seq, Ek, drop_0. do 3 f_equal. lia.
  - replace ((length buf + 3) / 4)%nat with (S m) by (apply Nat.div_unique with (k - 1)%nat; lia).
    rewrite seq_S, map_app, Hlow, map_app, le_val_app, Hwords, !length_app, !length_map, length_seq, pow2_32.
    cbn [map le_val length Nat.add].
    assert (Ew : word m = be_val 256 (take k buf) + sign * 2 ^ (8 * Z.of_nat k)).
    { unfold word. cbv zeta.
      destruct (Z.ltb_spec (Z.of_nat (length buf) - (Z.of_nat m + 1) * 4) 0); [|lia].
      replace (Z.to_nat _) with k by lia.
      pose proof (fromBuffer_head_spec (take k buf) (drop k buf) sign Hb1 ltac:(lia) Hs) as E.
      by rewrite take_drop, Hhd in E. }
    pose proof (be_val_bounds (take k buf) Hb1) as Hv. rewrite Hhd in Hv.
    assert (Hk3 : 2 ^ (8 * Z.of_nat k) <= 2 ^ 24) by (apply Z.pow_le_mono_r; lia).
    assert (Eu : to_uint32 (word m) = word m + - sign * 2 ^ 32).
    { unfold to_uint32. symmetry. apply Z.mod_unique_pos with sign; [|lia].
      rewrite Ew. destruct Hs as [-> | ->]; lia. }
    assert (Ebuf : be_val 256 buf = be_val 256 (take k buf) * 256 ^ Z.of_nat (4 * m) + be_val 256 (drop k buf)).
    { rewrite <- Htl, <- be_val_app. by rewrite take_drop. }
    rewrite Eu, Ew, Ebuf, pow256.
    replace (8 * Z.of_nat (4 * m)) with (32 * Z.of_nat m) by lia.
    replace (32 * Z.of_nat (m + 1)) with (32 + 32 * Z.of_nat m) by lia.
    replace (8 * Z.of_nat (length buf)) with (32 * Z.of_nat m + 8 * Z.of_nat k) by lia.
    rewrite !Z.pow_add_r by lia. ring.
Qed.

Lemma high_byte h k :
  is_int32 h -> 0 <= k <= 24 -> (h .>> k) .& 255 = (to_uint32 h / 2 ^ k) mod 256.
Proof.
  intros Hh Hk. rewrite js_and_ff, js_shr_div by (done || lia).
  destruct (to_int32_cases h Hh) as [[_ ->]|[_ ->]]; [done|].
  replace (2 ^ 32) with (2 ^ (24 - k) * 256 * 2 ^ k)
    by (change 256 with (2 ^ 8); rewrite <- !Z.pow_add_r by lia; f_equal; lia).
  rewrite Z.div_add by (apply Z.pow_nonzero; lia). by rewrite Z.mod_add by lia.
Qed.

(** The bytes of the highest piece: at least one, no leading zero byte. *)
Lemma toBuffer_high_spec h :
  is_int32 h ->
  let high := Integer_toBuffer_high h in
  be_val 256 high = to_uint32 h /\ bytes_ok high /\ high <> [].
Proof.
  intros Hh. cbv zeta. unfold Integer_toBuffer_high.
  rewrite !high_byte, !js_ushr_div, js_and_ff by (done || lia).
  assert (h mod 256 = to_uint32 h mod 256) as ->.
  { destruct (to_int32_cases h Hh) as [[_ ->]|[_ ->]]; [done|].
    change (2 ^ 32) with (2 ^ 24 * 256). by rewrite Z.mod_add by lia. }
  pose proof (to_uint32_range h) as Hu. set (u := to_uint32 h) in *.
  assert (Hmod : forall z, 0 <= z mod 256 < 256) by (intros; apply Z.mod_pos_bound; lia).
  destruct (Z.ltb_spec 0 (u / 2 ^ 24)), (Z.ltb_spec 0 (u / 2 ^ 16)), (Z.ltb_spec 0 (u / 2 ^ 8)); cbn [app];
    (split; [unfold be_val; cbn [rev app le_val]
            |split; [unfold bytes_ok, digits_in; repeat (apply Forall_cons; split; [apply Hmod|]); apply Forall_nil_2
                    |done]]);
    change (2 ^ 32) with 4294967296 in *; change (2 ^ 24) with 16777216 in *;
    change (2 ^ 16) with 65536 in *; change (2 ^ 8) with 256 in *;
    clear Hmod Hh; clearbody u; Z.to_euclidean_division_equations; lia.
Qed.

Lemma be_val_map_inverted l :
  be_val 256 (map (fun b => 255 - b) l) = 256 ^ Z.of_nat (length l) - 1 - be_val 256 l.
Proof.
  induction l as [|b l IH]; [done|]. cbn [map]. rewrite !be_val_cons, length_map, IH.
  cbn [length]. rewrite Nat2Z.inj_succ, Z.pow_succ_r by lia. ring.
Qed.

Lemma lower_words l :
  be_val 256 (concat (map (be_bytes 4) (rev l))) = le_val (2 ^ 32) (map to_uint32 l) /\
  length (concat (map (be_bytes 4) (rev l))) = (4 * length l)%nat /\
  bytes_ok (concat (map (be_bytes 4) (rev l))).
Proof.
  induction l as [|d l (V & L & B)]; [split; [done|split; [done|constructor]]|]. cbn [rev].
  rewrite map_app, concat_app. cbn [map concat]. rewrite app_nil_r.
  split; [|split].
  - rewrite be_val_app, be_val_be_bytes, length_be_bytes, V. cbn [le_val map].
    change (256 ^ Z.of_nat 4) with (2 ^ 32). change (2 ^ (8 * Z.of_nat 4)) with (2 ^ 32).
    unfold to_uint32. lia.
  - rewrite length_app, length_be_bytes, L. cbn [length]. lia.
  - apply Forall_app. split; [done|apply be_bytes_ok].
Qed.

Lemma rd_app_l l t i : (i < length l)%nat -> rd (l ++ t) i = rd l i.
Proof. intros Hi. unfold rd. by rewrite lookup_app_l. Qed.

Lemma map_rd_rev l : forall t, map (fun i => rd (l ++ t) (length l - 1 - i)) (seq 0 (length l)) = rev l.
Proof.
  induction l as [|d l IH] using rev_ind; intros t; [done|].
  rewrite rev_app_distr, length_app. cbn [rev app length]. rewrite Nat.add_1_r. cbn [seq map].
  f_equal.
  - unfold rd. rewrite <- app_assoc, lookup_app_r by lia.
    by replace (S (length l) - 1 - 0 - length l)%nat with O by lia.
  - rewrite <- (IH ([d] ++ t)), <- seq_shift, map_map. apply map_ext. intros i.
    rewrite <- app_assoc. f_equal. lia.
Qed.

(** The bytes for the highest piece [h] with the sign byte added where the
    top bit does not tell the sign. *)
Definition toBuffer_top (sign h : Z) : list Z :=
  let high := Integer_toBuffer_high (if sign =? -1 then .~ h else h) in
  let high := if negb ((rd high 0 .>> 7) =? 0) then 0 :: high else high in
  map (fun b => (if sign =? -1 then .~ b else b) mod 256) high.

Lemma inverted_bytes sign l :
  bytes_ok l -> is_sign sign ->
  map (fun b => (if sign =? -1 then .~ b else b) mod 256) l = map (fun b => if sign =? -1 then 255 - b else b) l.
Proof.
  intros Hl Hs. apply map_ext_in. intros b Hb.
  assert (0 <= b < 256).
  { unfold bytes_ok, digits_in in Hl. rewrite Forall_forall in Hl. by apply Hl, list_elem_of_In. }
  destruct Hs as [-> | ->]; cbn [Z.eqb Pos.eqb]; [by apply Z.mod_small|].
  rewrite <- js_and_ff. by apply not_byte.
Qed.

Lemma padded_high_spec high :
  bytes_ok high -> high <> [] ->
  let high' := if negb ((rd high 0 .>> 7) =? 0) then 0 :: high else high in
  be_val 256 high' = be_val 256 high /\ bytes_ok high' /\ exists b l, high' = b :: l /\ 0 <= b < 128.
Proof.
  intros HB HN. cbv zeta. destruct high as [|b l]; [done|]. change (rd (b :: l) 0) with b.
  pose proof HB as HB'. apply Forall_cons in HB' as [Hb _].
  rewrite js_shr_div by (unfold is_int32; lia).
  destruct (Z.eqb_spec (b / 2 ^ 7) 0); cbn [negb].
  - split; [done|split; [done|exists b, l]]. split; [done|]. Z.to_euclidean_division_equations; lia.
  - split; [by rewrite be_val_cons|]. split; [constructor; [lia|done]|]. exists 0, (b :: l). split; [done|lia].
Qed.

Lemma toBuffer_top_spec sign h :
  is_sign sign -> is_int32 h ->
  let top := toBuffer_top sign h in
  be_val 256 top = to_uint32 h - sign * (256 ^ Z.of_nat (length top) - 2 ^ 32) /\ bytes_ok top /\
  exists b l, top = b :: l /\ 0 <= b < 256 /\ (b <? 128) = (sign =? 0).
Proof.
  intros Hs Hh. cbv zeta. unfold toBuffer_top. cbv zeta. set (hh := if sign =? -1 then .~ h else h).
  assert (Hhh : is_int32 hh /\ to_uint32 hh = if sign =? -1 then 2 ^ 32 - 1 - to_uint32 h else to_uint32 h).
  { unfold hh. destruct Hs as [-> | ->]; cbn [Z.eqb Pos.eqb]; [done|].
    rewrite js_not_eq by done. unfold is_int32 in *.
    destruct (to_int32_cases h Hh), (to_int32_cases (- h - 1)); unfold is_int32; lia. }
  destruct Hhh as [Hhh Eu]. destruct (toBuffer_high_spec hh Hhh) as (HV & HB & HN).
  destruct (padded_high_spec _ HB HN) as (V & B & b & l & E & Hb). cbv zeta in *.
  rewrite inverted_bytes by done. set (H1 := if negb _ then _ else _) in *. clearbody H1. rewrite HV, Eu in V.
  destruct Hs as [-> | ->]; cbn [Z.eqb Pos.eqb] in *; rewrite length_map.
  - rewrite map_id. split; [lia|]. split; [done|]. exists b, l. split; [done|]. split; [lia|apply Z.ltb_lt; lia].
  - rewrite be_val_map_inverted. split; [lia|]. split.
    + apply Forall_map. eapply Forall_impl; [exact B|]. cbn. lia.
    + rewrite E. cbn [map]. eexists _, _. split; [done|]. split; [lia|apply Z.ltb_ge; lia].
Qed.

Lemma Integer_toBuffer_spec x :
  Integer_wf x ->
  bytes_ok (Integer_toBuffer x) /\ Integer_toBuffer x <> [] /\
  be_signed (Integer_toBuffer x) = Integer_val x.
Proof.
  intros Hx. destruct x as [bits sign]. destruct Hx as [Hbits Hs Htop]. cbn in *.
  destruct (rev bits) as [|h r] eqn:Er.
  { apply (f_equal (@rev Z)) in Er. rewrite rev_involutive in Er. subst bits.
    destruct Hs as [-> | ->]; (split; [apply Forall_singleton, Z.mod_pos_bound; lia|split; [done|reflexivity]]). }
  apply (f_equal (@rev Z)) in Er. rewrite rev_involutive in Er. cbn [rev] in Er. subst bits.
  set (low := rev r) in *. clearbody low. clear r Htop.
  apply Forall_app in Hbits as [_ Hh]. apply Forall_cons_1 in Hh as [Hh _].
  unfold Integer_toBuffer. cbn [sign_ bits_].
  destruct (low ++ [h]) as [|z zs] eqn:Eb; [by destruct low|]. rewrite <- Eb. clear Eb z zs.
  assert (Hn : (length (low ++ [h]) - 1)%nat = length low) by (rewrite length_app; cbn; lia).
  rewrite Hn. replace (rd (low ++ [h]) (length low)) with h
    by (unfold rd; rewrite lookup_app_r, Nat.sub_diag by lia; done).
  assert (Hl2 : forall i, (length (low ++ [h]) - 2 - i = length low - 1 - i)%nat)
    by (intros; rewrite length_app; cbn; lia).
  replace (map (fun i => be_bytes 4 (rd (low ++ [h]) (length (low ++ [h]) - 2 - i))) (seq 0 (length low)))
    with (map (be_bytes 4) (rev low)).
  2: { rewrite <- (map_rd_rev low [h]), map_map. apply map_ext. intros i. by rewrite Hl2. }
  destruct (lower_words low) as (LV & LL & LB). set (L := concat _) in *. clearbody L.
  change (map _ _) with (toBuffer_top sign h).
  destruct (toBuffer_top_spec sign h Hs Hh) as (V2 & B2 & b & l & E2 & Hb & Hb').
  set (top := toBuffer_top sign h) in *. clearbody top.
  split; [by apply Forall_app|]. split; [by rewrite E2|].
  rewrite be_signed_sign; [|by apply Forall_app|by rewrite E2]. cbv zeta.
  replace (rd (top ++ L) 0) with b by (by rewrite E2).
  rewrite sign_bit, Hb' by done.
  rewrite be_val_app, V2, LV, length_app, LL, pow256.
  rewrite Integer_val_raw. cbn [bits_ sign_]. unfold raw_val.
  rewrite map_app, le_val_app, length_map, !length_app, pow2_32. cbn [map le_val length].
  rewrite pow256.
  replace (8 * Z.of_nat (4 * length low)) with (32 * Z.of_nat (length low)) by lia.
  replace (8 * Z.of_nat (length top + 4 * length low))
    with (8 * Z.of_nat (length top) + 32 * Z.of_nat (length low)) by lia.
  replace (32 * Z.of_nat (length low + 1)) with (32 + 32 * Z.of_nat (length low)) by lia.
  rewrite !Z.pow_add_r by lia. destruct Hs as [-> | ->]; cbn [Z.eqb]; ring.
Qed.
