(* ===== verification/IntegerTheorems.v ===== *)
(** What [lib/types/integer.js] guarantees, operation by operation.  The
    proofs are the lemmas of IntegerArith, IntegerMul, IntegerDiv and
    IntegerText. *)
From S2P Require Import Prelude.
From S2P Require Import JsNum.
From S2P Require Import JsStr.
From S2P Require Import Buffer.
From S2P Require Import Integer.
From S2P Require Import IntegerArith.
From S2P Require Import IntegerMul.
From S2P Require Import IntegerText.

(** A concrete logarithm for the witnesses. *)
Lemma log2_up_ok : forall a, 1 <= a -> Z.log2 a - 1 <= Z.log2_up a <= Z.log2 a + 2.
Proof.
  intros a Ha. pose proof (Z.le_log2_log2_up a). pose proof (Z.le_log2_up_succ_log2 a). lia.
Qed.

(** addition, subtraction and negation of canonical Integers are exact on
    the numbers they stand for, the results are canonical again, and two
    Integers are [equals] (or compare as 0) exactly when they are the same
    object contents. *)
Theorem Integer_additive_group (x y : Integer) (Hx : Integer_wf x) (Hy : Integer_wf y) :
  (Integer_wf (Integer_add x y) /\ Integer_val (Integer_add x y) = Integer_val x + Integer_val y) /\
  (Integer_wf (Integer_subtract x y) /\ Integer_val (Integer_subtract x y) = Integer_val x - Integer_val y) /\
  (Integer_wf (Integer_negate x) /\ Integer_val (Integer_negate x) = - Integer_val x) /\
  Integer_compare x y = Z.sgn (Integer_val x - Integer_val y) /\
  (Integer_equals x y = true <-> x = y).
Proof.
  pose proof (wf_sign _ Hx) as Sx. pose proof (wf_sign _ Hy) as Sy.
  split; [by apply Integer_add_spec|]. split; [by apply Integer_subtract_spec|].
  split; [by apply Integer_negate_spec|]. split.
  - by apply Integer_compare_spec.
  - rewrite Integer_equals_spec, Z.eqb_eq by done. split; [by apply Integer_val_inj|by intros ->].
Qed.

Lemma Integer_additive_group_witness :
  Integer_val (Integer_add (Integer_new [-1; -1] 0) (Integer_new [7] (-1))) = 2 ^ 64 - 1 + (7 - 2 ^ 32).
Proof.
  refine (proj2 (proj1 (Integer_additive_group (Integer_new [-1; -1] 0) (Integer_new [7] (-1)) _ _)));
    apply Integer_new_wf; [by left|by right].
Defined.

(** the bitwise operations act on the infinite two's complement
    representation of the values, and the shifts multiply by and floor-divide
    by a power of two, for every count that a 32-bit Number can hold. *)
Theorem Integer_bitwise_exact (x y : Integer) (n : Z)
  (Hx : Integer_wf x) (Hy : Integer_wf y) (Hn : 0 <= n < 2 ^ 31) :
  Integer_val (Integer_and x y) = Z.land (Integer_val x) (Integer_val y) /\
  Integer_val (Integer_or x y) = Z.lor (Integer_val x) (Integer_val y) /\
  Integer_val (Integer_xor x y) = Z.lxor (Integer_val x) (Integer_val y) /\
  Integer_val (Integer_not x) = - Integer_val x - 1 /\
  Integer_val (Integer_shiftLeft x n) = Integer_val x * 2 ^ n /\
  Integer_val (Integer_shiftRight x n) = Integer_val x / 2 ^ n.
Proof.
  pose proof (wf_sign _ Hx) as Sx. pose proof (wf_sign _ Hy) as Sy.
  split; [by apply Integer_and_spec|]. split; [by apply Integer_or_spec|].
  split; [by apply Integer_xor_spec|]. split; [by apply Integer_not_spec|].
  split; [by apply Integer_shiftLeft_spec|by apply Integer_shiftRight_spec].
Qed.

Lemma Integer_bitwise_exact_witness :
  Integer_val (Integer_shiftRight (Integer_new [7; 12] (-1)) 33)
    = Integer_val (Integer_new [7; 12] (-1)) / 2 ^ 33.
Proof.
  assert (W : Integer_wf (Integer_new [7; 12] (-1))) by (apply Integer_new_wf; by right).
  destruct (Integer_bitwise_exact (Integer_new [7; 12] (-1)) (Integer_new [7; 12] (-1)) 33 W W ltac:(lia))
    as (_ & _ & _ & _ & _ & H). exact H.
Defined.

(** multiplication is exact as soon as one factor is below [2^32] in
    magnitude, the other one being of any size and both of any sign. *)
Theorem Integer_multiply_exact (x y : Integer) (Hx : Integer_wf x) (Hy : Integer_wf y)
  (Hsmall : Z.abs (Integer_val x) < 2 ^ 32 \/ Z.abs (Integer_val y) < 2 ^ 32) :
  Integer_wf (Integer_multiply x y) /\
  Integer_val (Integer_multiply x y) = Integer_val x * Integer_val y.
Proof. by apply Integer_multiply_spec. Qed.

Lemma Integer_multiply_exact_witness :
  Integer_val (Integer_multiply (Integer_new [-1; -1; 5] 0) (Integer_new [-3] (-1)))
    = Integer_val (Integer_new [-1; -1; 5] 0) * -3.
Proof.
  refine (proj2 (Integer_multiply_exact (Integer_new [-1; -1; 5] 0) (Integer_new [-3] (-1)) _ _ _)).
  - apply Integer_new_wf. by left.
  - apply Integer_new_wf. by right.
  - right. vm_compute. reflexivity.
Defined.

(** with two factors of two full words the carries are lost: a 16-bit
    column can exceed [2^32] before [carry16_] normalises it, and [>>>] then
    drops its high bits.  [(2^64 - 1)^2] comes out wrong. *)
Theorem Integer_multiply_loses_carry :
  Integer_val (Integer_new [-1; -1] 0) = 2 ^ 64 - 1 /\
  Integer_val (Integer_multiply (Integer_new [-1; -1] 0) (Integer_new [-1; -1] 0))
    <> (2 ^ 64 - 1) * (2 ^ 64 - 1).
Proof. split; vm_compute; congruence. Qed.

(** division truncates towards zero and [modulo] is its remainder, for
    every divisor of one word and dividend below [2^1023], whatever the last
    bits of the engine's [Math.log]; the approximation loops terminate. *)
Theorem Integer_divide_modulo (ceil_log2 : Z -> Z)
  (Hlog : forall a, 1 <= a -> Z.log2 a - 1 <= ceil_log2 a <= Z.log2 a + 2)
  (x y : Integer) (Hx : Integer_wf x) (Hy : Integer_wf y)
  (Bx : Z.abs (Integer_val x) < 2 ^ 1023) (By : 0 < Z.abs (Integer_val y) < 2 ^ 32) :
  (exists q, Integer_divide ceil_log2 x y = Ok q /\ Integer_val q = Z.quot (Integer_val x) (Integer_val y)) /\
  (exists r, Integer_modulo ceil_log2 x y = Ok r /\ Integer_val r = Z.rem (Integer_val x) (Integer_val y)).
Proof.
  split.
  - destruct (divide_spec ceil_log2 Hlog x y Hx Hy Bx By) as (q & ? & _ & ?). eauto.
  - destruct (modulo_spec ceil_log2 Hlog x y Hx Hy Bx By) as (r & ? & _ & ?). eauto.
Qed.

Lemma Integer_divide_modulo_witness :
  exists q, Integer_divide Z.log2_up (Integer_new [5; -77; 12345] 0) (Integer_new [-10] (-1)) = Ok q /\
    Integer_val q = Z.quot (Integer_val (Integer_new [5; -77; 12345] 0)) (-10).
Proof.
  refine (proj1 (Integer_divide_modulo Z.log2_up log2_up_ok (Integer_new [5; -77; 12345] 0)
    (Integer_new [-10] (-1)) _ _ _ _)).
  - apply Integer_new_wf. by left.
  - apply Integer_new_wf. by right.
  - vm_compute. reflexivity.
  - vm_compute. split; reflexivity.
Defined.

(** C36: [toBuffer] writes the value as big-endian two's complement,
    [fromBuffer] reads any non-empty buffer so, and reading what was written
    gives the Integer back. *)
Theorem Integer_buffer_roundtrip (x : Integer) (buf : list Z)
  (Hx : Integer_wf x) (Hbuf : bytes_ok buf) (Hne : buf <> []) :
  be_signed (Integer_toBuffer x) = Integer_val x /\
  Integer_val (Integer_fromBuffer buf) = be_signed buf /\
  Integer_fromBuffer (Integer_toBuffer x) = x.
Proof.
  destruct (Integer_toBuffer_spec x Hx) as (B & N & V).
  destruct (Integer_fromBuffer_spec _ B N) as [W V2].
  split_and!; [done|by apply Integer_fromBuffer_spec|].
  apply Integer_val_inj; [done|done|by rewrite V2].
Qed.

Lemma Integer_buffer_roundtrip_witness :
  Integer_fromBuffer (Integer_toBuffer (Integer_new [128; 5] (-1))) = Integer_new [128; 5] (-1).
Proof.
  refine (proj2 (proj2 (Integer_buffer_roundtrip (Integer_new [128; 5] (-1)) [1] _ _ _))).
  - apply Integer_new_wf. by right.
  - apply Forall_cons. split; [lia|constructor].
  - discriminate.
Defined.

(** in a radix up to 15 (the driver uses 10 and 16 bits below),
    [toString] prints the digits of the value and [fromString] of that text
    gives the Integer back. *)
Theorem Integer_text_roundtrip (ceil_log2 : Z -> Z)
  (Hlog : forall a, 1 <= a -> Z.log2 a - 1 <= ceil_log2 a <= Z.log2 a + 2)
  (radix : Z) (x : Integer) (Hr : 2 <= radix <= 15) (Hx : Integer_wf x)
  (Bx : Z.abs (Integer_val x) < 2 ^ 1023) :
  exists s, Integer_toString ceil_log2 x radix = Ok s /\ s = num_to_string radix (Integer_val x) /\
    Integer_fromString s radix = Ok x.
Proof.
  exists (num_to_string radix (Integer_val x)).
  split; [apply toString_spec; done || lia|]. split; [done|].
  destruct (fromString_num_to_string radix (Integer_val x) Hr) as (y & -> & Wy & Vy).
  f_equal. by apply Integer_val_inj.
Qed.

Lemma Integer_text_roundtrip_witness :
  exists s, Integer_toString Z.log2_up (Integer_new [7; 12] (-1)) 10 = Ok s /\
    s = num_to_string 10 (Integer_val (Integer_new [7; 12] (-1))) /\
    Integer_fromString s 10 = Ok (Integer_new [7; 12] (-1)).
Proof.
  refine (Integer_text_roundtrip Z.log2_up log2_up_ok 10 (Integer_new [7; 12] (-1)) _ _ _).
  - lia.
  - apply Integer_new_wf. by right.
  - vm_compute. reflexivity.
Defined.

(** in radix 36 six digits do not fit a signed 32-bit piece: [toInt] of
    the remainder is negative and a minus sign lands inside the text. *)
Theorem Integer_toString_radix36 :
  Integer_val (Integer_new [-2118184961] 0) = 36 ^ 6 - 1 /\
  Integer_toString Z.log2_up (Integer_new [-2118184961] 0) 36 = Ok (str "-z141z5") /\
  num_to_string 36 (36 ^ 6 - 1) = str "zzzzzz".
Proof. split_and!; vm_compute; reflexivity. Qed.
