(* ===== verification/LongLib.v ===== *)
(** The interface of the npm package [long], which the driver uses for 64-bit
    integers and which is not part of the repository.

    [LongLib] lists the operations the driver calls; [LongLaws] states their
    documented behaviour on the 64-bit two's complement representation.  The
    components are developed against the two classes.  [LongModel] is a
    concrete implementation, so that the theorems can be instantiated. *)
From S2P Require Import Prelude.
From S2P Require Import JsNum.
From S2P Require Import JsStr.

Class LongLib := {
  Long : Type;
  (** The 64 bits as a number in [0, 2^64), and the unsigned flag. *)
  long_bits : Long -> Z;
  long_unsigned : Long -> bool;
  Long_fromBits : Z -> Z -> bool -> Long;
  Long_fromInt : Z -> Long;
  Long_fromNumber : Z -> Long;
  Long_fromString : jsstr -> Long;
  Long_getLowBits : Long -> Z;
  Long_getHighBits : Long -> Z;
  Long_getLowBitsUnsigned : Long -> Z;
  Long_getHighBitsUnsigned : Long -> Z;
  Long_toUnsigned : Long -> Long;
  Long_shiftLeft : Long -> Z -> Long;
  Long_shiftRight : Long -> Z -> Long;
  Long_shiftRightUnsigned : Long -> Z -> Long;
  Long_and : Long -> Long -> Long;
  Long_or : Long -> Long -> Long;
  Long_xor : Long -> Long -> Long;
  Long_add : Long -> Long -> Long;
  Long_sub : Long -> Long -> Long;
  Long_mul : Long -> Long -> Long;
  Long_div : Long -> Long -> Long;
  Long_mod : Long -> Long -> Long;
  Long_negate : Long -> Long;
  Long_compare : Long -> Long -> Z;
  Long_equals : Long -> Long -> bool;
  Long_toString : Long -> jsstr;
  Long_isNegative : Long -> bool;
  Long_toNumber : Long -> Z;
}.

Definition signed64 (b : Z) : Z := if b <? 2 ^ 63 then b else b - 2 ^ 64.

(** The number a Long stands for. *)
Definition long_val `{LongLib} (x : Long) : Z :=
  if long_unsigned x then long_bits x else signed64 (long_bits x).

Definition is_int64 (z : Z) : Prop := - 2 ^ 63 <= z < 2 ^ 63.

Class LongLaws `{LongLib} : Prop := {
  long_bits_range x : 0 <= long_bits x < 2 ^ 64;
  long_fromBits_bits lo hi u :
    long_bits (Long_fromBits lo hi u) = to_uint32 lo + 2 ^ 32 * to_uint32 hi;
  long_fromBits_unsigned lo hi u : long_unsigned (Long_fromBits lo hi u) = u;
  long_fromInt_val z : is_int32 z -> long_val (Long_fromInt z) = z /\ long_unsigned (Long_fromInt z) = false;
  long_fromNumber_val z :
    - 2 ^ 53 <= z <= 2 ^ 53 -> long_val (Long_fromNumber z) = z /\ long_unsigned (Long_fromNumber z) = false;
  long_fromString_digits (neg : bool) ds :
    digits_in 10 ds -> ds <> [] ->
    let z := if neg then - be_val 10 ds else be_val 10 ds in
    let s := (if neg then ["-"%char] else []) ++ map digit_char ds in
    is_int64 z -> long_val (Long_fromString s) = z /\ long_unsigned (Long_fromString s) = false;
  long_getLowBits_eq x : Long_getLowBits x = to_int32 (long_bits x);
  long_getHighBits_eq x : Long_getHighBits x = to_int32 (long_bits x / 2 ^ 32);
  long_getLowBitsUnsigned_eq x : Long_getLowBitsUnsigned x = long_bits x mod 2 ^ 32;
  long_getHighBitsUnsigned_eq x : Long_getHighBitsUnsigned x = long_bits x / 2 ^ 32;
  long_toUnsigned_bits x : long_bits (Long_toUnsigned x) = long_bits x;
  long_toUnsigned_unsigned x : long_unsigned (Long_toUnsigned x) = true;
  long_shiftLeft_bits x n :
    0 <= n < 64 -> long_bits (Long_shiftLeft x n) = (long_bits x * 2 ^ n) mod 2 ^ 64 /\
                   long_unsigned (Long_shiftLeft x n) = long_unsigned x;
  long_shiftRight_bits x n :
    0 <= n < 64 -> long_bits (Long_shiftRight x n) = (signed64 (long_bits x) / 2 ^ n) mod 2 ^ 64 /\
                   long_unsigned (Long_shiftRight x n) = long_unsigned x;
  long_shiftRightUnsigned_bits x n :
    0 <= n < 64 -> long_bits (Long_shiftRightUnsigned x n) = long_bits x / 2 ^ n /\
                   long_unsigned (Long_shiftRightUnsigned x n) = long_unsigned x;
  long_and_bits x y :
    long_bits (Long_and x y) = Z.land (long_bits x) (long_bits y) /\
    long_unsigned (Long_and x y) = long_unsigned x;
  long_or_bits x y :
    long_bits (Long_or x y) = Z.lor (long_bits x) (long_bits y) /\
    long_unsigned (Long_or x y) = long_unsigned x;
  long_xor_bits x y :
    long_bits (Long_xor x y) = Z.lxor (long_bits x) (long_bits y) /\
    long_unsigned (Long_xor x y) = long_unsigned x;
  long_add_bits x y :
    long_bits (Long_add x y) = (long_bits x + long_bits y) mod 2 ^ 64 /\
    long_unsigned (Long_add x y) = long_unsigned x;
  long_sub_bits x y :
    long_bits (Long_sub x y) = (long_bits x - long_bits y) mod 2 ^ 64 /\
    long_unsigned (Long_sub x y) = long_unsigned x;
  long_mul_bits x y :
    long_bits (Long_mul x y) = (long_bits x * long_bits y) mod 2 ^ 64 /\
    long_unsigned (Long_mul x y) = long_unsigned x;
  long_div_val x y :
    long_unsigned x = false -> long_unsigned y = false -> long_val y <> 0 ->
    long_bits (Long_div x y) = Z.quot (long_val x) (long_val y) mod 2 ^ 64 /\
    long_unsigned (Long_div x y) = false;
  long_mod_val x y :
    long_unsigned x = false -> long_unsigned y = false -> long_val y <> 0 ->
    long_val (Long_mod x y) = Z.rem (long_val x) (long_val y) /\
    long_unsigned (Long_mod x y) = false;
  long_negate_bits x :
    long_bits (Long_negate x) = (- long_bits x) mod 2 ^ 64 /\
    long_unsigned (Long_negate x) = long_unsigned x;
  long_compare_val x y :
    long_unsigned x = long_unsigned y -> Long_compare x y = Z.sgn (long_val x - long_val y);
  long_equals_val x y :
    long_unsigned x = long_unsigned y \/ long_bits x < 2 ^ 63 \/ long_bits y < 2 ^ 63 ->
    Long_equals x y = (long_bits x =? long_bits y);
  long_toString_val x : Long_toString x = num_to_string 10 (long_val x);
  long_isNegative_val x : Long_isNegative x = (long_val x <? 0);
  long_toNumber_val x : Long_toNumber x = round53 (long_val x);
}.

(** Constants and comparisons of the package in terms of the operations. *)
Section long_derived.
Context `{LongLib}.

Definition Long_ONE : Long := Long_fromInt 1.
Definition Long_ZERO : Long := Long_fromInt 0.
Definition Long_MAX_VALUE : Long := Long_fromBits (-1) (2 ^ 31 - 1) false.
Definition Long_lessThan (x y : Long) : bool := Long_compare x y <? 0.
Definition Long_greaterThan (x y : Long) : bool := 0 <? Long_compare x y.
End long_derived.

(** ** Lemmas on the 64-bit representation *)

Lemma signed64_range b : 0 <= b < 2 ^ 64 -> is_int64 (signed64 b).
Proof. unfold signed64, is_int64. intros Hb. destruct (Z.ltb_spec b (2 ^ 63)); lia. Qed.

Lemma signed64_mod z : is_int64 z -> signed64 (z mod 2 ^ 64) = z.
Proof.
  unfold signed64, is_int64. intros Hz. destruct (Z.lt_ge_cases z 0).
  - assert (z mod 2 ^ 64 = z + 2 ^ 64) as -> by (symmetry; apply Z.mod_unique_pos with (-1); lia).
    destruct (Z.ltb_spec (z + 2 ^ 64) (2 ^ 63)); lia.
  - rewrite Z.mod_small by lia. destruct (Z.ltb_spec z (2 ^ 63)); lia.
Qed.

Lemma signed64_bits b : 0 <= b < 2 ^ 64 -> signed64 b mod 2 ^ 64 = b.
Proof.
  unfold signed64. intros Hb. destruct (Z.ltb_spec b (2 ^ 63)); [by apply Z.mod_small|].
  symmetry. apply Z.mod_unique_pos with (-1); lia.
Qed.

Section long_lemmas.
Context `{LongLaws}.

Lemma long_val_bits x : long_val x mod 2 ^ 64 = long_bits x.
Proof.
  pose proof (long_bits_range x). unfold long_val.
  destruct (long_unsigned x); [by apply Z.mod_small|by apply signed64_bits].
Qed.

Lemma long_val_signed x : long_unsigned x = false -> long_val x = signed64 (long_bits x).
Proof. unfold long_val. by intros ->. Qed.

Lemma long_val_range x : long_unsigned x = false -> is_int64 (long_val x).
Proof. intros E. rewrite long_val_signed by done. apply signed64_range, long_bits_range. Qed.

(** A signed result that fits is exact. *)
Lemma long_val_of_bits x z :
  long_unsigned x = false -> long_bits x = z mod 2 ^ 64 -> is_int64 z -> long_val x = z.
Proof. intros Hu Hb Hz. rewrite long_val_signed, Hb by done. by apply signed64_mod. Qed.

(** Modular operations depend on values only modulo [2^64]. *)
Lemma long_add_val x y z :
  long_unsigned x = false -> z = long_val x + long_val y -> is_int64 z ->
  long_val (Long_add x y) = z /\ long_unsigned (Long_add x y) = false.
Proof.
  intros Hu -> Hz. destruct (long_add_bits x y) as [Hb Hu']. rewrite Hu in Hu'. split; [|done].
  apply long_val_of_bits; [done| |done]. rewrite Hb, Z.add_mod, <- !long_val_bits by lia.
  by rewrite !Z.mod_mod, <- Z.add_mod by lia.
Qed.

Lemma long_mul_val x y z :
  long_unsigned x = false -> z = long_val x * long_val y -> is_int64 z ->
  long_val (Long_mul x y) = z /\ long_unsigned (Long_mul x y) = false.
Proof.
  intros Hu -> Hz. destruct (long_mul_bits x y) as [Hb Hu']. rewrite Hu in Hu'. split; [|done].
  apply long_val_of_bits; [done| |done]. rewrite Hb, Z.mul_mod, <- !long_val_bits by lia.
  by rewrite !Z.mod_mod, <- Z.mul_mod by lia.
Qed.

Lemma long_sub_val x y z :
  long_unsigned x = false -> z = long_val x - long_val y -> is_int64 z ->
  long_val (Long_sub x y) = z /\ long_unsigned (Long_sub x y) = false.
Proof.
  intros Hu -> Hz. destruct (long_sub_bits x y) as [Hb Hu']. rewrite Hu in Hu'. split; [|done].
  apply long_val_of_bits; [done| |done]. rewrite Hb, Zminus_mod, <- !long_val_bits.
  by rewrite !Z.mod_mod, <- Zminus_mod by lia.
Qed.

Lemma long_negate_val x :
  long_unsigned x = false -> long_val x <> - 2 ^ 63 ->
  long_val (Long_negate x) = - long_val x /\ long_unsigned (Long_negate x) = false.
Proof.
  intros Hu Hne. destruct (long_negate_bits x) as [Hb Hu']. rewrite Hu in Hu'. split; [|done].
  pose proof (long_val_range x Hu). unfold is_int64 in *.
  apply long_val_of_bits; [done| |unfold is_int64; lia].
  rewrite Hb, <- long_val_bits, <- Z.sub_0_l, <- (Z.sub_0_l (long_val x)), Zminus_mod_idemp_r. done.
Qed.

Lemma Long_ONE_bits : long_bits Long_ONE = 1 /\ long_unsigned Long_ONE = false.
Proof.
  destruct (long_fromInt_val 1 ltac:(unfold is_int32; lia)) as [V U]. split; [|done].
  unfold Long_ONE. by rewrite <- long_val_bits, V.
Qed.

Lemma Long_ZERO_bits : long_bits Long_ZERO = 0 /\ long_unsigned Long_ZERO = false.
Proof.
  destruct (long_fromInt_val 0 ltac:(unfold is_int32; lia)) as [V U]. split; [|done].
  unfold Long_ZERO. by rewrite <- long_val_bits, V.
Qed.

Lemma Long_MAX_val : long_val Long_MAX_VALUE = 2 ^ 63 - 1 /\ long_unsigned Long_MAX_VALUE = false.
Proof.
  unfold Long_MAX_VALUE. split; [|apply long_fromBits_unsigned].
  rewrite long_val_signed, long_fromBits_bits by apply long_fromBits_unsigned. reflexivity.
Qed.

Lemma long_equals_ZERO x : long_unsigned x = false -> Long_equals x Long_ZERO = (long_val x =? 0).
Proof.
  intros Hu. destruct Long_ZERO_bits as [Z0 U0]. rewrite long_equals_val, Z0 by (left; congruence).
  rewrite long_val_signed by done. pose proof (long_bits_range x). unfold signed64.
  apply eq_true_iff_eq. rewrite !Z.eqb_eq. destruct (Z.ltb_spec (long_bits x) (2 ^ 63)); lia.
Qed.

Lemma long_fromString_val z :
  is_int64 z -> long_val (Long_fromString (num_to_string 10 z)) = z /\
                long_unsigned (Long_fromString (num_to_string 10 z)) = false.
Proof.
  intros Hz. destruct (Z.lt_ge_cases z 0).
  - destruct (num_to_string_digits 10 (- z) ltac:(lia) ltac:(lia)) as (ds & E & D & V & N).
    rewrite <- num_to_string_opp, E by done. replace z with (- be_val 10 ds) by lia.
    apply (long_fromString_digits true ds D N). unfold is_int64 in *. lia.
  - destruct (num_to_string_digits 10 z ltac:(lia) ltac:(lia)) as (ds & E & D & V & N).
    rewrite E. replace z with (be_val 10 ds) by lia.
    apply (long_fromString_digits false ds D N). unfold is_int64 in *. lia.
Qed.

Lemma long_eq_bits x y : long_unsigned x = long_unsigned y -> long_bits x = long_bits y -> long_val x = long_val y.
Proof. unfold long_val. by intros -> ->. Qed.
End long_lemmas.

(** ** A concrete implementation *)

Record long64 := mkLong64 { l64_value : Z; l64_unsigned : bool }.

Definition l64 (z : Z) (u : bool) : long64 := mkLong64 (z mod 2 ^ 64) u.
Definition l64_bits (x : long64) : Z := l64_value x mod 2 ^ 64.
Definition l64_val (x : long64) : Z :=
  if l64_unsigned x then l64_bits x else signed64 (l64_bits x).

Definition l64_parse (s : jsstr) : Z :=
  let digits s := be_val 10 (digit_prefix 10 s) in
  match s with
  | c :: s' => if decide (c = "-"%char) then - digits s' else digits s
  | [] => 0
  end.

#[export] Instance LongModel : LongLib := {|
  Long := long64;
  long_bits := l64_bits;
  long_unsigned := l64_unsigned;
  Long_fromBits lo hi u := l64 (to_uint32 lo + 2 ^ 32 * to_uint32 hi) u;
  Long_fromInt z := l64 z false;
  Long_fromNumber z := l64 z false;
  Long_fromString s := l64 (l64_parse s) false;
  Long_getLowBits x := to_int32 (l64_bits x);
  Long_getHighBits x := to_int32 (l64_bits x / 2 ^ 32);
  Long_getLowBitsUnsigned x := l64_bits x mod 2 ^ 32;
  Long_getHighBitsUnsigned x := l64_bits x / 2 ^ 32;
  Long_toUnsigned x := l64 (l64_bits x) true;
  Long_shiftLeft x n := l64 (l64_bits x * 2 ^ n) (l64_unsigned x);
  Long_shiftRight x n := l64 (signed64 (l64_bits x) / 2 ^ n) (l64_unsigned x);
  Long_shiftRightUnsigned x n := l64 (l64_bits x / 2 ^ n) (l64_unsigned x);
  Long_and x y := l64 (Z.land (l64_bits x) (l64_bits y)) (l64_unsigned x);
  Long_or x y := l64 (Z.lor (l64_bits x) (l64_bits y)) (l64_unsigned x);
  Long_xor x y := l64 (Z.lxor (l64_bits x) (l64_bits y)) (l64_unsigned x);
  Long_add x y := l64 (l64_bits x + l64_bits y) (l64_unsigned x);
  Long_sub x y := l64 (l64_bits x - l64_bits y) (l64_unsigned x);
  Long_mul x y := l64 (l64_bits x * l64_bits y) (l64_unsigned x);
  Long_div x y := l64 (Z.quot (l64_val x) (l64_val y)) (l64_unsigned x);
  Long_mod x y := l64 (Z.rem (l64_val x) (l64_val y)) (l64_unsigned x);
  Long_negate x := l64 (- l64_bits x) (l64_unsigned x);
  Long_compare x y := Z.sgn (l64_val x - l64_val y);
  Long_equals x y := l64_bits x =? l64_bits y;
  Long_toString x := num_to_string 10 (l64_val x);
  Long_isNegative x := l64_val x <? 0;
  Long_toNumber x := round53 (l64_val x);
|}.

Lemma l64_bits_l64 z u : l64_bits (l64 z u) = z mod 2 ^ 64.
Proof. unfold l64_bits, l64. cbn [l64_value]. by rewrite Z.mod_mod by lia. Qed.

Lemma l64_bits_range x : 0 <= l64_bits x < 2 ^ 64.
Proof. apply Z.mod_pos_bound. lia. Qed.

Lemma l64_small z u : 0 <= z < 2 ^ 64 -> l64_bits (l64 z u) = z.
Proof. intros Hz. rewrite l64_bits_l64. by apply Z.mod_small. Qed.

Lemma l64_val_signed z : is_int64 z -> l64_val (l64 z false) = z.
Proof. intros Hz. unfold l64_val. cbn [l64_unsigned l64]. rewrite l64_bits_l64. by apply signed64_mod. Qed.

Lemma bitop_range op x y (f : bool -> bool -> bool) :
  (forall a b i, Z.testbit (op a b) i = f (Z.testbit a i) (Z.testbit b i)) -> f false false = false ->
  0 <= x < 2 ^ 64 -> 0 <= y < 2 ^ 64 -> 0 <= op x y < 2 ^ 64.
Proof.
  intros Hop Hf Hx Hy.
  assert (E : op x y = op x y mod 2 ^ 64).
  { apply Z.bits_inj'. intros i Hi. destruct (Z.lt_ge_cases i 64).
    - by rewrite Z.mod_pow2_bits_low.
    - rewrite Z.mod_pow2_bits_high, Hop by lia.
      rewrite <- (Z.mod_small x (2 ^ 64)), <- (Z.mod_small y (2 ^ 64)), !Z.mod_pow2_bits_high by lia. done. }
  rewrite E. apply Z.mod_pos_bound. lia.
Qed.

Lemma l64_parse_digits (neg : bool) ds :
  digits_in 10 ds -> ds <> [] ->
  l64_parse ((if neg then ["-"%char] else []) ++ map digit_char ds) = if neg then - be_val 10 ds else be_val 10 ds.
Proof.
  intros D N. assert (E : digit_prefix 10 (map digit_char ds) = ds).
  { rewrite <- (app_nil_r (map _ _)). apply digit_prefix_digits; done || lia. }
  unfold l64_parse. destruct neg; cbn [app].
  - destruct (decide _); [|done]. by rewrite E.
  - destruct ds as [|d ds]; [done|]. cbn [map]. destruct (decide (digit_char d = "-"%char)) as [Ed|_].
    { inversion D; subst. by apply digit_char_not_minus in Ed; [|lia]. }
    change (digit_char d :: map digit_char ds) with (map digit_char (d :: ds)). by rewrite E.
Qed.

#[export] Instance LongModel_laws : LongLaws.
Proof.
  assert (Q : forall x n, 0 <= n -> 0 <= l64_bits x / 2 ^ n < 2 ^ 64).
  { intros x n Hn. pose proof (l64_bits_range x). assert (0 < 2 ^ n) by (apply Z.pow_pos_nonneg; lia).
    split; [apply Z.div_pos; lia|]. apply Z.div_lt_upper_bound; nia. }
  split; cbn; intros; unfold is_int64, is_int32 in *.
  - apply l64_bits_range.
  - apply l64_small. pose proof (to_uint32_range lo). pose proof (to_uint32_range hi). lia.
  - done.
  - split; [|done]. apply l64_val_signed. unfold is_int64. lia.
  - split; [|done]. apply l64_val_signed. unfold is_int64. lia.
  - split; [|done]. rewrite l64_parse_digits by done. apply l64_val_signed. done.
  - done.
  - done.
  - done.
  - done.
  - apply l64_small, l64_bits_range.
  - done.
  - split; [apply l64_bits_l64|done].
  - split; [apply l64_bits_l64|done].
  - split; [apply l64_small, Q; lia|done].
  - split; [|done]. apply l64_small, (bitop_range _ _ _ andb); auto using Z.land_spec, l64_bits_range.
  - split; [|done]. apply l64_small, (bitop_range _ _ _ orb); auto using Z.lor_spec, l64_bits_range.
  - split; [|done]. apply l64_small, (bitop_range _ _ _ xorb); auto using Z.lxor_spec, l64_bits_range.
  - split; [apply l64_bits_l64|done].
  - split; [apply l64_bits_l64|done].
  - split; [apply l64_bits_l64|done].
  - split; [apply l64_bits_l64|done].
  - split; [|done]. change (l64_val (l64 (Z.rem (l64_val x) (l64_val y)) (l64_unsigned x)) = Z.rem (l64_val x) (l64_val y)).
    rewrite H. apply l64_val_signed.
    assert (Hx : is_int64 (l64_val x)) by (unfold l64_val; rewrite H; apply signed64_range, l64_bits_range).
    change (l64_val y <> 0) in H1. pose proof (Z.rem_bound_abs (l64_val x) (l64_val y) H1).
    assert (Hy : is_int64 (l64_val y)) by (unfold l64_val; rewrite H0; apply signed64_range, l64_bits_range).
    unfold is_int64 in *. lia.
  - split; [apply l64_bits_l64|done].
  - done.
  - done.
  - done.
  - done.
  - done.
Qed.
