(* ===== verification/MutableLong.v ===== *)
(** [lib/types/mutable-long.js]: a signed 64-bit integer in four 16-bit limbs.

    The methods change [this] and return it; a method is a function from the
    old limbs to the new ones.  An argument is a different object from [this]
    (as in all the calls of the driver). *)
From S2P Require Import Prelude.
From S2P Require Import JsNum.
From S2P Require Import JsStr.
From S2P Require Import LongLib.

Record MutableLong := mkML { ml0 : Z; ml1 : Z; ml2 : Z; ml3 : Z }.

#[export] Instance MutableLong_eq_dec : EqDecision MutableLong.
Proof. solve_decision. Defined.

Definition ML_new (b00 b16 b32 b48 : Z) : MutableLong :=
  mkML (b00 .& 65535) (b16 .& 65535) (b32 .& 65535) (b48 .& 65535).

(** [this._arr[i]] *)
Definition ML_arr (x : MutableLong) (i : Z) : Z :=
  if i =? 0 then ml0 x else if i =? 1 then ml1 x else if i =? 2 then ml2 x else ml3 x.

Definition ML_one : MutableLong := ML_new 1 0 0 0.
Definition ML_toZero (x : MutableLong) : MutableLong := mkML 0 0 0 0.

Definition ML_isZero (x : MutableLong) : bool :=
  (ml3 x =? 0) && (ml2 x =? 0) && (ml1 x =? 0) && (ml0 x =? 0).

Definition ML_isNegative (x : MutableLong) : bool := 0 <? (ml3 x .& 32768).

Fixpoint ML_compareBits_loop (n : nat) (x other : MutableLong) : Z :=
  match n with
  | O => 0
  | S i =>
      if ML_arr other (Z.of_nat i) <? ML_arr x (Z.of_nat i) then 1
      else if ML_arr x (Z.of_nat i) <? ML_arr other (Z.of_nat i) then -1
      else ML_compareBits_loop i x other
  end.

Definition ML_compareBits (x other : MutableLong) : Z := ML_compareBits_loop 4 x other.

Definition ML_compare (x other : MutableLong) : Z :=
  let thisNeg := ML_isNegative x in
  let otherNeg := ML_isNegative other in
  if thisNeg && negb otherNeg then -1
  else if negb thisNeg && otherNeg then 1
  else ML_compareBits x other.

Definition ML_getUint16 (x : MutableLong) (index : Z) : Z := ML_arr x index.

Definition ML_getLowBitsUnsigned (x : MutableLong) : Z :=
  (ml0 x .| ((ml1 x .& 65535) .<< 16)) .>>> 0.

Definition ML_getHighBitsUnsigned (x : MutableLong) : Z :=
  (ml2 x .| (ml3 x .<< 16)) .>>> 0.

(** The sum of the two exact halves is rounded to a Number. *)
Definition ML_toNumber (x : MutableLong) : Z :=
  round53 (((ml3 x .<< 16) .| ml2 x) * 2 ^ 32 + (((ml1 x .<< 16) .| ml0 x) .>>> 0)).

Definition ML_not (x : MutableLong) : MutableLong :=
  mkML ((.~ ml0 x) .& 65535) ((.~ ml1 x) .& 65535) ((.~ ml2 x) .& 65535) ((.~ ml3 x) .& 65535).

Definition ML_add (x addend : MutableLong) : MutableLong :=
  let c00 := ml0 x + ml0 addend in
  let c16 := (c00 .>>> 16) + (ml1 x + ml1 addend) in
  let c32 := (c16 .>>> 16) + (ml2 x + ml2 addend) in
  let c48 := (c32 .>>> 16) + (ml3 x + ml3 addend) in
  mkML (c00 .& 65535) (c16 .& 65535) (c32 .& 65535) (c48 .& 65535).

Definition ML_shiftLeft (x : MutableLong) (numBits : Z) : MutableLong :=
  if numBits =? 0 then x
  else if 64 <=? numBits then ML_toZero x
  else
    let remainingBits := Z.rem numBits 16 in
    let pos := numBits / 16 in
    let x :=
      if 0 <? pos
      then mkML 0 (if 1 <? pos then 0 else ML_arr x 0)
                  (if 2 <? pos then 0 else ML_arr x (2 - pos)) (ML_arr x (3 - pos))
      else x in
    if 0 <? remainingBits
    then mkML ((ml0 x .<< remainingBits) .& 65535)
              (((ml1 x .<< remainingBits) .| (ml0 x .>>> (16 - remainingBits))) .& 65535)
              (((ml2 x .<< remainingBits) .| (ml1 x .>>> (16 - remainingBits))) .& 65535)
              (((ml3 x .<< remainingBits) .| (ml2 x .>>> (16 - remainingBits))) .& 65535)
    else x.

Definition ML_shiftRightUnsigned (x : MutableLong) (numBits : Z) : MutableLong :=
  if numBits =? 0 then x
  else if 64 <=? numBits then ML_toZero x
  else
    let remainingBits := Z.rem numBits 16 in
    let pos := numBits / 16 in
    let x :=
      if 0 <? pos
      then mkML (ML_arr x pos) (if 2 <? pos then 0 else ML_arr x (1 + pos))
                (if 1 <? pos then 0 else ML_arr x 3) 0
      else x in
    if 0 <? remainingBits
    then mkML ((ml0 x .>>> remainingBits) .| ((ml1 x .<< (16 - remainingBits)) .& 65535))
              ((ml1 x .>>> remainingBits) .| ((ml2 x .<< (16 - remainingBits)) .& 65535))
              ((ml2 x .>>> remainingBits) .| ((ml3 x .<< (16 - remainingBits)) .& 65535))
              (ml3 x .>>> remainingBits)
    else x.

Definition ML_or (x other : MutableLong) : MutableLong :=
  mkML (ml0 x .| ml0 other) (ml1 x .| ml1 other) (ml2 x .| ml2 other) (ml3 x .| ml3 other).

Definition ML_xor (x other : MutableLong) : MutableLong :=
  mkML (ml0 x .^ ml0 other) (ml1 x .^ ml1 other) (ml2 x .^ ml2 other) (ml3 x .^ ml3 other).

Definition ML_clone (x : MutableLong) : MutableLong := ML_new (ml0 x) (ml1 x) (ml2 x) (ml3 x).

Definition ML_negate (x : MutableLong) : MutableLong := ML_add (ML_not x) ML_one.

(** The products of [multiply], after the signs have been removed. *)
Definition ML_mul_limbs (x multiplier : MutableLong) : MutableLong :=
  let c00 := ml0 x * ml0 multiplier in
  let c16 := (c00 .>>> 16) + ml1 x * ml0 multiplier in
  let c32 := c16 .>>> 16 in
  let c16 := (c16 .& 65535) + ml0 x * ml1 multiplier in
  let c32 := c32 + (c16 .>>> 16) + ml2 x * ml0 multiplier in
  let c48 := c32 .>>> 16 in
  let c32 := (c32 .& 65535) + ml1 x * ml1 multiplier in
  let c48 := c48 + (c32 .>>> 16) in
  let c32 := (c32 .& 65535) + ml0 x * ml2 multiplier in
  let c48 := c48 + (c32 .>>> 16) in
  let c48 := c48 + (ml3 x * ml0 multiplier + ml2 x * ml1 multiplier +
                    ml1 x * ml2 multiplier + ml0 x * ml3 multiplier) in
  mkML (c00 .& 65535) (c16 .& 65535) (c32 .& 65535) (c48 .& 65535).

Definition ML_multiply (x multiplier : MutableLong) : MutableLong :=
  if ML_isZero x || ML_isZero multiplier then ML_toZero x
  else
    let '(x, neg) := if ML_isNegative x then (ML_negate x, true) else (x, false) in
    let '(multiplier, neg) :=
      if ML_isNegative multiplier then (ML_negate (ML_clone multiplier), negb neg)
      else (multiplier, neg) in
    let x := ML_mul_limbs x multiplier in
    if neg then ML_negate x else x.

Definition ML_equals (x other : MutableLong) : bool :=
  (ml0 x =? ml0 other) && (ml1 x =? ml1 other) && (ml2 x =? ml2 other) && (ml3 x =? ml3 other).

Definition ML_toImmutable `{LongLib} (x : MutableLong) : Long :=
  Long_fromBits (ML_getLowBitsUnsigned x) (ML_getHighBitsUnsigned x) false.

Definition ML_fromBits (low32Bits high32Bits : Z) : MutableLong :=
  ML_new low32Bits (low32Bits .>>> 16) high32Bits (high32Bits .>>> 16).

(** The bit operations in [fromBits] drop the fractions of [value % 2^32] and
    [value / 2^32]. *)
Definition ML_fromNumber (value : number) : MutableLong :=
  match value with
  | NaN | Infinity _ => ML_new 0 0 0 0
  | Fin m e =>
      let nonneg m := let v := m / 2 ^ Z.of_N e in ML_fromBits (v mod 2 ^ 32) (v / 2 ^ 32) in
      if m <? 0 then ML_negate (nonneg (- m)) else nonneg m
  end.

(** The loop of [fromString], eight characters at a time. *)
Fixpoint ML_fromString_loop (fuel : nat) (radix : Z) (s : jsstr) (result : MutableLong) : MutableLong :=
  match fuel, s with
  | S fuel', _ :: _ =>
      let size := Nat.min 8 (length s) in
      let value := parseInt (substring s 0 size) radix in
      if (size <? 8)%nat
      then ML_add (ML_multiply result (ML_fromNumber (Int (radix ^ Z.of_nat size)))) (ML_fromNumber value)
      else ML_fromString_loop fuel' radix (drop 8 s)
             (ML_add (ML_multiply result (ML_fromNumber (Int (radix ^ 8)))) (ML_fromNumber value))
  | _, _ => result
  end.

(** [radix] is 0 when the argument is absent. *)
Fixpoint ML_fromString (s : jsstr) (radix : Z) : result MutableLong :=
  match s with
  | [] => Throw PlainError
  | c :: s' =>
      if bool_decide (s = str "NaN") || bool_decide (s = str "Infinity") ||
         bool_decide (s = str "+Infinity") || bool_decide (s = str "-Infinity")
      then Ok (ML_new 0 0 0 0)
      else
        let radix := if radix =? 0 then 10 else radix in
        if (radix <? 2) || (36 <? radix) then Throw PlainError
        else if decide (c = "-"%char) then ML_negate <$> ML_fromString s' radix
        else if contains_char "-"%char s then Throw PlainError
        else Ok (ML_fromString_loop (length s) radix s (ML_new 0 0 0 0))
  end.

(** ** Values *)

Record ML_wf (x : MutableLong) : Prop := {
  ml_range0 : 0 <= ml0 x < 2 ^ 16; ml_range1 : 0 <= ml1 x < 2 ^ 16;
  ml_range2 : 0 <= ml2 x < 2 ^ 16; ml_range3 : 0 <= ml3 x < 2 ^ 16 }.

(** The limbs as an unsigned number, and the signed value it represents. *)
Definition ML_bits (x : MutableLong) : Z := ml0 x + 2 ^ 16 * ml1 x + 2 ^ 32 * ml2 x + 2 ^ 48 * ml3 x.
Definition ML_val (x : MutableLong) : Z := signed64 (ML_bits x).

Lemma ML_bits_range x : ML_wf x -> 0 <= ML_bits x < 2 ^ 64.
Proof. intros []. unfold ML_bits. lia. Qed.

Lemma ML_new_spec b00 b16 b32 b48 :
  ML_new b00 b16 b32 b48 = mkML (b00 mod 65536) (b16 mod 65536) (b32 mod 65536) (b48 mod 65536).
Proof. unfold ML_new. by rewrite !js_and_ffff. Qed.

Lemma limb_range c : 0 <= c mod 65536 < 2 ^ 16.
Proof. apply Z.mod_pos_bound. lia. Qed.

Lemma ML_mk_wf a b c d : ML_wf (mkML (a .& 65535) (b .& 65535) (c .& 65535) (d .& 65535)).
Proof. rewrite !js_and_ffff. constructor; apply limb_range. Qed.

#[export] Hint Resolve ML_mk_wf : jsnum.

Lemma ushr16_carry c : 0 <= c < 2 ^ 32 -> c .>>> 16 = c / 65536.
Proof. intros Hc. rewrite js_ushr_div, to_uint32_id by lia. done. Qed.

(** Adding limb by limb is addition modulo [2^64]. *)
Lemma ML_add_spec x y :
  ML_wf x -> ML_wf y ->
  ML_wf (ML_add x y) /\ ML_bits (ML_add x y) = (ML_bits x + ML_bits y) mod 2 ^ 64.
Proof.
  intros [] []. split; [apply ML_mk_wf|]. unfold ML_add. cbv zeta. rewrite !js_and_ffff.
  unfold ML_bits. cbn [ml0 ml1 ml2 ml3].
  remember (ml0 x + ml0 y) as c00 eqn:E0. rewrite (ushr16_carry c00) by lia.
  remember (c00 / 65536 + (ml1 x + ml1 y)) as c16 eqn:E1.
  rewrite (ushr16_carry c16) by (Z.to_euclidean_division_equations; lia).
  remember (c16 / 65536 + (ml2 x + ml2 y)) as c32 eqn:E2.
  rewrite (ushr16_carry c32) by (Z.to_euclidean_division_equations; lia).
  remember (c32 / 65536 + (ml3 x + ml3 y)) as c48 eqn:E3.
  apply Z.mod_unique_pos with (c48 / 65536).
  - pose proof (limb_range c00). pose proof (limb_range c16). pose proof (limb_range c32).
    pose proof (limb_range c48). lia.
  - pose proof (Z.div_mod c00 65536 ltac:(lia)). pose proof (Z.div_mod c16 65536 ltac:(lia)).
    pose proof (Z.div_mod c32 65536 ltac:(lia)). pose proof (Z.div_mod c48 65536 ltac:(lia)). lia.
Qed.

Lemma not_limb a : 0 <= a < 2 ^ 16 -> (.~ a) .& 65535 = 65535 - a.
Proof.
  intros Ha. rewrite js_and_ffff, js_not_eq by (unfold is_int32; lia).
  symmetry. apply Z.mod_unique_pos with (-1); lia.
Qed.

Lemma ML_not_spec x : ML_wf x -> ML_wf (ML_not x) /\ ML_bits (ML_not x) = 2 ^ 64 - 1 - ML_bits x.
Proof.
  intros []. split; [apply ML_mk_wf|]. unfold ML_not, ML_bits. cbn [ml0 ml1 ml2 ml3].
  rewrite !not_limb by done. lia.
Qed.

Lemma ML_negate_spec x : ML_wf x -> ML_wf (ML_negate x) /\ ML_bits (ML_negate x) = (- ML_bits x) mod 2 ^ 64.
Proof.
  intros Hx. destruct (ML_not_spec x Hx) as [W V].
  destruct (ML_add_spec (ML_not x) ML_one W (ML_mk_wf _ _ _ _)) as [W2 V2].
  split; [done|]. unfold ML_negate. rewrite V2, V.
  change (ML_bits ML_one) with 1. rewrite <- (Z.mod_add (- ML_bits x) 1) by lia. f_equal. lia.
Qed.

Lemma ML_mul_limbs_spec x y :
  ML_wf x -> ML_wf y ->
  ML_wf (ML_mul_limbs x y) /\ ML_bits (ML_mul_limbs x y) = (ML_bits x * ML_bits y) mod 2 ^ 64.
Proof.
  intros [X0 X1 X2 X3] [Y0 Y1 Y2 Y3]. split; [apply ML_mk_wf|]. unfold ML_mul_limbs. cbv zeta.
  assert (P : forall a b, 0 <= a < 2 ^ 16 -> 0 <= b < 2 ^ 16 -> 0 <= a * b <= 65535 * 65535) by (intros; nia).
  rewrite !js_and_ffff. unfold ML_bits. cbn [ml0 ml1 ml2 ml3].
  pose proof (P _ _ X0 Y0). pose proof (P _ _ X1 Y0). pose proof (P _ _ X0 Y1).
  pose proof (P _ _ X2 Y0). pose proof (P _ _ X1 Y1). pose proof (P _ _ X0 Y2). clear P.
  remember (ml0 x * ml0 y) as c00 eqn:E0. rewrite (ushr16_carry c00) by lia.
  remember (c00 / 65536 + ml1 x * ml0 y) as c16 eqn:E1.
  rewrite (ushr16_carry c16) by (Z.to_euclidean_division_equations; lia).
  remember (c16 mod 65536 + ml0 x * ml1 y) as d16 eqn:E2.
  rewrite (ushr16_carry d16) by (Z.to_euclidean_division_equations; lia).
  remember (c16 / 65536 + d16 / 65536 + ml2 x * ml0 y) as c32 eqn:E3.
  rewrite (ushr16_carry c32) by (Z.to_euclidean_division_equations; lia).
  remember (c32 mod 65536 + ml1 x * ml1 y) as d32 eqn:E4.
  rewrite (ushr16_carry d32) by (Z.to_euclidean_division_equations; lia).
  remember (d32 mod 65536 + ml0 x * ml2 y) as e32 eqn:E5.
  rewrite (ushr16_carry e32) by (Z.to_euclidean_division_equations; lia).
  remember (c32 / 65536 + d32 / 65536 + e32 / 65536 + (ml3 x * ml0 y + ml2 x * ml1 y + ml1 x * ml2 y + ml0 x * ml3 y))
    as c48 eqn:E6.
  apply Z.mod_unique_pos with (c48 / 65536 + ml1 x * ml3 y + ml2 x * ml2 y + ml3 x * ml1 y
    + 2 ^ 16 * (ml2 x * ml3 y + ml3 x * ml2 y) + 2 ^ 32 * (ml3 x * ml3 y)).
  - pose proof (limb_range c00). pose proof (limb_range d16). pose proof (limb_range e32).
    pose proof (limb_range c48). lia.
  - pose proof (Z.div_mod c00 65536 ltac:(lia)). pose proof (Z.div_mod c16 65536 ltac:(lia)).
    pose proof (Z.div_mod d16 65536 ltac:(lia)). pose proof (Z.div_mod c32 65536 ltac:(lia)).
    pose proof (Z.div_mod d32 65536 ltac:(lia)). pose proof (Z.div_mod e32 65536 ltac:(lia)). pose proof (Z.div_mod c48 65536 ltac:(lia)).
    lia.
Qed.

Lemma ML_isNegative_val x : ML_wf x -> ML_isNegative x = (2 ^ 63 <=? ML_bits x).
Proof.
  intros [X0 X1 X2 X3]. unfold ML_isNegative, ML_bits.
  assert (E : ml3 x .& 32768 = (ml3 x / 2 ^ 15) * 2 ^ 15).
  { apply Z.bits_inj'. intros i Hi. destruct (Z.lt_ge_cases i 32).
    - rewrite testbit_js_and, Z.mul_pow2_bits by lia. change 32768 with (2 ^ 15).
      rewrite Z.pow2_bits_eqb by lia. destruct (Z.eqb_spec 15 i) as [<-|].
      + rewrite andb_true_r, Z.div_pow2_bits by lia. done.
      + rewrite andb_false_r. destruct (Z.lt_ge_cases i 15); [by rewrite Z.testbit_neg_r by lia|].
        rewrite Z.div_pow2_bits by lia. replace (i - 15 + 15) with i by lia.
        rewrite <- (Z.mod_small (ml3 x) (2 ^ 16)), Z.mod_pow2_bits_high by lia. done.
    - unfold js_and. rewrite Z.land_spec, (to_int32_id 32768) by (unfold is_int32; lia).
      rewrite (int32_testbit_high 32768) by (unfold is_int32; lia). rewrite andb_false_r, Z.mul_pow2_bits by lia.
      rewrite Z.div_pow2_bits by lia. rewrite <- (Z.mod_small (ml3 x) (2 ^ 16)), Z.mod_pow2_bits_high by lia. done. }
  rewrite E. apply eq_true_iff_eq. rewrite Z.ltb_lt, Z.leb_le. Z.to_euclidean_division_equations; lia.
Qed.

Lemma ML_isZero_val x : ML_wf x -> ML_isZero x = (ML_bits x =? 0).
Proof.
  intros []. apply eq_true_iff_eq. unfold ML_isZero, ML_bits.
  rewrite !andb_true_iff, !Z.eqb_eq. lia.
Qed.

Lemma ML_clone_spec x : ML_wf x -> ML_clone x = x.
Proof.
  intros []. unfold ML_clone. rewrite ML_new_spec, !Z.mod_small by done. by destruct x.
Qed.

Lemma ML_zero_spec : ML_wf (mkML 0 0 0 0) /\ ML_bits (mkML 0 0 0 0) = 0.
Proof. split; [constructor; cbn; lia|done]. Qed.

Lemma opp_mod_mul a b : ((- a) mod 2 ^ 64 * b) mod 2 ^ 64 = (- (a * b)) mod 2 ^ 64.
Proof. rewrite Z.mul_mod_idemp_l by lia. f_equal. ring. Qed.

Lemma opp_mod_mod a : (- (a mod 2 ^ 64)) mod 2 ^ 64 = (- a) mod 2 ^ 64.
Proof. rewrite <- Z.sub_0_l, Zminus_mod_idemp_r, Z.sub_0_l. done. Qed.

Lemma ML_multiply_spec x y :
  ML_wf x -> ML_wf y ->
  ML_wf (ML_multiply x y) /\ ML_bits (ML_multiply x y) = (ML_bits x * ML_bits y) mod 2 ^ 64.
Proof.
  intros Hx Hy. unfold ML_multiply. rewrite !ML_isZero_val by done.
  destruct (Z.eqb_spec (ML_bits x) 0) as [E|_]; cbn [orb]. { rewrite E. apply ML_zero_spec. }
  destruct (Z.eqb_spec (ML_bits y) 0) as [E|_]. { rewrite E, Z.mul_0_r. apply ML_zero_spec. }
  rewrite ML_clone_spec by done.
  destruct (ML_negate_spec x Hx) as [Wx Vx]. destruct (ML_negate_spec y Hy) as [Wy Vy].
  destruct (ML_isNegative x), (ML_isNegative y); cbn [negb].
  - destruct (ML_mul_limbs_spec _ _ Wx Wy) as [W V]. split; [done|].
    rewrite V, Vx, Vy, opp_mod_mul, <- opp_mod_mod, (Z.mul_comm (ML_bits x)), opp_mod_mul, opp_mod_mod.
    f_equal. ring.
  - destruct (ML_mul_limbs_spec _ _ Wx Hy) as [W V]. destruct (ML_negate_spec _ W) as [Wn Vn]. split; [done|].
    rewrite Vn, V, Vx, opp_mod_mul, opp_mod_mod. f_equal. ring.
  - destruct (ML_mul_limbs_spec _ _ Hx Wy) as [W V]. destruct (ML_negate_spec _ W) as [Wn Vn]. split; [done|].
    rewrite Vn, V, Vy, (Z.mul_comm (ML_bits x)), opp_mod_mul, opp_mod_mod. f_equal. ring.
  - by apply ML_mul_limbs_spec.
Qed.

(** ** Shifts *)

Lemma shl_limb a b r :
  0 < r < 16 -> 0 <= a < 2 ^ 16 -> 0 <= b < 2 ^ 16 ->
  ((a .<< r) .| (b .>>> (16 - r))) .& 65535 = (a * 2 ^ r) mod 65536 + b / 2 ^ (16 - r).
Proof.
  intros Hr Ha Hb. rewrite js_and_ffff.
  assert (0 < 2 ^ r) by (apply Z.pow_pos_nonneg; lia).
  assert (E16 : 65536 = 2 ^ (16 - r) * 2 ^ r) by (rewrite <- Z.pow_add_r by lia; change 65536 with (2 ^ 16); f_equal; lia).
  assert (0 < 2 ^ (16 - r)) by (apply Z.pow_pos_nonneg; lia).
  assert (Hq : 0 <= b / 2 ^ (16 - r) < 2 ^ r).
  { split; [apply Z.div_pos; lia|]. apply Z.div_lt_upper_bound; [lia|]. rewrite <- E16. lia. }
  rewrite (js_ushr_div b), to_uint32_id by lia.
  assert (E : to_uint32 ((a .<< r) .| (b / 2 ^ (16 - r))) mod 65536 =
    ((a .<< r) .| (b / 2 ^ (16 - r))) mod 65536).
  { unfold to_uint32. apply Z.mod_mod_divide. by exists 65536. }
  rewrite <- E, js_or_shl by lia.
  rewrite (Z.mod_small a) by (pose proof (Z.pow_le_mono_r 2 16 (32 - r)); lia).
  rewrite E16 at 1 2. rewrite <- Z.add_mod_idemp_l by lia.
  rewrite Z.mul_mod_distr_r by lia. apply Z.mod_small.
  pose proof (Z.mod_pos_bound a (2 ^ (16 - r)) ltac:(lia)). nia.
Qed.

Lemma shr_limb a b r :
  0 < r < 16 -> 0 <= a < 2 ^ 16 -> 0 <= b < 2 ^ 16 ->
  (a .>>> r) .| ((b .<< (16 - r)) .& 65535) = a / 2 ^ r + (b mod 2 ^ r) * 2 ^ (16 - r).
Proof.
  intros Hr Ha Hb.
  assert (0 < 2 ^ r) by (apply Z.pow_pos_nonneg; lia).
  assert (E16 : 65536 = 2 ^ r * 2 ^ (16 - r)) by (rewrite <- Z.pow_add_r by lia; change 65536 with (2 ^ 16); f_equal; lia).
  assert (0 < 2 ^ (16 - r)) by (apply Z.pow_pos_nonneg; lia).
  rewrite js_ushr_div, to_uint32_id, js_and_ffff, js_shl_mul by lia.
  assert (Em : to_int32 (b * 2 ^ (16 - r)) mod 65536 = (b mod 2 ^ r) * 2 ^ (16 - r)).
  { transitivity (to_uint32 (to_int32 (b * 2 ^ (16 - r))) mod 65536).
    - unfold to_uint32. symmetry. apply Z.mod_mod_divide. by exists 65536.
    - rewrite to_uint32_int32. unfold to_uint32. rewrite Z.mod_mod_divide by (by exists 65536).
      rewrite E16. by rewrite Z.mul_mod_distr_r by lia. }
  rewrite Em. unfold js_or.
  assert (0 <= a / 2 ^ r < 2 ^ (16 - r)).
  { split; [apply Z.div_pos; lia|]. apply Z.div_lt_upper_bound; [lia|]. rewrite <- E16. lia. }
  pose proof (Z.mod_pos_bound b (2 ^ r) ltac:(lia)).
  rewrite !to_int32_id by (unfold is_int32; nia).
  rewrite Z.lor_comm, lor_add_disjoint by lia. lia.
Qed.

(** The part of a shift below one limb. *)
Lemma shl_small_spec x r :
  ML_wf x -> 0 < r < 16 ->
  let y := mkML ((ml0 x .<< r) .& 65535)
              (((ml1 x .<< r) .| (ml0 x .>>> (16 - r))) .& 65535)
              (((ml2 x .<< r) .| (ml1 x .>>> (16 - r))) .& 65535)
              (((ml3 x .<< r) .| (ml2 x .>>> (16 - r))) .& 65535) in
  ML_wf y /\ ML_bits y = (ML_bits x * 2 ^ r) mod 2 ^ 64.
Proof.
  intros [X0 X1 X2 X3] Hr. cbv zeta. split; [apply ML_mk_wf|]. unfold ML_bits. cbn [ml0 ml1 ml2 ml3].
  assert (E0 : (ml0 x .<< r) .& 65535 = (ml0 x * 2 ^ r) mod 65536 + 0 / 2 ^ (16 - r)).
  { rewrite <- shl_limb by lia. rewrite !js_and_ffff. f_equal.
    rewrite js_ushr_div by lia. rewrite Z.div_0_l by (apply Z.pow_nonzero; lia).
    unfold js_or. rewrite (to_int32_id 0) by (unfold is_int32; lia). rewrite Z.lor_0_r, to_int32_id; [done|].
    rewrite js_shl_mul by lia. apply to_int32_range. }
  rewrite E0, !shl_limb by lia. rewrite Z.div_0_l by (apply Z.pow_nonzero; lia).
  assert (0 < 2 ^ (16 - r)) by (apply Z.pow_pos_nonneg; lia).
  assert (0 < 2 ^ r) by (apply Z.pow_pos_nonneg; lia).
  assert (E16 : 65536 = 2 ^ r * 2 ^ (16 - r)) by (rewrite <- Z.pow_add_r by lia; change 65536 with (2 ^ 16); f_equal; lia).
  assert (L : forall a, 0 <= a < 2 ^ 16 -> a * 2 ^ r = 65536 * (a / 2 ^ (16 - r)) + (a * 2 ^ r) mod 65536 /\
    0 <= (a * 2 ^ r) mod 65536 <= 65536 - 2 ^ r /\ 0 <= a / 2 ^ (16 - r) < 2 ^ r).
  { intros a Ha. rewrite E16. rewrite (Z.mul_comm a), Z.mul_mod_distr_l by lia.
    pose proof (Z.div_mod a (2 ^ (16 - r)) ltac:(lia)). pose proof (Z.mod_pos_bound a (2 ^ (16 - r)) ltac:(lia)).
    split; [nia|]. split; [nia|]. split; [apply Z.div_pos; lia|]. apply Z.div_lt_upper_bound; [lia|].
    rewrite Z.mul_comm, <- E16. lia. }
  destruct (L _ X0) as (A0 & B0 & C0), (L _ X1) as (A1 & B1 & C1), (L _ X2) as (A2 & B2 & C2), (L _ X3) as (A3 & B3 & C3).
  apply Z.mod_unique_pos with (ml3 x / 2 ^ (16 - r)); [lia|]. lia.
Qed.

Lemma shr_small_spec x r :
  ML_wf x -> 0 < r < 16 ->
  let y := mkML ((ml0 x .>>> r) .| ((ml1 x .<< (16 - r)) .& 65535))
              ((ml1 x .>>> r) .| ((ml2 x .<< (16 - r)) .& 65535))
              ((ml2 x .>>> r) .| ((ml3 x .<< (16 - r)) .& 65535))
              (ml3 x .>>> r) in
  ML_wf y /\ ML_bits y = ML_bits x / 2 ^ r.
Proof.
  intros [X0 X1 X2 X3] Hr. cbv zeta. rewrite !shr_limb by lia.
  rewrite (js_ushr_div (ml3 x)), (to_uint32_id (ml3 x)) by lia.
  assert (0 < 2 ^ (16 - r)) by (apply Z.pow_pos_nonneg; lia).
  assert (0 < 2 ^ r) by (apply Z.pow_pos_nonneg; lia).
  assert (E16 : 65536 = 2 ^ r * 2 ^ (16 - r)) by (rewrite <- Z.pow_add_r by lia; change 65536 with (2 ^ 16); f_equal; lia).
  assert (L : forall a, 0 <= a < 2 ^ 16 -> a = 2 ^ r * (a / 2 ^ r) + a mod 2 ^ r /\
     0 <= a / 2 ^ r < 2 ^ (16 - r) /\ 0 <= a mod 2 ^ r < 2 ^ r).
  { intros a Ha. split; [apply Z.div_mod; lia|]. split; [|apply Z.mod_pos_bound; lia].
    split; [apply Z.div_pos; lia|]. apply Z.div_lt_upper_bound; [lia|]. rewrite <- E16. lia. }
  destruct (L _ X0) as (A0 & B0 & C0), (L _ X1) as (A1 & B1 & C1), (L _ X2) as (A2 & B2 & C2), (L _ X3) as (A3 & B3 & C3).
  remember (2 ^ (16 - r)) as M eqn:EM. remember (2 ^ r) as N eqn:EN. clear EM EN L.
  split.
  - constructor; cbn [ml0 ml1 ml2 ml3]; change (2 ^ 16) with 65536; nia.
  - unfold ML_bits. cbn [ml0 ml1 ml2 ml3].
    apply Z.div_unique_pos with (ml0 x mod N); [lia|].
    change (2 ^ 48) with (65536 * 65536 * 65536). change (2 ^ 32) with (65536 * 65536). change (2 ^ 16) with 65536.
    rewrite A0, A1, A2, A3 at 1. rewrite E16. ring.
Qed.

Lemma shift_pos n : 0 < n < 64 -> exists p r, n = 16 * p + r /\ 0 <= r < 16 /\ Z.rem n 16 = r /\ n / 16 = p /\
  (p = 0 \/ p = 1 \/ p = 2 \/ p = 3).
Proof.
  intros Hn. exists (n / 16), (Z.rem n 16). rewrite Z.rem_mod_nonneg by lia.
  Z.to_euclidean_division_equations; lia.
Qed.

Lemma ML_shiftLeft_spec x n :
  ML_wf x -> 0 <= n ->
  ML_wf (ML_shiftLeft x n) /\ ML_bits (ML_shiftLeft x n) = (ML_bits x * 2 ^ n) mod 2 ^ 64.
Proof.
  intros Hx Hn. pose proof (ML_bits_range x Hx) as HB. unfold ML_shiftLeft.
  destruct (Z.eqb_spec n 0) as [->|]. { rewrite Z.mul_1_r, Z.mod_small by done. done. }
  destruct (Z.leb_spec 64 n).
  { destruct ML_zero_spec as [W V]. split; [exact W|]. unfold ML_toZero. rewrite V.
    replace n with (n - 64 + 64) by lia. by rewrite Z.pow_add_r, Z.mul_assoc, Z.mod_mul by lia. }
  destruct (shift_pos n ltac:(lia)) as (p & r & -> & Hr & -> & -> & Hp).
  set (y := if 0 <? p then _ else _).
  assert (Hy : ML_wf y /\ ML_bits y = (ML_bits x * 2 ^ (16 * p)) mod 2 ^ 64).
  { destruct Hx as [X0 X1 X2 X3]. destruct x as [a b c d]. cbn [ml0 ml1 ml2 ml3] in *.
    destruct Hp as [-> |[-> |[-> | ->]]];
      [change y with (mkML a b c d)|change y with (mkML 0 a b c)|change y with (mkML 0 0 a b)|change y with (mkML 0 0 0 a)];
      clear y; unfold ML_bits in *; cbn [ml0 ml1 ml2 ml3] in *;
      (split; [constructor; cbn [ml0 ml1 ml2 ml3]; lia|]).
    - rewrite Z.mod_small; lia.
    - apply Z.mod_unique_pos with d; lia.
    - apply Z.mod_unique_pos with (c + 2 ^ 16 * d); lia.
    - apply Z.mod_unique_pos with (b + 2 ^ 16 * c + 2 ^ 32 * d); lia. }
  destruct Hy as [Wy Vy]. destruct (Z.ltb_spec 0 r).
  - destruct (shl_small_spec y r Wy ltac:(lia)) as [W V]. split; [exact W|]. rewrite V, Vy.
    rewrite Z.mul_mod_idemp_l by lia. by rewrite Z.pow_add_r, Z.mul_assoc by lia.
  - assert (r = 0) as -> by lia. rewrite Z.add_0_r. done.
Qed.

Lemma ML_shiftRightUnsigned_spec x n :
  ML_wf x -> 0 <= n ->
  ML_wf (ML_shiftRightUnsigned x n) /\ ML_bits (ML_shiftRightUnsigned x n) = ML_bits x / 2 ^ n.
Proof.
  intros Hx Hn. pose proof (ML_bits_range x Hx) as HB. unfold ML_shiftRightUnsigned.
  destruct (Z.eqb_spec n 0) as [->|]. { by rewrite Z.div_1_r. }
  destruct (Z.leb_spec 64 n).
  { destruct ML_zero_spec as [W V]. split; [exact W|]. unfold ML_toZero. rewrite V.
    symmetry. apply Z.div_small. pose proof (Z.pow_le_mono_r 2 64 n). lia. }
  destruct (shift_pos n ltac:(lia)) as (p & r & -> & Hr & -> & -> & Hp).
  set (y := if 0 <? p then _ else _).
  assert (Hy : ML_wf y /\ ML_bits y = ML_bits x / 2 ^ (16 * p)).
  { destruct Hx as [X0 X1 X2 X3]. destruct x as [a b c d]. cbn [ml0 ml1 ml2 ml3] in *.
    destruct Hp as [-> |[-> |[-> | ->]]];
      [change y with (mkML a b c d)|change y with (mkML b c d 0)|change y with (mkML c d 0 0)|change y with (mkML d 0 0 0)];
      clear y; unfold ML_bits in *; cbn [ml0 ml1 ml2 ml3] in *;
      (split; [constructor; cbn [ml0 ml1 ml2 ml3]; lia|]).
    - change (2 ^ (16 * 0)) with 1. by rewrite Z.div_1_r.
    - apply Z.div_unique_pos with a; lia.
    - apply Z.div_unique_pos with (a + 2 ^ 16 * b); lia.
    - apply Z.div_unique_pos with (a + 2 ^ 16 * b + 2 ^ 32 * c); lia. }
  destruct Hy as [Wy Vy]. rewrite Z.pow_add_r, <- Z.div_div, <- Vy by (try (apply Z.pow_nonzero || apply Z.pow_pos_nonneg); lia).
  destruct (Z.ltb_spec 0 r).
  - apply shr_small_spec; [done|lia].
  - assert (r = 0) as -> by lia. rewrite Z.div_1_r. done.
Qed.

(** ** Bitwise operations, order and conversions *)

Lemma testbit_limb a b i :
  0 <= a < 2 ^ 16 -> 0 <= i ->
  Z.testbit (a + 2 ^ 16 * b) i = if i <? 16 then Z.testbit a i else Z.testbit b (i - 16).
Proof.
  intros Ha Hi. destruct (Z.ltb_spec i 16).
  - rewrite <- (Z.mod_pow2_bits_low (a + 2 ^ 16 * b) 16) by lia.
    by rewrite (Z.mul_comm (2 ^ 16)), Z.mod_add, Z.mod_small by lia.
  - replace i with (i - 16 + 16) at 1 by lia. rewrite <- Z.div_pow2_bits by lia.
    by rewrite (Z.mul_comm (2 ^ 16)), Z.div_add, Z.div_small by lia.
Qed.

Section limb_op.
Context (op : Z -> Z -> Z) (f : bool -> bool -> bool) (f_ff : f false false = false).
Context (op_spec : forall a b i, Z.testbit (op a b) i = f (Z.testbit a i) (Z.testbit b i)).

Lemma limb_op_range k a b : 0 <= k -> 0 <= a < 2 ^ k -> 0 <= b < 2 ^ k -> 0 <= op a b < 2 ^ k.
Proof.
  intros Hk Ha Hb. assert (E : op a b = op a b mod 2 ^ k).
  { apply Z.bits_inj'. intros i Hi. rewrite Z.testbit_mod_pow2 by done. destruct (Z.ltb_spec i k); [done|].
    rewrite op_spec, <- (Z.mod_small a (2 ^ k)), <- (Z.mod_small b (2 ^ k)), !Z.mod_pow2_bits_high by lia. done. }
  rewrite E. apply Z.mod_pos_bound, Z.pow_pos_nonneg; lia.
Qed.

Lemma limb_op_split a b c d :
  0 <= a < 2 ^ 16 -> 0 <= c < 2 ^ 16 ->
  op (a + 2 ^ 16 * b) (c + 2 ^ 16 * d) = op a c + 2 ^ 16 * op b d.
Proof.
  intros Ha Hc. apply Z.bits_inj'. intros i Hi.
  rewrite op_spec, !testbit_limb by (done || by apply limb_op_range). by destruct (i <? 16); rewrite op_spec.
Qed.

Lemma ML_bitop_spec x y :
  ML_wf x -> ML_wf y ->
  let z := mkML (op (ml0 x) (ml0 y)) (op (ml1 x) (ml1 y)) (op (ml2 x) (ml2 y)) (op (ml3 x) (ml3 y)) in
  ML_wf z /\ ML_bits z = op (ML_bits x) (ML_bits y).
Proof.
  intros [] []. cbv zeta. split; [constructor; cbn [ml0 ml1 ml2 ml3]; by apply limb_op_range|].
  assert (E : forall w, ML_bits w = ml0 w + 2 ^ 16 * (ml1 w + 2 ^ 16 * (ml2 w + 2 ^ 16 * ml3 w)))
    by (intros; unfold ML_bits; lia).
  rewrite !E. cbn [ml0 ml1 ml2 ml3]. by rewrite !limb_op_split.
Qed.
End limb_op.

Lemma limb_int32 a : 0 <= a < 2 ^ 16 -> is_int32 a.
Proof. unfold is_int32. lia. Qed.

#[export] Hint Resolve limb_int32 ml_range0 ml_range1 ml_range2 ml_range3 : jsnum.

Lemma ML_or_spec x y :
  ML_wf x -> ML_wf y -> ML_wf (ML_or x y) /\ ML_bits (ML_or x y) = Z.lor (ML_bits x) (ML_bits y).
Proof.
  intros Hx Hy. unfold ML_or, js_or. rewrite !to_int32_id by auto with jsnum.
  by apply (ML_bitop_spec Z.lor orb eq_refl Z.lor_spec).
Qed.

Lemma ML_xor_spec x y :
  ML_wf x -> ML_wf y -> ML_wf (ML_xor x y) /\ ML_bits (ML_xor x y) = Z.lxor (ML_bits x) (ML_bits y).
Proof.
  intros Hx Hy. unfold ML_xor, js_xor. rewrite !to_int32_id by auto with jsnum.
  by apply (ML_bitop_spec Z.lxor xorb eq_refl Z.lxor_spec).
Qed.

Lemma ML_compareBits_spec x y : ML_wf x -> ML_wf y -> ML_compareBits x y = Z.sgn (ML_bits x - ML_bits y).
Proof.
  intros [] []. unfold ML_compareBits, ML_bits. cbn [ML_compareBits_loop].
  change (ML_arr x (Z.of_nat 3)) with (ml3 x). change (ML_arr y (Z.of_nat 3)) with (ml3 y).
  change (ML_arr x (Z.of_nat 2)) with (ml2 x). change (ML_arr y (Z.of_nat 2)) with (ml2 y).
  change (ML_arr x (Z.of_nat 1)) with (ml1 x). change (ML_arr y (Z.of_nat 1)) with (ml1 y).
  change (ML_arr x (Z.of_nat 0)) with (ml0 x). change (ML_arr y (Z.of_nat 0)) with (ml0 y).
  destruct (Z.ltb_spec (ml3 y) (ml3 x)); [lia|]. destruct (Z.ltb_spec (ml3 x) (ml3 y)); [lia|].
  destruct (Z.ltb_spec (ml2 y) (ml2 x)); [lia|]. destruct (Z.ltb_spec (ml2 x) (ml2 y)); [lia|].
  destruct (Z.ltb_spec (ml1 y) (ml1 x)); [lia|]. destruct (Z.ltb_spec (ml1 x) (ml1 y)); [lia|].
  destruct (Z.ltb_spec (ml0 y) (ml0 x)); [lia|]. destruct (Z.ltb_spec (ml0 x) (ml0 y)); [lia|]. lia.
Qed.

(** The limb-wise order is the order of the signed values. *)
Lemma ML_compare_spec x y : ML_wf x -> ML_wf y -> ML_compare x y = Z.sgn (ML_val x - ML_val y).
Proof.
  intros Hx Hy. unfold ML_compare, ML_val, signed64.
  rewrite !ML_isNegative_val, ML_compareBits_spec by done.
  pose proof (ML_bits_range x Hx). pose proof (ML_bits_range y Hy).
  destruct (Z.leb_spec (2 ^ 63) (ML_bits x)), (Z.leb_spec (2 ^ 63) (ML_bits y)),
    (Z.ltb_spec (ML_bits x) (2 ^ 63)), (Z.ltb_spec (ML_bits y) (2 ^ 63)); cbn [andb negb]; lia.
Qed.

Lemma ML_equals_spec x y : ML_wf x -> ML_wf y -> ML_equals x y = (ML_bits x =? ML_bits y).
Proof.
  intros [] []. apply eq_true_iff_eq. unfold ML_equals, ML_bits.
  rewrite !andb_true_iff, !Z.eqb_eq. lia.
Qed.

(** Two limbs put side by side by the bit operators. *)
Lemma or_limbs lo hi :
  0 <= lo < 2 ^ 16 -> 0 <= hi < 2 ^ 16 -> (lo .| (hi .<< 16)) = to_int32 (lo + 2 ^ 16 * hi).
Proof.
  intros Hl Hh. assert (E : (lo .| (hi .<< 16)) = ((hi .<< 16) .| lo)) by (unfold js_or; apply Z.lor_comm).
  rewrite E. assert (I : is_int32 ((hi .<< 16) .| lo)).
  { unfold js_or. apply int32_or; apply to_int32_range. }
  rewrite <- (to_int32_id _ I), <- to_int32_uint32, js_or_shl by lia.
  rewrite Z.mod_small by lia. f_equal. lia.
Qed.

Lemma ML_halves x :
  ML_wf x -> ML_getLowBitsUnsigned x = ML_bits x mod 2 ^ 32 /\ ML_getHighBitsUnsigned x = ML_bits x / 2 ^ 32.
Proof.
  intros [X0 X1 X2 X3]. unfold ML_getLowBitsUnsigned, ML_getHighBitsUnsigned.
  rewrite js_and_ffff, (Z.mod_small (ml1 x)), !or_limbs, !js_ushr_div, !to_uint32_int32, !to_uint32_id, !Z.div_1_r by lia.
  unfold ML_bits. split; [apply Z.mod_unique_pos with (ml2 x + 2 ^ 16 * ml3 x)
                         |apply Z.div_unique_pos with (ml0 x + 2 ^ 16 * ml1 x)]; lia.
Qed.

Lemma ML_toNumber_spec x : ML_wf x -> ML_toNumber x = round53 (ML_val x).
Proof.
  intros [X0 X1 X2 X3]. unfold ML_toNumber. f_equal.
  assert (C : forall a b, (a .| b) = (b .| a)) by (intros; unfold js_or; apply Z.lor_comm).
  rewrite (C (ml3 x .<< 16)), (C (ml1 x .<< 16)), !or_limbs, js_ushr_div, to_uint32_int32, to_uint32_id, Z.div_1_r by lia.
  unfold ML_val, signed64, ML_bits, to_int32. rewrite Z.mod_small by lia.
  destruct (Z.ltb_spec (ml2 x + 2 ^ 16 * ml3 x) (2 ^ 31)), (Z.ltb_spec (ml0 x + 2 ^ 16 * ml1 x + 2 ^ 32 * ml2 x + 2 ^ 48 * ml3 x) (2 ^ 63)); lia.
Qed.

Lemma ML_fromBits_spec lo hi :
  ML_wf (ML_fromBits lo hi) /\ ML_bits (ML_fromBits lo hi) = to_uint32 lo + 2 ^ 32 * to_uint32 hi.
Proof.
  split; [apply ML_mk_wf|]. unfold ML_fromBits. rewrite ML_new_spec. unfold ML_bits. cbn [ml0 ml1 ml2 ml3].
  rewrite !js_ushr_div by lia.
  assert (E : forall z, to_uint32 z = z mod 65536 + 2 ^ 16 * ((to_uint32 z / 2 ^ 16) mod 65536)).
  { intros z. pose proof (to_uint32_range z).
    assert (z mod 65536 = to_uint32 z mod 65536) as -> by (unfold to_uint32; symmetry; apply Z.mod_mod_divide; by exists 65536).
    rewrite (Z.mod_small (to_uint32 z / 2 ^ 16)) by (Z.to_euclidean_division_equations; lia).
    Z.to_euclidean_division_equations; lia. }
  rewrite (E lo) at 2. rewrite (E hi) at 2. lia.
Qed.

(** [fromNumber] truncates towards zero and wraps modulo [2^64]. *)
Lemma ML_fromNumber_int z : ML_wf (ML_fromNumber (Int z)) /\ ML_bits (ML_fromNumber (Int z)) = z mod 2 ^ 64.
Proof.
  unfold ML_fromNumber, Int. change (2 ^ Z.of_N 0) with 1. rewrite !Z.div_1_r.
  assert (H : forall z, ML_wf (ML_fromBits (z mod 2 ^ 32) (z / 2 ^ 32)) /\
    ML_bits (ML_fromBits (z mod 2 ^ 32) (z / 2 ^ 32)) = z mod 2 ^ 64).
  { clear z. intros z. destruct (ML_fromBits_spec (z mod 2 ^ 32) (z / 2 ^ 32)) as [W V]. split; [done|].
    rewrite V. unfold to_uint32. rewrite Z.mod_mod by lia. change (2 ^ 64) with (2 ^ 32 * 2 ^ 32).
    by rewrite Z.rem_mul_r by lia. }
  destruct (z <? 0); [|by apply H]. destruct (H (- z)) as [W V]. destruct (ML_negate_spec _ W) as [W' V'].
  split; [done|]. rewrite V', V, opp_mod_mod. f_equal. lia.
Qed.

Lemma ML_toImmutable_spec `{LongLaws} x :
  ML_wf x -> long_bits (ML_toImmutable x) = ML_bits x /\ long_val (ML_toImmutable x) = ML_val x.
Proof.
  intros Hx. destruct (ML_halves x Hx) as [El Eh]. pose proof (ML_bits_range x Hx).
  unfold ML_toImmutable. rewrite El, Eh.
  assert (E : long_bits (Long_fromBits (ML_bits x mod 2 ^ 32) (ML_bits x / 2 ^ 32) false) = ML_bits x).
  { rewrite long_fromBits_bits, !to_uint32_id by (Z.to_euclidean_division_equations; lia).
    Z.to_euclidean_division_equations; lia. }
  split; [done|]. rewrite long_val_signed by apply long_fromBits_unsigned. by rewrite E.
Qed.

(** ** Text *)

Lemma ML_fromString_loop_step fuel radix ds res :
  2 <= radix <= 15 -> digits_in radix ds -> ds <> [] ->
  ML_fromString_loop (S fuel) radix (map digit_char ds) res =
  let next := ML_add (ML_multiply res (ML_fromNumber (Int (radix ^ Z.of_nat (length (take 8 ds))))))
                (ML_fromNumber (Int (be_val radix (take 8 ds)))) in
  if (length ds <? 8)%nat then next
  else ML_fromString_loop fuel radix (map digit_char (drop 8 ds)) next.
Proof.
  intros Hr Hds Hne. destruct ds as [|d ds']; [done|].
  change (map digit_char (d :: ds')) with (digit_char d :: map digit_char ds') at 1.
  cbn [ML_fromString_loop]. set (ds := d :: ds') in *.
  change (digit_char d :: map digit_char ds') with (map digit_char ds).
  assert (Es : substring (map digit_char ds) 0 (Nat.min 8 (length (map digit_char ds))) = map digit_char (take 8 ds)).
  { unfold substring. rewrite drop_0, Nat.sub_0_r, length_map, <- firstn_map.
    destruct (Nat.le_ge_cases 8 (length ds)); [by rewrite Nat.min_l|].
    rewrite Nat.min_r, !take_ge by (rewrite ?length_map; done). done. }
  rewrite Es, (parseInt_digits radix (take 8 ds)); [|lia|by apply Forall_take|done].
  rewrite length_map, length_take, skipn_map.
  destruct (Nat.ltb_spec (Nat.min 8 (length ds)) 8), (Nat.ltb_spec (length ds) 8); [done|lia|lia|].
  by replace (Nat.min 8 (length ds)) with 8%nat by lia.
Qed.

Lemma ML_fromString_loop_spec radix fuel ds res :
  2 <= radix <= 15 -> digits_in radix ds -> (length ds <= fuel)%nat -> ML_wf res ->
  ML_wf (ML_fromString_loop fuel radix (map digit_char ds) res) /\
  ML_bits (ML_fromString_loop fuel radix (map digit_char ds) res)
    = (ML_bits res * radix ^ Z.of_nat (length ds) + be_val radix ds) mod 2 ^ 64.
Proof.
  intros Hr. revert ds res. induction fuel as [|fuel IH]; intros ds res Hds Hlen Hres;
    pose proof (ML_bits_range res Hres).
  { destruct ds; [|cbn in Hlen; lia]. cbn [length map ML_fromString_loop].
    rewrite Z.mul_1_r, Z.add_0_r, Z.mod_small by done. done. }
  destruct (decide (ds = [])) as [->|Hne].
  { cbn [length map ML_fromString_loop]. rewrite Z.mul_1_r, Z.add_0_r, Z.mod_small by done. done. }
  rewrite ML_fromString_loop_step by done. cbv zeta. set (next := ML_add _ _).
  assert (Hnext : ML_wf next /\ ML_bits next =
    (ML_bits res * radix ^ Z.of_nat (length (take 8 ds)) + be_val radix (take 8 ds)) mod 2 ^ 64).
  { destruct (ML_fromNumber_int (radix ^ Z.of_nat (length (take 8 ds)))) as [W1 V1].
    destruct (ML_fromNumber_int (be_val radix (take 8 ds))) as [W2 V2].
    destruct (ML_multiply_spec res _ Hres W1) as [W3 V3]. destruct (ML_add_spec _ _ W3 W2) as [W4 V4].
    split; [done|]. unfold next. rewrite V4, V3, V1, V2.
    by rewrite Z.mul_mod_idemp_r, <- Z.add_mod by lia. }
  clearbody next. destruct Hnext as [Wn Vn].
  destruct (Nat.ltb_spec (length ds) 8).
  { rewrite take_ge in Vn by lia. done. }
  destruct (IH (drop 8 ds) next) as [W V]; [by apply Forall_drop|rewrite length_drop; lia|done|].
  split; [done|]. rewrite V, Vn. rewrite <- (take_drop 8 ds) at 5 6.
  rewrite be_val_app, length_app, Nat2Z.inj_add, Z.pow_add_r by lia.
  rewrite <- Z.add_mod_idemp_l, Z.mul_mod_idemp_l, Z.add_mod_idemp_l by lia. f_equal. ring.
Qed.

Lemma digit_not_special d : 0 <= d < 36 ->
  digit_char d <> "N"%char /\ digit_char d <> "I"%char /\ digit_char d <> "+"%char /\ digit_char d <> "-"%char.
Proof.
  intros Hd. assert (H : forallb (fun d => bool_decide (digit_char d <> "N"%char /\ digit_char d <> "I"%char
    /\ digit_char d <> "+"%char /\ digit_char d <> "-"%char)) (seqZ 0 36) = true) by (vm_compute; reflexivity).
  rewrite forallb_forall in H. specialize (H d ltac:(apply list_elem_of_In, elem_of_seqZ; lia)).
  by apply bool_decide_eq_true_1 in H.
Qed.

Lemma ML_fromString_num radix z :
  2 <= radix <= 15 ->
  exists x, ML_fromString (num_to_string radix z) radix = Ok x /\ ML_wf x /\ ML_bits x = z mod 2 ^ 64.
Proof.
  intros Hr.
  assert (Hpos : forall z, 0 <= z -> exists d s x, num_to_string radix z = digit_char d :: s /\ 0 <= d < 36 /\
     ML_fromString (num_to_string radix z) radix = Ok x /\ ML_wf x /\ ML_bits x = z mod 2 ^ 64).
  { clear z. intros z Hz. destruct (num_to_string_digits radix z ltac:(lia) Hz) as (ds & -> & Hds & Hv & Hne).
    destruct ds as [|d ds]; [done|].
    destruct (ML_fromString_loop_spec radix (length (d :: ds)) (d :: ds) (mkML 0 0 0 0) Hr Hds ltac:(lia) (proj1 ML_zero_spec))
      as [W V]. rewrite Hv, (proj2 ML_zero_spec) in V.
    assert (Hd : 0 <= d < 36) by (inversion Hds; subst; lia).
    destruct (digit_not_special d Hd) as (D1 & D2 & D3 & D4).
    eexists d, (map digit_char ds), _. split; [done|]. split; [done|]. split; [|split; [exact W|exact V]].
    change (map digit_char (d :: ds)) with (digit_char d :: map digit_char ds) at 1.
    cbn [ML_fromString]. rewrite !bool_decide_eq_false_2 by (intros [= E _]; done). cbn [orb].
    destruct (Z.eqb_spec radix 0); [lia|].
    destruct (Z.ltb_spec radix 2); [lia|]. destruct (Z.ltb_spec 36 radix); [lia|]. cbn [orb].
    destruct (decide (digit_char d = "-"%char)) as [E|]; [done|].
    change (digit_char d :: map digit_char ds) with (map digit_char (d :: ds)).
    rewrite contains_minus_digits by (eapply Forall_impl; [exact Hds|cbn; lia]).
    by rewrite length_map. }
  destruct (Z.lt_ge_cases z 0) as [Hz|Hz]; [|destruct (Hpos z Hz) as (d & s & x & _ & _ & H); eauto].
  destruct (Hpos (- z) ltac:(lia)) as (d & s & x & Es & Hd & E & W & V).
  destruct (ML_negate_spec x W) as [Wn Vn].
  exists (ML_negate x). split; [|split; [done|]].
  - rewrite <- num_to_string_opp by lia. cbn [ML_fromString].
    rewrite !bool_decide_eq_false_2.
    + cbn [orb]. destruct (Z.eqb_spec radix 0); [lia|].
      destruct (Z.ltb_spec radix 2); [lia|]. destruct (Z.ltb_spec 36 radix); [lia|]. cbn [orb].
      destruct (decide (_ = _)); [|done]. by rewrite E.
    + rewrite Es. destruct (digit_not_special d Hd) as (D1 & D2 & _). by intros [= E' _].
    + done.
    + done.
    + done.
  - rewrite Vn, V, opp_mod_mod. f_equal. lia.
Qed.

(** ** The guarantees *)

(** every operation of [MutableLong] is the 64-bit two's complement
    operation: sums, products and negation modulo [2^64], shifts by any
    non-negative count (all bits lost from 64 on), bitwise or and xor; the
    limbs stay 16-bit. *)
Theorem MutableLong_modular (x y : MutableLong) (n : Z) (Hx : ML_wf x) (Hy : ML_wf y) (Hn : 0 <= n) :
  (ML_wf (ML_add x y) /\ ML_bits (ML_add x y) = (ML_bits x + ML_bits y) mod 2 ^ 64) /\
  (ML_wf (ML_negate x) /\ ML_bits (ML_negate x) = (- ML_bits x) mod 2 ^ 64) /\
  (ML_wf (ML_multiply x y) /\ ML_bits (ML_multiply x y) = (ML_bits x * ML_bits y) mod 2 ^ 64) /\
  (ML_wf (ML_shiftLeft x n) /\ ML_bits (ML_shiftLeft x n) = (ML_bits x * 2 ^ n) mod 2 ^ 64) /\
  (ML_wf (ML_shiftRightUnsigned x n) /\ ML_bits (ML_shiftRightUnsigned x n) = ML_bits x / 2 ^ n) /\
  (ML_wf (ML_or x y) /\ ML_bits (ML_or x y) = Z.lor (ML_bits x) (ML_bits y)) /\
  (ML_wf (ML_xor x y) /\ ML_bits (ML_xor x y) = Z.lxor (ML_bits x) (ML_bits y)).
Proof.
  split; [by apply ML_add_spec|]. split; [by apply ML_negate_spec|]. split; [by apply ML_multiply_spec|].
  split; [by apply ML_shiftLeft_spec|]. split; [by apply ML_shiftRightUnsigned_spec|].
  split; [by apply ML_or_spec|by apply ML_xor_spec].
Qed.

Lemma MutableLong_modular_witness :
  ML_bits (ML_multiply (ML_new 65535 7 0 40000) (ML_new 3 0 9 65535))
    = (ML_bits (ML_new 65535 7 0 40000) * ML_bits (ML_new 3 0 9 65535)) mod 2 ^ 64.
Proof.
  destruct (MutableLong_modular (ML_new 65535 7 0 40000) (ML_new 3 0 9 65535) 5
    (ML_mk_wf _ _ _ _) (ML_mk_wf _ _ _ _) ltac:(lia)) as (_ & _ & [_ H] & _). exact H.
Defined.

(** [compare] is the order of the signed values and [equals] is equality
    of values; [toImmutable] keeps the value, [toNumber] rounds it to a
    double, and [fromString] of the decimal text of an int64 gives a value
    that converts back to it. *)
Theorem MutableLong_conversions `{LongLaws} (x y : MutableLong) (z : Z)
  (Hx : ML_wf x) (Hy : ML_wf y) (Hz : is_int64 z) :
  ML_compare x y = Z.sgn (ML_val x - ML_val y) /\
  ML_equals x y = (ML_val x =? ML_val y) /\
  long_val (ML_toImmutable x) = ML_val x /\
  ML_toNumber x = round53 (ML_val x) /\
  exists m, ML_fromString (num_to_string 10 z) 10 = Ok m /\ ML_wf m /\ ML_val m = z.
Proof.
  split; [by apply ML_compare_spec|]. split.
  { rewrite ML_equals_spec by done. apply eq_true_iff_eq. rewrite !Z.eqb_eq. unfold ML_val.
    split; [by intros ->|]. intros E. apply (f_equal (fun v => v mod 2 ^ 64)) in E.
    by rewrite !signed64_bits in E by by apply ML_bits_range. }
  split; [by apply ML_toImmutable_spec|]. split; [by apply ML_toNumber_spec|].
  destruct (ML_fromString_num 10 z ltac:(lia)) as (m & E & W & V). exists m.
  split; [done|]. split; [done|]. unfold ML_val. rewrite V. by apply signed64_mod.
Qed.

Lemma MutableLong_conversions_witness :
  exists m, ML_fromString (num_to_string 10 (-1234567890123456789)) 10 = Ok m /\ ML_wf m /\
    ML_val m = -1234567890123456789.
Proof.
  destruct (MutableLong_conversions (ML_new 1 2 3 4) (ML_new 1 2 3 65535) (-1234567890123456789)
    (ML_mk_wf _ _ _ _) (ML_mk_wf _ _ _ _) ltac:(unfold is_int64; lia)) as (_ & _ & _ & _ & E). exact E.
Defined.
