(* ===== verification/VInt.v ===== *)
(** [VIntCoding] of [lib/utils.js]: variable-length integers.

    [writeVInt] and [readVInt] code signed 64-bit Longs (zig-zag, then a
    prefix of ones that tells the number of extra bytes); [uvintPack] and
    [uvintUnpack] code non-negative Numbers in the same format. *)
From S2P Require Import Prelude.
From S2P Require Import JsNum.
From S2P Require Import JsStr.
From S2P Require Import Buffer.
From S2P Require Import LongLib.

(** [numberOfLeadingZerosInt32], and the same steps in [numberOfLeadingZeros]
    from [n] on. *)
Definition leading_zeros_steps (n x : Z) : Z :=
  let '(n, x) := if (x .>>> 16) =? 0 then (n + 16, x .<< 16) else (n, x) in
  let '(n, x) := if (x .>>> 24) =? 0 then (n + 8, x .<< 8) else (n, x) in
  let '(n, x) := if (x .>>> 28) =? 0 then (n + 4, x .<< 4) else (n, x) in
  let '(n, x) := if (x .>>> 30) =? 0 then (n + 2, x .<< 2) else (n, x) in
  n - (x .>>> 31).

Definition numberOfLeadingZerosInt32 (i : Z) : Z :=
  if i =? 0 then 32 else leading_zeros_steps 1 i.

Definition encodeExtraBytesToRead (extraBytesToRead : Z) : Z := .~ (255 .>> extraBytesToRead).

Definition fromSignedByteToInt (value : Z) : Z := if 127 <? value then value - 256 else value.

Definition numberOfExtraBytesToRead (firstByte : Z) : Z :=
  numberOfLeadingZerosInt32 (.~ firstByte) - 24.

Definition firstByteValueMask (extraBytesToRead : Z) : Z := 255 .>> extraBytesToRead.

(** [buffer[i] = 0xff & intValue; intValue >>= 8] for [count] indices from
    [i] downwards. *)
Fixpoint encodeVInt_loop (count i : nat) (intValue : Z) (buffer : list Z) : list Z :=
  match count with
  | O => buffer
  | S c => encodeVInt_loop c (i - 1) (intValue .>> 8) (<[i := 255 .& intValue]> buffer)
  end.

Section vint.
Context `{LongLib}.

Definition encodeZigZag64 (n : Long) : Long :=
  Long_xor (Long_shiftLeft (Long_toUnsigned n) 1) (Long_shiftRight n 63).

Definition decodeZigZag64 (n : Long) : Long :=
  Long_xor (Long_shiftRightUnsigned n 1) (Long_negate (Long_and n Long_ONE)).

Definition numberOfLeadingZeros (value : Long) : Z :=
  if Long_equals value Long_ZERO then 64
  else
    let x := Long_getHighBits value in
    if x =? 0 then leading_zeros_steps 33 (Long_getLowBits value)
    else leading_zeros_steps 1 x.

Definition computeUnsignedVIntSize (value : Long) : Z :=
  let magnitude := numberOfLeadingZeros (Long_or value Long_ONE) in
  (639 - magnitude * 9) .>> 6.

Definition encodeVInt (value : Long) (size : nat) (buffer : list Z) : list Z :=
  let extraBytes := (size - 1)%nat in
  let c := Nat.min 4 size in
  let buffer := encodeVInt_loop c extraBytes (Long_getLowBits value) buffer in
  let buffer := encodeVInt_loop (size - c) (extraBytes - c) (Long_getHighBits value) buffer in
  <[0%nat := (rd buffer 0 .| encodeExtraBytesToRead (Z.of_nat extraBytes)) mod 256]> buffer.

(** Returns the number of bytes written and the buffer. *)
Definition writeUnsignedVInt (value : Long) (buffer : list Z) : Z * list Z :=
  let size := computeUnsignedVIntSize value in
  if size =? 1 then (1, <[0%nat := Long_getLowBits value mod 256]> buffer)
  else (size, encodeVInt value (Z.to_nat size) buffer).

Definition writeVInt (value : Long) (buffer : list Z) : Z * list Z :=
  writeUnsignedVInt (encodeZigZag64 value) buffer.

(** [offset.value] is threaded through; a read past the end gives
    [undefined], which the Number operators take as 0. *)
Definition readUnsignedVInt (input : list Z) (offset : nat) : Long * nat :=
  let firstByte := rd input offset in
  if (firstByte .& 128) =? 0 then (Long_fromInt firstByte, S offset)
  else
    let sByteInt := fromSignedByteToInt firstByte in
    let size := Z.to_nat (numberOfExtraBytesToRead sByteInt) in
    let result := Long_fromInt (sByteInt .& firstByteValueMask (Z.of_nat size)) in
    (foldl (fun result ii => Long_or (Long_shiftLeft result 8) (Long_fromInt (rd input (S offset + ii))))
       result (seq 0 size), (S offset + size)%nat).

Definition readVInt (buffer : list Z) (offset : nat) : Long * nat :=
  let '(n, offset) := readUnsignedVInt buffer offset in (decodeZigZag64 n, offset).
End vint.

(** [v.toString(2).length] for an integer [v >= 0]. *)
Definition bit_length (v : Z) : Z := if v =? 0 then 1 else Z.log2 v + 1.

Definition uvintUnpack (bytes : list Z) : Z * Z :=
  let firstByte := rd bytes 0 in
  if (firstByte .& 128) =? 0 then (firstByte, 1)
  else
    let numExtraBytes := 8 - bit_length ((.~ firstByte) .& 255) in
    let rv := foldl (fun rv idx => (rv .<< 8) .| (rd bytes idx .& 255))
                (firstByte .& (255 .>> numExtraBytes)) (seq 1 (Z.to_nat numExtraBytes)) in
    (rv, numExtraBytes + 1).

(** The loop of [uvintPack]; every iteration takes 8 bits. *)
Definition uvintPack_step (s : Z * Z * Z * Z * list Z)
    : (Z * Z * Z * Z * list Z) + (Z * Z * list Z) :=
  let '(v, numExtraBytes, numBits, reservedBits, rv) := s in
  if 8 - reservedBits <? numBits
  then inl (v .>> 8, numExtraBytes + 1, numBits - 8, Z.min (numExtraBytes + 1 + 1) 8, rv ++ [v .& 255])
  else inr (v, numExtraBytes, rv).

Definition uvintPack (val : Z) : result (list Z) :=
  if val <? 128 then Ok [val mod 256]
  else
    match js_while (Z.to_pos (bit_length val)) uvintPack_step (val, 0, bit_length val, 1, []) with
    | inl _ => Throw OutOfFuel
    | inr (v, numExtraBytes, rv) =>
        if 8 <? numExtraBytes then Throw PlainError
        else
          let n := 8 - numExtraBytes in
          let v := v .| ((255 .>> n) .<< n) in
          Ok (map (fun b => b mod 256) (rev (rv ++ [Z.abs v])))
    end.

Example uvintPack_300 : uvintPack 300 = Ok [129; 44] /\ uvintUnpack [129; 44] = (300, 2).
Proof. split; vm_compute; reflexivity. Qed.

(** Theorems on the vint coding: sizes, the bytes written and the round trip. *)

(** ** Leading zeros *)

(** [x] is [u] shifted left by [n - n0] bits and at least [2^m]. *)
Definition lz_inv (n0 u m : Z) (s : Z * Z) : Prop :=
  let '(n, x) := s in n0 <= n /\ to_uint32 x = u * 2 ^ (n - n0) /\ 2 ^ m <= to_uint32 x.

Lemma lz_step n0 u n x k :
  0 < k <= 16 -> lz_inv n0 u (32 - 2 * k) (n, x) ->
  lz_inv n0 u (32 - k) (if (x .>>> (32 - k)) =? 0 then (n + k, x .<< k) else (n, x)).
Proof.
  intros Hk (Hn & Hx & Hm). rewrite js_ushr_div by lia. pose proof (to_uint32_range x) as Hr.
  assert (0 < 2 ^ (32 - k)) by (apply Z.pow_pos_nonneg; lia).
  destruct (Z.eqb_spec (to_uint32 x / 2 ^ (32 - k)) 0) as [E|E].
  - assert (Hlt : to_uint32 x < 2 ^ (32 - k)) by (apply Z.div_small_iff in E; lia).
    assert (E32 : 2 ^ 32 = 2 ^ (32 - k) * 2 ^ k) by (rewrite <- Z.pow_add_r by lia; f_equal; lia).
    assert (Em : 2 ^ (32 - k) = 2 ^ (32 - 2 * k) * 2 ^ k) by (rewrite <- Z.pow_add_r by lia; f_equal; lia).
    assert (0 < 2 ^ k) by (apply Z.pow_pos_nonneg; lia).
    assert (Eu : to_uint32 (x .<< k) = to_uint32 x * 2 ^ k).
    { rewrite js_shl_mul, to_uint32_int32 by lia. unfold to_uint32 at 1.
      rewrite <- Z.mul_mod_idemp_l by lia. apply Z.mod_small. fold (to_uint32 x). nia. }
    split; [lia|]. rewrite Eu, Hx. split; [|rewrite Em; nia].
    rewrite <- Z.mul_assoc, <- Z.pow_add_r by lia. do 2 f_equal. lia.
  - split; [done|]. split; [done|].
    destruct (Z.lt_ge_cases (to_uint32 x) (2 ^ (32 - k))) as [Hlt|]; [|done].
    exfalso. apply E, Z.div_small. lia.
Qed.

Lemma leading_zeros_steps_spec n0 x :
  0 < to_uint32 x -> leading_zeros_steps n0 x = n0 + 30 - Z.log2 (to_uint32 x).
Proof.
  intros Hx. unfold leading_zeros_steps.
  assert (H0 : lz_inv n0 (to_uint32 x) (32 - 2 * 16) (n0, x)).
  { split; [lia|]. rewrite Z.sub_diag, Z.mul_1_r. cbn. lia. }
  apply lz_step in H0; [|lia]. change (32 - 16) with 16 in H0. change 16 with (32 - 2 * 8) in H0 at 1.
  destruct (if (x .>>> 16) =? 0 then _ else _) as [n1 x1].
  apply lz_step in H0; [|lia]. change (32 - 8) with 24 in H0.
  destruct (if (x1 .>>> 24) =? 0 then _ else _) as [n2 x2]. change 24 with (32 - 2 * 4) in H0.
  apply lz_step in H0; [|lia]. change (32 - 4) with 28 in H0.
  destruct (if (x2 .>>> 28) =? 0 then _ else _) as [n3 x3]. change 28 with (32 - 2 * 2) in H0.
  apply lz_step in H0; [|lia]. change (32 - 2) with 30 in H0.
  destruct (if (x3 .>>> 30) =? 0 then _ else _) as [n4 x4].
  destruct H0 as (Hn & E & Hlow). pose proof (to_uint32_range x4) as Hr.
  rewrite js_ushr_div by lia. 
  assert (El : Z.log2 (to_uint32 x4) = Z.log2 (to_uint32 x) + (n4 - n0)).
  { rewrite E, Z.log2_mul_pow2 by lia. lia. }
  assert (Hb : to_uint32 x4 / 2 ^ 31 = Z.log2 (to_uint32 x4) - 30).
  { destruct (Z.lt_ge_cases (to_uint32 x4) (2 ^ 31)).
    - rewrite Z.div_small by lia. rewrite (Z.log2_unique _ 30) by (change (Z.succ 30) with 31; lia). lia.
    - rewrite (Z.log2_unique _ 31) by (change (Z.succ 31) with 32; lia).
      symmetry. apply Z.div_unique_pos with (to_uint32 x4 - 2 ^ 31); lia. }
  lia.
Qed.

Lemma numberOfLeadingZerosInt32_spec x :
  is_int32 x -> x <> 0 -> numberOfLeadingZerosInt32 x = 31 - Z.log2 (to_uint32 x).
Proof.
  intros Hx Hne. unfold numberOfLeadingZerosInt32. destruct (Z.eqb_spec x 0); [done|].
  rewrite leading_zeros_steps_spec; [lia|].
  unfold is_int32 in Hx. destruct (to_int32_cases x Hx) as [[? ->]|[? ->]]; lia.
Qed.

(** ** Sizes *)

(** The number of bytes for an unsigned value: seven bits each, nine bytes at
    most. *)
Definition vint_size (n : Z) : Z := Z.min 9 (Z.log2 n / 7 + 1).

Lemma vint_size_bounds n : 0 <= n < 2 ^ 64 -> 1 <= vint_size n <= 9 /\ (vint_size n <= 8 -> n < 2 ^ (7 * vint_size n)).
Proof.
  intros Hn. pose proof (Z.log2_nonneg n). unfold vint_size.
  assert (0 <= Z.log2 n / 7) by (apply Z.div_pos; lia).
  split; [lia|]. intros Hs. rewrite Z.min_r by lia.
  destruct (Z.eq_dec n 0) as [->|]. { apply Z.pow_pos_nonneg; lia. }
  apply Z.lt_le_trans with (2 ^ Z.succ (Z.log2 n)); [apply Z.log2_spec; lia|].
  apply Z.pow_le_mono_r; [lia|]. Z.to_euclidean_division_equations; lia.
Qed.

Section vint_write.
Context `{LongLaws}.

Lemma numberOfLeadingZeros_spec x : 0 < long_bits x -> numberOfLeadingZeros x = 63 - Z.log2 (long_bits x).
Proof.
  intros Hx. pose proof (long_bits_range x) as Hr. destruct Long_ZERO_bits as [Z0 U0]. unfold numberOfLeadingZeros.
  rewrite long_equals_val, Z0 by (right; right; lia). destruct (Z.eqb_spec (long_bits x) 0) as [|_]; [lia|].
  rewrite long_getHighBits_eq, long_getLowBits_eq. set (n := long_bits x) in *. clearbody n.
  assert (Eh : to_uint32 (n / 2 ^ 32) = n / 2 ^ 32) by (apply to_uint32_id; Z.to_euclidean_division_equations; lia).
  destruct (Z.lt_ge_cases n (2 ^ 32)).
  - rewrite (Z.div_small n) by lia. change (to_int32 0 =? 0) with true. cbn iota.
    rewrite leading_zeros_steps_spec; rewrite to_uint32_int32, to_uint32_id by lia; lia.
  - assert (Hq : 1 <= n / 2 ^ 32) by (apply Z.div_le_lower_bound; lia).
    destruct (Z.eqb_spec (to_int32 (n / 2 ^ 32)) 0) as [E|_].
    { apply (f_equal to_uint32) in E. rewrite to_uint32_int32, Eh in E. change (to_uint32 0) with 0 in E. lia. }
    rewrite leading_zeros_steps_spec; rewrite to_uint32_int32, Eh by lia; [|lia].
    assert (E : Z.log2 (n / 2 ^ 32) = Z.log2 n - 32); [|lia].
    rewrite <- Z.shiftr_div_pow2, Z.log2_shiftr by lia. rewrite Z.max_r; [done|].
    apply Z.le_0_sub. apply Z.log2_le_pow2; lia.
Qed.

Lemma computeUnsignedVIntSize_spec x : computeUnsignedVIntSize x = vint_size (long_bits x).
Proof.
  pose proof (long_bits_range x) as Hr. destruct Long_ONE_bits as [O1 _].
  destruct (long_or_bits x Long_ONE) as [Hor _]. rewrite O1 in Hor.
  assert (Hl : 0 < Z.lor (long_bits x) 1 /\ Z.log2 (Z.lor (long_bits x) 1) = Z.log2 (long_bits x)).
  { split.
    - assert (Z.lor (long_bits x) 1 <> 0) by (rewrite Z.lor_eq_0_iff; lia).
      assert (0 <= Z.lor (long_bits x) 1) by (apply Z.lor_nonneg; lia). lia.
    - rewrite Z.log2_lor by lia. change (Z.log2 1) with 0. pose proof (Z.log2_nonneg (long_bits x)). lia. }
  unfold computeUnsignedVIntSize. rewrite numberOfLeadingZeros_spec, Hor by (rewrite Hor; apply Hl).
  rewrite (proj2 Hl). unfold vint_size.
  assert (Hb : 0 <= Z.log2 (long_bits x) < 64).
  { split; [apply Z.log2_nonneg|]. destruct (Z.eq_dec (long_bits x) 0) as [->|]; [cbn; lia|].
    apply Z.log2_lt_pow2; lia. }
  set (l := Z.log2 (long_bits x)) in *. clearbody l.
  rewrite js_shr_div by (unfold is_int32; lia). change (2 ^ 6) with 64.
  Z.to_euclidean_division_equations; lia.
Qed.
End vint_write.

(** ** The bytes written *)

(** The loop leaves the [count] low bytes of its argument before index
    [i + 1], the rest of the buffer unchanged. *)
Lemma encodeVInt_loop_spec count : forall i v buffer,
  is_int32 v -> (count <= S i)%nat -> (i < length buffer)%nat ->
  encodeVInt_loop count i v buffer = take (S i - count) buffer ++ be_bytes count v ++ drop (S i) buffer.
Proof.
  induction count as [|c IH]; intros i v buffer Hv Hc Hi; cbn [encodeVInt_loop].
  { rewrite Nat.sub_0_r. symmetry. apply take_drop. }
  assert (Hv8 : is_int32 (v .>> 8)).
  { rewrite js_shr_div by (done || lia). unfold is_int32 in *. change (2 ^ 8) with 256. Z.to_euclidean_division_equations; lia. }
  assert (E255 : 255 .& v = v mod 256) by (rewrite <- js_and_ff; unfold js_and; apply Z.land_comm).
  rewrite E255. destruct c as [|c].
  { cbn [encodeVInt_loop]. replace (S i - 1)%nat with i by lia.
    rewrite <- (take_drop_middle (<[i:=v mod 256]> buffer) i (v mod 256)) by (by apply list_lookup_insert_eq).
    by rewrite take_insert_ge, drop_insert_lt by lia. }
  rewrite IH by (rewrite ?length_insert; done || lia).
  replace (S (i - 1)) with i by lia. replace (S i - S (S c))%nat with (i - S c)%nat by lia.
  rewrite take_insert_ge by lia. f_equal.
  rewrite (be_bytes_S (S c) v), <- app_assoc. rewrite js_shr_div by (done || lia). f_equal.
  rewrite (drop_S _ (v mod 256) i) by (by apply list_lookup_insert_eq).
  by rewrite drop_insert_lt by lia.
Qed.

Lemma is_int32_js x : is_int32 (to_int32 x).
Proof. apply to_int32_range. Qed.

(** The prefix: [extra] ones and a zero in front of the first byte's bits. *)
Lemma prefix_byte b extra :
  1 <= extra <= 8 -> 0 <= b < 2 ^ (8 - extra) ->
  (b .| encodeExtraBytesToRead extra) mod 256 = b + 256 - 2 ^ (8 - extra).
Proof.
  intros He Hb.
  assert (H : forallb (fun e => forallb (fun b => (b .| encodeExtraBytesToRead e) mod 256 =? b + 256 - 2 ^ (8 - e))
      (seqZ 0 (2 ^ (8 - e)))) (seqZ 1 8) = true) by (vm_compute; reflexivity).
  rewrite forallb_forall in H. specialize (H extra ltac:(apply list_elem_of_In, elem_of_seqZ; lia)).
  rewrite forallb_forall in H. by apply Z.eqb_eq, H, list_elem_of_In, elem_of_seqZ.
Qed.

Lemma prefix_byte_full b : is_int32 b -> (b .| encodeExtraBytesToRead 8) mod 256 = 255.
Proof.
  intros Hb. change (encodeExtraBytesToRead 8) with (-1). unfold js_or. rewrite (to_int32_id (-1)) by (unfold is_int32; lia).
  by rewrite Z.lor_m1_r.
Qed.

(** The encoding of an unsigned 64-bit value in [size] bytes. *)
Definition vint_bytes (n : Z) : list Z :=
  let size := Z.to_nat (vint_size n) in
  if (size =? 1)%nat then [n]
  else if (size =? 9)%nat then 255 :: be_bytes 8 n
  else (n / 256 ^ (vint_size n - 1) + 256 - 2 ^ (9 - vint_size n)) :: be_bytes (size - 1) n.

Lemma length_vint_bytes n : 0 <= n < 2 ^ 64 -> Z.of_nat (length (vint_bytes n)) = vint_size n.
Proof.
  intros Hn. destruct (vint_size_bounds n Hn) as [Hs _]. unfold vint_bytes.
  destruct (Nat.eqb_spec (Z.to_nat (vint_size n)) 1); [cbn; lia|].
  destruct (Nat.eqb_spec (Z.to_nat (vint_size n)) 9); cbn [length]; rewrite length_be_bytes; lia.
Qed.

Lemma low_word_bytes n k : (k <= 4)%nat -> be_bytes k (to_int32 n) = be_bytes k n.
Proof.
  intros Hk. apply be_bytes_mod.
  assert (D : (2 ^ (8 * Z.of_nat k) | 2 ^ 32)).
  { exists (2 ^ (32 - 8 * Z.of_nat k)). rewrite <- Z.pow_add_r by lia. f_equal. lia. }
  rewrite <- (Z.mod_mod_divide (to_int32 n) (2 ^ 32)), <- (Z.mod_mod_divide n (2 ^ 32)) by done.
  by rewrite to_int32_mod.
Qed.

(** The words of a long value, in [4 < size <= 9] bytes; the ninth byte is the
    sign of the high word. *)
Lemma two_words_bytes n k :
  0 <= n < 2 ^ 64 -> (k <= 4)%nat ->
  be_bytes k (to_int32 (n / 2 ^ 32)) ++ be_bytes 4 (to_int32 n) = be_bytes (k + 4) n.
Proof.
  intros Hn Hk. rewrite !low_word_bytes by lia. by rewrite (be_bytes_app k 4).
Qed.

Section vint_bytes.
Context `{LongLaws}.

Lemma encodeVInt_words x (size : nat) buffer :
  (2 <= size <= 9)%nat -> (9 <= length buffer)%nat ->
  let raw := be_bytes (size - 4) (to_int32 (long_bits x / 2 ^ 32)) ++
    be_bytes (Nat.min 4 size) (to_int32 (long_bits x)) ++ drop size buffer in
  encodeVInt x size buffer =
    <[0%nat := (rd raw 0 .| encodeExtraBytesToRead (Z.of_nat (size - 1))) mod 256]> raw.
Proof.
  intros Hs Hb. cbv zeta. unfold encodeVInt.
  rewrite long_getLowBits_eq, long_getHighBits_eq.
  rewrite (encodeVInt_loop_spec (Nat.min 4 size)) by (apply is_int32_js || lia).
  replace (S (size - 1)) with size by lia.
  destruct (Nat.le_gt_cases size 4).
  - replace (Nat.min 4 size) with size by lia. replace (size - size)%nat with O by lia.
    replace (size - 4)%nat with O by lia. done.
  - replace (Nat.min 4 size) with 4%nat by lia.
    rewrite encodeVInt_loop_spec.
    + replace (S (size - 1 - 4)) with (size - 4)%nat by lia. rewrite Nat.sub_diag, take_0. cbn [app].
      rewrite drop_app_length' by (rewrite length_take; lia). done.
    + apply is_int32_js.
    + lia.
    + rewrite !length_app, length_take, length_be_bytes, length_drop. lia.
Qed.

Lemma encodeVInt_spec x buffer :
  2 <= vint_size (long_bits x) -> (9 <= length buffer)%nat ->
  let size := Z.to_nat (vint_size (long_bits x)) in
  encodeVInt x size buffer = vint_bytes (long_bits x) ++ drop size buffer.
Proof.
  intros H2 Hb. cbv zeta. pose proof (long_bits_range x) as Hr.
  destruct (vint_size_bounds _ Hr) as [Hs Hsmall].
  rewrite encodeVInt_words by lia. cbv zeta. unfold vint_bytes. set (size := vint_size (long_bits x)) in *.
  destruct (Nat.eqb_spec (Z.to_nat size) 1); [lia|].
  destruct (Nat.eqb_spec (Z.to_nat size) 9) as [E9|].
  - rewrite E9. change (9 - 4)%nat with 5%nat. change (Nat.min 4 9) with 4%nat.
    rewrite (be_bytes_head 4), app_assoc. cbn [app]. rewrite two_words_bytes by (done || lia).
    cbn [rd lookup list_lookup insert list_insert app]. unfold rd. cbn [lookup list_lookup default from_option id].
    change (Z.of_nat (9 - 1)) with 8. rewrite prefix_byte_full; [done|].
    unfold is_int32. pose proof (Z.mod_pos_bound (to_int32 (long_bits x / 2 ^ 32) / 256 ^ Z.of_nat 4) 256). lia.
  - assert (Eraw : be_bytes (Z.to_nat size - 4) (to_int32 (long_bits x / 2 ^ 32)) ++
        be_bytes (Nat.min 4 (Z.to_nat size)) (to_int32 (long_bits x)) = be_bytes (Z.to_nat size) (long_bits x)).
    { destruct (Nat.le_gt_cases (Z.to_nat size) 4).
      - replace (Z.to_nat size - 4)%nat with O by lia. rewrite Nat.min_r by lia. by apply low_word_bytes.
      - rewrite Nat.min_l, two_words_bytes by (done || lia). f_equal. lia. }
    assert (Eh : be_bytes (Z.to_nat size) (long_bits x) =
      (long_bits x / 256 ^ (size - 1)) mod 256 :: be_bytes (Z.to_nat size - 1) (long_bits x)).
    { replace (Z.to_nat size) with (S (Z.to_nat size - 1)) at 1 by lia. rewrite be_bytes_head.
      by replace (Z.of_nat (Z.to_nat size - 1)) with (size - 1) by lia. }
    rewrite app_assoc, Eraw, Eh. cbn [insert list_insert app]. unfold rd.
    cbn [app lookup list_lookup default from_option id].
    replace (Z.of_nat (Z.to_nat size - 1)) with (size - 1) by lia.
    specialize (Hsmall ltac:(lia)).
    assert (Hq : 0 <= long_bits x / 256 ^ (size - 1) < 2 ^ (8 - (size - 1))).
    { assert (E256 : 256 ^ (size - 1) = 2 ^ (8 * (size - 1))) by (rewrite Z.pow_mul_r by lia; done).
      rewrite E256. assert (0 < 2 ^ (8 * (size - 1))) by (apply Z.pow_pos_nonneg; lia).
      split; [apply Z.div_pos; lia|]. apply Z.div_lt_upper_bound; [done|]. rewrite <- Z.pow_add_r by lia.
      apply Z.lt_le_trans with (1 := Hsmall). apply Z.pow_le_mono_r; lia. }
    assert (2 ^ (8 - (size - 1)) <= 256) by (change 256 with (2 ^ 8); apply Z.pow_le_mono_r; lia).
    rewrite (Z.mod_small (long_bits x / _)) by lia. rewrite prefix_byte by lia. by replace (8 - (size - 1)) with (9 - size) by lia.
Qed.

Lemma writeUnsignedVInt_spec x buffer :
  (9 <= length buffer)%nat ->
  writeUnsignedVInt x buffer =
    (vint_size (long_bits x), vint_bytes (long_bits x) ++ drop (Z.to_nat (vint_size (long_bits x))) buffer).
Proof.
  intros Hb. pose proof (long_bits_range x) as Hr. destruct (vint_size_bounds _ Hr) as [Hs Hsmall].
  unfold writeUnsignedVInt. rewrite computeUnsignedVIntSize_spec.
  destruct (Z.eqb_spec (vint_size (long_bits x)) 1) as [E|].
  - rewrite E. specialize (Hsmall ltac:(lia)). rewrite E in Hsmall. f_equal.
    unfold vint_bytes. rewrite E. cbn [Z.to_nat Pos.to_nat Pos.iter_op Nat.eqb].
    destruct buffer as [|b buffer]; [cbn in Hb; lia|]. cbn [insert list_insert drop app].
    rewrite long_getLowBits_eq. f_equal. change (Z.to_nat 1 =? 1)%nat with true. cbn iota. cbn [app]. f_equal.
    rewrite to_int32_id by (unfold is_int32; change (2 ^ (7 * 1)) with 128 in *; lia).
    apply Z.mod_small. change (2 ^ (7 * 1)) with 128 in *. lia.
  - rewrite encodeVInt_spec by lia. done.
Qed.
End vint_bytes.

(** ** Reading back *)

Lemma vint_bytes_form n :
  0 <= n < 2 ^ 64 -> 2 <= vint_size n ->
  vint_bytes n = (n / 256 ^ (vint_size n - 1) + 256 - 2 ^ (9 - vint_size n)) ::
                 be_bytes (Z.to_nat (vint_size n - 1)) n.
Proof.
  intros Hn H2. unfold vint_bytes. replace (Z.to_nat (vint_size n) - 1)%nat with (Z.to_nat (vint_size n - 1)) by lia.
  destruct (Nat.eqb_spec (Z.to_nat (vint_size n)) 1); [lia|].
  destruct (Nat.eqb_spec (Z.to_nat (vint_size n)) 9); [|done].
  replace (vint_size n) with 9 by lia. cbn [Z.sub Z.add Z.opp Z.pos_sub].
  change (2 ^ (9 + -9)) with 1. rewrite Z.div_small by (change (256 ^ (9 - 1)) with (2 ^ 64); lia). done.
Qed.

Lemma high_bit_clear b : 0 <= b < 256 -> ((b .& 128) =? 0) = (b <? 128).
Proof.
  intros Hb. assert (H : forallb (fun b => Bool.eqb ((b .& 128) =? 0) (b <? 128)) (seqZ 0 256) = true)
    by (vm_compute; reflexivity).
  rewrite forallb_forall in H. apply eqb_prop, H, list_elem_of_In, elem_of_seqZ. lia.
Qed.

Lemma first_byte_read q extra :
  1 <= extra <= 8 -> 0 <= q < Z.max 1 (2 ^ (7 - extra)) ->
  let f := q + 256 - 2 ^ (8 - extra) in
  ((f .& 128) =? 0) = false /\ numberOfExtraBytesToRead (fromSignedByteToInt f) = extra /\
  (fromSignedByteToInt f .& firstByteValueMask extra) = q.
Proof.
  intros He Hq. cbv zeta.
  assert (H : forallb (fun e => forallb (fun q => let f := q + 256 - 2 ^ (8 - e) in
      negb ((f .& 128) =? 0) && (numberOfExtraBytesToRead (fromSignedByteToInt f) =? e) &&
      ((fromSignedByteToInt f .& firstByteValueMask e) =? q))
      (seqZ 0 (Z.max 1 (2 ^ (7 - e))))) (seqZ 1 8) = true) by (vm_compute; reflexivity).
  rewrite forallb_forall in H. specialize (H extra ltac:(apply list_elem_of_In, elem_of_seqZ; lia)).
  rewrite forallb_forall in H. specialize (H q ltac:(apply list_elem_of_In, elem_of_seqZ; lia)).
  cbv zeta in H. apply andb_prop in H as [[H1 H2]%andb_prop H3].
  split; [by apply negb_true_iff in H1|]. split; by apply Z.eqb_eq.
Qed.

Lemma foldl_map {A B C} (f : A -> B -> A) (g : C -> B) l : forall a,
  foldl f a (map g l) = foldl (fun a c => f a (g c)) a l.
Proof. induction l as [|c l IH]; intros a; cbn; [done|apply IH]. Qed.

Lemma map_rd_slice l pre bytes post :
  l = pre ++ bytes ++ post -> map (fun i => rd l (length pre + i)) (seq 0 (length bytes)) = bytes.
Proof.
  intros ->. apply list_eq. intros i. rewrite list_lookup_fmap.
  destruct (Nat.lt_ge_cases i (length bytes)) as [Hi|Hi].
  - rewrite lookup_seq_lt by done. cbn. unfold rd.
    rewrite lookup_app_r, lookup_app_l by lia. replace (length pre + i - length pre)%nat with i by lia.
    by destruct (lookup_lt_is_Some_2 bytes i Hi) as [b ->].
  - rewrite lookup_seq_ge by done. by rewrite lookup_ge_None_2.
Qed.

Section vint_read.
Context `{LongLaws}.

Lemma Long_fromInt_bits z : 0 <= z < 2 ^ 31 -> long_bits (Long_fromInt z) = z /\ long_unsigned (Long_fromInt z) = false.
Proof.
  intros Hz. destruct (long_fromInt_val z ltac:(unfold is_int32; lia)) as [V U].
  split; [|done]. rewrite <- long_val_bits, V. apply Z.mod_small. lia.
Qed.

Lemma read_loop_spec bytes : forall r,
  bytes_ok bytes -> long_unsigned r = false ->
  let x := foldl (fun r b => Long_or (Long_shiftLeft r 8) (Long_fromInt b)) r bytes in
  long_bits x = (long_bits r * 256 ^ Z.of_nat (length bytes) + be_val 256 bytes) mod 2 ^ 64 /\ long_unsigned x = false.
Proof.
  induction bytes as [|b l IH]; intros r Hb Hr; cbv zeta.
  { cbn [foldl length]. change (256 ^ Z.of_nat 0) with 1. change (be_val 256 []) with 0.
    rewrite Z.mul_1_r, Z.add_0_r, Z.mod_small by apply long_bits_range. done. }
  apply Forall_cons in Hb as [Hb Hl]. cbn [foldl].
  destruct (long_shiftLeft_bits r 8 ltac:(lia)) as [Bs Us].
  destruct (Long_fromInt_bits b ltac:(lia)) as [Bb Ub].
  destruct (long_or_bits (Long_shiftLeft r 8) (Long_fromInt b)) as [Bo Uo].
  rewrite Us, Hr in Uo. destruct (IH _ Hl Uo) as [B U]. cbv zeta in *. split; [|done].
  rewrite B, Bo, Bs, Bb. change (2 ^ 64) with (2 ^ 56 * 2 ^ 8) at 1. rewrite Z.mul_mod_distr_r by lia.
  rewrite lor_add_disjoint by lia. change (2 ^ 56 * 2 ^ 8) with (2 ^ 64).
  rewrite be_val_cons. cbn [length]. rewrite Nat2Z.inj_succ, Z.pow_succ_r by lia.
  assert (E : long_bits r mod 2 ^ 56 * 2 ^ 8 = long_bits r * 2 ^ 8 + 2 ^ 64 * - (long_bits r / 2 ^ 56)).
  { rewrite Zmod_eq_full by lia. change (2 ^ 64) with (2 ^ 56 * 2 ^ 8). ring. }
  rewrite E. rewrite <- (Z.mod_add _ (- (long_bits r / 2 ^ 56) * 256 ^ Z.of_nat (length l))) by lia.
  rewrite <- (Z.mod_add (_ + _) (long_bits r / 2 ^ 56 * 256 ^ Z.of_nat (length l))) by lia.
  rewrite <- (Z.mod_add (long_bits r * (256 * _) + _) (- (long_bits r / 2 ^ 56) * 256 ^ Z.of_nat (length l))) by lia.
  f_equal. ring.
Qed.

Lemma readUnsignedVInt_spec n pre post :
  0 <= n < 2 ^ 64 ->
  exists x, readUnsignedVInt (pre ++ vint_bytes n ++ post) (length pre)
      = (x, (length pre + length (vint_bytes n))%nat) /\ long_bits x = n /\ long_unsigned x = false.
Proof.
  intros Hn. destruct (vint_size_bounds n Hn) as [Hs Hsmall]. unfold readUnsignedVInt.
  assert (Hrd : forall b l, vint_bytes n = b :: l -> rd (pre ++ vint_bytes n ++ post) (length pre) = b).
  { intros b l ->. unfold rd. rewrite lookup_app_r, Nat.sub_diag by lia. done. }
  destruct (Z.eq_dec (vint_size n) 1) as [E1|].
  - assert (Ev : vint_bytes n = [n]) by (unfold vint_bytes; by rewrite E1).
    rewrite (Hrd _ _ Ev). specialize (Hsmall ltac:(lia)). rewrite E1 in Hsmall. change (2 ^ (7 * 1)) with 128 in Hsmall.
    rewrite high_bit_clear by lia. destruct (Z.ltb_spec n 128); [|lia].
    exists (Long_fromInt n). rewrite Ev. cbn [length]. split; [f_equal; lia|]. apply Long_fromInt_bits. lia.
  - pose proof (vint_bytes_form n Hn ltac:(lia)) as Ev. rewrite (Hrd _ _ Ev).
    set (e := vint_size n - 1) in *. replace (9 - vint_size n) with (8 - e) in * by lia.
    assert (E256 : 256 ^ e = 2 ^ (8 * e)) by (rewrite Z.pow_mul_r by lia; done).
    assert (P : 0 < 2 ^ (8 * e)) by (apply Z.pow_pos_nonneg; lia).
    assert (Hq : 0 <= n / 256 ^ e < Z.max 1 (2 ^ (7 - e))).
    { rewrite E256. split; [apply Z.div_pos; lia|]. destruct (Z.eq_dec e 8) as [-> |].
      - rewrite Z.div_small by (change (2 ^ (8 * 8)) with (2 ^ 64); lia). lia.
      - specialize (Hsmall ltac:(lia)). apply Z.lt_le_trans with (2 ^ (7 - e)); [|lia].
        apply Z.div_lt_upper_bound; [done|]. rewrite <- Z.pow_add_r by lia.
        replace (8 * e + (7 - e)) with (7 * vint_size n) by lia. done. }
    destruct (first_byte_read _ e ltac:(lia) Hq) as (F1 & F2 & F3).
    rewrite F1, F2, Z2Nat.id, F3 by lia.
    set (bytes := be_bytes (Z.to_nat e) n) in *.
    assert (Hlen : length bytes = Z.to_nat e) by apply length_be_bytes.
    set (f := n / 256 ^ e + 256 - 2 ^ (8 - e)) in *.
    pose proof (map_rd_slice (pre ++ vint_bytes n ++ post) (pre ++ [f]) bytes post) as Hmap.
    rewrite length_app in Hmap. cbn [length] in Hmap. rewrite Nat.add_1_r in Hmap.
    rewrite <- (foldl_map (fun r b => Long_or (Long_shiftLeft r 8) (Long_fromInt b))
      (fun ii => rd (pre ++ vint_bytes n ++ post) (S (length pre) + ii))).
    rewrite <- Hlen, Hmap by (by rewrite Ev, <- !app_assoc).
    destruct (Long_fromInt_bits (n / 256 ^ e)) as [B0 U0].
    { split; [lia|]. apply Z.lt_le_trans with (1 := proj2 Hq). pose proof (Z.pow_le_mono_r 2 (7 - e) 7). lia. }
    destruct (read_loop_spec bytes _ (be_bytes_ok _ _) U0) as [B U]. cbv zeta in *.
    eexists. split; [rewrite Ev; cbn [length]; f_equal; lia|]. split; [|exact U].
    rewrite B, B0, Hlen. unfold bytes. rewrite be_val_be_bytes, !Z2Nat.id, <- E256 by lia.
    rewrite Z.mul_comm, <- Z.div_mod by lia. by apply Z.mod_small.
Qed.

(** ** Zig-zag *)

Definition zigzag (v : Z) : Z := if v <? 0 then - 2 * v - 1 else 2 * v.

Lemma lxor_ones64 a : 0 <= a < 2 ^ 64 -> Z.lxor a (2 ^ 64 - 1) = 2 ^ 64 - 1 - a.
Proof.
  intros Ha. assert (E : 2 ^ 64 - 1 - a = Z.lnot a mod 2 ^ 64).
  { unfold Z.lnot. apply Z.mod_unique_pos with (-1); lia. }
  rewrite E. apply Z.bits_inj'. intros i Hi. rewrite Z.lxor_spec, Z.testbit_mod_pow2, Z.lnot_spec by lia.
  change (2 ^ 64 - 1) with (Z.ones 64). rewrite Z.testbit_ones_nonneg by lia.
  destruct (Z.ltb_spec i 64); cbn [andb]; [by destruct (Z.testbit a i)|].
  rewrite xorb_false_r. rewrite <- (Z.mod_small a (2 ^ 64)), Z.mod_pow2_bits_high by lia. done.
Qed.

Lemma encodeZigZag64_spec x :
  long_unsigned x = false -> long_bits (encodeZigZag64 x) = zigzag (long_val x).
Proof.
  intros Hu. pose proof (long_bits_range x) as Hr. rewrite long_val_signed by done. unfold encodeZigZag64.
  destruct (long_shiftLeft_bits (Long_toUnsigned x) 1 ltac:(lia)) as [Bl _].
  destruct (long_shiftRight_bits x 63 ltac:(lia)) as [Br _]. rewrite long_toUnsigned_bits in Bl.
  rewrite (proj1 (long_xor_bits _ _)), Bl, Br. unfold signed64, zigzag. change (2 ^ 1) with 2.
  destruct (Z.ltb_spec (long_bits x) (2 ^ 63)).
  - rewrite (Z.div_small (long_bits x)), Z.mod_small, Z.lxor_0_r by lia.
    destruct (Z.ltb_spec (long_bits x) 0); lia.
  - assert ((long_bits x - 2 ^ 64) / 2 ^ 63 = -1) as ->.
    { symmetry. apply Z.div_unique_pos with (long_bits x - 2 ^ 63); lia. }
    change (-1 mod 2 ^ 64) with (2 ^ 64 - 1).
    assert ((long_bits x * 2) mod 2 ^ 64 = long_bits x * 2 - 2 ^ 64) as ->.
    { symmetry. apply Z.mod_unique_pos with 1; lia. }
    rewrite lxor_ones64 by lia. destruct (Z.ltb_spec (long_bits x - 2 ^ 64) 0); lia.
Qed.

Lemma decodeZigZag64_spec x v :
  is_int64 v -> long_unsigned x = false -> long_bits x = zigzag v ->
  long_val (decodeZigZag64 x) = v /\ long_unsigned (decodeZigZag64 x) = false.
Proof.
  intros Hv Hu Hb. unfold is_int64 in Hv. unfold decodeZigZag64.
  destruct (long_shiftRightUnsigned_bits x 1 ltac:(lia)) as [Bs Us].
  destruct Long_ONE_bits as [B1 _]. destruct (long_and_bits x Long_ONE) as [Ba _].
  destruct (long_negate_bits (Long_and x Long_ONE)) as [Bn _].
  destruct (long_xor_bits (Long_shiftRightUnsigned x 1) (Long_negate (Long_and x Long_ONE))) as [Bx Ux].
  rewrite Us, Hu in Ux. split; [|done]. apply long_val_of_bits; [done| |done].
  rewrite Bx, Bs, Bn, Ba, B1, Hb. change 1 with (Z.ones 1) at 2. rewrite Z.land_ones by lia. change (2 ^ 1) with 2.
  unfold zigzag. destruct (Z.ltb_spec v 0).
  - assert ((-2 * v - 1) / 2 = - v - 1) as -> by (symmetry; apply Z.div_unique_pos with 1; lia).
    assert ((-2 * v - 1) mod 2 = 1) as -> by (symmetry; apply Z.mod_unique_pos with (- v - 1); lia).
    change (- (1) mod 2 ^ 64) with (2 ^ 64 - 1). rewrite lxor_ones64 by lia.
    apply Z.mod_unique_pos with (-1); lia.
  - assert (2 * v / 2 = v) as -> by (symmetry; apply Z.div_unique_pos with 0; lia).
    assert ((2 * v) mod 2 = 0) as -> by (symmetry; apply Z.mod_unique_pos with v; lia).
    change (- 0 mod 2 ^ 64) with 0. rewrite Z.lxor_0_r, Z.mod_small by lia. done.
Qed.

Lemma zigzag_range v : is_int64 v -> 0 <= zigzag v < 2 ^ 64.
Proof. unfold is_int64, zigzag. intros Hv. destruct (Z.ltb_spec v 0); lia. Qed.

(** What [writeVInt] writes for [x], and its reading at any offset. *)
Lemma writeVInt_spec x buffer :
  long_unsigned x = false -> (9 <= length buffer)%nat ->
  let bytes := vint_bytes (zigzag (long_val x)) in
  writeVInt x buffer = (Z.of_nat (length bytes), bytes ++ drop (length bytes) buffer) /\
  (1 <= length bytes <= 9)%nat.
Proof.
  intros Hu Hb. cbv zeta. pose proof (long_val_range x Hu) as Hv. pose proof (zigzag_range _ Hv) as Hz.
  unfold writeVInt. rewrite writeUnsignedVInt_spec, encodeZigZag64_spec by done.
  pose proof (length_vint_bytes _ Hz) as Hl. destruct (vint_size_bounds _ Hz) as [Hs _].
  split; [|lia]. rewrite <- Hl. by rewrite Nat2Z.id.
Qed.

Lemma readVInt_spec v pre post :
  is_int64 v ->
  exists x, readVInt (pre ++ vint_bytes (zigzag v) ++ post) (length pre)
      = (x, (length pre + length (vint_bytes (zigzag v)))%nat) /\ long_val x = v /\ long_unsigned x = false.
Proof.
  intros Hv. destruct (readUnsignedVInt_spec (zigzag v) pre post (zigzag_range v Hv)) as (x & E & B & U).
  unfold readVInt. rewrite E. destruct (decodeZigZag64_spec x v Hv U B) as [V U'].
  exists (decodeZigZag64 x). done.
Qed.
End vint_read.

(** ** [uvintPack] and [uvintUnpack] *)

(** [e] extra bytes behind a first byte that holds the high bits. *)
Definition uvint_bytes (val e : Z) : list Z :=
  (val / 256 ^ e + (256 - 2 ^ (8 - e))) :: be_bytes (Z.to_nat e) val.

Lemma prefix_or v e :
  1 <= e <= 4 -> 0 <= v < 2 ^ (7 - e) ->
  (v .| ((255 .>> (8 - e)) .<< (8 - e))) = v + (256 - 2 ^ (8 - e)).
Proof.
  intros He Hv.
  assert (H : forallb (fun e => forallb (fun v => (v .| ((255 .>> (8 - e)) .<< (8 - e))) =? v + (256 - 2 ^ (8 - e)))
    (seqZ 0 (2 ^ (7 - e)))) (seqZ 1 4) = true) by (vm_compute; reflexivity).
  rewrite forallb_forall in H. specialize (H e ltac:(apply list_elem_of_In, elem_of_seqZ; lia)).
  rewrite forallb_forall in H. by apply Z.eqb_eq, H, list_elem_of_In, elem_of_seqZ.
Qed.

(** The state of the loop after [e] iterations. *)
Definition uvint_state (val e : Z) : Z * Z * Z * Z * list Z :=
  (val / 256 ^ e, e, bit_length val - 8 * e, e + 1, le_bytes (Z.to_nat e) val).

Lemma uvintPack_step_more val e :
  0 <= val < 2 ^ 31 -> 0 <= e < 4 -> 7 * (e + 1) < bit_length val ->
  uvintPack_step (uvint_state val e) = inl (uvint_state val (e + 1)).
Proof.
  intros Hv He Hb. unfold uvintPack_step, uvint_state.
  destruct (Z.ltb_spec (8 - (e + 1)) (bit_length val - 8 * e)); [|lia].
  assert (P : 0 < 256 ^ e) by (apply Z.pow_pos_nonneg; lia).
  assert (Hq : is_int32 (val / 256 ^ e)).
  { unfold is_int32. split; [pose proof (Z.div_pos val (256 ^ e)); lia|]. apply Z.div_lt_upper_bound; nia. }
  rewrite js_shr_div, js_and_ff by (done || lia).
  rewrite Z.div_div, Z.min_l by lia. replace (256 ^ e * 2 ^ 8) with (256 ^ (e + 1)) by (rewrite Z.pow_add_r by lia; done).
  replace (bit_length val - 8 * e - 8) with (bit_length val - 8 * (e + 1)) by lia.
  replace (Z.to_nat (e + 1)) with (Z.to_nat e + 1)%nat by lia. rewrite le_bytes_app.
  by rewrite Z2Nat.id by lia.
Qed.

Lemma uvintPack_step_done val e :
  0 <= e -> bit_length val <= 7 * (e + 1) ->
  uvintPack_step (uvint_state val e) = inr (val / 256 ^ e, e, le_bytes (Z.to_nat e) val).
Proof.
  intros He Hb. unfold uvintPack_step, uvint_state.
  destruct (Z.ltb_spec (8 - (e + 1)) (bit_length val - 8 * e)); [lia|done].
Qed.

(** The number of extra bytes: seven more bits fit with each. *)
Definition uvint_extra (val : Z) : Z := (bit_length val - 1) / 7.

Lemma uvint_extra_bounds val :
  128 <= val < 2 ^ 31 -> 1 <= uvint_extra val <= 4 /\ 0 <= val / 256 ^ uvint_extra val < 2 ^ (7 - uvint_extra val).
Proof.
  intros Hv. unfold uvint_extra, bit_length. destruct (Z.eqb_spec val 0); [lia|].
  pose proof (Z.log2_spec val ltac:(lia)) as Hl.
  assert (7 <= Z.log2 val <= 30).
  { split; [apply Z.log2_le_pow2; lia|]. assert (Z.log2 val < 31) by (apply Z.log2_lt_pow2; lia). lia. }
  replace (Z.log2 val + 1 - 1) with (Z.log2 val) by lia. set (e := Z.log2 val / 7).
  assert (He : 1 <= e <= 4 /\ Z.succ (Z.log2 val) <= 7 * e + 7) by (unfold e; Z.to_euclidean_division_equations; lia).
  clearbody e. split; [lia|].
  assert (P : 0 < 2 ^ (8 * e)) by (apply Z.pow_pos_nonneg; lia).
  assert (E256 : 256 ^ e = 2 ^ (8 * e)) by (rewrite Z.pow_mul_r by lia; done). rewrite E256.
  split; [apply Z.div_pos; lia|]. apply Z.div_lt_upper_bound; [done|]. rewrite <- Z.pow_add_r by lia.
  apply Z.lt_le_trans with (1 := proj2 Hl). apply Z.pow_le_mono_r; lia.
Qed.

Lemma uvintPack_loop val :
  128 <= val < 2 ^ 31 ->
  let e := uvint_extra val in
  js_while (Z.to_pos (bit_length val)) uvintPack_step (val, 0, bit_length val, 1, [])
    = inr (val / 256 ^ e, e, le_bytes (Z.to_nat e) val).
Proof.
  intros Hv. cbv zeta. destruct (uvint_extra_bounds val Hv) as [He _].
  assert (Hbl : 7 * uvint_extra val < bit_length val <= 7 * (uvint_extra val + 1)).
  { unfold uvint_extra. Z.to_euclidean_division_equations; lia. }
  destruct (js_while_total uvintPack_step
    (fun s => exists e, 0 <= e <= uvint_extra val /\ s = uvint_state val e)
    (fun r => r = (val / 256 ^ uvint_extra val, uvint_extra val, le_bytes (Z.to_nat (uvint_extra val)) val))
    (fun '(_, e, _, _, _) => uvint_extra val - e)
    (Z.to_pos (bit_length val)) (val, 0, bit_length val, 1, [])) as (r & -> & ->).
  - intros s (e & H1 & ->). destruct (Z.eq_dec e (uvint_extra val)) as [->|].
    + rewrite uvintPack_step_done by lia. done.
    + rewrite uvintPack_step_more by lia. split; [exists (e + 1); split; [lia|done]|]. cbn. lia.
  - exists 0. split; [lia|]. unfold uvint_state. rewrite Z.div_1_r, Z.sub_0_r. done.
  - cbn. lia.
  - done.
Qed.

Lemma uvintPack_spec val :
  128 <= val < 2 ^ 31 -> uvintPack val = Ok (uvint_bytes val (uvint_extra val)).
Proof.
  intros Hv. unfold uvintPack. destruct (Z.ltb_spec val 128); [lia|].
  rewrite uvintPack_loop by done. destruct (uvint_extra_bounds val Hv) as [He Hq].
  destruct (Z.ltb_spec 8 (uvint_extra val)); [lia|].
  rewrite prefix_or by lia. rewrite rev_app_distr. cbn [rev app map].
  assert (2 ^ (7 - uvint_extra val) * 2 = 2 ^ (8 - uvint_extra val)).
  { rewrite Z.mul_comm, <- Z.pow_succ_r by lia. f_equal. lia. }
  assert (0 < 2 ^ (7 - uvint_extra val)) by (apply Z.pow_pos_nonneg; lia).
  assert (2 ^ (8 - uvint_extra val) <= 2 ^ 7) by (apply Z.pow_le_mono_r; lia).
  rewrite Z.abs_eq, Z.mod_small by lia. unfold uvint_bytes. do 2 f_equal.
  change (rev _) with (be_bytes (Z.to_nat (uvint_extra val)) val).
  rewrite (map_ext_in _ (fun z => z)); [apply map_id|].
  intros b Hb. apply Z.mod_small.
  pose proof (be_bytes_ok (Z.to_nat (uvint_extra val)) val) as Hok. unfold bytes_ok, digits_in in Hok.
  rewrite Forall_forall in Hok. by apply Hok, list_elem_of_In.
Qed.

Lemma uvint_first_byte q e :
  1 <= e <= 4 -> 0 <= q < 2 ^ (7 - e) ->
  let f := q + (256 - 2 ^ (8 - e)) in
  ((f .& 128) =? 0) = false /\ 8 - bit_length ((.~ f) .& 255) = e /\ (f .& (255 .>> e)) = q.
Proof.
  intros He Hq. cbv zeta.
  assert (H : forallb (fun e => forallb (fun q => let f := q + (256 - 2 ^ (8 - e)) in
      negb ((f .& 128) =? 0) && (8 - bit_length ((.~ f) .& 255) =? e) && ((f .& (255 .>> e)) =? q))
      (seqZ 0 (2 ^ (7 - e)))) (seqZ 1 4) = true) by (vm_compute; reflexivity).
  rewrite forallb_forall in H. specialize (H e ltac:(apply list_elem_of_In, elem_of_seqZ; lia)).
  rewrite forallb_forall in H. specialize (H q ltac:(apply list_elem_of_In, elem_of_seqZ; lia)).
  cbv zeta in H. apply andb_prop in H as [[H1 H2]%andb_prop H3].
  split; [by apply negb_true_iff in H1|]. split; by apply Z.eqb_eq.
Qed.

Lemma uvint_read_loop bytes : forall rv,
  bytes_ok bytes -> 0 <= rv -> rv * 256 ^ Z.of_nat (length bytes) + be_val 256 bytes < 2 ^ 31 ->
  foldl (fun rv b => (rv .<< 8) .| (b .& 255)) rv bytes = rv * 256 ^ Z.of_nat (length bytes) + be_val 256 bytes.
Proof.
  induction bytes as [|b l IH]; intros rv Hb Hrv Hlt.
  { cbn. change (be_val 256 []) with 0. lia. }
  apply Forall_cons in Hb as [Hb Hl]. cbn [foldl]. cbn [length] in *.
  rewrite be_val_cons, Nat2Z.inj_succ, Z.pow_succ_r in * by lia.
  pose proof (be_val_bound 256 l ltac:(lia) Hl). set (P := 256 ^ Z.of_nat (length l)) in *.
  assert (0 < P) by lia.
  assert (E : (rv .<< 8) .| (b .& 255) = rv * 256 + b).
  { rewrite js_and_ff, Z.mod_small, js_shl_mul by lia. unfold js_or. change (2 ^ 8) with 256.
    assert (is_int32 (rv * 256 + b)) by (unfold is_int32; nia).
    rewrite !to_int32_id by (unfold is_int32 in *; try apply to_int32_range; lia).
    apply (lor_add_disjoint rv b 8); lia. }
  rewrite E, IH by (done || nia). ring.
Qed.

Lemma uvintUnpack_spec val rest :
  128 <= val < 2 ^ 31 ->
  uvintUnpack (uvint_bytes val (uvint_extra val) ++ rest) = (val, uvint_extra val + 1).
Proof.
  intros Hv. destruct (uvint_extra_bounds val Hv) as [He Hq]. unfold uvintUnpack, uvint_bytes.
  set (e := uvint_extra val) in *. set (f := val / 256 ^ e + (256 - 2 ^ (8 - e))).
  change (rd ((f :: be_bytes (Z.to_nat e) val) ++ rest) 0) with f.
  destruct (uvint_first_byte _ e He Hq) as (F1 & F2 & F3). fold f in F1, F2, F3.
  rewrite F1, F2, F3. f_equal.
  rewrite <- (foldl_map (fun rv b => (rv .<< 8) .| (b .& 255)) (fun idx => rd ((f :: be_bytes (Z.to_nat e) val) ++ rest) idx)).
  set (bytes := be_bytes (Z.to_nat e) val). assert (Hlen : length bytes = Z.to_nat e) by apply length_be_bytes.
  assert (Hm : map (fun idx => rd ((f :: bytes) ++ rest) idx) (seq 1 (Z.to_nat e)) = bytes).
  { rewrite <- seq_shift, map_map, <- Hlen. apply (map_rd_slice ((f :: bytes) ++ rest) [f] bytes rest). done. }
  rewrite Hm.
  assert (Ev : val / 256 ^ e * 256 ^ Z.of_nat (length bytes) + be_val 256 bytes = val).
  { rewrite Hlen, Z2Nat.id by lia. unfold bytes. rewrite be_val_be_bytes, Z2Nat.id by lia.
    rewrite (Z.pow_mul_r 2 8 e) by lia. change (2 ^ 8) with 256.
    rewrite Z.mul_comm. symmetry. apply Z.div_mod. apply Z.pow_nonzero; lia. }
  rewrite uvint_read_loop; [exact Ev|apply be_bytes_ok|lia|rewrite Ev; lia].
Qed.

(** ** The guarantees *)

(** C37: a signed Long written into a buffer (whatever it held before) and
    read back at any offset, with any bytes around it, gives the same value;
    the reported length is what the reader consumes and at most nine; and the
    code is the shortest: with [8] bytes or fewer, seven bits of the zig-zag
    value per byte suffice. *)
Theorem VInt_roundtrip `{LongLaws} (x : Long) (buffer pre post : list Z)
  (Hx : long_unsigned x = false) (Hb : (9 <= length buffer)%nat) :
  exists size buffer' x',
    writeVInt x buffer = (Z.of_nat size, buffer') /\ (1 <= size <= 9)%nat /\
    Z.of_nat size = vint_size (zigzag (long_val x)) /\
    readVInt (pre ++ take size buffer' ++ post) (length pre) = (x', (length pre + size)%nat) /\
    long_val x' = long_val x /\ long_unsigned x' = false.
Proof.
  destruct (writeVInt_spec x buffer Hx Hb) as [Ew Hl]. cbv zeta in *.
  pose proof (long_val_range x Hx) as Hr.
  destruct (readVInt_spec (long_val x) pre post Hr) as (x' & Er & V & U).
  eexists _, _, x'. split; [exact Ew|]. split; [done|].
  split; [by apply length_vint_bytes, zigzag_range|]. rewrite take_app_length. done.
Qed.

Lemma VInt_roundtrip_witness :
  exists size buffer' x',
    writeVInt (Long_fromInt (-12345)) (replicate 9 7) = (Z.of_nat size, buffer') /\ (1 <= size <= 9)%nat /\
    Z.of_nat size = vint_size (zigzag (long_val (Long_fromInt (-12345)))) /\
    readVInt ([1; 2] ++ take size buffer' ++ [3]) 2 = (x', (2 + size)%nat) /\
    long_val x' = long_val (Long_fromInt (-12345)) /\ long_unsigned x' = false.
Proof.
  refine (VInt_roundtrip (Long_fromInt (-12345)) (replicate 9 7) [1; 2] [3] _ _); [reflexivity|].
  cbn. lia.
Defined.

(** an element length packed by [uvintPack] and unpacked from the front
    of a longer buffer comes back together with the number of bytes to skip,
    for every length below [2^31]. *)
Theorem uvint_roundtrip (val : Z) (rest : list Z) (Hv : 0 <= val < 2 ^ 31) :
  exists bytes, uvintPack val = Ok bytes /\ bytes_ok bytes /\
    uvintUnpack (bytes ++ rest) = (val, Z.of_nat (length bytes)).
Proof.
  destruct (Z.lt_ge_cases val 128).
  - exists [val]. unfold uvintPack. destruct (Z.ltb_spec val 128); [|lia]. rewrite Z.mod_small by lia.
    split; [done|]. split; [apply Forall_cons; split; [lia|constructor]|].
    unfold uvintUnpack. change (rd ([val] ++ rest) 0) with val. rewrite high_bit_clear by lia.
    by destruct (Z.ltb_spec val 128); [|lia].
  - exists (uvint_bytes val (uvint_extra val)). destruct (uvint_extra_bounds val ltac:(lia)) as [He Hq].
    split; [apply uvintPack_spec; lia|]. split.
    + apply Forall_cons. split; [|apply be_bytes_ok].
      assert (2 ^ (7 - uvint_extra val) * 2 = 2 ^ (8 - uvint_extra val)).
      { rewrite Z.mul_comm, <- Z.pow_succ_r by lia. f_equal. lia. }
      assert (2 ^ (8 - uvint_extra val) <= 2 ^ 7) by (apply Z.pow_le_mono_r; lia). lia.
    + rewrite uvintUnpack_spec by lia. unfold uvint_bytes. cbn [length]. rewrite length_be_bytes. f_equal. lia.
Qed.

Lemma uvint_roundtrip_witness :
  exists bytes, uvintPack 70000 = Ok bytes /\ bytes_ok bytes /\
    uvintUnpack (bytes ++ [9; 9]) = (70000, Z.of_nat (length bytes)).
Proof. refine (uvint_roundtrip 70000 [9; 9] _). lia. Defined.

(** from [2^31] on the 32-bit [>>] turns the value negative and the
    length comes back wrong. *)
Theorem uvintPack_2_31 :
  uvintPack (2 ^ 31) = Ok [1; 128; 0; 0; 0] /\ uvintUnpack [1; 128; 0; 0; 0] = (1, 1).
Proof. split; vm_compute; reflexivity. Qed.
