(* ===== verification/NewUtils.v ===== *)
(** [lib/new-utils.js]: conversions between BigInt and Long, and the mapping
    of native error messages to JavaScript errors; [bigint_to_i64] of
    [src/utils/mod.rs] on the native side. *)
From S2P Require Import Prelude.
From S2P Require Import JsNum.
From S2P Require Import JsStr.
From S2P Require Import LongLib.

(** A BigInt is a [Z]; its [%] and [/] truncate. *)
Definition maxInt : Z := 4294967296.

Section interop.
Context `{LongLib}.

(** [Number(lo)] and [Number(hi)] are exact for an int64; [Long.fromValue]
    of an object takes its two halves. *)
Definition bigintToLong (from : Z) : Long :=
  let lo := Z.rem from maxInt in
  let hi := Z.quot from maxInt in
  let hi := if lo <? 0 then hi + -1 else hi in
  Long_fromBits lo hi false.

Definition longToBigint (from : Long) : Z :=
  let lo := Long_getLowBits from in
  let hi := Long_getHighBits from in
  let r := lo + maxInt * hi in
  if lo <? 0 then r + maxInt else r.
End interop.

(** [bigint_to_i64] *)
Definition bigint_to_i64 (value : Z) : result Z :=
  if (- 2 ^ 63 <=? value) && (value <? 2 ^ 63) then Ok value else Throw PlainError.

(** ** Errors that cross the native boundary *)

(** A JavaScript error: the class name and the message. *)
Record js_exception := mkException { ex_class : jsstr; ex_message : jsstr }.

(** The keys of [errorTypeMap]. *)
Definition errorTypeMap : list jsstr :=
  map str ["ArgumentError"; "AuthenticationError"; "BusyConnectionError"; "DriverError";
           "OperationTimedOutError"; "DriverInternalError"; "NoHostAvailableError";
           "NotSupportedError"; "ResponseError";
           "Error"; "RangeError"; "ReferenceError"; "SyntaxError"; "TypeError"]%string.

(** The catch block of [napiErrorHandler]. *)
Definition napi_map_error (error : js_exception) : js_exception :=
  match split_on "#"%char (ex_message error) with
  | [] => error
  | errorType :: messageParts =>
      if bool_decide (errorType ∈ errorTypeMap)
      then mkException errorType (join (str "#") messageParts)
      else error
  end.

(** [napiErrorHandler(fn)] applied to arguments: [fn] either returns or throws. *)
Definition napiErrorHandler {A B} (fn : A -> B + js_exception) (args : A) : B + js_exception :=
  match fn args with
  | inl r => inl r
  | inr error => inr (napi_map_error error)
  end.

(** ** Facts *)

Lemma bigint_to_i64_ok v r : bigint_to_i64 v = Ok r <-> r = v /\ is_int64 v.
Proof.
  unfold bigint_to_i64, is_int64.
  destruct (Z.leb_spec (- 2 ^ 63) v), (Z.ltb_spec v (2 ^ 63)); cbn [andb];
    (split; [intros [=]; subst; lia || done | intros [-> E]; done || lia]).
Qed.

Section interop_facts.
Context `{LongLaws}.

Lemma bigintToLong_spec z :
  is_int64 z -> long_val (bigintToLong z) = z /\ long_unsigned (bigintToLong z) = false.
Proof.
  intros Hz. unfold bigintToLong. split; [|apply long_fromBits_unsigned].
  apply long_val_of_bits; [apply long_fromBits_unsigned| |done].
  rewrite long_fromBits_bits. unfold to_uint32, maxInt, is_int64 in *. change (2 ^ 32) with 4294967296 in *.
  change (2 ^ 64) with (4294967296 * 4294967296).
  pose proof (Z.quot_rem' z 4294967296). pose proof (Z.rem_bound_abs z 4294967296 ltac:(lia)).
  rewrite Z.rem_mul_r by lia.
  assert (Hm : Z.rem z 4294967296 mod 4294967296 = z mod 4294967296).
  { rewrite H1 at 2. rewrite Z.add_comm, Z.mul_comm, Z.mod_add by lia. done. }
  rewrite Hm. do 3 f_equal.
  destruct (Z.ltb_spec (Z.rem z 4294967296) 0).
  - apply Z.div_unique_pos with (Z.rem z 4294967296 + 4294967296); lia.
  - apply Z.div_unique_pos with (Z.rem z 4294967296); [|lia].
    lia.
Qed.

Lemma longToBigint_spec x : long_unsigned x = false -> longToBigint x = long_val x.
Proof.
  intros Hu. rewrite long_val_signed by done. unfold longToBigint, maxInt.
  rewrite long_getLowBits_eq, long_getHighBits_eq. pose proof (long_bits_range x) as Hr.
  unfold signed64, to_int32. rewrite (Z.mod_small (long_bits x / 2 ^ 32)) by (Z.to_euclidean_division_equations; lia).
  pose proof (Z.div_mod (long_bits x) (2 ^ 32) ltac:(lia)). pose proof (Z.mod_pos_bound (long_bits x) (2 ^ 32) ltac:(lia)).
  destruct (Z.ltb_spec (long_bits x mod 2 ^ 32) (2 ^ 31)), (Z.ltb_spec (long_bits x / 2 ^ 32) (2 ^ 31)),
    (Z.ltb_spec (long_bits x) (2 ^ 63));
    match goal with |- context [?a <? 0] => destruct (Z.ltb_spec a 0) end; change (2 ^ 32) with 4294967296 in *; lia.
Qed.
End interop_facts.
