(* ===== verification/Duration.v ===== *)
(** [lib/types/duration.js] and [DurationWrapper] of [src/types/duration.rs]:
    durations of months, days and nanoseconds. *)
From S2P Require Import Prelude.
From S2P Require Import JsNum.
From S2P Require Import JsStr.
From S2P Require Import Buffer.
From S2P Require Import LongLib.
From S2P Require Import VInt.
From S2P Require Import NewUtils.

(** [DurationWrapper]: two i32 and an i64. *)
Record Duration := mkDuration { d_months : Z; d_days : Z; d_nanoseconds : Z }.

#[export] Instance Duration_eq_dec : EqDecision Duration.
Proof. solve_decision. Defined.

Definition Duration_wf (d : Duration) : Prop :=
  is_int32 (d_months d) /\ is_int32 (d_days d) /\ is_int64 (d_nanoseconds d).

(** [DurationWrapper::new]: a Number passed for an [i32] is converted with
    ToInt32 at the native boundary. *)
Definition DurationWrapper_new (months days ns_bigint : Z) : result Duration :=
  ns ← bigint_to_i64 ns_bigint; Ok (mkDuration (to_int32 months) (to_int32 days) ns).

(** The units, in the order of [_unitByIndex]. *)
Inductive unit_t := Uy | Umo | Uw | Ud | Uh | Um | Us | Ums | Uus | Uns.

Definition unitIndex (u : unit_t) : Z :=
  match u with
  | Uy => 1 | Umo => 2 | Uw => 3 | Ud => 4 | Uh => 5 | Um => 6 | Us => 7 | Ums => 8 | Uus => 9 | Uns => 10
  end.

Definition micro : ascii := ascii_of_N 181.

(** The alternatives of [standardRegex], in its order. *)
Definition unit_alternatives : list (jsstr * unit_t) :=
  [(str "y", Uy); (str "mo", Umo); (str "w", Uw); (str "d", Ud); (str "h", Uh); (str "s", Us);
   (str "ms", Ums); (str "us", Uus); ([micro; "s"%char], Uus); (str "ns", Uns); (str "m", Um)].

(** The rest of [s] behind a case-insensitive occurrence of [p]. *)
Fixpoint match_prefix (p s : jsstr) : option jsstr :=
  match p, s with
  | [], _ => Some s
  | c :: p', d :: s' => if decide (lower c = lower d) then match_prefix p' s' else None
  | _ :: _, [] => None
  end.

Fixpoint match_unit (alts : list (jsstr * unit_t)) (s : jsstr) : option (unit_t * jsstr) :=
  match alts with
  | [] => None
  | (p, u) :: alts' =>
      match match_prefix p s with
      | Some rest => Some (u, rest)
      | None => match_unit alts' s
      end
  end.

(** [\d*], greedily. *)
Fixpoint span_digits (s : jsstr) : jsstr * jsstr :=
  match s with
  | c :: s' => if is_digit c then let '(ds, rest) := span_digits s' in (c :: ds, rest) else ([], s)
  | [] => ([], [])
  end.

(** The successive matches of [standardRegex]: leftmost digits followed by a
    unit; text that does not match is skipped. *)
Fixpoint standard_matches (fuel : nat) (s : jsstr) : list (jsstr * unit_t) :=
  match fuel, s with
  | S fuel', _ :: s' =>
      let '(ds, rest) := span_digits s in
      match ds, match_unit unit_alternatives rest with
      | _ :: _, Some (u, rest') => (ds, u) :: standard_matches fuel' rest'
      | _, _ => standard_matches fuel' s'
      end
  | _, _ => []
  end.

(** An optional group [((\d+)X)?]. *)
Definition opt_group (c : ascii) (s : jsstr) : option jsstr * jsstr :=
  let '(ds, rest) := span_digits s in
  match ds, rest with
  | _ :: _, d :: rest' => if decide (d = c) then (Some ds, rest') else (None, s)
  | _, _ => (None, s)
  end.

(** [\d{n}] *)
Definition exactly_digits (n : nat) (s : jsstr) : option (jsstr * jsstr) :=
  if (length (take n s) =? n)%nat && forallb is_digit (take n s) then Some (take n s, drop n s) else None.

Definition exactly (c : ascii) (s : jsstr) : option jsstr :=
  match s with d :: s' => if decide (d = c) then Some s' else None | [] => None end.

(** [+text] for decimal digits. *)
Definition digits_value (ds : jsstr) : Z := be_val 10 (map (fun c => code c - 48) ds).

Definition maxInt32 : Z := 2147483647.
Definition daysPerWeek : Z := 7.
Definition monthsPerYear : Z := 12.

Section duration.
Context `{LongLib}.

Definition longOneThousand : Long := Long_fromInt 1000.
Definition nanosPerMicro : Long := longOneThousand.
Definition nanosPerMilli : Long := Long_mul longOneThousand nanosPerMicro.
Definition nanosPerSecond : Long := Long_mul longOneThousand nanosPerMilli.
Definition nanosPerMinute : Long := Long_mul (Long_fromInt 60) nanosPerSecond.
Definition nanosPerHour : Long := Long_mul (Long_fromInt 60) nanosPerMinute.

(** ** The class *)

(** [new Duration(months, days, nanoseconds)] with a Long. *)
Definition Duration_new (months days : Z) (nanoseconds : Long) : result Duration :=
  DurationWrapper_new months days (longToBigint nanoseconds).

Definition Duration_nanoseconds (d : Duration) : Long := bigintToLong (d_nanoseconds d).

Definition Duration_equals (d other : Duration) : bool :=
  (d_months d =? d_months other) && (d_days d =? d_days other) &&
  (Long_compare (Duration_nanoseconds d) (Duration_nanoseconds other) =? 0).

(** The three buffers are the module-level [reusableBuffers]; their new
    contents are returned with the result. *)
Definition Duration_toBuffer (d : Duration) (months days nanoseconds : list Z)
    : list Z * (list Z * list Z * list Z) :=
  let '(lengthMonths, months) := writeVInt (Long_fromNumber (d_months d)) months in
  let '(lengthDays, days) := writeVInt (Long_fromNumber (d_days d)) days in
  let '(lengthNanoseconds, nanoseconds) := writeVInt (Duration_nanoseconds d) nanoseconds in
  (slice months 0 (Z.to_nat lengthMonths) ++ slice days 0 (Z.to_nat lengthDays) ++
   slice nanoseconds 0 (Z.to_nat lengthNanoseconds), (months, days, nanoseconds)).

Definition Duration_fromBuffer (buffer : list Z) : result Duration :=
  let '(months, offset) := readVInt buffer 0 in
  let '(days, offset) := readVInt buffer offset in
  let '(nanoseconds, _) := readVInt buffer offset in
  Duration_new (Long_toNumber months) (Long_toNumber days) nanoseconds.

(** [append] of [toString]: the text to add and the remainder.  [toFixed(0)]
    of a quotient rounds to the nearest integer, ties upwards. *)
Definition toFixed0 (dividend divisor : Z) : Z := (2 * dividend + divisor) / (2 * divisor).

Definition Duration_append (dividend divisor : Z) (unit : jsstr) : jsstr * Z :=
  if (dividend =? 0) || (dividend <? divisor) then ([], dividend)
  else (num_to_string 10 (toFixed0 dividend divisor) ++ unit, Z.rem dividend divisor).

Definition Duration_append64 (dividend divisor : Long) (unit : jsstr) : jsstr * Long :=
  if Long_equals dividend Long_ZERO || Long_lessThan dividend divisor then ([], dividend)
  else (Long_toString (Long_div dividend divisor) ++ unit, Long_mod dividend divisor).

Definition Duration_toString (d : Duration) : jsstr :=
  let nanoseconds := Duration_nanoseconds d in
  let value := if (d_months d <? 0) || (d_days d <? 0) || Long_isNegative nanoseconds then str "-" else [] in
  let '(y, remainder) := Duration_append (Z.abs (d_months d)) monthsPerYear (str "y") in
  let '(mo, _) := Duration_append remainder 1 (str "mo") in
  let '(days, _) := Duration_append (Z.abs (d_days d)) 1 (str "d") in
  let value := value ++ y ++ mo ++ days in
  if negb (Long_equals nanoseconds Long_ZERO) then
    let nanos := if Long_isNegative nanoseconds then Long_negate nanoseconds else nanoseconds in
    let '(h, remainder) := Duration_append64 nanos nanosPerHour (str "h") in
    let '(m, remainder) := Duration_append64 remainder nanosPerMinute (str "m") in
    let '(s, remainder) := Duration_append64 remainder nanosPerSecond (str "s") in
    let '(ms, remainder) := Duration_append64 remainder nanosPerMilli (str "ms") in
    let '(us, remainder) := Duration_append64 remainder nanosPerMicro (str "us") in
    let '(ns, _) := Duration_append64 remainder Long_ONE (str "ns") in
    value ++ h ++ m ++ s ++ ms ++ us ++ ns
  else value.

(** ** The builder *)

Record Builder := mkBuilder {
  b_isNegative : bool; b_unitIndex : Z; b_months : Z; b_days : Z; b_nanoseconds : Long }.

Definition Builder_new (isNegative : bool) : Builder := mkBuilder isNegative 0 0 0 Long_ZERO.

Definition Builder_validateOrder (b : Builder) (unitIndex : Z) : result Builder :=
  if unitIndex =? b_unitIndex b then Throw TypeError
  else if unitIndex <=? b_unitIndex b then Throw TypeError
  else Ok (mkBuilder (b_isNegative b) unitIndex (b_months b) (b_days b) (b_nanoseconds b)).

(** [units > (maxInt32 - total) / perUnit] on integers: the rounding of the
    quotient does not change the comparison. *)
Definition Builder_validate32 (units total perUnit : Z) : result () :=
  if maxInt32 - total <? units * perUnit then Throw TypeError else Ok ().

Definition Builder_validateMonths (b : Builder) (units monthsPerUnit : Z) : result () :=
  Builder_validate32 units (b_months b) monthsPerUnit.

Definition Builder_validateDays (b : Builder) (units daysPerUnit : Z) : result () :=
  Builder_validate32 units (b_days b) daysPerUnit.

Definition Builder_validateNanos (b : Builder) (units nanosPerUnit : Long) : result () :=
  if Long_greaterThan units (Long_div (Long_sub Long_MAX_VALUE (b_nanoseconds b)) nanosPerUnit)
  then Throw TypeError else Ok ().

Definition Builder_addMonthUnits (idx monthsPerUnit : Z) (b : Builder) (text : jsstr) : result Builder :=
  let value := digits_value text in
  b ← Builder_validateOrder b idx;
  _ ← Builder_validateMonths b value monthsPerUnit;
  Ok (mkBuilder (b_isNegative b) (b_unitIndex b) (b_months b + value * monthsPerUnit) (b_days b) (b_nanoseconds b)).

Definition Builder_addDayUnits (idx daysPerUnit : Z) (b : Builder) (text : jsstr) : result Builder :=
  let value := digits_value text in
  b ← Builder_validateOrder b idx;
  _ ← Builder_validateDays b value daysPerUnit;
  Ok (mkBuilder (b_isNegative b) (b_unitIndex b) (b_months b) (b_days b + value * daysPerUnit) (b_nanoseconds b)).

Definition Builder_addNanoUnits (idx : Z) (nanosPerUnit : Long) (b : Builder) (text : jsstr) : result Builder :=
  let value := Long_fromString text in
  b ← Builder_validateOrder b idx;
  _ ← Builder_validateNanos b value nanosPerUnit;
  Ok (mkBuilder (b_isNegative b) (b_unitIndex b) (b_months b) (b_days b)
        (Long_add (b_nanoseconds b) (Long_mul value nanosPerUnit))).

Definition Builder_addYears := Builder_addMonthUnits 1 monthsPerYear.
Definition Builder_addMonths := Builder_addMonthUnits 2 1.
Definition Builder_addWeeks := Builder_addDayUnits 3 daysPerWeek.
Definition Builder_addDays := Builder_addDayUnits 4 1.
Definition Builder_addHours := Builder_addNanoUnits 5 nanosPerHour.
Definition Builder_addMinutes := Builder_addNanoUnits 6 nanosPerMinute.
Definition Builder_addSeconds := Builder_addNanoUnits 7 nanosPerSecond.
Definition Builder_addMillis := Builder_addNanoUnits 8 nanosPerMilli.
Definition Builder_addMicros := Builder_addNanoUnits 9 nanosPerMicro.

(** [addNanos] adds the value itself. *)
Definition Builder_addNanos (b : Builder) (text : jsstr) : result Builder :=
  let value := Long_fromString text in
  b ← Builder_validateOrder b 10;
  _ ← Builder_validateNanos b value Long_ONE;
  Ok (mkBuilder (b_isNegative b) (b_unitIndex b) (b_months b) (b_days b) (Long_add (b_nanoseconds b) value)).

(** [add] dispatches through [_addMethods]. *)
Definition Builder_add (b : Builder) (textValue : jsstr) (symbol : unit_t) : result Builder :=
  match symbol with
  | Uy => Builder_addYears b textValue | Umo => Builder_addMonths b textValue
  | Uw => Builder_addWeeks b textValue | Ud => Builder_addDays b textValue
  | Uh => Builder_addHours b textValue | Um => Builder_addMinutes b textValue
  | Us => Builder_addSeconds b textValue | Ums => Builder_addMillis b textValue
  | Uus => Builder_addMicros b textValue | Uns => Builder_addNanos b textValue
  end.

Definition Builder_build (b : Builder) : result Duration :=
  if b_isNegative b
  then Duration_new (- b_months b) (- b_days b) (Long_negate (b_nanoseconds b))
  else Duration_new (b_months b) (b_days b) (b_nanoseconds b).

Fixpoint Builder_addAll (b : Builder) (l : list (jsstr * unit_t)) : result Builder :=
  match l with
  | [] => Ok b
  | (text, u) :: l' => b ← Builder_add b text u; Builder_addAll b l'
  end.

(** ** Parsing *)

Definition parseStandardFormat (isNegative : bool) (source : jsstr) : result Duration :=
  b ← Builder_addAll (Builder_new isNegative) (standard_matches (length source) source);
  Builder_build b.

(** The groups of [iso8601Regex] behind the "P": [None] unless they cover
    the whole text. *)
Definition iso8601_groups (s : jsstr) : option (list (jsstr * unit_t)) :=
  let tag u (g : option jsstr) := match g with Some ds => [(ds, u)] | None => [] end in
  let '(y, s) := opt_group "Y"%char s in
  let '(mo, s) := opt_group "M"%char s in
  let '(d, s) := opt_group "D"%char s in
  let date := tag Uy y ++ tag Umo mo ++ tag Ud d in
  match s with
  | [] => Some date
  | t :: s =>
      if decide (t = "T"%char) then
        let '(h, s) := opt_group "H"%char s in
        let '(m, s) := opt_group "M"%char s in
        let '(sec, s) := opt_group "S"%char s in
        match s with
        | [] => Some (date ++ tag Uh h ++ tag Um m ++ tag Us sec)
        | _ => None
        end
      else None
  end.

Definition parseIso8601Format (isNegative : bool) (source : jsstr) : result Duration :=
  match iso8601_groups (drop 1 source) with
  | None => Throw TypeError
  | Some l => b ← Builder_addAll (Builder_new isNegative) l; Builder_build b
  end.

Definition parseIso8601WeekFormat (isNegative : bool) (source : jsstr) : result Duration :=
  match opt_group "W"%char (drop 1 source) with
  | (Some weeks, []) => b ← Builder_addWeeks (Builder_new isNegative) weeks; Builder_build b
  | _ => Throw TypeError
  end.

(** [P(\d{4})-(\d{2})-(\d{2})T(\d{2}):(\d{2}):(\d{2})] over the whole text. *)
Definition iso8601_alternate (s : jsstr) : option (list (jsstr * unit_t)) :=
  '(y, s) ← exactly_digits 4 s; s ← exactly "-"%char s;
  '(mo, s) ← exactly_digits 2 s; s ← exactly "-"%char s;
  '(d, s) ← exactly_digits 2 s; s ← exactly "T"%char s;
  '(h, s) ← exactly_digits 2 s; s ← exactly ":"%char s;
  '(m, s) ← exactly_digits 2 s; s ← exactly ":"%char s;
  '(sec, s) ← exactly_digits 2 s;
  match s with
  | [] => Some [(y, Uy); (mo, Umo); (d, Ud); (h, Uh); (m, Um); (sec, Us)]
  | _ => None
  end.

Definition parseIso8601AlternativeFormat (isNegative : bool) (source : jsstr) : result Duration :=
  match iso8601_alternate (drop 1 source) with
  | None => Throw TypeError
  | Some l => b ← Builder_addAll (Builder_new isNegative) l; Builder_build b
  end.

Definition Duration_fromString (input : jsstr) : result Duration :=
  let isNegative := char_is input 0 "-"%char in
  let source := if isNegative then drop 1 input else input in
  if char_is source 0 "P"%char then
    if char_is source (length source - 1) "W"%char then parseIso8601WeekFormat isNegative source
    else if contains_char "-"%char source then parseIso8601AlternativeFormat isNegative source
    else parseIso8601Format isNegative source
  else parseStandardFormat isNegative source.
End duration.
