(* ===== verification/DurationTheorems.v ===== *)
(** Theorems on [Duration]: the builder, the text formats and the binary
    format. *)
From S2P Require Import Prelude.
From S2P Require Import JsNum.
From S2P Require Import JsStr.
From S2P Require Import Buffer.
From S2P Require Import LongLib.
From S2P Require Import VInt.
From S2P Require Import NewUtils.
From S2P Require Import Duration.

(** ** The builder against sums *)

(** What one unit contributes to months, days and nanoseconds. *)
Definition unit_months (u : unit_t) : Z := match u with Uy => 12 | Umo => 1 | _ => 0 end.
Definition unit_days (u : unit_t) : Z := match u with Uw => 7 | Ud => 1 | _ => 0 end.
Definition unit_nanos (u : unit_t) : Z :=
  match u with
  | Uh => 3600000000000 | Um => 60000000000 | Us => 1000000000 | Ums => 1000000 | Uus => 1000 | Uns => 1 | _ => 0
  end.

(** A component of a duration: its decimal digits, of any number, and its unit.
    In a unit of time the number has to fit 63 bits ([Long.fromString] wraps
    from there on, see [Duration_fromString_wraps]). *)
Abbreviation component := (list Z * unit_t)%type.

Definition component_ok (c : component) : Prop :=
  digits_in 10 c.1 /\ c.1 <> [] /\ (unit_nanos c.2 <> 0 -> be_val 10 c.1 < 2 ^ 63).

Definition component_text (c : component) : jsstr * unit_t := (map digit_char c.1, c.2).

Fixpoint total (f : unit_t -> Z) (l : list component) : Z :=
  match l with [] => 0 | c :: l' => be_val 10 c.1 * f c.2 + total f l' end.

(** The units come in strictly increasing order, each at most once. *)
Fixpoint ordered (idx : Z) (l : list component) : bool :=
  match l with [] => true | c :: l' => (idx <? unitIndex c.2) && ordered (unitIndex c.2) l' end.

Definition maxInt64 : Z := 2 ^ 63 - 1.

Lemma digit_char_code d : 0 <= d < 10 -> code (digit_char d) - 48 = d.
Proof.
  intros Hd. assert (H : forallb (fun d => code (digit_char d) - 48 =? d) (seqZ 0 10) = true) by (vm_compute; reflexivity).
  rewrite forallb_forall in H. by apply Z.eqb_eq, H, list_elem_of_In, elem_of_seqZ.
Qed.

Lemma digits_value_spec ds : digits_in 10 ds -> digits_value (map digit_char ds) = be_val 10 ds.
Proof.
  intros Hds. unfold digits_value. rewrite map_map. f_equal.
  rewrite (map_ext_in _ (fun z => z)); [apply map_id|]. intros d Hd. apply digit_char_code.
  unfold digits_in in Hds. rewrite Forall_forall in Hds. by apply Hds, list_elem_of_In.
Qed.

Section builder.
Context `{LongLaws}.

Record Builder_inv (b : Builder) : Prop := {
  bi_months : 0 <= b_months b <= maxInt32;
  bi_days : 0 <= b_days b <= maxInt32;
  bi_signed : long_unsigned (b_nanoseconds b) = false;
  bi_nanos : 0 <= long_val (b_nanoseconds b) <= maxInt64 }.

Lemma fromInt_val z : is_int32 z -> long_val (Long_fromInt z) = z.
Proof. apply long_fromInt_val. Qed.

Lemma nanos_units :
  (long_val nanosPerMicro = 1000 /\ long_unsigned nanosPerMicro = false) /\
  (long_val nanosPerMilli = 1000000 /\ long_unsigned nanosPerMilli = false) /\
  (long_val nanosPerSecond = 1000000000 /\ long_unsigned nanosPerSecond = false) /\
  (long_val nanosPerMinute = 60000000000 /\ long_unsigned nanosPerMinute = false) /\
  (long_val nanosPerHour = 3600000000000 /\ long_unsigned nanosPerHour = false).
Proof.
  assert (M1 : long_val nanosPerMicro = 1000 /\ long_unsigned nanosPerMicro = false)
    by (apply long_fromInt_val; unfold is_int32; lia).
  assert (S60 : long_val (Long_fromInt 60) = 60 /\ long_unsigned (Long_fromInt 60) = false)
    by (apply long_fromInt_val; unfold is_int32; lia).
  assert (Mul : forall x y a c, long_val x = a /\ long_unsigned x = false -> long_val y = c /\ long_unsigned y = false ->
    is_int64 (a * c) -> long_val (Long_mul x y) = a * c /\ long_unsigned (Long_mul x y) = false).
  { intros x y a c [Vx Ux] [Vy Uy'] Hr. apply long_mul_val; [done|by rewrite Vx, Vy|done]. }
  assert (R : forall z, 0 <= z < 2 ^ 63 -> is_int64 z) by (unfold is_int64; intros; lia).
  assert (M2 := Mul _ _ _ _ M1 M1 (R (1000 * 1000) ltac:(lia))).
  assert (M3 := Mul _ _ _ _ M1 M2 (R (1000 * (1000 * 1000)) ltac:(lia))).
  assert (M4 := Mul _ _ _ _ S60 M3 (R (60 * (1000 * (1000 * 1000))) ltac:(lia))).
  assert (M5 := Mul _ _ _ _ S60 M4 (R (60 * (60 * (1000 * (1000 * 1000)))) ltac:(lia))).
  done.
Qed.

(** The overflow test on nanoseconds is exact. *)
Lemma validateNanos_spec b units per :
  Builder_inv b -> long_unsigned units = false -> 0 <= long_val units ->
  long_unsigned per = false -> 0 < long_val per ->
  Builder_validateNanos b units per =
    if long_val (b_nanoseconds b) + long_val units * long_val per <=? maxInt64 then Ok () else Throw TypeError.
Proof.
  intros [] Uu Vu Up Vp. unfold Builder_validateNanos, Long_greaterThan.
  destruct Long_MAX_val as [Mv Mu]. unfold maxInt64 in *.
  destruct (long_sub_val Long_MAX_VALUE (b_nanoseconds b) (2 ^ 63 - 1 - long_val (b_nanoseconds b)) Mu) as [Sv Su];
    [by rewrite Mv|unfold is_int64; lia|].
  destruct (long_div_val (Long_sub Long_MAX_VALUE (b_nanoseconds b)) per Su Up ltac:(lia)) as [Db Du].
  set (rest := 2 ^ 63 - 1 - long_val (b_nanoseconds b)) in *.
  assert (Rr : 0 <= rest <= 2 ^ 63 - 1 /\ long_val (b_nanoseconds b) + rest = 2 ^ 63 - 1) by (unfold rest; lia).
  clearbody rest.
  assert (Dv : long_val (Long_div (Long_sub Long_MAX_VALUE (b_nanoseconds b)) per) = rest / long_val per).
  { apply long_val_of_bits; [done| |].
    - rewrite Db, Sv, Z.quot_div_nonneg by lia. done.
    - unfold is_int64. assert (0 <= rest / long_val per) by (apply Z.div_pos; lia).
      assert (rest / long_val per <= rest) by (apply Z.div_le_upper_bound; nia). lia. }
  rewrite long_compare_val, Dv by congruence.
  destruct (Z.leb_spec (long_val (b_nanoseconds b) + long_val units * long_val per) (2 ^ 63 - 1)).
  - assert (long_val units <= rest / long_val per) by (apply Z.div_le_lower_bound; lia).
    destruct (Z.ltb_spec 0 (Z.sgn (long_val units - rest / long_val per))); [lia|done].
  - assert (rest / long_val per < long_val units) by (apply Z.div_lt_upper_bound; lia).
    destruct (Z.ltb_spec 0 (Z.sgn (long_val units - rest / long_val per))); [done|lia].
Qed.

(** Whether [add] accepts a component, and the state it leads to. *)
Definition accepts (b : Builder) (c : component) : bool :=
  let v := be_val 10 c.1 in
  (b_unitIndex b <? unitIndex c.2) &&
  (b_months b + v * unit_months c.2 <=? maxInt32) && (b_days b + v * unit_days c.2 <=? maxInt32) &&
  (long_val (b_nanoseconds b) + v * unit_nanos c.2 <=? maxInt64).

Definition added (b b' : Builder) (c : component) : Prop :=
  let v := be_val 10 c.1 in
  Builder_inv b' /\ b_isNegative b' = b_isNegative b /\ b_unitIndex b' = unitIndex c.2 /\
  b_months b' = b_months b + v * unit_months c.2 /\ b_days b' = b_days b + v * unit_days c.2 /\
  long_val (b_nanoseconds b') = long_val (b_nanoseconds b) + v * unit_nanos c.2.

Lemma validateOrder_spec b idx :
  Builder_validateOrder b idx =
    if b_unitIndex b <? idx then Ok (mkBuilder (b_isNegative b) idx (b_months b) (b_days b) (b_nanoseconds b))
    else Throw TypeError.
Proof.
  unfold Builder_validateOrder. destruct (Z.eqb_spec idx (b_unitIndex b)), (Z.leb_spec idx (b_unitIndex b)),
    (Z.ltb_spec (b_unitIndex b) idx); done || lia.
Qed.

Lemma digits_nonneg ds : digits_in 10 ds -> 0 <= be_val 10 ds.
Proof. intros D. apply be_val_bound; [lia|done]. Qed.

Lemma addMonthUnits_spec b ds u per :
  Builder_inv b -> component_ok (ds, u) -> unit_months u = per -> 0 < per -> unit_days u = 0 -> unit_nanos u = 0 ->
  let r := Builder_addMonthUnits (unitIndex u) per b (map digit_char ds) in
  if accepts b (ds, u) then exists b', r = Ok b' /\ added b b' (ds, u) else r = Throw TypeError.
Proof.
  intros [] (D & N & V) Em Hp Ed En. cbn [fst snd] in *. cbv zeta. unfold Builder_addMonthUnits.
  rewrite digits_value_spec, validateOrder_spec by done. pose proof (digits_nonneg ds D).
  unfold accepts, added. cbn [fst snd]. rewrite Em, Ed, En, !Z.mul_0_r, !Z.add_0_r.
  destruct (Z.leb_spec (b_days b) maxInt32); [|lia].
  destruct (Z.leb_spec (long_val (b_nanoseconds b)) maxInt64); [|lia]. rewrite !andb_true_r.
  destruct (Z.ltb_spec (b_unitIndex b) (unitIndex u)); cbn; [|done].
  unfold Builder_validateMonths, Builder_validate32. cbn [b_months].
  destruct (Z.leb_spec (b_months b + be_val 10 ds * per) maxInt32),
    (Z.ltb_spec (maxInt32 - b_months b) (be_val 10 ds * per)); try lia; cbn; [|done].
  eexists. split; [done|]. cbn. split; [|done]. constructor; cbn; [nia|lia|done|lia].
Qed.

Lemma addDayUnits_spec b ds u per :
  Builder_inv b -> component_ok (ds, u) -> unit_days u = per -> 0 < per -> unit_months u = 0 -> unit_nanos u = 0 ->
  let r := Builder_addDayUnits (unitIndex u) per b (map digit_char ds) in
  if accepts b (ds, u) then exists b', r = Ok b' /\ added b b' (ds, u) else r = Throw TypeError.
Proof.
  intros [] (D & N & V) Em Hp Ed En. cbn [fst snd] in *. cbv zeta. unfold Builder_addDayUnits.
  rewrite digits_value_spec, validateOrder_spec by done. pose proof (digits_nonneg ds D).
  unfold accepts, added. cbn [fst snd]. rewrite Em, Ed, En, !Z.mul_0_r, !Z.add_0_r.
  destruct (Z.leb_spec (b_months b) maxInt32); [|lia].
  destruct (Z.leb_spec (long_val (b_nanoseconds b)) maxInt64); [|lia]. rewrite !andb_true_r.
  destruct (Z.ltb_spec (b_unitIndex b) (unitIndex u)); cbn; [|done].
  unfold Builder_validateDays, Builder_validate32. cbn [b_days].
  destruct (Z.leb_spec (b_days b + be_val 10 ds * per) maxInt32),
    (Z.ltb_spec (maxInt32 - b_days b) (be_val 10 ds * per)); try lia; cbn; [|done].
  eexists. split; [done|]. cbn. split; [|done]. constructor; cbn; [lia|nia|done|lia].
Qed.

(** The state after adding a Long worth [units * per] nanoseconds. *)
Lemma add_nanos_state b idx ds u x per :
  Builder_inv b -> component_ok (ds, u) -> unit_months u = 0 -> unit_days u = 0 -> idx = unitIndex u ->
  long_val (b_nanoseconds b) + be_val 10 ds * unit_nanos u <= maxInt64 -> 0 <= unit_nanos u ->
  long_val x = be_val 10 ds * per -> per = unit_nanos u ->
  added b (mkBuilder (b_isNegative b) idx (b_months b) (b_days b) (Long_add (b_nanoseconds b) x)) (ds, u).
Proof.
  intros [] (D & N & V) Em Ed -> Hle Hp Vx ->. cbn [fst snd] in *. pose proof (digits_nonneg ds D).
  unfold maxInt64 in *.
  destruct (long_add_val (b_nanoseconds b) x (long_val (b_nanoseconds b) + be_val 10 ds * unit_nanos u)) as [Av Au];
    [done|by rewrite Vx|unfold is_int64; nia|].
  unfold added. cbn [fst snd b_months b_days b_nanoseconds b_isNegative b_unitIndex]. rewrite Em, Ed, Av.
  split; [|split_and!; done || lia]. constructor; cbn; [lia|lia|done|]. unfold maxInt64. nia.
Qed.

Lemma addNanoUnits_spec b ds u per :
  Builder_inv b -> component_ok (ds, u) -> unit_months u = 0 -> unit_days u = 0 ->
  long_val per = unit_nanos u -> long_unsigned per = false -> 0 < unit_nanos u ->
  let r := Builder_addNanoUnits (unitIndex u) per b (map digit_char ds) in
  if accepts b (ds, u) then exists b', r = Ok b' /\ added b b' (ds, u) else r = Throw TypeError.
Proof.
  intros Hb Hc Em Ed Ep Up Hp. pose proof Hb as []. pose proof Hc as (D & N & V). cbn [fst snd] in *. specialize (V ltac:(lia)). cbv zeta.
  unfold Builder_addNanoUnits. rewrite validateOrder_spec. pose proof (digits_nonneg ds D).
  destruct (long_fromString_digits false ds D N) as [Fv Fu]; [unfold is_int64; lia|]. cbn [app] in Fv, Fu.
  unfold accepts. cbn [fst snd]. rewrite Em, Ed, !Z.mul_0_r, !Z.add_0_r.
  destruct (Z.leb_spec (b_months b) maxInt32); [|lia].
  destruct (Z.leb_spec (b_days b) maxInt32); [|lia]. rewrite !andb_true_r.
  destruct (Z.ltb_spec (b_unitIndex b) (unitIndex u)); cbn; [|done].
  rewrite validateNanos_spec; [|by constructor|done|lia|done|lia]. cbn [b_nanoseconds]. rewrite Fv, Ep.
  destruct (Z.leb_spec (long_val (b_nanoseconds b) + be_val 10 ds * unit_nanos u) maxInt64); cbn; [|done].
  eexists. split; [done|]. apply add_nanos_state with (unit_nanos u); try done; [lia|].
  destruct (long_mul_val (Long_fromString (map digit_char ds)) per (be_val 10 ds * unit_nanos u) Fu) as [Mv _];
    [by rewrite Fv, Ep|unfold is_int64, maxInt64 in *; nia|done].
Qed.

Lemma addNanos_spec b ds :
  Builder_inv b -> component_ok (ds, Uns) ->
  let r := Builder_addNanos b (map digit_char ds) in
  if accepts b (ds, Uns) then exists b', r = Ok b' /\ added b b' (ds, Uns) else r = Throw TypeError.
Proof.
  intros Hb Hc. pose proof Hb as []. pose proof Hc as (D & N & V). cbn [fst snd] in *. specialize (V ltac:(done)). cbv zeta.
  unfold Builder_addNanos. rewrite validateOrder_spec. pose proof (digits_nonneg ds D).
  destruct (long_fromString_digits false ds D N) as [Fv Fu]; [unfold is_int64; lia|]. cbn [app] in Fv, Fu.
  unfold accepts. cbn [fst snd unit_months unit_days unit_nanos unitIndex]. rewrite !Z.mul_0_r, !Z.add_0_r.
  destruct (Z.leb_spec (b_months b) maxInt32); [|lia].
  destruct (Z.leb_spec (b_days b) maxInt32); [|lia]. rewrite !andb_true_r.
  destruct (Z.ltb_spec (b_unitIndex b) 10); cbn; [|done].
  destruct Long_ONE_bits as [O1 OU]. assert (OV : long_val Long_ONE = 1) by (rewrite long_val_signed, O1 by done; done).
  rewrite validateNanos_spec; [|by constructor|done|lia|done|lia]. cbn [b_nanoseconds]. rewrite Fv, OV.
  destruct (Z.leb_spec (long_val (b_nanoseconds b) + be_val 10 ds * 1) maxInt64); cbn; [|done].
  eexists. split; [done|]. apply add_nanos_state with 1; try done; cbn; lia.
Qed.

Lemma Builder_add_spec b c :
  Builder_inv b -> component_ok c ->
  let r := Builder_add b (map digit_char c.1) c.2 in
  if accepts b c then exists b', r = Ok b' /\ added b b' c else r = Throw TypeError.
Proof.
  intros Hb Hc. destruct c as [ds u]. destruct nanos_units as ([] & [] & [] & [] & []).
  destruct u; cbn [fst snd Builder_add]; cbv zeta.
  - by apply (addMonthUnits_spec b ds Uy).
  - by apply (addMonthUnits_spec b ds Umo).
  - by apply (addDayUnits_spec b ds Uw).
  - by apply (addDayUnits_spec b ds Ud).
  - by apply (addNanoUnits_spec b ds Uh).
  - by apply (addNanoUnits_spec b ds Um).
  - by apply (addNanoUnits_spec b ds Us).
  - by apply (addNanoUnits_spec b ds Ums).
  - by apply (addNanoUnits_spec b ds Uus).
  - by apply addNanos_spec.
Qed.
End builder.

(** ** Whole component lists *)

Definition within (m d n : Z) : bool := (m <=? maxInt32) && (d <=? maxInt32) && (n <=? maxInt64).

Lemma total_nonneg f l : (forall u, 0 <= f u) -> Forall component_ok l -> 0 <= total f l.
Proof.
  intros Hf. induction 1 as [|c l (D & _) _ IH]; cbn; [lia|].
  pose proof (digits_nonneg _ D). specialize (Hf c.2). nia.
Qed.

Lemma unit_months_nonneg u : 0 <= unit_months u. Proof. destruct u; cbn; lia. Qed.
Lemma unit_days_nonneg u : 0 <= unit_days u. Proof. destruct u; cbn; lia. Qed.
Lemma unit_nanos_nonneg u : 0 <= unit_nanos u. Proof. destruct u; cbn; lia. Qed.

Section parse.
Context `{LongLaws}.

(** [add] after [add] succeeds exactly when the units are in order and the
    sums fit, and leads to the sums. *)
Lemma Builder_addAll_spec l : forall b,
  Builder_inv b -> Forall component_ok l ->
  let m := b_months b + total unit_months l in
  let d := b_days b + total unit_days l in
  let n := long_val (b_nanoseconds b) + total unit_nanos l in
  if ordered (b_unitIndex b) l && within m d n
  then exists b', Builder_addAll b (map component_text l) = Ok b' /\ Builder_inv b' /\
         b_isNegative b' = b_isNegative b /\ b_months b' = m /\ b_days b' = d /\ long_val (b_nanoseconds b') = n
  else Builder_addAll b (map component_text l) = Throw TypeError.
Proof.
  induction l as [|c l IH]; intros b Hb Hl; cbv zeta; cbn [total ordered map Builder_addAll].
  { rewrite !Z.add_0_r. destruct Hb as []. unfold within. cbn [andb].
    destruct (Z.leb_spec (b_months b) maxInt32), (Z.leb_spec (b_days b) maxInt32),
      (Z.leb_spec (long_val (b_nanoseconds b)) maxInt64); try lia. cbn [andb].
    exists b. split; [done|]. split; [by constructor|done]. }
  apply Forall_cons in Hl as [Hc Hl].
  pose proof (Builder_add_spec b c Hb Hc) as Hadd. cbv zeta in Hadd.
  pose proof (total_nonneg unit_months l unit_months_nonneg Hl). pose proof (total_nonneg unit_days l unit_days_nonneg Hl).
  pose proof (total_nonneg unit_nanos l unit_nanos_nonneg Hl).
  change (component_text c) with (map digit_char c.1, c.2). cbv beta iota.
  destruct (accepts b c) eqn:Eacc.
  - destruct Hadd as (b1 & E1 & I1 & S1 & X1 & M1 & D1 & N1). rewrite E1. cbn [mbind result_bind].
    specialize (IH b1 I1 Hl). cbv zeta in IH. rewrite M1, D1, N1, X1, S1, <- !Z.add_assoc in IH.
    unfold accepts in Eacc. apply andb_prop in Eacc as [[[Eo _]%andb_prop _]%andb_prop _]. rewrite Eo. exact IH.
  - rewrite Hadd. cbn.
    assert (E : (b_unitIndex b <? unitIndex c.2) && ordered (unitIndex c.2) l &&
      within (b_months b + (be_val 10 c.1 * unit_months c.2 + total unit_months l))
        (b_days b + (be_val 10 c.1 * unit_days c.2 + total unit_days l))
        (long_val (b_nanoseconds b) + (be_val 10 c.1 * unit_nanos c.2 + total unit_nanos l)) = false); [|by rewrite E].
    unfold accepts in Eacc. cbv zeta in Eacc. unfold within.
    rewrite !andb_false_iff in *. rewrite !Z.leb_gt, !Z.ltb_ge in *.
    destruct Eacc as [[[E|E]|E]|E]; [by left; left|..]; right.
    + left. left. lia.
    + left. right. lia.
    + right. lia.
Qed.

Definition signed_by (neg : bool) (z : Z) : Z := if neg then - z else z.

Lemma Duration_new_spec m d x :
  is_int32 m -> is_int32 d -> long_unsigned x = false -> Duration_new m d x = Ok (mkDuration m d (long_val x)).
Proof.
  intros Hm Hd Hu. unfold Duration_new, DurationWrapper_new. rewrite longToBigint_spec by done.
  assert (E : bigint_to_i64 (long_val x) = Ok (long_val x)) by (apply bigint_to_i64_ok; split; [done|by apply long_val_range]).
  rewrite E. cbn. by rewrite !to_int32_id.
Qed.

Lemma Builder_build_spec b :
  Builder_inv b ->
  let s := signed_by (b_isNegative b) in
  Builder_build b = Ok (mkDuration (s (b_months b)) (s (b_days b)) (s (long_val (b_nanoseconds b)))).
Proof.
  intros []. unfold Builder_build, signed_by, maxInt32, maxInt64 in *. destruct (b_isNegative b).
  - destruct (long_negate_val (b_nanoseconds b)) as [Nv Nu]; [done|lia|].
    rewrite Duration_new_spec by (unfold is_int32; done || lia). by rewrite Nv.
  - apply Duration_new_spec; unfold is_int32; done || lia.
Qed.

Lemma Builder_new_inv neg : Builder_inv (Builder_new neg) /\ long_val (b_nanoseconds (Builder_new neg)) = 0.
Proof.
  destruct Long_ZERO_bits as [Z0 U0].
  assert (V : long_val Long_ZERO = 0) by (rewrite long_val_signed, Z0 by done; done).
  split; [|done]. constructor; cbn; unfold maxInt32, maxInt64; lia || done.
Qed.

(** What a list of components parses to. *)
Definition duration_of (neg : bool) (l : list component) : result Duration :=
  let m := total unit_months l in
  let d := total unit_days l in
  let n := total unit_nanos l in
  if ordered 0 l && within m d n
  then Ok (mkDuration (signed_by neg m) (signed_by neg d) (signed_by neg n))
  else Throw TypeError.

Lemma build_components neg l :
  Forall component_ok l ->
  (b ← Builder_addAll (Builder_new neg) (map component_text l); Builder_build b) = duration_of neg l.
Proof.
  intros Hl. destruct (Builder_new_inv neg) as [I V].
  pose proof (Builder_addAll_spec l _ I Hl) as Hs. cbv zeta in Hs. rewrite V in Hs. cbn [Builder_new b_months b_days b_unitIndex b_isNegative] in Hs.
  rewrite !Z.add_0_l in Hs. unfold duration_of. cbv zeta. destruct (ordered 0 l && _).
  - destruct Hs as (b' & -> & I' & S & M & D & N). cbn. rewrite Builder_build_spec by done. by rewrite S, M, D, N.
  - by rewrite Hs.
Qed.
End parse.

(** ** The standard format *)

Definition unit_symbol (u : unit_t) : jsstr :=
  match u with
  | Uy => str "y" | Umo => str "mo" | Uw => str "w" | Ud => str "d" | Uh => str "h" | Um => str "m"
  | Us => str "s" | Ums => str "ms" | Uus => str "us" | Uns => str "ns"
  end.

Definition render_component (c : component) : jsstr := map digit_char c.1 ++ unit_symbol c.2.
Definition sign_text (neg : bool) : jsstr := if neg then str "-" else [].
Definition render (l : list component) : jsstr := concat (map render_component l).

(** Empty, or starting with a digit. *)
Definition digit_start (s : jsstr) : Prop := match s with [] => True | c :: _ => is_digit c = true end.

Lemma render_digit_start l : Forall component_ok l -> digit_start (render l).
Proof.
  intros Hl. destruct Hl as [|[ds u] l (D & N & _) _]; [done|]. destruct ds as [|d ds]; [done|]. cbn in D.
  apply digit_char_is_digit. by apply Forall_cons in D as [? _].
Qed.

Lemma match_unit_symbol u rest :
  digit_start rest -> match_unit unit_alternatives (unit_symbol u ++ rest) = Some (u, rest).
Proof.
  destruct u; try reflexivity. intros Hd. destruct rest as [|c rest]; [reflexivity|]. cbn in Hd.
  destruct c as [[] [] [] [] [] [] [] []]; try discriminate Hd; reflexivity.
Qed.

Lemma span_digits_app ds tail :
  digits_in 10 ds -> match tail with [] => True | c :: _ => is_digit c = false end ->
  span_digits (map digit_char ds ++ tail) = (map digit_char ds, tail).
Proof.
  intros D Ht. induction D as [|d ds Hd _ IH]; cbn.
  - destruct tail as [|c tail]; [done|]. cbn. by rewrite Ht.
  - by rewrite digit_char_is_digit, IH.
Qed.

Lemma render_length c : component_ok c -> (1 <= length (render_component c))%nat.
Proof. intros (_ & N & _). unfold render_component. rewrite length_app, length_map. destruct c.1; [done|cbn; lia]. Qed.

Lemma standard_matches_render l : forall fuel,
  Forall component_ok l -> (length (render l) <= fuel)%nat ->
  standard_matches fuel (render l) = map component_text l.
Proof.
  induction l as [|c l IH]; intros fuel Hl Hf; [by destruct fuel|].
  apply Forall_cons in Hl as [Hc Hl]. pose proof (render_length c Hc) as Hlen.
  unfold render in *. cbn [map concat] in *. rewrite length_app in Hf.
  destruct fuel as [|fuel]; [lia|]. destruct Hc as (D & N & _). destruct c as [ds u]. cbn [fst snd] in *.
  unfold render_component at 1. cbn [fst snd]. rewrite <- app_assoc.
  assert (Esp : span_digits (map digit_char ds ++ unit_symbol u ++ concat (map render_component l)) =
    (map digit_char ds, unit_symbol u ++ concat (map render_component l))).
  { apply span_digits_app; [done|]. by destruct u. }
  destruct ds as [|d ds]; [done|]. cbn [map app] in Esp |- *. cbn [standard_matches]. rewrite Esp.
  rewrite match_unit_symbol by (by apply (render_digit_start l)).
  unfold component_text at 1. cbn [fst snd map]. f_equal. apply IH; [done|lia].
Qed.

Section standard.
Context `{LongLaws}.

Lemma fromString_render neg l :
  Forall component_ok l ->
  Duration_fromString (sign_text neg ++ render l) = duration_of neg l.
Proof.
  intros Hl. pose proof (render_digit_start l Hl) as Hd.
  assert (Hfirst : forall c, is_digit c = false -> char_is (render l) 0 c = false).
  { intros c Hc. unfold char_is. destruct (render l) as [|d r]; [done|]. cbn.
    apply bool_decide_eq_false_2. intros ->. cbn in Hd. congruence. }
  unfold Duration_fromString.
  assert (E : char_is (sign_text neg ++ render l) 0 "-"%char = neg).
  { destruct neg; [done|]. by apply Hfirst. }
  rewrite E. set (source := sign_text neg ++ render l) in *.
  assert (Es : (if neg then drop 1 source else source) = render l) by (by destruct neg). rewrite Es.
  rewrite (Hfirst "P"%char eq_refl). unfold parseStandardFormat.
  rewrite standard_matches_render by done. by apply build_components.
Qed.
End standard.

(** ** [toString] *)

(** A component that is left out when its value is zero. *)
Definition opt (v : Z) (u : unit_t) : list component := if v =? 0 then [] else [(rev (num_digits 10 v), u)].

Lemma opt_ok v u : 0 <= v < 2 ^ 63 -> Forall component_ok (opt v u).
Proof.
  intros Hv. unfold opt. destruct (Z.eqb_spec v 0); [constructor|].
  destruct (num_digits_spec 10 v ltac:(lia) ltac:(lia)) as (V & D & L).
  apply Forall_cons. split; [|constructor]. split; [by apply Forall_rev|]. cbn [fst]. unfold be_val. rewrite rev_involutive.
  split; [|lia]. intros E. apply (f_equal (@rev Z)) in E. rewrite rev_involutive in E. rewrite E in V. cbn in V. lia.
Qed.

Lemma render_app l k : render (l ++ k) = render l ++ render k.
Proof. unfold render. by rewrite map_app, concat_app. Qed.

Lemma render_opt v u : 0 <= v -> render (opt v u) = if v =? 0 then [] else num_to_string 10 v ++ unit_symbol u.
Proof.
  intros Hv. unfold opt. destruct (Z.eqb_spec v 0); [done|]. unfold render. cbn [map concat].
  rewrite app_nil_r. unfold render_component. cbn [fst snd]. by rewrite num_to_string_pos by lia.
Qed.

Lemma total_app f l k : total f (l ++ k) = total f l + total f k.
Proof. induction l as [|c l IH]; cbn; [done|]. rewrite IH. lia. Qed.

Lemma total_opt f v u : 0 <= v -> total f (opt v u) = v * f u.
Proof.
  intros Hv. unfold opt. destruct (Z.eqb_spec v 0) as [->|]; [done|]. cbn [total fst snd].
  destruct (num_digits_spec 10 v ltac:(lia) ltac:(lia)) as (V & _).
  unfold be_val. rewrite rev_involutive, V. lia.
Qed.

Lemma ordered_opt idx v u l :
  idx < unitIndex u -> (forall i, i <= unitIndex u -> ordered i l = true) -> ordered idx (opt v u ++ l) = true.
Proof.
  intros Hi Hl. unfold opt. destruct (v =? 0); cbn [app ordered snd]; [apply Hl; lia|].
  apply andb_true_intro. split; [by apply Z.ltb_lt|]. apply Hl. lia.
Qed.

(** The components of a magnitude: years and months, days, and the time. *)
Definition date_components (m d : Z) : list component := opt (m / 12) Uy ++ opt (m mod 12) Umo ++ opt d Ud.

Definition time_components (n : Z) : list component :=
  opt (n / 3600000000000) Uh ++ opt (n mod 3600000000000 / 60000000000) Um ++
  opt (n mod 60000000000 / 1000000000) Us ++ opt (n mod 1000000000 / 1000000) Ums ++
  opt (n mod 1000000 / 1000) Uus ++ opt (n mod 1000) Uns.

Lemma components_ordered m d n : ordered 0 (date_components m d ++ time_components n) = true.
Proof.
  unfold date_components, time_components. rewrite <- !app_assoc.
  repeat (apply ordered_opt; [cbn; lia|intros ? ?; cbn in * ]).
  rewrite <- (app_nil_r (opt (n mod 1000) Uns)). apply ordered_opt; [cbn; lia|done].
Qed.

Lemma components_totals m d n :
  0 <= m -> 0 <= d -> 0 <= n ->
  let l := date_components m d ++ time_components n in
  total unit_months l = m /\ total unit_days l = d /\ total unit_nanos l = n.
Proof.
  intros Hm Hd Hn. cbv zeta. unfold date_components, time_components. rewrite !total_app.
  rewrite !total_opt by (Z.to_euclidean_division_equations; lia). cbn [unit_months unit_days unit_nanos].
  split; [Z.to_euclidean_division_equations; lia|]. split; [lia|]. Z.to_euclidean_division_equations; lia.
Qed.

Lemma components_ok m d n :
  0 <= m < 2 ^ 63 -> 0 <= d < 2 ^ 63 -> 0 <= n < 2 ^ 63 ->
  Forall component_ok (date_components m d ++ time_components n).
Proof.
  intros Hm Hd Hn. unfold date_components, time_components.
  repeat (apply Forall_app; split); apply opt_ok; Z.to_euclidean_division_equations; lia.
Qed.

Section toString.
Context `{LongLaws}.

Lemma append_one v unit u :
  0 <= v -> unit = unit_symbol u -> (Duration_append v 1 unit).1 = render (opt v u).
Proof.
  intros Hv ->. rewrite render_opt by done. unfold Duration_append, toFixed0.
  destruct (Z.eqb_spec v 0); [done|]. destruct (Z.ltb_spec v 1); [lia|]. cbn [orb fst].
  do 2 f_equal. symmetry. apply Z.div_unique_pos with 1; lia.
Qed.

(** Years: exact only below half a year of remaining months. *)
Lemma append_years v :
  0 <= v -> v mod 12 < 6 -> Duration_append v monthsPerYear (str "y") = (render (opt (v / 12) Uy), v mod 12).
Proof.
  intros Hv Hm. rewrite render_opt by (apply Z.div_pos; lia). unfold Duration_append, toFixed0, monthsPerYear.
  destruct (Z.eqb_spec v 0) as [->|]; [done|]. cbn [orb]. destruct (Z.ltb_spec v 12).
  - rewrite Z.div_small, Z.mod_small by lia. done.
  - destruct (Z.eqb_spec (v / 12) 0); [Z.to_euclidean_division_equations; lia|].
    rewrite Z.rem_mod_nonneg by lia. change (unit_symbol Uy) with (str "y"). do 3 f_equal.
    Z.to_euclidean_division_equations; lia.
Qed.

Lemma append64_spec x p unit u :
  long_unsigned x = false -> 0 <= long_val x -> long_unsigned p = false -> 0 < long_val p -> unit = unit_symbol u ->
  exists r, Duration_append64 x p unit = (render (opt (long_val x / long_val p) u), r) /\
    long_unsigned r = false /\ long_val r = long_val x mod long_val p.
Proof.
  intros Ux Vx Up Vp ->. pose proof (long_val_range x Ux) as Hr. unfold is_int64 in Hr.
  assert (0 <= long_val x / long_val p) by (apply Z.div_pos; lia).
  rewrite render_opt by done. unfold Duration_append64, Long_lessThan.
  rewrite long_equals_ZERO, long_compare_val by congruence.
  destruct (Z.eqb_spec (long_val x) 0) as [E|]; cbn [orb].
  { exists x. rewrite E, Z.div_0_l, Z.mod_0_l by lia. done. }
  destruct (Z.ltb_spec (Z.sgn (long_val x - long_val p)) 0).
  { exists x. rewrite Z.div_small, Z.mod_small by lia. done. }
  destruct (long_div_val x p Ux Up ltac:(lia)) as [Db Du]. destruct (long_mod_val x p Ux Up ltac:(lia)) as [Mv Mu].
  assert (Dv : long_val (Long_div x p) = long_val x / long_val p).
  { rewrite Z.quot_div_nonneg in Db by lia. apply long_val_of_bits; [done|done|].
    assert (long_val x / long_val p <= long_val x) by (apply Z.div_le_upper_bound; nia). unfold is_int64. lia. }
  exists (Long_mod x p). rewrite long_toString_val, Dv. rewrite Z.rem_mod_nonneg in Mv by lia.
  destruct (Z.eqb_spec (long_val x / long_val p) 0) as [E|]; [|done].
  apply Z.div_small_iff in E; lia.
Qed.

Lemma toString_render d :
  Duration_wf d -> - 2 ^ 63 < d_nanoseconds d -> Z.abs (d_months d) mod 12 < 6 ->
  let neg := (d_months d <? 0) || (d_days d <? 0) || (d_nanoseconds d <? 0) in
  Duration_toString d = sign_text neg ++
    render (date_components (Z.abs (d_months d)) (Z.abs (d_days d)) ++ time_components (Z.abs (d_nanoseconds d))).
Proof.
  intros (Hm & Hd & Hn) Hmin H12. cbv zeta. unfold Duration_toString, Duration_nanoseconds.
  destruct (bigintToLong_spec (d_nanoseconds d) Hn) as [Vn Un]. set (x := bigintToLong (d_nanoseconds d)) in *. clearbody x.
  rewrite long_isNegative_val, long_equals_ZERO, Vn by done. rewrite append_years by (done || lia).
  destruct (Duration_append (Z.abs (d_months d) mod 12) 1 (str "mo")) as [mo r1] eqn:Emo.
  assert (Emo' : mo = render (opt (Z.abs (d_months d) mod 12) Umo)).
  { rewrite <- (append_one _ (str "mo") Umo); [by rewrite Emo|apply Z.mod_pos_bound; lia|done]. }
  destruct (Duration_append (Z.abs (d_days d)) 1 (str "d")) as [da r2] eqn:Eda.
  assert (Eda' : da = render (opt (Z.abs (d_days d)) Ud)).
  { rewrite <- (append_one _ (str "d") Ud); [by rewrite Eda|lia|done]. }
  subst mo da. clear Emo Eda. unfold date_components. rewrite !render_app.
  change (if (d_months d <? 0) || (d_days d <? 0) || (d_nanoseconds d <? 0) then str "-" else [])
    with (sign_text ((d_months d <? 0) || (d_days d <? 0) || (d_nanoseconds d <? 0))).
  destruct (Z.eqb_spec (d_nanoseconds d) 0) as [E0|Hne]; cbn [negb].
  { rewrite E0. change (render (time_components (Z.abs 0))) with (@nil ascii). by rewrite app_nil_r. }
  set (nanos := if d_nanoseconds d <? 0 then Long_negate x else x).
  assert (Hnanos : long_unsigned nanos = false /\ long_val nanos = Z.abs (d_nanoseconds d)).
  { unfold nanos. destruct (Z.ltb_spec (d_nanoseconds d) 0); [|split; [done|lia]].
    destruct (long_negate_val x Un ltac:(lia)) as [-> ->]. split; [done|lia]. }
  clearbody nanos. destruct Hnanos as [Ua Va]. destruct nanos_units as ([N1 U1] & [N2 U2] & [N3 U3] & [N4 U4] & [N5 U5]).
  assert (P : forall z m, 0 < m -> 0 <= z mod m) by (intros; apply Z.mod_pos_bound; lia).
  destruct (append64_spec nanos nanosPerHour (str "h") Uh) as (r & -> & Ur & Vr); [done|lia|done|lia|done|].
  destruct (append64_spec r nanosPerMinute (str "m") Um) as (r3 & -> & Ur3 & Vr3); [done|rewrite Vr, N5; auto with lia|done|lia|done|].
  destruct (append64_spec r3 nanosPerSecond (str "s") Us) as (r4 & -> & Ur4 & Vr4); [done|rewrite Vr3, N4; auto with lia|done|lia|done|].
  destruct (append64_spec r4 nanosPerMilli (str "ms") Ums) as (r5 & -> & Ur5 & Vr5); [done|rewrite Vr4, N3; auto with lia|done|lia|done|].
  destruct (append64_spec r5 nanosPerMicro (str "us") Uus) as (r6 & -> & Ur6 & Vr6); [done|rewrite Vr5, N2; auto with lia|done|lia|done|].
  destruct Long_ONE_bits as [O1 OU]. assert (OV : long_val Long_ONE = 1) by (rewrite long_val_signed, O1 by done; done).
  destruct (append64_spec r6 Long_ONE (str "ns") Uns) as (r7 & -> & _ & _); [done|rewrite Vr6, N1; auto with lia|done|lia|done|].
  rewrite OV, Z.div_1_r, Vr6, Vr5, Vr4, Vr3, Vr, Va, N1, N2, N3, N4, N5.
  set (n := Z.abs (d_nanoseconds d)).
  rewrite (Z.mod_mod_divide n 3600000000000 60000000000) by (by exists 60).
  rewrite (Z.mod_mod_divide n 60000000000 1000000000) by (by exists 60).
  rewrite (Z.mod_mod_divide n 1000000000 1000000) by (by exists 1000).
  rewrite (Z.mod_mod_divide n 1000000 1000) by (by exists 1000).
  unfold time_components. rewrite !render_app, <- !app_assoc. done.
Qed.
End toString.

(** ** The guarantees *)

(** C38: parsing the standard format [12y3mo...] adds the components up: the
    units have to come in strictly decreasing size (weeks before days), each
    at most once, and the sums of months and days have to fit 31 bits and that
    of nanoseconds 63 bits; otherwise a TypeError is thrown.  A leading minus
    negates all three.  The numbers have any number of digits, but those of
    hours and of the smaller units have to be below [2^63]: then no sum wraps
    around. *)
Theorem Duration_standard_format `{LongLaws} (neg : bool) (l : list component)
  (Hl : Forall component_ok l) :
  Duration_fromString (sign_text neg ++ render l) =
    let m := total unit_months l in
    let d := total unit_days l in
    let n := total unit_nanos l in
    if ordered 0 l && within m d n
    then Ok (mkDuration (signed_by neg m) (signed_by neg d) (signed_by neg n))
    else Throw TypeError.
Proof. by apply fromString_render. Qed.

Lemma Duration_standard_format_witness :
  Duration_fromString (str "-2w3d10h") = Ok (mkDuration 0 (-17) (-36000000000000)).
Proof.
  refine (Duration_standard_format true [([2], Uw); ([3], Ud); ([1; 0], Uh)] _).
  repeat (apply Forall_cons; split; [split; [repeat (apply Forall_cons; split; [cbn; lia|]); constructor
    |split; [discriminate|intros _; vm_compute; reflexivity]]|]); constructor.
Defined.

(** From [2^63] on the number of a unit of time is taken modulo [2^64]. *)
Example Duration_fromString_wraps :
  Duration_fromString (str "18446744073709551617ns") = Ok (mkDuration 0 0 1).
Proof. vm_compute. reflexivity. Qed.

(** [fromString] of [toString] gives the duration back, for durations
    whose parts have the same sign and whose months leave less than half a
    year over (see [Duration_toString_rounds_years]). *)
Theorem Duration_text_roundtrip `{LongLaws} (d : Duration) (neg : bool)
  (Hm : 0 <= signed_by neg (d_months d) <= maxInt32) (Hd : 0 <= signed_by neg (d_days d) <= maxInt32)
  (Hn : 0 <= signed_by neg (d_nanoseconds d) <= maxInt64)
  (Hhalf : Z.abs (d_months d) mod 12 < 6) :
  Duration_fromString (Duration_toString d) = Ok d.
Proof.
  unfold signed_by, maxInt32, maxInt64 in *.
  assert (Hwf : Duration_wf d) by (unfold Duration_wf, is_int32, is_int64; destruct neg; lia).
  rewrite toString_render by (done || destruct neg; lia). cbv zeta.
  rewrite fromString_render by (apply components_ok; destruct neg; lia).
  unfold duration_of. rewrite components_ordered.
  destruct (components_totals (Z.abs (d_months d)) (Z.abs (d_days d)) (Z.abs (d_nanoseconds d))) as (-> & -> & ->); [lia..|].
  unfold within, maxInt32, maxInt64.
  destruct (Z.leb_spec (Z.abs (d_months d)) 2147483647), (Z.leb_spec (Z.abs (d_days d)) 2147483647),
    (Z.leb_spec (Z.abs (d_nanoseconds d)) (2 ^ 63 - 1)); try (destruct neg; lia). cbn [andb].
  destruct d as [m dd n]. unfold signed_by. cbn [d_months d_days d_nanoseconds] in *.
  do 2 f_equal; destruct (Z.ltb_spec m 0), (Z.ltb_spec dd 0), (Z.ltb_spec n 0); cbn [orb]; destruct neg; lia.
Qed.

Lemma Duration_text_roundtrip_witness :
  Duration_fromString (Duration_toString (mkDuration (-17) (-3) (-123456789012345)))
    = Ok (mkDuration (-17) (-3) (-123456789012345)).
Proof.
  refine (Duration_text_roundtrip (mkDuration (-17) (-3) (-123456789012345)) true _ _ _ _);
    [vm_compute; split; intros [=]..|vm_compute; reflexivity].
Defined.

(** [toFixed(0)] rounds the number of years to the nearest integer while
    the remaining months are kept: 18 months print as two years and six
    months, and read back as 30 months. *)
Theorem Duration_toString_rounds_years :
  Duration_toString (mkDuration 18 0 0) = str "2y6mo" /\
  Duration_fromString (Duration_toString (mkDuration 18 0 0)) = Ok (mkDuration 30 0 0).
Proof. split; vm_compute; reflexivity. Qed.

(** The binary form: three zigzag integers of variable size. *)
Definition duration_bytes (d : Duration) : list Z :=
  vint_bytes (zigzag (d_months d)) ++ vint_bytes (zigzag (d_days d)) ++ vint_bytes (zigzag (d_nanoseconds d)).

Lemma Duration_toBuffer_bytes `{LongLaws} d b1 b2 b3 :
  Duration_wf d -> (9 <= length b1)%nat -> (9 <= length b2)%nat -> (9 <= length b3)%nat ->
  exists b1' b2' b3', Duration_toBuffer d b1 b2 b3 = (duration_bytes d, (b1', b2', b3')) /\
    length b1' = length b1 /\ length b2' = length b2 /\ length b3' = length b3.
Proof.
  destruct d as [m dd n]. intros (Hm & Hdd & Hn) H1 H2 H3. unfold duration_bytes. cbn [d_months d_days d_nanoseconds] in *.
  destruct (long_fromNumber_val m ltac:(unfold is_int32 in *; lia)) as [Vm Um].
  destruct (long_fromNumber_val dd ltac:(unfold is_int32 in *; lia)) as [Vd Ud'].
  destruct (bigintToLong_spec n Hn) as [Vn Un].
  destruct (writeVInt_spec (Long_fromNumber m) b1 Um H1) as [E1 L1].
  destruct (writeVInt_spec (Long_fromNumber dd) b2 Ud' H2) as [E2 L2].
  destruct (writeVInt_spec (bigintToLong n) b3 Un H3) as [E3 L3]. rewrite Vm, Vd, Vn in *.
  unfold Duration_toBuffer, Duration_nanoseconds. cbn [d_months d_days d_nanoseconds]. rewrite E1, E2, E3.
  unfold slice. rewrite !drop_0, !Nat.sub_0_r, !Nat2Z.id, !take_app_length.
  eexists _, _, _. split; [done|].
  assert (Hlen : forall v b : list Z, (1 <= length v <= 9)%nat -> (9 <= length b)%nat -> length (v ++ drop (length v) b) = length b)
    by (intros; rewrite length_app, length_drop; lia).
  split; [by apply Hlen|]. split; by apply Hlen.
Qed.

Lemma Duration_fromBuffer_bytes `{LongLaws} d : Duration_wf d -> Duration_fromBuffer (duration_bytes d) = Ok d.
Proof.
  destruct d as [m dd n]. intros (Hm & Hdd & Hn). unfold duration_bytes. cbn [d_months d_days d_nanoseconds] in *.
  assert (I64 : forall z, is_int32 z -> is_int64 z) by (unfold is_int32, is_int64; lia).
  set (v1 := vint_bytes (zigzag m)). set (v2 := vint_bytes (zigzag dd)). set (v3 := vint_bytes (zigzag n)).
  unfold Duration_fromBuffer.
  destruct (readVInt_spec m [] (v2 ++ v3) (I64 _ Hm)) as (x1 & R1 & X1 & Y1).
  destruct (readVInt_spec dd v1 v3 (I64 _ Hdd)) as (x2 & R2 & X2 & Y2).
  destruct (readVInt_spec n (v1 ++ v2) [] Hn) as (x3 & R3 & X3 & Y3).
  fold v1 in R1. fold v2 in R2. fold v3 in R3. cbn [app length Nat.add] in R1. rewrite app_nil_r, length_app, <- !app_assoc in R3.
  rewrite R1, R2, R3, !long_toNumber_val, X1, X2.
  assert (R53 : forall z, is_int32 z -> round53 z = z).
  { intros z Hz. unfold round53, round53_abs. destruct (Z.ltb_spec (Z.abs z) (2 ^ 53)); [lia|unfold is_int32 in *; lia]. }
  rewrite !R53, Duration_new_spec by done. by rewrite X3.
Qed.

(** the binary form read back gives the same duration, whatever the
    shared buffers held before, and they can be used again. *)
Theorem Duration_buffer_roundtrip `{LongLaws} (d : Duration) (b1 b2 b3 : list Z)
  (Hd : Duration_wf d) (H1 : (9 <= length b1)%nat) (H2 : (9 <= length b2)%nat) (H3 : (9 <= length b3)%nat) :
  exists bytes b1' b2' b3', Duration_toBuffer d b1 b2 b3 = (bytes, (b1', b2', b3')) /\
    length b1' = length b1 /\ length b2' = length b2 /\ length b3' = length b3 /\
    Duration_fromBuffer bytes = Ok d.
Proof.
  destruct (Duration_toBuffer_bytes d b1 b2 b3 Hd H1 H2 H3) as (b1' & b2' & b3' & E & L1 & L2 & L3).
  exists (duration_bytes d), b1', b2', b3'. split_and!; try done. by apply Duration_fromBuffer_bytes.
Qed.

Lemma Duration_buffer_roundtrip_witness :
  exists bytes b1' b2' b3',
    Duration_toBuffer (mkDuration (-18) 7 (- 2 ^ 63)) (replicate 9 1) (replicate 9 2) (replicate 9 3)
      = (bytes, (b1', b2', b3')) /\
    length b1' = length (replicate 9 1) /\ length b2' = length (replicate 9 2) /\ length b3' = length (replicate 9 3) /\
    Duration_fromBuffer bytes = Ok (mkDuration (-18) 7 (- 2 ^ 63)).
Proof.
  refine (Duration_buffer_roundtrip (mkDuration (-18) 7 (- 2 ^ 63)) (replicate 9 1) (replicate 9 2) (replicate 9 3) _ _ _ _);
    [unfold Duration_wf, is_int32, is_int64; cbn; lia|cbn; lia..].
Defined.
