(* ===== verification/BigDecimal.v ===== *)
(** [lib/types/big-decimal.js]: decimals [unscaledValue * 10^(-scale)]. *)
From S2P Require Import Prelude.
From S2P Require Import JsNum.
From S2P Require Import JsStr.
From S2P Require Import Buffer.
From S2P Require Import Integer.
From S2P Require Import IntegerArith.
From S2P Require Import IntegerMul.
From S2P Require Import IntegerText.

Record BigDecimal := mkBigDecimal { _intVal : Integer; _scale : Z }.

(** The constructor with a Number. *)
Definition BigDecimal_new_number (unscaledValue : number) (scale : Z) : BigDecimal :=
  mkBigDecimal (Integer_fromNumber unscaledValue) scale.

Definition BigDecimal_fromBuffer (buf : list Z) : result BigDecimal :=
  scale ← readInt 4 buf 0;
  Ok (mkBigDecimal (Integer_fromBuffer (drop 4 buf)) scale).

Definition BigDecimal_toBuffer (value : BigDecimal) : result (list Z) :=
  let unscaledValueBuffer := Integer_toBuffer (_intVal value) in
  scaleBuffer ← writeInt 4 (_scale value);
  Ok (scaleBuffer ++ unscaledValueBuffer).

Definition BigDecimal_fromString (value : jsstr) : result BigDecimal :=
  match value with
  | [] => Throw TypeError
  | _ =>
      let value := trim value in
      let '(value, scale) :=
        match index_of "."%char value with
        | Some scaleIndex =>
            (substr value 0 scaleIndex ++ drop (scaleIndex + 1) value,
             Z.of_nat (length value) - 1 - Z.of_nat scaleIndex)
        | None => (value, 0)
        end in
      i ← Integer_fromString value 0; Ok (mkBigDecimal i scale)
  end.

(** [fromNumber]: the texts of [value.toString()] and [value.toFixed(20)] are
    those of the engine. *)
Definition BigDecimal_fromNumber (toString_ toFixed20 : number -> jsstr) (value : number) : result BigDecimal :=
  match value with
  | NaN => Ok (mkBigDecimal Integer_ZERO 0)
  | _ =>
      let textValue := toString_ value in
      let textValue := if contains_char "e"%char textValue then toFixed20 value else textValue in
      BigDecimal_fromString textValue
  end.

Section arith.
(** [Math.pow(10, n)]: its accuracy is left to the engine. *)
Context (pow10 : Z -> number).

(** [add] and [subtract] differ in the operation on the unscaled values. *)
Definition BigDecimal_combine (op : Integer -> Integer -> Integer) (first other : BigDecimal) : BigDecimal :=
  if _scale first =? _scale other
  then mkBigDecimal (op (_intVal first) (_intVal other)) (_scale first)
  else if _scale first <? _scale other then
    let diffScale := _scale other - _scale first in
    mkBigDecimal (op (Integer_multiply (_intVal first) (Integer_fromNumber (pow10 diffScale))) (_intVal other))
                 (_scale other)
  else
    let diffScale := _scale first - _scale other in
    mkBigDecimal (op (_intVal first) (Integer_multiply (_intVal other) (Integer_fromNumber (pow10 diffScale))))
                 (_scale first).

Definition BigDecimal_subtract := BigDecimal_combine Integer_subtract.
Definition BigDecimal_add := BigDecimal_combine Integer_add.

Definition BigDecimal_isNegative (x : BigDecimal) : bool := Integer_isNegative (_intVal x).
Definition BigDecimal_isZero (x : BigDecimal) : bool := Integer_isZero (_intVal x).

Definition BigDecimal_compare (x other : BigDecimal) : Z :=
  let diff := BigDecimal_subtract x other in
  if BigDecimal_isNegative diff then -1 else if BigDecimal_isZero diff then 0 else 1.

Definition BigDecimal_equals (x other : BigDecimal) : bool := BigDecimal_compare x other =? 0.
Definition BigDecimal_notEquals (x other : BigDecimal) : bool := negb (BigDecimal_equals x other).
Definition BigDecimal_greaterThan (x other : BigDecimal) : bool := BigDecimal_compare x other =? 1.
End arith.

Section text.
Context (ceil_log2 : Z -> Z).

(** The layout of [toString] around the digits of the unscaled value. *)
Definition BigDecimal_layout (intString : jsstr) (scale : Z) : jsstr :=
  if scale =? 0 then intString
  else
    let '(signSymbol, intString) :=
      match intString with
      | c :: s => if decide (c = "-"%char) then (str "-", s) else ([], intString)
      | [] => ([], [])
      end in
    let separatorIndex := Z.of_nat (length intString) - scale in
    let '(intString, separatorIndex) :=
      if separatorIndex <=? 0 then
        let intString := replicate (Z.to_nat (- separatorIndex + 1)) "0"%char ++ intString in
        (intString, Z.of_nat (length intString) - scale)
      else (intString, separatorIndex) in
    signSymbol ++ take (Z.to_nat separatorIndex) intString ++ str "." ++ drop (Z.to_nat separatorIndex) intString.

Definition BigDecimal_toString (x : BigDecimal) : result jsstr :=
  intString ← Integer_toString ceil_log2 (_intVal x) 0; Ok (BigDecimal_layout intString (_scale x)).

(** [toNumber]: [parseFloat] is the engine's. *)
Definition BigDecimal_toNumber (parseFloat : jsstr -> number) (x : BigDecimal) : result number :=
  s ← BigDecimal_toString x; Ok (parseFloat s).
End text.

(** ** Facts *)

Record BigDecimal_wf (x : BigDecimal) : Prop := { bd_int : Integer_wf (_intVal x); bd_scale : is_int32 (_scale x) }.

(** The value at a finer scale [s]. *)
Definition BigDecimal_at (x : BigDecimal) (s : Z) : Z := Integer_val (_intVal x) * 10 ^ (s - _scale x).

Section arith_facts.
Context (pow10 : Z -> number).
(** Small powers of ten are exact. *)
Context (pow10_exact : forall n, 0 <= n <= 22 -> pow10 n = Int (10 ^ n)).

Lemma rescale_spec x n :
  Integer_wf x -> 0 < n <= 9 ->
  Integer_wf (Integer_multiply x (Integer_fromNumber (pow10 n))) /\
  Integer_val (Integer_multiply x (Integer_fromNumber (pow10 n))) = Integer_val x * 10 ^ n.
Proof.
  intros Hx Hn. rewrite pow10_exact by lia. destruct (Integer_fromNumber_int (10 ^ n)) as [W V].
  assert (0 < 10 ^ n <= 10 ^ 9) by (split; [apply Z.pow_pos_nonneg; lia|apply Z.pow_le_mono_r; lia]).
  destruct (Integer_multiply_spec x _ Hx W ltac:(lia)) as [Wm Vm]. split; [done|]. by rewrite Vm, V.
Qed.

Lemma combine_spec op f x y :
  (forall a b, Integer_wf a -> Integer_wf b -> Integer_wf (op a b) /\ Integer_val (op a b) = f (Integer_val a) (Integer_val b)) ->
  BigDecimal_wf x -> BigDecimal_wf y -> Z.abs (_scale x - _scale y) <= 9 ->
  let s := Z.max (_scale x) (_scale y) in
  let z := BigDecimal_combine pow10 op x y in
  BigDecimal_wf z /\ _scale z = s /\ Integer_val (_intVal z) = f (BigDecimal_at x s) (BigDecimal_at y s).
Proof.
  intros Hop [Wx Sx] [Wy Sy] Hs. cbv zeta. unfold BigDecimal_combine, BigDecimal_at.
  destruct (Z.eqb_spec (_scale x) (_scale y)) as [E|].
  - destruct (Hop _ _ Wx Wy) as [W V]. cbn [_intVal _scale]. rewrite E, Z.max_id, Z.sub_diag, !Z.mul_1_r.
    split; [by constructor|]. split; [done|]. done.
  - destruct (Z.ltb_spec (_scale x) (_scale y)).
    + destruct (rescale_spec (_intVal x) (_scale y - _scale x) Wx ltac:(lia)) as [Wm Vm].
      destruct (Hop _ _ Wm Wy) as [W V]. cbn [_intVal _scale].
      rewrite Z.max_r, Z.sub_diag, Z.mul_1_r by lia. split; [by constructor|]. split; [done|]. by rewrite V, Vm.
    + destruct (rescale_spec (_intVal y) (_scale x - _scale y) Wy ltac:(lia)) as [Wm Vm].
      destruct (Hop _ _ Wx Wm) as [W V]. cbn [_intVal _scale].
      rewrite Z.max_l, Z.sub_diag, Z.mul_1_r by lia. split; [by constructor|]. split; [done|]. by rewrite V, Vm.
Qed.
End arith_facts.

(** ** Text *)

Lemma trim_id c s d : is_space c = false -> is_space d = false -> trim (c :: s ++ [d]) = c :: s ++ [d].
Proof.
  intros Hc Hd. unfold trim. cbn [trim_start]. rewrite Hc. cbn [rev]. rewrite rev_app_distr. cbn [rev app trim_start].
  rewrite Hd. cbn [rev]. rewrite rev_app_distr. cbn [rev app]. by rewrite rev_involutive.
Qed.

Lemma index_of_app c s t : ~ In c s -> index_of c (s ++ c :: t) = Some (length s).
Proof.
  induction s as [|d s IH]; intros Hn; cbn.
  - by destruct (decide (c = c)).
  - destruct (decide (d = c)) as [->|]; [destruct Hn; by left|]. rewrite IH; [done|]. intros Hin. apply Hn. by right.
Qed.

Lemma digit_not_dot d : 0 <= d < 10 -> digit_char d <> "."%char.
Proof.
  intros Hd. assert (H : forallb (fun d => bool_decide (digit_char d <> "."%char)) (seqZ 0 10) = true) by (vm_compute; reflexivity).
  rewrite forallb_forall in H. specialize (H d ltac:(apply list_elem_of_In, elem_of_seqZ; lia)).
  by apply bool_decide_eq_true_1 in H.
Qed.

Lemma digits_no_dot ds : digits_in 10 ds -> ~ In "."%char (map digit_char ds).
Proof.
  intros D Hin. apply in_map_iff in Hin as (d & E & Hd). unfold digits_in in D. rewrite Forall_forall in D.
  by apply (digit_not_dot d) in E; [|by apply D, list_elem_of_In].
Qed.

(** A decimal text: sign, integer digits, point, fraction digits. *)
Lemma fromString_decimal (neg : bool) a b :
  digits_in 10 a -> digits_in 10 b -> a <> [] -> b <> [] ->
  exists i, BigDecimal_fromString ((if neg then ["-"%char] else []) ++ map digit_char a ++ str "." ++ map digit_char b)
      = Ok (mkBigDecimal i (Z.of_nat (length b))) /\ Integer_wf i /\
    Integer_val i = if neg then - be_val 10 (a ++ b) else be_val 10 (a ++ b).
Proof.
  intros Da Db Na Nb. set (sg := if neg then ["-"%char] else []).
  set (s := sg ++ map digit_char a ++ str "." ++ map digit_char b).
  assert (Hsp : forall d, 0 <= d < 10 -> is_space (digit_char d) = false) by (intros; apply digit_char_plain; lia).
  assert (Htrim : trim s = s).
  { destruct (last b) as [e|] eqn:Eb; [|by apply last_None in Eb]. apply last_Some in Eb as [b' ->].
    apply Forall_app in Db as [_ De]. inversion De as [|? ? He _]; subst. destruct a as [|d a]; [done|].
    inversion Da as [|? ? Hd _]; subst. unfold s, sg. rewrite map_app. cbn [map].
    destruct neg; cbn [app]; rewrite !app_comm_cons, !app_assoc.
    - exact (trim_id "-"%char (digit_char d :: (map digit_char a ++ str ".") ++ map digit_char b') (digit_char e)
        eq_refl (Hsp _ He)).
    - apply (trim_id (digit_char d)); by apply Hsp. }
  assert (Hidx : index_of "."%char s = Some (length (sg ++ map digit_char a))).
  { unfold s. rewrite app_assoc. apply index_of_app. rewrite in_app_iff. intros [Hin|Hin].
    - unfold sg in Hin. destruct neg; [destruct Hin as [[=]|[]]|done].
    - by apply digits_no_dot in Hin. }
  destruct (fromString_digits 10 neg (a ++ b) ltac:(lia)) as (i & E & W & V).
  { by apply Forall_app. } { by destruct a. }
  exists i. split; [|done].
  assert (Hs : exists c r, s = c :: r) by (unfold s, sg; destruct neg; [eauto|destruct a; [done|cbn; eauto]]).
  unfold BigDecimal_fromString. destruct Hs as (c & r & Es). rewrite Es at 1. rewrite Htrim, Hidx. clear Es Htrim c r.
  unfold substr. rewrite drop_0.
  assert (T1 : take (length (sg ++ map digit_char a)) s = sg ++ map digit_char a).
  { unfold s. rewrite app_assoc. apply take_app_length. }
  assert (T2 : drop (length (sg ++ map digit_char a) + 1) s = map digit_char b).
  { unfold s. rewrite app_assoc. rewrite drop_app_ge by lia.
    replace (length (sg ++ map digit_char a) + 1 - length (sg ++ map digit_char a))%nat with 1%nat by lia. done. }
  rewrite T1, T2, <- app_assoc, <- map_app. fold sg in E.
  assert (E0 : Integer_fromString (sg ++ map digit_char (a ++ b)) 0 = Ok i).
  { rewrite <- E. clear -sg. unfold sg. destruct neg; cbn [app]; [|by destruct (map digit_char (a ++ b))].
    cbn [Integer_fromString Z.eqb]. done. }
  rewrite E0. cbn. do 2 f_equal. unfold s. rewrite !length_app, !length_map.
  change (length (str ".")) with 1%nat. lia.
Qed.

(** Without a point the text is the unscaled value. *)
Lemma fromString_integer (neg : bool) ds i :
  digits_in 10 ds -> ds <> [] ->
  Integer_fromString ((if neg then ["-"%char] else []) ++ map digit_char ds) 10 = Ok i ->
  BigDecimal_fromString ((if neg then ["-"%char] else []) ++ map digit_char ds) = Ok (mkBigDecimal i 0).
Proof.
  intros D N E. set (s := (if neg then ["-"%char] else []) ++ map digit_char ds) in *.
  assert (Hsp : forall d, 0 <= d < 10 -> is_space (digit_char d) = false) by (intros; apply digit_char_plain; lia).
  assert (Htrim : trim s = s).
  { destruct (last ds) as [e|] eqn:Eb; [|by apply last_None in Eb]. apply last_Some in Eb as [b' ->].
    apply Forall_app in D as [D1 De]. inversion De as [|? ? He _]; subst. unfold s. rewrite map_app. cbn [map].
    destruct neg; cbn [app].
    - exact (trim_id "-"%char (map digit_char b') (digit_char e) eq_refl (Hsp _ He)).
    - destruct b' as [|d b']; [cbn; unfold trim; cbn [trim_start]; rewrite (Hsp _ He); cbn [rev app trim_start]; by rewrite (Hsp _ He)|].
      inversion D1; subst. exact (trim_id (digit_char d) (map digit_char b') (digit_char e) (Hsp d ltac:(done)) (Hsp _ He)). }
  assert (Hidx : index_of "."%char s = None).
  { destruct (index_of "."%char s) eqn:Ei; [|done]. exfalso.
    assert (Hin : In "."%char s).
    { clear -Ei. revert n Ei. induction s as [|c s IH]; intros n Ei; [done|]. cbn in Ei.
      destruct (decide (c = "."%char)) as [->|]; [by left|]. right. destruct (index_of "."%char s); [by eapply IH|done]. }
    unfold s in Hin. apply in_app_iff in Hin as [Hin|Hin]; [destruct neg; [destruct Hin as [[=]|[]]|done]|].
    by apply digits_no_dot in Hin. }
  assert (Hs : exists c r, s = c :: r) by (unfold s; destruct neg; [eauto|destruct ds; [done|cbn; eauto]]).
  unfold BigDecimal_fromString. destruct Hs as (c & r & Es). rewrite Es at 1. rewrite Htrim, Hidx.
  assert (E0 : Integer_fromString s 0 = Ok i).
  { rewrite <- E. clear -s. unfold s. destruct neg; cbn [app]; [|by destruct (map digit_char ds)].
    cbn [Integer_fromString Z.eqb]. done. }
  by rewrite E0.
Qed.

Lemma layout_decimal (neg : bool) ds scale :
  digits_in 10 ds -> ds <> [] -> 0 < scale ->
  exists a b, digits_in 10 a /\ digits_in 10 b /\ a <> [] /\ b <> [] /\ be_val 10 (a ++ b) = be_val 10 ds /\
    Z.of_nat (length b) = scale /\
    BigDecimal_layout ((if neg then ["-"%char] else []) ++ map digit_char ds) scale
      = (if neg then ["-"%char] else []) ++ map digit_char a ++ str "." ++ map digit_char b.
Proof.
  intros D N Hs. unfold BigDecimal_layout. destruct (Z.eqb_spec scale 0); [lia|].
  set (sg := if neg then ["-"%char] else []).
  assert (Esg : (match sg ++ map digit_char ds with
    | c :: s => if decide (c = "-"%char) then (str "-", s) else ([], sg ++ map digit_char ds)
    | [] => ([], [])
    end) = (sg, map digit_char ds)).
  { unfold sg. destruct neg; [done|]. destruct ds as [|d ds]; [done|]. cbn [app map].
    destruct (decide _) as [E|]; [|done]. inversion D; subst. by apply digit_char_not_minus in E; [|lia]. }
  rewrite Esg. clear Esg. rewrite length_map.
  (* the digits with leading zeros up to one before the point *)
  set (k := Z.to_nat (scale + 1 - Z.of_nat (length ds))). set (full := replicate k 0 ++ ds).
  assert (Df : digits_in 10 full) by (apply Forall_app; split; [apply Forall_replicate; lia|done]).
  assert (Vf : be_val 10 full = be_val 10 ds).
  { unfold full. rewrite be_val_app. unfold be_val at 1. by rewrite rev_replicate, le_val_replicate_0. }
  assert (Lf : Z.of_nat (length full) = Z.max (Z.of_nat (length ds)) (scale + 1)).
  { unfold full, k. rewrite length_app, length_replicate. lia. }
  set (sep := Z.to_nat (Z.of_nat (length full) - scale)).
  exists (take sep full), (drop sep full).
  assert (Lt : length (take sep full) = sep) by (rewrite length_take; lia).
  assert (Ld : Z.of_nat (length (drop sep full)) = scale) by (rewrite length_drop; lia).
  split; [by apply Forall_take|]. split; [by apply Forall_drop|].
  split; [intros E; rewrite E in Lt; cbn in Lt; lia|]. split; [intros E; rewrite E in Ld; cbn in Ld; lia|].
  split; [by rewrite take_drop|]. split; [done|].
  destruct (Z.leb_spec (Z.of_nat (length ds) - scale) 0).
  - replace (Z.to_nat (- (Z.of_nat (length ds) - scale) + 1)) with k by lia.
    rewrite <- map_replicate_digit, <- map_app. fold full. rewrite length_map. fold sep.
    by rewrite <- firstn_map, <- skipn_map.
  - assert (full = ds) as Ef by (unfold full; by replace k with O by lia).
    replace (Z.to_nat (Z.of_nat (length ds) - scale)) with sep by (unfold sep; by rewrite Ef).
    rewrite Ef. by rewrite <- firstn_map, <- skipn_map.
Qed.

Section text_facts.
Context (ceil_log2 : Z -> Z).
Context (ceil_log2_ok : forall a, 1 <= a -> Z.log2 a - 1 <= ceil_log2 a <= Z.log2 a + 2).

Lemma toString_layout x :
  BigDecimal_wf x -> Z.abs (Integer_val (_intVal x)) < 2 ^ 1023 ->
  BigDecimal_toString ceil_log2 x = Ok (BigDecimal_layout (num_to_string 10 (Integer_val (_intVal x))) (_scale x)).
Proof.
  intros [W _] Hb. unfold BigDecimal_toString.
  change (Integer_toString ceil_log2 (_intVal x) 0) with (Integer_toString ceil_log2 (_intVal x) 10).
  by rewrite (toString_spec ceil_log2 ceil_log2_ok 10) by (done || lia).
Qed.

Lemma text_roundtrip x :
  BigDecimal_wf x -> Z.abs (Integer_val (_intVal x)) < 2 ^ 1023 -> 0 <= _scale x ->
  exists s, BigDecimal_toString ceil_log2 x = Ok s /\ BigDecimal_fromString s = Ok x.
Proof.
  intros Hx Hb Hs. rewrite toString_layout by done. eexists. split; [done|].
  destruct x as [i scale]. destruct Hx as [W S]. cbn [_intVal _scale] in *.
  set (v := Integer_val i) in *. set (neg := v <? 0).
  destruct (num_to_string_digits 10 (Z.abs v) ltac:(lia) ltac:(lia)) as (ds & E & D & V & N).
  assert (En : num_to_string 10 v = (if neg then ["-"%char] else []) ++ map digit_char ds).
  { unfold neg. destruct (Z.ltb_spec v 0).
    - rewrite <- num_to_string_opp by done. by rewrite <- E, Z.abs_neq by lia.
    - by rewrite <- E, Z.abs_eq by lia. }
  rewrite En.
  assert (Hval : forall j w, Integer_wf j -> Integer_val j = (if neg then - w else w) -> w = Z.abs v -> j = i).
  { intros j w Wj Vj ->. apply Integer_val_inj; [done|done|]. rewrite Vj. fold v. unfold neg.
    destruct (Z.ltb_spec v 0); lia. }
  destruct (Z.eq_dec scale 0) as [->|].
  - unfold BigDecimal_layout. cbn [Z.eqb].
    destruct (fromString_digits 10 neg ds ltac:(lia) D N) as (j & Ej & Wj & Vj).
    rewrite (Hval j (be_val 10 ds) Wj Vj V) in Ej. by apply fromString_integer.
  - destruct (layout_decimal neg ds scale D N ltac:(lia)) as (a & b & Da & Db & Na & Nb & Vab & Lb & ->).
    destruct (fromString_decimal neg a b Da Db Na Nb) as (j & -> & Wj & Vj).
    rewrite (Hval j (be_val 10 (a ++ b)) Wj Vj ltac:(lia)). by rewrite Lb.
Qed.
End text_facts.

(** ** The guarantees *)

(** for scales at most nine apart, [add] and [subtract] are exact at the
    larger scale and [compare] and [equals] follow the values, whatever their
    representation. *)
Theorem BigDecimal_arithmetic (pow10 : Z -> number)
  (Hpow : forall n, 0 <= n <= 22 -> pow10 n = Int (10 ^ n)) (x y : BigDecimal)
  (Hx : BigDecimal_wf x) (Hy : BigDecimal_wf y) (Hs : Z.abs (_scale x - _scale y) <= 9) :
  let s := Z.max (_scale x) (_scale y) in
  BigDecimal_at (BigDecimal_add pow10 x y) s = BigDecimal_at x s + BigDecimal_at y s /\
  BigDecimal_at (BigDecimal_subtract pow10 x y) s = BigDecimal_at x s - BigDecimal_at y s /\
  BigDecimal_compare pow10 x y = Z.sgn (BigDecimal_at x s - BigDecimal_at y s) /\
  BigDecimal_equals pow10 x y = (BigDecimal_at x s =? BigDecimal_at y s).
Proof.
  cbv zeta.
  destruct (combine_spec pow10 Hpow Integer_add Z.add x y) as (Wa & Sa & Va); [|done..|].
  { intros. apply Integer_add_spec; by apply wf_sign. }
  destruct (combine_spec pow10 Hpow Integer_subtract Z.sub x y) as (Ws & Ss & Vs); [|done..|].
  { intros. apply Integer_subtract_spec; by apply wf_sign. }
  fold (BigDecimal_add pow10 x y) in *. fold (BigDecimal_subtract pow10 x y) in *.
  assert (Hc : BigDecimal_compare pow10 x y =
    Z.sgn (BigDecimal_at x (Z.max (_scale x) (_scale y)) - BigDecimal_at y (Z.max (_scale x) (_scale y)))).
  { unfold BigDecimal_compare, BigDecimal_isNegative, BigDecimal_isZero. cbv zeta.
    rewrite Integer_isNegative_val, Integer_isZero_val, Vs by (apply wf_sign, Ws || apply Ws).
    destruct (Z.ltb_spec (BigDecimal_at x (Z.max (_scale x) (_scale y)) - BigDecimal_at y (Z.max (_scale x) (_scale y))) 0); [lia|].
    destruct (Z.eqb_spec (BigDecimal_at x (Z.max (_scale x) (_scale y)) - BigDecimal_at y (Z.max (_scale x) (_scale y))) 0); lia. }
  split; [unfold BigDecimal_at at 1; rewrite Sa, Z.sub_diag, Va; lia|].
  split; [unfold BigDecimal_at at 1; rewrite Ss, Z.sub_diag, Vs; lia|]. split; [exact Hc|].
  unfold BigDecimal_equals. rewrite Hc. apply eq_true_iff_eq. rewrite !Z.eqb_eq. lia.
Qed.

Lemma BigDecimal_arithmetic_witness :
  BigDecimal_at (BigDecimal_add (fun n => Int (10 ^ n)) (mkBigDecimal (Integer_fromInt 15) 1) (mkBigDecimal (Integer_fromInt (-225)) 3)) 3
    = BigDecimal_at (mkBigDecimal (Integer_fromInt 15) 1) 3 + BigDecimal_at (mkBigDecimal (Integer_fromInt (-225)) 3) 3.
Proof.
  refine (proj1 (BigDecimal_arithmetic (fun n => Int (10 ^ n)) (fun _ _ => eq_refl)
    (mkBigDecimal (Integer_fromInt 15) 1) (mkBigDecimal (Integer_fromInt (-225)) 3) _ _ _)).
  - constructor; [apply Integer_fromInt_spec; unfold is_int32; lia|unfold is_int32; cbn; lia].
  - constructor; [apply Integer_fromInt_spec; unfold is_int32; lia|unfold is_int32; cbn; lia].
  - cbn. lia.
Defined.

(** a decimal is the same after the binary form, and for a scale that is
    not negative after its text, read back. *)
Theorem BigDecimal_roundtrips (ceil_log2 : Z -> Z)
  (Hlog : forall a, 1 <= a -> Z.log2 a - 1 <= ceil_log2 a <= Z.log2 a + 2) (x : BigDecimal)
  (Hx : BigDecimal_wf x) (Hb : Z.abs (Integer_val (_intVal x)) < 2 ^ 1023) :
  (exists buf, BigDecimal_toBuffer x = Ok buf /\ BigDecimal_fromBuffer buf = Ok x) /\
  (0 <= _scale x -> exists s, BigDecimal_toString ceil_log2 x = Ok s /\ BigDecimal_fromString s = Ok x).
Proof.
  split; [|intros Hs; by apply text_roundtrip].
  destruct x as [i scale]. destruct Hx as [W S]. cbn [_intVal _scale] in *.
  unfold BigDecimal_toBuffer. cbn [_intVal _scale].
  assert (Ew : exists bytes, writeInt 4 scale = Ok bytes).
  { unfold writeInt, is_int32 in *. change (2 ^ (8 * Z.of_nat 4 - 1)) with (2 ^ 31).
    destruct (Z.leb_spec (- 2 ^ 31) scale), (Z.ltb_spec scale (2 ^ 31)); eauto; lia. }
  destruct Ew as [bytes Ew]. rewrite Ew. cbn. eexists. split; [done|].
  pose proof (readInt_writeInt 4 scale bytes [] (Integer_toBuffer i) ltac:(lia) Ew) as Er. cbn [app length] in Er.
  destruct (writeInt_ok 4 scale bytes Ew) as (_ & Hl & _).
  unfold BigDecimal_fromBuffer. rewrite Er. cbn. do 2 f_equal.
  rewrite drop_app_length' by done.
  destruct (Integer_toBuffer_spec i W) as (B & N & V). destruct (Integer_fromBuffer_spec _ B N) as [W2 V2].
  apply Integer_val_inj; [done|done|by rewrite V2].
Qed.

Lemma BigDecimal_roundtrips_witness :
  exists s, BigDecimal_toString Z.log2_up (mkBigDecimal (Integer_fromInt (-5)) 3) = Ok s /\
    BigDecimal_fromString s = Ok (mkBigDecimal (Integer_fromInt (-5)) 3).
Proof.
  refine (proj2 (BigDecimal_roundtrips Z.log2_up _ (mkBigDecimal (Integer_fromInt (-5)) 3) _ _) _).
  - intros a Ha. pose proof (Z.le_log2_log2_up a). pose proof (Z.le_log2_up_succ_log2 a). lia.
  - constructor; [apply Integer_fromInt_spec; unfold is_int32; lia|unfold is_int32; cbn; lia].
  - vm_compute. reflexivity.
  - cbn. lia.
Defined.

(** a negative scale, which stands for trailing zeros, is dropped by
    [toString]: 5 * 10^2 prints as "5." and reads back as 5. *)
Theorem BigDecimal_negative_scale_text :
  BigDecimal_toString Z.log2_up (mkBigDecimal (Integer_fromInt 5) (-2)) = Ok (str "5.") /\
  BigDecimal_fromString (str "5.") = Ok (mkBigDecimal (Integer_fromInt 5) 0).
Proof. split; vm_compute; reflexivity. Qed.
