(* ===== verification/Uuid.v ===== *)
(** [lib/types/uuid.js] and [lib/types/time-uuid.js]. *)
From S2P Require Import Prelude.
From S2P Require Import JsNum.
From S2P Require Import JsStr.
From S2P Require Import Buffer.
From S2P Require Import LongLib.

(** ** Hexadecimal text *)

Definition hex_digit (c : ascii) : option Z :=
  match char_digit c with Some d => if d <? 16 then Some d else None | None => None end.

(** [buffer.toString("hex")] *)
Definition hex_of_bytes (bytes : list Z) : jsstr :=
  concat (map (fun b => [digit_char (b / 16); digit_char (b mod 16)]) bytes).

(** [Buffer.from(s, "hex")] stops at the first pair that is not hexadecimal. *)
Fixpoint bytes_of_hex (s : jsstr) : list Z :=
  match s with
  | c :: d :: s' =>
      match hex_digit c, hex_digit d with
      | Some x, Some y => (16 * x + y) :: bytes_of_hex s'
      | _, _ => []
      end
  | _ => []
  end.

(** ** Uuid *)

(** The 16 bytes of [#raw]. *)
Record Uuid := mkUuid { uuid_raw : list Z }.

#[export] Instance Uuid_eq_dec : EqDecision Uuid.
Proof. solve_decision. Defined.

Definition Uuid_new (buffer : list Z) : result Uuid :=
  if (length buffer =? 16)%nat then Ok (mkUuid buffer) else Throw TypeError.

(** [uuidRegex]: groups of [n] hexadecimal digits separated by hyphens. *)
Fixpoint match_hex_groups (groups : list nat) (s : jsstr) : bool :=
  match groups with
  | [] => false
  | [n] => (length s =? n)%nat && forallb (fun c => bool_decide (is_Some (hex_digit c))) s
  | n :: groups' =>
      (length (take n s) =? n)%nat && forallb (fun c => bool_decide (is_Some (hex_digit c))) (take n s) &&
      char_is s n "-"%char && match_hex_groups groups' (drop (S n) s)
  end.

Definition uuidRegex_test (s : jsstr) : bool := match_hex_groups [8; 4; 4; 4; 12]%nat s.

(** [value.replace(/-/g, "")] *)
Definition remove_hyphens (s : jsstr) : jsstr := List.filter (fun c => negb (bool_decide (c = "-"%char))) s.

Definition Uuid_fromString (value : jsstr) : result Uuid :=
  if negb (uuidRegex_test value) then Throw PlainError
  else Uuid_new (bytes_of_hex (remove_hyphens value)).

(** [random] without a callback; the bytes come from the native module. *)
Definition Uuid_random (random_v4 : list Z) : result Uuid := Uuid_new random_v4.

Definition Uuid_getBuffer (x : Uuid) : list Z := uuid_raw x.

Definition Uuid_equals (x other : Uuid) : bool := bool_decide (Uuid_getBuffer x = Uuid_getBuffer other).

Definition Uuid_toString (x : Uuid) : jsstr :=
  let hexValue := hex_of_bytes (uuid_raw x) in
  let s i j := substring hexValue i j in
  s 0%nat 8%nat ++ str "-" ++ s 8%nat 12%nat ++ str "-" ++ s 12%nat 16%nat ++ str "-" ++
  s 16%nat 20%nat ++ str "-" ++ drop 20 hexValue.

(** ** TimeUuid *)

Definition _unixToGregorian : Z := 12219292800000.
Definition _ticksInMs : Z := 10000.

Definition minNodeId : list Z := [128; 128; 128; 128; 128; 128].
Definition minClockId : list Z := [128; 128].
Definition maxNodeId : list Z := [127; 127; 127; 127; 127; 127].
Definition maxClockId : list Z := [127; 127].

(** The module's counters [_ticks], [_ticksForCurrentTime], [_lastTimestamp]. *)
Record tu_state := mkTuState { tu_ticks : Z; tu_ticksForCurrentTime : Z; tu_lastTimestamp : Z }.

Definition tu_initial : tu_state := mkTuState 0 0 0.

(** A [nodeId] or [clockId] argument. *)
Inductive id_arg := IdAbsent | IdString (s : jsstr) | IdBuffer (b : list Z).

(** [getNodeId] and [getClockId]: [n] bytes; [random] is what
    [crypto.randomBytes] returns. *)
Definition tu_getId (n : nat) (random : list Z) (id : id_arg) : result (list Z) :=
  match id with
  | IdAbsent => Ok random
  | IdString s => let buffer := map code s in if (length buffer =? n)%nat then Ok buffer else Throw PlainError
  | IdBuffer buffer => if (length buffer =? n)%nat then Ok buffer else Throw PlainError
  end.

Definition tu_getTicks (st : tu_state) (ticks : option Z) : Z * tu_state :=
  let internal :=
    let t := tu_ticks st + 1 in
    let t := if _ticksInMs <=? t then 0 else t in
    (t, mkTuState t (tu_ticksForCurrentTime st) (tu_lastTimestamp st)) in
  match ticks with
  | Some t => if _ticksInMs <=? t then internal else (t, st)
  | None => internal
  end.

(** [getTimeWithTicks]; [now] is the clock, [date] is [None] for a missing or
    invalid Date.  Returns the time, the ticks and the counters. *)
Definition tu_getTimeWithTicks (now : Z) (st : tu_state) (date ticks : option Z) : Z * Z * tu_state :=
  match date with
  | Some d => let '(t, st) := tu_getTicks st ticks in (d, t, st)
  | None =>
      let n := tu_ticksForCurrentTime st + 1 in
      let '(n, last) :=
        if (_ticksInMs <? n) || (tu_lastTimestamp st <? now) then (0, now) else (n, tu_lastTimestamp st) in
      let '(t, st) := tu_getTicks (mkTuState (tu_ticks st) n last) (Some n) in
      (now, t, st)
  end.

Section timeuuid.
Context `{LongLib}.

(** [writeTime]: the first eight bytes. *)
Definition tu_writeTime (time ticks : Z) : result (list Z) :=
  let val := Long_add (Long_mul (Long_fromNumber (time + _unixToGregorian)) (Long_fromNumber 10000))
               (Long_fromNumber ticks) in
  let timeHigh := Long_getHighBitsUnsigned val in
  low ← writeUInt 4 (Long_getLowBitsUnsigned val);
  mid ← writeUInt 2 (timeHigh .& 65535);
  high ← writeUInt 2 ((timeHigh .>>> 16) .& 65535);
  Ok (low ++ mid ++ high).

(** [generateBuffer]: the counters change even when an identifier is
    rejected. *)
Definition tu_generateBuffer (now : Z) (randomNode randomClock : list Z) (st : tu_state)
    (date ticks : option Z) (nodeId clockId : id_arg) : result (list Z) * tu_state :=
  let '(time, ticks, st) := tu_getTimeWithTicks now st date ticks in
  let r :=
    nodeId ← tu_getId 6 randomNode nodeId;
    clockId ← tu_getId 2 randomClock clockId;
    timeBytes ← tu_writeTime time ticks;
    let buffer := timeBytes ++ clockId ++ nodeId in
    let buffer := <[6%nat := rd buffer 6 .& 15]> buffer in
    let buffer := <[6%nat := rd buffer 6 .| 16]> buffer in
    let buffer := <[8%nat := rd buffer 8 .& 63]> buffer in
    let buffer := <[8%nat := rd buffer 8 .| 128]> buffer in
    Ok buffer in
  (r, st).

(** The constructor with a date and the constructor with a buffer. *)
Definition TimeUuid_new now randomNode randomClock st date ticks nodeId clockId : result Uuid * tu_state :=
  let '(r, st) := tu_generateBuffer now randomNode randomClock st date ticks nodeId clockId in
  (b ← r; Uuid_new b, st).

Definition TimeUuid_fromBuffer (buffer : list Z) : result Uuid :=
  if (length buffer =? 16)%nat then Uuid_new buffer else Throw PlainError.

Definition TimeUuid_fromString (value : jsstr) : result Uuid :=
  u ← Uuid_fromString value; TimeUuid_fromBuffer (Uuid_getBuffer u).

Definition TimeUuid_min now rn rc st date ticks :=
  TimeUuid_new now rn rc st date ticks (IdBuffer minNodeId) (IdBuffer minClockId).

Definition TimeUuid_max now rn rc st date ticks :=
  TimeUuid_new now rn rc st date ticks (IdBuffer maxNodeId) (IdBuffer maxClockId).

Definition TimeUuid_now now rn rc st nodeId clockId := TimeUuid_new now rn rc st None None nodeId clockId.

(** The date in milliseconds and the ticks. *)
Definition TimeUuid_getDatePrecision (x : Uuid) : result (Z * Z) :=
  let buffer := uuid_raw x in
  timeLow ← readUInt 4 buffer 0;
  let timeHigh := 0 in
  let timeHigh := timeHigh .| ((rd buffer 4 .& 255) .<< 8) in
  let timeHigh := timeHigh .| (rd buffer 5 .& 255) in
  let timeHigh := timeHigh .| ((rd buffer 6 .& 15) .<< 24) in
  let timeHigh := timeHigh .| ((rd buffer 7 .& 255) .<< 16) in
  let val := Long_fromBits timeLow timeHigh false in
  let ticksInMsLong := Long_fromNumber _ticksInMs in
  let ticks := Long_mod val ticksInMsLong in
  let time := Long_sub (Long_div val ticksInMsLong) (Long_fromNumber _unixToGregorian) in
  Ok (Long_toNumber time, Long_toNumber ticks).

Definition TimeUuid_getNodeId (x : Uuid) : list Z := drop 10 (uuid_raw x).
Definition TimeUuid_getClockId (x : Uuid) : list Z := slice (uuid_raw x) 8 10.
(** Decoding as ASCII clears the top bits. *)
Definition TimeUuid_getNodeIdString (x : Uuid) : jsstr := map (fun b => chr (b mod 128)) (drop 10 (uuid_raw x)).
End timeuuid.

(** Theorems on [Uuid] and [TimeUuid]. *)

(** ** Hexadecimal text *)

Definition hex_char (c : ascii) : Prop := is_Some (hex_digit c).

Lemma hex_digit_char d : 0 <= d < 16 -> hex_digit (digit_char d) = Some d.
Proof.
  intros Hd. unfold hex_digit. rewrite digit_char_digit by lia. destruct (Z.ltb_spec d 16); [done|lia].
Qed.

Lemma hex_char_spec c :
  hex_char c ->
  exists d, hex_digit c = Some d /\ 0 <= d < 16 /\ digit_char d = lower c /\ c <> "-"%char.
Proof.
  intros [d E]. exists d. split; [done|].
  assert (H : forallb (fun n => match hex_digit (chr n) with
    | Some d => (0 <=? d) && (d <? 16) && bool_decide (digit_char d = lower (chr n)) && bool_decide (chr n <> "-"%char)
    | None => true end) (seqZ 0 256) = true) by (vm_compute; reflexivity).
  rewrite forallb_forall in H.
  assert (Hc : chr (code c) = c) by (unfold chr, code; by rewrite N2Z.id, ascii_N_embedding).
  assert (Hr : 0 <= code c < 256).
  { unfold code. pose proof (N_ascii_bounded c). lia. }
  specialize (H (code c) ltac:(apply list_elem_of_In, elem_of_seqZ; lia)). rewrite Hc, E in H.
  apply andb_prop in H as [[[H1 H2]%andb_prop H3]%andb_prop H4].
  apply bool_decide_eq_true_1 in H3, H4. apply Z.leb_le in H1. apply Z.ltb_lt in H2. done.
Qed.

Lemma hex_of_bytes_chars bytes : bytes_ok bytes -> Forall hex_char (hex_of_bytes bytes).
Proof.
  induction 1 as [|b l Hb _ IH]; cbn; [constructor|].
  constructor; [|constructor; [|exact IH]]; unfold hex_char; rewrite hex_digit_char by (Z.to_euclidean_division_equations; lia); eauto.
Qed.

Lemma length_hex_of_bytes bytes : length (hex_of_bytes bytes) = (2 * length bytes)%nat.
Proof. induction bytes as [|b l IH]; cbn; [done|]. unfold hex_of_bytes in IH. rewrite IH. lia. Qed.

Lemma bytes_of_hex_of_bytes bytes : bytes_ok bytes -> bytes_of_hex (hex_of_bytes bytes) = bytes.
Proof.
  induction 1 as [|b l Hb _ IH]; [done|]. unfold hex_of_bytes in *. cbn [map concat app bytes_of_hex].
  rewrite !hex_digit_char by (Z.to_euclidean_division_equations; lia). rewrite IH. f_equal.
  Z.to_euclidean_division_equations; lia.
Qed.

Lemma hex_of_bytes_of_hex n : forall s,
  length s = (2 * n)%nat -> Forall hex_char s ->
  hex_of_bytes (bytes_of_hex s) = map lower s /\ length (bytes_of_hex s) = n /\ bytes_ok (bytes_of_hex s).
Proof.
  induction n as [|n IH]; intros s Hl Hs.
  { destruct s; [|cbn in Hl; lia]. split; [done|]. split; [done|constructor]. }
  destruct s as [|c [|d s]]; [cbn in Hl; lia|cbn in Hl; lia|].
  apply Forall_cons in Hs as [Hc Hs]. apply Forall_cons in Hs as [Hd Hs].
  destruct (hex_char_spec c Hc) as (x & Ex & Rx & Lx & _). destruct (hex_char_spec d Hd) as (y & Ey & Ry & Ly & _).
  destruct (IH s ltac:(cbn in Hl; lia) Hs) as (E & L & B).
  cbn [bytes_of_hex]. rewrite Ex, Ey. split; [|split; [cbn; by rewrite L|constructor; [lia|done]]].
  unfold hex_of_bytes in *. cbn [map concat app]. rewrite E. 
  assert ((16 * x + y) / 16 = x /\ (16 * x + y) mod 16 = y) as [-> ->] by (Z.to_euclidean_division_equations; lia).
  by rewrite Lx, Ly.
Qed.

(** ** The regular expression *)

Lemma hex_forallb s : forallb (fun c => bool_decide (is_Some (hex_digit c))) s = true <-> Forall hex_char s.
Proof.
  rewrite forallb_forall, Forall_forall. split; intros H c Hc.
  - apply list_elem_of_In, H in Hc. by apply bool_decide_eq_true_1 in Hc.
  - apply bool_decide_eq_true_2, H, list_elem_of_In, Hc.
Qed.

Lemma match_hex_groups_spec groups : forall s,
  match_hex_groups groups s = true <->
  exists parts, map length parts = groups /\ Forall (Forall hex_char) parts /\ parts <> [] /\ s = join (str "-") parts.
Proof.
  induction groups as [|n groups IH]; intros s.
  { split; [done|]. intros (parts & E & _ & N & _). by destruct parts. }
  destruct groups as [|n2 groups].
  - cbn. rewrite andb_true_iff, Nat.eqb_eq, hex_forallb. split.
    + intros [Hl Hh]. exists [s]. cbn. rewrite Hl. split; [done|]. split; [by constructor|]. done.
    + intros (parts & E & F & _ & ->). destruct parts as [|p [|]]; try discriminate. injection E as <-.
      cbn. by inversion F.
  - change (match_hex_groups (n :: n2 :: groups) s) with
      ((length (take n s) =? n)%nat && forallb (fun c => bool_decide (is_Some (hex_digit c))) (take n s) &&
       char_is s n "-"%char && match_hex_groups (n2 :: groups) (drop (S n) s)).
    rewrite !andb_true_iff, Nat.eqb_eq, hex_forallb, IH. split.
    + intros [[[Hl Hh] Hc] (parts & E & F & N & Es)]. exists (take n s :: parts). cbn [map]. rewrite Hl, E.
      split; [done|]. split; [by constructor|]. split; [done|].
      unfold char_is in Hc. destruct (s !! n) as [c|] eqn:En; [|done].
      apply bool_decide_eq_true_1 in Hc. subst c. rewrite <- (take_drop_middle s n "-"%char) at 1 by done.
      rewrite Es. destruct parts; [done|]. done.
    + intros (parts & E & F & N & ->). destruct parts as [|p parts]; [done|]. cbn [map] in E. injection E as <- E.
      apply Forall_cons in F as [Fp F]. destruct parts as [|q parts]; [done|].
      change (join (str "-") (p :: q :: parts)) with (p ++ "-"%char :: join (str "-") (q :: parts)).
      rewrite take_app_length. split; [split; [done|]|].
      * unfold char_is. rewrite lookup_app_r, Nat.sub_diag by lia. cbn. by apply bool_decide_eq_true_2.
      * exists (q :: parts). split; [done|]. split; [done|]. split; [done|].
        rewrite drop_app_ge by lia. by replace (S (length p) - length p)%nat with 1%nat by lia.
Qed.

Lemma remove_hyphens_app s t : remove_hyphens (s ++ t) = remove_hyphens s ++ remove_hyphens t.
Proof. apply List.filter_app. Qed.

Lemma remove_hyphens_hex s : Forall hex_char s -> remove_hyphens s = s.
Proof.
  unfold remove_hyphens. induction 1 as [|c s Hc _ IH]; [done|]. cbn.
  destruct (hex_char_spec c Hc) as (_ & _ & _ & _ & Hne). rewrite bool_decide_eq_false_2 by done. cbn. by rewrite IH.
Qed.

Lemma remove_hyphens_join parts : Forall (Forall hex_char) parts -> remove_hyphens (join (str "-") parts) = concat parts.
Proof.
  induction 1 as [|p parts Hp F IH]; [done|]. destruct parts as [|q parts].
  - cbn. rewrite app_nil_r. by apply remove_hyphens_hex.
  - change (join (str "-") (p :: q :: parts)) with (p ++ str "-" ++ join (str "-") (q :: parts)).
    rewrite !remove_hyphens_app, IH, (remove_hyphens_hex p) by done. done.
Qed.

(** The text of a Uuid is its five groups joined by hyphens. *)
Lemma Uuid_toString_parts h :
  length h = 32%nat ->
  exists parts, map length parts = [8; 4; 4; 4; 12]%nat /\ concat parts = h /\
    (forall u, hex_of_bytes (uuid_raw u) = h -> Uuid_toString u = join (str "-") parts).
Proof.
  intros Hl. exists [substring h 0 8; substring h 8 12; substring h 12 16; substring h 16 20; drop 20 h].
  unfold substring. split; [|split].
  - cbn [map]. rewrite !length_take, !length_drop, Hl. done.
  - do 32 (destruct h as [|? h]; [discriminate Hl|]). destruct h; [reflexivity|discriminate Hl].
  - intros u <-. reflexivity.
Qed.

Definition Uuid_wf (u : Uuid) : Prop := length (uuid_raw u) = 16%nat /\ bytes_ok (uuid_raw u).

Lemma Uuid_fromString_toString u : Uuid_wf u -> Uuid_fromString (Uuid_toString u) = Ok u.
Proof.
  intros [Hl Hb]. pose proof (length_hex_of_bytes (uuid_raw u)) as Hh. rewrite Hl in Hh.
  destruct (Uuid_toString_parts _ Hh) as (parts & El & Ec & Et). rewrite (Et u eq_refl).
  pose proof (hex_of_bytes_chars _ Hb) as Hc. rewrite <- Ec in Hc.
  assert (F : Forall (Forall hex_char) parts) by (by apply Forall_concat).
  assert (N : parts <> []) by (by intros ->).
  unfold Uuid_fromString, uuidRegex_test.
  rewrite (proj2 (match_hex_groups_spec _ _)) by eauto. cbn [negb].
  rewrite remove_hyphens_join, Ec, bytes_of_hex_of_bytes by done. unfold Uuid_new. rewrite Hl. by destruct u.
Qed.

Lemma Uuid_toString_fromString s u :
  Uuid_fromString s = Ok u -> Uuid_wf u /\ Uuid_toString u = toLowerCase s.
Proof.
  unfold Uuid_fromString. destruct (uuidRegex_test s) eqn:E; [|done]. cbn [negb].
  apply match_hex_groups_spec in E as (parts & El & F & N & ->). rewrite remove_hyphens_join by done.
  assert (Hlen : length (concat parts) = 32%nat).
  { rewrite length_concat, El. done. }
  destruct (hex_of_bytes_of_hex 16 (concat parts) Hlen) as (Eh & L & B); [by apply Forall_concat|].
  unfold Uuid_new. rewrite L. cbn [Nat.eqb]. intros [= <-]. split; [done|].
  set (u := mkUuid _). assert (Hh : length (hex_of_bytes (uuid_raw u)) = 32%nat) by (rewrite length_hex_of_bytes; cbn; by rewrite L).
  destruct (Uuid_toString_parts _ Hh) as (parts' & El' & Ec' & Et'). rewrite (Et' u eq_refl). clear Et'.
  cbn [u uuid_raw] in Ec'. rewrite Eh in Ec'.
  assert (Ep : parts' = map (map lower) parts).
  { clear -El El' Ec'. rewrite concat_map in Ec'. rewrite <- El in El'. clear El. revert parts' El' Ec'.
    induction parts as [|p parts IH]; intros [|p' parts'] El Ec; try done. cbn [map concat] in *.
    injection El as E1 E2. apply app_inj_1 in Ec as [-> Ec]; [|by rewrite length_map]. f_equal. by apply IH. }
  rewrite Ep. clear. unfold toLowerCase. induction parts as [|p parts IH]; [done|].
  destruct parts as [|q parts]; [done|]. cbn [map] in *.
  change (join (str "-") (map lower p :: map lower q :: map (map lower) parts))
    with (map lower p ++ "-"%char :: join (str "-") (map lower q :: map (map lower) parts)).
  rewrite IH. change (join (str "-") (p :: q :: parts)) with (p ++ "-"%char :: join (str "-") (q :: parts)).
  by rewrite map_app.
Qed.

(** ** TimeUuid *)

Lemma be_bytes_2 v : be_bytes 2 v = [(v / 256) mod 256; v mod 256].
Proof. done. Qed.

(** The version and variant bits on single bytes. *)
Lemma version_bits b : 0 <= b < 16 -> ((b .& 15) .| 16) = b + 16 /\ ((b + 16) .& 15) = b.
Proof.
  intros Hb. assert (H : forallb (fun b => (((b .& 15) .| 16) =? b + 16) && (((b + 16) .& 15) =? b)) (seqZ 0 16) = true)
    by (vm_compute; reflexivity).
  rewrite forallb_forall in H. specialize (H b ltac:(apply list_elem_of_In, elem_of_seqZ; lia)).
  apply andb_prop in H as [H1%Z.eqb_eq H2%Z.eqb_eq]. done.
Qed.

Lemma variant_bits c : 0 <= c < 256 -> 128 <= ((c .& 63) .| 128) < 192.
Proof.
  intros Hc. assert (H : forallb (fun c => (128 <=? ((c .& 63) .| 128)) && (((c .& 63) .| 128) <? 192)) (seqZ 0 256) = true)
    by (vm_compute; reflexivity).
  rewrite forallb_forall in H. specialize (H c ltac:(apply list_elem_of_In, elem_of_seqZ; lia)).
  apply andb_prop in H as [H1%Z.leb_le H2%Z.ltb_lt]. done.
Qed.

(** The four bytes of the high word come together again. *)
Lemma timeHigh_bits a b c d :
  0 <= a < 256 -> 0 <= b < 256 -> 0 <= c < 16 -> 0 <= d < 256 ->
  ((((0 .| ((a .& 255) .<< 8)) .| (b .& 255)) .| (((c + 16) .& 15) .<< 24)) .| ((d .& 255) .<< 16))
    = a * 2 ^ 8 + b + c * 2 ^ 24 + d * 2 ^ 16.
Proof.
  intros Ha Hb Hc Hd. rewrite (proj2 (version_bits c Hc)), !js_and_ff, !Z.mod_small, !js_shl_mul by lia.
  assert (I : forall z, 0 <= z < 2 ^ 31 -> to_int32 z = z) by (intros; apply to_int32_id; unfold is_int32; lia).
  assert (S : forall x y, 0 <= x < 2 ^ 31 -> 0 <= y < 2 ^ 31 -> x .| y = Z.lor x y)
    by (intros; unfold js_or; by rewrite !I).
  rewrite (I (a * 2 ^ 8)), (I (c * 2 ^ 24)), (I (d * 2 ^ 16)) by lia.
  rewrite (S 0), Z.lor_0_l, (S (a * 2 ^ 8)), (lor_add_disjoint a b 8) by lia.
  rewrite (S (a * 2 ^ 8 + b)), (Z.lor_comm (a * 2 ^ 8 + b)), (lor_add_disjoint c _ 24) by lia.
  rewrite (S (c * 2 ^ 24 + _)) by lia.
  rewrite <- (lor_add_disjoint c (a * 2 ^ 8 + b) 24), <- Z.lor_assoc, (Z.lor_comm (a * 2 ^ 8 + b)) by lia.
  rewrite (lor_add_disjoint d (a * 2 ^ 8 + b) 16), (lor_add_disjoint c _ 24) by lia. lia.
Qed.

Section timeuuid_facts.
Context `{LongLaws}.

Lemma fromNumber_val z : - 2 ^ 53 <= z <= 2 ^ 53 -> long_val (Long_fromNumber z) = z /\ long_unsigned (Long_fromNumber z) = false.
Proof. apply long_fromNumber_val. Qed.

Lemma tu_writeTime_spec time ticks :
  - 2 ^ 53 <= time + _unixToGregorian <= 2 ^ 53 -> 0 <= ticks < 10000 ->
  let n := (time + _unixToGregorian) * 10000 + ticks in
  0 <= n < 2 ^ 60 ->
  tu_writeTime time ticks = Ok (be_bytes 4 (n mod 2 ^ 32) ++ be_bytes 2 (n / 2 ^ 32) ++ be_bytes 2 (n / 2 ^ 48)).
Proof.
  intros Ht Hk. cbv zeta. remember ((time + _unixToGregorian) * 10000 + ticks) as n eqn:En. intros Hn. unfold tu_writeTime.
  destruct (fromNumber_val _ Ht) as [V1 U1]. destruct (fromNumber_val 10000 ltac:(lia)) as [V2 U2].
  destruct (fromNumber_val ticks ltac:(lia)) as [V3 U3].
  destruct (long_mul_val _ (Long_fromNumber 10000) ((time + _unixToGregorian) * 10000) U1) as [V4 U4];
    [by rewrite V1, V2|unfold is_int64; lia|].
  destruct (long_add_val _ (Long_fromNumber ticks) n U4) as [V5 U5]; [by rewrite V4, V3|unfold is_int64; lia|].
  set (val := Long_add _ _) in *. clearbody val.
  assert (B : long_bits val = n) by (rewrite <- long_val_bits, V5; apply Z.mod_small; lia).
  rewrite long_getLowBitsUnsigned_eq, long_getHighBitsUnsigned_eq, B.
  rewrite (writeUInt_small 4) by (change (2 ^ (8 * Z.of_nat 4)) with (2 ^ 32); apply Z.mod_pos_bound; lia). cbn [mbind result_bind].
  rewrite !js_and_ffff. change 65536 with (2 ^ (8 * Z.of_nat 2)).
  rewrite (writeUInt_small 2 (_ mod _)) by (apply Z.mod_pos_bound; lia). cbn [mbind result_bind].
  rewrite (writeUInt_small 2 (_ mod _)) by (apply Z.mod_pos_bound; lia). cbn [mbind result_bind].
  assert (Em : forall v, be_bytes 2 (v mod 2 ^ (8 * Z.of_nat 2)) = be_bytes 2 v)
    by (intros; apply be_bytes_mod, Z.mod_mod; lia).
  rewrite !Em, js_ushr_div, to_uint32_id, Z.div_div by (try lia; Z.to_euclidean_division_equations; lia). done.
Qed.

(** The sixteen bytes generated for an instant, a node and a clock. *)
Definition tu_bytes (n : Z) (clock node : list Z) : list Z :=
  be_bytes 4 (n mod 2 ^ 32) ++ be_bytes 2 (n / 2 ^ 32) ++
  [n / 2 ^ 56 + 16; (n / 2 ^ 48) mod 256] ++ [(rd clock 0 .& 63) .| 128; rd clock 1] ++ node.

Lemma tu_generateBuffer_spec now rn rc st st' date ticks time t nodeId clockId node clock :
  tu_getTimeWithTicks now st date ticks = (time, t, st') ->
  tu_getId 6 rn nodeId = Ok node -> tu_getId 2 rc clockId = Ok clock ->
  length node = 6%nat -> length clock = 2%nat ->
  - 2 ^ 53 <= time + _unixToGregorian <= 2 ^ 53 -> 0 <= t < 10000 ->
  0 <= (time + _unixToGregorian) * 10000 + t < 2 ^ 60 ->
  tu_generateBuffer now rn rc st date ticks nodeId clockId
    = (Ok (tu_bytes ((time + _unixToGregorian) * 10000 + t) clock node), st').
Proof.
  intros Et En Ec Ln Lc Ht Hk Hn. unfold tu_generateBuffer. rewrite Et, En. cbn [mbind result_bind].
  rewrite Ec. cbn [mbind result_bind]. rewrite tu_writeTime_spec by done. cbn [mbind result_bind]. do 2 f_equal.
  set (n := _ * 10000 + t) in *. clearbody n.
  destruct clock as [|c0 [|c1 [|]]]; try discriminate Lc. unfold tu_bytes. rewrite !be_bytes_2.
  destruct (be_bytes 4 (n mod 2 ^ 32)) as [|b0 [|b1 [|b2 [|b3 [|]]]]] eqn:E4;
    try (apply (f_equal (@length Z)) in E4; rewrite length_be_bytes in E4; discriminate E4).
  assert (E6 : (n / 2 ^ 48 / 256) mod 256 = n / 2 ^ 56).
  { rewrite Z.div_div by lia. change (2 ^ 48 * 256) with (2 ^ 56). apply Z.mod_small. Z.to_euclidean_division_equations; lia. }
  rewrite E6. unfold rd.
  cbn [app insert list_insert lookup list_lookup default from_option id].
  rewrite (proj1 (version_bits (n / 2 ^ 56) ltac:(Z.to_euclidean_division_equations; lia))). done.
Qed.

Lemma tu_bytes_precision n clock node :
  0 <= n < 2 ^ 60 ->
  TimeUuid_getDatePrecision (mkUuid (tu_bytes n clock node))
    = Ok (round53 (n / 10000 - _unixToGregorian), n mod 10000).
Proof.
  intros Hn. unfold TimeUuid_getDatePrecision, tu_bytes. cbn [uuid_raw].
  pose proof (readUInt_writeUInt 4 (n mod 2 ^ 32) (be_bytes 4 (n mod 2 ^ 32)) []
    (be_bytes 2 (n / 2 ^ 32) ++ [n / 2 ^ 56 + 16; (n / 2 ^ 48) mod 256] ++ [(rd clock 0 .& 63) .| 128; rd clock 1] ++ node)
    (writeUInt_small 4 _ (Z.mod_pos_bound n (2 ^ 32) ltac:(lia)))) as Er.
  cbn [app length] in Er |- *. rewrite Er. clear Er. cbn [mbind result_bind].
  destruct (be_bytes 4 (n mod 2 ^ 32)) as [|b0 [|b1 [|b2 [|b3 [|]]]]] eqn:E4;
    try (apply (f_equal (@length Z)) in E4; rewrite length_be_bytes in E4; discriminate E4).
  rewrite be_bytes_2. unfold rd. cbn [app lookup list_lookup default from_option id].
  assert (M : forall z, 0 <= z mod 256 < 256) by (intros; apply Z.mod_pos_bound; lia).
  rewrite timeHigh_bits by (auto; Z.to_euclidean_division_equations; lia).
  assert (Eh : (n / 2 ^ 32 / 256) mod 256 * 2 ^ 8 + (n / 2 ^ 32) mod 256 + n / 2 ^ 56 * 2 ^ 24 + (n / 2 ^ 48) mod 256 * 2 ^ 16
    = n / 2 ^ 32).
  { clear E4. change (2 ^ 48) with (2 ^ 32 * 65536). change (2 ^ 56) with (2 ^ 32 * 16777216).
    rewrite <- !Z.div_div by lia. Z.to_euclidean_division_equations; lia. }
  rewrite Eh.
  set (val := Long_fromBits (n mod 2 ^ 32) (n / 2 ^ 32) false).
  assert (Vv : long_val val = n /\ long_unsigned val = false).
  { split; [|apply long_fromBits_unsigned]. apply long_val_of_bits; [apply long_fromBits_unsigned| |unfold is_int64; lia].
    unfold val. rewrite long_fromBits_bits, !to_uint32_id by (Z.to_euclidean_division_equations; lia).
    rewrite (Z.mod_small n (2 ^ 64)) by lia. Z.to_euclidean_division_equations; lia. }
  destruct Vv as [Vv Uv]. clearbody val.
  destruct (fromNumber_val _ticksInMs ltac:(unfold _ticksInMs; lia)) as [V2 U2].
  destruct (fromNumber_val _unixToGregorian ltac:(unfold _unixToGregorian; lia)) as [V3 U3].
  destruct (long_mod_val val (Long_fromNumber _ticksInMs) Uv U2) as [Mv Mu]; [by rewrite V2|].
  destruct (long_div_val val (Long_fromNumber _ticksInMs) Uv U2) as [Db Du]; [by rewrite V2|].
  rewrite Vv, V2 in *. unfold _ticksInMs in *. rewrite Z.quot_div_nonneg in Db by lia.
  assert (Dv : long_val (Long_div val (Long_fromNumber 10000)) = n / 10000).
  { apply long_val_of_bits; [done|done|]. unfold is_int64. Z.to_euclidean_division_equations; lia. }
  destruct (long_sub_val _ (Long_fromNumber _unixToGregorian) (n / 10000 - _unixToGregorian) Du) as [Sv Su];
    [by rewrite Dv, V3|unfold is_int64, _unixToGregorian; Z.to_euclidean_division_equations; lia|].
  rewrite !long_toNumber_val, Sv, Mv, Z.rem_mod_nonneg by lia. do 2 f_equal.
  unfold round53, round53_abs. pose proof (Z.mod_pos_bound n 10000 ltac:(lia)).
  destruct (Z.ltb_spec (Z.abs (n mod 10000)) (2 ^ 53)); lia.
Qed.

(** ** The guarantees *)

(** a Uuid prints as text that parses back to it, and a text that
    parses prints as itself in lower case. *)
Theorem Uuid_text_roundtrip (u v : Uuid) (s : jsstr) (Hu : Uuid_wf u) (Hs : Uuid_fromString s = Ok v) :
  Uuid_fromString (Uuid_toString u) = Ok u /\ Uuid_wf v /\ Uuid_toString v = toLowerCase s.
Proof. split; [by apply Uuid_fromString_toString|]. by apply Uuid_toString_fromString. Qed.

(** a TimeUuid made from a date, ticks below 10000, a node and a clock
    identifier gives all four back (the clock with the variant bits set),
    is marked as version 1, and leaves the counters alone. *)
Theorem TimeUuid_parts_roundtrip (now : Z) (rn rc : list Z) (st : tu_state) (date ticks : Z) (node clock : list Z)
  (Hd : - 2 ^ 52 <= date <= 2 ^ 52) (Ht : 0 <= ticks < 10000)
  (Hn : length node = 6%nat) (Hc : length clock = 2%nat)
  (Hr : 0 <= (date + _unixToGregorian) * 10000 + ticks < 2 ^ 60) :
  exists u, TimeUuid_new now rn rc st (Some date) (Some ticks) (IdBuffer node) (IdBuffer clock) = (Ok u, st) /\
    TimeUuid_getDatePrecision u = Ok (date, ticks) /\ TimeUuid_getNodeId u = node /\
    TimeUuid_getClockId u = [(rd clock 0 .& 63) .| 128; rd clock 1] /\ rd (uuid_raw u) 6 / 16 = 1.
Proof.
  set (n := (date + _unixToGregorian) * 10000 + ticks) in *. exists (mkUuid (tu_bytes n clock node)).
  assert (En : tu_getId 6 rn (IdBuffer node) = Ok node) by (unfold tu_getId; by rewrite Hn).
  assert (Ec : tu_getId 2 rc (IdBuffer clock) = Ok clock) by (unfold tu_getId; by rewrite Hc).
  assert (Et : tu_getTimeWithTicks now st (Some date) (Some ticks) = (date, ticks, st)).
  { unfold tu_getTimeWithTicks, tu_getTicks, _ticksInMs. destruct (Z.leb_spec 10000 ticks); [lia|done]. }
  assert (Hlen : length (tu_bytes n clock node) = 16%nat).
  { unfold tu_bytes. rewrite !length_app, !length_be_bytes, Hn. done. }
  split.
  { unfold TimeUuid_new. rewrite (tu_generateBuffer_spec _ _ _ _ _ _ _ _ _ _ _ node clock Et En Ec Hn Hc)
      by (done || unfold _unixToGregorian; lia).
    cbn [mbind result_bind]. fold n. unfold Uuid_new. by rewrite Hlen. }
  assert (Hq : n / 10000 = date + _unixToGregorian /\ n mod 10000 = ticks).
  { unfold n. clear -Ht. generalize (date + _unixToGregorian). intros z. Z.to_euclidean_division_equations; lia. }
  rewrite tu_bytes_precision by done. destruct Hq as [-> ->].
  split.
  { do 2 f_equal. replace (date + _unixToGregorian - _unixToGregorian) with date by lia.
    unfold round53, round53_abs. destruct (Z.ltb_spec (Z.abs date) (2 ^ 53)); lia. }
  unfold TimeUuid_getNodeId, TimeUuid_getClockId, slice, tu_bytes. cbn [uuid_raw].
  destruct (be_bytes 4 (n mod 2 ^ 32)) as [|b0 [|b1 [|b2 [|b3 [|]]]]] eqn:E4;
    try (apply (f_equal (@length Z)) in E4; rewrite length_be_bytes in E4; discriminate E4).
  rewrite be_bytes_2. split; [done|]. split; [done|].
  unfold rd at 1. cbn [app lookup list_lookup default from_option id].
  symmetry. apply Z.div_unique_pos with (n / 2 ^ 56); Z.to_euclidean_division_equations; lia.
Qed.
End timeuuid_facts.

Lemma Uuid_text_roundtrip_witness :
  Uuid_toString (mkUuid [18; 52; 86; 120; 154; 188; 222; 240; 18; 52; 86; 120; 154; 188; 222; 255])
    = toLowerCase (str "12345678-9ABC-def0-1234-56789ABCDEFF").
Proof.
  refine (proj2 (proj2 (Uuid_text_roundtrip (mkUuid (replicate 16 0)) _ _ _ _))); [|vm_compute; reflexivity].
  split; [reflexivity|]. apply Forall_replicate. lia.
Defined.

Lemma TimeUuid_parts_roundtrip_witness :
  exists u, TimeUuid_new 0 [] [] tu_initial (Some 1700000000123) (Some 77) (IdBuffer [1; 2; 3; 4; 5; 6]) (IdBuffer [7; 8])
      = (Ok u, tu_initial) /\
    TimeUuid_getDatePrecision u = Ok (1700000000123, 77) /\ TimeUuid_getNodeId u = [1; 2; 3; 4; 5; 6] /\
    TimeUuid_getClockId u = [(7 .& 63) .| 128; 8] /\ rd (uuid_raw u) 6 / 16 = 1.
Proof.
  refine (TimeUuid_parts_roundtrip 0 [] [] tu_initial 1700000000123 77 [1; 2; 3; 4; 5; 6] [7; 8] _ _ eq_refl eq_refl _);
    unfold _unixToGregorian; lia.
Defined.
