(* ===== verification/JsFloat.v ===== *)
(** Arithmetic on Numbers that are not integers: IEEE 754 products and sums of
    dyadic rationals, and error bounds for the rounding [round53] of JsNum. *)
From S2P Require Import Prelude.
From S2P Require Import JsNum.

(** [(m, e)] is [m / 2^e].  Scaling by a power of two commutes with the
    rounding to 53 significant bits, so it can be done on the numerator.
    Magnitudes stay away from the overflow and underflow thresholds. *)
Abbreviation dyadic := (Z * N)%type.

Definition fl_mul (x y : dyadic) : dyadic := (round53 (x.1 * y.1), (x.2 + y.2)%N).

Definition fl_add (x y : dyadic) : dyadic :=
  let e := N.max x.2 y.2 in
  (round53 (x.1 * 2 ^ Z.of_N (e - x.2) + y.1 * 2 ^ Z.of_N (e - y.2)), e).

(** [Math.floor] *)
Definition fl_floor (x : dyadic) : Z := x.1 / 2 ^ Z.of_N x.2.

Lemma round_half_even_error z d :
  0 <= z -> 0 < d -> z - d <= 2 * (round_half_even z d * d - z) + z <= z + d /\ z / d <= round_half_even z d <= z / d + 1.
Proof.
  intros Hz Hd. unfold round_half_even.
  pose proof (Z.div_mod z d ltac:(lia)). pose proof (Z.mod_pos_bound z d ltac:(lia)).
  destruct ((d <? 2 * (z mod d)) || ((2 * (z mod d) =? d) && Z.odd (z / d))) eqn:E; [|split; [|lia]].
  - split; [|lia].
    assert (d <= 2 * (z mod d)) by (apply orb_prop in E as [E|E]; [|apply andb_prop in E as [E _]]; lia). nia.
  - apply orb_false_elim in E as [E _]. nia.
Qed.

(** The rounding error is at most half a unit in the last place. *)
Lemma round53_error z : 0 <= z -> 2 ^ 53 * Z.abs (round53 z - z) <= z.
Proof.
  intros Hz. unfold round53, round53_abs. rewrite (Z.abs_eq z) by lia.
  destruct (Z.ltb_spec z (2 ^ 53)).
  { destruct (Z.eq_dec z 0) as [->|]; [reflexivity|]. rewrite Z.sgn_pos by lia. lia. }
  rewrite Z.sgn_pos, Z.mul_1_l by lia. cbv zeta.
  assert (Hl : 53 <= Z.log2 z) by (change 53 with (Z.log2 (2 ^ 53)); by apply Z.log2_le_mono).
  destruct (Z.log2_spec z ltac:(lia)) as [Hlo _].
  assert (Hd : 0 < 2 ^ (Z.log2 z - 52)) by (apply Z.pow_pos_nonneg; lia).
  assert (Hs : 2 ^ Z.log2 z = 2 ^ 52 * 2 ^ (Z.log2 z - 52)) by (rewrite <- Z.pow_add_r by lia; f_equal; lia).
  destruct (round_half_even_error z (2 ^ (Z.log2 z - 52)) Hz Hd) as [He _].
  remember (2 ^ (Z.log2 z - 52)) as d. remember (round_half_even z d * d) as t.
  change (2 ^ 53) with (2 * 2 ^ 52). change (2 ^ 52) with 4503599627370496 in *. lia.
Qed.

(** Rounding does not cross a Number. *)
Lemma round53_bound_below r m e z :
  r = m * 2 ^ e -> 0 <= m <= 2 ^ 53 -> 0 <= e -> r <= z -> 0 <= z -> r <= round53 z.
Proof.
  intros -> Hm He Hr Hz. unfold round53, round53_abs. rewrite (Z.abs_eq z) by lia.
  destruct (Z.ltb_spec z (2 ^ 53)).
  { destruct (Z.eq_dec z 0) as [->|]; [done|]. rewrite Z.sgn_pos; lia. }
  rewrite Z.sgn_pos, Z.mul_1_l by lia. cbv zeta.
  assert (Hl : 53 <= Z.log2 z) by (change 53 with (Z.log2 (2 ^ 53)); by apply Z.log2_le_mono).
  destruct (Z.log2_spec z ltac:(lia)) as [Hlo _].
  set (k := Z.log2 z - 52) in *. assert (Hd : 0 < 2 ^ k) by (apply Z.pow_pos_nonneg; lia).
  replace (Z.log2 z) with (52 + k) in Hlo by lia. rewrite Z.pow_add_r in Hlo by lia.
  destruct (round_half_even_error z (2 ^ k) Hz Hd) as [_ [Hq _]].
  etrans; [|apply Z.mul_le_mono_nonneg_r; [lia|exact Hq]].
  destruct (Z.le_gt_cases k e) as [Hke|Hke].
  - replace (m * 2 ^ e) with (m * 2 ^ (e - k) * 2 ^ k) in * by
      (rewrite <- Z.mul_assoc, <- Z.pow_add_r by lia; do 2 f_equal; lia).
    apply Z.mul_le_mono_nonneg_r; [lia|]. apply Z.div_le_lower_bound; lia.
  - assert (2 ^ 52 <= z / 2 ^ k) by (apply Z.div_le_lower_bound; lia).
    replace (2 ^ k) with (2 * 2 ^ e * 2 ^ (k - 1 - e)) in * by
      (change 2 with (2 ^ 1) at 1; rewrite <- !Z.pow_add_r by lia; f_equal; lia).
    assert (0 < 2 ^ e) by (apply Z.pow_pos_nonneg; lia).
    assert (0 < 2 ^ (k - 1 - e)) by (apply Z.pow_pos_nonneg; lia).
    change (2 ^ 53) with (2 * 2 ^ 52) in *. nia.
Qed.

Lemma round53_bound_above r m e z :
  r = m * 2 ^ e -> 0 <= m <= 2 ^ 53 -> 0 <= e -> z <= r -> 0 <= z -> round53 z <= r.
Proof.
  intros -> Hm He Hr Hz. unfold round53, round53_abs. rewrite (Z.abs_eq z) by lia.
  destruct (Z.ltb_spec z (2 ^ 53)).
  { destruct (Z.eq_dec z 0) as [->|]; [done|]. rewrite Z.sgn_pos; lia. }
  rewrite Z.sgn_pos, Z.mul_1_l by lia. cbv zeta.
  assert (Hl : 53 <= Z.log2 z) by (change 53 with (Z.log2 (2 ^ 53)); by apply Z.log2_le_mono).
  destruct (Z.log2_spec z ltac:(lia)) as [Hlo _].
  set (k := Z.log2 z - 52) in *. assert (Hd : 0 < 2 ^ k) by (apply Z.pow_pos_nonneg; lia).
  replace (Z.log2 z) with (52 + k) in Hlo by lia. rewrite Z.pow_add_r in Hlo by lia.
  destruct (round_half_even_error z (2 ^ k) Hz Hd) as [[_ Herr] [_ Hq]].
  pose proof (Z.div_mod z (2 ^ k) ltac:(lia)). pose proof (Z.mod_pos_bound z (2 ^ k) ltac:(lia)).
  assert (Hmul : exists c, m * 2 ^ e = c * 2 ^ k).
  { destruct (Z.le_gt_cases k e) as [Hke|Hke].
    - exists (m * 2 ^ (e - k)). rewrite <- Z.mul_assoc, <- Z.pow_add_r by lia. do 2 f_equal; lia.
    - exists (2 ^ 52).
      replace (2 ^ k) with (2 * 2 ^ e * 2 ^ (k - 1 - e)) in * by
        (change 2 with (2 ^ 1) at 1; rewrite <- !Z.pow_add_r by lia; f_equal; lia).
      assert (0 < 2 ^ e) by (apply Z.pow_pos_nonneg; lia).
      assert (0 < 2 ^ (k - 1 - e)) by (apply Z.pow_pos_nonneg; lia).
      change (2 ^ 53) with (2 * 2 ^ 52) in *. nia. }
  destruct Hmul as [c Hc]. rewrite Hc in *.
  destruct (Z.eq_dec (z mod 2 ^ k) 0) as [E|E].
  - remember (round_half_even z (2 ^ k)) as t. remember (z / 2 ^ k) as q.
    assert (t <= q) by nia. assert (q <= c) by nia. nia.
  - apply Z.mul_le_mono_nonneg_r; [lia|]. etrans; [exact Hq|]. nia.
Qed.
