(* ===== verification/Policies.v ===== *)
(** [lib/policies]: the retry decisions of [retry.js], the schedules of
    [reconnection.js], the generator of [timestamp-generation.js] and the
    plans of [speculative-execution.js]. *)
From stdpp Require Import sorting.
From S2P Require Import Prelude.
From S2P Require Import JsNum.
From S2P Require Import JsStr.
From S2P Require Import JsFloat.
From S2P Require Import LongLib.

(** ** Retry policies *)

(** [RetryPolicy.retryDecision] *)
Inductive retryDecision := rethrow | retry | ignore.

Definition retryDecision_code (d : retryDecision) : Z :=
  match d with rethrow => 0 | retry => 1 | ignore => 2 end.

(** A field that is absent or [undefined] is [None]. *)
Record DecisionInfo := mkDecision {
  decision : retryDecision;
  di_consistency : option Z;
  useCurrentHost : option bool }.

Definition retryResult (consistency : option Z) (useCurrentHost : option bool) : DecisionInfo :=
  mkDecision retry consistency (Some (negb (bool_decide (useCurrentHost = Some false)))).

Definition rethrowResult : DecisionInfo := mkDecision rethrow None None.

(** The four handlers a policy implements; [info] is its [nbRetry]. *)
Record RetryPolicyOps := mkRetryPolicy {
  onUnavailable : forall (info consistency required alive : Z), DecisionInfo;
  onReadTimeout : forall (info consistency received blockFor : Z) (isDataPresent : bool), DecisionInfo;
  onWriteTimeout : forall (info consistency received blockFor : Z) (writeType : jsstr), DecisionInfo;
  onRequestError : forall (info : Z) (consistency : option Z) (err : js_error), DecisionInfo }.

Definition RetryPolicy : RetryPolicyOps := {|
  onUnavailable info consistency required alive :=
    if 0 <? info then rethrowResult else retryResult None (Some false);
  onReadTimeout info consistency received blockFor isDataPresent :=
    if 0 <? info then rethrowResult
    else if (blockFor <=? received) && negb isDataPresent then retryResult None None else rethrowResult;
  onWriteTimeout info consistency received blockFor writeType :=
    if 0 <? info then rethrowResult
    else if bool_decide (writeType = str "BATCH_LOG") then retryResult None None else rethrowResult;
  onRequestError info consistency err := retryResult None (Some false) |}.

Definition FallthroughRetryPolicy : RetryPolicyOps := {|
  onReadTimeout _ _ _ _ _ := rethrowResult;
  onRequestError _ _ _ := rethrowResult;
  onUnavailable _ _ _ _ := rethrowResult;
  onWriteTimeout _ _ _ _ _ := rethrowResult |}.

(** The errors a coordinator reports to a policy. *)
Inductive retry_event :=
  | Unavailable (consistency required alive : Z)
  | ReadTimeout (consistency received blockFor : Z) (isDataPresent : bool)
  | WriteTimeout (consistency received blockFor : Z) (writeType : jsstr)
  | RequestError (consistency : option Z) (err : js_error).

Definition on_event (p : RetryPolicyOps) (nbRetry : Z) (e : retry_event) : DecisionInfo :=
  match e with
  | Unavailable c required alive => onUnavailable p nbRetry c required alive
  | ReadTimeout c received blockFor data => onReadTimeout p nbRetry c received blockFor data
  | WriteTimeout c received blockFor t => onWriteTimeout p nbRetry c received blockFor t
  | RequestError c err => onRequestError p nbRetry c err
  end.

(** ** Reconnection schedules *)

(** [ConstantReconnectionPolicy]: the state of the iterator is the policy. *)
Definition ConstantReconnectionPolicy_next (delay : Z) : Z := delay.

Record ExponentialReconnectionPolicy := mkExponential {
  baseDelay : Z; maxDelay : Z; startWithNoDelay : bool }.

(** The literals 0.85, 0.3, 0.15 and 1 as Numbers. *)
Definition n085 : dyadic := (7656119366529843, 53%N).
Definition n030 : dyadic := (5404319552844595, 54%N).
Definition n015 : dyadic := (5404319552844595, 55%N).
Definition n100 : dyadic := (1, 0%N).

(** [rnd] is what [Math.random()] returns. *)
Definition addJitter (p : ExponentialReconnectionPolicy) (value : Z) (rnd : dyadic) : Z :=
  if value =? 0 then value
  else
    let '(minPercentage, range) :=
      if negb (startWithNoDelay p) && (value =? baseDelay p) then (n100, n015)
      else if value =? maxDelay p then (n085, n015)
      else (n085, n030) in
    fl_floor (fl_mul (value, 0%N) (fl_add (fl_mul rnd range) minPercentage)).

(** The delay before the jitter. *)
Definition exponential_delay (p : ExponentialReconnectionPolicy) (index : Z) : Z :=
  if 64 <=? index then maxDelay p
  else if negb (index =? -1) then Z.min (2 ^ index * baseDelay p) (maxDelay p)
  else 0.

(** The generator of [newSchedule]: the state is [index]. *)
Definition exponential_start (p : ExponentialReconnectionPolicy) : Z :=
  if startWithNoDelay p then -1 else 0.

Definition exponential_next (p : ExponentialReconnectionPolicy) (index : Z) (rnd : dyadic) : Z * Z :=
  let delay := exponential_delay p index in
  (addJitter p delay rnd, index + 1).

Fixpoint exponential_run (p : ExponentialReconnectionPolicy) (index : Z) (rnds : list dyadic) : list Z :=
  match rnds with
  | [] => []
  | r :: rnds' => let '(v, index) := exponential_next p index r in v :: exponential_run p index rnds'
  end.

Definition newSchedule (p : ExponentialReconnectionPolicy) (rnds : list dyadic) : list Z :=
  exponential_run p (exponential_start p) rnds.

(** ** Speculative executions *)

Record ConstantSpeculativeExecutionPolicy := mkSpeculative { _delay : Z; _maxSpeculativeExecutions : Z }.

Definition ConstantSpeculativeExecutionPolicy_new (delay maxSpeculativeExecutions : Z)
    : result ConstantSpeculativeExecutionPolicy :=
  if negb (0 <=? delay) then Throw ArgumentError
  else if negb (0 <? maxSpeculativeExecutions) then Throw ArgumentError
  else Ok (mkSpeculative delay maxSpeculativeExecutions).

(** [nextExecution] of the plan, whose state is [executions]. *)
Definition nextExecution (p : ConstantSpeculativeExecutionPolicy) (executions : Z) : Z * Z :=
  (if executions <? _maxSpeculativeExecutions p then _delay p else -1, executions + 1).

Fixpoint speculative_run (p : ConstantSpeculativeExecutionPolicy) (executions : Z) (n : nat) : list Z :=
  match n with
  | O => []
  | S n' => let '(v, executions) := nextExecution p executions in v :: speculative_run p executions n'
  end.

Definition newPlan (p : ConstantSpeculativeExecutionPolicy) (n : nat) : list Z := speculative_run p 0 n.

(** ** Timestamp generation *)

Definition _maxSafeNumberDate : Z := 9007199254740.

Record MonotonicTimestampGenerator := mkGenerator {
  _warningThreshold : Z; _minLogInterval : Z;
  _micros : Z; _lastDate : Z; _lastLogDate : Z }.

Definition MonotonicTimestampGenerator_new (warningThreshold minLogInterval : option Z)
    : result MonotonicTimestampGenerator :=
  match warningThreshold with
  | Some w => if w <? 0 then Throw ArgumentError
              else Ok (mkGenerator (if w =? 0 then 1000 else w) (default 1000 minLogInterval) (-1) 0 0)
  | None => Ok (mkGenerator 1000 (default 1000 minLogInterval) (-1) 0 0)
  end.

Section timestamps.
Context `{LongLib}.

Definition _longOneThousand : Long := Long_fromInt 1000.

(** A timestamp is a Number or a Long. *)
Definition _generateMicroseconds (lastDate micros : Z) : Z + Long :=
  if lastDate <? _maxSafeNumberDate then inl (lastDate * 1000 + micros)
  else inr (Long_add (Long_mul (Long_fromNumber lastDate) _longOneThousand) (Long_fromInt micros)).

(** [next] with the clock [now] read by [getDate] and the clock [logNow] read
    before logging.  Returns the timestamp, the arguments of the warning if
    one is logged, and the generator. *)
Definition MonotonicTimestampGenerator_next (g : MonotonicTimestampGenerator) (now logNow : Z)
    : (Z + Long) * option (Z * Z * (Z + Long)) * MonotonicTimestampGenerator :=
  if _lastDate g <? now then
    let g := mkGenerator (_warningThreshold g) (_minLogInterval g) 0 now (_lastLogDate g) in
    (_generateMicroseconds (_lastDate g) (_micros g), None, g)
  else
    let '(drifted, date) := if now <? _lastDate g then (_lastDate g - now, _lastDate g) else (0, now) in
    let micros := _micros g + 1 in
    let '(micros, date, drifted) :=
      if micros =? 1000
      then (if date =? _lastDate g then (0, date + 1, drifted + 1) else (0, date, drifted))
      else (micros, date, drifted) in
    let lastDate := _lastDate g in
    let result := _generateMicroseconds date micros in
    if (_warningThreshold g <=? drifted) &&
       ((0 <? _minLogInterval g) && (_lastLogDate g + _minLogInterval g <=? logNow))
    then (result, Some (drifted, lastDate, result),
          mkGenerator (_warningThreshold g) (_minLogInterval g) micros date logNow)
    else (result, None, mkGenerator (_warningThreshold g) (_minLogInterval g) micros date (_lastLogDate g)).

Fixpoint timestamps (g : MonotonicTimestampGenerator) (clocks : list (Z * Z)) : list (Z + Long) :=
  match clocks with
  | [] => []
  | (now, logNow) :: clocks' =>
      let '(r, _, g) := MonotonicTimestampGenerator_next g now logNow in r :: timestamps g clocks'
  end.

Definition timestamp_value (t : Z + Long) : Z :=
  match t with inl z => z | inr l => long_val l end.
End timestamps.

Example newSchedule_ex :
  newSchedule (mkExponential 1000 10000 false) [(1, 1%N); (1, 1%N); (1, 1%N); (1, 1%N); (1, 1%N); (1, 1%N)]
  = [1075; 2000; 4000; 8000; 9250; 9250].
Proof. vm_compute. reflexivity. Qed.

(** ** Theorems *)

(** What the default policy retries: the first attempt for an unavailable
    error, a read timeout with enough answers but no data, a write timeout of
    the batch log, and every request error. *)
Definition default_retries (nbRetry : Z) (e : retry_event) : bool :=
  match e with
  | Unavailable _ _ _ => nbRetry <=? 0
  | ReadTimeout _ received blockFor data => (nbRetry <=? 0) && (blockFor <=? received) && negb data
  | WriteTimeout _ _ _ t => (nbRetry <=? 0) && bool_decide (t = str "BATCH_LOG")
  | RequestError _ _ => true
  end.

(** the default retry policy never ignores an error and never changes the
    consistency; it retries exactly the situations of [default_retries], hence
    an error reported by the coordinator at most once, and retries on the same
    coordinator exactly the two kinds of timeouts.  The fallthrough policy
    always rethrows. *)
Theorem RetryPolicy_decisions nbRetry e :
  let d := on_event RetryPolicy nbRetry e in
  decision d = (if default_retries nbRetry e then retry else rethrow) /\
  di_consistency d = None /\
  useCurrentHost d =
    (if default_retries nbRetry e
     then Some (match e with ReadTimeout _ _ _ _ | WriteTimeout _ _ _ _ => true | _ => false end)
     else None) /\
  on_event FallthroughRetryPolicy nbRetry e = rethrowResult.
Proof.
  cbv zeta. destruct e as [c rq al|c rc bf dp|c rc bf t|c err]; cbn [on_event].
  - cbn. destruct (Z.ltb_spec 0 nbRetry), (Z.leb_spec nbRetry 0); try lia; done.
  - cbn. destruct (Z.ltb_spec 0 nbRetry), (Z.leb_spec nbRetry 0); try lia; [done|].
    destruct (bf <=? rc), dp; done.
  - cbn. destruct (Z.ltb_spec 0 nbRetry), (Z.leb_spec nbRetry 0); try lia; [done|].
    destruct (bool_decide _); done.
  - done.
Qed.

(** *** The jitter *)

(** A result of [Math.random()]: a multiple of [2^-53] in [[0, 1)]. *)
Definition random_ok (r : dyadic) : Prop := r.2 = 53%N /\ 0 <= r.1 < 2 ^ 53.

(** The random portion never exceeds the range it is taken from. *)
Lemma random_portion r range :
  random_ok r -> 0 <= range.1 <= 2 ^ 53 ->
  let p := fl_mul r range in p.2 = (53 + range.2)%N /\ 0 <= p.1 <= range.1 * 2 ^ 53.
Proof.
  intros [He Hr] Hc. cbn. rewrite He. split; [done|]. split.
  - apply (round53_bound_below 0 0 0); lia || nia.
  - apply (round53_bound_above _ (range.1) 53); [done|lia|lia| |nia]. nia.
Qed.

(** [Math.floor(value * s)] for a factor [s] of known bounds. *)
Lemma scaled_floor v s :
  0 <= v <= 2 ^ 40 -> 0 <= s.1 -> (60 <= s.2)%N ->
  let res := fl_floor (fl_mul (v, 0%N) s) in
  let one := 2 ^ Z.of_N s.2 in
  (one <= s.1 -> v <= res) /\
  (s.1 <= one -> res <= v) /\
  (100 * s.1 <= 115 * one + one / 2 ^ 46 -> 100 * res <= 115 * v) /\
  (85 * one - one / 2 ^ 46 <= 100 * s.1 -> 85 * v <= 100 * (res + 1)).
Proof.
  destruct s as [S e]. cbn [fst snd]. intros Hv HS He. unfold fl_floor, fl_mul. cbn [fst snd].
  rewrite N.add_0_l. cbv zeta.
  assert (Ho : 2 ^ Z.of_N e = 2 ^ 60 * 2 ^ (Z.of_N e - 60)) by (rewrite <- Z.pow_add_r by lia; f_equal; lia).
  assert (Hp : 0 < 2 ^ (Z.of_N e - 60)) by (apply Z.pow_pos_nonneg; lia).
  assert (Hd : 2 ^ Z.of_N e / 2 ^ 46 = 2 ^ 14 * 2 ^ (Z.of_N e - 60)).
  { rewrite Ho. change (2 ^ 60) with (2 ^ 14 * 2 ^ 46).
    rewrite <- Z.mul_assoc, (Z.mul_comm (2 ^ 46)), Z.mul_assoc, Z.div_mul; lia. }
  rewrite Hd.
  pose proof (round53_error (v * S) ltac:(nia)) as Herr.
  assert (Hlow : 2 ^ Z.of_N e <= S -> v * 2 ^ Z.of_N e <= round53 (v * S))
    by (intros; apply (round53_bound_below _ v (Z.of_N e)); nia).
  assert (Hhigh : S <= 2 ^ Z.of_N e -> round53 (v * S) <= v * 2 ^ Z.of_N e)
    by (intros; apply (round53_bound_above _ v (Z.of_N e)); nia).
  remember (round53 (v * S)) as R. remember (2 ^ Z.of_N e) as one.
  assert (H1 : 0 < one) by lia.
  pose proof (Z.div_mod R one ltac:(lia)). pose proof (Z.mod_pos_bound R one H1).
  remember (2 ^ (Z.of_N e - 60)) as u. clear Hequ Heqone HeqR Hd.
  change (2 ^ 60) with 1152921504606846976 in *. change (2 ^ 53) with 9007199254740992 in *.
  change (2 ^ 14) with 16384. change (2 ^ 40) with 1099511627776 in *.
  remember (R / one) as q. remember (R mod one) as m. clear Heqq Heqm.
  assert (B : v * (16384 * u) <= 1099511627776 * (16384 * u)) by (apply Z.mul_le_mono_nonneg_r; lia).
  assert (C : v * one <= 1099511627776 * one) by (apply Z.mul_le_mono_nonneg_r; lia).
  assert (F : forall k, q * one < k * one -> q < k) by (intros k; apply Z.mul_lt_mono_pos_r; lia).
  assert (G : forall k, k * one < (q + 1) * one -> k <= q) by (intros k ?%Z.mul_lt_mono_pos_r; lia).
  split_and!; intros Hs.
  - specialize (Hlow Hs). apply G. lia.
  - specialize (Hhigh Hs). assert (q < v + 1); [apply F|]; lia.
  - pose proof (Z.mul_le_mono_nonneg_l _ _ v ltac:(lia) Hs) as A.
    remember (v * S) as vS. remember (v * one) as vo.
    replace (v * (100 * S)) with (100 * vS) in A by (subst; ring).
    replace (v * (115 * one + 16384 * u)) with (115 * vo + v * (16384 * u)) in A by (subst; ring).
    assert (D : 100 * (q * one) < 115 * vo + one) by lia.
    replace vo with (v * one) in D by done.
    enough (100 * q < 115 * v + 1) by lia. apply (Z.mul_lt_mono_pos_r one); lia.
  - pose proof (Z.mul_le_mono_nonneg_l _ _ v ltac:(lia) Hs) as A.
    remember (v * S) as vS. remember (v * one) as vo.
    replace (v * (100 * S)) with (100 * vS) in A by (subst; ring).
    replace (v * (85 * one - 16384 * u)) with (85 * vo - v * (16384 * u)) in A by (subst; ring).
    assert (D : 85 * vo - one < 100 * (q * one) + 100 * one) by lia.
    replace vo with (v * one) in D by done.
    enough (85 * v - 1 < 100 * (q + 1)) by lia. apply (Z.mul_lt_mono_pos_r one); lia.
Qed.

(** The percentage of the three kinds of jitter, in units of [2^-108] or [2^-107]. *)
Lemma jitter_factor r range minp :
  random_ok r -> (range, minp) ∈ [(n015, n100); (n015, n085); (n030, n085)] ->
  let s := fl_add (fl_mul r range) minp in
  let one := 2 ^ Z.of_N s.2 in
  (60 <= s.2)%N /\ 85 * one - one / 2 ^ 46 <= 100 * s.1 /\
  100 * s.1 <= 115 * one + one / 2 ^ 46 /\
  (minp = n100 -> one <= s.1) /\ (minp = n085 -> range = n015 -> s.1 <= one).
Proof.
  intros Hr Hin. cbv zeta.
  assert (Hc : 0 <= range.1 <= 2 ^ 53)
    by (rewrite !elem_of_cons in Hin; destruct Hin as [[= -> ->]|[[= -> ->]|[[= -> ->]|[]%elem_of_nil]]];
        vm_compute; split; congruence).
  destruct (random_portion r range Hr Hc) as [He Hp].
  destruct (fl_mul r range) as [P E]. cbn [fst snd] in *. subst E.
  unfold fl_add; cbn [fst snd].
  rewrite !elem_of_cons in Hin; destruct Hin as [[= -> ->]|[[= -> ->]|[[= -> ->]|[]%elem_of_nil]]];
    cbn [fst snd n015 n030 n085 n100] in *.
  - change (Z.of_N (N.max (53 + 55) 0 - (53 + 55))) with 0.
    change (Z.of_N (N.max (53 + 55) 0 - 0)) with 108. change (N.max (53 + 55) 0) with 108%N.
    change (Z.of_N 108) with 108.
    assert (L : 2 ^ 108 <= round53 (P * 2 ^ 0 + 1 * 2 ^ 108)) by (apply (round53_bound_below _ 1 108); lia).
    assert (H' : round53 (P * 2 ^ 0 + 1 * 2 ^ 108) <= 5179139571476071 * 2 ^ 56)
      by (apply (round53_bound_above _ 5179139571476071 56); lia).
    remember (round53 _) as R. change (2 ^ 108 / 2 ^ 46) with (2 ^ 62). split_and!; try done; lia.
  - change (Z.of_N (N.max (53 + 55) 53 - (53 + 55))) with 0.
    change (Z.of_N (N.max (53 + 55) 53 - 53)) with 55. change (N.max (53 + 55) 53) with 108%N.
    change (Z.of_N 108) with 108.
    assert (L : 7656119366529843 * 2 ^ 55 <= round53 (P * 2 ^ 0 + 7656119366529843 * 2 ^ 55))
      by (apply (round53_bound_below _ 7656119366529843 55); lia).
    assert (H' : round53 (P * 2 ^ 0 + 7656119366529843 * 2 ^ 55) <= 2 ^ 108)
      by (apply (round53_bound_above _ 1 108); lia).
    remember (round53 _) as R. change (2 ^ 108 / 2 ^ 46) with (2 ^ 62). split_and!; try done; lia.
  - change (Z.of_N (N.max (53 + 54) 53 - (53 + 54))) with 0.
    change (Z.of_N (N.max (53 + 54) 53 - 53)) with 54. change (N.max (53 + 54) 53) with 107%N.
    change (Z.of_N 107) with 107.
    assert (L : 7656119366529843 * 2 ^ 54 <= round53 (P * 2 ^ 0 + 7656119366529843 * 2 ^ 54))
      by (apply (round53_bound_below _ 7656119366529843 54); lia).
    assert (H' : round53 (P * 2 ^ 0 + 7656119366529843 * 2 ^ 54) <= 5179139571476071 * 2 ^ 55)
      by (apply (round53_bound_above _ 5179139571476071 55); lia).
    remember (round53 _) as R. change (2 ^ 107 / 2 ^ 46) with (2 ^ 61). split_and!; try done; lia.
Qed.

Definition exponential_ok (p : ExponentialReconnectionPolicy) : Prop :=
  1 <= baseDelay p <= maxDelay p /\ maxDelay p <= 2 ^ 40.

Lemma addJitter_bounds p v r :
  exponential_ok p -> random_ok r -> 0 <= v <= 2 ^ 40 ->
  (v = 0 -> addJitter p v r = 0) /\
  85 * v <= 100 * (addJitter p v r + 1) /\ 100 * addJitter p v r <= 115 * v /\
  (startWithNoDelay p = false -> v = baseDelay p -> v <= addJitter p v r) /\
  (v = maxDelay p -> startWithNoDelay p = true \/ baseDelay p < maxDelay p -> addJitter p v r <= v).
Proof.
  intros [Hb Hm] Hr Hv. unfold addJitter. destruct (Z.eqb_spec v 0) as [->|Hv0].
  { split_and!; intros; lia. }
  assert (A : forall range minp, (range, minp) ∈ [(n015, n100); (n015, n085); (n030, n085)] ->
    let res := fl_floor (fl_mul (v, 0%N) (fl_add (fl_mul r range) minp)) in
    85 * v <= 100 * (res + 1) /\ 100 * res <= 115 * v /\
    (minp = n100 -> v <= res) /\ (minp = n085 -> range = n015 -> res <= v)).
  { intros range minp Hin. destruct (jitter_factor r range minp Hr Hin) as (He & Hlo & Hhi & H1 & H2).
    destruct (scaled_floor v (fl_add (fl_mul r range) minp) Hv ltac:(
      pose proof (Z.pow_pos_nonneg 2 (Z.of_N (fl_add (fl_mul r range) minp).2) ltac:(lia) ltac:(lia));
      pose proof (Z.div_le_upper_bound (2 ^ Z.of_N (fl_add (fl_mul r range) minp).2) (2 ^ 46)
        (2 ^ Z.of_N (fl_add (fl_mul r range) minp).2) ltac:(lia) ltac:(lia)); lia) He) as (B1 & B2 & B3 & B4).
    cbv zeta. split_and!; eauto. }
  destruct (startWithNoDelay p); cbn [negb andb].
  - destruct (Z.eqb_spec v (maxDelay p)) as [->|Hn].
    + destruct (A n015 n085 ltac:(rewrite !elem_of_cons; auto)) as (A1 & A2 & _ & A4). split_and!; auto; intros; done || lia.
    + destruct (A n030 n085 ltac:(rewrite !elem_of_cons; auto)) as (A1 & A2 & _ & _). split_and!; auto; intros; done || lia.
  - destruct (Z.eqb_spec v (baseDelay p)) as [->|Hn].
    + destruct (A n015 n100 ltac:(rewrite !elem_of_cons; auto)) as (A1 & A2 & A3 & _). split_and!; auto; intros; try done; lia.
    + destruct (Z.eqb_spec v (maxDelay p)) as [->|Hn'].
      * destruct (A n015 n085 ltac:(rewrite !elem_of_cons; auto)) as (A1 & A2 & _ & A4). split_and!; auto; intros; done || lia.
      * destruct (A n030 n085 ltac:(rewrite !elem_of_cons; auto)) as (A1 & A2 & _ & _). split_and!; auto; intros; done || lia.
Qed.

Lemma exponential_delay_eq p i :
  exponential_ok p -> 0 <= i -> exponential_delay p i = Z.min (2 ^ i * baseDelay p) (maxDelay p).
Proof.
  intros [Hb Hm] Hi. unfold exponential_delay. destruct (Z.leb_spec 64 i).
  - assert (2 ^ 64 <= 2 ^ i) by (apply Z.pow_le_mono_r; lia).
    change (2 ^ 40) with 1099511627776 in *. change (2 ^ 64) with 18446744073709551616 in *. nia.
  - destruct (Z.eqb_spec i (-1)); [lia|done].
Qed.

Lemma exponential_run_lookup p i rnds n :
  exponential_run p i rnds !! n = (fun r => addJitter p (exponential_delay p (i + Z.of_nat n)) r) <$> (rnds !! n).
Proof.
  revert i n. induction rnds as [|r rnds IH]; intros i [|n]; cbn [exponential_run exponential_next]; [done..| |].
  - cbn. by rewrite Z.add_0_r.
  - cbn [lookup list_lookup]. etrans; [apply IH|]. replace (i + 1 + Z.of_nat n) with (i + Z.of_nat (S n)) by lia. done.
Qed.

(** the schedule of the exponential reconnection policy.  The pure delay
    of the [n]-th attempt is 0 for the first one when [startWithNoDelay] is
    set, and otherwise [min(2^k * baseDelay, maxDelay)] where [k] counts the
    attempts that are not instant (the cut at index 64 is never visible); the
    delay returned is within 15% of it (rounded down).  The first attempt never
    waits less than [baseDelay] unless [startWithNoDelay] is set, and an attempt
    that reached [maxDelay] never waits longer. *)
Theorem newSchedule_delays p rnds n r :
  exponential_ok p -> Forall random_ok rnds -> rnds !! n = Some r ->
  let k := Z.of_nat n + exponential_start p in
  let pure := if k =? -1 then 0 else Z.min (2 ^ k * baseDelay p) (maxDelay p) in
  exists delay, newSchedule p rnds !! n = Some delay /\
    exponential_delay p k = pure /\
    85 * pure <= 100 * (delay + 1) /\ 100 * delay <= 115 * pure /\
    (k = -1 -> delay = 0) /\
    (startWithNoDelay p = false -> n = 0%nat -> baseDelay p <= delay) /\
    (pure = maxDelay p -> baseDelay p < maxDelay p -> delay <= maxDelay p).
Proof.
  intros Hp Hr Hn. cbv zeta.
  exists (addJitter p (exponential_delay p (exponential_start p + Z.of_nat n)) r).
  rewrite Z.add_comm with (n := Z.of_nat n).
  remember (exponential_start p + Z.of_nat n) as k.
  assert (Hk : k = -1 \/ 0 <= k) by (subst k; unfold exponential_start; destruct (startWithNoDelay p); lia).
  assert (Hd : exponential_delay p k = if k =? -1 then 0 else Z.min (2 ^ k * baseDelay p) (maxDelay p)).
  { destruct Hk as [->|Hk]; [done|]. rewrite exponential_delay_eq by done. destruct (Z.eqb_spec k (-1)); [lia|done]. }
  rewrite <- Hd.
  assert (Hv : 0 <= exponential_delay p k <= maxDelay p).
  { rewrite Hd. destruct Hk as [->|Hk]; [destruct Hp; cbn; lia|].
    pose proof (Z.pow_pos_nonneg 2 k ltac:(lia) Hk). destruct Hp.
    assert (0 <= 2 ^ k * baseDelay p) by nia. destruct (Z.eqb_spec k (-1)); lia. }
  assert (Hro : random_ok r) by (eapply Forall_lookup_1; eauto).
  destruct (addJitter_bounds p (exponential_delay p k) r Hp Hro ltac:(destruct Hp; lia))
    as (J0 & J1 & J2 & J3 & J4).
  split_and!; auto.
  - unfold newSchedule. rewrite exponential_run_lookup, Hn. by subst k.
  - intros ->. by apply J0.
  - intros Hs ->. assert (Hb : exponential_delay p k = baseDelay p).
    { assert (K : k = 0) by (subst k; unfold exponential_start; by rewrite Hs).
      rewrite Hd, K. destruct Hp. change (0 =? -1) with false. cbn iota. lia. }
    rewrite Hb in *. auto.
  - intros He Hlt. rewrite He in *. auto.
Qed.

Lemma newSchedule_delays_witness :
  exists delay, newSchedule (mkExponential 1000 10000 false) [(1, 53%N); (1, 53%N)] !! 1%nat = Some delay /\
    exponential_delay (mkExponential 1000 10000 false) 1 = 2000 /\ 85 * 2000 <= 100 * (delay + 1).
Proof.
  destruct (newSchedule_delays (mkExponential 1000 10000 false) [(1, 53%N); (1, 53%N)] 1 (1, 53%N))
    as (d & H1 & H2 & H3 & _).
  - vm_compute. repeat split; congruence.
  - repeat constructor; vm_compute; congruence.
  - reflexivity.
  - exists d. split; [exact H1|]. split; [exact H2|exact H3].
Defined.

(** contrary to its description, the jitter can exceed the maximum delay:
    with a base of 1000 ms and a maximum of 2100 ms the second attempt may wait
    2300 ms, and with equal bounds the first one may wait 15% longer than the
    maximum; with [startWithNoDelay] the first real delay may be below the base. *)
Theorem addJitter_leaves_bounds :
  newSchedule (mkExponential 1000 2100 false) [(0, 53%N); (2 ^ 53 - 1, 53%N)] = [1000; 2300] /\
  newSchedule (mkExponential 1000 1000 false) [(2 ^ 53 - 1, 53%N)] = [1150] /\
  newSchedule (mkExponential 1000 5000 true) [(0, 53%N); (0, 53%N)] = [0; 850].
Proof. vm_compute. auto. Qed.

(** a plan of the constant speculative policy schedules exactly
    [maxSpeculativeExecutions] executions, each after [delay], and then none. *)
Theorem newPlan_executions delay n p k :
  ConstantSpeculativeExecutionPolicy_new delay (Z.of_nat n) = Ok p ->
  newPlan p (n + k) = replicate n delay ++ replicate k (-1) /\ 0 <= delay /\ (0 < n)%nat.
Proof.
  unfold ConstantSpeculativeExecutionPolicy_new.
  destruct (Z.leb_spec 0 delay); cbn [negb]; [|done].
  destruct (Z.ltb_spec 0 (Z.of_nat n)); cbn [negb]; [|done]. intros [= <-]. split; [|lia].
  set (q := mkSpeculative delay (Z.of_nat n)).
  assert (A : forall m e, Z.of_nat n <= e -> speculative_run q e m = replicate m (-1)).
  { induction m as [|m IH]; intros e He; [done|]. cbn [speculative_run nextExecution replicate].
    subst q. cbn [_maxSpeculativeExecutions]. destruct (Z.ltb_spec e (Z.of_nat n)); [lia|]. f_equal. apply IH. lia. }
  assert (B : forall m e, 0 <= e -> e + Z.of_nat m = Z.of_nat n ->
    speculative_run q e (m + k) = replicate m delay ++ replicate k (-1)).
  { induction m as [|m IH]; intros e He Hm.
    - apply A. lia.
    - cbn [speculative_run nextExecution Nat.add replicate app]. subst q.
      cbn [_maxSpeculativeExecutions _delay]. destruct (Z.ltb_spec e (Z.of_nat n)); [|lia].
      f_equal. apply IH; lia. }
  apply B; lia.
Qed.

Lemma newPlan_executions_witness :
  newPlan (mkSpeculative 20 3) (3 + 2) = [20; 20; 20; -1; -1].
Proof. apply (newPlan_executions 20 3 (mkSpeculative 20 3) 2). reflexivity. Defined.

(** *** Timestamps *)

Section timestamp_theorems.
Context `{LongLaws}.

(** The timestamp a generator returned last, in microseconds. *)
Definition generator_time (g : MonotonicTimestampGenerator) : Z := _lastDate g * 1000 + _micros g.

Definition generator_ok (bound : Z) (g : MonotonicTimestampGenerator) : Prop :=
  -1 <= _micros g < 1000 /\ 0 <= _lastDate g <= bound.

Lemma generateMicroseconds_value d m :
  0 <= d <= 2 ^ 53 -> 0 <= m < 1000 -> timestamp_value (_generateMicroseconds d m) = d * 1000 + m.
Proof.
  intros Hd Hm. unfold _generateMicroseconds. destruct (_ <? _); [done|]. cbn [timestamp_value].
  destruct (long_fromNumber_val d) as [Hd1 Hd2]; [lia|].
  destruct (long_fromInt_val 1000) as [Ht1 Ht2]; [unfold is_int32; lia|].
  destruct (long_fromInt_val m) as [Hm1 Hm2]; [unfold is_int32; lia|].
  destruct (long_mul_val (Long_fromNumber d) _longOneThousand (d * 1000)) as [Hp1 Hp2];
    [done..|by rewrite Hd1; unfold _longOneThousand; rewrite Ht1|unfold is_int64; lia|].
  destruct (long_add_val (Long_mul (Long_fromNumber d) _longOneThousand) (Long_fromInt m) (d * 1000 + m)) as [Hs1 _];
    [done..|by rewrite Hp1, Hm1|unfold is_int64; lia|done].
Qed.

(** One call: the time moves to the clock, or by one microsecond. *)
Lemma MonotonicTimestampGenerator_next_step g now logNow B :
  generator_ok B g -> now <= B -> B < 2 ^ 53 ->
  let '(r, warning, g') := MonotonicTimestampGenerator_next g now logNow in
  generator_ok (B + 1) g' /\ timestamp_value r = generator_time g' /\
  generator_time g' = (if _lastDate g <? now then now * 1000 else generator_time g + 1) /\
  _warningThreshold g' = _warningThreshold g /\ _minLogInterval g' = _minLogInterval g /\
  match warning with
  | None => _lastLogDate g' = _lastLogDate g
  | Some (drifted, lastDate, result) =>
      drifted = _lastDate g' - now /\ _warningThreshold g <= drifted /\ 0 < _minLogInterval g /\
      lastDate = _lastDate g /\ result = r /\
      _lastLogDate g + _minLogInterval g <= logNow /\ _lastLogDate g' = logNow
  end.
Proof.
  intros [Hm Hd] Hnow HB. unfold MonotonicTimestampGenerator_next, generator_time, generator_ok.
  destruct (Z.ltb_spec (_lastDate g) now).
  { cbn [_micros _lastDate _warningThreshold _minLogInterval _lastLogDate].
    split_and!; try done; try lia. rewrite generateMicroseconds_value; lia. }
  assert (E : (if now <? _lastDate g then (_lastDate g - now, _lastDate g) else (0, now))
              = (_lastDate g - now, _lastDate g)) by (destruct (Z.ltb_spec now (_lastDate g)); f_equal; lia).
  rewrite E. rewrite (Z.eqb_refl (_lastDate g)).
  destruct (Z.eqb_spec (_micros g + 1) 1000);
    (destruct ((_ <=? _) && _) eqn:W;
     [apply andb_prop in W as [W1 W2]; apply andb_prop in W2 as [W2 W3]|]);
    cbn [_micros _lastDate _warningThreshold _minLogInterval _lastLogDate];
    split_and!; try done; try lia; rewrite generateMicroseconds_value; lia.
Qed.

Lemma timestamps_sorted g clocks B :
  generator_ok B g -> Forall (fun c => c.1 <= B) clocks -> B + Z.of_nat (length clocks) <= 2 ^ 53 ->
  Forall (fun t => generator_time g < timestamp_value t) (timestamps g clocks) /\
  StronglySorted Z.lt (map timestamp_value (timestamps g clocks)) /\
  Forall2 (fun c t => c.1 * 1000 <= timestamp_value t) clocks (timestamps g clocks).
Proof.
  revert g B. induction clocks as [|[now logNow] clocks IH]; intros g B Hg Hc HB; cbn [timestamps].
  { repeat constructor. }
  apply Forall_cons in Hc as [Hnow Hc]. cbn [length fst] in *.
  pose proof (MonotonicTimestampGenerator_next_step g now logNow B Hg Hnow ltac:(lia)) as St.
  destruct (MonotonicTimestampGenerator_next g now logNow) as [[r w] g'].
  destruct St as (Hg' & Hr & Ht & _).
  assert (Hc' : Forall (fun c => c.1 <= B + 1) clocks) by (eapply Forall_impl; [exact Hc|cbn; lia]).
  destruct (IH g' (B + 1) Hg' Hc' ltac:(lia)) as (I1 & I2 & I3).
  destruct Hg as [Hm Hd].
  assert (Hlt : generator_time g < generator_time g')
    by (rewrite Ht; unfold generator_time in *; destruct (Z.ltb_spec (_lastDate g) now); lia).
  split_and!.
  - constructor; [lia|]. eapply Forall_impl; [exact I1|cbn; lia].
  - cbn [map]. constructor; [done|]. apply Forall_map. eapply Forall_impl; [exact I1|cbn; lia].
  - constructor; [|done]. cbn. rewrite Hr, Ht. unfold generator_time.
    destruct (Z.ltb_spec (_lastDate g) now); lia.
Qed.

(** the timestamps of a new generator are strictly increasing, whatever
    the clock does, as Numbers and as Longs, and no timestamp is behind the
    clock it was made from.  A generator with a negative warning threshold is
    rejected. *)
Theorem MonotonicTimestampGenerator_monotonic wt ml g clocks B :
  MonotonicTimestampGenerator_new wt ml = Ok g ->
  Forall (fun c => c.1 <= B) clocks -> 0 <= B -> B + Z.of_nat (length clocks) <= 2 ^ 53 ->
  (forall w, wt = Some w -> 0 <= w) /\
  StronglySorted Z.lt (map timestamp_value (timestamps g clocks)) /\
  Forall2 (fun c t => c.1 * 1000 <= timestamp_value t) clocks (timestamps g clocks).
Proof.
  intros Hg Hc Hpos HB.
  assert (Hok : generator_ok B g /\ (forall w, wt = Some w -> 0 <= w)).
  { unfold MonotonicTimestampGenerator_new in Hg.
    destruct wt as [w|]; [destruct (Z.ltb_spec w 0); [done|]|]; injection Hg as <-;
      (split; [unfold generator_ok; cbn; lia|]); intros ? [=]; lia. }
  destruct Hok as [Hok Hw]. destruct (timestamps_sorted g clocks B Hok Hc HB) as (_ & S & F). auto.
Qed.
End timestamp_theorems.

(** The clock runs backwards across the date from which Longs are used. *)
Lemma MonotonicTimestampGenerator_monotonic_witness :
  let clocks := [(9007199254739, 0); (9007199254740, 0); (9007199254000, 0); (5, 7)] in
  exists g, MonotonicTimestampGenerator_new None None = Ok g /\
    StronglySorted Z.lt (map timestamp_value (timestamps g clocks)).
Proof.
  exists (mkGenerator 1000 1000 (-1) 0 0). split; [reflexivity|].
  refine (proj1 (proj2 (MonotonicTimestampGenerator_monotonic None None _ _ 9007199254740 eq_refl _ _ _)));
    [repeat constructor; cbn; lia|lia|cbn; lia].
Defined.
