(* ===== verification/Token.v ===== *)
(** [lib/token.js]: tokens of the ring and the ranges between them.

    [TokenOrder] is what [TokenRange] needs of [Token.compare]; the instances
    are the tokens of the three partitioners, and the ranges themselves.  The
    tokenizer is not part of the repository: its [minToken] and [split] are
    parameters of the ranges. *)
From S2P Require Import Prelude.
From S2P Require Import JsNum.
From S2P Require Import Buffer.
From S2P Require Import Integer.
From S2P Require Import IntegerArith.
From S2P Require Import LongLib.
From S2P Require Import MutableLong.

(** ** Tokens *)

Class TokenOps (T : Type) := {
  Token_compare : T -> T -> Z;
  Token_wf : T -> Prop }.

(** [compare] is a total preorder. *)
Class TokenOrder (T : Type) `{TokenOps T} : Prop := {
  compare_opp x y : Token_wf x -> Token_wf y -> Z.sgn (Token_compare y x) = - Z.sgn (Token_compare x y);
  compare_trans x y z : Token_wf x -> Token_wf y -> Token_wf z ->
    Token_compare x y <= 0 -> Token_compare y z <= 0 -> Token_compare x z <= 0 }.

Definition Token_equals `{TokenOps T} (x other : T) : bool := Token_compare x other =? 0.

#[export] Instance Murmur3Token_ops : TokenOps MutableLong :=
  {| Token_compare := ML_compare; Token_wf := ML_wf |}.

#[export] Instance RandomToken_ops : TokenOps Integer :=
  {| Token_compare := Integer_compare; Token_wf := Integer_wf |}.

(** [Buffer.compare] of Node.js: lexicographic, a prefix comes first. *)
Fixpoint buffer_compare (x other : list Z) : Z :=
  match x, other with
  | [], [] => 0
  | [], _ :: _ => -1
  | _ :: _, [] => 1
  | a :: x', b :: other' => if a <? b then -1 else if b <? a then 1 else buffer_compare x' other'
  end.

#[export] Instance ByteOrderedToken_ops : TokenOps (list Z) :=
  {| Token_compare := buffer_compare; Token_wf := bytes_ok |}.

(** ** Token ranges *)

(** The tokenizer of a range. *)
Class Tokenizer (T : Type) := {
  minToken : T;
  split : T -> T -> nat -> list T }.

Record TokenRange (T : Type) := mkRange { range_start : T; range_end : T }.
Arguments mkRange {T} _ _.
Arguments range_start {T} _.
Arguments range_end {T} _.

Section ranges.
Context {T : Type} `{TokenOps T} `{Tokenizer T}.

Definition TokenRange_isEmpty (r : TokenRange T) : bool :=
  Token_equals (range_start r) (range_end r) && negb (Token_equals (range_start r) minToken).

Definition TokenRange_isWrappedAround (r : TokenRange T) : bool :=
  (0 <? Token_compare (range_start r) (range_end r)) && negb (Token_equals (range_end r) minToken).

Definition TokenRange_unwrap (r : TokenRange T) : list (TokenRange T) :=
  if TokenRange_isWrappedAround r
  then [mkRange (range_start r) minToken; mkRange minToken (range_end r)]
  else [r].

Definition TokenRange_contains (r : TokenRange T) (token : T) : bool :=
  if TokenRange_isEmpty r then false
  else if Token_equals (range_end r) minToken then
    if Token_equals (range_start r) minToken then true
    else if Token_equals token minToken then true
    else 0 <? Token_compare token (range_start r)
  else
    let isAfterStart := 0 <? Token_compare token (range_start r) in
    let isBeforeEnd := Token_compare token (range_end r) <=? 0 in
    if TokenRange_isWrappedAround r then isAfterStart || isBeforeEnd else isAfterStart && isBeforeEnd.

Definition TokenRange_compare (r other : TokenRange T) : Z :=
  let compareStart := Token_compare (range_start r) (range_start other) in
  if negb (compareStart =? 0) then compareStart
  else Token_compare (range_end r) (range_end other).

(** [equals] of two ranges; the shortcut for the same object agrees. *)
Definition TokenRange_equals (r other : TokenRange T) : bool := TokenRange_compare r other =? 0.

(** The loop of [splitEvenly] over the split points. *)
Fixpoint split_at (splitStart rangeEnd : T) (splitPoints : list T) : list (TokenRange T) :=
  match splitPoints with
  | [] => [mkRange splitStart rangeEnd]
  | splitEnd :: splitPoints' => mkRange splitStart splitEnd :: split_at splitEnd rangeEnd splitPoints'
  end.

Definition TokenRange_splitEvenly (r : TokenRange T) (numberOfSplits : Z) : result (list (TokenRange T)) :=
  if numberOfSplits <? 1 then Throw PlainError
  else if TokenRange_isEmpty r then Throw PlainError
  else Ok (split_at (range_start r) (range_end r)
             (split (range_start r) (range_end r) (Z.to_nat numberOfSplits))).
End ranges.

#[export] Instance TokenRange_ops {T} `{TokenOps T} `{Tokenizer T} : TokenOps (TokenRange T) := {|
  Token_compare := TokenRange_compare;
  Token_wf r := Token_wf (range_start r) /\ Token_wf (range_end r) |}.

(** ** The orders *)

#[export] Instance Murmur3Token_order : TokenOrder MutableLong.
Proof.
  split; cbn; intros.
  - rewrite !ML_compare_spec by done. rewrite !Z.sgn_sgn. rewrite <- Z.sgn_opp. f_equal. lia.
  - rewrite ML_compare_spec in * by done. lia.
Qed.

#[export] Instance RandomToken_order : TokenOrder Integer.
Proof.
  split; cbn; intros.
  - rewrite !Integer_compare_spec by (by apply wf_sign). rewrite !Z.sgn_sgn. rewrite <- Z.sgn_opp. f_equal. lia.
  - rewrite Integer_compare_spec in * by (by apply wf_sign). lia.
Qed.

Lemma buffer_compare_opp x y : buffer_compare y x = - buffer_compare x y.
Proof.
  revert y. induction x as [|a x IH]; intros [|b y]; try done. cbn.
  destruct (Z.ltb_spec a b), (Z.ltb_spec b a); try done; lia.
Qed.

#[export] Instance ByteOrderedToken_order : TokenOrder (list Z).
Proof.
  split; cbn.
  - intros x y _ _. rewrite buffer_compare_opp. apply Z.sgn_opp.
  - intros x y z _ _ _. revert y z. induction x as [|a x IH]; intros [|b y] [|c z]; cbn; try lia.
    destruct (Z.ltb_spec a b), (Z.ltb_spec b c), (Z.ltb_spec a c), (Z.ltb_spec b a), (Z.ltb_spec c b),
      (Z.ltb_spec c a); try lia. eauto.
Qed.

(** ** Ranks: comparisons of finitely many tokens as comparisons of integers *)

Section rank.
Context {T : Type} `{TokenOrder T}.

Definition rank (l : list T) (x : T) : Z :=
  foldr (fun y n => (if Token_compare y x <? 0 then 1 else 0) + n) 0 l.

Lemma rank_cons y l x : rank (y :: l) x = (if Token_compare y x <? 0 then 1 else 0) + rank l x.
Proof. reflexivity. Qed.

Lemma rank_mono l x y :
  Forall Token_wf l -> Token_wf x -> Token_wf y -> Token_compare x y <= 0 -> rank l x <= rank l y.
Proof.
  intros Hl Hx Hy Hxy. induction Hl as [|z l Hz Hl IH]; [reflexivity|]. rewrite !rank_cons.
  pose proof (compare_trans z x y Hz Hx Hy). pose proof (compare_trans x y z Hx Hy Hz).
  pose proof (compare_opp z y Hz Hy). pose proof (compare_opp x y Hx Hy). pose proof (compare_opp z x Hz Hx).
  destruct (Z.ltb_spec (Token_compare z x) 0), (Z.ltb_spec (Token_compare z y) 0); lia.
Qed.

Lemma rank_lt l x y :
  Forall Token_wf l -> Token_wf x -> Token_wf y -> x ∈ l -> Token_compare x y < 0 -> rank l x < rank l y.
Proof.
  intros Hl Hx Hy Hin Hxy. apply list_elem_of_split in Hin as (l1 & l2 & ->).
  apply Forall_app in Hl as [Hl1 Hl2]. apply Forall_cons in Hl2 as [_ Hl2].
  assert (A : forall l1 l2 z, rank (l1 ++ l2) z = rank l1 z + rank l2 z).
  { clear. induction l1 as [|a l1 IH]; intros; [done|].
    rewrite <- app_comm_cons, !rank_cons, IH. lia. }
  rewrite !A. pose proof (rank_mono l1 x y Hl1 Hx Hy ltac:(lia)).
  pose proof (rank_mono l2 x y Hl2 Hx Hy ltac:(lia)).
  rewrite !rank_cons.
  assert (Token_compare x x = 0) by (pose proof (compare_opp x x Hx Hx); lia).
  destruct (Z.ltb_spec (Token_compare x x) 0), (Z.ltb_spec (Token_compare x y) 0); lia.
Qed.

(** The sign of a comparison is the sign of the difference of the ranks. *)
Lemma rank_compare l x y :
  Forall Token_wf l -> x ∈ l -> y ∈ l -> Z.sgn (Token_compare x y) = Z.sgn (rank l x - rank l y).
Proof.
  intros Hl Hx Hy. pose proof Hl as Hl'. rewrite Forall_forall in Hl'.
  pose proof (Hl' x Hx) as Wx. pose proof (Hl' y Hy) as Wy.
  pose proof (compare_opp x y Wx Wy).
  pose proof (rank_mono l x y Hl Wx Wy). pose proof (rank_mono l y x Hl Wy Wx).
  pose proof (rank_lt l x y Hl Wx Wy Hx). pose proof (rank_lt l y x Hl Wy Wx Hy).
  destruct (Z.lt_trichotomy (Token_compare x y) 0) as [?|[?|?]]; lia.
Qed.
End rank.

(** The ranges of Token.v as arcs of the ring. *)

(** The minimum token, as the partitioners document it. *)
Class TokenizerLaws (T : Type) `{TokenOrder T} `{Tokenizer T} : Prop := {
  minToken_wf : Token_wf (minToken (T := T));
  minToken_least (x : T) : Token_wf x -> Token_compare minToken x <= 0 }.

(** ** Tests between tokens as tests between integers *)

Section tests.
Context {T : Type} `{TL : TokenizerLaws T}.

(** The tests on tokens of [l] as tests on their ranks. *)
Lemma rank_tests l x y :
  Forall Token_wf l -> x ∈ l -> y ∈ l ->
  (Token_equals x y = (rank l x =? rank l y)) /\
  ((0 <? Token_compare x y) = (rank l y <? rank l x)) /\
  ((Token_compare x y <=? 0) = (rank l x <=? rank l y)) /\
  ((Token_compare x y <? 0) = (rank l x <? rank l y)).
Proof.
  intros Hl Hx Hy. pose proof (rank_compare l x y Hl Hx Hy) as E. unfold Token_equals.
  destruct (Z.eqb_spec (Token_compare x y) 0), (Z.eqb_spec (rank l x) (rank l y)),
    (Z.ltb_spec 0 (Token_compare x y)), (Z.ltb_spec (rank l y) (rank l x)),
    (Z.leb_spec (Token_compare x y) 0), (Z.leb_spec (rank l x) (rank l y)),
    (Z.ltb_spec (Token_compare x y) 0), (Z.ltb_spec (rank l x) (rank l y)); try lia; auto.
Qed.

Lemma min_rank l x : Forall Token_wf l -> minToken ∈ l -> x ∈ l -> rank l minToken <= rank l x.
Proof.
  intros Hl Hm Hx. pose proof (rank_compare l minToken x Hl Hm Hx).
  rewrite Forall_forall in Hl. pose proof (minToken_least x (Hl x Hx)). lia.
Qed.

End tests.

(** All tests between the tokens [x] and [y] of [l]. *)
Ltac use_rank Hl x y :=
  let E := fresh in
  first [ pose proof (rank_tests _ x y Hl ltac:(rewrite !elem_of_cons; tauto) ltac:(rewrite !elem_of_cons; tauto)) as E;
          destruct E as (E1 & E2 & E3 & E4); rewrite ?E1, ?E2, ?E3, ?E4 in *; clear E1 E2 E3 E4 ].

Ltac use_ranks Hl :=
  repeat match goal with
    | |- context [Token_equals ?x ?y] => use_rank Hl x y
    | |- context [Token_compare ?x ?y] => use_rank Hl x y
    | E : context [Token_equals ?x ?y] |- _ => use_rank Hl x y
    | E : context [Token_compare ?x ?y] |- _ => use_rank Hl x y
    end.

Ltac split_tests :=
  repeat match goal with
    | |- context [?x =? ?y] => destruct (Z.eqb_spec x y); cbn [negb andb orb] in *; try lia
    | |- context [?x <? ?y] => destruct (Z.ltb_spec x y); cbn [negb andb orb] in *; try lia
    | |- context [?x <=? ?y] => destruct (Z.leb_spec x y); cbn [negb andb orb] in *; try lia
    end.

Ltac in_list := rewrite ?elem_of_cons; tauto.

(** The tests between tokens of [l] become tests between integers. *)
Ltac by_ranks l :=
  let Hl := fresh "Hl" in
  assert (Hl : Forall Token_wf l) by (pose proof minToken_wf; rewrite !Forall_cons, Forall_nil; tauto);
  repeat match l with context [?x :: _] =>
    match goal with
    | E : rank l minToken <= rank l x |- _ => fail 1
    | _ => pose proof (min_rank l x Hl ltac:(in_list) ltac:(in_list))
    end end;
  use_ranks Hl;
  repeat match goal with
    | |- context [rank l ?x] => let v := fresh "v" in let Ev := fresh in remember (rank l x) as v eqn:Ev; clear Ev
    | E : context [rank l ?x] |- _ => let v := fresh "v" in let Ev := fresh in remember (rank l x) as v eqn:Ev; clear Ev
    end.

Section theorems.
Context {T : Type} `{TL : TokenizerLaws T}.
Implicit Types (s e t a b : T) (r : TokenRange T).

(** [a] comes before [b] on the ring walked from just after [s] back to [s]. *)
Definition ring_lt s a b : bool :=
  match 0 <? Token_compare a s, 0 <? Token_compare b s with
  | true, false => true
  | false, true => false
  | _, _ => Token_compare a b <? 0
  end.

(** The arc from [s] (excluded) to [e] (included): the whole ring when both
    are the minimum token, nothing when they are the same other token. *)
Definition on_arc s e t : bool :=
  negb (Token_equals s e && negb (Token_equals s minToken)) && negb (ring_lt s e t).

Lemma contains_on_arc r t :
  Token_wf r -> Token_wf t -> TokenRange_contains r t = on_arc (range_start r) (range_end r) t.
Proof.
  destruct r as [s e]. intros [Hs He] Ht. cbn [range_start range_end] in *.
  unfold TokenRange_contains, TokenRange_isEmpty, TokenRange_isWrappedAround, on_arc, ring_lt.
  cbn [range_start range_end]. by_ranks [minToken; s; e; t]. split_tests; done.
Qed.

Definition count (f : TokenRange T -> bool) (l : list (TokenRange T)) : nat := length (List.filter f l).

Lemma unwrap_contains r t :
  Token_wf r -> Token_wf t ->
  count (fun p => TokenRange_contains p t) (TokenRange_unwrap r) = Nat.b2n (TokenRange_contains r t).
Proof.
  destruct r as [s e]. intros [Hs He] Ht. cbn [range_start range_end] in *.
  unfold TokenRange_unwrap. cbn [range_start range_end].
  destruct (TokenRange_isWrappedAround _) eqn:W; unfold count; cbn [List.filter].
  - pose proof minToken_wf as Hm.
    rewrite !contains_on_arc by (repeat split; done). cbn [range_start range_end].
    unfold TokenRange_isWrappedAround, on_arc, ring_lt in *. cbn [range_start range_end] in W.
    by_ranks [minToken; s; e; t]. revert W. split_tests; done.
  - by destruct (TokenRange_contains _ t).
Qed.

Lemma unwrap_not_wrapped r : Token_wf r -> Forall (fun p => TokenRange_isWrappedAround p = false) (TokenRange_unwrap r).
Proof.
  destruct r as [s e]. intros [Hs He]. cbn [range_start range_end] in *.
  unfold TokenRange_unwrap. destruct (TokenRange_isWrappedAround _) eqn:W; [|auto].
  pose proof minToken_wf as Hm. cbn [range_start range_end].
  rewrite !Forall_cons, Forall_nil. unfold TokenRange_isWrappedAround in *. cbn [range_start range_end] in *.
  by_ranks [minToken; s; e]. revert W. split_tests; auto.
Qed.

(** *** Splitting *)

(** The next split point [b] of the arc from [a] to [e]: strictly inside, or
    (the part is too small) one of the ends, but not the minimum token. *)
Definition split_point a e b : Prop :=
  (Token_equals b a = true /\ Token_equals a minToken = false) \/
  ((Token_equals a e && negb (Token_equals a minToken)) = false /\
   (ring_lt a b e = true \/ (Token_equals b e = true /\ Token_equals e minToken = false))).

Fixpoint split_points a e (l : list T) : Prop :=
  match l with
  | [] => True
  | b :: l' => Token_wf b /\ split_point a e b /\ split_points b e l'
  end.

Lemma on_arc_split a e b t :
  Token_wf a -> Token_wf e -> Token_wf b -> Token_wf t -> split_point a e b ->
  Nat.b2n (on_arc a e t) = (Nat.b2n (on_arc a b t) + Nat.b2n (on_arc b e t))%nat.
Proof.
  intros Ha He Hb Ht Hp. unfold split_point, on_arc, ring_lt in *.
  destruct Hp as [[P1 P2]|[P1 [P2|[P2 P3]]]]; by_ranks [minToken; a; e; b; t];
    revert P1 P2; try revert P3; split_tests; done.
Qed.

Lemma split_at_count a e l t :
  Token_wf a -> Token_wf e -> Token_wf t -> split_points a e l ->
  count (fun p => TokenRange_contains p t) (split_at a e l) = Nat.b2n (on_arc a e t).
Proof.
  intros Ha He Ht. revert a Ha. induction l as [|b l IH]; intros a Ha; cbn [split_at split_points].
  - intros _. unfold count. cbn [List.filter]. rewrite contains_on_arc by done. cbn [range_start range_end].
    by destruct (on_arc a e t).
  - intros (Hb & Hp & Hl). rewrite (on_arc_split a e b t) by done. rewrite <- (IH b Hb Hl).
    unfold count. cbn [List.filter]. rewrite contains_on_arc by done. cbn [range_start range_end].
    by destruct (on_arc a b t).
Qed.

Lemma split_at_length a e l : length (split_at a e l) = S (length l).
Proof. revert a. induction l as [|b l IH]; intros a; cbn; [done|by rewrite IH]. Qed.

Lemma split_at_starts a e l : map range_start (split_at a e l) = a :: l.
Proof. revert a. induction l as [|b l IH]; intros a; cbn; [done|by rewrite IH]. Qed.

Lemma split_at_ends a e l : map range_end (split_at a e l) = l ++ [e].
Proof. revert a. induction l as [|b l IH]; intros a; cbn; [done|by rewrite IH]. Qed.

(** [contains] is membership in the arc of the ring from [start]
    (excluded) to [end] (included): the range from the minimum token to itself
    is the whole ring, a range from any other token to itself is empty, and a
    range that ends before it starts goes through the end of the ring, also
    when it ends at the minimum token. *)
Theorem TokenRange_contains_arc r t (Hr : Token_wf r) (Ht : Token_wf t) :
  let s := range_start r in
  let e := range_end r in
  TokenRange_contains r t =
    if Token_equals s e then Token_equals s minToken
    else if Token_compare s e <? 0
      then (Token_compare s t <? 0) && (Token_compare t e <=? 0)
      else (Token_compare s t <? 0) || (Token_compare t e <=? 0).
Proof.
  cbv zeta. rewrite contains_on_arc by done. destruct r as [s e], Hr as [Hs He].
  cbn [range_start range_end] in *. unfold on_arc, ring_lt.
  by_ranks [minToken; s; e; t]. split_tests; done.
Qed.

(** [unwrap] gives ranges that do not wrap around, and a token is in
    exactly one of them when it is in the range, in none otherwise. *)
Theorem TokenRange_unwrap_partition r t (Hr : Token_wf r) (Ht : Token_wf t) :
  Forall (fun p => TokenRange_isWrappedAround p = false) (TokenRange_unwrap r) /\
  count (fun p => TokenRange_contains p t) (TokenRange_unwrap r) = Nat.b2n (TokenRange_contains r t).
Proof. split; [by apply unwrap_not_wrapped|by apply unwrap_contains]. Qed.

(** C39: when the tokenizer returns [n - 1] split points in ring order,
    [splitEvenly] returns [n] consecutive ranges from [start] to [end] of which
    exactly one contains each token of the range, and none any other token.  It
    throws for an empty range and for less than one split. *)
Theorem TokenRange_splitEvenly_partition r n t (Hr : Token_wf r) (Ht : Token_wf t) :
  ((n < 1)%Z \/ TokenRange_isEmpty r = true -> TokenRange_splitEvenly r n = Throw PlainError) /\
  (1 <= n -> TokenRange_isEmpty r = false ->
   let points := split (range_start r) (range_end r) (Z.to_nat n) in
   split_points (range_start r) (range_end r) points -> length points = (Z.to_nat n - 1)%nat ->
   exists ranges, TokenRange_splitEvenly r n = Ok ranges /\ length ranges = Z.to_nat n /\
     map range_start ranges = range_start r :: points /\ map range_end ranges = points ++ [range_end r] /\
     count (fun p => TokenRange_contains p t) ranges = Nat.b2n (TokenRange_contains r t)).
Proof.
  unfold TokenRange_splitEvenly. split.
  - intros [Hn|He]; [destruct (Z.ltb_spec n 1); [done|lia]|]. rewrite He. by destruct (n <? 1).
  - intros Hn He Hp Hlen. rewrite He. destruct (Z.ltb_spec n 1); [lia|].
    eexists. split; [done|]. split; [rewrite split_at_length; lia|].
    destruct Hr as [Hs Hend]. rewrite split_at_count, contains_on_arc by (done || apply Hp).
    auto using split_at_starts, split_at_ends.
Qed.

(** The comparison of ranges is a total preorder again. *)
#[export] Instance TokenRange_order : TokenOrder (TokenRange T).
Proof.
  split.
  - intros [s e] [s' e'] [Hs He] [Hs' He']. cbn [range_start range_end Token_compare TokenRange_ops] in *.
    unfold TokenRange_compare. cbn [range_start range_end].
    pose proof (compare_opp s s' Hs Hs'). pose proof (compare_opp e e' He He').
    destruct (Z.eqb_spec (Token_compare s s') 0), (Z.eqb_spec (Token_compare s' s) 0); cbn [negb]; lia.
  - intros [s1 e1] [s2 e2] [s3 e3] [? ?] [? ?] [? ?]. cbn [range_start range_end Token_compare TokenRange_ops] in *.
    unfold TokenRange_compare. cbn [range_start range_end].
    pose proof (compare_trans s1 s2 s3). pose proof (compare_trans s2 s3 s1). pose proof (compare_trans s3 s1 s2).
    pose proof (compare_trans e1 e2 e3). pose proof (compare_opp s1 s2). pose proof (compare_opp s2 s3).
    pose proof (compare_opp s1 s3).
    destruct (Z.eqb_spec (Token_compare s1 s2) 0), (Z.eqb_spec (Token_compare s2 s3) 0),
      (Z.eqb_spec (Token_compare s1 s3) 0); cbn [negb]; intros; intuition lia.
Qed.
End theorems.

(** ** The Murmur3 ring *)

(** The documented tokenizer of Murmur3Partitioner: the minimum token is
    [-2^63], and split points are at equal distances. *)
Definition Murmur3_of (z : Z) : MutableLong := ML_fromBits (z mod 2 ^ 32) (z / 2 ^ 32 mod 2 ^ 32).

#[export] Instance Murmur3_tokenizer : Tokenizer MutableLong := {|
  minToken := Murmur3_of (- 2 ^ 63);
  split s e n :=
    let d := (ML_val e - ML_val s) mod 2 ^ 64 in
    let d := if d =? 0 then 2 ^ 64 else d in
    map (fun i => Murmur3_of (ML_val s + d * i / Z.of_nat n)) (seqZ 1 (Z.of_nat n - 1)) |}.

#[export] Instance Murmur3_tokenizer_laws : TokenizerLaws MutableLong.
Proof.
  assert (W : ML_wf (Murmur3_of (- 2 ^ 63))) by (constructor; vm_compute; intuition congruence).
  split; [exact W|]. intros x Hx. cbn [Token_compare Murmur3Token_ops minToken Murmur3_tokenizer].
  rewrite ML_compare_spec by done. replace (ML_val (Murmur3_of (- 2 ^ 63))) with (- 2 ^ 63) by (vm_compute; done).
  pose proof (signed64_range _ (ML_bits_range x Hx)) as R. unfold is_int64, ML_val in *. lia.
Qed.

Lemma Murmur3_of_wf z : ML_wf (Murmur3_of z).
Proof. apply ML_fromBits_spec. Qed.

Abbreviation m3range s e := (mkRange (Murmur3_of s) (Murmur3_of e)).

Lemma TokenRange_contains_arc_witness :
  TokenRange_contains (m3range 100 (-5)) (Murmur3_of (-7)) = true /\
  TokenRange_contains (m3range 100 (-5)) (Murmur3_of 100) = false.
Proof.
  split; (etransitivity; [apply (TokenRange_contains_arc (m3range 100 (-5)));
    [split; apply Murmur3_of_wf|apply Murmur3_of_wf]|vm_compute; reflexivity]).
Defined.

Lemma TokenRange_unwrap_partition_witness :
  count (fun p => TokenRange_contains p (Murmur3_of (-7))) (TokenRange_unwrap (m3range 100 (-5))) = 1%nat.
Proof.
  etransitivity; [apply (TokenRange_unwrap_partition (m3range 100 (-5)) (Murmur3_of (-7)));
    [split; apply Murmur3_of_wf|apply Murmur3_of_wf]|vm_compute; reflexivity].
Defined.

Lemma TokenRange_splitEvenly_partition_witness :
  exists ranges, TokenRange_splitEvenly (m3range (- 2 ^ 63) (- 2 ^ 63)) 4 = Ok ranges /\ length ranges = 4%nat.
Proof.
  destruct (TokenRange_splitEvenly_partition (m3range (- 2 ^ 63) (- 2 ^ 63)) 4 (Murmur3_of 0))
    as [_ S]; [split; apply Murmur3_of_wf|apply Murmur3_of_wf|].
  destruct S as (ranges & H1 & H2 & _).
  - vm_compute; congruence.
  - vm_compute; reflexivity.
  - match goal with |- split_points _ _ ?l =>
      let l' := eval vm_compute in l in replace l with l' by (vm_compute; reflexivity) end.
    repeat (split; [constructor; cbn; lia|split; [right; split; [|left]; vm_compute; reflexivity|]]). exact I.
  - vm_compute; reflexivity.
  - exists ranges. split; [exact H1|exact H2].
Defined.
