(* ===== verification/Version.v ===== *)
(** [lib/types/version-number.js] and [lib/types/protocol-version.js]: server
    versions and the protocol version the hosts of a cluster have in common. *)
From S2P Require Import Prelude.
From S2P Require Import JsNum.
From S2P Require Import JsStr.

(** ** VersionNumber *)

Record VersionNumber := mkVersion {
  major : Z; minor : Z; patch : option Z; dsePatch : option Z;
  preReleases : option (list jsstr); build : option jsstr }.

Definition opt_text (sep : ascii) (z : option Z) : jsstr :=
  match z with Some z => sep :: num_to_string 10 z | None => [] end.

Definition VersionNumber_toString (v : VersionNumber) : jsstr :=
  num_to_string 10 (major v) ++ str "." ++ num_to_string 10 (minor v) ++
  opt_text "."%char (patch v) ++ opt_text "."%char (dsePatch v) ++
  (match preReleases v with Some ws => concat (map (cons "-"%char) ws) | None => [] end) ++
  (match build v with Some (c :: b) => "+"%char :: c :: b | _ => [] end).

Definition VersionNumber_compare (x other : VersionNumber) : Z :=
  if major x <? major other then -1
  else if major other <? major x then 1
  else if minor x <? minor other then -1
  else if minor other <? minor x then 1
  else
    let thisPatch := default 0 (patch x) in
    let otherPatch := default 0 (patch other) in
    if thisPatch <? otherPatch then -1
    else if otherPatch <? thisPatch then 1
    else
      let pre :=
        match preReleases x, preReleases other with
        | None, Some _ => 1
        | Some _, None => -1
        | _, _ => 0
        end in
      match dsePatch x, dsePatch other with
      | None, Some _ => -1
      | Some _, None => 1
      | Some d, Some d' => if d <? d' then -1 else if d' <? d then 1 else pre
      | None, None => pre
      end.

(** *** [_versionPattern] *)

(** The longest prefix whose characters satisfy [p], and the rest. *)
Fixpoint span (p : ascii -> bool) (s : jsstr) : jsstr * jsstr :=
  match s with
  | c :: s' => if p c then let '(w, r) := span p s' in (c :: w, r) else ([], s)
  | [] => ([], [])
  end.

(** [\w] *)
Definition is_word (c : ascii) : bool :=
  let n := code c in
  is_digit c || ((65 <=? n) && (n <=? 90)) || ((97 <=? n) && (n <=? 122)) || (n =? 95).

Definition one_of (l : list ascii) (c : ascii) : bool := existsb (fun d => bool_decide (c = d)) l.

(** [\.(\d+)] *)
Definition match_dot_digits (s : jsstr) : option (jsstr * jsstr) :=
  match s with
  | c :: s' => if decide (c = "."%char) then
                 match span is_digit s' with ([], _) => None | m => Some m end
               else None
  | [] => None
  end.

(** Any number of a hyphen, a word character, and word characters or dots:
    the text matched and the rest. *)
Fixpoint match_more_pre (fuel : nat) (s : jsstr) : jsstr * jsstr :=
  match fuel, s with
  | S fuel', h :: c :: s' =>
      if bool_decide (h = "-"%char) && is_word c then
        let '(w, r) := span (fun c => is_word c || one_of ["."%char] c) s' in
        let '(ws, r) := match_more_pre fuel' r in (h :: c :: w ++ ws, r)
      else ([], s)
  | _, _ => ([], s)
  end.

(** The optional fifth group: after a hyphen or a tilde, word characters or
    plus signs, and then the repetition above. *)
Definition match_pre (s : jsstr) : option jsstr * jsstr :=
  match s with
  | c :: s' =>
      if one_of ["-"%char; "~"%char] c then
        let '(w, r) := span (fun c => is_word c || one_of ["+"%char] c) s' in
        let '(ws, r) := match_more_pre (length r) r in (Some (w ++ ws), r)
      else (None, s)
  | [] => (None, [])
  end.

(** [(?:\+([.\w]+))?] *)
Definition match_build (s : jsstr) : option jsstr :=
  match s with
  | c :: s' =>
      if decide (c = "+"%char) then
        match (span (fun c => is_word c || one_of ["."%char] c) s').1 with [] => None | b => Some b end
      else None
  | [] => None
  end.

(** [parseInt] of a non-empty digit string. *)
Definition digits_number (ds : jsstr) : Z := be_val 10 (digit_prefix 10 ds).

(** The pattern at the start of [s]; the six groups become the version. *)
Definition match_version (s : jsstr) : option VersionNumber :=
  match span is_digit s with
  | ([], _) => None
  | (g1, r) =>
      match match_dot_digits r with
      | None => None
      | Some (g2, r) =>
          let '(g3, r) := match match_dot_digits r with Some (g, r) => (Some g, r) | None => (None, r) end in
          let '(g4, r) :=
            match r with
            | c :: r' => if decide (c = "."%char) then
                           match span is_digit r' with ([], r) => (None, r) | (g, r) => (Some g, r) end
                         else (None, r)
            | [] => (None, [])
            end in
          let '(g5, r) := match_pre r in
          let g6 := match_build r in
          Some (mkVersion (digits_number g1) (digits_number g2)
                  (digits_number <$> g3) (digits_number <$> g4)
                  (match g5 with Some (c :: w) => Some (split_on "-"%char (c :: w)) | _ => None end) g6)
      end
  end.

(** [version.match(_versionPattern)] takes the leftmost match. *)
Fixpoint search_version (s : jsstr) : option VersionNumber :=
  match match_version s with
  | Some v => Some v
  | None => match s with [] => None | _ :: s' => search_version s' end
  end.

(** [None] is [null]. *)
Definition VersionNumber_parse (version : jsstr) : result (option VersionNumber) :=
  match version with
  | [] => Ok None
  | _ => match search_version version with Some v => Ok (Some v) | None => Throw TypeError end
  end.

Example parse_ex1 :
  VersionNumber_parse (str "3.0.0-SNAPSHOT-beta.1+build2") =
  Ok (Some (mkVersion 3 0 (Some 0) None (Some [str "SNAPSHOT"; str "beta.1"]) (Some (str "build2")))).
Proof. reflexivity. Qed.

Example parse_ex2 :
  VersionNumber_parse (str "DSE 4.8.0.1~rc1") =
  Ok (Some (mkVersion 4 8 (Some 0) (Some 1) (Some [str "rc1"]) None)).
Proof. reflexivity. Qed.

(** ** Protocol versions *)

Definition v1 : Z := 1.
Definition v2 : Z := 2.
Definition v3 : Z := 3.
Definition v4 : Z := 4.
Definition v5 : Z := 5.
Definition dseV1 : Z := 65.
Definition dseV2 : Z := 66.

Definition isSupportedCassandra (version : Z) : bool := (version <=? 4) && (1 <=? version).
Definition isSupported (version : Z) : bool := isSupportedCassandra version.
Definition supportsPrepareFlags (version : Z) : bool := version =? dseV2.
Definition supportsKeyspaceInRequest (version : Z) : bool := version =? dseV2.
Definition supportsResultMetadataId (version : Z) : bool := version =? dseV2.
Definition supportsPreparedPartitionKey (version : Z) : bool := v4 <=? version.
Definition supportsSchemaChangeFullMetadata (version : Z) : bool := v3 <=? version.
Definition supportsContinuousPaging (version : Z) : bool := false.
Definition supportsPaging (version : Z) : bool := v2 <=? version.
Definition supportsTimestamp (version : Z) : bool := v3 <=? version.
Definition supportsNamedParameters (version : Z) : bool := v3 <=? version.
Definition supportsUnset (version : Z) : bool := v4 <=? version.
Definition supportsFailureReasonMap (version : Z) : bool := v5 <=? version.
Definition uses2BytesStreamIds (version : Z) : bool := v3 <=? version.
Definition uses4BytesCollectionLength (version : Z) : bool := v3 <=? version.
Definition uses4BytesQueryFlags (version : Z) : bool := false.
Definition canStartupResponseErrorBeWrapped (version : Z) : bool := v4 <=? version.
Definition isBeta (version : Z) : bool := version =? v5.

Definition getLowerSupported (version : Z) : Z :=
  if v5 <=? version then v4
  else if version <=? v1 then 0
  else version - 1.

Definition release (major minor : Z) : VersionNumber := mkVersion major minor (Some 0) None None None.
Definition v200 : VersionNumber := release 2 0.
Definition v210 : VersionNumber := release 2 1.
Definition v220 : VersionNumber := release 2 2.
Definition v300 : VersionNumber := release 3 0.
Definition v510 : VersionNumber := release 5 1.
Definition v600 : VersionNumber := release 6 0.

Example parsed_constants :
  map VersionNumber_parse (map str ["2.0.0"; "2.1.0"; "2.2.0"; "3.0.0"; "5.1.0"; "6.0.0"]%string)
  = map (fun v => Ok (Some v)) [v200; v210; v220; v300; v510; v600].
Proof. reflexivity. Qed.

(** The two properties of a host that matter; absent is the empty text. *)
Record HostVersions := mkHost { dseVersion : jsstr; cassandraVersion : jsstr }.

Inductive log_level := verbose | warning | error.

(** [maxVersion], [v3Requirement], [maxVersionWith3OrMore] and what was logged. *)
Record common_state := mkCommon {
  maxVersion : Z; v3Requirement : bool; maxVersionWith3OrMore : Z; logged : list log_level }.

Definition add_log (l : log_level) (s : common_state) : common_state :=
  mkCommon (maxVersion s) (v3Requirement s) (maxVersionWith3OrMore s) (logged s ++ [l]).

(** [maxVersion = Math.min(cap, maxVersion)], recorded in the second maximum. *)
Definition lower_max (cap : Z) (s : common_state) : common_state :=
  let m := Z.min cap (maxVersion s) in mkCommon m (v3Requirement s) m (logged s).

Definition require_v3 (s : common_state) : common_state :=
  mkCommon (maxVersion s) true (maxVersionWith3OrMore s) (logged s).

(** The part of the callback that looks at the Cassandra version. *)
Definition visit_cassandra (dse : bool) (cassandra : jsstr) (s : common_state) : common_state :=
  match VersionNumber_parse cassandra with
  | Throw _ => add_log warning s
  | Ok None => add_log warning s
  | Ok (Some c) =>
      let s := if dse then s else add_log verbose s in
      if 0 <=? VersionNumber_compare c v300 then lower_max v4 (require_v3 s)
      else if 0 <=? VersionNumber_compare c v220 then lower_max v4 s
      else if 0 <=? VersionNumber_compare c v210 then lower_max v3 s
      else if 0 <=? VersionNumber_compare c v200
        then mkCommon (Z.min v2 (maxVersion s)) (v3Requirement s) (maxVersionWith3OrMore s) (logged s)
      else mkCommon v1 (v3Requirement s) (maxVersionWith3OrMore s) (logged s)
  end.

(** The callback of [hosts.forEach]: an unparseable DSE version is not caught. *)
Definition visit_host (s : common_state) (h : HostVersions) : result common_state :=
  match dseVersion h with
  | [] => Ok (visit_cassandra false (cassandraVersion h) s)
  | _ =>
      d ← VersionNumber_parse (dseVersion h);
      match d with
      | None => Ok (visit_cassandra false (cassandraVersion h) s)
      | Some d =>
          let s := add_log verbose s in
          if 0 <=? VersionNumber_compare d v510
          then Ok (if 0 <=? VersionNumber_compare d v600 then lower_max dseV2 (require_v3 s)
                   else lower_max dseV1 (require_v3 s))
          else Ok (visit_cassandra true (cassandraVersion h) s)
      end
  end.

Fixpoint visit_hosts (s : common_state) (hosts : list HostVersions) : result common_state :=
  match hosts with
  | [] => Ok s
  | h :: hosts' => s ← visit_host s h; visit_hosts s hosts'
  end.

(** Returns the version and what was logged; [connection] is the protocol
    version of the connection. *)
Definition getHighestCommon (connection : Z) (hosts : list HostVersions) : result (Z * list log_level) :=
  s ← visit_hosts (mkCommon connection false connection []) hosts;
  let s := if v3Requirement s && (maxVersion s <? v3)
           then mkCommon (maxVersionWith3OrMore s) true (maxVersionWith3OrMore s) (logged s ++ [error])
           else s in
  Ok (maxVersion s, logged s ++ [verbose]).

Example getHighestCommon_ex :
  getHighestCommon 66 [mkHost [] (str "3.11.4"); mkHost [] (str "2.0.17"); mkHost (str "5.1.2") (str "3.10")]
  = Ok (2, [verbose; verbose; verbose; error; verbose]).
Proof. vm_compute. reflexivity. Qed.

(** The order and the text of version numbers, and the common protocol version. *)

(** ** Order *)

Fixpoint lex_compare (x y : list Z) : Z :=
  match x, y with
  | a :: x', b :: y' => if a <? b then -1 else if b <? a then 1 else lex_compare x' y'
  | _, _ => 0
  end.

(** What [compare] looks at, most significant first: a missing patch counts as
    0, a missing DSE patch is below any other, and a pre-release is below the
    release. *)
Definition version_key (v : VersionNumber) : list Z :=
  [major v; minor v; default 0 (patch v);
   match dsePatch v with Some d => d | None => -1 end;
   match preReleases v with Some _ => 0 | None => 1 end].

Definition version_ok (v : VersionNumber) : Prop := match dsePatch v with Some d => 0 <= d | None => True end.

Lemma compare_key x y : version_ok x -> version_ok y ->
  VersionNumber_compare x y = lex_compare (version_key x) (version_key y).
Proof.
  destruct x as [a b c d e f], y as [a' b' c' d' e' f']. unfold version_ok. cbn [dsePatch]. intros Hx Hy.
  unfold VersionNumber_compare, version_key. cbn [lex_compare major minor patch dsePatch preReleases].
  cbv zeta. do 6 (match goal with |- (if ?x <? ?y then _ else _) = _ => destruct (Z.ltb_spec x y); [done|] end).
  destruct d as [d|], d' as [d'|]; cbn [lex_compare]; destruct e, e';
    repeat match goal with |- context [?x <? ?y] => destruct (Z.ltb_spec x y) end; lia.
Qed.

Lemma lex_compare_opp x y : lex_compare y x = - lex_compare x y.
Proof.
  revert y. induction x as [|a x IH]; intros [|b y]; try done. cbn.
  destruct (Z.ltb_spec a b), (Z.ltb_spec b a); try done; lia.
Qed.

Lemma lex_compare_trans x y z :
  length x = length y -> length y = length z ->
  lex_compare x y <= 0 -> lex_compare y z <= 0 -> lex_compare x z <= 0.
Proof.
  revert y z. induction x as [|a x IH]; intros [|b y] [|c z]; cbn; try lia.
  intros [= Hxy] [= Hyz].
  destruct (Z.ltb_spec a b), (Z.ltb_spec b c), (Z.ltb_spec a c), (Z.ltb_spec b a), (Z.ltb_spec c b),
    (Z.ltb_spec c a); try lia. eauto.
Qed.

Lemma lex_compare_zero x y : length x = length y -> lex_compare x y = 0 <-> x = y.
Proof.
  revert y. induction x as [|a x IH]; intros [|b y]; cbn; try done. intros [= Hl].
  destruct (Z.ltb_spec a b); [split; [done|intros [=]; lia]|].
  destruct (Z.ltb_spec b a); [split; [done|intros [=]; lia]|].
  rewrite IH by done. split; [intros ->; f_equal; lia|by intros [= _ ->]].
Qed.

(** [compare] orders versions by major, minor, patch (missing is 0), DSE
    patch (missing is lowest) and release after pre-release: it is a total
    preorder with results -1, 0 and 1, and 0 exactly for versions that agree on
    these five. *)
Theorem VersionNumber_compare_order x y z (Hx : version_ok x) (Hy : version_ok y) (Hz : version_ok z) :
  VersionNumber_compare x y ∈ [-1; 0; 1] /\
  VersionNumber_compare y x = - VersionNumber_compare x y /\
  (VersionNumber_compare x y <= 0 -> VersionNumber_compare y z <= 0 -> VersionNumber_compare x z <= 0) /\
  (VersionNumber_compare x y = 0 <-> version_key x = version_key y) /\
  (VersionNumber_compare x y < 0 <->
   exists p a b r1 r2, version_key x = p ++ a :: r1 /\ version_key y = p ++ b :: r2 /\ a < b).
Proof.
  rewrite !compare_key by done. split_and!.
  - generalize (version_key x) as l, (version_key y) as k. induction l as [|a l IH]; intros [|b k]; cbn;
      rewrite ?elem_of_cons; auto. destruct (_ <? _); [auto|]. destruct (_ <? _); [auto|].
    specialize (IH k). rewrite !elem_of_cons in IH. done.
  - apply lex_compare_opp.
  - by apply lex_compare_trans.
  - by apply lex_compare_zero.
  - assert (A : forall l k, length l = length k -> lex_compare l k < 0 <->
      exists p a b r1 r2, l = p ++ a :: r1 /\ k = p ++ b :: r2 /\ a < b).
    { clear. induction l as [|a l IH]; intros [|b k]; cbn; try done.
      - intros _. split; [lia|]. intros (p & ? & ? & ? & ? & H & _). by destruct p.
      - intros [= Hl]. destruct (Z.ltb_spec a b).
        { split; [|lia]. intros _. exists [], a, b, l, k. auto. }
        destruct (Z.ltb_spec b a).
        { split; [lia|]. intros ([|c p] & ? & ? & ? & ? & H1 & H2 & ?); cbn in *; simplify_eq; lia. }
        rewrite IH by done. split.
        + intros (p & c & d & r1 & r2 & -> & -> & ?). exists (a :: p), c, d, r1, r2. cbn. split_and!; [done| |done].
          f_equal. lia.
        + intros ([|c p] & e & d & r1 & r2 & H1 & H2 & ?); cbn in *; simplify_eq; [lia|]. eauto 10. }
    by apply A.
Qed.

Lemma VersionNumber_compare_order_witness :
  VersionNumber_compare (mkVersion 4 8 None None (Some [str "rc1"]) None) (mkVersion 4 8 (Some 0) None None None)
  = - VersionNumber_compare (mkVersion 4 8 (Some 0) None None None) (mkVersion 4 8 None None (Some [str "rc1"]) None).
Proof.
  apply (VersionNumber_compare_order (mkVersion 4 8 (Some 0) None None None)
    (mkVersion 4 8 None None (Some [str "rc1"]) None) v300); exact I.
Defined.

(** ** Protocol versions *)

(** The protocol versions of the documentation of [getHighestCommon]: the
    highest one of a server version, and whether it rules out protocols below 3. *)
Definition cassandra_protocol (c : VersionNumber) : Z * bool :=
  if 0 <=? VersionNumber_compare c v300 then (v4, true)
  else if 0 <=? VersionNumber_compare c v220 then (v4, false)
  else if 0 <=? VersionNumber_compare c v210 then (v3, false)
  else if 0 <=? VersionNumber_compare c v200 then (v2, false)
  else (v1, false).

(** [None] for a host without a usable version. *)
Definition host_protocol (h : HostVersions) : result (option (Z * bool)) :=
  d ← VersionNumber_parse (dseVersion h);
  match d with
  | Some d' =>
      if 0 <=? VersionNumber_compare d' v510
      then Ok (Some (if 0 <=? VersionNumber_compare d' v600 then dseV2 else dseV1, true))
      else Ok (match VersionNumber_parse (cassandraVersion h) with
               | Ok (Some c) => Some (cassandra_protocol c) | _ => None end)
  | None => Ok (match VersionNumber_parse (cassandraVersion h) with
               | Ok (Some c) => Some (cassandra_protocol c) | _ => None end)
  end.

Definition apply_protocol (p : option (Z * bool)) (s : Z * bool * Z) : Z * bool * Z :=
  match p with
  | None => s
  | Some (cap, required) =>
      let '(m, r, m3) := s in
      let m := Z.min cap m in (m, r || required, if v3 <=? cap then m else m3)
  end.

Definition core (s : common_state) : Z * bool * Z := (maxVersion s, v3Requirement s, maxVersionWith3OrMore s).

Lemma visit_cassandra_core dse c s :
  1 <= maxVersion s ->
  core (visit_cassandra dse c s) =
  apply_protocol (match VersionNumber_parse c with Ok (Some c) => Some (cassandra_protocol c) | _ => None end) (core s).
Proof.
  intros Hm. unfold visit_cassandra. destruct (VersionNumber_parse c) as [[v|]|]; [|done..].
  unfold cassandra_protocol. destruct dse;
  repeat (destruct (0 <=? _); [unfold core; cbn; by rewrite ?orb_true_r, ?orb_false_r|]);
    unfold core; cbn; rewrite orb_false_r; repeat f_equal; unfold v1; lia.
Qed.

Lemma visit_host_core s h p :
  1 <= maxVersion s -> host_protocol h = Ok p ->
  exists s', visit_host s h = Ok s' /\ core s' = apply_protocol p (core s) /\ 1 <= maxVersion s'.
Proof.
  intros Hm Hp.
  assert (E : exists s', visit_host s h = Ok s' /\ core s' = apply_protocol p (core s)).
  { unfold host_protocol, visit_host in *. destruct (dseVersion h) as [|c d].
    - cbn [VersionNumber_parse mbind result_bind] in Hp. injection Hp as <-.
      eexists. split; [done|]. by apply visit_cassandra_core.
    - destruct (VersionNumber_parse (c :: d)) as [[v|]|]; cbn [mbind result_bind] in *; [|injection Hp as <-..|done].
      + destruct (0 <=? _).
        * injection Hp as <-. eexists. split; [done|].
          unfold core. destruct (0 <=? _); cbn; by rewrite orb_true_r.
        * injection Hp as <-. eexists. split; [done|]. rewrite visit_cassandra_core by done. done.
      + eexists. split; [done|]. by apply visit_cassandra_core. }
  destruct E as (s' & Hs & E). exists s'. split_and!; [done..|].
  assert (Hc : match p with Some (cap, _) => 1 <= cap | None => True end).
  { clear - Hp. unfold host_protocol, cassandra_protocol in Hp.
    destruct (VersionNumber_parse (dseVersion h)) as [[v|]|]; cbn [mbind result_bind] in Hp; [| |done];
      repeat match type of Hp with
        | context [if ?b then _ else _] => destruct b
        | context [match VersionNumber_parse ?c with _ => _ end] => destruct (VersionNumber_parse c) as [[]|]
        end; injection Hp as <-; try done; unfold v1, v2, v3, v4, dseV1, dseV2; lia. }
  replace (maxVersion s') with (core s').1.1 by done. rewrite E. unfold core.
  destruct p as [[cap r]|]; cbn; lia.
Qed.

Lemma visit_hosts_core s hosts ps :
  1 <= maxVersion s -> Forall2 (fun h p => host_protocol h = Ok p) hosts ps ->
  exists s', visit_hosts s hosts = Ok s' /\ core s' = foldl (fun c p => apply_protocol p c) (core s) ps.
Proof.
  intros Hm H. revert s Hm. induction H as [|h p hosts ps Hh _ IH]; intros s Hm; cbn [visit_hosts foldl].
  { by exists s. }
  destruct (visit_host_core s h p Hm Hh) as (s1 & E1 & E2 & Hm1). rewrite E1. cbn [mbind result_bind].
  destruct (IH s1 Hm1) as (s2 & E3 & E4). exists s2. by rewrite <- E2.
Qed.

(** The smallest of [m] and the maxima of the hosts, and whether one of them
    needs protocol 3. *)
Definition min_cap (m : Z) (ps : list (option (Z * bool))) : Z :=
  foldl (fun m p => match p with Some (cap, _) => Z.min cap m | None => m end) m ps.

Definition needs_v3 (ps : list (option (Z * bool))) : bool :=
  existsb (fun p => match p with Some (_, r) => r | None => false end) ps.

Definition modern (p : option (Z * bool)) : Prop := match p with Some (cap, _) => v3 <= cap | None => True end.
Definition old (p : option (Z * bool)) : Prop := match p with Some (cap, _) => cap < v3 | None => True end.

Lemma foldl_protocol ps m r m3 :
  exists m3', foldl (fun c p => apply_protocol p c) (m, r, m3) ps = (min_cap m ps, r || needs_v3 ps, m3') /\
    (Forall modern ps -> m3' = if decide (Forall (eq None) ps) then m3 else min_cap m ps) /\
    (Forall old ps -> m3' = m3).
Proof.
  revert m r m3. induction ps as [|[[cap q]|] ps IH]; intros m r m3; cbn [foldl].
  - exists m3. rewrite orb_false_r. split_and!; [done| |done]. intros _. by destruct (decide _) as [|[]].
  - cbn [apply_protocol].
    destruct (IH (Z.min cap m) (r || q) (if v3 <=? cap then Z.min cap m else m3)) as (m3' & E & M & O).
    exists m3'. rewrite E. split_and!.
    + cbn [needs_v3 existsb]. by rewrite orb_assoc.
    + intros [H1 H2]%Forall_cons. specialize (M H2). cbn [modern] in H1.
      destruct (Z.leb_spec v3 cap); [|lia]. destruct (decide (Forall _ (_ :: _))) as [D|_]; [by inversion D|].
      rewrite M. destruct (decide _) as [D|]; [|done]. clear -D.
      change (min_cap m (Some (cap, q) :: ps)) with (min_cap (Z.min cap m) ps).
      induction D as [|? ? <- _ IHD]; [done|exact IHD].
    + intros [H1 H2]%Forall_cons. specialize (O H2). cbn [old] in H1.
      destruct (Z.leb_spec v3 cap); [lia|done].
  - destruct (IH m r m3) as (m3' & E & M & O). exists m3'. cbn [apply_protocol]. rewrite E. split_and!; [done| |].
    + intros [_ H]%Forall_cons. rewrite (M H).
      destruct (decide (Forall _ ps)) as [D|D], (decide (Forall _ (_ :: _))) as [D'|D']; try done.
      * by destruct D'; constructor.
      * by inversion D'.
    + intros [_ H]%Forall_cons. auto.
Qed.

Lemma needs_v3_not_none ps : needs_v3 ps = true -> ~ Forall (eq None) ps.
Proof. intros H D. induction D as [|? ? <- _ IH]; [done|auto]. Qed.

Lemma getHighestCommon_core connection hosts ps :
  1 <= connection -> Forall2 (fun h p => host_protocol h = Ok p) hosts ps ->
  exists logs, getHighestCommon connection hosts =
    let '(m, r, m3) := foldl (fun c p => apply_protocol p c) (connection, false, connection) ps in
    Ok (if r && (m <? v3) then m3 else m, logs).
Proof.
  intros Hc H. unfold getHighestCommon.
  destruct (visit_hosts_core (mkCommon connection false connection []) hosts ps Hc H) as (s & E & C).
  rewrite E. cbn [mbind result_bind]. change (core (mkCommon connection false connection [])) with (connection, false, connection) in C.
  rewrite <- C. unfold core. destruct (_ && _) eqn:B; cbn; eauto.
Qed.

Lemma min_cap_app m ps1 ps2 : min_cap m (ps1 ++ ps2) = min_cap (min_cap m ps1) ps2.
Proof. apply foldl_app. Qed.

(** when the versions of the hosts can be read, the protocol version is
    the lowest among the connection's and the highest ones the hosts support,
    if no host needs protocol 3 or all hosts support it; and when the hosts
    that do not support protocol 3 come last they are ignored as soon as
    another host needs it. *)
Theorem getHighestCommon_common connection hosts ps
  (Hc : 1 <= connection) (H : Forall2 (fun h p => host_protocol h = Ok p) hosts ps) :
  (needs_v3 ps = false \/ Forall modern ps ->
   exists logs, getHighestCommon connection hosts = Ok (min_cap connection ps, logs)) /\
  (forall ps1 ps2, ps = ps1 ++ ps2 -> Forall modern ps1 -> Forall old ps2 -> needs_v3 ps1 = true ->
   min_cap connection ps < v3 ->
   exists logs, getHighestCommon connection hosts = Ok (min_cap connection ps1, logs)).
Proof.
  destruct (getHighestCommon_core connection hosts ps Hc H) as [logs E]. split.
  - intros Hm. exists logs. rewrite E.
    destruct (foldl_protocol ps connection false connection) as (m3' & F & M & _). rewrite F. cbn [orb].
    destruct (needs_v3 ps) eqn:N; [|done]. destruct Hm as [|Hm]; [done|].
    rewrite (M Hm). destruct (decide _) as [D|_]; [by apply needs_v3_not_none in D|].
    by destruct (_ && _).
  - intros ps1 ps2 -> Hm Ho Hn Hlt. exists logs. rewrite E, foldl_app.
    destruct (foldl_protocol ps1 connection false connection) as (m3' & F & M & _). rewrite F.
    destruct (foldl_protocol ps2 (min_cap connection ps1) (false || needs_v3 ps1) m3') as (m4' & F' & _ & O).
    rewrite F', (O Ho), Hn, <- min_cap_app. cbn [orb andb].
    destruct (Z.ltb_spec (min_cap connection (ps1 ++ ps2)) v3); [|lia].
    rewrite (M Hm). destruct (decide _) as [D|_]; [by apply needs_v3_not_none in D|done].
Qed.

Lemma getHighestCommon_common_witness :
  exists logs, getHighestCommon 66 [mkHost [] (str "3.11.4"); mkHost [] (str "2.0.17")] = Ok (4, logs).
Proof.
  refine (proj2 (getHighestCommon_common 66 [mkHost [] (str "3.11.4"); mkHost [] (str "2.0.17")]
    [Some (4, true); Some (2, false)] _ _) [Some (4, true)] [Some (2, false)] eq_refl _ _ eq_refl _).
  - lia.
  - repeat constructor.
  - repeat constructor; vm_compute; congruence.
  - repeat constructor; vm_compute; congruence.
  - vm_compute; reflexivity.
Defined.

(** the result depends on the order of the hosts: a host older than 2.1 is
    ignored after a host that needs protocol 3, but not before it, although it
    "will not be considered" according to the documentation. *)
Theorem getHighestCommon_order_dependent :
  let modern_host := mkHost [] (str "3.11.4") in
  let old_host := mkHost [] (str "2.0.17") in
  option_map fst (match getHighestCommon 4 [modern_host; old_host] with Ok r => Some r | Throw _ => None end) = Some 4 /\
  option_map fst (match getHighestCommon 4 [old_host; modern_host] with Ok r => Some r | Throw _ => None end) = Some 2.
Proof. vm_compute. auto. Qed.

(** ** Text *)

Definition stops (p : ascii -> bool) (s : jsstr) : Prop := match s with [] => True | c :: _ => p c = false end.

Lemma span_app p w r : Forall (fun c => p c = true) w -> stops p r -> span p (w ++ r) = (w, r).
Proof.
  intros Hw Hr. induction Hw as [|c w Hc _ IH]; cbn.
  - destruct r as [|c r]; [done|]. cbn in *. by rewrite Hr.
  - by rewrite Hc, IH.
Qed.

Lemma split_on_word c w : Forall (fun d => d <> c) w -> split_on c w = [w].
Proof.
  induction 1 as [|d w Hd _ IH]; [done|]. cbn. destruct (decide _); [done|]. by rewrite IH.
Qed.

Lemma split_on_app c w s : Forall (fun d => d <> c) w -> split_on c (w ++ c :: s) = w :: split_on c s.
Proof.
  induction 1 as [|d w Hd _ IH]; cbn.
  - by destruct (decide _).
  - destruct (decide _); [done|]. by rewrite IH.
Qed.

Lemma split_on_words c w ws :
  Forall (Forall (fun d => d <> c)) (w :: ws) -> split_on c (w ++ concat (map (cons c) ws)) = w :: ws.
Proof.
  revert w. induction ws as [|v ws IH]; intros w [Hw Hws]%Forall_cons; cbn.
  - rewrite app_nil_r. by apply split_on_word.
  - rewrite split_on_app by done. by rewrite IH.
Qed.

Lemma digits_number_text z :
  0 <= z -> exists c w, num_to_string 10 z = c :: w /\ Forall (fun c => is_digit c = true) (c :: w) /\
    digits_number (c :: w) = z.
Proof.
  intros Hz. destruct (num_to_string_digits 10 z ltac:(lia) Hz) as (ds & E & D & V & N).
  destruct ds as [|d ds]; [done|]. exists (digit_char d), (map digit_char ds). split; [done|]. split.
  - change (digit_char d :: map digit_char ds) with (map digit_char (d :: ds)).
    rewrite Forall_map. eapply Forall_impl; [exact D|]. apply digit_char_is_digit.
  - change (digit_char d :: map digit_char ds) with (map digit_char (d :: ds)). unfold digits_number.
    rewrite <- (app_nil_r (map digit_char _)), digit_prefix_digits; [done|lia|done|done].
Qed.

Lemma span_number z r :
  0 <= z -> stops is_digit r ->
  exists g, span is_digit (num_to_string 10 z ++ r) = (g, r) /\ g <> [] /\ digits_number g = z.
Proof.
  intros Hz Hr. destruct (digits_number_text z Hz) as (c & w & -> & D & V).
  exists (c :: w). by rewrite span_app.
Qed.

Lemma match_dot_number z r :
  0 <= z -> stops is_digit r ->
  exists g, match_dot_digits ("."%char :: num_to_string 10 z ++ r) = Some (g, r) /\ digits_number g = z.
Proof.
  intros Hz Hr. destruct (span_number z r Hz Hr) as (g & E & N & V). exists g. cbn. rewrite E.
  by destruct g.
Qed.

Definition dotted (c : ascii) : bool := is_word c || one_of ["."%char] c.
Definition plussed (c : ascii) : bool := is_word c || one_of ["+"%char] c.

(** The words after the first one in a list of pre-releases. *)
Definition next_word (w : jsstr) : Prop :=
  match w with c :: w' => is_word c = true /\ Forall (fun c => dotted c = true) w' | [] => False end.

(** The versions whose text can be read back: the grammar gives the plus sign
    of a build to a single pre-release word. *)
Definition printable (v : VersionNumber) : Prop :=
  0 <= major v /\ 0 <= minor v /\
  (match patch v with Some p => 0 <= p | None => dsePatch v = None end) /\
  (match dsePatch v with Some d => 0 <= d | None => True end) /\
  (match preReleases v with
   | None => True
   | Some [] => False
   | Some (w :: ws) => Forall (fun c => plussed c = true) w /\ Forall next_word ws /\
       (ws = [] -> w <> [] /\ build v = None)
   end) /\
  (match build v with None => True | Some b => b <> [] /\ Forall (fun c => dotted c = true) b end).

Lemma match_more_pre_words ws r fuel :
  Forall next_word ws -> stops (fun c => bool_decide (c = "-"%char) || dotted c) r ->
  (length (concat (map (cons "-"%char) ws) ++ r) <= fuel)%nat ->
  match_more_pre fuel (concat (map (cons "-"%char) ws) ++ r) = (concat (map (cons "-"%char) ws), r).
Proof.
  intros Hws Hr. revert fuel. induction Hws as [|w ws Hw Hws IH]; intros fuel Hf.
  - cbn. destruct fuel; [done|]. destruct r as [|h [|c r]]; [done..|]. cbn in Hr |- *.
    apply orb_false_elim in Hr as [-> _]. done.
  - destruct w as [|c w]; [done|]. destruct Hw as [Hc Hw]. cbn [map concat app] in *.
    destruct fuel; [cbn in Hf; lia|]. cbn [match_more_pre]. rewrite Hc. cbn [bool_decide andb].
    rewrite bool_decide_true by done. cbn [andb]. rewrite <- app_assoc.
    fold dotted. rewrite span_app; [|done|].
    + rewrite IH; [done|]. cbn in Hf. rewrite !length_app in Hf. rewrite length_app. lia.
    + destruct ws; cbn; [|done]. destruct r; [done|]. cbn in Hr |- *. by apply orb_false_elim in Hr as [_ ->].
Qed.

Definition pre_text (pre : option (list jsstr)) : jsstr :=
  match pre with Some ws => concat (map (cons "-"%char) ws) | None => [] end.

Definition build_text (b : option jsstr) : jsstr :=
  match b with Some (c :: b) => "+"%char :: c :: b | _ => [] end.

Lemma match_build_text b :
  match b with None => True | Some b => b <> [] /\ Forall (fun c => dotted c = true) b end ->
  match_build (build_text b) = b.
Proof.
  destruct b as [[|c b]|]; [by intros []| |done]. intros [_ Hb]. cbn [build_text match_build].
  destruct (decide _); [|done]. fold dotted. rewrite <- (app_nil_r (c :: b)), span_app by done.
  by rewrite app_nil_r.
Qed.

Lemma build_stops b : stops (fun c => bool_decide (c = "-"%char) || dotted c) (build_text b).
Proof. by destruct b as [[|c b]|]. Qed.

Lemma match_pre_text v :
  printable v ->
  exists g, match_pre (pre_text (preReleases v) ++ build_text (build v)) = (g, build_text (build v)) /\
    match g with Some (c :: w) => Some (split_on "-"%char (c :: w)) | _ => None end = preReleases v.
Proof.
  intros (_ & _ & _ & _ & Hp & Hb). destruct (preReleases v) as [[|w ws]|]; [done| |].
  - destruct Hp as (Hw & Hws & Hone). cbn [pre_text map concat app match_pre]. cbn [one_of existsb].
    rewrite bool_decide_true by done. cbn [orb]. rewrite <- app_assoc. fold plussed.
    rewrite span_app; [|done|].
    + rewrite match_more_pre_words; [|done|apply build_stops|lia].
      exists (Some (w ++ concat (map (cons "-"%char) ws))). split; [done|].
      assert (Hs : split_on "-"%char (w ++ concat (map (cons "-"%char) ws)) = w :: ws).
      { apply split_on_words. rewrite Forall_cons. split.
        - eapply Forall_impl; [exact Hw|]. by intros c Hc ->.
        - eapply Forall_impl; [exact Hws|]. intros [|c u]; [done|]. intros [Hc Hu]. constructor; [by intros ->|].
          eapply Forall_impl; [exact Hu|]. by intros d Hd ->. }
      destruct w as [|c w].
      * destruct ws as [|u ws]; [by destruct (Hone eq_refl)|]. cbn [map concat app] in *. by rewrite Hs.
      * cbn [app] in *. by rewrite Hs.
    + destruct ws as [|u ws]; cbn; [|done]. destruct (Hone eq_refl) as [_ ->]. done.
  - exists None. split; [|done]. destruct (build v) as [[|c b]|]; done.
Qed.

Lemma dse_stops v : stops is_digit (opt_text "."%char (dsePatch v) ++ pre_text (preReleases v) ++ build_text (build v)).
Proof.
  destruct (dsePatch v); [done|]. destruct (preReleases v) as [[|w ws]|]; cbn; [|done|];
    by destruct (build v) as [[|c b]|].
Qed.

Lemma pre_stops v c : c <> "-"%char -> c <> "+"%char ->
  match pre_text (preReleases v) ++ build_text (build v) with [] => True | d :: _ => d <> c end.
Proof.
  intros H1 H2. destruct (preReleases v) as [[|w ws]|]; cbn; [|congruence|];
    destruct (build v) as [[|d b]|]; cbn; done || congruence.
Qed.

Lemma match_version_text v : printable v -> match_version (VersionNumber_toString v) = Some v.
Proof.
  intros Hv. pose proof (match_pre_text v Hv) as (g & Eg & Pg).
  pose proof (dse_stops v) as Sd. pose proof (pre_stops v "."%char ltac:(done) ltac:(done)) as Sp.
  destruct Hv as (H1 & H2 & H3 & H4 & _ & Hb).
  pose proof (match_build_text (build v) Hb) as Eb.
  assert (Sp' : stops is_digit (pre_text (preReleases v) ++ build_text (build v))).
  { destruct (preReleases v) as [[|w ws]|]; cbn; [|done|]; by destruct (build v) as [[|c b]|]. }
  change (VersionNumber_toString v) with
    (num_to_string 10 (major v) ++ "."%char :: num_to_string 10 (minor v) ++
     opt_text "."%char (patch v) ++ opt_text "."%char (dsePatch v) ++
     pre_text (preReleases v) ++ build_text (build v)).
  remember (pre_text (preReleases v) ++ build_text (build v)) as T eqn:ET. clear ET.
  unfold match_version.
  destruct (span_number (major v) ("."%char :: num_to_string 10 (minor v) ++
     opt_text "."%char (patch v) ++ opt_text "."%char (dsePatch v) ++ T) H1 eq_refl) as (g1 & -> & N1 & V1).
  destruct g1 as [|c1 g1]; [done|].
  assert (S3 : stops is_digit (opt_text "."%char (patch v) ++ opt_text "."%char (dsePatch v) ++ T))
    by (destruct (patch v); [done|exact Sd]).
  destruct (match_dot_number (minor v) _ H2 S3) as (g2 & -> & V2).
  destruct v as [ma mi pa ds pr bu]. cbn [major minor patch dsePatch preReleases build] in *.
  destruct pa as [pa|].
  - cbn [opt_text app]. destruct (match_dot_number pa _ H3 Sd) as (g3 & -> & V3).
    destruct ds as [d|]; cbn [opt_text app].
    + destruct (decide _) as [_|]; [|done].
      destruct (span_number d T H4 Sp') as (g4 & -> & N4 & V4). destruct g4 as [|c4 g4]; [done|].
      rewrite Eg. cbn [fmap option_fmap option_map]. rewrite Eb, Pg, V1, V2, V3, V4. done.
    + assert (E : (match T with
            | c :: r' => if decide (c = "."%char) then
                           match span is_digit r' with ([], r) => (None, r) | (g, r) => (Some g, r) end
                         else (None, T)
            | [] => (None, []) end) = (@None jsstr, T)).
      { destruct T as [|c T]; [done|]. by destruct (decide _). }
      rewrite E, Eg. cbn [fmap option_fmap option_map]. rewrite Eb, Pg, V1, V2, V3. done.
  - subst ds. cbn [opt_text app].
    assert (E0 : match_dot_digits T = None) by (destruct T as [|c T]; [done|]; cbn; by destruct (decide _)).
    rewrite E0.
    assert (E : (match T with
            | c :: r' => if decide (c = "."%char) then
                           match span is_digit r' with ([], r) => (None, r) | (g, r) => (Some g, r) end
                         else (None, T)
            | [] => (None, []) end) = (@None jsstr, T)).
    { destruct T as [|c T]; [done|]. by destruct (decide _). }
    rewrite E, Eg. cbn [fmap option_fmap option_map]. rewrite Eb, Pg, V1, V2. done.
Qed.

(** the text of a version is read back as the same version: up to six
    parts, any number of pre-release words and a build (a single pre-release
    word excludes a build, since the pattern takes a plus sign after it as part
    of the word). *)
Theorem VersionNumber_text_roundtrip v (Hv : printable v) :
  VersionNumber_parse (VersionNumber_toString v) = Ok (Some v).
Proof.
  pose proof (match_version_text v Hv) as E. unfold VersionNumber_parse.
  destruct (VersionNumber_toString v) as [|c s] eqn:T; [done|]. cbn [search_version]. by rewrite E.
Qed.

Lemma VersionNumber_text_roundtrip_witness :
  let v := mkVersion 4 8 (Some 0) (Some 12) (Some [str "beta2"; str "SNAPSHOT.1"]) (Some (str "build7")) in
  VersionNumber_toString v = str "4.8.0.12-beta2-SNAPSHOT.1+build7" /\
  VersionNumber_parse (VersionNumber_toString v) = Ok (Some v).
Proof.
  split; [reflexivity|]. apply VersionNumber_text_roundtrip.
  repeat split; try (vm_compute; congruence); repeat constructor.
Defined.
