(* ===== verification/Frames.v ===== *)
(** The rest of [lib/types/index.js] that computes: the frame header, Long as
    bytes and the timestamps of [generateTimestamp]. *)
From S2P Require Import Prelude.
From S2P Require Import JsNum.
From S2P Require Import Buffer.
From S2P Require Import LongLib.
From S2P Require Import Version.

(** ** [FrameHeader] *)

Record FrameHeader := mkFrameHeader { fh_version : Z; fh_flags : Z; fh_streamId : Z; fh_opcode : Z; fh_bodyLength : Z }.

Definition FrameHeader_size (version : Z) : nat := if uses2BytesStreamIds version then 9 else 8.

(** [buffer[0] & 0x7f]; undefined is 0. *)
Definition FrameHeader_getProtocolVersion (buffer : list Z) : Z := js_and (default 0 (buffer !! 0%nat)) 127.

Definition FrameHeader_fromBuffer (buf : list Z) (offset : nat) : result FrameHeader :=
  let version := js_and (default 0 (buf !! offset)) 127 in
  flags ← readUInt 1 buf (offset + 1);
  let width := if negb (uses2BytesStreamIds version) then 1%nat else 2%nat in
  streamId ← readInt width buf (offset + 2);
  opcode ← readUInt 1 buf (offset + 2 + width);
  bodyLength ← readUInt 4 buf (offset + 3 + width);
  Ok (mkFrameHeader version flags streamId opcode bodyLength).

Definition FrameHeader_toBuffer (h : FrameHeader) : result (list Z) :=
  version ← writeUInt 1 (fh_version h);
  flags ← writeUInt 1 (fh_flags h);
  streamId ← writeInt (if negb (uses2BytesStreamIds (fh_version h)) then 1 else 2) (fh_streamId h);
  opcode ← writeUInt 1 (fh_opcode h);
  bodyLength ← writeUInt 4 (fh_bodyLength h);
  Ok (version ++ flags ++ streamId ++ opcode ++ bodyLength).

(** ** Long and timestamps *)

Section timestamps.
Context `{LongLib}.

(** [Long.fromBuffer]; the bits of the words are read as they are. *)
Definition Long_fromBuffer (value : list Z) : result Long :=
  low ← readInt 4 value 4; high ← readInt 4 value 0; Ok (Long_fromBits low high false).

(** [generateTimestamp(date, microseconds)] with [_timestampTicks]: the milliseconds
    of the date, and the microseconds when they are a number. *)
Definition generateTimestamp (ticks date : Z) (microseconds : option Z) : Long * Z :=
  let '(longMicro, ticks) :=
    match microseconds with
    | Some us => if (0 <=? us) && (us <? 1000) then (Some us, ticks) else (None, ticks)
    | None => (None, ticks)
    end in
  let '(longMicro, ticks) :=
    match longMicro with
    | Some us => (Long_fromInt us, ticks)
    | None => let ticks := if 999 <? ticks then 0 else ticks in (Long_fromInt ticks, ticks + 1)
    end in
  (Long_add (Long_mul (Long_fromNumber date) (Long_fromInt 1000)) longMicro, ticks).

(** The timestamps of dates without microseconds. *)
Fixpoint ticked_timestamps (ticks : Z) (dates : list Z) : list Long :=
  match dates with [] => [] | date :: dates' => let '(t, ticks) := generateTimestamp ticks date None in t :: ticked_timestamps ticks dates' end.
End timestamps.

(** ** Theorems *)

(** A read of a part of a buffer behind what was written before. *)
Lemma read_part n v bytes pre post off : writeUInt n v = Ok bytes -> off = length pre -> readUInt n (pre ++ bytes ++ post) off = Ok v.
Proof. intros Hw ->. by apply readUInt_writeUInt. Qed.

Lemma read_signed_part n v bytes pre post off : (0 < n)%nat -> writeInt n v = Ok bytes -> off = length pre -> readInt n (pre ++ bytes ++ post) off = Ok v.
Proof. intros Hn Hw ->. by apply readInt_writeInt. Qed.

(** A header that [toBuffer] writes has the size of its version and is read
    back by [fromBuffer] wherever it is in a buffer, as long as its version has
    seven bits; exactly the values that do not fit their fields are refused. *)
Theorem FrameHeader_roundtrip (h : FrameHeader) :
  0 <= fh_version h < 128 ->
  let fits := (0 <=? fh_flags h) && (fh_flags h <? 256) && (0 <=? fh_opcode h) && (fh_opcode h <? 256) &&
              (0 <=? fh_bodyLength h) && (fh_bodyLength h <? 2 ^ 32) &&
              (if uses2BytesStreamIds (fh_version h) then (- 2 ^ 15 <=? fh_streamId h) && (fh_streamId h <? 2 ^ 15)
               else (- 2 ^ 7 <=? fh_streamId h) && (fh_streamId h <? 2 ^ 7)) in
  if fits then exists bytes, FrameHeader_toBuffer h = Ok bytes /\ length bytes = FrameHeader_size (fh_version h) /\
    (forall pre post, FrameHeader_fromBuffer (pre ++ bytes ++ post) (length pre) = Ok h) /\
    forall post, FrameHeader_getProtocolVersion (bytes ++ post) = fh_version h
  else FrameHeader_toBuffer h = Throw RangeError.
Proof.
  intros Hv fits. destruct h as [version flags streamId opcode bodyLength]. cbn [fh_version fh_flags fh_streamId fh_opcode fh_bodyLength] in *.
  set (width := if negb (uses2BytesStreamIds version) then 1%nat else 2%nat).
  assert (Hfits : fits = is_ok (writeUInt 1 flags) && is_ok (writeUInt 1 opcode) && is_ok (writeUInt 4 bodyLength) && is_ok (writeInt width streamId)).
  { unfold fits, width, writeUInt, writeInt. change (8 * Z.of_nat 1) with 8. change (8 * Z.of_nat 4) with 32. change (2 ^ 8) with 256.
    destruct (uses2BytesStreamIds version); cbn [negb]; [change (8 * Z.of_nat 2 - 1) with 15|change (8 * Z.of_nat 1 - 1) with 7];
      repeat (case_match; cbn [is_ok andb]; rewrite ?andb_false_r); rewrite ?andb_true_r; subst; repeat match goal with H : _ && _ = _ |- _ => rewrite ?H end; try done; lia. }
  unfold FrameHeader_toBuffer. cbn [fh_version fh_flags fh_streamId fh_opcode fh_bodyLength]. fold width. rewrite (writeUInt_small 1 version) by (cbn; lia). rewrite bind_ok_l.
  rewrite Hfits. clear fits Hfits.
  assert (Hthrow : forall n v e, writeUInt n v = Throw e -> e = RangeError) by (intros n v e; unfold writeUInt; case_match; congruence).
  assert (Hthrow' : forall n v e, writeInt n v = Throw e -> e = RangeError) by (intros n v e; unfold writeInt; case_match; congruence).
  destruct (writeUInt 1 flags) as [bf|e] eqn:Ef; [|by rewrite (Hthrow _ _ _ Ef)]. destruct (writeInt width streamId) as [bs|e] eqn:Es; [|rewrite andb_false_r; by rewrite (Hthrow' _ _ _ Es)].
  destruct (writeUInt 1 opcode) as [bo|e] eqn:Eo; [|by rewrite (Hthrow _ _ _ Eo)]. destruct (writeUInt 4 bodyLength) as [bb|e] eqn:Eb; [|by rewrite (Hthrow _ _ _ Eb)].
  cbn [is_ok andb]. rewrite !bind_ok_l. eexists. split; [reflexivity|].
  destruct (writeUInt_ok _ _ _ Ef) as (_ & Lf & _), (writeInt_ok _ _ _ Es) as (_ & Ls & _), (writeUInt_ok _ _ _ Eo) as (_ & Lo & _), (writeUInt_ok _ _ _ Eb) as (_ & Lb & _).
  assert (Hver : be_bytes 1 version = [version]) by (cbn; rewrite Z.mod_small by lia; done). rewrite Hver.
  assert (Hand : js_and version 127 = version).
  { unfold js_and. rewrite (to_int32_id version), (to_int32_id 127) by (unfold is_int32; lia). change 127 with (Z.ones 7). rewrite Z.land_ones by lia. apply Z.mod_small. lia. }
  split_and!.
  - rewrite !length_app, Lf, Ls, Lo, Lb. unfold width, FrameHeader_size. cbn. by destruct (uses2BytesStreamIds version).
  - intros pre post. unfold FrameHeader_fromBuffer. 
    assert (Hat : (pre ++ ([version] ++ bf ++ bs ++ bo ++ bb) ++ post) !! length pre = Some version) by (rewrite lookup_app_r, Nat.sub_diag by lia; reflexivity).
    rewrite Hat. change (default 0 (Some version)) with version. rewrite Hand. fold width. cbn [app].
    replace (pre ++ version :: (bf ++ bs ++ bo ++ bb) ++ post) with ((pre ++ [version]) ++ bf ++ (bs ++ bo ++ bb ++ post)) at 1 by (rewrite <- !app_assoc; reflexivity).
    rewrite (read_part 1 flags) by (done || (rewrite length_app; cbn; lia)). rewrite bind_ok_l.
    replace (pre ++ version :: (bf ++ bs ++ bo ++ bb) ++ post) with ((pre ++ [version] ++ bf) ++ bs ++ (bo ++ bb ++ post)) at 1 by (rewrite <- !app_assoc; reflexivity).
    rewrite (read_signed_part width streamId) by (done || (unfold width; destruct (uses2BytesStreamIds version); cbn; lia) || (rewrite !length_app, Lf; cbn; lia)). rewrite bind_ok_l.
    replace (pre ++ version :: (bf ++ bs ++ bo ++ bb) ++ post) with ((pre ++ [version] ++ bf ++ bs) ++ bo ++ (bb ++ post)) at 1 by (rewrite <- !app_assoc; reflexivity).
    rewrite (read_part 1 opcode) by (done || (rewrite !length_app, Lf, Ls; cbn; lia)). rewrite bind_ok_l.
    replace (pre ++ version :: (bf ++ bs ++ bo ++ bb) ++ post) with ((pre ++ [version] ++ bf ++ bs ++ bo) ++ bb ++ post) by (rewrite <- !app_assoc; reflexivity).
    rewrite (read_part 4 bodyLength) by (done || (rewrite !length_app, Lf, Ls, Lo; cbn; lia)). reflexivity.
  - intros post. unfold FrameHeader_getProtocolVersion. exact Hand.
Qed.

Lemma FrameHeader_roundtrip_witness :
  0 <= 4 < 128 /\ exists bytes, FrameHeader_toBuffer (mkFrameHeader 4 1 (-2) 7 300) = Ok bytes /\ length bytes = 9%nat /\
    FrameHeader_fromBuffer (0 :: bytes) 1 = Ok (mkFrameHeader 4 1 (-2) 7 300).
Proof.
  split; [lia|]. destruct (FrameHeader_roundtrip (mkFrameHeader 4 1 (-2) 7 300) ltac:(cbn; lia)) as (bytes & H1 & H2 & H3 & _).
  exists bytes. split_and!; [exact H1|exact H2|]. specialize (H3 [0] []). by rewrite app_nil_r in H3.
Defined.

Section timestamp_theorems.
Context `{LongLib} `{!LongLaws}.

(** The timestamp is the microseconds of the date, with the given microseconds or
    the counter. *)
Lemma generateTimestamp_value ticks date microseconds :
  0 <= ticks <= 1000 -> Z.abs date <= 8640000000000000 ->
  let '(t, ticks') := generateTimestamp ticks date microseconds in
  0 <= ticks' <= 1000 /\ long_val t = date * 1000 +
    match microseconds with
    | Some us => if (0 <=? us) && (us <? 1000) then us else if 999 <? ticks then 0 else ticks
    | None => if 999 <? ticks then 0 else ticks
    end.
Proof.
  intros Ht Hd. unfold generateTimestamp.
  assert (Hval : forall us, 0 <= us < 1000 -> long_val (Long_add (Long_mul (Long_fromNumber date) (Long_fromInt 1000)) (Long_fromInt us)) = date * 1000 + us).
  { intros us Hu. destruct (long_fromNumber_val date ltac:(lia)) as [V1 U1]. destruct (long_fromInt_val 1000 ltac:(unfold is_int32; lia)) as [V2 U2].
    destruct (long_fromInt_val us ltac:(unfold is_int32; lia)) as [V3 U3].
    destruct (long_mul_val (Long_fromNumber date) (Long_fromInt 1000) (date * 1000)) as [V4 U4]; [done|by rewrite V1, V2|unfold is_int64; lia|].
    apply (long_add_val _ _ (date * 1000 + us)); [done|by rewrite V4, V3|unfold is_int64; lia]. }
  set (cond := match microseconds with Some us => _ | None => _ end).
  assert (Hcond : match microseconds with Some us => (0 <=? us) && (us <? 1000) = true /\ cond = (Some us, ticks) \/ (0 <=? us) && (us <? 1000) = false /\ cond = (None, ticks) | None => cond = (None, ticks) end).
  { unfold cond. destruct microseconds as [us|]; [|done]. destruct (_ && _); auto. }
  assert (Hnone : let '(t, ticks') := (Long_add (Long_mul (Long_fromNumber date) (Long_fromInt 1000)) (Long_fromInt (if 999 <? ticks then 0 else ticks)), (if 999 <? ticks then 0 else ticks) + 1) in
    0 <= ticks' <= 1000 /\ long_val t = date * 1000 + (if 999 <? ticks then 0 else ticks)).
  { destruct (Z.ltb_spec 999 ticks); split; try lia; apply Hval; lia. }
  destruct microseconds as [us|]; [destruct Hcond as [[Hc ->]|[Hc ->]]; rewrite Hc|rewrite Hcond]; [|exact Hnone|exact Hnone].
  split; [lia|]. apply Hval. lia.
Qed.
End timestamp_theorems.

(** The counter starts again in the same millisecond: a later timestamp can be
    smaller. *)
Example timestamps_go_back :
  map long_val (ticked_timestamps (H := LongModel) 999 [5; 5]) = [5999; 5000].
Proof. vm_compute. reflexivity. Qed.
