(* ===== verification/LocalDate.v ===== *)
(** [lib/types/local-date.js] with the native part it wraps,
    [src/types/local_date.rs].

    An [i32] is a [Z]: [to_days] wraps around at 32 bits, as the release build
    does; the arguments of the constructor are within [i8] and [i32]. *)
From S2P Require Import Prelude.
From S2P Require Import JsNum.
From S2P Require Import JsStr.
From S2P Require Import Buffer.
From S2P Require Import Version.

(** ** Calendar *)

Definition MAX_JS_DATE : Z := 100000000.
Definition MIN_JS_DATE : Z := - MAX_JS_DATE.
Definition LEAP_YEAR_1970 : Z := 477.
Definition DAY_IN_MONTH : list Z := [0; 31; 59; 90; 120; 151; 181; 212; 243; 273; 304; 334].

Record Ymd := mkYmd { ymd_year : Z; ymd_month : Z; ymd_day : Z }.

#[export] Instance Ymd_eq_dec : EqDecision Ymd.
Proof. solve_decision. Defined.

(** Division and remainder of Rust truncate. *)
Definition is_leap_year (year : Z) : bool :=
  ((Z.rem year 4 =? 0) && negb (Z.rem year 100 =? 0)) || (Z.rem year 400 =? 0).

Definition number_leap_years (n : Z) : Z := Z.quot n 4 - Z.quot n 100 + Z.quot n 400.

Definition days_in_month (month year : Z) : Z :=
  if bool_decide (month ∈ [1; 3; 5; 7; 8; 10; 12]) then 31
  else if bool_decide (month ∈ [4; 6; 9; 11]) then 30
  else if month =? 2 then (if is_leap_year year then 29 else 28)
  else 0.

Definition Ymd_new (year month day : Z) : result Ymd :=
  if negb ((1 <=? month) && (month <=? 12)) then Throw PlainError
  else if negb ((1 <=? day) && (day <=? days_in_month month year)) then Throw PlainError
  else Ok (mkYmd year month day).

Definition days_to_month (month : Z) : Z := default 0 (DAY_IN_MONTH !! Z.to_nat (month - 1)).

Definition Ymd_to_days (d : Ymd) : Z :=
  let year := ymd_year d in
  let number_day :=
    days_to_month (ymd_month d) + (if is_leap_year year && (2 <? ymd_month d) then 1 else 0)
    + ymd_day d - 1 in
  let total_days :=
    if 1970 <=? year
    then (year - 1970) * 365 + number_leap_years (year - 1) - LEAP_YEAR_1970 + number_day
    else
      let total_days := 0 - ((if is_leap_year year then 366 else 365) - number_day) in
      if year <? 0
      then total_days - ((1970 - year - 1) * 365 + number_leap_years (Z.abs (year + 1)) + LEAP_YEAR_1970 + 1)
      else total_days - ((1970 - year - 1) * 365 + LEAP_YEAR_1970 - number_leap_years (year + 1)) in
  to_int32 total_days.

(** The loop of [from_days] on [n] and [year]. *)
Definition from_days_step (s : Z * Z) : (Z * Z) + (Z * Z) :=
  let '(n, year) := s in
  if 365 <=? Z.abs n then
    let k := Z.quot n 365 in
    let n :=
      if (0 <? year) && (year + k <? 0) then n + 1
      else if (year <? 0) && (0 <? year + k) then n - 1
      else n in
    let year := year + k in
    inl (n - (k * 365 - number_leap_years (year - k - 1) + number_leap_years (year - 1)), year)
  else inr (n, year).

(** [DAY_IN_MONTH] is increasing: the last month that starts at [n] or before. *)
Definition find_month (n : Z) : Z := Z.of_nat (length (List.filter (fun x => x <=? n) DAY_IN_MONTH)).

(** After the loop: [n] is within a year before or after the start of [year]. *)
Definition from_days_finish (n year : Z) : Ymd :=
  let '(n, year) :=
    if n <? 0 then
      let year := year - 1 in (n + (if is_leap_year year then 366 else 365), year)
    else (n, year) in
  if is_leap_year year && (n <? 60) && (31 <? n) then mkYmd year 2 (n - 30)
  else
    let n := if is_leap_year year && (60 <=? n) then n - 1 else n in
    let q := find_month n in
    mkYmd year q (n - days_to_month q + 1).

Definition Ymd_from_days (n : Z) : result (option Ymd) :=
  if negb ((MIN_JS_DATE <=? n) && (n <=? MAX_JS_DATE)) then Ok None
  else
    match js_while 1000000000 from_days_step (n, 1970) with
    | inl _ => Throw OutOfFuel
    | inr (n, year) => Ok (Some (from_days_finish n year))
    end.

(** ** LocalDate *)

(** The fields of [LocalDateWrapper]. *)
Record LocalDate := mkLocalDate { ld_value : Z; ld_date : option Ymd; inDate : bool }.

#[export] Instance LocalDate_eq_dec : EqDecision LocalDate.
Proof. solve_decision. Defined.

Definition in_js_range (value : Z) : bool := (MIN_JS_DATE <=? value) && (value <=? MAX_JS_DATE).

Definition LocalDateWrapper_new (day month year : Z) : result LocalDate :=
  date ← Ymd_new year month day;
  let value := Ymd_to_days date in
  Ok (mkLocalDate value (Some date) (in_js_range value)).

Definition LocalDateWrapper_newDay (value : Z) : result LocalDate :=
  date ← Ymd_from_days value;
  Ok (mkLocalDate value date (in_js_range value)).

Definition dateCenter : Z := 2 ^ 31.
Definition maxDay : Z := 2147483647.
Definition minDay : Z := -2147483648.

(** The constructor with three arguments and with one. *)
Definition LocalDate_new (year month day : Z) : result LocalDate :=
  inner ← LocalDateWrapper_new day month year;
  if negb (inDate inner) then Throw PlainError else Ok inner.

Definition LocalDate_newDays (days : Z) : result LocalDate :=
  if (days <? minDay) || (maxDay <? days) then Throw PlainError
  else LocalDateWrapper_newDay days.

(** The getters; [None] is [NaN]. *)
Definition LocalDate_year (x : LocalDate) : option Z := if inDate x then ymd_year <$> ld_date x else None.
Definition LocalDate_month (x : LocalDate) : option Z := if inDate x then ymd_month <$> ld_date x else None.
Definition LocalDate_day (x : LocalDate) : option Z := if inDate x then ymd_day <$> ld_date x else None.

(** The argument of [fromDate]: a Date (its local year, month index and day;
    [None] when invalid) or a Number, which has no method [getTime]. *)
Inductive date_arg := ArgDate (fields : option (Z * Z * Z)) | ArgNumber (n : Z).

Definition LocalDate_fromDate (date : date_arg) : result LocalDate :=
  match date with
  | ArgNumber _ => Throw TypeError
  | ArgDate None => Throw TypeError
  | ArgDate (Some (fullYear, month, day)) => LocalDate_new fullYear (month + 1) day
  end.

Definition LocalDate_now (clock : Z * Z * Z) : result LocalDate := LocalDate_fromDate (ArgDate (Some clock)).
Definition LocalDate_utcNow (millis : Z) : result LocalDate := LocalDate_fromDate (ArgNumber millis).

(** *** Text *)

(** [str.parse()] to a signed integer of [bits + 1] bits: an optional sign
    and digits. *)
Definition parse_int (bits : Z) (s : jsstr) : option Z :=
  let '(neg, ds) :=
    match s with
    | c :: s' => if decide (c = "-"%char) then (true, s') else if decide (c = "+"%char) then (false, s') else (false, s)
    | [] => (false, [])
    end in
  match ds with
  | [] => None
  | _ =>
      if forallb is_digit ds then
        let v := if neg : bool then - digits_number ds else digits_number ds in
        if (- 2 ^ bits <=? v) && (v <? 2 ^ bits) then Some v else None
      else None
  end.

Definition parse_i32 : jsstr -> option Z := parse_int 31.

Definition digit_between (lo hi : Z) (c : ascii) : bool := (48 + lo <=? code c) && (code c <=? 48 + hi).

(** [0?[1-9]|1[012]] and [0?[1-9]|[12][0-9]|3[01]]. *)
Definition month_text (w : jsstr) : bool :=
  match w with
  | [c] => digit_between 1 9 c
  | [a; b] => (digit_between 0 0 a && digit_between 1 9 b) || (digit_between 1 1 a && digit_between 0 2 b)
  | _ => false
  end.

Definition day_text (w : jsstr) : bool :=
  match w with
  | [c] => digit_between 1 9 c
  | [a; b] => (digit_between 0 0 a && digit_between 1 9 b) || (digit_between 1 2 a && digit_between 0 9 b) ||
              (digit_between 3 3 a && digit_between 0 1 b)
  | _ => false
  end.

(** [DATE_REGEX] and the parts of the text. *)
Definition match_date (s : jsstr) : option (jsstr * jsstr * jsstr) :=
  let s := match s with c :: s' => if decide (c = "-"%char) then s' else s | [] => [] end in
  match span is_digit s with
  | ([], _) => None
  | (y, c :: r) =>
      if decide (c = "-"%char) then
        match span is_digit r with
        | (m, c :: d) => if bool_decide (c = "-"%char) && month_text m && day_text d then Some (y, m, d) else None
        | _ => None
        end
      else None
  | _ => None
  end.

(** The days since the epoch; a year that does not fit is a format error. *)
Definition LocalDateWrapper_fromString (value : jsstr) : result Z :=
  let dashes := length (List.filter (fun c => bool_decide (c = "-"%char)) value) in
  if (dashes <? 2)%nat then
    match parse_i32 value with Some v => Ok v | None => Throw PlainError end
  else if (dashes <=? 3)%nat then
    match match_date value with
    | None => Throw PlainError
    | Some (y, m, d) =>
        match parse_i32 y with
        | None => Throw PlainError
        | Some y =>
            let neg := char_is value 0 "-"%char in
            Ok (Ymd_to_days (mkYmd (if neg then - y else y) (digits_number m) (digits_number d)))
        end
    end
  else Throw PlainError.

Definition LocalDate_fromString (value : jsstr) : result LocalDate :=
  days ← LocalDateWrapper_fromString value; LocalDate_newDays days.

Definition two_digits (z : Z) : jsstr :=
  if z <? 10 then "-"%char :: "0"%char :: num_to_string 10 z else "-"%char :: num_to_string 10 z.

Definition LocalDate_toString (x : LocalDate) : jsstr :=
  match ld_date x with
  | Some date =>
      let y := num_to_string 10 (Z.abs (ymd_year date)) in
      (if ymd_year date <? 0 then ["-"%char] else []) ++ replicate (4 - length y) "0"%char ++ y ++
      two_digits (ymd_month date) ++ two_digits (ymd_day date)
  | None => num_to_string 10 (ld_value x)
  end.

(** *** Bytes and comparison *)

Definition LocalDate_fromBuffer (buffer : list Z) : result LocalDate :=
  v ← readUInt 4 buffer 0; LocalDate_newDays (v - dateCenter).

Definition LocalDate_toBuffer (x : LocalDate) : result (list Z) := writeUInt 4 (ld_value x + dateCenter).

Definition LocalDate_compare (x other : LocalDate) : Z :=
  if ld_value x =? ld_value other then 0 else if ld_value other <? ld_value x then 1 else -1.

Definition LocalDate_equals (x other : LocalDate) : bool := LocalDate_compare x other =? 0.

Example fromString_ex :
  LocalDate_toString <$> LocalDate_fromString (str "2024-02-29") = Ok (str "2024-02-29") /\
  ld_value <$> LocalDate_fromString (str "2025-3-1") = Ok 20148.
Proof. vm_compute. auto. Qed.
