(* ===== verification/LocalDateTheorems.v ===== *)
(** The calendar of LocalDate.v against the proleptic Gregorian calendar. *)
From S2P Require Import Prelude.
From S2P Require Import JsNum.
From S2P Require Import JsStr.
From S2P Require Import Buffer.
From S2P Require Import Version.
From S2P Require Import LocalDate.

(** ** Reference calendar *)

(** Days from the epoch to the first of January. *)
Definition civil_year (y : Z) : Z :=
  365 * (y - 1970) + ((y - 1) / 4 - (y - 1) / 100 + (y - 1) / 400) - 477.

Definition leap_day (y m : Z) : Z := if is_leap_year y && (2 <? m) then 1 else 0.

(** The day number of a date. *)
Definition civil_day (d : Ymd) : Z :=
  civil_year (ymd_year d) + days_to_month (ymd_month d) + leap_day (ymd_year d) (ymd_month d) + ymd_day d - 1.

Definition valid_date (d : Ymd) : Prop :=
  1 <= ymd_month d <= 12 /\ 1 <= ymd_day d <= days_in_month (ymd_month d) (ymd_year d).

Definition next_date (d : Ymd) : Ymd :=
  if ymd_day d <? days_in_month (ymd_month d) (ymd_year d) then mkYmd (ymd_year d) (ymd_month d) (ymd_day d + 1)
  else if ymd_month d <? 12 then mkYmd (ymd_year d) (ymd_month d + 1) 1
  else mkYmd (ymd_year d + 1) 1 1.

Definition year_length (y : Z) : Z := if is_leap_year y then 366 else 365.

Lemma is_leap_year_mod y :
  is_leap_year y = ((y mod 4 =? 0) && negb (y mod 100 =? 0)) || (y mod 400 =? 0).
Proof.
  unfold is_leap_year.
  assert (A : forall a, 0 < a -> (Z.rem y a =? 0) = (y mod a =? 0)).
  { intros a Ha. destruct (Z.eqb_spec (Z.rem y a) 0) as [E|E], (Z.eqb_spec (y mod a) 0) as [F|F]; try done.
    - destruct F. apply Z.mod_divide; [lia|]. apply Z.rem_divide; lia.
    - destruct E. apply Z.rem_divide; [lia|]. apply Z.mod_divide; lia. }
  by rewrite !A.
Qed.

(** A year divisible by 400 is divisible by 100 and 4. *)
Lemma leap_arith y :
  (if is_leap_year y then 1 else 0) =
  (y / 4 - (y - 1) / 4) - (y / 100 - (y - 1) / 100) + (y / 400 - (y - 1) / 400).
Proof.
  rewrite is_leap_year_mod.
  assert (A : forall a, 1 < a -> y / a - (y - 1) / a = if y mod a =? 0 then 1 else 0).
  { intros a Ha. destruct (Z.eqb_spec (y mod a) 0) as [E|E].
    - pose proof (Z.div_mod y a ltac:(lia)). assert ((y - 1) / a = y / a - 1); [|lia].
      symmetry. apply (Z.div_unique _ _ _ (a - 1)); lia.
    - assert ((y - 1) / a = y / a); [|lia]. pose proof (Z.div_mod y a ltac:(lia)).
      pose proof (Z.mod_pos_bound y a ltac:(lia)). symmetry. apply (Z.div_unique _ _ _ (y mod a - 1)); lia. }
  rewrite !A by lia.
  destruct (Z.eqb_spec (y mod 4) 0), (Z.eqb_spec (y mod 100) 0), (Z.eqb_spec (y mod 400) 0);
    cbn [negb andb orb]; div_lia.
Qed.

Lemma civil_year_succ y : civil_year (y + 1) = civil_year y + year_length y.
Proof.
  unfold civil_year, year_length. pose proof (leap_arith y). replace (y + 1 - 1) with y by lia.
  destruct (is_leap_year y); lia.
Qed.

(** A bounded month is one of twelve. *)
Lemma month_cases (P : Z -> Prop) :
  P 1 -> P 2 -> P 3 -> P 4 -> P 5 -> P 6 -> P 7 -> P 8 -> P 9 -> P 10 -> P 11 -> P 12 ->
  forall m, 1 <= m <= 12 -> P m.
Proof.
  intros. assert (A : m ∈ seqZ 1 12) by (apply elem_of_seqZ; lia).
  change (seqZ 1 12) with [1; 2; 3; 4; 5; 6; 7; 8; 9; 10; 11; 12] in A. rewrite !elem_of_cons, elem_of_nil in A.
  by repeat (destruct A as [->|A]; [assumption|]).
Qed.

(** The lengths of the months as a table. *)
Definition month_lengths (leap : bool) : list Z :=
  [31; if leap then 29 else 28; 31; 30; 31; 30; 31; 31; 30; 31; 30; 31].

Lemma days_in_month_table y m :
  1 <= m <= 12 -> days_in_month m y = default 0 (month_lengths (is_leap_year y) !! Z.to_nat (m - 1)).
Proof.
  destruct (is_leap_year y) eqn:E; revert m; apply month_cases; unfold days_in_month; rewrite E; vm_compute; reflexivity.
Qed.

Lemma days_in_month_lower m y : 1 <= m <= 12 -> 28 <= days_in_month m y.
Proof.
  intros Hm. rewrite days_in_month_table by done. destruct (is_leap_year y); revert m Hm;
    apply month_cases; vm_compute; congruence.
Qed.

Lemma next_date_valid d : valid_date d -> valid_date (next_date d).
Proof.
  destruct d as [y m d]. intros [Hm Hd]. unfold next_date, valid_date. cbn [ymd_year ymd_month ymd_day] in *.
  destruct (Z.ltb_spec d (days_in_month m y)); cbn [ymd_year ymd_month ymd_day]; [lia|].
  destruct (Z.ltb_spec m 12); cbn [ymd_year ymd_month ymd_day].
  - pose proof (days_in_month_lower (m + 1) y ltac:(lia)). lia.
  - pose proof (days_in_month_lower 1 (y + 1) ltac:(lia)). lia.
Qed.

(** The reference is the proleptic Gregorian calendar: day 0 is 1970-01-01 and
    the next date has the next number. *)
Lemma civil_day_next d : valid_date d -> civil_day (next_date d) = civil_day d + 1.
Proof.
  destruct d as [y m d]. intros [Hm Hd]. unfold next_date, civil_day. cbn [ymd_year ymd_month ymd_day] in *.
  destruct (Z.ltb_spec d (days_in_month m y)); cbn [ymd_year ymd_month ymd_day]; [lia|].
  assert (d = days_in_month m y) as -> by lia. clear Hd H.
  destruct (Z.ltb_spec m 12); cbn [ymd_year ymd_month ymd_day].
  - enough (days_to_month (m + 1) + leap_day y (m + 1) = days_to_month m + leap_day y m + days_in_month m y) by lia.
    rewrite days_in_month_table by done. unfold leap_day. destruct (is_leap_year y); revert m Hm H;
      apply (month_cases (fun m => m < 12 -> _)); intros; vm_compute in *; done || reflexivity.
  - assert (m = 12) as -> by lia. rewrite civil_year_succ. change (days_in_month 12 y) with 31.
    change (days_to_month 12) with 334. change (days_to_month 1) with 0. unfold leap_day, year_length.
    destruct (is_leap_year y), (is_leap_year (y + 1)); cbn; lia.
Qed.

(** ** [to_days] *)

Lemma number_leap_years_nonneg n : 0 <= n -> number_leap_years n = n / 4 - n / 100 + n / 400.
Proof. intros. unfold number_leap_years. by rewrite !Z.quot_div_nonneg by lia. Qed.

Lemma days_to_month_bound m : 1 <= m <= 12 -> 0 <= days_to_month m <= 334.
Proof. revert m. apply month_cases; vm_compute; split; congruence. Qed.

Lemma days_in_month_bound m y : days_in_month m y <= 31.
Proof.
  unfold days_in_month. destruct (bool_decide _); [lia|]. destruct (bool_decide _); [lia|].
  destruct (_ =? _); [|lia]. destruct (is_leap_year y); lia.
Qed.

Lemma to_days_civil d :
  valid_date d -> -5000000 <= ymd_year d <= 5000000 ->
  Ymd_to_days d = civil_day d +
    (if (0 <=? ymd_year d) && (ymd_year d <? 1970) && is_leap_year (ymd_year d + 1) then 1 else 0).
Proof.
  destruct d as [y m d]. intros [Hm Hd] Hy. cbn [ymd_year ymd_month ymd_day] in *.
  pose proof (days_to_month_bound m Hm). pose proof (days_in_month_bound m y).
  unfold Ymd_to_days. cbn [ymd_year ymd_month ymd_day].
  assert (A : forall z r, z = r -> is_int32 r -> to_int32 z = r) by (intros z r -> ?; by apply to_int32_id).
  apply A; clear A.
  - unfold civil_day, civil_year, leap_day, LEAP_YEAR_1970. cbn [ymd_year ymd_month ymd_day].
    destruct (Z.leb_spec 1970 y).
    + rewrite number_leap_years_nonneg by lia. destruct (Z.ltb_spec y 1970); [lia|]. rewrite andb_false_r. cbn [andb]. lia.
    + pose proof (leap_arith y) as L. pose proof (leap_arith (y + 1)) as L1. replace (y + 1 - 1) with y in L1 by lia.
      destruct (Z.ltb_spec y 0).
      * rewrite number_leap_years_nonneg by lia. rewrite Z.abs_neq by lia.
        destruct (Z.leb_spec 0 y); [lia|]. cbn [andb].
        assert (D : forall a, 0 < a -> y / a = - 1 - (- (y + 1)) / a).
        { intros a Ha. pose proof (Z.div_mod (- (y + 1)) a ltac:(lia)).
          pose proof (Z.mod_pos_bound (- (y + 1)) a Ha). symmetry.
          apply (Z.div_unique _ _ _ (a - 1 - (- (y + 1)) mod a)); lia. }
        rewrite !D in L by lia. destruct (is_leap_year y); lia.
      * rewrite number_leap_years_nonneg by lia. destruct (Z.leb_spec 0 y), (Z.ltb_spec y 1970); try lia.
        cbn [andb]. destruct (is_leap_year y), (is_leap_year (y + 1)); lia.
  - unfold is_int32, civil_day, civil_year, leap_day. cbn [ymd_year ymd_month ymd_day].
    change (2 ^ 31) with 2147483648. destruct (is_leap_year y && _), (_ && _ && _); div_lia.
Qed.

(** ** [from_days] *)

Lemma from_days_step_shrinks s s' : from_days_step s = inl s' -> 0 <= Z.abs s'.1 < Z.abs s.1.
Proof.
  destruct s as [n year]. unfold from_days_step. destruct (Z.leb_spec 365 (Z.abs n)) as [Hn|]; [|done].
  intros [= <-]. cbn [fst]. split; [lia|]. unfold number_leap_years.
  set (k := Z.quot n 365).
  assert (A : exists c, -1 <= c <= 1 /\
    (if (0 <? year) && (year + k <? 0) then n + 1 else if (year <? 0) && (0 <? year + k) then n - 1 else n) = n + c)
    by (destruct (_ && _); [exists 1|destruct (_ && _); [exists (-1)|exists 0]]; lia).
  destruct A as (c & Hc & ->). replace (year + k - k - 1) with (year - 1) by lia.
  subst k. remember (Z.quot n 365) as k.
  assert (Hk : -364 <= n - 365 * k <= 364 /\ 1 <= Z.abs k /\ (0 <= n -> 0 <= k /\ 0 <= n - 365 * k) /\
    (n <= 0 -> k <= 0 /\ n - 365 * k <= 0)) by (subst k; div_lia).
  assert (B : forall a b, 0 < b -> Z.abs (Z.quot (a + k) b - Z.quot a b) * b <= Z.abs k + 2 * b).
  { intros a b Hb. pose proof (Z.quot_rem' (a + k) b). pose proof (Z.quot_rem' a b).
    pose proof (Z.rem_bound_abs (a + k) b ltac:(lia)). pose proof (Z.rem_bound_abs a b ltac:(lia)).
    remember (Z.quot (a + k) b) as q1. remember (Z.quot a b) as q2.
    replace (Z.abs (q1 - q2) * b) with (Z.abs (q1 * b - q2 * b))
      by (rewrite <- Z.mul_sub_distr_r, Z.abs_mul, (Z.abs_eq b) by lia; done). lia. }
  pose proof (B (year - 1) 4 ltac:(lia)). pose proof (B (year - 1) 100 ltac:(lia)).
  pose proof (B (year - 1) 400 ltac:(lia)). replace (year + k - 1) with (year - 1 + k) by lia. clear B Heqk.
  lia.
Qed.

(** The loop always ends, within the bound and with less than a year left. *)
Lemma from_days_total (I : Z * Z -> Prop) n :
  MIN_JS_DATE <= n <= MAX_JS_DATE -> I (n, 1970) ->
  (forall s s', I s -> from_days_step s = inl s' -> I s') ->
  exists n' year, Ymd_from_days n = Ok (Some (from_days_finish n' year)) /\ Z.abs n' < 365 /\ I (n', year).
Proof.
  intros Hn HI Hs. unfold Ymd_from_days.
  destruct (Z.leb_spec MIN_JS_DATE n), (Z.leb_spec n MAX_JS_DATE); try lia. cbn [negb andb].
  destruct (js_while_total from_days_step I (fun r => Z.abs r.1 < 365 /\ I r) (fun s => Z.abs s.1) 1000000000 (n, 1970))
    as ([n' year] & E & H1 & H2).
  - intros s Hi. destruct (from_days_step s) as [s'|r] eqn:E.
    + split; [by eapply Hs|by apply from_days_step_shrinks].
    + destruct s as [a b]. unfold from_days_step in E. destruct (Z.leb_spec 365 (Z.abs a)); [done|].
      injection E as <-. cbn. auto.
  - done.
  - unfold MIN_JS_DATE, MAX_JS_DATE in *. cbn. lia.
  - rewrite E. eauto 10.
Qed.

(** [year] starts on day [n0 - n]. *)
Definition from_days_inv (n0 : Z) (s : Z * Z) : Prop :=
  let '(n, year) := s in
  0 <= year /\ 365 * (year - 1970) + number_leap_years (year - 1) - 477 + n = n0 /\
  (year <= 1970 \/ - year <= n).

Lemma number_leap_years_bound n : -1 <= n -> 0 <= 4 * number_leap_years n <= Z.max n 0.
Proof. intros Hn. unfold number_leap_years. div_lia. Qed.

Lemma number_leap_years_mono a b : -1 <= a <= b -> number_leap_years a <= number_leap_years b.
Proof.
  intros [Ha Hb]. destruct (Z.eq_dec a (-1)) as [->|].
  { pose proof (number_leap_years_bound b ltac:(lia)). change (number_leap_years (-1)) with 0. lia. }
  rewrite !number_leap_years_nonneg by lia. div_lia.
Qed.

Lemma from_days_step_inv n0 s s' :
  -719162 <= n0 -> from_days_inv n0 s -> from_days_step s = inl s' -> from_days_inv n0 s'.
Proof.
  intros Hn0. destruct s as [n y]. intros (Hy & E & B). unfold from_days_step.
  destruct (Z.leb_spec 365 (Z.abs n)) as [Hn|]; [|done]. cbv zeta.
  remember (Z.quot n 365) as k.
  assert (Hk : -364 <= n - 365 * k <= 364 /\ 1 <= Z.abs k /\ (0 <= n -> 0 <= k /\ 0 <= n - 365 * k) /\
    (n <= 0 -> k <= 0 /\ n - 365 * k <= 0)) by (subst k; div_lia).
  clear Heqk. pose proof (number_leap_years_bound (y - 1) ltac:(lia)) as L.
  assert (Hk0 : 0 <= y + k).
  { destruct B as [B|B]; [|lia].
    pose proof (number_leap_years_mono (y - 1) 1969 ltac:(lia)) as M. change (number_leap_years 1969) with 477 in M. lia. }
  destruct (Z.ltb_spec 0 y), (Z.ltb_spec (y + k) 0), (Z.ltb_spec y 0); cbn [andb]; try lia;
    intros [= <-]; unfold from_days_inv; replace (y + k - k - 1) with (y - 1) by lia;
    (split; [lia|]); (split; [lia|]);
    (destruct (Z.le_gt_cases (y + k) 1970); [by left|right]);
    pose proof (number_leap_years_bound (y + k - 1) ltac:(lia));
    (destruct (Z.le_gt_cases 0 k);
      [pose proof (number_leap_years_bound (y - 1) ltac:(lia))
      |pose proof (number_leap_years_mono (y + k - 1) (y - 1) ltac:(lia))]); lia.
Qed.

(** The month of a day of the year. *)
Lemma find_month_spec n :
  0 <= n < 365 ->
  let q := find_month n in
  1 <= q <= 12 /\ days_to_month q <= n < days_to_month q + default 0 (month_lengths false !! Z.to_nat (q - 1)) /\
  (2 <? q) = (59 <=? n).
Proof.
  intros Hn. cbv zeta.
  assert (H : forallb (fun n => let q := find_month n in
    (1 <=? q) && (q <=? 12) && (days_to_month q <=? n) &&
    (n <? days_to_month q + default 0 (month_lengths false !! Z.to_nat (q - 1))) &&
    Bool.eqb (2 <? q) (59 <=? n)) (seqZ 0 365) = true) by (vm_compute; reflexivity).
  rewrite forallb_forall in H. specialize (H n ltac:(apply list_elem_of_In, elem_of_seqZ; lia)). cbv zeta in H.
  repeat (apply andb_prop in H as [H ?]). apply eqb_prop in H0. lia.
Qed.

(** The decoding of the day [n] of the year [y]. *)
Lemma from_days_finish_nonneg n y :
  1 <= y -> 0 <= n < year_length y ->
  valid_date (from_days_finish n y) /\ ymd_year (from_days_finish n y) = y /\
  civil_day (from_days_finish n y) = civil_year y + n.
Proof.
  intros Hy Hn. unfold from_days_finish. destruct (Z.ltb_spec n 0); [lia|]. unfold year_length in Hn.
  destruct (is_leap_year y) eqn:Lp; cbn [andb].
  - destruct (Z.ltb_spec n 60), (Z.ltb_spec 31 n); cbn [andb].
    + unfold valid_date, civil_day. cbn [ymd_year ymd_month ymd_day].
      rewrite days_in_month_table, Lp by lia. change (default 0 (month_lengths true !! Z.to_nat (2 - 1))) with 29.
      unfold leap_day. rewrite Lp. change (days_to_month 2) with 31. change (2 <? 2) with false. cbn [andb]. lia.
    + destruct (Z.leb_spec 60 n); [lia|].
      destruct (find_month_spec n ltac:(lia)) as (Hq & Hd & Hf). cbv zeta. remember (find_month n) as q.
      unfold valid_date, civil_day, leap_day. cbn [ymd_year ymd_month ymd_day]. rewrite Lp, Hf.
      rewrite days_in_month_table, Lp by lia. destruct (Z.leb_spec 59 n); [lia|].
      assert (default 0 (month_lengths false !! Z.to_nat (q - 1)) <= default 0 (month_lengths true !! Z.to_nat (q - 1)))
        by (clear - Hq; revert q Hq; apply month_cases; vm_compute; congruence).
      cbn [andb]. lia.
    + destruct (Z.leb_spec 60 n); [|lia].
      destruct (find_month_spec (n - 1) ltac:(lia)) as (Hq & Hd & Hf). cbv zeta. remember (find_month (n - 1)) as q.
      unfold valid_date, civil_day, leap_day. cbn [ymd_year ymd_month ymd_day]. rewrite Lp, Hf.
      rewrite days_in_month_table, Lp by lia. destruct (Z.leb_spec 59 (n - 1)); [|lia].
      assert (default 0 (month_lengths false !! Z.to_nat (q - 1)) <= default 0 (month_lengths true !! Z.to_nat (q - 1)))
        by (clear - Hq; revert q Hq; apply month_cases; vm_compute; congruence).
      cbn [andb]. lia.
    + lia.
  - destruct (find_month_spec n ltac:(lia)) as (Hq & Hd & _). cbv zeta. remember (find_month n) as q.
    unfold valid_date, civil_day, leap_day. cbn [ymd_year ymd_month ymd_day]. rewrite Lp.
    rewrite days_in_month_table, Lp by lia. cbn [andb]. lia.
Qed.

Lemma from_days_finish_civil n0 n y :
  -719162 <= n0 -> from_days_inv n0 (n, y) -> Z.abs n < 365 ->
  valid_date (from_days_finish n y) /\ 1 <= ymd_year (from_days_finish n y) /\
  civil_day (from_days_finish n y) = n0.
Proof.
  intros Hn0 (Hy & E & _) Hn.
  assert (Hy1 : 1 <= y).
  { destruct (Z.eq_dec y 0) as [->|]; [|lia]. change (number_leap_years (0 - 1)) with 0 in E. lia. }
  assert (Hc : civil_year y + n = n0).
  { unfold civil_year. rewrite <- number_leap_years_nonneg by lia. lia. }
  destruct (Z.le_gt_cases 0 n) as [Hp|Hp].
  - destruct (from_days_finish_nonneg n y Hy1) as (V & Y & C); [unfold year_length; destruct (is_leap_year y); lia|].
    rewrite Y, C. auto.
  - assert (Hy2 : 2 <= y).
    { destruct (Z.eq_dec y 1) as [->|]; [|lia]. change (civil_year 1) with (-719162) in Hc. lia. }
    assert (F : from_days_finish n y = from_days_finish (n + year_length (y - 1)) (y - 1)).
    { unfold from_days_finish, year_length. destruct (Z.ltb_spec n 0); [|lia].
      destruct (Z.ltb_spec (n + (if is_leap_year (y - 1) then 366 else 365)) 0); [destruct (is_leap_year (y - 1)); lia|].
      done. }
    rewrite F.
    destruct (from_days_finish_nonneg (n + year_length (y - 1)) (y - 1)) as (V & Y & C); [lia| |].
    { unfold year_length. destruct (is_leap_year (y - 1)); lia. }
    rewrite Y, C. split_and!; [done|lia|]. pose proof (civil_year_succ (y - 1)) as S.
    replace (y - 1 + 1) with y in S by lia. lia.
Qed.

(** ** The class *)

Lemma newDays_core n :
  minDay <= n <= maxDay -> exists x, LocalDate_newDays n = Ok x /\ ld_value x = n /\
    inDate x = in_js_range n /\
    match ld_date x with
    | None => in_js_range n = false
    | Some d => in_js_range n = true /\
        (-719162 <= n -> valid_date d /\ 1 <= ymd_year d /\ civil_day d = n /\
           valid_date (next_date d) /\ civil_day (next_date d) = n + 1)
    end.
Proof.
  intros Hn. unfold LocalDate_newDays, LocalDateWrapper_newDay.
  destruct (Z.ltb_spec n minDay), (Z.ltb_spec maxDay n); try lia. cbn [orb].
  destruct (in_js_range n) eqn:R.
  + pose proof R as R'. unfold in_js_range in R'. apply andb_prop in R' as [R1%Z.leb_le R2%Z.leb_le].
    destruct (Z.le_gt_cases (-719162) n) as [Hc|Hc].
    * destruct (from_days_total (from_days_inv n) n) as (a & y & E & Ha & Hi); [done| | |].
      { unfold from_days_inv. change (number_leap_years (1970 - 1)) with 477. lia. }
      { intros s s' Hs. by apply from_days_step_inv. }
      rewrite E. cbn [mbind result_bind]. eexists. split; [done|]. cbn [ld_value ld_date inDate].
      split_and!; [done..|]. intros _.
      destruct (from_days_finish_civil n a y Hc Hi Ha) as (V & Y & C).
      split_and!; [done..|by apply next_date_valid|by rewrite civil_day_next, C].
    * destruct (from_days_total (fun _ => True) n) as (a & y & E & _); [done..|].
      rewrite E. cbn [mbind result_bind]. eexists. split; [done|]. cbn [ld_value ld_date inDate].
      split_and!; try done. intros; lia.
  + unfold Ymd_from_days. change ((MIN_JS_DATE <=? n) && (n <=? MAX_JS_DATE)) with (in_js_range n). rewrite R.
    cbn [negb mbind result_bind]. by eexists.
Qed.

(** C40: every day number of 32 bits is accepted and no other; between the
    limits of the JavaScript Date the constructor computes a date (its loop
    ends), and from 0001-01-01 on this is the date with that number in the
    proleptic Gregorian calendar, in which 1970-01-01 has number 0 and the
    number of the next date is one more. *)
Theorem LocalDate_newDays_civil n :
  ((minDay <= n <= maxDay) -> exists x, LocalDate_newDays n = Ok x /\ ld_value x = n /\
     inDate x = in_js_range n /\
     match ld_date x with
     | None => in_js_range n = false
     | Some d => in_js_range n = true /\
         (-719162 <= n -> valid_date d /\ 1 <= ymd_year d /\ civil_day d = n /\
            valid_date (next_date d) /\ civil_day (next_date d) = n + 1)
     end) /\
  (~ (minDay <= n <= maxDay) -> LocalDate_newDays n = Throw PlainError) /\
  civil_day (mkYmd 1970 1 1) = 0.
Proof.
  split_and!; [apply newDays_core| |reflexivity].
  intros Hn. unfold LocalDate_newDays.
  destruct (Z.ltb_spec n minDay), (Z.ltb_spec maxDay n); try done. lia.
Qed.

Lemma LocalDate_newDays_civil_witness :
  exists x, LocalDate_newDays 19782 = Ok x /\ ld_value x = 19782.
Proof.
  destruct (proj1 (LocalDate_newDays_civil 19782)) as (x & E & V & _).
  - vm_compute. split; congruence.
  - exists x. split; [exact E|exact V].
Defined.

Lemma Ymd_new_valid y m d : Ymd_new y m d = if decide (valid_date (mkYmd y m d)) then Ok (mkYmd y m d) else Throw PlainError.
Proof.
  unfold Ymd_new. destruct (decide _) as [[H1 H2]|H]; cbn [ymd_year ymd_month ymd_day] in *.
  - destruct (Z.leb_spec 1 m), (Z.leb_spec m 12), (Z.leb_spec 1 d), (Z.leb_spec d (days_in_month m y)); try lia. done.
  - destruct (Z.leb_spec 1 m), (Z.leb_spec m 12), (Z.leb_spec 1 d), (Z.leb_spec d (days_in_month m y)); try done.
    destruct H. unfold valid_date. cbn. lia.
Qed.

(** *** Dates are determined by their number *)

Definition month_start (leap : bool) (m : Z) : Z := days_to_month m + (if leap && (2 <? m) then 1 else 0).

Lemma month_start_next leap m m' :
  1 <= m <= 12 -> 1 <= m' <= 12 -> m < m' ->
  month_start leap m + default 0 (month_lengths leap !! Z.to_nat (m - 1)) <= month_start leap m'.
Proof.
  intros Hm Hm'. assert (H : forallb (fun m => forallb (fun m' => negb (m <? m') ||
    (month_start leap m + default 0 (month_lengths leap !! Z.to_nat (m - 1)) <=? month_start leap m'))
    (seqZ 1 12)) (seqZ 1 12) = true) by (destruct leap; vm_compute; reflexivity).
  rewrite forallb_forall in H. specialize (H m ltac:(apply list_elem_of_In, elem_of_seqZ; lia)).
  rewrite forallb_forall in H. specialize (H m' ltac:(apply list_elem_of_In, elem_of_seqZ; lia)).
  lia.
Qed.

Lemma civil_day_in_year d :
  valid_date d ->
  civil_year (ymd_year d) <= civil_day d < civil_year (ymd_year d + 1) /\
  civil_day d = civil_year (ymd_year d) + month_start (is_leap_year (ymd_year d)) (ymd_month d) + ymd_day d - 1.
Proof.
  destruct d as [y m d]. intros [Hm Hd]. cbn [ymd_year ymd_month ymd_day] in *.
  rewrite civil_year_succ. unfold civil_day, leap_day, year_length. cbn [ymd_year ymd_month ymd_day].
  change (days_to_month m + (if is_leap_year y && (2 <? m) then 1 else 0)) with (month_start (is_leap_year y) m).
  rewrite days_in_month_table in Hd by done.
  assert (A : 0 <= month_start (is_leap_year y) m /\
    month_start (is_leap_year y) m + default 0 (month_lengths (is_leap_year y) !! Z.to_nat (m - 1)) <=
    (if is_leap_year y then 366 else 365)).
  { clear Hd. destruct (is_leap_year y); revert m Hm; apply month_cases; vm_compute; split; congruence. }
  unfold month_start in *. lia.
Qed.

Lemma civil_year_mono y y' : y <= y' -> civil_year y <= civil_year y'.
Proof. intros H. unfold civil_year. div_lia. Qed.

Lemma civil_day_inj d d' : valid_date d -> valid_date d' -> civil_day d = civil_day d' -> d = d'.
Proof.
  intros V V' E. destruct (civil_day_in_year d V) as [R F], (civil_day_in_year d' V') as [R' F'].
  assert (Y : ymd_year d = ymd_year d').
  { destruct (Z.lt_trichotomy (ymd_year d) (ymd_year d')) as [L|[L|L]]; [|done|].
    - pose proof (civil_year_mono (ymd_year d + 1) (ymd_year d') ltac:(lia)). lia.
    - pose proof (civil_year_mono (ymd_year d' + 1) (ymd_year d) ltac:(lia)). lia. }
  destruct d as [y m d], d' as [y' m' d'], V as [Hm Hd], V' as [Hm' Hd'].
  cbn [ymd_year ymd_month ymd_day] in *. subst y'. rewrite days_in_month_table in Hd, Hd' by done.
  destruct (Z.lt_trichotomy m m') as [L|[<-|L]].
  - pose proof (month_start_next (is_leap_year y) m m' Hm Hm' L). lia.
  - f_equal. lia.
  - pose proof (month_start_next (is_leap_year y) m' m Hm' Hm L). lia.
Qed.

(** the constructor accepts exactly the dates of the Gregorian calendar
    within the limits of the JavaScript Date, and keeps them.  The day number is
    the one of the calendar from 1970 on, before year 0, and in the years that
    are not followed by a leap year; in the other years it is one too high.
    Where it is right (and the year is positive), the constructor from the day
    number gives the same LocalDate. *)
Theorem LocalDate_new_civil y m d (Hy : -5000000 <= y <= 5000000) :
  let date := mkYmd y m d in
  let late := (0 <=? y) && (y <? 1970) && is_leap_year (y + 1) in
  let value := civil_day date + (if late then 1 else 0) in
  LocalDate_new y m d =
    (if decide (valid_date date /\ in_js_range value = true)
     then Ok (mkLocalDate value (Some date) true) else Throw PlainError) /\
  (valid_date date -> in_js_range value = true -> 1 <= y -> late = false ->
   LocalDate_newDays value = LocalDate_new y m d).
Proof.
  cbv zeta. remember (civil_day (mkYmd y m d) + _) as v eqn:Ev.
  assert (E : LocalDate_new y m d =
    (if decide (valid_date (mkYmd y m d) /\ in_js_range v = true)
     then Ok (mkLocalDate v (Some (mkYmd y m d)) true) else Throw PlainError)).
  { unfold LocalDate_new, LocalDateWrapper_new. rewrite Ymd_new_valid.
    destruct (decide (valid_date (mkYmd y m d))) as [V|V]; cbn [mbind result_bind].
    - rewrite to_days_civil by done. cbn [ymd_year]. rewrite <- Ev. cbn [inDate].
      destruct (in_js_range v), (decide _) as [D|D]; cbn [negb]; try done; [by destruct D|by destruct D].
    - destruct (decide _) as [[? ?]|]; [done|]. done. }
  split; [done|]. intros V R Hy1 L. rewrite L in Ev. rewrite E.
  destruct (decide _) as [_|D]; [|by destruct D].
  pose proof (civil_day_in_year _ V) as [[R1 R2] _]. cbn [ymd_year] in *.
  pose proof (civil_year_mono 1 y Hy1) as M. change (civil_year 1) with (-719162) in M.
  assert (Hv : minDay <= v <= maxDay).
  { unfold in_js_range, MIN_JS_DATE, MAX_JS_DATE in R. unfold minDay, maxDay.
    apply andb_prop in R as [?%Z.leb_le ?%Z.leb_le]. lia. }
  destruct (newDays_core v Hv) as ([v' od i] & E1 & E2 & E3 & E4). cbn [ld_value ld_date inDate] in *.
  rewrite E1. subst v' i. f_equal. f_equal; [|done]. destruct od as [d0|]; [|congruence].
  destruct E4 as [_ E4]. destruct (E4 ltac:(lia)) as (V0 & _ & C0 & _). f_equal.
  apply civil_day_inj; [done..|]. lia.
Qed.

Lemma LocalDate_new_civil_witness :
  LocalDate_new 2024 2 29 = Ok (mkLocalDate 19782 (Some (mkYmd 2024 2 29)) true) /\
  LocalDate_new 2023 2 29 = Throw PlainError.
Proof.
  split; (etransitivity; [apply LocalDate_new_civil; lia|vm_compute; reflexivity]).
Defined.

(** The text of a date after a round trip through its bytes. *)
Definition reread (y m d : Z) : result jsstr :=
  x ← LocalDate_new y m d;
  b ← LocalDate_toBuffer x;
  x ← LocalDate_fromBuffer b;
  Ok (LocalDate_toString x).

(** years before 1970 that precede a leap year are one day off:
    1967-12-31 equals 1968-01-01, and the bytes of 1967-06-15 are read back as
    1967-06-16.  Before year 0 the date of a day number can be wrong as well:
    -0003-06-01 is printed as -0003-06-02 after a round trip through bytes. *)
Theorem LocalDate_day_off :
  (exists x y, LocalDate_new 1967 12 31 = Ok x /\ LocalDate_new 1968 1 1 = Ok y /\ LocalDate_equals x y = true) /\
  reread 1967 6 15 = Ok (str "1967-06-16") /\
  reread (-3) 6 1 = Ok (str "-0003-06-02").
Proof.
  split_and!; [|vm_compute; reflexivity..].
  do 2 eexists. split; [vm_compute; reflexivity|]. split; [vm_compute; reflexivity|]. reflexivity.
Qed.

(** ** Text and bytes *)

Definition dash_count (s : jsstr) : nat := length (List.filter (fun c => bool_decide (c = "-"%char)) s).

Lemma dash_count_app s t : dash_count (s ++ t) = (dash_count s + dash_count t)%nat.
Proof. unfold dash_count. by rewrite List.filter_app, length_app. Qed.

Lemma dash_count_digits ds : digits_in 10 ds -> dash_count (map digit_char ds) = 0%nat.
Proof.
  unfold dash_count. induction 1 as [|d ds Hd _ IH]; [done|]. cbn.
  rewrite bool_decide_false by (apply digit_char_not_minus; lia). done.
Qed.

(** A text of digits with its value. *)
Definition digit_text (w : jsstr) (v : Z) : Prop :=
  exists ds, w = map digit_char ds /\ digits_in 10 ds /\ be_val 10 ds = v /\ ds <> [].

Lemma digit_text_facts w v :
  digit_text w v ->
  Forall (fun c => is_digit c = true) w /\ dash_count w = 0%nat /\ digits_number w = v /\ w <> [] /\
  match w with c :: _ => c <> "-"%char /\ c <> "+"%char | [] => True end.
Proof.
  intros (ds & -> & D & V & N). split_and!.
  - rewrite Forall_map. eapply Forall_impl; [exact D|]. apply digit_char_is_digit.
  - by apply dash_count_digits.
  - unfold digits_number. rewrite <- (app_nil_r (map digit_char _)), digit_prefix_digits; [done|lia|done|done].
  - by destruct ds.
  - destruct D as [|d ds Hd]; [done|]. cbn. destruct (digit_char_plain d ltac:(lia)) as (_ & ? & ?). done.
Qed.

Lemma digit_text_number z : 0 <= z -> digit_text (num_to_string 10 z) z.
Proof. intros Hz. destruct (num_to_string_digits 10 z ltac:(lia) Hz) as (ds & E & D & V & N). by exists ds. Qed.

Lemma digit_text_zeros k w v : digit_text w v -> digit_text (replicate k "0"%char ++ w) v.
Proof.
  intros (ds & -> & D & V & N). exists (replicate k 0 ++ ds). split_and!.
  - by rewrite map_app, map_replicate_digit.
  - apply Forall_app. split; [|done]. apply Forall_replicate. lia.
  - rewrite be_val_app. unfold be_val at 1. rewrite rev_replicate, le_val_replicate_0. lia.
  - by destruct k.
Qed.

Lemma parse_int_digits bits w v : digit_text w v -> 0 <= v < 2 ^ bits -> parse_int bits w = Some v.
Proof.
  intros Hw Hv. destruct (digit_text_facts w v Hw) as (F & _ & V & N & H). unfold parse_int.
  destruct w as [|c w]; [done|]. destruct H as [H1 H2].
  destruct (decide _); [done|]. destruct (decide _); [done|].
  assert (E : forallb is_digit (c :: w) = true) by (rewrite forallb_forall; by apply List.Forall_forall).
  rewrite E, V. destruct (Z.leb_spec (- 2 ^ bits) v), (Z.ltb_spec v (2 ^ bits)); lia || done.
Qed.

Lemma parse_i32_digits w v : digit_text w v -> 0 <= v < 2 ^ 31 -> parse_i32 w = Some v.
Proof. apply parse_int_digits. Qed.

Lemma parse_i32_number v : is_int32 v -> parse_i32 (num_to_string 10 v) = Some v.
Proof.
  intros Hv. destruct (Z.le_gt_cases 0 v) as [Hp|Hp].
  { apply parse_i32_digits; [by apply digit_text_number|unfold is_int32 in Hv; lia]. }
  rewrite <- num_to_string_opp by lia.
  destruct (digit_text_facts _ _ (digit_text_number (- v) ltac:(lia))) as (F & _ & V & N & _).
  unfold parse_i32, parse_int. destruct (decide _); [|done].
  destruct (num_to_string 10 (- v)) as [|c w]; [done|].
  assert (E : forallb is_digit (c :: w) = true) by (rewrite forallb_forall; by apply List.Forall_forall).
  rewrite E, V. unfold is_int32 in Hv. destruct (Z.leb_spec (- 2 ^ 31) (- - v)), (Z.ltb_spec (- - v) (2 ^ 31)); try lia.
  cbn [andb]. f_equal. lia.
Qed.

(** The month and the day with two digits. *)
Lemma two_digits_text z :
  1 <= z <= 31 -> exists w, two_digits z = "-"%char :: w /\ digit_text w z /\
    (z <= 12 -> month_text w = true) /\ day_text w = true.
Proof.
  intros Hz. exists (tail (two_digits z)).
  assert (H : forallb (fun z => bool_decide (two_digits z = "-"%char :: tail (two_digits z)) &&
     bool_decide (tail (two_digits z) = map digit_char [z / 10; z mod 10]) &&
     (negb (z <=? 12) || month_text (tail (two_digits z))) && day_text (tail (two_digits z)))
     (seqZ 1 31) = true) by (vm_compute; reflexivity).
  rewrite forallb_forall in H. specialize (H z ltac:(apply list_elem_of_In, elem_of_seqZ; lia)).
  apply andb_prop in H as [[[H1%bool_decide_eq_true_1 H2%bool_decide_eq_true_1]%andb_prop H3]%andb_prop H4].
  split_and!; [done| | |done].
  - exists [z / 10; z mod 10]. split_and!; [done| | |done].
    + unfold digits_in. rewrite !Forall_cons, Forall_nil. div_lia.
    + unfold be_val. cbn. div_lia.
  - intros Hm. destruct (Z.leb_spec z 12); [done|lia].
Qed.

Lemma match_date_text y m d yv mv dv :
  digit_text y yv -> digit_text m mv -> digit_text d dv -> month_text m = true -> day_text d = true ->
  match_date (y ++ "-"%char :: m ++ "-"%char :: d) = Some (y, m, d).
Proof.
  intros Hy Hm Hd M D.
  destruct (digit_text_facts _ _ Hy) as (Fy & _ & _ & Ny & Hy'). destruct (digit_text_facts _ _ Hm) as (Fm & _).
  unfold match_date. destruct y as [|c y]; [done|]. cbn [app]. destruct Hy' as [Hc _].
  destruct (decide _); [done|].
  change (c :: y ++ "-"%char :: m ++ "-"%char :: d) with ((c :: y) ++ "-"%char :: m ++ "-"%char :: d).
  rewrite span_app by done. destruct (decide _); [|done]. rewrite span_app by done.
  rewrite bool_decide_true, M, D by done. done.
Qed.

Lemma LocalDate_fromString_text y m d :
  1 <= y < 2 ^ 31 -> 1 <= m <= 12 -> 1 <= d <= 31 ->
  LocalDateWrapper_fromString (LocalDate_toString (mkLocalDate 0 (Some (mkYmd y m d)) true))
  = Ok (Ymd_to_days (mkYmd y m d)).
Proof.
  intros Hy Hm Hd. unfold LocalDate_toString. cbn [ld_date ymd_year ymd_month ymd_day].
  destruct (Z.ltb_spec y 0); [lia|]. rewrite Z.abs_eq by lia. cbn [app].
  pose proof (digit_text_zeros (4 - length (num_to_string 10 y)) _ _ (digit_text_number y ltac:(lia))) as Ty.
  rewrite app_assoc. remember (replicate _ _ ++ num_to_string 10 y) as yt.
  destruct (two_digits_text m ltac:(lia)) as (mt & -> & Tm & Mm & _).
  destruct (two_digits_text d ltac:(lia)) as (dt & -> & Td & _ & Dd). cbn [app].
  unfold LocalDateWrapper_fromString.
  destruct (digit_text_facts _ _ Ty) as (_ & Cy & _ & Ny & Hy0).
  destruct (digit_text_facts _ _ Tm) as (_ & Cm & Vm & _). destruct (digit_text_facts _ _ Td) as (_ & Cd & Vd & _).
  assert (C : length (List.filter (fun c => bool_decide (c = "-"%char)) (yt ++ "-"%char :: mt ++ "-"%char :: dt)) = 2%nat).
  { fold (dash_count (yt ++ "-"%char :: mt ++ "-"%char :: dt)).
    change ("-"%char :: mt ++ "-"%char :: dt) with (["-"%char] ++ mt ++ ["-"%char] ++ dt).
    rewrite !dash_count_app, Cy, Cm, Cd. done. }
  rewrite C. change (2 <? 2)%nat with false. change (2 <=? 3)%nat with true. cbv iota.
  rewrite (match_date_text yt mt dt y m d) by auto with lia.
  rewrite (parse_i32_digits yt y) by (done || lia). rewrite Vm, Vd.
  destruct yt as [|c yt]; [done|]. destruct Hy0 as [Hc _]. unfold char_is. cbn.
  by rewrite bool_decide_false.
Qed.

Lemma newDays_value n x : LocalDate_newDays n = Ok x -> minDay <= n <= maxDay /\ ld_value x = n.
Proof.
  intros E. assert (H : minDay <= n <= maxDay).
  { unfold LocalDate_newDays in E. destruct (Z.ltb_spec n minDay), (Z.ltb_spec maxDay n); done || lia. }
  split; [done|]. destruct (newDays_core n H) as (x' & E' & V & _). congruence.
Qed.

Lemma LocalDate_fromString_number n :
  is_int32 n -> LocalDateWrapper_fromString (num_to_string 10 n) = Ok n.
Proof.
  intros Hn. unfold LocalDateWrapper_fromString. fold (dash_count (num_to_string 10 n)).
  assert (C : (dash_count (num_to_string 10 n) < 2)%nat).
  { destruct (Z.le_gt_cases 0 n).
    - destruct (digit_text_facts _ _ (digit_text_number n ltac:(lia))) as (_ & -> & _). lia.
    - rewrite <- num_to_string_opp by lia.
      destruct (digit_text_facts _ _ (digit_text_number (- n) ltac:(lia))) as (_ & C & _).
      change ("-"%char :: num_to_string 10 (- n)) with (["-"%char] ++ num_to_string 10 (- n)).
      rewrite dash_count_app, C. change (dash_count ["-"%char]) with 1%nat. lia. }
  destruct (Nat.ltb_spec (dash_count (num_to_string 10 n)) 2); [|lia]. by rewrite parse_i32_number.
Qed.

Lemma LocalDate_buffer n x : LocalDate_newDays n = Ok x ->
  LocalDate_toBuffer x = Ok (be_bytes 4 (n + 2 ^ 31)) /\ LocalDate_fromBuffer (be_bytes 4 (n + 2 ^ 31)) = Ok x.
Proof.
  intros Hx. destruct (newDays_value n x Hx) as [Hn Vx].
  assert (W : writeUInt 4 (n + 2 ^ 31) = Ok (be_bytes 4 (n + 2 ^ 31))).
  { apply writeUInt_small. unfold minDay, maxDay in *. change (2 ^ (8 * Z.of_nat 4)) with 4294967296. pow2. lia. }
  split; [unfold LocalDate_toBuffer, dateCenter; by rewrite Vx|].
  pose proof (readUInt_writeUInt 4 _ _ [] [] W) as R. rewrite app_nil_r in R. cbn [app length] in R.
  unfold LocalDate_fromBuffer. rewrite R. cbn [mbind result_bind]. unfold dateCenter.
  by replace (n + 2 ^ 31 - 2 ^ 31) with n by lia.
Qed.

(** a LocalDate made from any day number is read back from its four bytes,
    and from its text when it is not before 1970 or is printed as a number;
    [compare] is the order of the day numbers and [equals] is equality. *)
Theorem LocalDate_roundtrips n x k y (Hx : LocalDate_newDays n = Ok x) (Hy : LocalDate_newDays k = Ok y) :
  (exists b, LocalDate_toBuffer x = Ok b /\ length b = 4%nat /\ LocalDate_fromBuffer b = Ok x) /\
  (0 <= n \/ n < MIN_JS_DATE -> LocalDate_fromString (LocalDate_toString x) = Ok x) /\
  LocalDate_compare x y = Z.sgn (n - k) /\
  (LocalDate_equals x y = true <-> x = y).
Proof.
  destruct (newDays_value n x Hx) as [Hn Vx]. destruct (newDays_value k y Hy) as [Hk Vy].
  assert (C : LocalDate_compare x y = Z.sgn (n - k)).
  { unfold LocalDate_compare. rewrite Vx, Vy.
    destruct (Z.eqb_spec n k); [lia|]. destruct (Z.ltb_spec k n); lia. }
  split_and!; [| |done|].
  - destruct (LocalDate_buffer n x Hx) as [B1 B2]. eexists. by rewrite length_be_bytes.
  - intros Hr. unfold LocalDate_fromString.
    enough (E : LocalDateWrapper_fromString (LocalDate_toString x) = Ok n) by by rewrite E.
    destruct (newDays_core n Hn) as (x' & E' & _ & _ & D). rewrite Hx in E'. injection E' as <-.
    destruct x as [v [d|] i]; cbn [ld_value ld_date] in *; subst v.
    + destruct D as [R D]. unfold in_js_range in R. apply andb_prop in R as [R1%Z.leb_le R2%Z.leb_le].
      unfold MIN_JS_DATE, MAX_JS_DATE in *.
      destruct (D ltac:(lia)) as (V & Y & Cd & _). destruct (civil_day_in_year d V) as [[B1 B2] _].
      destruct (Z.le_gt_cases 1970 (ymd_year d)) as [Hp|Hp].
      2: { pose proof (civil_year_mono (ymd_year d + 1) 1970 ltac:(lia)) as M. change (civil_year 1970) with 0 in M. lia. }
      assert (Hp' : ymd_year d <= 5000000) by (unfold civil_year in *; div_lia).
      destruct d as [yy m d]. cbn [ymd_year] in *.
      change (LocalDate_toString _) with (LocalDate_toString (mkLocalDate 0 (Some (mkYmd yy m d)) true)).
      pose proof (days_in_month_bound m yy). destruct V as [Vm Vd]. cbn [ymd_year ymd_month ymd_day] in *.
      rewrite LocalDate_fromString_text by lia. rewrite to_days_civil by (done || cbn; lia). cbn [ymd_year].
      destruct (Z.ltb_spec yy 1970); [lia|]. rewrite andb_false_r. cbn [andb]. f_equal. lia.
    + unfold LocalDate_toString. cbn [ld_date ld_value]. apply LocalDate_fromString_number.
      unfold is_int32, minDay, maxDay in *. lia.
  - unfold LocalDate_equals. rewrite C, Z.eqb_eq. split.
    + intros E. assert (n = k) as <- by lia. congruence.
    + intros ->. assert (n = k) by congruence. lia.
Qed.

Lemma LocalDate_roundtrips_witness :
  let x := mkLocalDate 19782 (Some (mkYmd 2024 2 29)) true in
  LocalDate_toString x = str "2024-02-29" /\ LocalDate_fromString (LocalDate_toString x) = Ok x.
Proof.
  split; [vm_compute; reflexivity|].
  refine (proj1 (proj2 (LocalDate_roundtrips 19782 _ 19782 _ _ _)) _);
    [vm_compute; reflexivity|vm_compute; reflexivity|left; lia].
Defined.
