(* ===== verification/InetAddress.v ===== *)
(** [lib/types/inet-address.js]: IP addresses as 4 or 16 bytes; the native
    wrapper of [src/types/inet.rs] keeps the bytes. *)
From S2P Require Import Prelude.
From S2P Require Import JsNum.
From S2P Require Import JsStr.
From S2P Require Import Buffer.
From S2P Require Import Version.

Record InetAddress := mkInet { inet_buffer : list Z }.

#[export] Instance InetAddress_eq_dec : EqDecision InetAddress.
Proof. solve_decision. Defined.

(** [InetAddressWrapper::new]; its error message names the class [TypeError]. *)
Definition InetAddress_new (buffer : list Z) : result InetAddress :=
  if (length buffer =? 4)%nat || (length buffer =? 16)%nat then Ok (mkInet buffer) else Throw TypeError.

Definition InetAddress_version (x : InetAddress) : Z := if (length (inet_buffer x) =? 4)%nat then 4 else 6.
Definition InetAddress_length (x : InetAddress) : Z := Z.of_nat (length (inet_buffer x)).

Definition InetAddress_equals (x other : InetAddress) : bool :=
  (length (inet_buffer x) =? length (inet_buffer other))%nat && bool_decide (inet_buffer x = inet_buffer other).

(** ** Parsing *)

Definition digit_in (lo hi : Z) (c : ascii) : bool := (48 + lo <=? code c) && (code c <=? 48 + hi).

(** [25[0-5]|(2[0-4]|1\d|[1-9]|)\d] on a whole word. *)
Definition ipv4_octet (w : jsstr) : bool :=
  match w with
  | [a] => is_digit a
  | [a; b] => digit_in 1 9 a && is_digit b
  | [a; b; c] =>
      (digit_in 2 2 a && digit_in 5 5 b && digit_in 0 5 c) || (digit_in 2 2 a && digit_in 0 4 b && is_digit c) ||
      (digit_in 1 1 a && is_digit b && is_digit c)
  | _ => false
  end.

(** [ipv4Pattern]: the word boundary after every optional dot leaves exactly
    four octets separated by dots. *)
Definition ipv4Pattern_test (s : jsstr) : bool :=
  match split_on "."%char s with
  | [a; b; c; d] => ipv4_octet a && ipv4_octet b && ipv4_octet c && ipv4_octet d
  | _ => false
  end.

(** [ipv6Pattern] *)
Definition ipv6_char (c : ascii) : bool :=
  match char_digit c with Some d => d <? 16 | None => false end || one_of [":"%char; "."%char] c.

Definition ipv6Pattern_test (s : jsstr) : bool :=
  match s with [] => false | _ => forallb ipv6_char s end.

(** [buffer.writeUInt16BE(v, offset)] and [buffer.writeUInt8(v, offset)]. *)
Definition write_at (n : nat) (v : Z) (st : list Z * nat) : result (list Z * nat) :=
  let '(buffer, offset) := st in
  bytes ← writeUInt n v;
  if (offset + n <=? length buffer)%nat then Ok (splice buffer offset bytes, (offset + n)%nat)
  else Throw RangeError.

(** [buffer[offset++] = 0] for [n] bytes: nothing happens out of range. *)
Fixpoint fill_zeros (n : nat) (st : list Z * nat) : list Z * nat :=
  match n with
  | O => st
  | S n' => let '(buffer, offset) := st in fill_zeros n' (<[offset := 0]> buffer, S offset)
  end.

(** [NaN] is written as 0. *)
Definition number_written (n : number) : Z := match n with Fin m 0 => m | _ => 0 end.

Fixpoint write_items (items : list jsstr) (st : list Z * nat) : result (list Z * nat) :=
  match items with
  | [] => Ok st
  | w :: items' => st ← write_at 1 (digits_number w) st; write_items items' st
  end.

(** The loop over the parts: [filling] and [applied] are its variables. *)
Fixpoint write_parts (parts : list jsstr) (embeddedIp4 : bool) (filling : Z) (applied : bool)
    (st : list Z * nat) : result (list Z * nat) :=
  match parts with
  | [] => Ok st
  | item :: parts' =>
      match item with
      | _ :: _ =>
          if embeddedIp4 && bool_decide (parts' = []) then write_items (split_on "."%char item) st
          else st ← write_at 2 (number_written (parseInt item 16)) st; write_parts parts' embeddedIp4 filling applied st
      | [] =>
          let filling := if applied then 1 else filling in
          write_parts parts' embeddedIp4 filling true (fill_zeros (2 * Z.to_nat filling) st)
      end
  end.

Definition isValidIPv4Mapped (buffer : list Z) : bool :=
  forallb (fun i => rd buffer i =? 0) (seq 0 (length buffer - 6)) &&
  negb (negb (rd buffer 10 =? 255) || negb (rd buffer 11 =? 255)).

(** [unsafe] is the content of the 16 bytes that [allocUnsafe] returns. *)
Definition InetAddress_fromString (unsafe : list Z) (value : jsstr) : result InetAddress :=
  match value with
  | [] => InetAddress_new [0; 0; 0; 0]
  | _ =>
      if ipv4Pattern_test value then InetAddress_new (map digits_number (split_on "."%char value))
      else if negb (ipv6Pattern_test value) then Throw TypeError
      else
        let parts := split_on ":"%char value in
        if (length parts <? 3)%nat then Throw TypeError
        else
          let filling := 8 - Z.of_nat (length parts) + 1 in
          let embeddedIp4 := ipv4Pattern_test (List.last parts []) in
          let filling := if embeddedIp4 then filling - 1 else filling in
          st ← write_parts parts embeddedIp4 filling false (unsafe, 0%nat);
          if embeddedIp4 && negb (isValidIPv4Mapped st.1) then Throw TypeError
          else InetAddress_new st.1
  end.

(** ** Text *)

(** [start], [longest.length] and [longest.start]. *)
Record zero_state := mkZero { z_start : Z; longest_length : Z; longest_start : Z }.

Definition checkLongest (i : Z) (s : zero_state) : zero_state :=
  if 0 <=? z_start s then
    let length := i - z_start s in
    if longest_length s <? length then mkZero (-1) length (z_start s) else s
  else s.

(** The body of the first loop, at the byte [i]. *)
Definition zero_step (buffer : list Z) (s : zero_state) (i : nat) : zero_state :=
  if (rd buffer i =? 0) && (rd buffer (i + 1) =? 0) then
    let s := if z_start s <? 0 then mkZero (Z.of_nat i) (longest_length s) (longest_start s) else s in
    if (i =? length buffer - 2)%nat then checkLongest (Z.of_nat i + 2) s else s
  else checkLongest (Z.of_nat i) s.

Definition find_longest (buffer : list Z) : zero_state :=
  foldl (zero_step buffer) (mkZero (-1) 0 (-1)) (map (fun k => (2 * k)%nat) (seq 0 (length buffer / 2))).

(** The body of the second loop, at the byte [h]. *)
Definition address_step (buffer : list Z) (s : zero_state) (address : jsstr) (h : nat) : jsstr :=
  if Z.of_nat h =? longest_start s then address ++ str ":"
  else if (Z.of_nat h <? longest_start s + longest_length s) && (longest_start s <? Z.of_nat h) then address
  else
    let address := match address with [] => address | _ => address ++ str ":" end in
    address ++ num_to_string 16 ((rd buffer h .<< 8) .| rd buffer (h + 1)).

Definition InetAddress_toString (x : InetAddress) : jsstr :=
  let buffer := inet_buffer x in
  if (length buffer =? 4)%nat then join (str ".") (map (num_to_string 10) buffer)
  else
    let address :=
      foldl (address_step buffer (find_longest buffer)) []
        (map (fun k => (2 * k)%nat) (seq 0 (length buffer / 2))) in
    if bool_decide (last address = Some ":"%char) then address ++ str ":" else address.

Definition inet_groups (gs : list Z) : InetAddress := mkInet (concat (map (be_bytes 2) gs)).


(** Text round trips of InetAddress.v. *)

(** ** Words *)

Lemma split_on_join c w ws :
  Forall (Forall (fun d => d <> c)) (w :: ws) -> split_on c (join [c] (w :: ws)) = w :: ws.
Proof.
  revert w. induction ws as [|v ws IH]; intros w [Hw Hws]%Forall_cons.
  - by apply split_on_word.
  - cbn [join app]. rewrite split_on_app by done. f_equal. by apply IH.
Qed.

Lemma parseInt_hex z : 0 <= z -> parseInt (num_to_string 16 z) 16 = Int z.
Proof.
  intros Hz. destruct (num_to_string_digits 16 z ltac:(lia) Hz) as (ds & -> & D & <- & N).
  pose proof (digit_prefix_digits 16 ds [] ltac:(lia) D ltac:(done)) as P. rewrite app_nil_r in P.
  destruct ds as [|d ds]; [done|]. inversion D as [|? ? Hd D']; subst.
  destruct (digit_char_plain d ltac:(lia)) as (H1 & H2 & H3).
  unfold parseInt. cbn [map] in *. cbn [trim_start]. rewrite H1. cbv beta iota.
  destruct (decide _); [done|]. destruct (decide _); [done|]. cbv beta iota.
  assert (E : match map digit_char ds with
    | [] => digit_char d :: map digit_char ds
    | x :: s' => if (16 =? 16) && bool_decide (digit_char d = "0"%char) && bool_decide (lower x = "x"%char)
                 then s' else digit_char d :: map digit_char ds end = digit_char d :: map digit_char ds).
  { destruct D' as [|e ds He D']; [done|]. cbn [map].
    assert (X : forallb (fun e => negb (bool_decide (lower (digit_char e) = "x"%char))) (seqZ 0 16) = true)
      by (vm_compute; reflexivity).
    rewrite forallb_forall in X. specialize (X e ltac:(apply list_elem_of_In, elem_of_seqZ; lia)).
    rewrite negb_true_iff in X. rewrite X, andb_false_r. done. }
  destruct (map digit_char ds) as [|x s']; cbv beta iota in *; [by rewrite P|].
  cbv beta iota zeta in E |- *. rewrite E. by rewrite P.
Qed.

(** The characters of hexadecimal words. *)
Lemma hex_chars z : 0 <= z -> num_to_string 16 z <> [] /\
  Forall (fun c => ipv6_char c = true /\ c <> ":"%char /\ c <> "."%char) (num_to_string 16 z).
Proof.
  intros Hz. destruct (num_to_string_digits 16 z ltac:(lia) Hz) as (ds & -> & D & _ & N).
  split; [by destruct ds|]. rewrite Forall_map. eapply Forall_impl; [exact D|]. cbn. intros d Hd.
  assert (X : forallb (fun e => ipv6_char (digit_char e) && negb (bool_decide (digit_char e = ":"%char)) &&
      negb (bool_decide (digit_char e = "."%char))) (seqZ 0 16) = true) by (vm_compute; reflexivity).
  rewrite forallb_forall in X. specialize (X d ltac:(apply list_elem_of_In, elem_of_seqZ; lia)).
  apply andb_prop in X as [[X1 X2]%andb_prop X3]. rewrite negb_true_iff in X2, X3.
  by apply bool_decide_eq_false_1 in X2, X3.
Qed.

(** ** IPv4 *)

Lemma octet_text b :
  0 <= b < 256 -> ipv4_octet (num_to_string 10 b) = true /\ digits_number (num_to_string 10 b) = b /\
  Forall (fun d => d <> "."%char) (num_to_string 10 b).
Proof.
  intros Hb. assert (X : forallb (fun b => ipv4_octet (num_to_string 10 b) && (digits_number (num_to_string 10 b) =? b) &&
    forallb (fun d => negb (bool_decide (d = "."%char))) (num_to_string 10 b)) (seqZ 0 256) = true)
    by (vm_compute; reflexivity).
  rewrite forallb_forall in X. specialize (X b ltac:(apply list_elem_of_In, elem_of_seqZ; lia)).
  apply andb_prop in X as [[X1 X2%Z.eqb_eq]%andb_prop X3]. split_and!; [done..|].
  rewrite forallb_forall in X3. apply List.Forall_forall. intros d Hd. specialize (X3 d Hd).
  rewrite negb_true_iff in X3. by apply bool_decide_eq_false_1 in X3.
Qed.

Lemma ipv4_roundtrip unsafe a b c d :
  bytes_ok [a; b; c; d] ->
  InetAddress_fromString unsafe (InetAddress_toString (mkInet [a; b; c; d])) = Ok (mkInet [a; b; c; d]).
Proof.
  unfold bytes_ok, digits_in. rewrite !Forall_cons. intros (Ha & Hb & Hc & Hd & _).
  destruct (octet_text a Ha) as (A1 & A2 & A3), (octet_text b Hb) as (B1 & B2 & B3),
    (octet_text c Hc) as (C1 & C2 & C3), (octet_text d Hd) as (D1 & D2 & D3).
  change (InetAddress_toString _) with
    (join (str ".") [num_to_string 10 a; num_to_string 10 b; num_to_string 10 c; num_to_string 10 d]).
  assert (S : split_on "."%char (join (str ".") [num_to_string 10 a; num_to_string 10 b; num_to_string 10 c; num_to_string 10 d])
    = [num_to_string 10 a; num_to_string 10 b; num_to_string 10 c; num_to_string 10 d]).
  { apply split_on_join. rewrite !Forall_cons, Forall_nil. auto. }
  unfold InetAddress_fromString, ipv4Pattern_test. rewrite S, A1, B1, C1, D1. cbn [andb map].
  rewrite A2, B2, C2, D2.
  destruct (join (str ".") _) as [|x s] eqn:E; [|done].
  exfalso. apply (f_equal (split_on "."%char)) in E. rewrite S in E. done.
Qed.

(** ** IPv6: writing the parts *)

Lemma splice_app done_ bytes rest :
  splice (done_ ++ rest) (length done_) bytes = done_ ++ bytes ++ drop (length bytes) rest.
Proof.
  unfold splice. rewrite take_app_length, drop_app_ge by lia. do 3 f_equal. lia.
Qed.

Lemma write_group done_ rest g :
  0 <= g < 65536 -> (2 <= length rest)%nat ->
  write_at 2 g (done_ ++ rest, length done_) = Ok (done_ ++ be_bytes 2 g ++ drop 2 rest, (length done_ + 2)%nat).
Proof.
  intros Hg Hr. unfold write_at, writeUInt. change (2 ^ (8 * Z.of_nat 2)) with 65536.
  destruct (Z.leb_spec 0 g), (Z.ltb_spec g 65536); try lia. cbn [andb mbind result_bind].
  rewrite length_app. destruct (Nat.leb_spec (length done_ + 2) (length done_ + length rest)); [|lia].
  by rewrite splice_app, length_be_bytes.
Qed.

Lemma fill_zeros_app n done_ rest :
  (n <= length rest)%nat ->
  fill_zeros n (done_ ++ rest, length done_) = (done_ ++ replicate n 0 ++ drop n rest, (length done_ + n)%nat).
Proof.
  revert done_ rest. induction n as [|n IH]; intros done_ rest Hn; cbn [fill_zeros].
  { by rewrite drop_0, Nat.add_0_r. }
  destruct rest as [|r rest]; cbn in Hn; [lia|].
  rewrite insert_app_r_alt, Nat.sub_diag by lia. cbn [insert list_insert].
  replace (done_ ++ 0 :: rest) with ((done_ ++ [0]) ++ rest) by (by rewrite <- app_assoc).
  replace (S (length done_)) with (length (done_ ++ [0])) by (rewrite length_app; cbn; lia).
  rewrite IH by lia. rewrite length_app, <- app_assoc. cbn. f_equal. lia.
Qed.

Definition groups_ok (gs : list Z) : Prop := Forall (fun g => 0 <= g < 65536) gs.
Definition group_bytes (gs : list Z) : list Z := concat (map (be_bytes 2) gs).

Lemma group_bytes_length gs : length (group_bytes gs) = (2 * length gs)%nat.
Proof.
  unfold group_bytes. induction gs as [|g gs IH]; [done|]. cbn [map concat].
  rewrite length_app, length_be_bytes, IH. cbn. lia.
Qed.

Lemma group_bytes_app gs hs : group_bytes (gs ++ hs) = group_bytes gs ++ group_bytes hs.
Proof. unfold group_bytes. by rewrite map_app, concat_app. Qed.

Lemma group_bytes_zeros n : group_bytes (replicate n 0) = replicate (2 * n) 0.
Proof.
  induction n as [|n IH]; [done|]. replace (2 * S n)%nat with (2 + 2 * n)%nat by lia.
  rewrite replicate_add, <- IH. done.
Qed.

(** The words of groups write their bytes. *)
Lemma write_parts_hex gs parts filling applied done_ rest :
  groups_ok gs -> (2 * length gs <= length rest)%nat ->
  write_parts (map (num_to_string 16) gs ++ parts) false filling applied (done_ ++ rest, length done_) =
  write_parts parts false filling applied
    ((done_ ++ group_bytes gs) ++ drop (2 * length gs) rest, length (done_ ++ group_bytes gs)).
Proof.
  intros Hgs. revert done_ rest. induction Hgs as [|g gs Hg Hgs IH]; intros done_ rest Hl.
  { cbn [map app]. by rewrite app_nil_r, drop_0. }
  cbn [length] in Hl. destruct (hex_chars g ltac:(lia)) as [N _].
  pose proof (parseInt_hex g ltac:(lia)) as P. cbn [map app write_parts].
  destruct (num_to_string 16 g) as [|c w]; [done|]. cbn [andb]. rewrite P. cbn [number_written Int].
  rewrite write_group by (done || lia). cbn [mbind result_bind].
  rewrite app_assoc. replace (length done_ + 2)%nat with (length (done_ ++ be_bytes 2 g))
    by (rewrite length_app, length_be_bytes; done).
  rewrite IH by (rewrite length_drop; lia).
  change (group_bytes (g :: gs)) with (be_bytes 2 g ++ group_bytes gs).
  replace (2 * length (g :: gs))%nat with (2 + 2 * length gs)%nat by (cbn; lia).
  by rewrite <- !app_assoc, drop_drop.
Qed.

Lemma write_parts_empty parts filling applied done_ rest :
  let n := (2 * Z.to_nat (if applied : bool then 1 else filling))%nat in
  (n <= length rest)%nat ->
  write_parts ([] :: parts) false filling applied (done_ ++ rest, length done_) =
  write_parts parts false (if applied then 1 else filling) true
    ((done_ ++ replicate n 0) ++ drop n rest, length (done_ ++ replicate n 0)).
Proof.
  cbv zeta. intros Hn. cbn [write_parts]. rewrite fill_zeros_app by done.
  by rewrite app_assoc, length_app, length_replicate.
Qed.

(** ** IPv6: the text of an address whose zero groups are [l] groups after [A] *)

Definition or_empty (A : list Z) : list jsstr := match A with [] => [[]] | _ => map (num_to_string 16) A end.
Definition compressed (A B : list Z) : list jsstr := or_empty A ++ [] :: or_empty B.

Lemma write_parts_all gs filling applied done_ rest :
  groups_ok gs -> (2 * length gs <= length rest)%nat ->
  write_parts (map (num_to_string 16) gs) false filling applied (done_ ++ rest, length done_) =
  Ok ((done_ ++ group_bytes gs) ++ drop (2 * length gs) rest, length (done_ ++ group_bytes gs)).
Proof.
  intros Hg Hl. rewrite <- (app_nil_r (map _ gs)). by rewrite write_parts_hex.
Qed.

Lemma write_compressed A B l unsafe :
  groups_ok A -> groups_ok B -> (length A + l + length B = 8)%nat -> (1 <= l)%nat -> length unsafe = 16%nat ->
  exists n, write_parts (compressed A B) false (8 - Z.of_nat (length (compressed A B)) + 1) false (unsafe, 0%nat)
    = Ok (group_bytes (A ++ replicate l 0 ++ B), n).
Proof.
  intros HA HB Hl Hl1 Hu. rewrite !group_bytes_app, group_bytes_zeros.
  unfold compressed, or_empty. destruct A as [|a A], B as [|b B].
  - cbn [length] in Hl. assert (l = 8%nat) as -> by lia. cbn [app length].
    change (8 - Z.of_nat 3 + 1) with 6. change (unsafe, 0%nat) with ([] ++ unsafe, length (@nil Z)).
    rewrite !write_parts_empty by (rewrite ?length_drop; cbn; lia). cbn [write_parts]. eexists.
    rewrite !drop_drop. cbn [app replicate Nat.add Nat.mul Z.to_nat Pos.to_nat Pos.iter_op].
    rewrite drop_ge by (rewrite Hu; cbn; lia). done.
  - cbn [length] in Hl. cbn [app length]. rewrite length_map. change (unsafe, 0%nat) with ([] ++ unsafe, length (@nil Z)).
    rewrite !write_parts_empty by (rewrite ?length_drop; cbn [length]; lia).
    rewrite write_parts_all by (done || (rewrite !length_drop; cbn [length]; lia)). eexists.
    rewrite !drop_drop, drop_ge by (rewrite Hu; cbn [length]; lia). rewrite app_nil_r. cbn [app group_bytes map concat].
    rewrite <- replicate_add. match goal with |- context [replicate (?a + ?b) 0] =>
      replace (a + b)%nat with (2 * l)%nat by (cbn [length] in *; lia) end.
    by rewrite <- ?app_assoc.
  - cbn [length] in Hl. rewrite length_app, length_map. cbn [length]. change (unsafe, 0%nat) with ([] ++ unsafe, length (@nil Z)).
    rewrite write_parts_hex by (done || (cbn [length]; lia)).
    rewrite !write_parts_empty by (rewrite ?length_drop; cbn [length]; lia). cbn [write_parts]. eexists.
    rewrite !drop_drop, drop_ge by (rewrite Hu; cbn [length]; lia). rewrite !app_nil_r. cbn [app].
    rewrite <- app_assoc, <- replicate_add. match goal with |- context [replicate (?a + ?b) 0] =>
      replace (a + b)%nat with (2 * l)%nat by (cbn [length] in *; lia) end.
    by rewrite <- ?app_assoc.
  - cbn [length] in Hl. rewrite length_app. cbn [length]. rewrite !length_map. cbn [length].
    change (unsafe, 0%nat) with ([] ++ unsafe, length (@nil Z)).
    rewrite write_parts_hex by (done || (cbn [length]; lia)).
    rewrite !write_parts_empty by (rewrite ?length_drop; cbn [length]; lia).
    rewrite write_parts_all by (done || (rewrite !length_drop; cbn [length]; lia)). eexists.
    rewrite !drop_drop, drop_ge by (rewrite Hu; cbn [length]; lia). rewrite app_nil_r. cbn [app].
    match goal with |- context [replicate (2 * Z.to_nat ?z) 0] =>
      replace (2 * Z.to_nat z)%nat with (2 * l)%nat by (cbn [length] in *; lia) end.
    by rewrite <- !app_assoc.
Qed.

Definition word_ok (w : jsstr) : Prop := Forall (fun c => ipv6_char c = true /\ c <> ":"%char /\ c <> "."%char) w.

Lemma hex_words_ok gs : groups_ok gs -> Forall word_ok (map (num_to_string 16) gs).
Proof.
  intros H. rewrite Forall_map. eapply Forall_impl; [exact H|]. cbn. intros g Hg. apply hex_chars. lia.
Qed.

Lemma join_chars ws : Forall word_ok ws ->
  Forall (fun c => ipv6_char c = true /\ c <> "."%char) (join (str ":") ws).
Proof.
  induction 1 as [|w ws Hw Hws IH]; [constructor|].
  assert (W : Forall (fun c => ipv6_char c = true /\ c <> "."%char) w)
    by (eapply Forall_impl; [exact Hw|intros c (? & ? & ?); auto]).
  cbn [join]. destruct ws as [|v ws]; [done|]. apply Forall_app. split; [done|].
  change (str ":" ++ join (str ":") (v :: ws)) with (":"%char :: join (str ":") (v :: ws)).
  constructor; [split; [reflexivity|done]|done].
Qed.

(** What is left of [fromString] for a text of at least three hexadecimal or
    empty words. *)
Lemma fromString_words unsafe ws :
  Forall word_ok ws -> (3 <= length ws)%nat ->
  InetAddress_fromString unsafe (join (str ":") ws) =
  (st ← write_parts ws false (8 - Z.of_nat (length ws) + 1) false (unsafe, 0%nat); InetAddress_new st.1).
Proof.
  intros Hw Hl. pose proof (join_chars ws Hw) as J.
  assert (S : split_on ":"%char (join (str ":") ws) = ws).
  { destruct ws as [|w ws]; [cbn in Hl; lia|]. apply split_on_join.
    eapply Forall_impl; [exact Hw|]. intros v Hv. eapply Forall_impl; [exact Hv|]. by intros c (? & ? & ?). }
  assert (P : forall s, Forall (fun c => c <> "."%char) s -> ipv4Pattern_test s = false).
  { intros s Hs. unfold ipv4Pattern_test. by rewrite split_on_word. }
  assert (L : ipv4Pattern_test (List.last ws []) = false).
  { apply P. destruct (@exists_last _ ws) as (l & x & ->); [by destruct ws|]. rewrite last_last.
    apply Forall_app in Hw as [_ Hx]. rewrite Forall_singleton in Hx.
    eapply Forall_impl; [exact Hx|]. by intros c (? & ? & ?). }
  assert (P6 : ipv6Pattern_test (join (str ":") ws) = true /\ join (str ":") ws <> []).
  { unfold ipv6Pattern_test. destruct (join (str ":") ws) as [|c s] eqn:E.
    - rewrite <- S in Hl. cbn in Hl. lia.
    - split; [|done]. rewrite forallb_forall. intros d Hd. eapply List.Forall_forall in J; [|exact Hd]. by destruct J. }
  destruct P6 as [P6 N]. unfold InetAddress_fromString.
  destruct (join (str ":") ws) as [|c s] eqn:E; [done|].
  rewrite P by (eapply Forall_impl; [exact J|by intros ? []]). rewrite P6, S, L. cbn [negb andb].
  destruct (Nat.ltb_spec (length ws) 3); [lia|]. done.
Qed.

Lemma compressed_ok A B : groups_ok A -> groups_ok B -> Forall word_ok (compressed A B) /\ (3 <= length (compressed A B))%nat.
Proof.
  intros HA HB.
  assert (E : forall A, groups_ok A -> Forall word_ok (or_empty A) /\ (1 <= length (or_empty A))%nat).
  { intros [|a A'] H; [split; [repeat constructor|done]|]. split; [by apply hex_words_ok|]. cbn. lia. }
  destruct (E A HA), (E B HB). unfold compressed. split.
  - apply Forall_app. split; [done|]. by constructor; [constructor|].
  - rewrite length_app. cbn. lia.
Qed.

Lemma fromString_compressed A B l unsafe :
  groups_ok A -> groups_ok B -> (length A + l + length B = 8)%nat -> (1 <= l)%nat -> length unsafe = 16%nat ->
  InetAddress_fromString unsafe (join (str ":") (compressed A B)) = Ok (inet_groups (A ++ replicate l 0 ++ B)).
Proof.
  intros HA HB Hl Hl1 Hu. destruct (compressed_ok A B HA HB) as [W L].
  rewrite fromString_words by done.
  destruct (write_compressed A B l unsafe HA HB Hl Hl1 Hu) as [n ->]. cbn [mbind result_bind fst].
  unfold InetAddress_new. rewrite group_bytes_length, !length_app, length_replicate.
  replace (2 * (length A + (l + length B)))%nat with 16%nat by lia. done.
Qed.

Lemma fromString_full gs unsafe :
  groups_ok gs -> length gs = 8%nat -> length unsafe = 16%nat ->
  InetAddress_fromString unsafe (join (str ":") (map (num_to_string 16) gs)) = Ok (inet_groups gs).
Proof.
  intros Hg Hl Hu. rewrite fromString_words by (rewrite ?length_map, ?Hl; lia || by apply hex_words_ok).
  change (unsafe, 0%nat) with ([] ++ unsafe, length (@nil Z)). rewrite write_parts_all by (done || lia).
  cbn [mbind result_bind fst app]. rewrite drop_ge, app_nil_r by lia.
  unfold InetAddress_new. by rewrite group_bytes_length, Hl.
Qed.

(** ** IPv6: printing *)

Lemma group_at gs k :
  groups_ok gs ->
  rd (group_bytes gs) (2 * k) = rd gs k / 256 /\ rd (group_bytes gs) (2 * k + 1) = rd gs k mod 256.
Proof.
  intros H. revert k. induction H as [|g gs Hg _ IH]; intros k.
  { unfold rd. cbn [group_bytes map concat]. by rewrite !lookup_nil. }
  change (group_bytes (g :: gs)) with (g / 256 mod 256 :: g mod 256 :: group_bytes gs).
  destruct k as [|k].
  - unfold rd. cbn. by rewrite Z.mod_small by div_lia.
  - replace (2 * S k)%nat with (S (S (2 * k))) by lia. unfold rd in *. cbn [lookup list_lookup Nat.add]. apply IH.
Qed.

Lemma group_word g : 0 <= g < 65536 -> (g / 256 .<< 8) .| (g mod 256) = g.
Proof.
  intros Hg. assert (L : 0 <= g mod 256 < 256) by (apply Z.mod_pos_bound; lia).
  assert (H : 0 <= g / 256 < 256) by div_lia.
  rewrite js_shl_mul by lia. change (2 ^ 8) with 256.
  rewrite to_int32_id by (unfold is_int32; lia). unfold js_or.
  rewrite !to_int32_id by (unfold is_int32; lia). change 256 with (2 ^ 8) at 2.
  rewrite lor_add_disjoint by lia. div_lia.
Qed.

(** Zero groups are the only thing the first loop looks at. *)
Definition norm (g : Z) : Z := if g =? 0 then 0 else 1.

Lemma zero_group gs k :
  groups_ok gs ->
  (rd (group_bytes gs) (2 * k) =? 0) && (rd (group_bytes gs) (2 * k + 1) =? 0) = (rd gs k =? 0).
Proof.
  intros H. destruct (group_at gs k H) as [-> ->].
  assert (Hr : 0 <= rd gs k < 65536).
  { unfold rd. destruct (gs !! k) eqn:E; [|cbn; lia]. by apply (Forall_lookup_1 _ _ _ _ H E). }
  destruct (Z.eqb_spec (rd gs k / 256) 0), (Z.eqb_spec (rd gs k mod 256) 0), (Z.eqb_spec (rd gs k) 0);
    cbn [andb]; try done; div_lia.
Qed.

Lemma norm_ok gs : groups_ok (map norm gs).
Proof. unfold groups_ok. rewrite Forall_map. apply Forall_true. intros g. unfold norm. destruct (_ =? _); lia. Qed.

Lemma find_longest_norm gs :
  groups_ok gs -> find_longest (group_bytes gs) = find_longest (group_bytes (map norm gs)).
Proof.
  intros H. unfold find_longest. rewrite !group_bytes_length, length_map.
  generalize (seq 0 (2 * length gs / 2)) as l. generalize (mkZero (-1) 0 (-1)) as z.
  intros z l. revert z. induction l as [|k l IH]; intros z; [done|]. cbn [map foldl]. rewrite IH. f_equal.
  unfold zero_step. rewrite !group_bytes_length, length_map, zero_group by done.
  rewrite zero_group by apply norm_ok.
  assert (E : (rd gs k =? 0) = (rd (map norm gs) k =? 0)).
  { unfold rd. rewrite list_lookup_fmap. destruct (gs !! k) as [g|]; [|done]. cbn. unfold norm. by destruct (g =? 0). }
  by rewrite E.
Qed.

(** One run of zero groups is found. *)
Lemma find_longest_one_run A l B :
  groups_ok A -> groups_ok B -> Forall (fun g => g <> 0) A -> Forall (fun g => g <> 0) B ->
  (length A + l + length B = 8)%nat ->
  let s := find_longest (group_bytes (A ++ replicate l 0 ++ B)) in
  (l = 0%nat -> longest_start s = -1 /\ longest_length s = 0) /\
  ((1 <= l)%nat -> longest_start s = Z.of_nat (2 * length A) /\ longest_length s = Z.of_nat (2 * l)).
Proof.
  intros HA HB NA NB Hl. cbv zeta.
  assert (G : groups_ok (A ++ replicate l 0 ++ B)).
  { apply Forall_app. split; [done|]. apply Forall_app. split; [|done]. apply Forall_replicate. lia. }
  rewrite find_longest_norm by done. rewrite !map_app.
  assert (E : forall A, Forall (fun g => g <> 0) A -> map norm A = replicate (length A) 1).
  { clear. induction 1 as [|g A Hg _ IH]; [done|]. cbn. rewrite IH. unfold norm. by destruct (Z.eqb_spec g 0). }
  assert (E0 : map norm (replicate l 0) = replicate l 0) by (clear; induction l as [|l IH]; [done|cbn; by rewrite IH]).
  rewrite (E A NA), (E B NB), E0.
  assert (X : forallb (fun a => forallb (fun l =>
     let s := find_longest (group_bytes (replicate a 1 ++ replicate l 0 ++ replicate (8 - a - l) 1)) in
     negb (a + l <=? 8)%nat ||
     (if (l =? 0)%nat then (longest_start s =? -1) && (longest_length s =? 0)
      else (longest_start s =? Z.of_nat (2 * a)) && (longest_length s =? Z.of_nat (2 * l)))) (seq 0 9)) (seq 0 9) = true)
    by (vm_compute; reflexivity).
  rewrite forallb_forall in X. specialize (X (length A) ltac:(apply in_seq; lia)).
  rewrite forallb_forall in X. specialize (X l ltac:(apply in_seq; lia)). cbv zeta in X.
  replace (8 - length A - l)%nat with (length B) in X by lia.
  remember (find_longest _) as s. clear Heqs.
  destruct (Nat.leb_spec (length A + l) 8); [|lia]. cbn [negb orb] in X.
  destruct (Nat.eqb_spec l 0); apply andb_prop in X as [X1%Z.eqb_eq X2%Z.eqb_eq]; split; intros; try lia; auto.
Qed.

(** *** The second loop *)

Definition add_words (address : jsstr) (ws : list jsstr) : jsstr :=
  match address with [] => join (str ":") ws | _ => address ++ concat (map (cons ":"%char) ws) end.

Lemma join_words w ws : join (str ":") (w :: ws) = w ++ concat (map (cons ":"%char) ws).
Proof.
  revert w. induction ws as [|v ws IH]; intros w.
  - cbn. by rewrite app_nil_r.
  - change (join (str ":") (w :: v :: ws)) with (w ++ str ":" ++ join (str ":") (v :: ws)). by rewrite (IH v).
Qed.

Lemma add_words_cons address w ws :
  w <> [] -> add_words (match address with [] => address | _ => address ++ str ":" end ++ w) ws = add_words address (w :: ws).
Proof.
  intros Hw. unfold add_words. destruct address as [|c a].
  - cbn [app]. destruct w as [|d w]; [done|]. by rewrite join_words.
  - cbn [map concat]. rewrite <- !app_assoc. cbn. done.
Qed.

Lemma address_words s gs k n address :
  groups_ok gs -> (k + n <= length gs)%nat ->
  (forall j, (k <= j < k + n)%nat -> Z.of_nat (2 * j) <> longest_start s /\
     ~ (longest_start s < Z.of_nat (2 * j) < longest_start s + longest_length s)) ->
  foldl (address_step (group_bytes gs) s) address (map (fun k => (2 * k)%nat) (seq k n)) =
  add_words address (map (num_to_string 16) (take n (drop k gs))).
Proof.
  intros Hg. revert k address. induction n as [|n IH]; intros k address Hk Ho.
  { cbn. unfold add_words. cbn. destruct address; [done|]. by rewrite app_nil_r. }
  cbn [seq map foldl]. rewrite IH; [|lia|intros j Hj; apply Ho; lia].
  destruct (lookup_lt_is_Some_2 gs k ltac:(lia)) as [g Eg].
  rewrite (drop_S _ _ _ Eg). cbn [take map]. rewrite <- add_words_cons
    by (apply hex_chars; by apply (Forall_lookup_1 _ _ _ _ Hg Eg)).
  f_equal. destruct (Ho k ltac:(lia)) as [O1 O2]. unfold address_step.
  destruct (Z.eqb_spec (Z.of_nat (2 * k)) (longest_start s)); [done|].
  destruct (Z.ltb_spec (Z.of_nat (2 * k)) (longest_start s + longest_length s)),
    (Z.ltb_spec (longest_start s) (Z.of_nat (2 * k))); try lia; cbn [andb];
    (destruct (group_at gs k Hg) as [-> ->]); unfold rd; rewrite Eg; cbn [default];
    rewrite group_word by (by apply (Forall_lookup_1 _ _ _ _ Hg Eg)); done.
Qed.

Lemma address_skip s gs k n address :
  (forall j, (k <= j < k + n)%nat -> longest_start s < Z.of_nat (2 * j) < longest_start s + longest_length s) ->
  foldl (address_step (group_bytes gs) s) address (map (fun k => (2 * k)%nat) (seq k n)) = address.
Proof.
  revert k. induction n as [|n IH]; intros k Ho; [done|]. cbn [seq map foldl].
  assert (E : address_step (group_bytes gs) s address (2 * k) = address).
  { pose proof (Ho k ltac:(lia)). unfold address_step.
    destruct (Z.eqb_spec (Z.of_nat (2 * k)) (longest_start s)); [lia|].
    destruct (Z.ltb_spec (Z.of_nat (2 * k)) (longest_start s + longest_length s)),
      (Z.ltb_spec (longest_start s) (Z.of_nat (2 * k))); lia || done. }
  rewrite E. apply IH. intros j Hj. apply Ho. lia.
Qed.

Lemma last_word p w : w <> [] -> word_ok w -> last (p ++ w) <> Some ":"%char.
Proof.
  intros N W. destruct (@exists_last _ w N) as (l & c & ->). rewrite app_assoc, last_snoc.
  apply Forall_app in W as [_ W]. rewrite Forall_singleton in W. destruct W as (_ & ? & _). congruence.
Qed.

Lemma last_words p gs :
  groups_ok gs -> gs <> [] -> last (p ++ concat (map (cons ":"%char) (map (num_to_string 16) gs))) <> Some ":"%char.
Proof.
  intros H N. destruct (@exists_last _ gs N) as (l & g & ->). apply Forall_app in H as [_ H].
  rewrite Forall_singleton in H. destruct (hex_chars g ltac:(lia)) as [N1 W].
  rewrite !map_app, concat_app. cbn [map concat]. rewrite app_nil_r.
  change (":"%char :: num_to_string 16 g) with ([":"%char] ++ num_to_string 16 g). rewrite !app_assoc.
  by apply last_word.
Qed.

Lemma join_or_empty A ws :
  groups_ok A ->
  join (str ":") (or_empty A ++ ws) = join (str ":") (map (num_to_string 16) A) ++ concat (map (cons ":"%char) ws).
Proof.
  intros HA. destruct A as [|a A]; [apply (join_words [] ws)|].
  unfold or_empty. cbn [map app]. rewrite !join_words, map_app, concat_app. by rewrite app_assoc.
Qed.

Lemma toString_one_run A l B :
  groups_ok A -> groups_ok B -> Forall (fun g => g <> 0) A -> Forall (fun g => g <> 0) B ->
  (length A + l + length B = 8)%nat ->
  InetAddress_toString (inet_groups (A ++ replicate l 0 ++ B)) =
  if (l =? 0)%nat then join (str ":") (map (num_to_string 16) (A ++ B)) else join (str ":") (compressed A B).
Proof.
  intros HA HB NA NB Hl. destruct (find_longest_one_run A l B HA HB NA NB Hl) as [F0 F1].
  assert (G : groups_ok (A ++ replicate l 0 ++ B)).
  { apply Forall_app. split; [done|]. apply Forall_app. split; [|done]. apply Forall_replicate. lia. }
  assert (L8 : length (A ++ replicate l 0 ++ B) = 8%nat) by (rewrite !length_app, length_replicate; lia).
  unfold InetAddress_toString. cbn [inet_buffer inet_groups]. fold (group_bytes (A ++ replicate l 0 ++ B)).
  rewrite group_bytes_length, L8. change (2 * 8 =? 4)%nat with false. change (2 * 8 / 2)%nat with 8%nat. cbv iota.
  remember (find_longest _) as s. clear Heqs. destruct (Nat.eqb_spec l 0) as [->|Hl0].
  - destruct (F0 eq_refl) as [S1 S2]. rewrite address_words by (done || (rewrite L8; lia) || intros; lia).
    rewrite drop_0, take_ge by lia. cbn [replicate app]. cbn [add_words].
    rewrite bool_decide_false; [done|].
    cbn [replicate app] in G, L8. destruct (A ++ B) as [|g gs] eqn:E; [done|]. cbn [map]. rewrite join_words.
    destruct gs as [|h gs]; [done|]. apply last_words; [|done]. by apply Forall_cons in G as [_ G].
  - destruct (F1 ltac:(lia)) as [S1 S2].
    replace (seq 0 8) with (seq 0 (length A) ++ length A :: seq (S (length A)) (l - 1) ++ seq (length A + l) (length B)).
    2: { replace 8%nat with (length A + (1 + ((l - 1) + length B)))%nat by lia. rewrite !seq_app.
         replace (0 + length A + 1 + (l - 1))%nat with (length A + l)%nat by lia.
         by replace (0 + length A + 1)%nat with (S (length A)) by lia. }
    rewrite map_app, foldl_app. cbn [map foldl]. rewrite map_app, foldl_app.
    rewrite (address_words s _ (length A + l) (length B)) by (done || (rewrite L8; lia) || intros; lia).
    rewrite (address_skip s _ (S (length A))) by (intros; lia).
    rewrite (address_words s _ 0 (length A)) by (done || (rewrite L8; lia) || intros; lia).
    replace (take (length B) (drop (length A + l) (A ++ replicate l 0 ++ B))) with B.
    2: { rewrite app_assoc, drop_app_ge by (rewrite length_app, length_replicate; lia).
         rewrite length_app, length_replicate, Nat.sub_diag, drop_0, take_ge; [done|lia]. }
    rewrite drop_0, take_app_length. cbn [add_words].
    unfold address_step. rewrite S1, Z.eqb_refl.
    unfold add_words. destruct (join (str ":") (map (num_to_string 16) A) ++ str ":") as [|c a] eqn:E.
    { by apply app_eq_nil in E as [_ E]. }
    rewrite <- E. clear E c a. unfold compressed. rewrite join_or_empty by done.
    destruct B as [|b B].
    + cbn [map concat or_empty]. rewrite app_nil_r, bool_decide_true by apply last_snoc.
      by rewrite <- app_assoc.
    + rewrite bool_decide_false by (by apply last_words). cbn [or_empty map concat]. by rewrite <- app_assoc.
Qed.

(** the text of an IPv4 address is read back as the same bytes, and so is
    the text of an IPv6 address whose groups of zeros are consecutive (or that
    has none), whatever the memory holds that [allocUnsafe] returns. *)
Theorem InetAddress_text_roundtrip unsafe A l B (Hu : length unsafe = 16%nat) :
  (forall a b c d, bytes_ok [a; b; c; d] ->
     InetAddress_fromString unsafe (InetAddress_toString (mkInet [a; b; c; d])) = Ok (mkInet [a; b; c; d])) /\
  (groups_ok A -> groups_ok B -> Forall (fun g => g <> 0) A -> Forall (fun g => g <> 0) B ->
   (length A + l + length B = 8)%nat ->
   let x := inet_groups (A ++ replicate l 0 ++ B) in
   InetAddress_fromString unsafe (InetAddress_toString x) = Ok x /\ InetAddress_version x = 6).
Proof.
  split; [intros; by apply ipv4_roundtrip|]. intros HA HB NA NB Hl x. subst x. split.
  - rewrite toString_one_run by done. destruct (Nat.eqb_spec l 0) as [->|Hl0].
    + cbn [replicate app]. apply fromString_full; [by apply Forall_app|rewrite length_app; lia|done].
    + apply fromString_compressed; done || lia.
  - unfold InetAddress_version, inet_groups. cbn [inet_buffer].
    fold (group_bytes (A ++ replicate l 0 ++ B)). rewrite group_bytes_length, !length_app, length_replicate.
    by replace (length A + (l + length B))%nat with 8%nat by lia.
Qed.

Lemma InetAddress_text_roundtrip_witness :
  let x := inet_groups [8193; 3512; 0; 0; 0; 0; 65280; 1] in
  InetAddress_toString x = str "2001:db8::ff00:1" /\
  InetAddress_fromString (replicate 16 170) (InetAddress_toString x) = Ok x.
Proof.
  split; [vm_compute; reflexivity|].
  refine (proj1 (proj2 (InetAddress_text_roundtrip (replicate 16 170) [8193; 3512] 4 [65280; 1] eq_refl) _ _ _ _ eq_refl));
    repeat constructor; lia.
Defined.

(** with two groups of zeros of the same length the text can drop a group
    that is not zero: 2001:db8:1:0:1:0:1:1 is printed like another address.  A
    text with too few groups is accepted and the rest of the address is
    whatever [allocUnsafe] returned. *)
Theorem InetAddress_text_defects :
  InetAddress_toString (inet_groups [8193; 3512; 1; 0; 1; 0; 1; 1]) = str "2001:db8:1:0:1::1" /\
  InetAddress_fromString (replicate 16 0) (str "2001:db8:1:0:1::1") =
    Ok (inet_groups [8193; 3512; 1; 0; 1; 0; 0; 1]) /\
  InetAddress_fromString (replicate 16 0) (str "1:2:3") = Ok (inet_groups [1; 2; 3; 0; 0; 0; 0; 0]) /\
  InetAddress_fromString (replicate 16 7) (str "1:2:3") = Ok (inet_groups [1; 2; 3; 1799; 1799; 1799; 1799; 1799]).
Proof. vm_compute. auto. Qed.
