(* ===== verification/LocalTime.v ===== *)
(** [lib/types/local-time.js] with the native part it wraps,
    [src/types/local_time.rs].

    An [i64] of the native part is a [Z]: the constructor admits nanoseconds of
    one day only, and the text it parses has passed the regular expression of
    [fromString], so that no operation overflows. *)
From S2P Require Import Prelude.
From S2P Require Import JsNum.
From S2P Require Import JsStr.
From S2P Require Import Buffer.
From S2P Require Import LongLib.
From S2P Require Import NewUtils.
From S2P Require Import Version.
From S2P Require Import LocalDate.

(** ** The native part *)

Definition NANO_SEC_IN_SEC : Z := 1000000000.
Definition MILLIS_SEC_IN_HOUR : Z := 3600000.
Definition MILLIS_SEC_IN_MIN : Z := 60000.
Definition MILLIS_SEC_IN_SEC : Z := 1000.
Definition NANO_SEC_IN_MILLIS : Z := 1000000.

(** [LocalTimeWrapper]; a LocalTime holds nothing else. *)
Record LocalTime := mkTime {
  lt_value : Z;
  lt_hour : Z;
  lt_minute : Z;
  lt_second : Z;
  lt_nanosecond : Z
}.

#[export] Instance LocalTime_eq_dec : EqDecision LocalTime.
Proof. solve_decision. Defined.

Definition convert_to_object (ns_value : Z) : LocalTime :=
  let second := Z.quot ns_value NANO_SEC_IN_SEC in
  let nanosecond := ns_value - second * NANO_SEC_IN_SEC in
  let minute := Z.quot second 60 in
  let hour := Z.quot minute 60 in
  mkTime ns_value hour (Z.rem minute 60) (Z.rem second 60) nanosecond.

Definition LocalTimeWrapper_new (total_nanoseconds : Z) : result LocalTime :=
  ns_value ← bigint_to_i64 total_nanoseconds; Ok (convert_to_object ns_value).

Definition parse_i64 : jsstr -> option Z := parse_int 63.

(** [sec_parts] of the third part: seconds and, after a dot, a fraction of at
    most nine digits. *)
Definition parse_seconds (w : jsstr) : option (Z * Z) :=
  match split_on "."%char w with
  | [] => None
  | s :: fraction =>
      s ← parse_i64 s;
      match fraction with
      | [f] => n ← parse_i64 f; Some (s, n * 10 ^ (9 - Z.of_nat (length f)))
      | _ => Some (s, 0)
      end
  end.

(** [from_string]: reading a part that is missing panics. *)
Definition LocalTimeWrapper_fromString (s : jsstr) : result Z :=
  match split_on ":"%char s with
  | h :: m :: rest =>
      let parsed :=
        h ← parse_i64 h; m ← parse_i64 m;
        '(s, nanos) ← match rest with [w] => parse_seconds w | _ => Some (0, 0) end;
        Some ((h * MILLIS_SEC_IN_HOUR + m * MILLIS_SEC_IN_MIN + s * MILLIS_SEC_IN_SEC)
              * NANO_SEC_IN_MILLIS + nanos) in
      match parsed with Some v => Ok v | None => Throw PlainError end
  | _ => Throw PlainError
  end.

Definition pad2 (z : Z) : jsstr :=
  if z <? 10 then "0"%char :: num_to_string 10 z else num_to_string 10 z.

(** The loop [while nanos % 10 == 0]. *)
Definition strip_step (nanos : Z) : Z + Z :=
  if Z.rem nanos 10 =? 0 then inl (Z.quot nanos 10) else inr nanos.

(** The fraction [Display] prints for a positive nanosecond; an [i64] has less
    than 63 trailing zeros. *)
Definition fraction_text (nanosecond : Z) : jsstr :=
  let zeros := length (num_to_string 10 nanosecond) in
  match js_while 63 strip_step nanosecond with
  | inr nanos => "."%char :: replicate (9 - zeros) "0"%char ++ num_to_string 10 nanos
  | inl _ => []
  end.

(** [fmt] *)
Definition LocalTime_toString (x : LocalTime) : jsstr :=
  pad2 (lt_hour x) ++ ":"%char :: pad2 (lt_minute x) ++ ":"%char :: pad2 (lt_second x) ++
  (if 0 <? lt_nanosecond x then fraction_text (lt_nanosecond x) else []).

(** ** The class *)

(** The pattern of [fromString]: hours up to 24, minutes and seconds up to 59
    of one or two digits each, and a fraction of one to nine digits. *)
Definition hour_text (w : jsstr) : bool :=
  match w with
  | [c] => is_digit c
  | [a; b] => (digit_between 0 1 a && is_digit b) || (digit_between 2 2 a && digit_between 0 4 b)
  | _ => false
  end.

Definition sixty_text (w : jsstr) : bool :=
  match w with
  | [c] => is_digit c
  | [a; b] => digit_between 0 5 a && is_digit b
  | _ => false
  end.

Definition fraction_matches (s : jsstr) : bool :=
  match s with
  | [] => true
  | c :: f =>
      bool_decide (c = "."%char) && forallb is_digit f && (1 <=? length f)%nat && (length f <=? 9)%nat
  end.

Definition time_regex_test (s : jsstr) : bool :=
  let '(h, r) := span is_digit s in
  match r with
  | c :: r =>
      let '(m, r) := span is_digit r in
      match r with
      | d :: r =>
          let '(sec, r) := span is_digit r in
          bool_decide (c = ":"%char) && bool_decide (d = ":"%char) &&
          hour_text h && sixty_text m && sixty_text sec && fraction_matches r
      | [] => false
      end
  | [] => false
  end.

Section LocalTime_class.
Context `{LongLib}.

Definition maxNanos : Long := Long_fromString (str "86399999999999").
Definition nanoSecInMillis : Long := Long_fromNumber 1000000.

(** The constructor with a Long. *)
Definition LocalTime_new (totalNanoseconds : Long) : result LocalTime :=
  if Long_lessThan totalNanoseconds Long_ZERO || Long_greaterThan totalNanoseconds maxNanos
  then Throw TypeError
  else LocalTimeWrapper_new (longToBigint totalNanoseconds).

Definition LocalTime_fromString (value : jsstr) : result LocalTime :=
  if negb (time_regex_test value) then Throw TypeError
  else v ← LocalTimeWrapper_fromString value; LocalTime_new (bigintToLong v).

(** Both Numbers hold integers; a [nanoseconds] that is not a Number is 0. *)
Definition LocalTime_fromMilliseconds (milliseconds : Z) (nanoseconds : option Z) : result LocalTime :=
  let nanoseconds := default 0 nanoseconds in
  LocalTime_new (Long_add (Long_mul (Long_fromNumber milliseconds) nanoSecInMillis)
                          (Long_fromNumber nanoseconds)).

Definition millisInDay : Z := 86400000.

(** [fromDate] of a valid Date, given by its time and offset, and [now]. *)
Definition LocalTime_fromDate (date : Z * Z) (nanoseconds : option Z) : result LocalTime :=
  let '(time, timezoneOffset) := date in
  LocalTime_fromMilliseconds (Z.rem (time + timezoneOffset * -60000) millisInDay) nanoseconds.

Definition LocalTime_now (clock : Z * Z) (nanoseconds : option Z) : result LocalTime :=
  LocalTime_fromDate clock nanoseconds.

Definition LocalTime_fromBuffer (value : list Z) : result LocalTime :=
  low ← readInt 4 value 4; high ← readInt 4 value 0; LocalTime_new (Long_fromBits low high false).

Definition LocalTime_getTotalNanoseconds (x : LocalTime) : Long := bigintToLong (lt_value x).

Definition LocalTime_toBuffer (x : LocalTime) : result (list Z) :=
  high ← writeUInt 4 (Long_getHighBitsUnsigned (LocalTime_getTotalNanoseconds x));
  low ← writeUInt 4 (Long_getLowBitsUnsigned (LocalTime_getTotalNanoseconds x));
  Ok (high ++ low).

Definition LocalTime_compare (x other : LocalTime) : Z :=
  Long_compare (LocalTime_getTotalNanoseconds x) (LocalTime_getTotalNanoseconds other).

Definition LocalTime_equals (x other : LocalTime) : bool := LocalTime_compare x other =? 0.
End LocalTime_class.

Example LocalTime_ex :
  (LocalTime_toString <$> LocalTime_fromString (str "9:05:7.0012")) = Ok (str "09:05:07.0012") /\
  LocalTime_fromString (str "24:00:00") = Throw TypeError /\
  (LocalTime_toString <$> LocalTime_fromString (str "23:59:59")) = Ok (str "23:59:59").
Proof. vm_compute. auto. Qed.

From S2P Require Import LocalDateTheorems.

(** Theorems about [LocalTime]: range and fields, text and bytes. *)

(** The number of nanoseconds in a day. *)
Definition day_nanos : Z := 86400000000000.

Definition time_in_range (v : Z) : bool := (0 <=? v) && (v <? day_nanos).

Section range.
Context `{LongLaws}.

Lemma maxNanos_val : long_val maxNanos = day_nanos - 1 /\ long_unsigned maxNanos = false.
Proof.
  unfold maxNanos. change (str "86399999999999") with (num_to_string 10 (day_nanos - 1)).
  apply long_fromString_val. unfold is_int64, day_nanos. lia.
Qed.

(** The constructor on a signed Long. *)
Lemma LocalTime_new_spec x :
  long_unsigned x = false ->
  LocalTime_new x =
    if time_in_range (long_val x) then Ok (convert_to_object (long_val x)) else Throw TypeError.
Proof.
  intros Hx. unfold LocalTime_new, Long_lessThan, Long_greaterThan, time_in_range.
  destruct maxNanos_val as [Vm Um]. destruct Long_ZERO_bits as [Zb Zu].
  rewrite !long_compare_val by congruence. rewrite Vm.
  rewrite (long_val_signed Long_ZERO), Zb by done. change (signed64 0) with 0.
  rewrite longToBigint_spec by done. pose proof (long_val_range x Hx) as Hr.
  unfold LocalTimeWrapper_new, bigint_to_i64, is_int64 in *.
  destruct (Z.leb_spec 0 (long_val x)), (Z.ltb_spec (long_val x) day_nanos),
    (Z.ltb_spec (Z.sgn (long_val x - 0)) 0), (Z.ltb_spec 0 (Z.sgn (long_val x - (day_nanos - 1))));
    cbn [andb orb]; try done; try lia.
  destruct (Z.leb_spec (- 2 ^ 63) (long_val x)), (Z.ltb_spec (long_val x) (2 ^ 63)); try lia. done.
Qed.

Lemma LocalTime_new_bigint v :
  is_int64 v ->
  LocalTime_new (bigintToLong v) =
    if time_in_range v then Ok (convert_to_object v) else Throw TypeError.
Proof.
  intros Hv. destruct (bigintToLong_spec v Hv) as [E U]. by rewrite LocalTime_new_spec, E.
Qed.
End range.

(** ** Text *)

Lemma is_digit_char c : is_digit c = true -> exists d, c = digit_char d /\ 0 <= d < 10.
Proof.
  unfold is_digit. intros [H1%Z.leb_le H2%Z.leb_le]%andb_prop. exists (code c - 48). split; [|lia].
  unfold digit_char. destruct (Z.ltb_spec (code c - 48) 10); [|lia].
  replace (48 + (code c - 48)) with (code c) by lia. unfold chr, code.
  by rewrite N2Z.id, ascii_N_embedding.
Qed.

Definition digit_string (w : jsstr) : Prop := Forall (fun c => is_digit c = true) w.

Lemma digit_string_text w : digit_string w -> w <> [] -> digit_text w (digits_number w).
Proof.
  intros Hw Hne. assert (exists ds, w = map digit_char ds /\ digits_in 10 ds) as (ds & E & D).
  { clear Hne. induction Hw as [|c w Hc _ (ds & -> & D)]; [by exists []; split; [|constructor]|].
    destruct (is_digit_char c Hc) as (d & -> & Hd). exists (d :: ds). split; [done|]. by constructor. }
  assert (Hds : ds <> []) by (intros ->; by subst).
  assert (T : digit_text w (be_val 10 ds)) by (exists ds; done).
  by destruct (digit_text_facts _ _ T) as (_ & _ & -> & _).
Qed.

Lemma digit_text_bound w v : digit_text w v -> 0 <= v < 10 ^ Z.of_nat (length w).
Proof. intros (ds & -> & D & <- & _). rewrite length_map. apply be_val_bound; [lia|done]. Qed.

Lemma parse_i64_digits w v : digit_text w v -> (length w <= 18)%nat -> parse_i64 w = Some v.
Proof.
  intros Hw Hl. apply parse_int_digits; [done|]. pose proof (digit_text_bound w v Hw) as Hb.
  pose proof (Z.pow_le_mono_r 10 (Z.of_nat (length w)) 18 ltac:(lia) ltac:(lia)). lia.
Qed.

Lemma not_digit_forall c w : is_digit c = false -> digit_string w -> Forall (fun d => d <> c) w.
Proof. intros Hc Hw. eapply Forall_impl; [exact Hw|]. cbn. intros d Hd ->. congruence. Qed.

Lemma colon_not_digit : is_digit ":"%char = false. Proof. done. Qed.
Lemma dot_not_digit : is_digit "."%char = false. Proof. done. Qed.

(** A time of the given parts; [f] is the fraction, if there is one. *)
Definition fraction_suffix (f : option jsstr) : jsstr := match f with Some f => "."%char :: f | None => [] end.

Definition time_text (h m s : jsstr) (f : option jsstr) : jsstr :=
  h ++ ":"%char :: m ++ ":"%char :: s ++ fraction_suffix f.

Definition fraction_ok (f : jsstr) : Prop := digit_string f /\ (1 <= length f <= 9)%nat.

Definition fraction_nanos (f : option jsstr) : Z :=
  match f with Some f => digits_number f * 10 ^ (9 - Z.of_nat (length f)) | None => 0 end.

Definition time_nanos (h m s : jsstr) (f : option jsstr) : Z :=
  ((digits_number h * 60 + digits_number m) * 60 + digits_number s) * NANO_SEC_IN_SEC + fraction_nanos f.

(** The pattern on a text of these parts. *)
Lemma time_regex_parts h m s f :
  digit_string h -> digit_string m -> digit_string s -> (forall w, f = Some w -> fraction_ok w) ->
  time_regex_test (time_text h m s f) = hour_text h && sixty_text m && sixty_text s.
Proof.
  intros Hh Hm Hs Hf. unfold time_regex_test, time_text.
  rewrite span_app by done. rewrite span_app by done.
  assert (Hstop : stops is_digit (fraction_suffix f)) by (by destruct f).
  rewrite span_app by done. rewrite !bool_decide_true by done. cbn [andb].
  assert (E : fraction_matches (fraction_suffix f) = true).
  { destruct f as [w|]; [|done]. destruct (Hf w eq_refl) as [Hw Hl]. cbn.
    assert (forallb is_digit w = true) as -> by (rewrite forallb_forall; by apply List.Forall_forall).
    cbn [andb]. destruct (length w) as [|n]; [lia|]. by destruct (Nat.leb_spec (S n) 9); [|lia]. }
  rewrite E, andb_true_r. done.
Qed.

Lemma hour_text_length h : hour_text h = true -> h <> [] /\ (length h <= 2)%nat.
Proof. destruct h as [|a [|b [|c h]]]; cbn; (done || (intros _; split; [done|lia])). Qed.

Lemma sixty_text_length h : sixty_text h = true -> h <> [] /\ (length h <= 2)%nat.
Proof. destruct h as [|a [|b [|c h]]]; cbn; (done || (intros _; split; [done|lia])). Qed.

Lemma split_on_fraction s f :
  digit_string s -> (forall w, f = Some w -> fraction_ok w) ->
  split_on "."%char (s ++ fraction_suffix f) = match f with Some w => [s; w] | None => [s] end.
Proof.
  intros Hs Hf. pose proof (not_digit_forall _ _ dot_not_digit Hs) as Hs'.
  destruct f as [w|]; cbn [fraction_suffix]; [|rewrite app_nil_r; by apply split_on_word].
  rewrite split_on_app by done. rewrite split_on_word; [done|].
  apply (not_digit_forall _ _ dot_not_digit). by destruct (Hf w eq_refl).
Qed.

Lemma parse_seconds_parts s f :
  digit_string s -> s <> [] -> (length s <= 2)%nat -> (forall w, f = Some w -> fraction_ok w) ->
  parse_seconds (s ++ fraction_suffix f) = Some (digits_number s, fraction_nanos f).
Proof.
  intros Hs Hne Hl Hf. unfold parse_seconds. rewrite split_on_fraction by done.
  assert (E : parse_i64 s = Some (digits_number s)) by (apply parse_i64_digits; [by apply digit_string_text|lia]).
  destruct f as [w|]; cbv iota beta zeta; rewrite E; [|done].
  destruct (Hf w eq_refl) as [Hw [H1 H2]]. cbn.
  rewrite (parse_i64_digits w (digits_number w)); [done| |lia].
  apply digit_string_text; [done|]. intros ->. cbn in *. lia.
Qed.

Lemma wrapper_fromString_parts h m s f :
  digit_string h -> digit_string m -> digit_string s -> (forall w, f = Some w -> fraction_ok w) ->
  hour_text h && sixty_text m && sixty_text s = true ->
  LocalTimeWrapper_fromString (time_text h m s f) = Ok (time_nanos h m s f).
Proof.
  intros Hh Hm Hs Hf [[Th Tm]%andb_prop Ts]%andb_prop.
  apply hour_text_length in Th as [Nh Lh]. apply sixty_text_length in Tm as [Nm Lm], Ts as [Ns Ls].
  unfold LocalTimeWrapper_fromString, time_text.
  assert (Hc : Forall (fun d => d <> ":"%char) (s ++ fraction_suffix f)).
  { apply Forall_app. split; [by apply (not_digit_forall _ _ colon_not_digit)|].
    destruct f as [w|]; [|constructor]. constructor; [done|].
    apply (not_digit_forall _ _ colon_not_digit). by destruct (Hf w eq_refl). }
  rewrite split_on_app by by apply (not_digit_forall _ _ colon_not_digit).
  rewrite split_on_app by by apply (not_digit_forall _ _ colon_not_digit).
  rewrite split_on_word by done.
  rewrite (parse_i64_digits h (digits_number h)) by (by apply digit_string_text || lia).
  rewrite (parse_i64_digits m (digits_number m)) by (by apply digit_string_text || lia).
  rewrite parse_seconds_parts by done. cbn. unfold time_nanos, NANO_SEC_IN_SEC,
    MILLIS_SEC_IN_HOUR, MILLIS_SEC_IN_MIN, MILLIS_SEC_IN_SEC, NANO_SEC_IN_MILLIS. f_equal. ring.
Qed.

(** The parts are small, so that their sum is a 64-bit integer. *)
Lemma time_nanos_range h m s f :
  digit_string h -> digit_string m -> digit_string s -> (forall w, f = Some w -> fraction_ok w) ->
  hour_text h && sixty_text m && sixty_text s = true ->
  0 <= time_nanos h m s f < 2 ^ 60.
Proof.
  intros Hh Hm Hs Hf [[Th Tm]%andb_prop Ts]%andb_prop.
  apply hour_text_length in Th as [Nh Lh]. apply sixty_text_length in Tm as [Nm Lm], Ts as [Ns Ls].
  assert (B : forall w, digit_string w -> w <> [] -> (length w <= 2)%nat -> 0 <= digits_number w < 100).
  { intros w Hw Nw Lw. pose proof (digit_text_bound _ _ (digit_string_text w Hw Nw)).
    pose proof (Z.pow_le_mono_r 10 (Z.of_nat (length w)) 2 ltac:(lia) ltac:(lia)). lia. }
  pose proof (B h Hh Nh Lh). pose proof (B m Hm Nm Lm). pose proof (B s Hs Ns Ls).
  assert (0 <= fraction_nanos f < 10 ^ 9).
  { destruct f as [w|]; cbn [fraction_nanos]; [|lia]. destruct (Hf w eq_refl) as [Hw [H4 H5]].
    assert (Nw : w <> []) by (intros ->; cbn in *; lia).
    pose proof (digit_text_bound _ _ (digit_string_text w Hw Nw)) as Hb.
    assert (E : 10 ^ 9 = 10 ^ Z.of_nat (length w) * 10 ^ (9 - Z.of_nat (length w))).
    { rewrite <- Z.pow_add_r by lia. f_equal. lia. }
    pose proof (Z.pow_pos_nonneg 10 (9 - Z.of_nat (length w)) ltac:(lia) ltac:(lia)). rewrite E. nia. }
  unfold time_nanos, NANO_SEC_IN_SEC. lia.
Qed.

(** ** Printing *)

Lemma pad2_text z :
  0 <= z < 60 ->
  digit_string (pad2 z) /\ sixty_text (pad2 z) = true /\ digits_number (pad2 z) = z /\
  (z < 24 -> hour_text (pad2 z) = true).
Proof.
  intros Hz. assert (H : forallb (fun z => forallb is_digit (pad2 z) && sixty_text (pad2 z) &&
      (digits_number (pad2 z) =? z) && ((24 <=? z) || hour_text (pad2 z))) (seqZ 0 60) = true)
    by (vm_compute; reflexivity).
  rewrite forallb_forall in H. specialize (H z ltac:(apply list_elem_of_In, elem_of_seqZ; lia)).
  apply andb_prop in H as [[[H1 H2]%andb_prop H3%Z.eqb_eq]%andb_prop H4].
  split_and!; [|done|done|].
  - rewrite forallb_forall in H1. by apply List.Forall_forall.
  - intros Hl. destruct (Z.leb_spec 24 z); [lia|done].
Qed.

(** The loop removes exactly the trailing zeros. *)
Lemma strip_zeros n :
  0 < n < 10 ^ 9 -> exists q k, js_while 63 strip_step n = inr q /\ 0 < q /\ n = q * 10 ^ Z.of_nat k.
Proof.
  intros Hn.
  destruct (js_while_total strip_step (fun a => 0 < a /\ exists k, n = a * 10 ^ Z.of_nat k)
    (fun q => 0 < q /\ exists k, n = q * 10 ^ Z.of_nat k) (fun a => Z.log2 a) 63 n)
    as (q & E & Hq & k & Ek).
  - intros a (Ha & k & Ek). unfold strip_step. destruct (Z.eqb_spec (Z.rem a 10) 0) as [Hr|Hr]; [|by eauto].
    pose proof (Z.quot_rem' a 10). split; [split; [lia|]|].
    + exists (S k). rewrite Nat2Z.inj_succ, Z.pow_succ_r by lia. rewrite Ek. nia.
    + split; [apply Z.log2_nonneg|]. replace a with (2 * (5 * Z.quot a 10)) at 2 by lia.
      rewrite Z.log2_double by lia. pose proof (Z.log2_le_mono (Z.quot a 10) (5 * Z.quot a 10)). lia.
  - split; [lia|]. exists O. cbn. lia.
  - apply Z.log2_lt_pow2; lia.
  - by exists q, k.
Qed.

Lemma length_num_to_string_shift q k :
  0 < q -> length (num_to_string 10 (q * 10 ^ Z.of_nat k)) = (length (num_to_string 10 q) + k)%nat.
Proof.
  intros Hq. destruct k as [|k]; [cbn; rewrite Z.mul_1_r; lia|].
  pose proof (Z.pow_pos_nonneg 10 (Z.of_nat (S k)) ltac:(lia) ltac:(lia)).
  rewrite <- (Z.add_0_r (q * _)), num_to_string_app by lia.
  rewrite !length_app, length_replicate. change (length (num_to_string 10 0)) with 1%nat. lia.
Qed.

Lemma length_num_to_string_bound n k :
  0 < n < 10 ^ Z.of_nat k -> (length (num_to_string 10 n) <= k)%nat.
Proof.
  intros Hn. rewrite num_to_string_pos, length_map, length_rev by lia.
  destruct (num_digits_spec 10 n ltac:(lia) ltac:(lia)) as (V & D & L).
  apply (le_val_length 10); [done|done|done|lia].
Qed.

Lemma fraction_text_spec n :
  0 < n < 10 ^ 9 ->
  exists w, fraction_text n = fraction_suffix (Some w) /\ fraction_ok w /\ fraction_nanos (Some w) = n.
Proof.
  intros Hn. destruct (strip_zeros n Hn) as (q & k & E & Hq & Ek). unfold fraction_text. rewrite E.
  assert (L : length (num_to_string 10 n) = (length (num_to_string 10 q) + k)%nat)
    by (rewrite Ek; by apply length_num_to_string_shift).
  pose proof (length_num_to_string_bound n 9 Hn) as Hl. rewrite L in *.
  pose proof (digit_text_zeros (9 - (length (num_to_string 10 q) + k)) _ _ (digit_text_number q ltac:(lia))) as T.
  destruct (digit_text_facts _ _ T) as (F & _ & V & N & _).
  destruct (digit_text_facts _ _ (digit_text_number q ltac:(lia))) as (_ & _ & _ & Nq & _).
  destruct (num_to_string 10 q) as [|c w] eqn:Eq; [done|]. cbn [length] in *.
  eexists. split; [reflexivity|]. split; [split; [exact F|]|].
  - rewrite length_app, length_replicate. cbn [length]. lia.
  - cbn [fraction_nanos]. rewrite V, length_app, length_replicate. cbn [length]. rewrite Ek. f_equal. f_equal. lia.
Qed.

(** The parts of a time of the day, and the text they print as. *)
Lemma convert_to_object_parts v :
  time_in_range v = true ->
  let x := convert_to_object v in
  0 <= lt_hour x < 24 /\ 0 <= lt_minute x < 60 /\ 0 <= lt_second x < 60 /\ 0 <= lt_nanosecond x < 10 ^ 9 /\
  v = ((lt_hour x * 60 + lt_minute x) * 60 + lt_second x) * NANO_SEC_IN_SEC + lt_nanosecond x.
Proof.
  unfold time_in_range, day_nanos. intros [H1%Z.leb_le H2%Z.ltb_lt]%andb_prop.
  unfold convert_to_object, NANO_SEC_IN_SEC. cbn [lt_hour lt_minute lt_second lt_nanosecond]. div_lia.
Qed.

Lemma toString_parts v :
  time_in_range v = true ->
  exists h m s f, LocalTime_toString (convert_to_object v) = time_text h m s f /\
    digit_string h /\ digit_string m /\ digit_string s /\ (forall w, f = Some w -> fraction_ok w) /\
    hour_text h && sixty_text m && sixty_text s = true /\ time_nanos h m s f = v.
Proof.
  intros Hv. pose proof (convert_to_object_parts v Hv) as (Hh & Hm & Hs & Hn & Ev). cbv zeta in Ev.
  destruct (pad2_text (lt_hour (convert_to_object v)) ltac:(lia)) as (H1 & _ & V1 & T1).
  destruct (pad2_text _ Hm) as (H2 & T2 & V2 & _). destruct (pad2_text _ Hs) as (H3 & T3 & V3 & _).
  assert (exists f, (if 0 <? lt_nanosecond (convert_to_object v) then fraction_text (lt_nanosecond (convert_to_object v))
      else []) = fraction_suffix f /\ (forall w, f = Some w -> fraction_ok w) /\
      fraction_nanos f = lt_nanosecond (convert_to_object v)) as (f & Ef & Hf & Vf).
  { destruct (Z.ltb_spec 0 (lt_nanosecond (convert_to_object v))) as [Hp|Hp].
    - destruct (fraction_text_spec _ (conj Hp (proj2 Hn))) as (w & -> & Hw & V). exists (Some w).
      split; [done|]. split; [|done]. by intros ? [= <-].
    - exists None. split; [done|]. split; [done|]. cbn [fraction_nanos]. lia. }
  eexists _, _, _, f. split; [unfold LocalTime_toString, time_text; rewrite Ef; reflexivity|].
  rewrite T1, T2, T3 by lia. split_and!; try done. unfold time_nanos. rewrite V1, V2, V3, Vf. lia.
Qed.

Lemma LocalTime_fromString_parts `{LongLaws} h m s f :
  digit_string h -> digit_string m -> digit_string s -> (forall w, f = Some w -> fraction_ok w) ->
  LocalTime_fromString (time_text h m s f) =
    if hour_text h && sixty_text m && sixty_text s && (time_nanos h m s f <? day_nanos)
    then Ok (convert_to_object (time_nanos h m s f)) else Throw TypeError.
Proof.
  intros Hh Hm Hs Hf. unfold LocalTime_fromString. rewrite time_regex_parts by done.
  destruct (hour_text h && sixty_text m && sixty_text s) eqn:E; cbn [negb andb]; [|done].
  rewrite wrapper_fromString_parts by done. cbn [mbind result_bind].
  pose proof (time_nanos_range h m s f Hh Hm Hs Hf E) as Hr.
  rewrite LocalTime_new_bigint by (unfold is_int64; lia). unfold time_in_range.
  destruct (Z.leb_spec 0 (time_nanos h m s f)); [done|lia].
Qed.

Lemma time_in_range_bounds v : time_in_range v = true -> 0 <= v < day_nanos /\ is_int64 v.
Proof.
  unfold time_in_range, day_nanos, is_int64. intros [H1%Z.leb_le H2%Z.ltb_lt]%andb_prop. lia.
Qed.

Lemma LocalTime_toBuffer_bytes `{LongLaws} v :
  time_in_range v = true ->
  LocalTime_toBuffer (convert_to_object v) = Ok (be_bytes 4 (v / 2 ^ 32) ++ be_bytes 4 (v mod 2 ^ 32)).
Proof.
  intros Hv. destruct (time_in_range_bounds v Hv) as [Hr Hi]. unfold day_nanos in Hr.
  destruct (bigintToLong_spec v Hi) as [Ev Uv].
  assert (Bv : long_bits (bigintToLong v) = v).
  { rewrite <- long_val_bits, Ev. apply Z.mod_small. lia. }
  unfold LocalTime_toBuffer, LocalTime_getTotalNanoseconds. cbn [lt_value convert_to_object].
  rewrite long_getHighBitsUnsigned_eq, long_getLowBitsUnsigned_eq, Bv.
  pose proof (Z.mod_pos_bound v (2 ^ 32) ltac:(lia)).
  assert (0 <= v / 2 ^ 32 < 2 ^ 31) by div_lia.
  rewrite !writeUInt_small by (change (8 * Z.of_nat 4) with 32; lia). done.
Qed.

Lemma LocalTime_buffer_read `{LongLaws} v :
  time_in_range v = true ->
  exists b, LocalTime_toBuffer (convert_to_object v) = Ok b /\ length b = 8%nat /\
    LocalTime_fromBuffer b = Ok (convert_to_object v).
Proof.
  intros Hv. destruct (time_in_range_bounds v Hv) as [Hr Hi]. unfold day_nanos in Hr.
  pose proof (Z.mod_pos_bound v (2 ^ 32) ltac:(lia)).
  assert (0 <= v / 2 ^ 32 < 2 ^ 31) by div_lia.
  eexists. split; [by apply LocalTime_toBuffer_bytes|]. split; [by rewrite length_app, !length_be_bytes|].
  unfold LocalTime_fromBuffer, readInt.
  assert (W : forall z, 0 <= z < 2 ^ 32 -> writeUInt 4 z = Ok (be_bytes 4 z)) by apply (writeUInt_small 4).
  pose proof (readUInt_writeUInt 4 _ _ (be_bytes 4 (v / 2 ^ 32)) [] (W (v mod 2 ^ 32) ltac:(lia))) as R1.
  pose proof (readUInt_writeUInt 4 _ _ [] (be_bytes 4 (v mod 2 ^ 32)) (W (v / 2 ^ 32) ltac:(lia))) as R2.
  rewrite app_nil_r, length_be_bytes in R1. cbn [app length] in R2.
  rewrite R1, R2. cbn [fmap result_fmap mbind result_bind].
  rewrite LocalTime_new_spec by apply long_fromBits_unsigned.
  rewrite (long_val_of_bits _ v); [by rewrite Hv|apply long_fromBits_unsigned| |done].
  rewrite long_fromBits_bits. unfold to_signed, to_uint32. change (8 * Z.of_nat 4) with 32.
  destruct (Z.ltb_spec (v mod 2 ^ 32) (2 ^ (32 - 1))), (Z.ltb_spec (v / 2 ^ 32) (2 ^ (32 - 1))); div_lia.
Qed.

(** ** Theorems *)

(** Every signed Long from 0 to the last nanosecond of the day is
    accepted and no other; the fields are the parts of the time and determine
    it. *)
Theorem LocalTime_new_fields `{LongLaws} (x : Long) (Hx : long_unsigned x = false) :
  LocalTime_new x =
    (if time_in_range (long_val x) then Ok (convert_to_object (long_val x)) else Throw TypeError) /\
  (time_in_range (long_val x) = true ->
   let t := convert_to_object (long_val x) in
   0 <= lt_hour t < 24 /\ 0 <= lt_minute t < 60 /\ 0 <= lt_second t < 60 /\
   0 <= lt_nanosecond t < 1000000000 /\
   lt_value t = ((lt_hour t * 60 + lt_minute t) * 60 + lt_second t) * 1000000000 + lt_nanosecond t).
Proof. split; [by apply LocalTime_new_spec|]. apply convert_to_object_parts. Qed.

Lemma LocalTime_new_fields_witness :
  LocalTime_new (l64 86399999999999 false : @Long LongModel) = Ok (mkTime 86399999999999 23 59 59 999999999).
Proof. rewrite (proj1 (LocalTime_new_fields (l64 86399999999999 false : @Long LongModel) eq_refl)). vm_compute. reflexivity. Defined.

(** A text of an hour, a minute, a second and an optional
    fraction of up to nine digits is read as the nanoseconds they stand for;
    it is a TypeError when a part is not in the pattern or, like 24:00:00,
    when it is past the day.  The text of a time is read back as the same
    time. *)
Theorem LocalTime_text `{LongLaws} (h m s : jsstr) (f : option jsstr) (v : Z)
    (Hh : digit_string h) (Hm : digit_string m) (Hs : digit_string s)
    (Hf : forall w, f = Some w -> fraction_ok w) (Hv : time_in_range v = true) :
  LocalTime_fromString (time_text h m s f) =
    (if hour_text h && sixty_text m && sixty_text s && (time_nanos h m s f <? day_nanos)
     then Ok (convert_to_object (time_nanos h m s f)) else Throw TypeError) /\
  LocalTime_fromString (LocalTime_toString (convert_to_object v)) = Ok (convert_to_object v).
Proof.
  split; [by apply LocalTime_fromString_parts|].
  destruct (toString_parts v Hv) as (h' & m' & s' & f' & -> & Dh & Dm & Ds & Df & T & V).
  rewrite LocalTime_fromString_parts by done. rewrite T, V. unfold time_in_range in Hv. apply andb_prop in Hv as [_ ->]. done.
Qed.

Lemma LocalTime_text_witness :
  LocalTime_fromString (time_text (str "24") (str "0") (str "00") (Some (str "5"))) = Throw TypeError /\
  LocalTime_fromString (LocalTime_toString (convert_to_object 34507001200000)) = Ok (convert_to_object 34507001200000).
Proof.
  apply (LocalTime_text (str "24") (str "0") (str "00") (Some (str "5")) 34507001200000).
  1-3: repeat constructor.
  - intros w [= <-]. split; [repeat constructor|cbn; lia].
  - reflexivity.
Defined.

(** The eight bytes of a time are read back as the same time;
    [compare] and [equals] follow the nanoseconds; milliseconds of a day and
    nanoseconds are added up, and rejected when the sum leaves the day. *)
Theorem LocalTime_conversions `{LongLaws} (v w ms ns : Z)
    (Hv : time_in_range v = true) (Hw : time_in_range w = true)
    (Hms : -1000000000 <= ms <= 1000000000) (Hns : - 2 ^ 53 <= ns <= 2 ^ 53) :
  let x := convert_to_object v in
  let y := convert_to_object w in
  (exists b, LocalTime_toBuffer x = Ok b /\ length b = 8%nat /\ LocalTime_fromBuffer b = Ok x) /\
  LocalTime_compare x y = Z.sgn (v - w) /\
  (LocalTime_equals x y = true <-> x = y) /\
  LocalTime_fromMilliseconds ms (Some ns) =
    (if time_in_range (ms * 1000000 + ns) then Ok (convert_to_object (ms * 1000000 + ns)) else Throw TypeError).
Proof.
  cbv zeta. pose proof Hv as Hv'. pose proof Hw as Hw'. unfold time_in_range, day_nanos in Hv', Hw'.
  apply andb_prop in Hv' as [V1%Z.leb_le V2%Z.ltb_lt], Hw' as [W1%Z.leb_le W2%Z.ltb_lt].
  assert (Iv : is_int64 v) by (unfold is_int64; lia). assert (Iw : is_int64 w) by (unfold is_int64; lia).
  destruct (bigintToLong_spec v Iv) as [Ev Uv]. destruct (bigintToLong_spec w Iw) as [Ew Uw].
  assert (C : LocalTime_compare (convert_to_object v) (convert_to_object w) = Z.sgn (v - w)).
  { unfold LocalTime_compare, LocalTime_getTotalNanoseconds. cbn [lt_value convert_to_object].
    rewrite long_compare_val by congruence. by rewrite Ev, Ew. }
  split; [|split; [exact C|split]].
  - by apply LocalTime_buffer_read.
  - unfold LocalTime_equals. rewrite C, Z.eqb_eq. split.
    + intros E. assert (v = w) as -> by lia. done.
    + intros [=]. lia.
  - unfold LocalTime_fromMilliseconds, nanoSecInMillis. change (default 0 (Some ns)) with ns. cbv zeta.
    destruct (long_fromNumber_val ms ltac:(lia)) as [Em Um].
    destruct (long_fromNumber_val 1000000 ltac:(lia)) as [E6 U6].
    destruct (long_fromNumber_val ns Hns) as [En Un].
    destruct (long_mul_val (Long_fromNumber ms) (Long_fromNumber 1000000) (ms * 1000000) Um) as [E1 U1].
    { by rewrite Em, E6. } { unfold is_int64. lia. }
    destruct (long_add_val _ (Long_fromNumber ns) (ms * 1000000 + ns) U1) as [E2 U2].
    { by rewrite E1, En. } { unfold is_int64. lia. }
    rewrite LocalTime_new_spec by done. by rewrite E2.
Qed.

Lemma LocalTime_conversions_witness :
  LocalTime_fromMilliseconds 86399999 (Some 1000000) = Throw TypeError.
Proof.
  rewrite (proj2 (proj2 (proj2 (LocalTime_conversions 5 7 86399999 1000000 eq_refl eq_refl ltac:(lia) ltac:(lia))))).
  reflexivity.
Defined.
