(* ===== verification/Utils.v ===== *)
(** The data-structure helpers of [lib/utils.js]: binary search and sorted
    insertion, the shuffle, [HashSet], objects used as maps, and the adaptation
    of named parameters.  The vint coding is in VInt. *)
From stdpp Require Import gmap.
From S2P Require Import Prelude.
From S2P Require Import JsNum.
From S2P Require Import JsStr.
From S2P Require Import JsFloat.

Definition utils_maxInt : Z := 9007199254740992.

(** ** Arrays *)

Section arrays.
Context {A K : Type}.

(** One round of the loop of [binarySearch] on [low] and [high]. *)
Definition binarySearch_step (arr : list A) (key : K) (compareFunc : A -> K -> Z)
    (s : Z * Z) : (Z * Z) + Z :=
  let '(low, high) := s in
  if low <=? high then
    let mid := (low + high) .>>> 1 in
    match arr !! Z.to_nat mid with
    | None => inr (.~ low)
    | Some midVal =>
        let cmp := compareFunc midVal key in
        if cmp <? 0 then inl (mid + 1, high)
        else if 0 <? cmp then inl (low, mid - 1)
        else inr mid
    end
  else inr (.~ low).

(** The bound on the rounds is the length of the array and one. *)
Definition binarySearch (arr : list A) (key : K) (compareFunc : A -> K -> Z) : result Z :=
  let n := Z.of_nat (length arr) in
  match js_while (Z.to_pos (n + 2)) (binarySearch_step arr key compareFunc) (0, n - 1) with
  | inr r => Ok r
  | inl _ => Throw OutOfFuel
  end.
End arrays.

(** [arr.splice(position, 0, item)] *)
Definition splice_in {A} (position : nat) (item : A) (arr : list A) : list A :=
  take position arr ++ item :: drop position arr.

Definition insertSorted {A} (arr : list A) (item : A) (compareFunc : A -> A -> Z) : result (list A) :=
  match arr with
  | [] => Ok [item]
  | _ =>
      position ← binarySearch arr item compareFunc;
      let position := if position <? 0 then .~ position else position in
      Ok (splice_in (Z.to_nat position) item arr)
  end.

(** [Math.floor(Math.random() * n)] *)
Definition random_index (rnd : dyadic) (n : Z) : Z := fl_floor (fl_mul rnd (n, 0%N)).

(** [const temp = arr[i]; arr[i] = arr[j]; arr[j] = temp] *)
Definition swap {A} (arr : list A) (i j : nat) : list A :=
  match arr !! i, arr !! j with
  | Some x, Some y => <[j := x]> (<[i := y]> arr)
  | _, _ => arr
  end.

(** The loop from [i] down to 1; one random number per round. *)
Fixpoint shuffle_loop {A} (i : nat) (rnds : list dyadic) (arr : list A) : list A :=
  match i, rnds with
  | S i', r :: rnds' =>
      let j := random_index r (Z.of_nat i + 1) in
      shuffle_loop i' rnds' (swap arr i (Z.to_nat j))
  | _, _ => arr
  end.

Definition shuffleArray {A} (arr : list A) (rnds : list dyadic) : list A :=
  shuffle_loop (length arr - 1) rnds arr.

(** [totalLength] of an array of arrays. *)
Definition totalLength {A} (arr : list (list A)) : Z :=
  match arr with
  | [a] => Z.of_nat (length a)
  | _ => foldl (fun total item => total + Z.of_nat (length item)) 0 arr
  end.

(** [iteratorToArray] of an iterator given by its [next]: [None] is done. *)
Definition iteratorToArray_step {S A} (next : S -> option A * S) (st : S * list A)
    : (S * list A) + list A :=
  let '(s, values) := st in
  match next s with
  | (Some v, s') => inl (s', values ++ [v])
  | (None, _) => inr values
  end.

Definition iteratorToArray {S A} (fuel : positive) (next : S -> option A * S) (s : S) : result (list A) :=
  match js_while fuel (iteratorToArray_step next) (s, []) with
  | inr values => Ok values
  | inl _ => Throw OutOfFuel
  end.

(** [stringRepeat(val, times)]; [None] is null. *)
Definition stringRepeat (val : jsstr) (times : Z) : option jsstr :=
  if (times =? 0) || (times <? 0) then None
  else if times =? 1 then Some val
  else Some (join val (replicate (Z.to_nat (times + 1)) [])).

(** ** [HashSet] *)

(** The keys are converted to strings, as property names are. *)
Record HashSet := mkHashSet { hs_length : Z; hs_items : gset jsstr }.

Definition HashSet_new : HashSet := mkHashSet 0 ∅.

Definition HashSet_contains (s : HashSet) (key : jsstr) : bool :=
  (0 <? hs_length s) && bool_decide (key ∈ hs_items s).

Definition HashSet_add (s : HashSet) (key : jsstr) : bool * HashSet :=
  if HashSet_contains s key then (false, s)
  else (true, mkHashSet (hs_length s + 1) ({[key]} ∪ hs_items s)).

(** [None] is undefined. *)
Definition HashSet_remove (s : HashSet) (key : jsstr) : option bool * HashSet :=
  if negb (HashSet_contains s key) then (Some false, s)
  else (None, mkHashSet (hs_length s - 1) (hs_items s ∖ {[key]})).

(** ** Objects *)

(** The own properties of an object in insertion order.  (Names that are array
    indexes would come first; no order below depends on them.) *)
Abbreviation obj V := (list (jsstr * V)).

Section objects.
Context {V : Type}.

Fixpoint obj_get (o : obj V) (k : jsstr) : option V :=
  match o with
  | [] => None
  | (k', v) :: o' => if decide (k = k') then Some v else obj_get o' k
  end.

(** [o[k] = v] *)
Fixpoint obj_set (o : obj V) (k : jsstr) (v : V) : obj V :=
  match o with
  | [] => [(k, v)]
  | (k', v') :: o' => if decide (k = k') then (k', v) :: o' else (k', v') :: obj_set o' k v
  end.

(** [extend(target, source)]: properties whose value is undefined are not
    copied; [undef] recognises them. *)
Definition extend_with (undef : V -> bool) (target source : obj V) : obj V :=
  foldl (fun t kv => if undef kv.2 then t else obj_set t kv.1 kv.2) target source.

(** [extend(target, ...sources)]; [None] is a source that is not set. *)
Definition extend (undef : V -> bool) (target : obj V) (sources : list (option (obj V))) : obj V :=
  foldl (fun t s => match s with Some s => extend_with undef t s | None => t end) target sources.

Definition toLowerCaseProperties (o : obj V) : obj V :=
  foldl (fun r kv => obj_set r (toLowerCase kv.1) kv.2) [] o.

Definition objectValues (o : option (obj V)) : list V :=
  match o with Some o => map snd o | None => [] end.

Definition ifUndefined (v1 v2 : option V) : option V :=
  match v1 with Some _ => v1 | None => v2 end.

Definition ifUndefined3 (v1 v2 v3 : option V) : option V :=
  match v1 with Some _ => v1 | None => match v2 with Some _ => v2 | None => v3 end end.
End objects.

(** ** Named parameters *)

Inductive query_params (V : Type) :=
  | NoParams
  | ArrayParams (l : list V)
  | ObjectParams (o : obj V).
Arguments NoParams {V}.
Arguments ArrayParams {V} l.
Arguments ObjectParams {V} o.

(** [columns] are the names of the columns of the prepared statement. *)
Definition adaptNamedParamsPrepared {V} (params : query_params V) (columns : option (list jsstr))
    : result (query_params V) :=
  match params, columns with
  | ObjectParams o, Some (c :: cs) =>
      let lowered := toLowerCaseProperties o in
      l ← traverse (fun name =>
            match obj_get lowered name with Some v => Ok v | None => Throw ArgumentError end) (c :: cs);
      Ok (ArrayParams l)
  | _, _ => Ok params
  end.

(** The adapted parameters, the hints to set on the execution options, and the
    indexes of the keys. *)
Record named_params (V H : Type) := mkNamed {
  np_params : list (jsstr * V);
  np_hints : list (option H);
  np_keyIndexes : obj Z }.
Arguments mkNamed {V H} _ _ _.
Arguments np_params {V H} _.
Arguments np_hints {V H} _.
Arguments np_keyIndexes {V H} _.

Definition index_keys (keys : list jsstr) : obj Z :=
  foldl (fun r ik => obj_set r ik.2 ik.1) [] (zip (seqZ 0 (Z.of_nat (length keys))) keys).

(** [inl] passes the parameters through; [userHints] are the hints of the
    execution options by name. *)
Definition adaptNamedParamsWithHints {V H} (params : query_params V) (userHints : option (obj H))
    : query_params V + named_params V H :=
  match params with
  | ObjectParams o =>
      let keys := map fst o in
      let hints := default [] userHints in
      inr (mkNamed (map (fun kv => (toLowerCase kv.1, kv.2)) o) (map (obj_get hints) keys) (index_keys keys))
  | _ => inl params
  end.

Example binarySearch_ex :
  binarySearch [1; 3; 5; 7] 5 (fun a b => a - b) = Ok 2 /\
  binarySearch [1; 3; 5; 7] 6 (fun a b => a - b) = Ok (-4) /\
  insertSorted [1; 3; 5; 7] 4 (fun a b => a - b) = Ok [1; 3; 4; 5; 7] /\
  shuffleArray [1; 2; 3] [(0, 53%N); (2 ^ 52, 53%N)] = [3; 2; 1].
Proof. vm_compute. auto. Qed.

Lemma obj_set_new {V} (o : obj V) k v : k ∉ map fst o -> obj_set o k v = o ++ [(k, v)].
Proof.
  induction o as [|[k' v'] o IH]; cbn [obj_set map fst app]; [done|].
  rewrite not_elem_of_cons. intros [Hk Ho]. rewrite decide_False by done. by rewrite IH.
Qed.

Section object_facts.
Context {V : Type}.
Implicit Types o : obj V.

Lemma obj_get_set o k v k' : obj_get (obj_set o k v) k' = if decide (k = k') then Some v else obj_get o k'.
Proof.
  induction o as [|[a b] o IH]; cbn [obj_set obj_get].
  - by destruct (decide (k' = k)), (decide (k = k')); subst.
  - destruct (decide (k = a)) as [->|Ha]; cbn [obj_get].
    + by destruct (decide (k' = a)), (decide (a = k')); subst.
    + rewrite IH. by destruct (decide (k' = a)), (decide (k = k')); subst.
Qed.

Lemma obj_get_elem o k v : obj_get o k = Some v -> (k, v) ∈ o.
Proof.
  induction o as [|[k' v'] o IH]; cbn [obj_get]; [done|].
  destruct (decide (k = k')) as [->|]; [intros [= ->]; by left|]. intros H. right. by apply IH.
Qed.

Lemma obj_get_None o k : obj_get o k = None <-> k ∉ map fst o.
Proof.
  induction o as [|[k' v'] o IH]; cbn [obj_get map fst]; [by split; [intros _; apply not_elem_of_nil|]|].
  rewrite not_elem_of_cons. destruct (decide (k = k')); naive_solver.
Qed.
End object_facts.
