(* ===== verification/JsVal.v ===== *)
(** JavaScript values as far as the options use them, and [deepExtend] of
    [lib/utils.js].

    An object is the list of its own properties; names that [Object.prototype]
    defines are not used.  An instance has the names of the classes it is an
    instance of and those of its properties that the code reads. *)
From S2P Require Import Prelude.
From S2P Require Import JsNum.
From S2P Require Import JsStr.
From S2P Require Import Uuid.
From S2P Require Import Utils.

Inductive jv :=
  | JUndef
  | JNull
  | JBool (b : bool)
  | JNum (n : number)
  | JBig (z : Z)
  | JStr (s : jsstr)
  | JBuf (bytes : list Z)
  | JLong (low high : Z)
  | JUuid (x : Uuid)
  (** A function with the methods of its property [prototype]. *)
  | JFn (methods : list jsstr)
  | JArr (l : list jv)
  | JObj (o : list (jsstr * jv))
  | JInst (classes : list jsstr) (o : list (jsstr * jv)).

Definition jnum (z : Z) : jv := JNum (Int z).
Definition jstr (s : string) : jv := JStr (str s).

Definition truthy (v : jv) : bool :=
  match v with
  | JUndef | JNull => false
  | JBool b => b
  | JNum NaN => false
  | JNum (Fin m _) => negb (m =? 0)
  | JBig z => negb (z =? 0)
  | JStr s => negb (bool_decide (s = []))
  | _ => true
  end.

Definition is_undef (v : jv) : bool := match v with JUndef => true | _ => false end.
Definition is_null (v : jv) : bool := match v with JNull => true | _ => false end.
Definition is_string (v : jv) : bool := match v with JStr _ => true | _ => false end.
Definition is_num (v : jv) : bool := match v with JNum _ => true | _ => false end.
Definition is_array (v : jv) : bool := match v with JArr _ => true | _ => false end.
Definition is_function (v : jv) : bool := match v with JFn _ => true | _ => false end.

(** [v === null || typeof v !== "object"], negated. *)
Definition is_object (v : jv) : bool :=
  match v with JBuf _ | JLong _ _ | JUuid _ | JArr _ | JObj _ | JInst _ _ => true | _ => false end.

Definition instance_of (v : jv) (class : string) : bool :=
  match v with
  | JInst classes _ => bool_decide (str class ∈ classes)
  | JUuid _ => bool_decide (class = "Uuid"%string)
  | _ => false
  end.

(** [o[k]] *)
Definition get (o : obj jv) (k : jsstr) : jv := default JUndef (obj_get o k).
Definition prop (o : obj jv) (k : string) : jv := get o (str k).

(** The own properties of a value that is not null. *)
Definition own_props (v : jv) : obj jv := match v with JObj o | JInst _ o => o | _ => [] end.

(** [v.k] *)
Definition field (v : jv) (k : string) : result jv :=
  match v with JUndef | JNull => Throw TypeError | _ => Ok (prop (own_props v) k) end.

(** ** [deepExtend] *)

(** Copies the properties of an object. *)
Definition assign_props (target source : obj jv) : obj jv := foldl (fun t kv => obj_set t kv.1 kv.2) target source.

(** The loop of [deepExtend] over one source, with the value it gives a
    property; an array and a string have their indexes as properties (those of
    a string do not name objects of the target). *)
Fixpoint deepExtend1 (target : obj jv) (source : jv) {struct source} : obj jv :=
  let set t k v :=
    obj_set t k (match obj_get t k with Some (JObj inner) => JObj (deepExtend1 (assign_props [] inner) v) | _ => v end) in
  let fix props t o := match o with [] => t | (k, v) :: o' => props (set t k v) o' end in
  let fix items t i l := match l with [] => t | v :: l' => items (set t (num_to_string 10 i) v) (i + 1) l' end in
  match source with
  | JObj o | JInst _ o => props target o
  | JArr l => items target 0 l
  | JStr s => foldl (fun t ic => obj_set t (num_to_string 10 ic.1) (JStr [ic.2])) target (zip (seqZ 0 (Z.of_nat (length s))) s)
  | _ => target
  end.

Definition deepExtend (target : obj jv) (sources : list jv) : obj jv := foldl deepExtend1 target sources.

Example deepExtend_ex :
  deepExtend [] [JObj [(str "a", JObj [(str "x", jnum 1); (str "y", jnum 2)]); (str "b", jnum 3)];
                 JObj [(str "a", JObj [(str "y", jnum 4)]); (str "c", JUndef)]] =
  [(str "a", JObj [(str "x", jnum 1); (str "y", jnum 4)]); (str "b", jnum 3); (str "c", JUndef)].
Proof. vm_compute. reflexivity. Qed.

(** ** What the copy of an option is *)

(** The value a property gets from [v], when the target has [t]. *)
Definition extended (t : option jv) (v : jv) : jv :=
  match t with Some (JObj inner) => JObj (deepExtend1 (assign_props [] inner) v) | _ => v end.

Fixpoint extend_props (target o : obj jv) : obj jv :=
  match o with [] => target | (k, v) :: o' => extend_props (obj_set target k (extended (obj_get target k) v)) o' end.

Lemma deepExtend1_props target o : deepExtend1 target (JObj o) = extend_props target o.
Proof. revert target. induction o as [|[k v] o IH]; intros target; [done|]. apply IH. Qed.

Lemma extend_props_get target o k :
  NoDup (map fst o) ->
  obj_get (extend_props target o) k =
    match obj_get o k with Some v => Some (extended (obj_get target k) v) | None => obj_get target k end.
Proof.
  revert target. induction o as [|[j v] o IH]; intros target; cbn [extend_props obj_get map fst]; [done|].
  intros [Hj Hd]%NoDup_cons. rewrite IH by done. rewrite obj_get_set.
  destruct (decide (k = j)) as [->|]; [rewrite decide_True by done|by rewrite decide_False].
  by rewrite (proj2 (obj_get_None o j) Hj).
Qed.

Lemma deepExtend1_get target o k :
  NoDup (map fst o) ->
  obj_get (deepExtend1 target (JObj o)) k =
    match obj_get o k with Some v => Some (extended (obj_get target k) v) | None => obj_get target k end.
Proof. rewrite deepExtend1_props. apply extend_props_get. Qed.

Lemma assign_props_get target o k :
  NoDup (map fst o) -> obj_get (assign_props target o) k = match obj_get o k with Some v => Some v | None => obj_get target k end.
Proof.
  revert target. induction o as [|[j v] o IH]; intros target; cbn [assign_props foldl obj_get map fst snd]; [done|].
  intros [Hj Hd]%NoDup_cons. rewrite IH, obj_get_set by done.
  destruct (decide (k = j)) as [->|]; [rewrite decide_True by done|by rewrite decide_False]. by rewrite (proj2 (obj_get_None o j) Hj).
Qed.
