(* ===== verification/Options.v ===== *)
(** [lib/client-options.js]: the options of a client, and how the native
    session takes them ([src/session.rs]).

    The builder of sessions is part of a Rust library: the model keeps the calls
    made on it.  The fields of the default policies, which the options do not
    read, are left out; the engine has BigInt. *)
From S2P Require Import Prelude.
From S2P Require Import JsNum.
From S2P Require Import JsStr.
From S2P Require Import Uuid.
From S2P Require Import Version.
From S2P Require Import Utils.
From S2P Require Import JsVal.

Definition classes (l : list string) : list jsstr := map str l.
Definition instance (l : list string) : jv := JInst (classes l) [].
Definition object (l : list (string * jv)) : jv := JObj (map (fun kv => (str kv.1, kv.2)) l).

(** ** Defaults *)

(** The values of [lib/policies/index.js]. *)
Definition default_policies : jv := object [
  ("addressResolution"%string, instance ["AddressTranslator"%string]);
  ("loadBalancing"%string, instance ["DefaultLoadBalancingPolicy"; "LoadBalancingPolicy"]%string);
  ("reconnection"%string, instance ["ExponentialReconnectionPolicy"; "ReconnectionPolicy"]%string);
  ("retry"%string, instance ["RetryPolicy"%string]);
  ("speculativeExecution"%string, instance ["NoSpeculativeExecutionPolicy"; "SpeculativeExecutionPolicy"]%string);
  ("timestampGeneration"%string, instance ["MonotonicTimestampGenerator"; "TimestampGenerator"]%string)].

Definition defaultOptions : obj jv := own_props (object [
  ("policies"%string, default_policies);
  ("queryOptions"%string, object [("fetchSize"%string, jnum 5000); ("prepare"%string, JBool false);
     ("captureStackTrace"%string, JBool false); ("paged"%string, JBool true)]);
  ("protocolOptions"%string, object [("port"%string, jnum 9042); ("maxSchemaAgreementWaitSeconds"%string, jnum 10);
     ("maxVersion"%string, jnum 0); ("noCompact"%string, JBool false)]);
  ("pooling"%string, object [("heartBeatInterval"%string, jnum 30000); ("warmup"%string, JBool true)]);
  ("socketOptions"%string, object [("connectTimeout"%string, jnum 5000); ("defunctReadTimeoutThreshold"%string, jnum 64);
     ("keepAlive"%string, JBool true); ("keepAliveDelay"%string, jnum 0); ("readTimeout"%string, jnum 12000);
     ("tcpNoDelay"%string, JBool true); ("coalescingThreshold"%string, jnum 65536)]);
  ("authProvider"%string, JNull);
  ("requestTracker"%string, JNull);
  ("metrics"%string, instance ["DefaultMetrics"; "ClientMetrics"]%string);
  ("maxPrepared"%string, JNull);
  ("refreshSchemaDelay"%string, jnum 1000);
  ("isMetadataSyncEnabled"%string, JBool true);
  ("prepareOnAllHosts"%string, JBool true);
  ("rePrepareOnUp"%string, JBool true);
  ("encoding"%string, object [("copyBuffer"%string, JBool true); ("useUndefinedAsUnset"%string, JBool true)]);
  ("monitorReporting"%string, object [("enabled"%string, JBool true)])]).

(** ** Validation *)

(** [if (!b) throw new TypeError(...)] *)
Definition require (b : bool) : result unit := if b then Ok tt else Throw TypeError.

Definition validatePoliciesOptions (policiesOptions : jv) : result unit :=
  _ ← require (truthy policiesOptions);
  let o := own_props policiesOptions in
  _ ← require (instance_of (prop o "loadBalancing") "LoadBalancingPolicy");
  _ ← require (instance_of (prop o "reconnection") "ReconnectionPolicy");
  _ ← require (instance_of (prop o "retry") "RetryPolicy");
  _ ← require (instance_of (prop o "addressResolution") "AddressTranslator");
  require (is_null (prop o "timestampGeneration") || instance_of (prop o "timestampGeneration") "TimestampGenerator").

(** [protocolVersion.isSupported] of any value of type number. *)
Definition number_isSupported (n : number) : bool :=
  match n with Fin m e => (m <=? 4 * 2 ^ Z.of_N e) && (2 ^ Z.of_N e <=? m) | _ => false end.

Definition validateProtocolOptions (protocolOptions : jv) : result unit :=
  _ ← require (truthy protocolOptions);
  let version := prop (own_props protocolOptions) "maxVersion" in
  require (negb (truthy version) || match version with JNum n => number_isSupported n | _ => false end).

(** [n <= 0] *)
Definition not_positive (n : number) : bool :=
  match n with NaN => false | Infinity negative => negative | Fin m _ => m <=? 0 end.

Definition validateSocketOptions (socketOptions : jv) : result unit :=
  _ ← require (truthy socketOptions);
  let o := own_props socketOptions in
  _ ← require (is_num (prop o "readTimeout"));
  require (match prop o "coalescingThreshold" with JNum n => negb (not_positive n) | _ => false end).

Definition validateAuthenticationOptions (options : obj jv) : result (obj jv) :=
  let authProvider := prop options "authProvider" in
  if negb (truthy authProvider) then
    let credentials := prop options "credentials" in
    if truthy credentials then
      let o := own_props credentials in
      _ ← require (is_string (prop o "username") && is_string (prop o "password"));
      Ok options
    else Ok (obj_set options (str "authProvider") (instance ["NoAuthProvider"; "AuthProvider"]%string))
  else _ ← require (instance_of authProvider "AuthProvider"); Ok options.

(** A constructor whose prototype has the two methods. *)
Definition constructor_with (v : jv) (method1 method2 : string) : bool :=
  match v with JFn methods => bool_decide (str method1 ∈ methods) && bool_decide (str method2 ∈ methods) | _ => false end.

Definition validateEncodingOptions (encodingOptions : jv) : result unit :=
  let o := own_props encodingOptions in
  _ ← require (negb (truthy (prop o "map")) || constructor_with (prop o "map") "forEach" "set");
  require (negb (truthy (prop o "set")) || constructor_with (prop o "set") "forEach" "add").

Definition is_nullish (v : jv) : bool := is_null v || is_undef v.

Definition validateApplicationInfo (options : obj jv) : result unit :=
  let validateString key := require (is_nullish (prop options key) || is_string (prop options key)) in
  _ ← validateString "applicationName"%string;
  _ ← validateString "applicationVersion"%string;
  require (is_nullish (prop options "id") || instance_of (prop options "id") "Uuid").

Definition validateMonitorReporting (options : obj jv) : result unit :=
  require (is_object (prop options "monitorReporting")).

(** ** [extend] *)

Definition check_contactPoints (options : obj jv) : result unit :=
  match prop options "contactPoints" with
  | JArr ((_ :: _) as l) => require (forallb truthy l)
  | _ => Throw TypeError
  end.

(** [extend(baseOptions, userOptions)] *)
Definition extend_options (baseOptions : obj jv) (userOptions : jv) : result (obj jv) :=
  let options := deepExtend baseOptions [JObj defaultOptions; userOptions] in
  _ ← (if truthy (prop options "cloud") then Throw ReferenceError else Ok tt);
  _ ← check_contactPoints options;
  let options := obj_set options (str "sni") JUndef in
  let options := if truthy (prop options "logEmitter") then options else obj_set options (str "logEmitter") (JFn []) in
  _ ← require (truthy (prop options "queryOptions"));
  let tracker := prop options "requestTracker" in
  _ ← require (is_null tracker || instance_of tracker "RequestTracker");
  _ ← require (instance_of (prop options "metrics") "ClientMetrics");
  _ ← validatePoliciesOptions (prop options "policies");
  _ ← validateProtocolOptions (prop options "protocolOptions");
  _ ← validateSocketOptions (prop options "socketOptions");
  options ← validateAuthenticationOptions options;
  let options := if truthy (prop options "encoding") then options else obj_set options (str "encoding") (JObj []) in
  _ ← validateEncodingOptions (prop options "encoding");
  _ ← require (negb (truthy (prop options "profiles")) || is_array (prop options "profiles"));
  _ ← validateApplicationInfo options;
  _ ← validateMonitorReporting options;
  Ok options.

(** ** [setMetadataDependent] *)

(** The connections per host of a distance. *)
Definition coreConnectionsPerHostV2 : jv := object [("0"%string, jnum 2); ("1"%string, jnum 1); ("2"%string, jnum 0)].
Definition coreConnectionsPerHostV3 : jv := object [("0"%string, jnum 1); ("1"%string, jnum 1); ("2"%string, jnum 0)].
Definition maxRequestsPerConnectionV2 : Z := 128.
Definition maxRequestsPerConnectionV3 : Z := 2048.

(** Sets a property of an object held by a property. *)
Definition set_inner (options : obj jv) (k j : string) (v : jv) : obj jv :=
  obj_set options (str k) (JObj (obj_set (own_props (prop options k)) (str j) v)).

(** [options] of the client with its protocol version; consistencies 6
    ([localQuorum]) and 10 ([localOne]). *)
Definition setMetadataDependent (version : Z) (isDbaas : bool) (options : obj jv) : obj jv :=
  let '(core, requests) :=
    if negb (uses2BytesStreamIds version) then (coreConnectionsPerHostV2, maxRequestsPerConnectionV2)
    else (coreConnectionsPerHostV3, maxRequestsPerConnectionV3) in
  let options :=
    if is_undef (prop (own_props (prop options "queryOptions")) "consistency")
    then set_inner options "queryOptions" "consistency" (jnum (if isDbaas then 6 else 10))
    else options in
  obj_set options (str "pooling")
    (JObj (deepExtend [] [object [("coreConnectionsPerHost"%string, core); ("maxRequestsPerConnection"%string, jnum requests)];
                          prop options "pooling"])).

(** ** [setRustOptions] *)

(** The properties of the native options that are credentials. *)
Definition set_credentials (rust : obj jv) (from : jv) : obj jv :=
  let o := own_props from in
  obj_set (obj_set rust (str "credentialsUsername") (prop o "username")) (str "credentialsPassword") (prop o "password").

Definition set_when (b : bool) (k : string) (v : jv) (o : obj jv) : obj jv := if b then obj_set o (str k) v else o.

Definition rust_credentials (options rust : obj jv) : result (obj jv) :=
  let credentials := prop options "credentials" in
  let authProvider := prop options "authProvider" in
  if truthy credentials then Ok (set_credentials rust credentials)
  else if truthy authProvider then
    if instance_of authProvider "PlainTextAuthProvider" then Ok (set_credentials rust authProvider)
    else if instance_of authProvider "NoAuthProvider" then Ok rust
    else Throw ArgumentError
  else Ok rust.

(** The native options, and the options whose [id] was replaced by its text. *)
Definition setRustOptions (options : obj jv) : result (obj jv * obj jv) :=
  let options :=
    match prop options "id" with JUuid x => obj_set options (str "id") (JStr (Uuid_toString x)) | _ => options end in
  let rust := [
    (str "connectPoints", prop options "contactPoints");
    (str "applicationName", prop options "applicationName");
    (str "applicationVersion", prop options "applicationVersion");
    (str "clientId", prop options "id");
    (str "keyspace", prop options "keyspace")] in
  let rust := set_when (truthy (prop options "maxPrepared")) "cacheSize" (prop options "maxPrepared") rust in
  rust ← rust_credentials options rust;
  Ok (set_when (truthy (prop options "sslOptions")) "sslOptions" (prop options "sslOptions") rust, options).

(** ** The native session *)

(** The only option of TLS that is read. *)
Record SslOptions := mkSslOptions { reject_unauthorized : option bool }.

(** A field that is undefined is not set. *)
Record SessionOptions := mkSessionOptions {
  connect_points : option (list jsstr);
  so_keyspace : option jsstr;
  application_name : option jsstr;
  application_version : option jsstr;
  client_id : option jsstr;
  credentials_username : option jsstr;
  credentials_password : option jsstr;
  cache_size : option Z;
  ssl_options : option SslOptions }.

(** A field of type String, and one of type Vec<String>; other values do not
    convert. *)
Definition napi_string (v : jv) : result (option jsstr) :=
  match v with JUndef => Ok None | JStr s => Ok (Some s) | _ => Throw PlainError end.

Definition napi_strings (v : jv) : result (option (list jsstr)) :=
  match v with
  | JUndef => Ok None
  | JArr l => Some <$> traverse (fun v => match v with JStr s => Ok s | _ => Throw PlainError end) l
  | _ => Throw PlainError
  end.

(** A field of type bool. *)
Definition napi_bool (v : jv) : result (option bool) :=
  match v with JUndef => Ok None | JBool b => Ok (Some b) | _ => Throw PlainError end.

(** A field of type u32: [napi_get_value_uint32] takes any Number, modulo
    [2^32], and 0 for one that is not finite. *)
Definition napi_u32 (v : jv) : result (option Z) :=
  match v with
  | JUndef => Ok None
  | JNum (Fin m e) => Ok (Some (to_uint32 (Z.quot m (2 ^ Z.of_N e))))
  | JNum _ => Ok (Some 0)
  | _ => Throw PlainError
  end.

(** A field that is an object with such fields; what is not an object has none
    of them. *)
Definition napi_ssl (v : jv) : result (option SslOptions) :=
  match v with
  | JUndef => Ok None
  | JNull => Throw PlainError
  | _ => Some <$> (mkSslOptions <$> napi_bool (prop (own_props v) "rejectUnauthorized"))
  end.

Definition SessionOptions_from (rust : obj jv) : result SessionOptions :=
  points ← napi_strings (prop rust "connectPoints");
  keyspace ← napi_string (prop rust "keyspace");
  name ← napi_string (prop rust "applicationName");
  version ← napi_string (prop rust "applicationVersion");
  id ← napi_string (prop rust "clientId");
  username ← napi_string (prop rust "credentialsUsername");
  password ← napi_string (prop rust "credentialsPassword");
  cache ← napi_u32 (prop rust "cacheSize");
  ssl ← napi_ssl (prop rust "sslOptions");
  Ok (mkSessionOptions points keyspace name version id username password cache ssl).

(** The calls on [SelfIdentity] and on [SessionBuilder]. *)
Inductive builder_call :=
  | DriverName
  | DriverVersionAsApplicationVersion
  | ApplicationName (s : jsstr)
  | ApplicationVersion (s : jsstr)
  | ClientId (s : jsstr)
  | KnownNodes (l : list jsstr)
  | UseKeyspace (s : jsstr)
  | User (username password : jsstr)
  | TlsContext (verify_peer : bool).

Definition when_some {A B} (o : option A) (f : A -> B) : list B := match o with Some a => [f a] | None => [] end.

Definition self_identity (options : SessionOptions) : list builder_call :=
  [DriverName; DriverVersionAsApplicationVersion] ++
  when_some (application_name options) ApplicationName ++
  when_some (application_name options) ApplicationVersion ++
  when_some (client_id options) ClientId.

(** [None] is the panic of [unreachable!].  OpenSSL makes a context or fails
    ([ssl_context]); certificates are verified unless [rejectUnauthorized] is
    false. *)
Definition configure_session_builder (ssl_context : result unit) (options : SessionOptions)
    : option (result (list builder_call)) :=
  let builder := self_identity options ++ [KnownNodes (default [] (connect_points options))] ++
    when_some (so_keyspace options) UseKeyspace in
  builder ←
    match credentials_username options, credentials_password options with
    | Some username, Some password => Some (builder ++ [User username password])
    | None, None => Some builder
    | Some _, None | None, Some _ => None
    end;
  Some
    match ssl_options options with
    | Some ssl_options =>
        _ ← ssl_context;
        let verify := match reject_unauthorized ssl_options with Some false => false | Some true | None => true end in
        Ok (builder ++ [TlsContext verify])
    | None => Ok builder
    end.

Definition DEFAULT_CACHE_SIZE : Z := 512.

(** [SessionWrapper::create_session] for a builder that makes a session of the
    driver or fails: the session and the capacity of its cache of statements. *)
Definition create_session {S : Type} (ssl_context : result unit) (build : list builder_call -> result S)
    (options : SessionOptions) : option (result (S * Z)) :=
  builder ← configure_session_builder ssl_context options;
  Some (builder ← builder; session ← build builder; Ok (session, default DEFAULT_CACHE_SIZE (cache_size options))).
