(* ===== verification/OptionsTheorems.v ===== *)
(** The options of a client: what the user gives comes before the defaults, and
    accepted options make a session. *)
From S2P Require Import Prelude.
From S2P Require Import JsNum.
From S2P Require Import JsStr.
From S2P Require Import Uuid.
From S2P Require Import Version.
From S2P Require Import Utils.
From S2P Require Import JsVal.
From S2P Require Import Options.

Lemma prop_set o k v j : prop (obj_set o k v) j = if decide (k = str j) then v else prop o j.
Proof. unfold prop, get. rewrite obj_get_set. by destruct (decide (k = str j)). Qed.

Lemma get_set o k v j : get (obj_set o k v) j = if decide (k = j) then v else get o j.
Proof. unfold get. rewrite obj_get_set. by destruct (decide (k = j)). Qed.

(** ** The result of [extend] *)

Lemma require_ok b : require b = Ok tt <-> b = true.
Proof. destruct b; cbn; naive_solver. Qed.

Lemma require_bind {A} b (r : result A) a : (require b ≫= fun _ => r) = Ok a <-> b = true /\ r = Ok a.
Proof. destruct b; cbn; naive_solver. Qed.

(** The options that [extend] sets after merging. *)
Definition with_defaults (base : obj jv) (user : jv) : obj jv := deepExtend base [JObj defaultOptions; user].

Definition adjust_auth (m : obj jv) : obj jv :=
  if truthy (prop m "authProvider") || truthy (prop m "credentials") then m
  else obj_set m (str "authProvider") (instance ["NoAuthProvider"; "AuthProvider"]%string).

Definition adjust (m : obj jv) : obj jv :=
  let m := obj_set m (str "sni") JUndef in
  let m := if truthy (prop m "logEmitter") then m else obj_set m (str "logEmitter") (JFn []) in
  let m := adjust_auth m in
  if truthy (prop m "encoding") then m else obj_set m (str "encoding") (JObj []).

Lemma adjust_auth_other m k : k <> str "authProvider" -> get (adjust_auth m) k = get m k.
Proof. intros Hk. unfold adjust_auth. destruct (_ || _); [done|]. by rewrite get_set, decide_False. Qed.

Lemma adjust_other m k :
  k ∉ [str "sni"; str "logEmitter"; str "authProvider"; str "encoding"] -> get (adjust m) k = get m k.
Proof.
  rewrite !not_elem_of_cons. intros (H1 & H2 & H3 & H4 & _). unfold adjust. cbv zeta.
  repeat (case_match; rewrite ?get_set, ?adjust_auth_other, ?get_set, ?decide_False by done); done.
Qed.

(** What is true of accepted options. *)
Record accepted (o : obj jv) : Prop := {
  ac_contactPoints : exists p l, prop o "contactPoints" = JArr (p :: l) /\ forallb truthy (p :: l) = true;
  ac_policies : validatePoliciesOptions (prop o "policies") = Ok tt;
  ac_protocol : validateProtocolOptions (prop o "protocolOptions") = Ok tt;
  ac_socket : validateSocketOptions (prop o "socketOptions") = Ok tt;
  ac_encoding : validateEncodingOptions (prop o "encoding") = Ok tt;
  ac_info : validateApplicationInfo o = Ok tt;
  ac_provider : truthy (prop o "authProvider") = true -> instance_of (prop o "authProvider") "AuthProvider" = true;
  ac_credentials : truthy (prop o "authProvider") = false ->
    is_string (prop (own_props (prop o "credentials")) "username") = true /\
    is_string (prop (own_props (prop o "credentials")) "password") = true /\ truthy (prop o "credentials") = true }.

Lemma validateAuthenticationOptions_ok m o :
  validateAuthenticationOptions m = Ok o ->
  o = adjust_auth m /\
  (truthy (prop o "authProvider") = true -> instance_of (prop o "authProvider") "AuthProvider" = true) /\
  (truthy (prop o "authProvider") = false ->
     is_string (prop (own_props (prop o "credentials")) "username") = true /\
     is_string (prop (own_props (prop o "credentials")) "password") = true /\ truthy (prop o "credentials") = true).
Proof.
  unfold validateAuthenticationOptions, adjust_auth.
  destruct (truthy (prop m "authProvider")) eqn:Ha; cbn [negb orb].
  - intros [Hi [= <-]]%require_bind. rewrite Ha. done.
  - destruct (truthy (prop m "credentials")) eqn:Hc; cbn zeta.
    + intros [[? ?]%andb_true_iff [= <-]]%require_bind. rewrite Ha. done.
    + intros [= <-]. rewrite prop_set. rewrite decide_True by done. done.
Qed.

Lemma check_contactPoints_ok o :
  check_contactPoints o = Ok tt -> exists p l, prop o "contactPoints" = JArr (p :: l) /\ forallb truthy (p :: l) = true.
Proof.
  unfold check_contactPoints. destruct (prop o "contactPoints") as [| | | | | | | | | |[|p l]| |]; try done.
  intros H%require_ok. eauto.
Qed.

Lemma bind_unit {A} (m : result unit) (r : result A) a : (m ≫= fun _ => r) = Ok a <-> m = Ok tt /\ r = Ok a.
Proof. destruct m as [[]|]; cbn; naive_solver. Qed.

Lemma prop_adjust m k :
  str k ∉ [str "sni"; str "logEmitter"; str "authProvider"; str "encoding"] -> prop (adjust m) k = prop m k.
Proof. apply adjust_other. Qed.

Lemma validateApplicationInfo_eq o m :
  prop o "applicationName" = prop m "applicationName" -> prop o "applicationVersion" = prop m "applicationVersion" ->
  prop o "id" = prop m "id" -> validateApplicationInfo o = validateApplicationInfo m.
Proof. unfold validateApplicationInfo. by intros -> -> ->. Qed.

(** The options are the merged ones but for what is set, and they are valid. *)
Lemma extend_options_ok base user o :
  extend_options base user = Ok o -> o = adjust (with_defaults base user) /\ accepted o.
Proof.
  unfold extend_options. fold (with_defaults base user). set (m := with_defaults base user).
  destruct (truthy (prop m "cloud")); [done|]. rewrite bind_ok_l.
  intros [Hcp H]%bind_unit. cbv zeta in H. set (m1 := obj_set m (str "sni") JUndef) in *.
  set (m2 := if truthy (prop m1 "logEmitter") then m1 else _) in *.
  apply require_bind in H as [_ H]. apply require_bind in H as [_ H]. apply require_bind in H as [_ H].
  apply bind_unit in H as [Hp H]. apply bind_unit in H as [Hpr H]. apply bind_unit in H as [Hs H].
  apply bind_ok in H as (m3 & Ha & H). apply validateAuthenticationOptions_ok in Ha as (-> & Ha1 & Ha2).
  set (m4 := if truthy (prop (adjust_auth m2) "encoding") then _ else _) in *.
  apply bind_unit in H as [He H]. apply require_bind in H as [_ H]. apply bind_unit in H as [Hi H].
  apply bind_unit in H as [_ [= <-]].
  assert (Hm4 : m4 = adjust m) by reflexivity.
  assert (E4 : forall k, str k <> str "encoding" -> prop m4 k = prop (adjust_auth m2) k).
  { intros k Hk. unfold m4. case_match; [done|]. by rewrite prop_set, decide_False. }
  assert (E2 : forall k, str k <> str "logEmitter" -> prop m2 k = prop m1 k).
  { intros k Hk. unfold m2. case_match; [done|]. by rewrite prop_set, decide_False. }
  assert (E3 : forall k, str k <> str "authProvider" -> prop (adjust_auth m2) k = prop m2 k).
  { intros k Hk. by apply adjust_auth_other. }
  split; [done|]. apply check_contactPoints_ok in Hcp as (p & l & Hcp & Hl).
  split; rewrite ?E4 by done; try done; rewrite ?E3 by done; try done.
  - exists p, l. rewrite E2 by done. unfold m1. by rewrite prop_set, decide_False.
Qed.

(** ** Precedence *)

Lemma defaults_nodup : NoDup (map fst defaultOptions).
Proof. apply (bool_decide_unpack _). vm_compute. exact I. Qed.

(** The groups of the defaults have distinct names, none of them a group. *)
Lemma default_group k d :
  obj_get defaultOptions k = Some (JObj d) ->
  NoDup (map fst d) /\ forall j inner, obj_get d j <> Some (JObj inner).
Proof.
  intros Hd. apply obj_get_elem in Hd.
  assert (HF : Forall (fun kv => match kv.2 with
      | JObj d => bool_decide (NoDup (map fst d)) && forallb (fun jv => match jv.2 with JObj _ => false | _ => true end) d
      | _ => true end = true) defaultOptions).
  { apply Forall_forall. intros x Hx. revert x Hx. apply Forall_forall. repeat (constructor; [vm_compute; reflexivity|]). constructor. }
  rewrite Forall_forall in HF. specialize (HF _ Hd). cbn in HF. apply andb_true_iff in HF as [Hn Ho].
  split; [by apply bool_decide_eq_true in Hn|]. intros j inner Hj%obj_get_elem. rewrite forallb_forall in Ho.
  apply list_elem_of_In in Hj. by specialize (Ho _ Hj).
Qed.

(** A value with named properties, or none. *)
Definition named_props (v : jv) : bool := match v with JArr _ | JStr _ => false | _ => true end.

Lemma deepExtend1_own target v :
  named_props v = true -> deepExtend1 target v = extend_props target (own_props v).
Proof.
  destruct v as [| | | | | | | | | | |o|c o]; try done.
Qed.

Lemma with_defaults_get base u k :
  NoDup (map fst u) -> (forall j, j ∈ map fst defaultOptions -> j ∉ map fst base) ->
  obj_get (with_defaults base (JObj u)) k =
    match obj_get u k, obj_get defaultOptions k with
    | Some v, Some (JObj d) => Some (JObj (deepExtend1 (assign_props [] d) v))
    | Some v, Some _ => Some v
    | Some v, None => Some (extended (obj_get base k) v)
    | None, Some d => Some d
    | None, None => obj_get base k
    end.
Proof.
  intros Hu Hb. unfold with_defaults, deepExtend. cbn [foldl]. rewrite deepExtend1_get, deepExtend1_get by done || apply defaults_nodup.
  destruct (obj_get defaultOptions k) as [d|] eqn:Hd; [|by destruct (obj_get u k)].
  assert (Hbk : obj_get base k = None).
  { apply obj_get_None, Hb. apply obj_get_elem in Hd. apply list_elem_of_fmap. by exists (k, d). }
  rewrite Hbk. cbn [extended]. destruct (obj_get u k) as [v|]; [|done]. by destruct d.
Qed.

(** What the user's options and the defaults give for [k.j]. *)
Definition chosen (u : obj jv) (d : obj jv) (k j : jsstr) : jv :=
  match obj_get (own_props (get u k)) j with Some v => v | None => get d j end.

Lemma group_get u d k j v :
  obj_get defaultOptions k = Some (JObj d) -> obj_get u k = Some v -> named_props v = true ->
  NoDup (map fst (own_props v)) ->
  get (deepExtend1 (assign_props [] d) v) j = chosen u d k j.
Proof.
  intros Hd Hv Hn Hnd. destruct (default_group k d Hd) as [Hdn Hdo].
  rewrite deepExtend1_own by done. unfold chosen. replace (get u k) with v by (unfold get; by rewrite Hv). unfold get.
  rewrite extend_props_get, assign_props_get by done. cbn [obj_get].
  destruct (obj_get (own_props v) j) as [w|]; [|by destruct (obj_get d j)].
  destruct (obj_get d j) as [[| | | | | | | | | | |inner|]|] eqn:Hj; try done. by destruct (Hdo j inner).
Qed.

Lemma with_defaults_plain base u k :
  NoDup (map fst u) -> (forall j, j ∈ map fst defaultOptions -> j ∉ map fst base) ->
  obj_get defaultOptions k = None -> obj_get base k = None -> get (with_defaults base (JObj u)) k = get u k.
Proof. intros Hu Hb Hd Hk. unfold get. rewrite with_defaults_get, Hd, Hk by done. by destruct (obj_get u k). Qed.

(** What the merged options have for a name. *)
Lemma merged_option base u k :
  NoDup (map fst u) -> (forall j, j ∈ map fst defaultOptions -> j ∉ map fst base) ->
  match obj_get defaultOptions k with
  | Some (JObj d) =>
      (forall v, obj_get u k = Some v -> named_props v = true /\ NoDup (map fst (own_props v))) ->
      exists group, get (with_defaults base (JObj u)) k = JObj group /\ forall j, get group j = chosen u d k j
  | Some d => get (with_defaults base (JObj u)) k = default d (obj_get u k)
  | None => obj_get base k = None -> get (with_defaults base (JObj u)) k = get u k
  end.
Proof.
  intros Hu Hb.
  change (get (with_defaults base (JObj u)) k) with (default JUndef (obj_get (with_defaults base (JObj u)) k)).
  rewrite with_defaults_get by done.
  destruct (obj_get defaultOptions k) as [d|] eqn:Hd.
  - destruct d as [| | | | | | | | | | |d|]; try by destruct (obj_get u k).
    intros Hv. destruct (obj_get u k) as [v|] eqn:Huk; eexists; (split; [done|]); intros j.
    + destruct (Hv v eq_refl) as [Hn Hnd]. by apply (group_get u d k j v).
    + unfold chosen, get. by rewrite Huk.
  - intros Hbk. rewrite Hbk. unfold get. by destruct (obj_get u k).
Qed.

(** The encoding options are an object, whatever the user gives. *)
Lemma merged_encoding base u :
  NoDup (map fst u) -> (forall j, j ∈ map fst defaultOptions -> j ∉ map fst base) ->
  truthy (prop (with_defaults base (JObj u)) "encoding") = true.
Proof.
  intros Hu Hb. unfold prop, get. rewrite with_defaults_get by done.
  change (obj_get defaultOptions (str "encoding")) with
    (Some (JObj (own_props (object [("copyBuffer"%string, JBool true); ("useUndefinedAsUnset"%string, JBool true)])))).
  by destruct (obj_get u (str "encoding")).
Qed.

(** What [extend] sets after merging. *)
Lemma adjust_props m :
  truthy (prop m "encoding") = true ->
  prop (adjust m) "sni" = JUndef /\
  prop (adjust m) "logEmitter" = (if truthy (prop m "logEmitter") then prop m "logEmitter" else JFn []) /\
  prop (adjust m) "authProvider" =
    (if truthy (prop m "authProvider") || truthy (prop m "credentials") then prop m "authProvider"
     else instance ["NoAuthProvider"; "AuthProvider"]%string) /\
  prop (adjust m) "encoding" = prop m "encoding".
Proof.
  intros He. unfold adjust. cbv zeta. set (m1 := obj_set m (str "sni") JUndef).
  assert (E1 : forall k, str k <> str "sni" -> prop m1 k = prop m k) by (intros k Hk; unfold m1; by rewrite prop_set, decide_False).
  assert (S1 : prop m1 "sni" = JUndef) by (unfold m1; by rewrite prop_set, decide_True).
  clearbody m1. rewrite (E1 "logEmitter"%string) by done.
  set (m2 := if truthy (prop m "logEmitter") then m1 else _).
  assert (E2 : forall k, str k <> str "logEmitter" -> prop m2 k = prop m1 k).
  { intros k Hk. unfold m2. case_match; [done|]. by rewrite prop_set, decide_False. }
  assert (L2 : prop m2 "logEmitter" = if truthy (prop m "logEmitter") then prop m "logEmitter" else JFn []).
  { unfold m2. case_match; [by apply E1|]. by rewrite prop_set, decide_True. }
  clearbody m2. assert (E3 : forall k, str k <> str "authProvider" -> prop (adjust_auth m2) k = prop m2 k).
  { intros k Hk. by apply adjust_auth_other. }
  assert (A3 : prop (adjust_auth m2) "authProvider" =
    if truthy (prop m "authProvider") || truthy (prop m "credentials") then prop m "authProvider"
    else instance ["NoAuthProvider"; "AuthProvider"]%string).
  { unfold adjust_auth. rewrite !(E2 "authProvider"%string), !(E2 "credentials"%string), !E1 by done.
    destruct (_ || _); [by rewrite E2, E1|]. by rewrite prop_set, decide_True. }
  rewrite (E3 "encoding"%string), E2, E1, He by done.
  split_and!; [by rewrite E3, E2|by rewrite E3|done|by rewrite E3, E2, E1].
Qed.

(** C14: an accepted option has the user's value when the user gives one and
    the default otherwise; an option that is a group ([encoding] too) is merged
    name by name, and leaving the group out, or giving null or undefined for it,
    keeps its defaults.  Three options are set afterwards: [sni] is always
    undefined, even if the user gives it; a [logEmitter] that is not truthy
    becomes a function that does nothing; and without a provider and without
    credentials [authProvider] becomes a NoAuthProvider.  (Names are not
    repeated, and what the user gives for a group is not an array or a text.) *)
Theorem extend_options_precedence base u options :
  NoDup (map fst u) -> (forall j, j ∈ map fst defaultOptions -> j ∉ map fst base) ->
  extend_options base (JObj u) = Ok options ->
  prop options "sni" = JUndef /\
  (obj_get base (str "logEmitter") = None ->
     prop options "logEmitter" = if truthy (prop u "logEmitter") then prop u "logEmitter" else JFn []) /\
  (obj_get base (str "credentials") = None ->
     prop options "authProvider" =
       let provider := default JNull (obj_get u (str "authProvider")) in
       if truthy provider || truthy (prop u "credentials") then provider
       else instance ["NoAuthProvider"; "AuthProvider"]%string) /\
  forall k, k ∉ map str ["sni"; "logEmitter"; "authProvider"]%string ->
    match obj_get defaultOptions k with
    | Some (JObj d) =>
        (forall v, obj_get u k = Some v -> named_props v = true /\ NoDup (map fst (own_props v))) ->
        exists group, get options k = JObj group /\ forall j, get group j = chosen u d k j
    | Some d => get options k = default d (obj_get u k)
    | None => obj_get base k = None -> get options k = get u k
    end.
Proof.
  intros Hu Hb [-> _]%extend_options_ok.
  destruct (adjust_props (with_defaults base (JObj u)) (merged_encoding base u Hu Hb)) as (A1 & A2 & A3 & A4).
  split; [done|]. split; [|split].
  - intros Hk. rewrite A2. unfold prop. by rewrite with_defaults_plain.
  - intros Hk. rewrite A3. unfold prop at 2. rewrite with_defaults_plain by done. fold (prop u "credentials").
    assert (E : prop (with_defaults base (JObj u)) "authProvider" = default JNull (obj_get u (str "authProvider"))); [|by rewrite E].
    unfold prop, get. rewrite with_defaults_get by done. by destruct (obj_get u (str "authProvider")).
  - intros k Hk. pose proof (merged_option base u k Hu Hb) as M.
    assert (E : get (adjust (with_defaults base (JObj u))) k = get (with_defaults base (JObj u)) k); [|by rewrite E].
    destruct (decide (k = str "encoding")) as [->|Hne]; [exact A4|]. apply adjust_other.
    cbn [map] in Hk. rewrite !not_elem_of_cons in *. naive_solver.
Qed.

Definition contact (l : list string) : list (jsstr * jv) := [(str "contactPoints", JArr (map (fun p => JStr (str p)) l))].

Lemma extend_options_precedence_witness :
  exists options,
    extend_options [] (JObj (contact ["a"%string] ++ [(str "encoding", JObj [(str "copyBuffer", JBool false)]); (str "sni", jstr "s")])) = Ok options /\
    prop options "sni" = JUndef /\
    exists group, get options (str "encoding") = JObj group /\ forall j, get group j =
      chosen [(str "encoding", JObj [(str "copyBuffer", JBool false)])]
        [(str "copyBuffer", JBool true); (str "useUndefinedAsUnset", JBool true)] (str "encoding") j.
Proof.
  eexists. split; [vm_compute; reflexivity|].
  edestruct (extend_options_precedence [] (contact ["a"%string] ++ [(str "encoding", JObj [(str "copyBuffer", JBool false)]); (str "sni", jstr "s")]))
    as (S & _ & _ & G).
  - apply (bool_decide_unpack _). vm_compute. exact I.
  - intros j _. apply not_elem_of_nil.
  - vm_compute. reflexivity.
  - split; [exact S|]. refine (G (str "encoding") _ _).
    + apply (bool_decide_unpack _). vm_compute. exact I.
    + intros v. vm_compute. intros [= <-]. split; [done|]. apply (bool_decide_unpack _). vm_compute. exact I.
Defined.

(** ** From the options to the session *)

(** The options the constructor of Client begins with. *)
Definition client_base (id : Uuid) : obj jv := [(str "logEmitter", JFn []); (str "id", JUuid id)].

Lemma client_base_disjoint id j : j ∈ map fst defaultOptions -> j ∉ map fst (client_base id).
Proof.
  intros Hj. assert (HF : Forall (fun j => j <> str "logEmitter" /\ j <> str "id") (map fst defaultOptions)).
  { apply (bool_decide_unpack _). vm_compute. exact I. }
  rewrite Forall_forall in HF. destruct (HF j Hj) as [H1 H2]. cbn. rewrite !not_elem_of_cons. split_and!; [done..|apply not_elem_of_nil].
Qed.

(** An option without a default is the user's. *)
Lemma plain_option base u o k :
  NoDup (map fst u) -> (forall j, j ∈ map fst defaultOptions -> j ∉ map fst base) ->
  extend_options base (JObj u) = Ok o ->
  obj_get defaultOptions (str k) = None -> obj_get base (str k) = None ->
  str k ∉ [str "sni"; str "logEmitter"; str "authProvider"; str "encoding"] ->
  prop o k = prop u k.
Proof.
  intros Hu Hb [-> _]%extend_options_ok Hd Hk Ha. rewrite prop_adjust by done. unfold prop, get.
  rewrite with_defaults_get, Hd, Hk by done. by destruct (obj_get u (str k)).
Qed.

Ltac prop_simpl := repeat (rewrite prop_set; ((rewrite decide_True by done) || (rewrite decide_False by done))).

(** The credentials the session is given. *)
Definition user_credentials (o : obj jv) : option (jsstr * jsstr) :=
  if truthy (prop o "credentials") then
    match prop (own_props (prop o "credentials")) "username", prop (own_props (prop o "credentials")) "password" with
    | JStr u, JStr p => Some (u, p)
    | _, _ => None
    end
  else None.

Lemma prop_set_when b k v o j : str j <> str k -> prop (set_when b k v o) j = prop o j.
Proof. intros Hj. unfold set_when. destruct b; [|done]. by rewrite prop_set, decide_False. Qed.

(** The credentials the native options get when the authentication is by
    credentials, or not at all. *)
Lemma rust_credentials_ok o rust :
  (truthy (prop o "credentials") = false -> truthy (prop o "authProvider") = true ->
   prop o "authProvider" = instance ["NoAuthProvider"; "AuthProvider"]%string) ->
  rust_credentials o rust = Ok (if truthy (prop o "credentials") then set_credentials rust (prop o "credentials") else rust).
Proof.
  intros Hauth. unfold rust_credentials. destruct (truthy (prop o "credentials")); [done|].
  destruct (truthy (prop o "authProvider")) eqn:Ha; [|done]. by rewrite (Hauth eq_refl eq_refl).
Qed.

(** An option that is passed only when it is truthy. *)
Definition when_truthy (v : jv) : jv := if truthy v then v else JUndef.

Lemma prop_set_when_same b k v o : prop (set_when b k v o) k = if b then v else prop o k.
Proof. unfold set_when. destruct b; [|done]. by rewrite prop_set, decide_True. Qed.

(** A property of the native options is the one the constructor gave it, unless
    it is one of the four set later. *)
Lemma setRustOptions_props o id :
  prop o "id" = JUuid id ->
  (truthy (prop o "credentials") = false -> truthy (prop o "authProvider") = true ->
   prop o "authProvider" = instance ["NoAuthProvider"; "AuthProvider"]%string) ->
  exists rust o', setRustOptions o = Ok (rust, o') /\
    prop rust "connectPoints" = prop o "contactPoints" /\ prop rust "keyspace" = prop o "keyspace" /\
    prop rust "applicationName" = prop o "applicationName" /\ prop rust "applicationVersion" = prop o "applicationVersion" /\
    prop rust "clientId" = JStr (Uuid_toString id) /\
    prop rust "credentialsUsername" =
      (if truthy (prop o "credentials") then prop (own_props (prop o "credentials")) "username" else JUndef) /\
    prop rust "credentialsPassword" =
      (if truthy (prop o "credentials") then prop (own_props (prop o "credentials")) "password" else JUndef) /\
    prop rust "cacheSize" = when_truthy (prop o "maxPrepared") /\
    prop rust "sslOptions" = when_truthy (prop o "sslOptions").
Proof.
  intros Hid Hauth. unfold setRustOptions. rewrite Hid. cbv zeta. set (o' := obj_set o (str "id") _).
  assert (Ho' : forall j, str j <> str "id" -> prop o' j = prop o j).
  { intros j Hj. unfold o'. by rewrite prop_set, decide_False. }
  rewrite rust_credentials_ok by (by rewrite !Ho').
  rewrite bind_ok_l. eexists _, o'. split; [reflexivity|].
  rewrite (Ho' "credentials"%string), (Ho' "maxPrepared"%string), (Ho' "sslOptions"%string) by done.
  split_and!; rewrite ?prop_set_when_same, ?prop_set_when by done; destruct (truthy (prop o "credentials"));
    unfold set_credentials, when_truthy; prop_simpl; rewrite ?prop_set_when_same, ?prop_set_when by done;
    try (by apply Ho'); try done; try (unfold o'; cbn; by prop_simpl); by destruct (truthy _).
Qed.

Lemma adjusted_provider base u o :
  NoDup (map fst u) -> (forall j, j ∈ map fst defaultOptions -> j ∉ map fst base) ->
  obj_get u (str "authProvider") = None ->
  extend_options base (JObj u) = Ok o ->
  prop o "authProvider" =
    if truthy (prop o "credentials") then JNull else instance ["NoAuthProvider"; "AuthProvider"]%string.
Proof.
  intros Hu Hb Hnone [-> _]%extend_options_ok. set (m := with_defaults base (JObj u)).
  assert (Hnull : prop m "authProvider" = JNull).
  { unfold prop, get, m. rewrite with_defaults_get, Hnone by done. reflexivity. }
  rewrite (prop_adjust _ "credentials") by (apply (bool_decide_unpack _); vm_compute; exact I).
  unfold adjust. cbv zeta. set (m1 := obj_set m (str "sni") JUndef). set (m2 := if truthy (prop m1 "logEmitter") then _ else _).
  assert (E2 : forall k, str k <> str "sni" -> str k <> str "logEmitter" -> prop m2 k = prop m k).
  { intros k H1 H2. unfold m2, m1. case_match; by prop_simpl. }
  transitivity (prop (adjust_auth m2) "authProvider"); [case_match; by prop_simpl|].
  unfold adjust_auth. rewrite !E2, Hnull by done. cbn [truthy orb].
  destruct (truthy (prop m "credentials")); [by rewrite E2|by prop_simpl].
Qed.

Lemma napi_strings_map l : napi_strings (JArr (map (fun p => JStr p) l)) = Ok (Some l).
Proof.
  unfold napi_strings. assert (E : traverse (fun v => match v with JStr s => Ok s | _ => Throw PlainError end) (map JStr l) = Ok l).
  { induction l as [|p l IH]; [done|]. cbn [map traverse]. rewrite bind_ok_l. change (map JStr l) with (map (fun p => JStr p) l) in *.
    by rewrite IH. }
  change (map (fun p => JStr p) l) with (map JStr l). by rewrite E.
Qed.

Lemma elem_when_some {A B} (o : option A) (f : A -> B) b : b ∈ when_some o f <-> exists a, o = Some a /\ f a = b.
Proof. destruct o; cbn; [rewrite list_elem_of_singleton; naive_solver|split; [by intros ?%elem_of_nil|naive_solver]]. Qed.

(** Whether certificates are verified. *)
Definition verified (ssl : SslOptions) : bool :=
  match reject_unauthorized ssl with Some false => false | Some true | None => true end.

(** The calls that configure the builder. *)
Lemma builder_calls c :
  is_Some (credentials_username c) <-> is_Some (credentials_password c) ->
  exists calls,
    (forall context, configure_session_builder context c =
       Some (_ ← (match ssl_options c with Some _ => context | None => Ok tt end); Ok calls)) /\
    (forall l, KnownNodes l ∈ calls <-> l = default [] (connect_points c)) /\
    (forall k, UseKeyspace k ∈ calls <-> so_keyspace c = Some k) /\
    (forall i, ClientId i ∈ calls <-> client_id c = Some i) /\
    (forall u p, User u p ∈ calls <-> credentials_username c = Some u /\ credentials_password c = Some p) /\
    (forall v, TlsContext v ∈ calls <-> verified <$> ssl_options c = Some v).
Proof.
  intros Hboth. destruct c as [points ks name version i un pw cache ssl]. unfold configure_session_builder, self_identity. cbn in *.
  assert (Hcase : (exists a b, un = Some a /\ pw = Some b) \/ (un = None /\ pw = None)).
  { rewrite <- !not_eq_None_Some in Hboth. destruct un, pw; naive_solver. }
  fold (verified). set (tls := match ssl with Some x => [TlsContext (verified x)] | None => [] end).
  set (user := match un, pw with Some a, Some b => [User a b] | _, _ => [] end).
  exists ((DriverName :: DriverVersionAsApplicationVersion :: when_some name ApplicationName ++ when_some name ApplicationVersion ++ when_some i ClientId) ++
    [KnownNodes (default [] points)] ++ when_some ks UseKeyspace ++ user ++ tls).
  split.
  { intros context. destruct Hcase as [(a & b & -> & ->)|[-> ->]]; subst user tls; destruct ssl as [x|]; cbn;
      rewrite ?app_nil_r, <- ?app_assoc; cbn; try done; destruct context; cbn; rewrite <- ?app_assoc; done. }
  assert (T : forall v, TlsContext v ∈ tls <-> verified <$> ssl = Some v).
  { intros v. subst tls. destruct ssl; cbn; [rewrite list_elem_of_singleton; naive_solver|split; [by intros ?%elem_of_nil|done]]. }
  assert (N : forall e, e ∈ tls -> exists v, e = TlsContext v).
  { intros e. subst tls. destruct ssl; [intros ->%list_elem_of_singleton; eauto|by intros ?%elem_of_nil]. }
  subst user. clearbody tls. clear Hboth.
  destruct Hcase as [(a & b & -> & ->)|[-> ->]]; split_and!; intros;
    rewrite ?elem_of_app, ?elem_of_cons, ?elem_of_app, ?elem_of_cons, ?elem_when_some, ?elem_of_nil, ?T;
    clear T; destruct ks, name, i; naive_solver.
Qed.

(** A name and a password, or neither. *)
Definition both_or_none (un pw : jv) : Prop := (un = JUndef /\ pw = JUndef) \/ exists a b, un = JStr a /\ pw = JStr b.

Lemma SessionOptions_credentials rust c :
  both_or_none (prop rust "credentialsUsername") (prop rust "credentialsPassword") -> SessionOptions_from rust = Ok c ->
  is_Some (credentials_username c) <-> is_Some (credentials_password c).
Proof.
  unfold SessionOptions_from. intros Hboth. do 5 (intros (? & _ & H)%bind_ok; revert H).
  intros (a & Ha & H)%bind_ok. apply bind_ok in H as (b & Hb & H). apply bind_ok in H as (? & _ & H).
  apply bind_ok in H as (? & _ & H). injection H as <-. cbn.
  destruct Hboth as [[E1 E2]|(? & ? & E1 & E2)]; rewrite E1 in Ha; rewrite E2 in Hb; injection Ha as <-; injection Hb as <-; [done|by split; eauto].
Qed.

Lemma accepted_id id u o :
  NoDup (map fst u) -> obj_get u (str "id") = None -> extend_options (client_base id) (JObj u) = Ok o -> prop o "id" = JUuid id.
Proof.
  intros Hu Hid [-> _]%extend_options_ok. rewrite prop_adjust by (apply (bool_decide_unpack _); vm_compute; exact I).
  unfold prop, get. rewrite with_defaults_get, Hid by (done || apply client_base_disjoint). done.
Qed.

Lemma accepted_maxPrepared id u o :
  NoDup (map fst u) -> extend_options (client_base id) (JObj u) = Ok o ->
  when_truthy (prop o "maxPrepared") = when_truthy (prop u "maxPrepared").
Proof.
  intros Hu [-> _]%extend_options_ok. rewrite prop_adjust by (apply (bool_decide_unpack _); vm_compute; exact I).
  unfold prop, get. rewrite with_defaults_get by (done || apply client_base_disjoint).
  change (obj_get defaultOptions (str "maxPrepared")) with (Some JNull). by destruct (obj_get u (str "maxPrepared")).
Qed.

(** The credentials of accepted options without a provider of the user. *)
Lemma accepted_credentials id u o :
  (forall k, obj_get defaultOptions (str k) = None -> obj_get (client_base id) (str k) = None ->
    bool_decide (str k ∈ map str ["sni"; "logEmitter"; "authProvider"; "encoding"]%string) = false -> prop o k = prop u k) ->
  prop o "authProvider" = (if truthy (prop o "credentials") then JNull else instance ["NoAuthProvider"; "AuthProvider"]%string) ->
  extend_options (client_base id) (JObj u) = Ok o ->
  prop u "credentials" = prop o "credentials" /\ exists un pw,
    (if truthy (prop o "credentials") then prop (own_props (prop o "credentials")) "username" else JUndef) = un /\
    (if truthy (prop o "credentials") then prop (own_props (prop o "credentials")) "password" else JUndef) = pw /\
    prop (own_props (prop o "credentials")) "username" = un /\ prop (own_props (prop o "credentials")) "password" = pw /\
    both_or_none un pw.
Proof.
  intros P Hauth Ho. pose proof (extend_options_ok _ _ _ Ho) as [_ A]. split; [by rewrite P|]. do 2 eexists. split_and!; [done..| | |].
  all: destruct (truthy (prop o "credentials")) eqn:Ht; try done.
  1, 2: revert Ht; by destruct (prop o "credentials").
  - pose proof (ac_credentials _ A) as Hc. rewrite Hauth in Hc. destruct (Hc eq_refl) as (H1 & H2 & _).
    destruct (prop (own_props _) "username"), (prop (own_props _) "password"); try done. right. eauto.
  - by left.
Qed.


Definition some_id : Uuid := mkUuid [1; 2; 3; 4; 5; 6; 7; 8; 9; 10; 11; 12; 13; 14; 15; 16].
Definition some_options : obj jv :=
  [(str "contactPoints", JArr (map (fun p => JStr p) [str "10.0.0.1"; str "db:9042"])); (str "keyspace", jstr "ks");
   (str "maxPrepared", jnum 100); (str "sslOptions", object [("rejectUnauthorized"%string, JBool false)]);
   (str "credentials", object [("username"%string, jstr "u"); ("password"%string, jstr "p")])].


(** A provider with a name and no password is accepted and reaches the panic. *)
Lemma provider_without_password_panics :
  exists o rust o' options,
    extend_options (client_base some_id) (JObj [(str "contactPoints", JArr [jstr "a"]);
      (str "authProvider", JInst (classes ["PlainTextAuthProvider"; "AuthProvider"]%string) [(str "username", jstr "u")])]) = Ok o /\
    setRustOptions o = Ok (rust, o') /\ SessionOptions_from rust = Ok options /\ configure_session_builder (Ok tt) options = None.
Proof. do 4 eexists. repeat (split; [vm_compute; reflexivity|]). reflexivity. Qed.

(** The version of the application is never sent: its name is sent instead. *)
Lemma application_version_is_name c v : ApplicationVersion v ∈ self_identity c <-> application_name c = Some v.
Proof.
  unfold self_identity. rewrite !elem_of_app, !elem_when_some, !elem_of_cons, elem_of_nil.
  destruct (application_name c), (client_id c); naive_solver.
Qed.

(** A group of options cannot be removed: null and undefined keep the
    defaults, while undefined for one of its properties removes the default. *)
Lemma undefined_group_and_property :
  is_ok (extend_options [] (JObj (contact ["a"%string] ++ [(str "socketOptions", JUndef); (str "policies", JNull)]))) = true /\
  extend_options [] (JObj (contact ["a"%string] ++ [(str "socketOptions", object [("readTimeout"%string, JUndef)])])) = Throw TypeError.
Proof. vm_compute. auto. Qed.
