(* ===== verification/UtilsTheorems.v ===== *)
(** The helpers of Utils: search, insertion, shuffle, sets and named
    parameters. *)
From stdpp Require Import gmap sorting.
From S2P Require Import Prelude.
From S2P Require Import JsNum.
From S2P Require Import JsStr.
From S2P Require Import JsFloat.
From S2P Require Import Policies.
From S2P Require Import Utils.

(** ** Binary search *)

(** [compareFunc] against [key] goes from negative through zero to positive
    along the array, which is what sortedness gives. *)
Definition ascending_for {A K} (arr : list A) (key : K) (cmp : A -> K -> Z) : Prop :=
  forall i j x y, (i < j)%nat -> arr !! i = Some x -> arr !! j = Some y ->
    (cmp y key <= 0 -> cmp x key <= 0) /\ (cmp y key < 0 -> cmp x key < 0).

Section search.
Context {A K : Type} (arr : list A) (key : K) (cmp : A -> K -> Z).
Hypothesis Hasc : ascending_for arr key cmp.
Hypothesis Hlen : Z.of_nat (length arr) < 2 ^ 31.

(** Everything before [low] is smaller than the key, everything after [high]
    larger. *)
Definition search_inv (s : Z * Z) : Prop :=
  0 <= s.1 /\ s.2 < Z.of_nat (length arr) /\ s.1 <= s.2 + 1 /\
  (forall i x, arr !! i = Some x -> Z.of_nat i < s.1 -> cmp x key < 0) /\
  (forall i x, arr !! i = Some x -> s.2 < Z.of_nat i -> 0 < cmp x key).

Definition search_result (r : Z) : Prop :=
  (0 <= r -> exists x, arr !! Z.to_nat r = Some x /\ cmp x key = 0) /\
  (r < 0 -> let p := .~ r in
     0 <= p <= Z.of_nat (length arr) /\
     (forall i x, arr !! i = Some x -> Z.of_nat i < p -> cmp x key < 0) /\
     (forall i x, arr !! i = Some x -> p <= Z.of_nat i -> 0 < cmp x key)).

Lemma search_mid low high :
  0 <= low <= high -> high < 2 ^ 31 -> low <= (low + high) .>>> 1 <= high.
Proof.
  intros H1 H2. rewrite js_ushr_div by lia. rewrite to_uint32_id by (change (2 ^ 32) with (2 * 2 ^ 31); lia).
  div_lia.
Qed.

Lemma not_found_result low high : search_inv (low, high) -> high < low -> search_result (.~ low).
Proof.
  intros (H1 & H2 & H3 & H4 & H5) Hl. cbn [fst snd] in *.
  assert (Hi : is_int32 low) by (unfold is_int32; lia).
  assert (Hi' : is_int32 (- low - 1)) by (unfold is_int32 in *; lia).
  split; [rewrite js_not_eq by done; lia|]. intros _. cbv zeta.
  rewrite (js_not_eq low) by done. rewrite js_not_eq by done.
  replace (- (- low - 1) - 1) with low by lia. split; [lia|]. split; [done|].
  intros i x Hx Hp. eapply H5; [done|lia].
Qed.

Lemma search_step s :
  search_inv s ->
  match binarySearch_step arr key cmp s with
  | inl s' => search_inv s' /\ 0 <= s'.2 - s'.1 + 1 < s.2 - s.1 + 1
  | inr r => search_result r
  end.
Proof.
  destruct s as [low high]. intros Hs. pose proof Hs as (H1 & H2 & H3 & H4 & H5).
  unfold binarySearch_step. cbn [fst snd] in *.
  destruct (Z.leb_spec low high) as [Hl|Hl]; [|by apply not_found_result with high].
  pose proof (search_mid low high ltac:(lia) ltac:(lia)) as Hm.
  set (mid := (low + high) .>>> 1) in *.
  destruct (arr !! Z.to_nat mid) as [v|] eqn:Ev.
  2: { apply lookup_ge_None in Ev. lia. }
  destruct (Z.ltb_spec (cmp v key) 0) as [Hc|Hc]; [|destruct (Z.ltb_spec 0 (cmp v key)) as [Hc'|Hc']].
  - split; [|cbn; lia]. split_and!; cbn [fst snd]; try lia; [|done].
    intros i x Hx Hi. destruct (decide (i = Z.to_nat mid)) as [->|]; [congruence|].
    apply (Hasc i (Z.to_nat mid) x v); [lia|done|done|lia].
  - split; [|cbn; lia]. split_and!; cbn [fst snd]; try lia; [done|].
    intros i x Hx Hi. destruct (decide (i = Z.to_nat mid)) as [->|]; [congruence|].
    destruct (Z.lt_ge_cases 0 (cmp x key)) as [|Hx']; [done|].
    destruct (Hasc (Z.to_nat mid) i v x ltac:(lia) Ev Hx) as [Hd _]. lia.
  - split; [|lia]. intros _. exists v. split; [done|lia].
Qed.

Lemma binarySearch_spec : exists r, binarySearch arr key cmp = Ok r /\ search_result r.
Proof.
  unfold binarySearch. cbv zeta.
  destruct (js_while_total (binarySearch_step arr key cmp) search_inv search_result
    (fun s => s.2 - s.1 + 1) (Z.to_pos (Z.of_nat (length arr) + 2)) (0, Z.of_nat (length arr) - 1))
    as (r & -> & Hr).
  - apply search_step.
  - split_and!; cbn [fst snd]; try lia.
    intros i x Hx Hi. apply lookup_lt_Some in Hx. lia.
  - cbn [fst snd]. rewrite Z2Pos.id by lia. lia.
  - eauto.
Qed.
End search.

(** ** Sorted insertion *)

Section insertion.
Context {A : Type} (cmp : A -> A -> Z).

(** [cmp] is a total preorder on the elements that satisfy [wf]. *)
Context (wf : A -> Prop).
Hypothesis cmp_sym : forall x y, wf x -> wf y -> Z.sgn (cmp y x) = - Z.sgn (cmp x y).
Hypothesis cmp_le_trans : forall x y z, wf x -> wf y -> wf z -> cmp x y <= 0 -> cmp y z <= 0 -> cmp x z <= 0.

Definition cmp_le (x y : A) : Prop := cmp x y <= 0.

Lemma strongly_sorted_lookup (R : A -> A -> Prop) l i j x y :
  StronglySorted R l -> (i < j)%nat -> l !! i = Some x -> l !! j = Some y -> R x y.
Proof.
  intros Hl. revert i j. induction Hl as [|z l Hl IH Hz]; intros i j Hij Hx Hy; [done|].
  destruct j as [|j]; [lia|]. cbn in Hy. destruct i as [|i].
  - injection Hx as ->. by eapply Forall_lookup_1.
  - apply (IH i j); [lia|done|done].
Qed.

Lemma sorted_ascending l key :
  StronglySorted cmp_le l -> Forall wf l -> wf key -> ascending_for l key cmp.
Proof.
  intros Hs Hw Hk i j x y Hij Hx Hy.
  pose proof (strongly_sorted_lookup _ _ _ _ _ _ Hs Hij Hx Hy) as Hxy. unfold cmp_le in Hxy.
  assert (wf x) by (by eapply Forall_lookup_1). assert (wf y) by (by eapply Forall_lookup_1).
  split; intros H1.
  - by apply cmp_le_trans with y.
  - assert (Hle : cmp x key <= 0) by (apply cmp_le_trans with y; (done || lia)).
    destruct (Z.eq_dec (cmp x key) 0) as [E|]; [|lia].
    assert (cmp key x <= 0) by (pose proof (cmp_sym x key ltac:(done) ltac:(done)); lia).
    assert (cmp key y <= 0) by (by apply cmp_le_trans with x).
    pose proof (cmp_sym key y ltac:(done) ltac:(done)). lia.
Qed.

Lemma splice_in_perm (p : nat) (x : A) l : splice_in p x l ≡ₚ x :: l.
Proof. unfold splice_in. rewrite <- Permutation_middle. by rewrite take_drop. Qed.

Lemma splice_in_sorted p x l :
  StronglySorted cmp_le l ->
  (forall i y, l !! i = Some y -> (i < p)%nat -> cmp_le y x) ->
  (forall i y, l !! i = Some y -> (p <= i)%nat -> cmp_le x y) ->
  StronglySorted cmp_le (splice_in p x l).
Proof.
  unfold splice_in. intros Hl. revert p. induction Hl as [|z l Hl IH Hz]; intros p H1 H2.
  { rewrite take_nil, drop_nil. by repeat constructor. }
  destruct p as [|p]; cbn.
  - constructor; [by constructor|]. apply Forall_lookup. intros i y Hy. apply (H2 i y Hy). lia.
  - constructor.
    + apply IH; intros i y Hy Hi; [apply (H1 (S i))|apply (H2 (S i))]; (done || lia).
    + apply Forall_app. split; [by apply Forall_take|]. constructor; [|by apply Forall_drop].
      apply (H1 O z); [done|lia].
Qed.

Lemma insertSorted_spec l x :
  StronglySorted cmp_le l -> Forall wf l -> wf x -> Z.of_nat (length l) < 2 ^ 31 ->
  exists l', insertSorted l x cmp = Ok l' /\ l' ≡ₚ x :: l /\ StronglySorted cmp_le l'.
Proof.
  intros Hs Hw Hx Hlen. destruct l as [|a l]; [exists [x]; split_and!; [done|done|by repeat constructor]|].
  unfold insertSorted. remember (a :: l) as arr eqn:E. clear E a l.
  destruct (binarySearch_spec arr x cmp (sorted_ascending arr x Hs Hw Hx) Hlen) as (r & -> & R1 & R2).
  cbn [mbind result_bind]. eexists. split; [done|]. split; [apply splice_in_perm|].
  apply splice_in_sorted; [done| |]; destruct (Z.ltb_spec r 0) as [Hr|Hr].
  - intros i y Hy Hi. destruct (R2 Hr) as (Hp & Hlt & _). pose proof (Hlt i y Hy ltac:(lia)). unfold cmp_le. lia.
  - intros i y Hy Hi. destruct (R1 Hr) as (v & Hv & Ev).
    pose proof (strongly_sorted_lookup _ _ i (Z.to_nat r) _ _ Hs Hi Hy Hv) as Hyv. unfold cmp_le in *.
    apply cmp_le_trans with v; try (by eapply Forall_lookup_1); lia || done.
  - intros i y Hy Hi. destruct (R2 Hr) as (Hp & _ & Hgt). pose proof (Hgt i y Hy ltac:(lia)). unfold cmp_le.
    assert (wf y) by (by eapply Forall_lookup_1). pose proof (cmp_sym y x ltac:(done) Hx). lia.
  - intros i y Hy Hi. destruct (R1 Hr) as (v & Hv & Ev). unfold cmp_le.
    assert (wf v) by (by eapply Forall_lookup_1). assert (wf y) by (by eapply Forall_lookup_1).
    assert (cmp x v <= 0) by (pose proof (cmp_sym v x ltac:(done) Hx); lia).
    destruct (decide (i = Z.to_nat r)) as [->|]; [congruence|].
    apply cmp_le_trans with v; try done.
    apply (strongly_sorted_lookup cmp_le arr (Z.to_nat r) i); (done || lia).
Qed.
End insertion.

(** ** Shuffle *)

(** A random number below 1 times [n], floored, is an index below [n]. *)
Lemma random_index_range r n : random_ok r -> 0 < n <= 2 ^ 53 -> 0 <= random_index r n < n.
Proof.
  intros [He Hr] Hn. unfold random_index, fl_floor, fl_mul. cbn [fst snd].
  rewrite He. change (Z.of_N (53 + 0)) with 53.
  assert (Hz : 0 <= r.1 * n) by nia. pose proof (round53_error (r.1 * n) Hz) as Hd.
  assert (H0 : 0 <= round53 (r.1 * n)).
  { apply (round53_bound_below 0 0 0); lia. }
  assert (H1 : round53 (r.1 * n) < n * 2 ^ 53) by nia.
  split; [by apply Z.div_pos|]. apply Z.div_lt_upper_bound; lia.
Qed.

(** Every index can come out. *)
Lemma random_index_reach j n :
  0 <= j < n -> n <= 2 ^ 31 -> exists r, random_ok r /\ random_index r n = j.
Proof.
  intros Hj Hn. set (a := (j * 2 ^ 53 + n - 1) / n).
  pose proof (Z.div_mod (j * 2 ^ 53 + n - 1) n ltac:(lia)) as Hd.
  pose proof (Z.mod_pos_bound (j * 2 ^ 53 + n - 1) n ltac:(lia)) as Hm. fold a in Hd.
  assert (Ha : j * 2 ^ 53 <= a * n < j * 2 ^ 53 + n) by lia.
  assert (Ha' : 0 <= a < 2 ^ 53).
  { split; [apply Z.div_pos; lia|]. apply Z.div_lt_upper_bound; [lia|].
    change (2 ^ 53) with 9007199254740992 in *. change (2 ^ 31) with 2147483648 in *. nia. }
  exists (a, 53%N). split; [split; [done|exact Ha']|].
  unfold random_index, fl_floor, fl_mul. cbn [fst snd]. change (Z.of_N (53 + 0)) with 53.
  assert (H0 : j * 2 ^ 53 <= round53 (a * n)).
  { apply (round53_bound_below _ j 53); lia. }
  pose proof (round53_error (a * n) ltac:(nia)) as He.
  assert (H1 : round53 (a * n) < (j + 1) * 2 ^ 53) by (change (2 ^ 53) with 9007199254740992 in *; change (2 ^ 31) with 2147483648 in *; nia).
  symmetry. apply Z.div_unique with (round53 (a * n) - 2 ^ 53 * j); lia.
Qed.

Lemma swap_perm {A} (arr : list A) i j : swap arr i j ≡ₚ arr.
Proof.
  unfold swap. destruct (arr !! i) as [x|] eqn:Hi; [|done]. destruct (arr !! j) as [y|] eqn:Hj; [|done].
  by apply Permutation_insert_swap.
Qed.

Lemma shuffle_loop_perm {A} i rnds (arr : list A) : shuffle_loop i rnds arr ≡ₚ arr.
Proof.
  revert rnds arr. induction i as [|i IH]; intros [|r rnds] arr; cbn; try done.
  rewrite IH. apply swap_perm.
Qed.

(** The elements from [i] on are placed; those before are still to be. *)
Lemma shuffle_loop_reach {A} (target : list A) i arr :
  (i < length arr)%nat -> Z.of_nat (length arr) <= 2 ^ 31 -> length target = length arr ->
  take (S i) arr ≡ₚ take (S i) target -> drop (S i) arr = drop (S i) target ->
  exists rnds, Forall random_ok rnds /\ length rnds = i /\ shuffle_loop i rnds arr = target.
Proof.
  revert arr. induction i as [|i IH]; intros arr Hi Hl Ht Hp Hd.
  { exists []. split_and!; [done|done|]. cbn.
    destruct arr as [|a arr], target as [|b target]; try done. cbn in *.
    assert (a = b) as -> by (by apply Permutation_length_1). by rewrite !drop_0 in Hd; subst. }
  destruct (lookup_lt_is_Some_2 target (S i)) as [y Hy]; [lia|].
  destruct (lookup_lt_is_Some_2 arr (S i)) as [x Hx]; [lia|].
  assert (Hin : y ∈ take (S (S i)) arr).
  { rewrite Hp, (take_S_r _ _ _ Hy). set_solver. }
  apply list_elem_of_lookup_1 in Hin as [j Hj]. rewrite lookup_take_Some in Hj. destruct Hj as [Hj Hlt].
  destruct (random_index_reach (Z.of_nat j) (Z.of_nat (S i) + 1) ltac:(lia) ltac:(lia)) as (r & Hr & Er).
  set (arr' := swap arr (S i) j).
  assert (Earr : arr' = <[j := x]> (<[S i := y]> arr)) by (unfold arr', swap; by rewrite Hx, Hj).
  assert (Hlook : arr' !! S i = Some y).
  { rewrite Earr. destruct (decide (j = S i)) as [->|].
    - replace y with x by congruence. by rewrite list_lookup_insert_eq by (rewrite length_insert; lia).
    - by rewrite list_lookup_insert_ne, list_lookup_insert_eq by (done || lia). }
  assert (Hlen : length arr' = length arr) by (rewrite Earr, !length_insert; done).
  assert (Hdrop : drop (S (S i)) arr' = drop (S (S i)) arr).
  { rewrite Earr, drop_insert_lt, drop_insert_lt by lia. done. }
  assert (Htake : take (S (S i)) arr' ≡ₚ take (S (S i)) arr).
  { apply (Permutation_app_inv_r (drop (S (S i)) arr)). rewrite take_drop, <- Hdrop, take_drop. apply swap_perm. }
  destruct (IH arr') as (rnds & R1 & R2 & R3); [lia|lia|lia| | |].
  - rewrite Hp, (take_S_r _ _ _ Hlook), (take_S_r target _ _ Hy) in Htake. by apply Permutation_app_inv_r in Htake.
  - rewrite (drop_S _ _ _ Hlook), (drop_S _ _ _ Hy). by rewrite Hdrop, Hd.
  - exists (r :: rnds). split_and!; [by constructor|cbn; lia|]. cbn [shuffle_loop].
    rewrite Er, Nat2Z.id. exact R3.
Qed.

Lemma shuffle_reach {A} (arr target : list A) :
  Z.of_nat (length arr) <= 2 ^ 31 -> target ≡ₚ arr ->
  exists rnds, Forall random_ok rnds /\ length rnds = (length arr - 1)%nat /\ shuffleArray arr rnds = target.
Proof.
  intros Hl Hp. pose proof (Permutation_length Hp) as Hlen. unfold shuffleArray.
  destruct arr as [|a arr]; [exists []; split_and!; [done|done|by destruct target]|].
  apply shuffle_loop_reach; [cbn; lia|done|done| |].
  - rewrite !take_ge by (cbn in *; lia). done.
  - rewrite !drop_ge by (cbn in *; lia). done.
Qed.

(** ** Sets *)

(** The length of a set is the number of its keys. *)
Definition HashSet_wf (s : HashSet) : Prop := hs_length s = Z.of_nat (size (hs_items s)).

Lemma HashSet_contains_spec s k : HashSet_wf s -> HashSet_contains s k = bool_decide (k ∈ hs_items s).
Proof.
  unfold HashSet_wf, HashSet_contains. intros Hs.
  destruct (Z.ltb_spec 0 (hs_length s)) as [|Hl]; cbn [andb]; [done|].
  assert (size (hs_items s) = 0%nat) as E%size_empty_inv by lia.
  symmetry. apply bool_decide_eq_false. set_solver.
Qed.

Lemma HashSet_add_spec s k :
  HashSet_wf s ->
  (HashSet_add s k).1 = bool_decide (k ∉ hs_items s) /\
  hs_items (HashSet_add s k).2 = {[k]} ∪ hs_items s /\ HashSet_wf (HashSet_add s k).2.
Proof.
  intros Hs. unfold HashSet_add. rewrite HashSet_contains_spec by done.
  destruct (bool_decide_reflect (k ∈ hs_items s)) as [Hk|Hk]; cbn [fst snd].
  - rewrite bool_decide_false by naive_solver. split_and!; [done|set_solver|done].
  - rewrite bool_decide_true by done. split_and!; [done|done|].
    unfold HashSet_wf in *. cbn [hs_length hs_items]. rewrite size_union by set_solver.
    rewrite size_singleton. lia.
Qed.

Lemma HashSet_remove_spec s k :
  HashSet_wf s ->
  (HashSet_remove s k).1 = (if decide (k ∈ hs_items s) then None else Some false) /\
  hs_items (HashSet_remove s k).2 = hs_items s ∖ {[k]} /\ HashSet_wf (HashSet_remove s k).2.
Proof.
  intros Hs. unfold HashSet_remove. rewrite HashSet_contains_spec by done.
  destruct (bool_decide_reflect (k ∈ hs_items s)) as [Hk|Hk]; cbn [fst snd negb].
  - rewrite decide_True by done. split_and!; [done|done|].
    unfold HashSet_wf in *. cbn [hs_length hs_items]. rewrite Hs, size_difference by set_solver.
    rewrite size_singleton. assert (size (hs_items s) <> 0%nat) by (apply size_non_empty_iff; set_solver). lia.
  - rewrite decide_False by done. split_and!; [done|set_solver|done].
Qed.

(** ** Objects and named parameters *)

Section objects.
Context {V : Type}.
Implicit Types (o : obj V).

(** The value of the last property whose name in lower case is [k]. *)
Definition last_lower o k : option V :=
  snd <$> last (List.filter (fun kv => bool_decide (toLowerCase kv.1 = k)) o).

Lemma toLowerCaseProperties_get o k : obj_get (toLowerCaseProperties o) k = last_lower o k.
Proof.
  unfold toLowerCaseProperties, last_lower.
  induction o as [|[a b] o IH] using rev_ind; [done|].
  rewrite foldl_app, List.filter_app. cbn [foldl List.filter fst snd]. rewrite obj_get_set, IH.
  destruct (decide (toLowerCase a = k)) as [E|E].
  - rewrite bool_decide_true by done. by rewrite last_snoc.
  - rewrite bool_decide_false by done. by rewrite app_nil_r.
Qed.

Lemma traverse_option {B} (f : B -> option V) (l : list B) :
  traverse (fun x => match f x with Some v => Ok v | None => Throw ArgumentError end) l =
    match mapM f l with Some vs => Ok vs | None => Throw ArgumentError end.
Proof.
  induction l as [|x l IH]; cbn; [done|]. rewrite IH.
  destruct (f x); cbn; [|done]. by destruct (mapM f l).
Qed.
End objects.

(** ** Theorems *)

(** On an array sorted by [compareFunc], binary search ends after
    a number of rounds below the length plus two, with the index of an element
    that compares as equal to the key, or with the complement of the only
    place where the key can be inserted. Sorted insertion keeps the array
    sorted and adds exactly the item. *)
Theorem insertSorted_sorted {A} (cmp : A -> A -> Z) (wf : A -> Prop) (l : list A) (x : A)
    (Hsym : forall x y, wf x -> wf y -> Z.sgn (cmp y x) = - Z.sgn (cmp x y))
    (Htrans : forall x y z, wf x -> wf y -> wf z -> cmp x y <= 0 -> cmp y z <= 0 -> cmp x z <= 0)
    (Hs : StronglySorted (cmp_le cmp) l) (Hw : Forall wf l) (Hx : wf x)
    (Hlen : Z.of_nat (length l) < 2 ^ 31) :
  (exists r, binarySearch l x cmp = Ok r /\ search_result l x cmp r) /\
  exists l', insertSorted l x cmp = Ok l' /\ l' ≡ₚ x :: l /\ StronglySorted (cmp_le cmp) l'.
Proof.
  split; [|by apply (insertSorted_spec cmp wf)].
  apply binarySearch_spec; [|done]. by apply (sorted_ascending cmp wf).
Qed.

Lemma insertSorted_sorted_witness :
  exists l', insertSorted [2; 3; 3; 8] 3 Z.sub = Ok l' /\ l' ≡ₚ [3; 2; 3; 3; 8] /\ StronglySorted (cmp_le Z.sub) l'.
Proof.
  apply (insertSorted_sorted Z.sub (fun _ => True) [2; 3; 3; 8] 3).
  1-2: intros; lia.
  - unfold cmp_le. repeat (constructor; try lia).
  - by repeat constructor.
  - exact I.
  - reflexivity.
Defined.

(** The shuffle permutes the array whatever the random numbers are, every
    index it draws is in the range it is drawn from, and every permutation of
    the array comes out for some random numbers. *)
Theorem shuffleArray_permutations {A} (arr target : list A) (rnds : list dyadic)
    (Hlen : Z.of_nat (length arr) <= 2 ^ 31) (Ht : target ≡ₚ arr) (Hr : Forall random_ok rnds) :
  shuffleArray arr rnds ≡ₚ arr /\
  Forall (fun r => forall n, 0 < n <= 2 ^ 53 -> 0 <= random_index r n < n) rnds /\
  exists rs, Forall random_ok rs /\ length rs = (length arr - 1)%nat /\ shuffleArray arr rs = target.
Proof.
  split; [apply shuffle_loop_perm|]. split; [|by apply shuffle_reach].
  eapply Forall_impl; [exact Hr|]. intros r Hok n Hn. by apply random_index_range.
Qed.

Lemma shuffleArray_permutations_witness :
  exists rs, Forall random_ok rs /\ length rs = 2%nat /\ shuffleArray [1; 2; 3] rs = [2; 3; 1].
Proof.
  apply (shuffleArray_permutations [1; 2; 3] [2; 3; 1] []); [cbn; lia| |constructor].
  change [2; 3; 1] with ([2; 3] ++ [1]). rewrite Permutation_app_comm. done.
Defined.

(** A HashSet behaves as a mathematical set: [contains] is membership, [add]
    tells whether the key is new and inserts it, [remove] deletes it, and
    [length] stays the number of keys. *)
Theorem HashSet_refines_set (s : HashSet) (k : jsstr) (Hs : HashSet_wf s) :
  HashSet_contains s k = bool_decide (k ∈ hs_items s) /\
  ((HashSet_add s k).1 = bool_decide (k ∉ hs_items s) /\
   hs_items (HashSet_add s k).2 = {[k]} ∪ hs_items s /\ HashSet_wf (HashSet_add s k).2) /\
  ((HashSet_remove s k).1 = (if decide (k ∈ hs_items s) then None else Some false) /\
   hs_items (HashSet_remove s k).2 = hs_items s ∖ {[k]} /\ HashSet_wf (HashSet_remove s k).2).
Proof.
  split; [by apply HashSet_contains_spec|]. split; [by apply HashSet_add_spec|by apply HashSet_remove_spec].
Qed.

Lemma HashSet_refines_set_witness :
  HashSet_contains (HashSet_add HashSet_new (str "rack1")).2 (str "rack1") = true.
Proof.
  assert (W : HashSet_wf HashSet_new) by reflexivity.
  destruct (HashSet_refines_set HashSet_new (str "rack1") W) as (_ & (_ & E & W') & _).
  rewrite (proj1 (HashSet_refines_set _ (str "rack1") W')), E. by apply bool_decide_eq_true, elem_of_union_l, elem_of_singleton.
Defined.

(** Named parameters of a prepared statement become an array in the
    order of the columns: each column takes the last parameter whose name in
    lower case is the column's; when one has none, an ArgumentError is thrown
    and no array is made. Arrays, missing parameters and statements without
    columns pass through. *)
Theorem adaptNamedParamsPrepared_order {V} (o : obj V) (p : query_params V) (c : jsstr) (cs : list jsstr) :
  adaptNamedParamsPrepared (ObjectParams o) (Some (c :: cs)) =
    match mapM (last_lower o) (c :: cs) with
    | Some vs => Ok (ArrayParams vs)
    | None => Throw ArgumentError
    end /\
  adaptNamedParamsPrepared p None = Ok p /\ adaptNamedParamsPrepared p (Some []) = Ok p /\
  (forall l columns, adaptNamedParamsPrepared (ArrayParams l) columns = Ok (@ArrayParams V l)).
Proof.
  split; [|by destruct p]. unfold adaptNamedParamsPrepared.
  rewrite traverse_option.
  assert (E : mapM (obj_get (toLowerCaseProperties o)) (c :: cs) = mapM (last_lower o) (c :: cs)).
  { apply mapM_ext. intros k. apply toLowerCaseProperties_get. }
  rewrite E. by destruct (mapM (last_lower o) (c :: cs)).
Qed.
