(* ===== verification/Host.v ===== *)
(** [lib/host.js]: nodes and the map of nodes by address, as the native part
    ([src/metadata/host.rs]) fills them.

    The address identifies a node: two [Host] objects of one cluster are the
    same object when they have the same address. *)
From S2P Require Import Prelude.
From S2P Require Import JsStr.
From S2P Require Import Utils.

Record Host := mkHostNode {
  host_address : jsstr;
  host_cassandraVersion : option jsstr;
  host_datacenter : option jsstr;
  host_rack : option jsstr;
  host_tokens : option (list jsstr);
  host_hostId : option (list Z)
}.

#[export] Instance Host_eq_dec : EqDecision Host.
Proof. solve_decision. Defined.

(** The methods that are still missing throw. *)
Definition Host_isUp (h : Host) : result bool := Throw PlainError.
Definition Host_canBeConsideredAsUp (h : Host) : result bool := Throw PlainError.
Definition Host_getCassandraVersion (h : Host) : result (list Z) := Throw PlainError.

Record HostWrapper := mkHostWrapper {
  hw_hostId : list Z; hw_address : jsstr; hw_datacenter : option jsstr; hw_rack : option jsstr }.

Definition Host_fromRust (w : HostWrapper) : Host :=
  mkHostNode (hw_address w) None (hw_datacenter w) (hw_rack w) None (Some (hw_hostId w)).

(** [_items] in insertion order, and the cached [_values]. *)
Record HostMap := mkHostMap { hm_items : obj Host; hm_values : option (list Host) }.

Definition HostMap_new : HostMap := mkHostMap [] None.

Definition HostMap_get (m : HostMap) (key : jsstr) : option Host := obj_get (hm_items m) key.
Definition HostMap_keys (m : HostMap) : list jsstr := map fst (hm_items m).

(** The cached array, or a new one that is kept. *)
Definition HostMap_values (m : HostMap) : list Host * HostMap :=
  match hm_values m with
  | Some v => (v, m)
  | None => let v := map snd (hm_items m) in (v, mkHostMap (hm_items m) (Some v))
  end.

Definition HostMap_length (m : HostMap) : Z := Z.of_nat (length (HostMap_values m).1).

(** [forEach(callback)] for a callback that only accumulates. *)
Definition HostMap_forEach {A} (m : HostMap) (callback : A -> Host -> jsstr -> A) (a : A) : A :=
  foldl (fun a kv => callback a kv.2 kv.1) a (hm_items m).

(** The methods the driver does not support throw. *)
Definition HostMap_unsupported (m : HostMap) : result HostMap := Throw ReferenceError.

Definition HostMap_fromRust (hostsList : list HostWrapper) : HostMap :=
  mkHostMap (foldl (fun items w => obj_set items (hw_address w) (Host_fromRust w)) [] hostsList) None.
