(* ===== verification/Replicas.v ===== *)
(** The replica mappers of [lib/metadata/schema-parser.js]: which hosts hold the
    rows of each token of the ring, by replication strategy. *)
From stdpp Require Import gmap.
From S2P Require Import Prelude.
From S2P Require Import JsNum.
From S2P Require Import JsStr.
From S2P Require Import Utils.
From S2P Require Import Host.

(** What [buildTokens] collects of a data center. *)
Record dc_info := mkDc { hostLength : Z; racks : HashSet }.

(** A property name; null becomes its text. *)
Definition prop_key (k : option jsstr) : jsstr := default (str "null") k.

(** [parseInt(v, 10)]; [None] is NaN. *)
Definition parse_factor (v : option jsstr) : option Z :=
  match v with
  | Some s => match parseInt s 10 with Fin m _ => Some m | _ => None end
  | None => None
  end.

(** An element of a replica array; [None] is undefined. *)
Abbreviation replica_map := (obj (list (option Host))).

Definition noStrategy (primaryReplicas : obj Host) : replica_map :=
  map (fun kv => (kv.1, [Some kv.2])) primaryReplicas.

Section mappers.
Context (ringTokensAsStrings : list jsstr) (primaryReplicas : obj Host).

Let ringLength : nat := length ringTokensAsStrings.

(** [primaryReplicas[ringTokensAsStrings[i]]] *)
Definition ring_replica (i : nat) : option Host :=
  match ringTokensAsStrings !! i with Some key => obj_get primaryReplicas key | None => None end.

Definition circle_back (i : nat) : nat := if (ringLength <=? i)%nat then Nat.modulo i ringLength else i.

(** The inner loop of [tokenSimpleStrategy] from [j], [n] rounds before the
    end of the ring. *)
Fixpoint simple_loop (rf : Z) (i n j : nat) (tokenReplicas : list (option Host)) : list (option Host) :=
  match n with
  | O => tokenReplicas
  | S n' =>
      if Z.of_nat (length tokenReplicas) <? rf then
        let nextReplica := ring_replica (circle_back (i + j)) in
        let tokenReplicas :=
          if bool_decide (nextReplica ∈ tokenReplicas) then tokenReplicas else tokenReplicas ++ [nextReplica] in
        simple_loop rf i n' (S j) tokenReplicas
      else tokenReplicas
  end.

Definition tokenSimpleStrategy (replicationFactor : Z) : replica_map :=
  let rf := Z.min replicationFactor (Z.of_nat ringLength) in
  foldl (fun replicas i =>
    match ringTokensAsStrings !! i with
    | Some key => obj_set replicas key (simple_loop rf i (ringLength - 1) 1 [obj_get primaryReplicas key])
    | None => replicas
    end) [] (seq 0 ringLength).

Context (replicationFactors : obj jsstr) (datacenters : obj dc_info).

Definition isDoneForToken (replicasByDc : obj Z) : bool :=
  forallb (fun dcName =>
    match obj_get datacenters dcName with
    | None => true
    | Some dc =>
        match parse_factor (obj_get replicationFactors dcName) with
        | None => true
        | Some f =>
            let rf := Z.min f (hostLength dc) in
            negb ((0 <? rf) &&
              match obj_get replicasByDc dcName with Some n => (n =? 0) || (n <? rf) | None => true end)
        end
    end) (map fst replicationFactors).

(** The state of the inner loop of [tokenNetworkStrategy]. *)
Record placement := mkPlacement {
  tokenReplicas : list Host;
  replicasByDc : obj Z;
  racksPlaced : obj HashSet;
  skippedHosts : list Host }.

Definition no_placement : placement := mkPlacement [] [] [] [].

(** The hosts [addSkippedHosts] adds. *)
Definition addSkippedHosts (dcRf dcReplicas : Z) (skippedHosts : list Host) : list Host :=
  take (Z.to_nat (dcRf - dcReplicas)) skippedHosts.

Definition truthy (s : option jsstr) : bool := match s with Some (_ :: _) => true | _ => false end.

(** One round of the loop on the host [h]: [true] breaks.  A data center that
    is not known makes [datacenters[dc].hostLength] throw. *)
Definition network_step (h : Host) (p : placement) : result (placement * bool) :=
  if bool_decide (h ∈ tokenReplicas p) then Ok (p, false)
  else
    let dc := prop_key (host_datacenter h) in
    match parse_factor (obj_get replicationFactors dc) with
    | None => Ok (p, false)
    | Some dcRf =>
        if dcRf =? 0 then Ok (p, false)
        else
          match obj_get datacenters dc with
          | None => Throw TypeError
          | Some info =>
              let dcRf := Z.min dcRf (hostLength info) in
              let dcReplicas := default 0 (obj_get (replicasByDc p) dc) in
              if dcRf <=? dcReplicas then Ok (p, false)
              else
                let placed := default HashSet_new (obj_get (racksPlaced p) dc) in
                let p := mkPlacement (tokenReplicas p) (replicasByDc p) (obj_set (racksPlaced p) dc placed)
                                     (skippedHosts p) in
                let rack := prop_key (host_rack h) in
                if truthy (host_rack h) && HashSet_contains placed rack
                   && (hs_length placed <? hs_length (racks info))
                then
                  let skipped :=
                    if Z.of_nat (length (skippedHosts p)) <? dcRf - dcReplicas
                    then skippedHosts p ++ [h] else skippedHosts p in
                  Ok (mkPlacement (tokenReplicas p) (replicasByDc p) (racksPlaced p) skipped, false)
                else
                  let dcReplicas := dcReplicas + 1 in
                  let byDc := obj_set (replicasByDc p) dc dcReplicas in
                  let chosen := tokenReplicas p ++ [h] in
                  let '(added, placed) := if truthy (host_rack h) then HashSet_add placed rack else (false, placed) in
                  let racksPlaced := obj_set (racksPlaced p) dc placed in
                  let '(chosen, byDc) :=
                    if added && (hs_length placed =? hs_length (racks info)) then
                      let extra := addSkippedHosts dcRf dcReplicas (skippedHosts p) in
                      (chosen ++ extra, obj_set byDc dc (dcReplicas + Z.of_nat (length extra)))
                    else (chosen, byDc) in
                  Ok (mkPlacement chosen byDc racksPlaced (skippedHosts p), isDoneForToken byDc)
          end
    end.

(** The loop over the hosts of the ring from the token on. *)
Fixpoint network_loop (hs : list (option Host)) (p : placement) : result placement :=
  match hs with
  | [] => Ok p
  | None :: _ => Throw TypeError
  | Some h :: hs' =>
      r ← network_step h p;
      let '(p, done) := r in
      if done : bool then Ok p else network_loop hs' p
  end.

Definition ring_from (i : nat) : list (option Host) :=
  map (fun j => ring_replica (circle_back (i + j))) (seq 0 ringLength).

Definition tokenNetworkStrategy : result replica_map :=
  foldl (fun acc i =>
    replicas ← acc;
    match ringTokensAsStrings !! i with
    | Some key =>
        p ← network_loop (ring_from i) no_placement;
        Ok (obj_set replicas key (map Some (tokenReplicas p)))
    | None => Ok replicas
    end) (Ok []) (seq 0 ringLength).
End mappers.

(** [/suffix$/.test(s)] *)
Definition ends_with (suffix s : jsstr) : bool :=
  bool_decide (drop (length s - length suffix) s = suffix).

(** [getTokenToReplicaMapper(strategy, strategyOptions)] applied to the
    arguments of the mapper. *)
Definition tokenToReplica (strategy : jsstr) (strategyOptions : obj jsstr)
    (ringTokensAsStrings : list jsstr) (primaryReplicas : obj Host) (datacenters : obj dc_info)
    : result replica_map :=
  let simple :=
    if ends_with (str "SimpleStrategy") strategy then
      match parse_factor (obj_get strategyOptions (str "replication_factor")) with
      | Some rf => if 1 <? rf then Some rf else None
      | None => None
      end
    else None in
  match simple with
  | Some rf => Ok (tokenSimpleStrategy ringTokensAsStrings primaryReplicas rf)
  | None =>
      if ends_with (str "NetworkTopologyStrategy") strategy
      then tokenNetworkStrategy ringTokensAsStrings primaryReplicas strategyOptions datacenters
      else Ok (noStrategy primaryReplicas)
  end.
