(* ===== verification/ReplicasTheorems.v ===== *)
(** The replica mappers against reference definitions. *)
From stdpp Require Import gmap.
From S2P Require Import Prelude.
From S2P Require Import JsNum.
From S2P Require Import JsStr.
From S2P Require Import Utils.
From S2P Require Import UtilsTheorems.
From S2P Require Import Host.
From S2P Require Import Replicas.

(** ** Distinct elements *)

Section distinct.
Context {A : Type} `{EqDecision A}.

(** The elements of a list, each at its first occurrence. *)
Fixpoint distinct (l : list A) : list A :=
  match l with
  | [] => []
  | x :: l' => x :: List.filter (fun y => bool_decide (y <> x)) (distinct l')
  end.

Definition outside (seen l : list A) : list A := List.filter (fun y => bool_decide (y ∉ seen)) l.

Lemma outside_nil l : outside [] l = l.
Proof.
  unfold outside. induction l as [|x l IH]; [done|]. cbn.
  rewrite bool_decide_true by apply not_elem_of_nil. by rewrite IH.
Qed.

Lemma outside_filter seen x l :
  outside seen (List.filter (fun y => bool_decide (y <> x)) l) = outside (seen ++ [x]) l.
Proof.
  unfold outside. induction l as [|y l IH]; cbn; [done|].
  destruct (decide (y = x)) as [->|Hx].
  - rewrite bool_decide_false by naive_solver. rewrite (bool_decide_false (x ∉ _)) by set_solver. done.
  - rewrite bool_decide_true by done. cbn. rewrite IH.
    destruct (decide (y ∈ seen)).
    + rewrite !bool_decide_false by set_solver. done.
    + rewrite !bool_decide_true by set_solver. done.
Qed.

(** Walking along [x :: l] with [seen] behind. *)
Lemma outside_distinct_cons seen x l :
  outside seen (distinct (x :: l)) =
    if decide (x ∈ seen) then outside seen (distinct l) else x :: outside (seen ++ [x]) (distinct l).
Proof.
  cbn [distinct]. unfold outside at 1. cbn [List.filter].
  fold (outside seen (List.filter (fun y => bool_decide (y <> x)) (distinct l))). rewrite outside_filter.
  destruct (decide (x ∈ seen)) as [Hx|Hx]; [rewrite bool_decide_false by naive_solver|by rewrite bool_decide_true].
  unfold outside. apply List.filter_ext. intros y. apply bool_decide_ext. set_solver.
Qed.

Lemma elem_of_Lfilter (P : A -> bool) x l : x ∈ List.filter P l <-> x ∈ l /\ P x = true.
Proof. rewrite !list_elem_of_In. apply List.filter_In. Qed.

Lemma elem_of_distinct x l : x ∈ distinct l <-> x ∈ l.
Proof.
  induction l as [|y l IH]; cbn; [done|]. rewrite !elem_of_cons, elem_of_Lfilter, bool_decide_eq_true, IH.
  destruct (decide (x = y)); naive_solver.
Qed.

Lemma NoDup_Lfilter (P : A -> bool) l : NoDup l -> NoDup (List.filter P l).
Proof.
  induction 1 as [|x l Hx _ IH]; cbn; [constructor|]. destruct (P x); [|done].
  constructor; [|done]. rewrite elem_of_Lfilter. naive_solver.
Qed.

Lemma NoDup_distinct l : NoDup (distinct l).
Proof.
  induction l as [|x l IH]; cbn; constructor; [|by apply NoDup_Lfilter].
  rewrite elem_of_Lfilter, bool_decide_eq_true. naive_solver.
Qed.

Lemma elem_of_outside seen x l : x ∈ outside seen l <-> x ∈ l /\ x ∉ seen.
Proof. unfold outside. by rewrite elem_of_Lfilter, bool_decide_eq_true. Qed.
End distinct.

(** ** The ring *)

Section ring.
Context (ring : list jsstr) (primaryReplicas : obj Host).

(** The hosts of the ring in order, from position [i] and around. *)
Definition owners : list (option Host) := map (obj_get primaryReplicas) ring.

Lemma ring_replica_owner i : ring_replica ring primaryReplicas i = mjoin (owners !! i).
Proof. unfold ring_replica, owners. rewrite list_lookup_fmap. by destruct (ring !! i). Qed.

Lemma circle_back_mod i : (i < 2 * length ring)%nat -> circle_back ring i = (i mod length ring)%nat.
Proof.
  intros Hi. unfold circle_back. destruct (Nat.leb_spec (length ring) i); [done|].
  by rewrite Nat.mod_small.
Qed.

Lemma ring_from_rotate i :
  (i < length ring)%nat -> ring_from ring primaryReplicas i = drop i owners ++ take i owners.
Proof.
  intros Hi. apply list_eq. intros j. unfold ring_from.
  assert (Hlen : length owners = length ring) by (unfold owners; by rewrite length_map).
  assert (Hl' : length (drop i owners) = (length ring - i)%nat) by (rewrite length_drop; lia).
  rewrite list_lookup_fmap. destruct (decide (j < length ring)%nat) as [Hj|Hj].
  - rewrite lookup_seq_lt by done. cbn. rewrite circle_back_mod by lia. rewrite ring_replica_owner.
    destruct (decide (i + j < length ring)%nat) as [Hij|Hij].
    + rewrite Nat.mod_small by done. rewrite lookup_app_l by lia. rewrite lookup_drop.
      by destruct (lookup_lt_is_Some_2 owners (i + j)) as [o ->]; [lia|].
    + rewrite lookup_app_r by lia. rewrite Hl', lookup_take_lt by lia.
      replace ((i + j) mod length ring)%nat with (j - (length ring - i))%nat.
      2: { replace (i + j)%nat with (j - (length ring - i) + 1 * length ring)%nat by lia.
           rewrite Nat.Div0.mod_add, Nat.mod_small by lia. done. }
      by destruct (lookup_lt_is_Some_2 owners (j - (length ring - i))) as [o ->]; [lia|].
  - rewrite lookup_seq_ge by lia. symmetry. apply lookup_ge_None. rewrite length_app, length_take. lia.
Qed.

Lemma ring_from_cons i key :
  ring !! i = Some key ->
  ring_from ring primaryReplicas i =
    obj_get primaryReplicas key ::
    map (fun j => ring_replica ring primaryReplicas (circle_back ring (i + j))) (seq 1 (length ring - 1)).
Proof.
  intros Hi. unfold ring_from. pose proof (lookup_lt_Some _ _ _ Hi) as Hlt.
  destruct (length ring) as [|n] eqn:E; [lia|]. cbn [seq map]. rewrite Nat.add_0_r. f_equal.
  - unfold circle_back. rewrite E. destruct (Nat.leb_spec (S n) i); [lia|]. unfold ring_replica. by rewrite Hi.
  - replace (S n - 1)%nat with n by lia. done.
Qed.

Lemma simple_loop_spec rf i n j acc :
  simple_loop ring primaryReplicas rf i n j acc =
    acc ++ take (Z.to_nat (rf - Z.of_nat (length acc)))
      (outside acc (distinct
        (map (fun j => ring_replica ring primaryReplicas (circle_back ring (i + j))) (seq j n)))).
Proof.
  revert j acc. induction n as [|n IH]; intros j acc; cbn [simple_loop seq map].
  { unfold outside. cbn. by rewrite take_nil, app_nil_r. }
  destruct (Z.ltb_spec (Z.of_nat (length acc)) rf) as [Hl|Hl].
  2: { replace (Z.to_nat (rf - Z.of_nat (length acc))) with O by lia. by rewrite take_0, app_nil_r. }
  rewrite outside_distinct_cons. set (h := ring_replica _ _ _).
  destruct (decide (h ∈ acc)) as [Hh|Hh].
  - rewrite bool_decide_true by done. apply IH.
  - rewrite bool_decide_false by done. rewrite IH, <- app_assoc. cbn [app]. f_equal.
    replace (Z.to_nat (rf - Z.of_nat (length acc))) with (S (Z.to_nat (rf - Z.of_nat (length (acc ++ [h])))))
      by (rewrite length_app; cbn; lia). done.
Qed.

(** The replicas of the token at [i]: the first [rf] distinct hosts from its
    owner on. *)
Lemma simple_replicas rf i key :
  ring !! i = Some key -> 1 <= rf ->
  simple_loop ring primaryReplicas rf i (length ring - 1) 1 [obj_get primaryReplicas key] =
    take (Z.to_nat rf) (distinct (ring_from ring primaryReplicas i)).
Proof.
  intros Hi Hrf. rewrite simple_loop_spec, (ring_from_cons i key) by done. cbn [length].
  set (l := map _ _). set (h := obj_get _ _).
  replace (Z.to_nat rf) with (S (Z.to_nat (rf - Z.of_nat 1))) by lia.
  cbn [distinct app take]. f_equal. f_equal. rewrite <- (outside_nil (List.filter _ _)), outside_filter. done.
Qed.
End ring.

(** Assigning one value per key, keys distinct. *)
Lemma foldl_obj_set_get {V} (f : nat -> V) (ring : list jsstr) n i key (acc : obj V) :
  NoDup ring -> ring !! i = Some key -> (n <= length ring)%nat ->
  obj_get (foldl (fun o i => match ring !! i with Some key => obj_set o key (f i) | None => o end) acc (seq 0 n)) key =
    if decide (i < n)%nat then Some (f i) else obj_get acc key.
Proof.
  intros Hnd Hi. induction n as [|n IH]; intros Hn; [done|].
  rewrite seq_S, foldl_app. cbn [foldl Nat.add].
  destruct (lookup_lt_is_Some_2 ring n) as [k Hk]; [lia|]. rewrite Hk, obj_get_set, IH by lia.
  destruct (decide (k = key)) as [->|Hne].
  - assert (n = i) as -> by (eapply NoDup_lookup; eauto). by rewrite decide_True by lia.
  - assert (n <> i) by congruence. destruct (decide (i < n)%nat), (decide (i < S n)%nat); (done || lia).
Qed.

(** ** The network topology strategy without racks to spread over *)

Lemma distinct_snoc {A} `{EqDecision A} (l : list A) x :
  distinct (l ++ [x]) = if decide (x ∈ l) then distinct l else distinct l ++ [x].
Proof.
  induction l as [|y l IH]; [done|]. cbn [app distinct]. rewrite IH.
  destruct (decide (x ∈ l)) as [Hx|Hx].
  - by rewrite decide_True by by right.
  - rewrite List.filter_app. cbn [List.filter]. destruct (decide (x = y)) as [->|Hxy].
    + rewrite bool_decide_false by naive_solver. rewrite decide_True by by left. by rewrite app_nil_r.
    + rewrite bool_decide_true by done. by rewrite decide_False by set_solver.
Qed.

Section network.
Context (replicationFactors : obj jsstr) (datacenters : obj dc_info).

Definition host_dc (h : Host) : jsstr := prop_key (host_datacenter h).
Definition in_dc (d : jsstr) (h : Host) : bool := bool_decide (host_dc h = d).
Definition dc_hosts (d : jsstr) (l : list Host) : list Host := List.filter (in_dc d) l.

(** The number of replicas a data center gets. *)
Definition quota (d : jsstr) : Z :=
  match parse_factor (obj_get replicationFactors d), obj_get datacenters d with
  | Some f, Some info => Z.min f (hostLength info)
  | _, _ => 0
  end.

(** The data centers of the hosts are known, and have at most one rack each
    (or hosts without a rack). *)
Definition host_ok (h : Host) : Prop :=
  exists info, obj_get datacenters (host_dc h) = Some info /\ 0 <= hostLength info /\
    (truthy (host_rack h) = true -> hs_length (racks info) <= 1).

(** [chosen] has the first hosts of each data center among those walked
    through. *)
Definition chosen_ok (seen chosen : list Host) : Prop :=
  chosen `sublist_of` distinct seen /\
  forall d, dc_hosts d chosen = take (Z.to_nat (quota d)) (dc_hosts d (distinct seen)).

Definition placement_ok (p : placement) : Prop :=
  skippedHosts p = [] /\
  forall d, default 0 (obj_get (replicasByDc p) d) = Z.of_nat (length (dc_hosts d (tokenReplicas p))).

Lemma dc_hosts_snoc d l h : dc_hosts d (l ++ [h]) = if decide (host_dc h = d) then dc_hosts d l ++ [h] else dc_hosts d l.
Proof.
  unfold dc_hosts, in_dc. rewrite List.filter_app. cbn [List.filter].
  destruct (decide (host_dc h = d)); [by rewrite bool_decide_true|rewrite bool_decide_false by done].
  by rewrite app_nil_r.
Qed.

Lemma elem_of_dc_hosts d l h : h ∈ dc_hosts d l <-> h ∈ l /\ host_dc h = d.
Proof. unfold dc_hosts, in_dc. by rewrite elem_of_Lfilter, bool_decide_eq_true. Qed.

(** What a step has to do to [chosen]. *)
Lemma chosen_ok_step seen chosen h :
  chosen_ok seen chosen ->
  chosen_ok (seen ++ [h])
    (if bool_decide (h ∈ chosen) || (quota (host_dc h) <=? Z.of_nat (length (dc_hosts (host_dc h) chosen)))
     then chosen else chosen ++ [h]).
Proof.
  intros [Hsub Hch]. unfold chosen_ok. rewrite distinct_snoc.
  assert (Hin : forall g, g ∈ chosen -> g ∈ seen).
  { intros g Hg. apply elem_of_distinct. by eapply elem_of_submseteq, sublist_submseteq. }
  pose proof (Hch (host_dc h)) as Hd. pose proof (f_equal length Hd) as Hlen. rewrite length_take in Hlen.
  destruct (decide (h ∈ seen)) as [Hs|Hs].
  - assert (Hb : bool_decide (h ∈ chosen) || (quota (host_dc h) <=? Z.of_nat (length (dc_hosts (host_dc h) chosen))) = true).
    { destruct (bool_decide_reflect (h ∈ chosen)) as [|Hn]; [done|]. cbn [orb]. apply Z.leb_le.
      destruct (Nat.le_gt_cases (length (dc_hosts (host_dc h) (distinct seen))) (Z.to_nat (quota (host_dc h)))) as [Hle|]; [|lia].
      rewrite take_ge in Hd by done. exfalso. apply Hn.
      assert (Hm : h ∈ dc_hosts (host_dc h) chosen); [|by apply elem_of_dc_hosts in Hm as [? _]].
      rewrite Hd, elem_of_dc_hosts, elem_of_distinct. done. }
    rewrite Hb. done.
  - rewrite bool_decide_false by naive_solver. cbn [orb].
    destruct (Z.leb_spec (quota (host_dc h)) (Z.of_nat (length (dc_hosts (host_dc h) chosen)))) as [Hq|Hq].
    + split; [by apply sublist_inserts_r|]. intros d. rewrite dc_hosts_snoc.
      destruct (decide (host_dc h = d)) as [<-|]; [|done]. rewrite Hd. symmetry. apply take_app_le. lia.
    + split; [by apply sublist_app|]. intros d. rewrite !dc_hosts_snoc.
      destruct (decide (host_dc h = d)) as [<-|]; [|done]. rewrite Hd, (take_ge (_ ++ [h])) by (rewrite length_app; cbn; lia).
      by rewrite take_ge by lia.
Qed.

Lemma quota_spec h info :
  obj_get datacenters (host_dc h) = Some info ->
  quota (host_dc h) = match parse_factor (obj_get replicationFactors (host_dc h)) with
                      | Some f => Z.min f (hostLength info) | None => 0 end.
Proof. unfold quota. intros ->. by destruct (parse_factor _). Qed.

Lemma isDoneForToken_quota byDc h :
  isDoneForToken replicationFactors datacenters byDc = true ->
  quota (host_dc h) <= Z.max 0 (default 0 (obj_get byDc (host_dc h))).
Proof.
  unfold isDoneForToken. rewrite forallb_forall. intros H.
  destruct (parse_factor (obj_get replicationFactors (host_dc h))) as [f|] eqn:Ef; [|unfold quota; rewrite Ef; lia].
  assert (Hk : In (host_dc h) (map fst replicationFactors)).
  { destruct (obj_get replicationFactors (host_dc h)) eqn:E; [|done]. clear -E.
    induction replicationFactors as [|[k v] o IH]; [done|]. cbn [obj_get map fst] in *.
    destruct (decide (host_dc h = k)) as [->|]; [by left|]. right. by apply IH. }
  specialize (H _ Hk). unfold quota. rewrite Ef in *.
  destruct (obj_get datacenters (host_dc h)) as [info|]; [|lia]. cbv zeta in H.
  apply negb_true_iff, andb_false_iff in H as [H%Z.ltb_ge|H]; [lia|].
  destruct (obj_get byDc (host_dc h)) as [n|]; [|done]. cbn [default from_option].
  apply orb_false_elim in H as [_ H%Z.ltb_ge]. cbn. lia.
Qed.

Lemma obj_get_set_default (o : obj Z) k v d :
  default 0 (obj_get (obj_set o k v) d) = if decide (k = d) then v else default 0 (obj_get o d).
Proof. rewrite obj_get_set. by destruct (decide (k = d)). Qed.

(** One round of the loop: the host is taken when its data center still needs
    one, and the loop is left only when no data center needs any more. *)
Lemma network_step_spec h p :
  host_ok h -> placement_ok p ->
  exists p' done, network_step replicationFactors datacenters h p = Ok (p', done) /\ placement_ok p' /\
    tokenReplicas p' =
      (if bool_decide (h ∈ tokenReplicas p) ||
          (quota (host_dc h) <=? Z.of_nat (length (dc_hosts (host_dc h) (tokenReplicas p))))
       then tokenReplicas p else tokenReplicas p ++ [h]) /\
    (done = true -> forall g, quota (host_dc g) <= Z.of_nat (length (dc_hosts (host_dc g) (tokenReplicas p')))).
Proof.
  intros (info & Hi & Hl & Hracks) [Hsk Hcount]. unfold network_step.
  destruct (bool_decide_reflect (h ∈ tokenReplicas p)) as [|Hnew]; [by exists p, false|]. cbn [orb].
  fold (host_dc h). rewrite (quota_spec h info Hi).
  destruct (parse_factor _) as [f|] eqn:Ef.
  2: { exists p, false. split_and!; try done. destruct (Z.leb_spec 0 (Z.of_nat (length (dc_hosts (host_dc h) (tokenReplicas p))))); [done|lia]. }
  destruct (Z.eqb_spec f 0) as [->|Hf].
  { exists p, false. split_and!; try done. destruct (Z.leb_spec (Z.min 0 (hostLength info)) (Z.of_nat (length (dc_hosts (host_dc h) (tokenReplicas p))))); [done|lia]. }
  rewrite Hi. cbv zeta. rewrite Hcount.
  destruct (Z.leb_spec (Z.min f (hostLength info)) (Z.of_nat (length (dc_hosts (host_dc h) (tokenReplicas p))))) as [Hq|Hq];
    [by exists p, false|].
  set (placed := default HashSet_new (obj_get (racksPlaced p) (host_dc h))).
  cbn [tokenReplicas replicasByDc racksPlaced skippedHosts].
  assert (Eskip : truthy (host_rack h) && HashSet_contains placed (prop_key (host_rack h)) &&
      (hs_length placed <? hs_length (racks info)) = false).
  { destruct (truthy (host_rack h)) eqn:Et; [|done]. specialize (Hracks eq_refl). cbn [andb].
    unfold HashSet_contains. destruct (Z.ltb_spec 0 (hs_length placed)); [|done].
    rewrite (proj2 (Z.ltb_ge _ _)) by lia. apply andb_false_r. }
  rewrite Eskip. destruct (if truthy (host_rack h) then HashSet_add placed (prop_key (host_rack h)) else (false, placed))
    as [added placed'] eqn:Ea.
  rewrite Hsk. unfold addSkippedHosts. rewrite take_nil, app_nil_r, Z.add_0_r.
  set (n := Z.of_nat (length (dc_hosts (host_dc h) (tokenReplicas p)))) in *.
  assert (P : forall byDc, (forall d, default 0 (obj_get byDc d) = if decide (host_dc h = d) then n + 1 else default 0 (obj_get (replicasByDc p) d)) ->
    placement_ok (mkPlacement (tokenReplicas p ++ [h]) byDc (obj_set (obj_set (racksPlaced p) (host_dc h) placed) (host_dc h) placed') []) /\
    (isDoneForToken replicationFactors datacenters byDc = true ->
     forall g, quota (host_dc g) <= Z.of_nat (length (dc_hosts (host_dc g) (tokenReplicas p ++ [h]))))).
  { intros byDc Hby.
    assert (Hc : forall d, default 0 (obj_get byDc d) = Z.of_nat (length (dc_hosts d (tokenReplicas p ++ [h])))).
    { intros d. rewrite Hby, dc_hosts_snoc. destruct (decide (host_dc h = d)) as [<-|]; [|done].
      rewrite length_app. cbn. unfold n. lia. }
    split; [split; [done|exact Hc]|]. intros Hd g. pose proof (isDoneForToken_quota byDc g Hd) as H. rewrite Hc in H. lia. }
  destruct (added && (hs_length placed' =? hs_length (racks info))); cbn [tokenReplicas];
    (eexists _, _; split; [reflexivity|]); cbn [tokenReplicas].
  - destruct (P (obj_set (obj_set (replicasByDc p) (host_dc h) (n + 1)) (host_dc h) (n + 1))) as [P1 P2].
    { intros d. rewrite !obj_get_set_default. by destruct (decide (host_dc h = d)). }
    split; [exact P1|]. split; [done|exact P2].
  - destruct (P (obj_set (replicasByDc p) (host_dc h) (n + 1))) as [P1 P2].
    { intros d. by rewrite obj_get_set_default. }
    split; [exact P1|]. split; [done|exact P2].
Qed.

(** When no data center needs a replica, walking on changes nothing. *)
Lemma chosen_ok_full seen chosen l :
  chosen_ok seen chosen -> (forall g, quota (host_dc g) <= Z.of_nat (length (dc_hosts (host_dc g) chosen))) ->
  chosen_ok (seen ++ l) chosen.
Proof.
  intros H Hq. induction l as [|h l IH] using rev_ind; [by rewrite app_nil_r|].
  rewrite app_assoc. pose proof (chosen_ok_step _ _ h IH) as Hs.
  rewrite (proj2 (Z.leb_le _ _) (Hq h)), orb_true_r in Hs. exact Hs.
Qed.

Lemma network_loop_spec hs seen p :
  Forall host_ok hs -> placement_ok p -> chosen_ok seen (tokenReplicas p) ->
  exists p', network_loop replicationFactors datacenters (map Some hs) p = Ok p' /\
    chosen_ok (seen ++ hs) (tokenReplicas p').
Proof.
  intros Hhs. revert seen p. induction Hhs as [|h hs Hh _ IH]; intros seen p Hp Hc.
  { exists p. split; [done|]. by rewrite app_nil_r. }
  destruct (network_step_spec h p Hh Hp) as (p' & done & E & Hp' & Et & Hdone).
  cbn [map network_loop]. rewrite E. cbn [mbind result_bind].
  pose proof (chosen_ok_step _ _ h Hc) as Hc'. rewrite <- Et in Hc'.
  replace (seen ++ h :: hs) with ((seen ++ [h]) ++ hs) by (by rewrite <- app_assoc).
  destruct done; [|by apply IH]. exists p'. split; [done|]. apply chosen_ok_full; [done|by apply Hdone].
Qed.
End network.

(** ** Theorems *)

(** The hosts met from the token at [i] on, once around the ring. *)
Definition walk (ring : list jsstr) (primaryReplicas : obj Host) (i : nat) : list Host :=
  omap id (ring_from ring primaryReplicas i).

(** Every token has an owner, and tokens are different. *)
Definition ring_ok (ring : list jsstr) (primaryReplicas : obj Host) : Prop :=
  NoDup ring /\ Forall (fun key => is_Some (obj_get primaryReplicas key)) ring.

Lemma omap_id_map {A} (l : list (option A)) : Forall is_Some l -> l = map Some (omap id l).
Proof. induction 1 as [|o l [x ->] _ IH]; [done|]. cbn. by rewrite <- IH. Qed.

Lemma ring_from_walk ring prim i :
  ring_ok ring prim -> (i < length ring)%nat -> ring_from ring prim i = map Some (walk ring prim i).
Proof.
  intros [_ Hp] Hi. apply omap_id_map. rewrite ring_from_rotate by done.
  assert (Ho : Forall is_Some (owners ring prim)) by (unfold owners; by rewrite Forall_map).
  apply Forall_app. split; [by apply Forall_drop|by apply Forall_take].
Qed.

Lemma filter_map_Some (l : list Host) x :
  List.filter (fun y => bool_decide (y <> Some x)) (map Some l) =
  map Some (List.filter (fun y => bool_decide (y <> x)) l).
Proof.
  induction l as [|y l IH]; [done|]. cbn [map List.filter].
  rewrite (bool_decide_ext (Some y <> Some x) (y <> x)) by naive_solver.
  destruct (bool_decide (y <> x)); [cbn [map]|]; by rewrite IH.
Qed.

Lemma distinct_map_Some (l : list Host) : distinct (map Some l) = map Some (distinct l).
Proof. induction l as [|x l IH]; [done|]. cbn [map distinct]. by rewrite IH, filter_map_Some. Qed.

Lemma length_distinct {A} `{EqDecision A} (l : list A) : (length (distinct l) <= length l)%nat.
Proof.
  induction l as [|x l IH]; [done|]. cbn [distinct length].
  pose proof (List.filter_length_le (fun y => bool_decide (y <> x)) (distinct l)). lia.
Qed.

Lemma take_map_Some {A} n (l : list A) : take n (map Some l) = map Some (take n l).
Proof. revert n. induction l as [|x l IH]; intros [|n]; try done. cbn. by rewrite IH. Qed.

Lemma NoDup_prefix {A} n (l : list A) : NoDup l -> NoDup (take n l).
Proof. rewrite <- (take_drop n l) at 1. by intros [? _]%NoDup_app. Qed.

Lemma tokenSimpleStrategy_fold ring prim rf :
  tokenSimpleStrategy ring prim rf =
    foldl (fun o i => match ring !! i with
      | Some key => obj_set o key (simple_loop ring prim (Z.min rf (Z.of_nat (length ring))) i
          (length ring - 1) 1 [obj_get prim (default [] (ring !! i))])
      | None => o end) [] (seq 0 (length ring)).
Proof.
  unfold tokenSimpleStrategy. cbv zeta. generalize (@nil (jsstr * list (option Host))).
  induction (seq 0 (length ring)) as [|i l IH]; intros o; [done|]. cbn [foldl].
  destruct (ring !! i); apply IH.
Qed.

(** The simple strategy gives each token the first [rf] distinct hosts
    that are met from its owner on, around the ring: all different, and as many
    as the factor asks for or the ring has. *)
Theorem tokenSimpleStrategy_nearest (ring : list jsstr) (primaryReplicas : obj Host) (rf : Z) (i : nat) (key : jsstr)
    (Hring : ring_ok ring primaryReplicas) (Hrf : 1 <= rf) (Hi : ring !! i = Some key) :
  let replicas := take (Z.to_nat rf) (distinct (walk ring primaryReplicas i)) in
  obj_get (tokenSimpleStrategy ring primaryReplicas rf) key = Some (map Some replicas) /\
  NoDup replicas /\ head replicas = obj_get primaryReplicas key /\
  Z.of_nat (length replicas) = Z.min rf (Z.of_nat (length (distinct (walk ring primaryReplicas i)))).
Proof.
  cbv zeta. pose proof (lookup_lt_Some _ _ _ Hi) as Hlt.
  pose proof (ring_from_walk ring primaryReplicas i Hring Hlt) as Ew.
  pose proof (ring_from_cons ring primaryReplicas i key Hi) as Ec. rewrite Ew in Ec.
  assert (Hlen : (length (distinct (walk ring primaryReplicas i)) <= length ring)%nat).
  { etrans; [apply length_distinct|]. rewrite <- (length_map Some), <- Ew. unfold ring_from.
    by rewrite length_map, length_seq. }
  split_and!.
  - rewrite (tokenSimpleStrategy_fold ring primaryReplicas), (foldl_obj_set_get _ ring (length ring) i key [])
      by (done || apply Hring).
    rewrite decide_True by done. rewrite Hi. cbn [default from_option id].
    rewrite simple_replicas by (done || lia). rewrite Ew, distinct_map_Some, take_map_Some. do 2 f_equal.
    destruct (Z.le_gt_cases rf (Z.of_nat (length ring))); [by rewrite Z.min_l by lia|].
    rewrite !take_ge by lia. done.
  - apply NoDup_prefix, NoDup_distinct.
  - destruct (walk ring primaryReplicas i) as [|h l]; [done|]. cbn [map] in Ec. injection Ec as Eh _.
    cbn [distinct]. replace (Z.to_nat rf) with (S (Z.to_nat (rf - 1))) by lia. done.
  - rewrite length_take. lia.
Qed.

Definition example_hosts : list Host :=
  map (fun ar => mkHostNode (str ar.1) None (Some (str "dc1")) (Some (str ar.2)) None None)
    [("a", "r1"); ("b", "r1"); ("c", "r2")]%string.

Definition example_ring : list jsstr := map str ["10"; "20"; "30"; "40"]%string.

Definition example_primary : obj Host :=
  match example_hosts with
  | [a; b; c] => zip example_ring [a; b; b; c]
  | _ => []
  end.

Lemma example_ring_ok : ring_ok example_ring example_primary.
Proof.
  split.
  - apply (bool_decide_unpack _). vm_compute. reflexivity.
  - apply (bool_decide_unpack _). vm_compute. reflexivity.
Qed.

Lemma tokenSimpleStrategy_nearest_witness :
  option_map (map (option_map host_address)) (obj_get (tokenSimpleStrategy example_ring example_primary 2) (str "20"))
    = Some [Some (str "b"); Some (str "c")].
Proof.
  rewrite (proj1 (tokenSimpleStrategy_nearest example_ring example_primary 2 1 (str "20") example_ring_ok
    ltac:(lia) eq_refl)). vm_compute. reflexivity.
Defined.

Section network_theorem.
Context (ring : list jsstr) (primaryReplicas : obj Host) (replicationFactors : obj jsstr) (datacenters : obj dc_info).
Hypothesis Hring : ring_ok ring primaryReplicas.
Hypothesis Hhosts : forall i, Forall (host_ok datacenters) (walk ring primaryReplicas i).

Lemma network_token i :
  (i < length ring)%nat ->
  exists p, network_loop replicationFactors datacenters (ring_from ring primaryReplicas i) no_placement = Ok p /\
    chosen_ok replicationFactors datacenters (walk ring primaryReplicas i) (tokenReplicas p).
Proof.
  intros Hi. rewrite ring_from_walk by done.
  apply (network_loop_spec replicationFactors datacenters _ [] no_placement); [apply Hhosts|by split|].
  split; [done|]. intros d. cbn. by rewrite take_nil.
Qed.

(** The fold of [tokenNetworkStrategy] over the first [n] tokens. *)
Lemma network_fold n :
  (n <= length ring)%nat ->
  exists m, foldl (fun acc i =>
      replicas ← acc;
      match ring !! i with
      | Some key =>
          p ← network_loop replicationFactors datacenters (ring_from ring primaryReplicas i) no_placement;
          Ok (obj_set replicas key (map Some (tokenReplicas p)))
      | None => Ok replicas
      end) (Ok []) (seq 0 n) = Ok m /\
    forall i key, (i < n)%nat -> ring !! i = Some key ->
      exists reps, obj_get m key = Some (map Some reps) /\
        chosen_ok replicationFactors datacenters (walk ring primaryReplicas i) reps.
Proof.
  induction n as [|n IH]; intros Hn; [exists []; split; [done|lia]|].
  destruct IH as (m & E & H); [lia|]. rewrite seq_S, foldl_app, E. cbn [foldl mbind result_bind Nat.add].
  destruct (lookup_lt_is_Some_2 ring n) as [key Hkey]; [lia|]. rewrite Hkey.
  destruct (network_token n ltac:(lia)) as (p & Ep & Hp). rewrite Ep. cbn [mbind result_bind].
  eexists. split; [reflexivity|]. intros i k Hi Hk. rewrite obj_get_set.
  destruct (decide (key = k)) as [->|Hne].
  - assert (i = n) as -> by (eapply NoDup_lookup; [apply Hring|done|done]). by exists (tokenReplicas p).
  - apply H; [|done]. assert (i <> n) by congruence. lia.
Qed.
End network_theorem.

(** C5: With the network topology strategy, when no data center has several
    racks, the replicas of a token in each data center are the first hosts of
    that data center met from the owner of the token on: as many as its
    replication factor asks for or as it has. They are all different and in
    the order of the ring; leaving the loop early changes nothing. *)
Theorem tokenNetworkStrategy_nearest (ring : list jsstr) (primaryReplicas : obj Host)
    (replicationFactors : obj jsstr) (datacenters : obj dc_info)
    (Hring : ring_ok ring primaryReplicas)
    (Hhosts : forall i, Forall (host_ok datacenters) (walk ring primaryReplicas i)) :
  exists m, tokenNetworkStrategy ring primaryReplicas replicationFactors datacenters = Ok m /\
    forall i key, ring !! i = Some key ->
      exists replicas, obj_get m key = Some (map Some replicas) /\ NoDup replicas /\
        replicas `sublist_of` distinct (walk ring primaryReplicas i) /\
        forall d, dc_hosts d replicas =
          take (Z.to_nat (quota replicationFactors datacenters d))
               (dc_hosts d (distinct (walk ring primaryReplicas i))).
Proof.
  destruct (network_fold ring primaryReplicas replicationFactors datacenters Hring Hhosts (length ring) ltac:(lia))
    as (m & E & H).
  exists m. split; [exact E|]. intros i key Hi.
  destruct (H i key (lookup_lt_Some _ _ _ Hi) Hi) as (reps & Er & Hsub & Hd). exists reps.
  split_and!; [done| |done|done]. exact (sublist_NoDup _ _ (NoDup_distinct _) Hsub).
Qed.

Definition example_dcs : obj dc_info := [(str "dc1", mkDc 3 (mkHashSet 1 {[str "r1"]}))].

Lemma tokenNetworkStrategy_nearest_witness :
  exists m, tokenNetworkStrategy example_ring example_primary [(str "dc1", str "2")] example_dcs = Ok m /\
    forall i key, example_ring !! i = Some key -> exists replicas, obj_get m key = Some (map Some replicas) /\ NoDup replicas.
Proof.
  destruct (tokenNetworkStrategy_nearest example_ring example_primary [(str "dc1", str "2")] example_dcs example_ring_ok)
    as (m & E & H).
  - intros i. apply Forall_forall. intros h Hh.
    assert (Hin : h ∈ example_hosts).
    { unfold walk in Hh. apply list_elem_of_omap in Hh as (o & Ho & Eo). cbn in Eo. subst o.
      unfold ring_from in Ho. apply list_elem_of_fmap in Ho as (j & Ej & _). unfold ring_replica in Ej.
      destruct (example_ring !! _) as [key|]; [|done]. unfold example_primary in Ej. cbn -[decide] in Ej.
      repeat (destruct (decide _) in Ej; [injection Ej as ->; cbn; rewrite !elem_of_cons; tauto|]). done. }
    exists (mkDc 3 (mkHashSet 1 {[str "r1"]})).
    cbn in Hin. rewrite !elem_of_cons in Hin.
    destruct Hin as [->|[->|[->|Hin]]]; [| | |by apply not_elem_of_nil in Hin]; (split; [reflexivity|]; cbn; split; [lia|intros _; lia]).
  - exists m. split; [done|]. intros i key Hi. destruct (H i key Hi) as (r & ? & ? & _). by exists r.
Defined.

(** With racks, skipped hosts are kept in one list that is neither free of
    repetitions nor separate for the data centers: a host with two tokens can
    be added twice, and a host of one data center can be counted as a replica
    of another one. *)
Theorem tokenNetworkStrategy_rack_defects :
  (let host (n dc r : string) := mkHostNode (str n) None (Some (str dc)) (Some (str r)) None None in
  let names (m : result replica_map) (key : string) := match m with
    | Ok m => option_map (map (option_map host_address)) (obj_get m (str key)) | Throw _ => None end in
  let set_of rs := (foldl (fun s (r : string) => (HashSet_add s (str r)).2) HashSet_new rs) in
  (let a := host "a" "dc1" "r1" in let b := host "b" "dc1" "r1" in
   let c := host "c" "dc1" "r2" in let d := host "d" "dc1" "r1" in
   names (tokenNetworkStrategy (map str ["1"; "2"; "3"; "4"; "5"])
            (zip (map str ["1"; "2"; "3"; "4"; "5"]) [a; b; b; c; d])
            [(str "dc1", str "4")] [(str "dc1", mkDc 4 (set_of ["r1"; "r2"]))]) "1"
     = Some (map (fun s => Some (str s)) ["a"; "c"; "b"; "b"])) /\
  (let a := host "a" "dc1" "r1" in let b := host "b" "dc1" "r1" in let c := host "c" "dc1" "r2" in
   let x := host "x" "dc2" "s1" in let y := host "y" "dc2" "s2" in let z := host "z" "dc2" "s1" in
   names (tokenNetworkStrategy (map str ["1"; "2"; "3"; "4"; "5"; "6"])
            (zip (map str ["1"; "2"; "3"; "4"; "5"; "6"]) [a; b; x; y; z; c])
            [(str "dc1", str "2"); (str "dc2", str "3")]
            [(str "dc1", mkDc 3 (set_of ["r1"; "r2"])); (str "dc2", mkDc 3 (set_of ["s1"; "s2"]))]) "1"
     = Some (map (fun s => Some (str s)) ["a"; "x"; "y"; "b"; "c"])))%string.
Proof. vm_compute. split; reflexivity. Qed.
