(* ===== verification/Metadata.v ===== *)
(** [lib/metadata/index.js]: the token ring with its primary replicas and
    ranges, the look-up of replicas, and the cache of prepared statements.

    The tokenizer is not part of the repository: reading, writing and hashing
    tokens are parameters, like [minToken] and [split] in Token. *)
From stdpp Require Import gmap.
From S2P Require Import Prelude.
From S2P Require Import JsNum.
From S2P Require Import JsStr.
From S2P Require Import Buffer.
From S2P Require Import Utils.
From S2P Require Import Host.
From S2P Require Import Replicas.
From S2P Require Import Token.

Class TokenizerText (T : Type) := {
  Tokenizer_parse : jsstr -> T;
  Tokenizer_stringify : T -> jsstr;
  Tokenizer_hash : list Z -> T }.

(** [ks_replicas] is the memo of [_getKeyspaceReplicas]. *)
Record Keyspace := mkKeyspace {
  ks_strategy : jsstr;
  ks_strategyOptions : obj jsstr;
  ks_replicas : option replica_map }.

Section metadata.
Context {T : Type} `{TokenOps T} `{Tokenizer T} `{TokenizerText T}.

(** [tokenRanges] is a Set of new objects: it keeps them in order. *)
Record Metadata := mkMetadata {
  md_tokenizer : bool;
  md_ring : option (list T);
  md_primaryReplicas : obj Host;
  md_tokenRanges : list (TokenRange T);
  md_ringTokensAsStrings : list jsstr;
  md_datacenters : obj dc_info;
  md_keyspaces : obj Keyspace }.

(** A new instance, without a tokenizer; the control connection sets one. *)
Definition Metadata_new : Metadata := mkMetadata false None [] [] [] [] [].

(** *** [buildTokens] *)

(** The inner loop over the tokens of a host. *)
Definition add_token (h : Host) (st : list T * obj Host) (tokenString : jsstr) : result (list T * obj Host) :=
  let '(allSorted, primaryReplicas) := st in
  let token := Tokenizer_parse tokenString in
  allSorted ← insertSorted allSorted token Token_compare;
  Ok (allSorted, obj_set primaryReplicas (Tokenizer_stringify token) h).

Fixpoint add_tokens (h : Host) (tokens : list jsstr) (st : list T * obj Host) : result (list T * obj Host) :=
  match tokens with
  | [] => Ok st
  | t :: tokens' => st ← add_token h st t; add_tokens h tokens' st
  end.

Definition add_datacenter (h : Host) (datacenters : obj dc_info) : obj dc_info :=
  let key := prop_key (host_datacenter h) in
  let dc := default (mkDc 0 HashSet_new) (obj_get datacenters key) in
  obj_set datacenters key
    (mkDc (hostLength dc + 1) (HashSet_add (racks dc) (prop_key (host_rack h))).2).

Fixpoint add_hosts (hosts : list Host) (st : list T * obj Host) (datacenters : obj dc_info)
    : result ((list T * obj Host) * obj dc_info) :=
  match hosts with
  | [] => Ok (st, datacenters)
  | h :: hosts' =>
      match host_tokens h with
      | None => add_hosts hosts' st datacenters
      | Some tokens =>
          st ← add_tokens h tokens st;
          add_hosts hosts' st (add_datacenter h datacenters)
      end
  end.

Definition ring_ranges (ring : list T) : list (TokenRange T) :=
  match ring with
  | [_] => [mkRange minToken minToken]
  | _ => omap (fun i =>
           match ring !! i, ring !! Nat.modulo (S i) (length ring) with
           | Some s, Some e => Some (mkRange s e)
           | _, _ => None
           end) (seq 0 (length ring))
  end.

(** [hosts.values()]; without a tokenizer only an error is logged. *)
Definition buildTokens (m : Metadata) (hosts : list Host) : result Metadata :=
  if negb (md_tokenizer m) then Ok m
  else
    r ← add_hosts hosts ([], []) [];
    let '((allSorted, primaryReplicas), datacenters) := r in
    Ok (mkMetadata true (Some allSorted) primaryReplicas (ring_ranges allSorted)
          (map Tokenizer_stringify allSorted) datacenters (md_keyspaces m)).

(** *** Replicas *)

(** The argument of [getReplicas]. *)
Inductive routing_arg :=
  | ArgBuffer (b : list Z)
  | ArgToken (t : T)
  | ArgRange (r : TokenRange T).

Definition routing_token (a : routing_arg) : T :=
  match a with
  | ArgBuffer b => Tokenizer_hash b
  | ArgToken t => t
  | ArgRange r => range_end r
  end.

(** The memo is filled the first time. *)
Definition _getKeyspaceReplicas (m : Metadata) (name : jsstr) (keyspace : Keyspace)
    : result (replica_map * Metadata) :=
  match ks_replicas keyspace with
  | Some r => Ok (r, m)
  | None =>
      r ← tokenToReplica (ks_strategy keyspace) (ks_strategyOptions keyspace)
            (md_ringTokensAsStrings m) (md_primaryReplicas m) (md_datacenters m);
      let keyspace := mkKeyspace (ks_strategy keyspace) (ks_strategyOptions keyspace) (Some r) in
      Ok (r, mkMetadata (md_tokenizer m) (md_ring m) (md_primaryReplicas m) (md_tokenRanges m)
               (md_ringTokensAsStrings m) (md_datacenters m) (obj_set (md_keyspaces m) name keyspace))
  end.

(** The position of the token that owns [token]: the first one that is not
    smaller, or the first one of the ring.  ([i % 0] is NaN, which is no
    position.) *)
Definition ring_index (ring : list T) (token : T) : result Z :=
  i ← binarySearch ring token Token_compare;
  let i := if i <? 0 then .~ i else i in
  Ok (if Z.of_nat (length ring) <=? i then Z.rem i (Z.of_nat (length ring)) else i).

(** The replicas, or null ([None]); an element [None] is undefined. *)
Definition getReplicas (m : Metadata) (keyspaceName : option jsstr) (token : routing_arg)
    : result (option (list (option Host)) * Metadata) :=
  match md_ring m with
  | None => Ok (None, m)
  | Some ring =>
      let token := routing_token token in
      let keyspace := match keyspaceName with
                      | Some (c :: cs) => Some (c :: cs, obj_get (md_keyspaces m) (c :: cs))
                      | _ => None
                      end in
      match keyspace with
      | Some (_, None) => Ok (None, m)
      | _ =>
          i ← ring_index ring token;
          let closestToken := md_ringTokensAsStrings m !! Z.to_nat i in
          let at_token {V} (o : obj V) : option V := match closestToken with Some k => obj_get o k | None => None end in
          match keyspace with
          | Some (name, Some ks) =>
              r ← _getKeyspaceReplicas m name ks;
              let '(replicas, m) := r in
              Ok (at_token replicas, m)
          | _ => Ok (Some [at_token (md_primaryReplicas m)], m)
          end
      end
  end.

(** The ranges of the ring held by [host]; [None] is null.  Without a keyspace
    name the keyspace is undefined and reading its replicas throws. *)
Definition getTokenRangesForHost (m : Metadata) (keyspaceName : option jsstr) (host : Host)
    : result (option (list (TokenRange T)) * Metadata) :=
  match md_ring m with
  | None => Ok (None, m)
  | Some ring =>
      let keyspace := match keyspaceName with
                      | Some (c :: cs) => Some (c :: cs, obj_get (md_keyspaces m) (c :: cs))
                      | _ => None
                      end in
      match keyspace with
      | Some (_, None) => Ok (None, m)
      | _ =>
          if (length ring =? 1)%nat then Ok (Some (md_tokenRanges m), m)
          else
            match keyspace with
            | Some (name, Some ks) =>
                r ← _getKeyspaceReplicas m name ks;
                let '(replicas, m) := r in
                ranges ← traverse (fun range =>
                  match obj_get replicas (Tokenizer_stringify (range_end range)) with
                  | None => Throw TypeError
                  | Some hosts => Ok (if bool_decide (Some host ∈ hosts) then [range] else [])
                  end) (md_tokenRanges m);
                Ok (Some (concat ranges), m)
            | _ => Throw TypeError
            end
      end
  end.

Definition getTokenRanges (m : Metadata) : list (TokenRange T) := md_tokenRanges m.

(** The components of [newToken]: buffers to concatenate, a string, or one
    buffer. *)
Inductive token_components := Buffers (bs : list (list Z)) | TokenText (s : jsstr) | OneBuffer (b : list Z).

Definition newToken (m : Metadata) (components : token_components) : result T :=
  if negb (md_tokenizer m) then Throw PlainError
  else Ok (match components with
           | Buffers bs => Tokenizer_hash (concat bs)
           | TokenText s => Tokenizer_parse s
           | OneBuffer b => Tokenizer_hash b
           end).

Definition newTokenRange (m : Metadata) (start end_ : T) : result (TokenRange T) :=
  if negb (md_tokenizer m) then Throw PlainError else Ok (mkRange start end_).
End metadata.
Arguments Metadata T : clear implicits.
Arguments routing_arg T : clear implicits.

(** ** Prepared statements *)

(** What is stored of a prepared query; [info_id] tells which object it is. *)
Record prepared_info := mkInfo {
  info_id : Z;
  info_query : jsstr;
  info_keyspace : option jsstr;
  info_queryId : option jsstr }.

#[export] Instance prepared_info_eq_dec : EqDecision prepared_info.
Proof. solve_decision. Defined.

(** The infos are shared objects: the two maps hold their identifiers and
    [pq_heap] their contents.  The keys of [pq_mapById] are query identifiers
    in hexadecimal; [pq_mapByKey] is in insertion order. *)
Record PreparedQueries := mkPrepared {
  pq_length : Z;
  pq_maxPrepared : Z;
  pq_mapByKey : obj Z;
  pq_mapById : obj Z;
  pq_heap : list prepared_info }.

Definition PreparedQueries_new (maxPrepared : Z) : PreparedQueries := mkPrepared 0 maxPrepared [] [] [].

Definition _getKey (keyspace : option jsstr) (query : jsstr) : jsstr := default [] keyspace ++ query.

Definition info_of (heap : list prepared_info) (id : Z) : option prepared_info :=
  find (fun i => info_id i =? id) heap.

Fixpoint obj_delete {V} (o : obj V) (k : jsstr) : obj V :=
  match o with
  | [] => []
  | (k', v) :: o' => if decide (k = k') then o' else (k', v) :: obj_delete o' k
  end.

(** The first entries that have a query identifier, at most [n]. *)
Definition queryId_of (heap : list prepared_info) (id : Z) : option jsstr :=
  match info_of heap id with Some i => info_queryId i | None => None end.

Definition removable (q : PreparedQueries) : list (jsstr * jsstr) :=
  omap (fun kv => option_map (fun qid => (kv.1, qid)) (queryId_of (pq_heap q) kv.2)) (pq_mapByKey q).

Definition _validateOverflow (q : PreparedQueries) : PreparedQueries :=
  if pq_length q <? pq_maxPrepared q then q
  else
    let toRemoveLength := pq_length q - pq_maxPrepared q + 1 in
    let toRemove := take (Z.to_nat toRemoveLength) (removable q) in
    foldl (fun q kq => mkPrepared (pq_length q - 1) (pq_maxPrepared q)
                         (obj_delete (pq_mapByKey q) kq.1) (obj_delete (pq_mapById q) kq.2) (pq_heap q))
      q toRemove.

(** [fresh] is the identity of the object [getOrAdd] creates. *)
Definition getOrAdd (q : PreparedQueries) (keyspace : option jsstr) (query : jsstr) (fresh : Z)
    : Z * PreparedQueries :=
  let key := _getKey keyspace query in
  match obj_get (pq_mapByKey q) key with
  | Some id => (id, q)
  | None =>
      let q := _validateOverflow q in
      (fresh, mkPrepared (pq_length q + 1) (pq_maxPrepared q) (obj_set (pq_mapByKey q) key fresh)
                (pq_mapById q) (mkInfo fresh query keyspace None :: pq_heap q))
  end.

(** The server's answer: the caller stores the query identifier in the info
    and then calls [setById]. *)
Definition set_queryId (heap : list prepared_info) (id : Z) (queryId : jsstr) : list prepared_info :=
  map (fun i => if info_id i =? id then mkInfo id (info_query i) (info_keyspace i) (Some queryId) else i) heap.

Definition setById (q : PreparedQueries) (id : Z) (queryId : jsstr) : PreparedQueries :=
  mkPrepared (pq_length q) (pq_maxPrepared q) (pq_mapByKey q) (obj_set (pq_mapById q) queryId id)
    (set_queryId (pq_heap q) id queryId).

Definition getById (q : PreparedQueries) (queryId : jsstr) : option Z := obj_get (pq_mapById q) queryId.

Definition clearPrepared (q : PreparedQueries) : PreparedQueries :=
  mkPrepared 0 (pq_maxPrepared q) [] [] (pq_heap q).

Definition getAllPrepared (q : PreparedQueries) : list Z :=
  List.filter (fun id => match queryId_of (pq_heap q) id with Some _ => true | None => false end)
    (map snd (pq_mapByKey q)).
