(* ===== verification/MetadataTheorems.v ===== *)
(** The ring that [buildTokens] makes, the replicas it answers with, and the
    cache of prepared statements. *)
From stdpp Require Import gmap sorting.
From S2P Require Import Prelude.
From S2P Require Import JsNum.
From S2P Require Import JsStr.
From S2P Require Import Buffer.
From S2P Require Import LongLib.
From S2P Require Import MutableLong.
From S2P Require Import Utils.
From S2P Require Import UtilsTheorems.
From S2P Require Import Host.
From S2P Require Import Replicas.
From S2P Require Import Token.
From S2P Require Import Metadata.

(** What is documented of the text of tokens: tokens with the same text are
    equal. *)
Class TokenizerTextLaws (T : Type) `{TokenOps T} `{TokenizerText T} : Prop := {
  parse_wf s : Token_wf (Tokenizer_parse s);
  hash_wf b : Token_wf (Tokenizer_hash b);
  stringify_equal x y : Token_wf x -> Token_wf y ->
    (Tokenizer_stringify x = Tokenizer_stringify y <-> Token_compare x y = 0) }.

Section ring.
Context {T : Type} `{TO : TokenOps T} `{TR : !TokenOrder T} `{TK : Tokenizer T} `{TL : !TokenizerLaws T}.
Context `{TX : TokenizerText T} `{TXL : !TokenizerTextLaws T}.

(** *** Building *)

Definition host_parsed (h : Host) : list T := map Tokenizer_parse (default [] (host_tokens h)).
Definition all_tokens (hosts : list Host) : list T := concat (map host_parsed hosts).

(** [h] announced the token [x]. *)
Definition owns (h : Host) (x : T) : Prop := exists y, y ∈ host_parsed h /\ Token_compare y x = 0.

Definition token_le : T -> T -> Prop := cmp_le Token_compare.

(** The state of the loops after the tokens [ts] of [hosts]. *)
Definition ring_state (hosts : list Host) (ts : list T) (st : list T * obj Host) : Prop :=
  StronglySorted token_le st.1 /\ st.1 ≡ₚ ts /\ Forall Token_wf st.1 /\
  forall x, x ∈ st.1 -> exists h, obj_get st.2 (Tokenizer_stringify x) = Some h /\ h ∈ hosts /\ owns h x.

Lemma insert_token l x :
  StronglySorted token_le l -> Forall Token_wf l -> Token_wf x -> Z.of_nat (length l) < 2 ^ 31 ->
  exists l', insertSorted l x Token_compare = Ok l' /\ l' ≡ₚ x :: l /\ StronglySorted token_le l'.
Proof.
  apply insertSorted_spec.
  - intros. by apply compare_opp.
  - intros a b c. apply compare_trans.
Qed.

Lemma compare_sym_0 x y : Token_wf x -> Token_wf y -> Token_compare x y = 0 -> Token_compare y x = 0.
Proof. intros Hx Hy E. pose proof (compare_opp x y Hx Hy). rewrite E in *. lia. Qed.

Lemma add_token_spec hosts h ts st s :
  h ∈ hosts -> s ∈ default [] (host_tokens h) -> ring_state hosts ts st -> Z.of_nat (length ts) < 2 ^ 31 ->
  exists st', add_token h st s = Ok st' /\ ring_state hosts (Tokenizer_parse s :: ts) st'.
Proof.
  intros Hh Hs (S1 & S2 & S3 & S4) Hl. destruct st as [l prim]. cbn [fst snd] in *. unfold add_token.
  destruct (insert_token l (Tokenizer_parse s) S1 S3 (parse_wf s)) as (l' & -> & P & S').
  { by rewrite (Permutation_length S2). }
  cbn [mbind result_bind]. eexists. split; [reflexivity|].
  assert (W : Forall Token_wf l') by (rewrite P; constructor; [apply parse_wf|done]).
  split; [exact S'|]. split; [cbn; by rewrite P, S2|]. split; [exact W|]. cbn [fst snd].
  intros x Hx. rewrite obj_get_set.
  assert (Wx : Token_wf x) by (rewrite Forall_forall in W; by apply W).
  destruct (decide _) as [E|E].
  - exists h. split; [done|]. split; [done|]. exists (Tokenizer_parse s). split.
    + unfold host_parsed. apply list_elem_of_fmap. by exists s.
    + apply stringify_equal; [apply parse_wf|done|done].
  - apply S4. rewrite P in Hx. apply elem_of_cons in Hx as [->|]; done.
Qed.

Lemma add_tokens_spec hosts h l ts st :
  h ∈ hosts -> l ⊆ default [] (host_tokens h) -> ring_state hosts ts st ->
  Z.of_nat (length ts + length l) < 2 ^ 31 ->
  exists st', add_tokens h l st = Ok st' /\ ring_state hosts (rev (map Tokenizer_parse l) ++ ts) st'.
Proof.
  intros Hh. revert ts st. induction l as [|s l IH]; intros ts st Hl Hst Hlen; [by exists st|].
  cbn [length] in Hlen. cbn [add_tokens].
  destruct (add_token_spec hosts h ts st s Hh) as (st' & -> & Hst'); [set_solver|done|lia|].
  cbn [mbind result_bind]. destruct (IH (Tokenizer_parse s :: ts) st') as (st'' & -> & H'); [set_solver|done|cbn; lia|].
  exists st''. split; [done|]. cbn [map rev]. rewrite <- app_assoc. exact H'.
Qed.

Lemma ring_state_perm hosts ts ts' st : ts ≡ₚ ts' -> ring_state hosts ts st -> ring_state hosts ts' st.
Proof. intros P (S1 & S2 & S3). split; [done|]. split; [by rewrite S2|done]. Qed.

Lemma add_hosts_spec all hosts ts st dcs :
  hosts ⊆ all -> ring_state all ts st -> Z.of_nat (length ts + length (all_tokens hosts)) < 2 ^ 31 ->
  exists st' dcs', add_hosts hosts st dcs = Ok (st', dcs') /\ ring_state all (ts ++ all_tokens hosts) st'.
Proof.
  revert ts st dcs. induction hosts as [|h hosts IH]; intros ts st dcs Hsub Hst Hlen.
  { exists st, dcs. split; [done|]. unfold all_tokens. cbn. by rewrite app_nil_r. }
  unfold all_tokens in Hlen. cbn [map concat] in Hlen. rewrite length_app in Hlen.
  change (all_tokens (h :: hosts)) with (host_parsed h ++ all_tokens hosts). cbn [add_hosts].
  destruct (host_tokens h) as [l|] eqn:El.
  - assert (Hp : host_parsed h = map Tokenizer_parse l) by (unfold host_parsed; by rewrite El).
    rewrite Hp, length_map in Hlen.
    destruct (add_tokens_spec all h l ts st) as (st' & -> & Hst'); [set_solver|by rewrite El|done|lia|].
    cbn [mbind result_bind].
    apply (ring_state_perm _ _ (ts ++ host_parsed h)) in Hst'.
    2: { rewrite <- Permutation_rev, <- Hp. apply Permutation_app_comm. }
    destruct (IH (ts ++ host_parsed h) st' (add_datacenter h dcs)) as (st2 & dcs2 & E & H2); [set_solver|done| |].
    { rewrite length_app, Hp, length_map. unfold all_tokens. lia. }
    exists st2, dcs2. split; [exact E|]. by rewrite app_assoc.
  - assert (Hp : host_parsed h = []) by (unfold host_parsed; by rewrite El).
    rewrite Hp in *. apply IH; [set_solver|done|]. cbn in Hlen. unfold all_tokens. lia.
Qed.

Lemma buildTokens_spec (m : Metadata T) hosts :
  md_tokenizer m = true -> Z.of_nat (length (all_tokens hosts)) < 2 ^ 31 ->
  exists m' ring, buildTokens m hosts = Ok m' /\ md_ring m' = Some ring /\
    md_tokenRanges m' = ring_ranges ring /\ md_ringTokensAsStrings m' = map Tokenizer_stringify ring /\
    ring_state hosts (all_tokens hosts) (ring, md_primaryReplicas m').
Proof.
  intros Ht Hlen. unfold buildTokens. rewrite Ht. cbn [negb].
  destruct (add_hosts_spec hosts hosts [] ([], []) []) as (st & dcs & -> & Hst); [done| |done|].
  { split; [constructor|]. split; [done|]. split; [constructor|]. intros x Hx. by apply not_elem_of_nil in Hx. }
  cbn [mbind result_bind]. destruct st as [ring prim].
  by eexists _, ring.
Qed.

(** *** Finding the owner *)

(** Tokens of the ring are pairwise different. *)
Definition ring_distinct (ring : list T) : Prop :=
  forall i j x y, i <> j -> ring !! i = Some x -> ring !! j = Some y -> Token_compare x y <> 0.

Lemma ring_ranges_lookup ring i r :
  ring_ranges ring !! i = Some r -> length ring <> 1%nat ->
  (i < length ring)%nat /\ ring !! i = Some (range_start r) /\
  ring !! (S i mod length ring)%nat = Some (range_end r).
Proof.
  intros Hi Hn.
  set (f := fun i => match ring !! i, ring !! (S i mod length ring)%nat with
                     | Some s, Some e => Some (mkRange s e) | _, _ => None end).
  assert (E : ring_ranges ring = omap f (seq 0 (length ring))) by (by destruct ring as [|a [|b l]]).
  rewrite E in Hi. clear E.
  assert (Hf : forall n j, (j + n <= length ring)%nat ->
    omap f (seq j n) !! i = Some r -> (i < n)%nat /\ f (j + i)%nat = Some r).
  { clear Hi. revert i. intros i n. revert i. induction n as [|n IH]; intros i j Hj Hi; [done|]. cbn [seq] in Hi. cbn in Hi.
    assert (Hs : is_Some (f j)).
    { unfold f. destruct (lookup_lt_is_Some_2 ring j) as [x ->]; [lia|].
      destruct (lookup_lt_is_Some_2 ring (S j mod length ring)%nat) as [y ->]; [apply Nat.mod_upper_bound; lia|]. eauto. }
    destruct Hs as [y Hy]. rewrite Hy in Hi. destruct i as [|i].
    - rewrite Nat.add_0_r. split; [lia|]. cbn in Hi. congruence.
    - apply IH in Hi as [H1 H2]; [|lia]. split; [lia|]. by rewrite <- Nat.add_succ_comm. }
  destruct (Hf (length ring) O ltac:(lia) Hi) as [H1 H2]. cbn [Nat.add] in H2. unfold f in H2.
  split; [done|]. destruct (ring !! i), (ring !! (S i mod length ring)%nat); naive_solver.
Qed.

(** The first position that is not smaller than the token. *)
Lemma ring_index_spec ring t :
  StronglySorted token_le ring -> Forall Token_wf ring -> Token_wf t -> ring_distinct ring -> ring <> [] ->
  Z.of_nat (length ring) < 2 ^ 31 ->
  exists p : nat, ring_index ring t = Ok (Z.of_nat (p mod length ring)%nat) /\ (p <= length ring)%nat /\
    (forall i x, ring !! i = Some x -> (i < p)%nat -> Token_compare x t < 0) /\
    (forall i x, ring !! i = Some x -> (p <= i)%nat -> 0 <= Token_compare x t).
Proof.
  intros Hs Hw Ht Hd Hne Hlen.
  assert (Hasc : ascending_for ring t Token_compare).
  { apply (sorted_ascending Token_compare Token_wf); try done; intros; [by apply compare_opp|].
    by apply compare_trans with y. }
  destruct (binarySearch_spec ring t Token_compare Hasc Hlen) as (r & E & R1 & R2).
  assert (Hn : (0 < length ring)%nat) by (destruct ring; [done|cbn; lia]).
  assert (P : exists p : nat, (if r <? 0 then .~ r else r) = Z.of_nat p /\ (p <= length ring)%nat /\
    (forall i x, ring !! i = Some x -> (i < p)%nat -> Token_compare x t < 0) /\
    (forall i x, ring !! i = Some x -> (p <= i)%nat -> 0 <= Token_compare x t)).
  { destruct (Z.ltb_spec r 0) as [Hr|Hr].
    - destruct (R2 Hr) as (Hp & H1 & H2). exists (Z.to_nat (.~ r)). split_and!; [lia|lia| |].
      + intros i x Hx Hi. apply (H1 i x Hx). lia.
      + intros i x Hx Hi. pose proof (H2 i x Hx ltac:(lia)). lia.
    - destruct (R1 Hr) as (v & Hv & Ev). pose proof (lookup_lt_Some _ _ _ Hv).
      exists (Z.to_nat r). split_and!; [lia|lia| |].
      + intros i x Hx Hi. destruct (Hasc i (Z.to_nat r) x v Hi Hx Hv) as [H1 _].
        assert (Wx : Token_wf x) by (by eapply Forall_lookup_1). assert (Wv : Token_wf v) by (by eapply Forall_lookup_1).
        destruct (Z.eq_dec (Token_compare x t) 0) as [E0|]; [|lia]. exfalso.
        assert (Htv : Token_compare t v = 0) by (by apply compare_sym_0).
        assert (L1 : Token_compare x v <= 0) by (apply compare_trans with t; (done || lia)).
        assert (L2 : Token_compare v x <= 0).
        { apply compare_trans with t; [done..|lia|]. pose proof (compare_sym_0 x t Wx Ht E0). lia. }
        pose proof (compare_opp x v Wx Wv). apply (Hd i (Z.to_nat r) x v); [lia|done|done|lia].
      + intros i x Hx Hi. destruct (decide (i = Z.to_nat r)) as [->|]; [replace x with v by congruence; lia|].
        destruct (Hasc (Z.to_nat r) i v x ltac:(lia) Hv Hx) as [_ H2]. lia. }
  destruct P as (p & Ep & Hp & H1 & H2). exists p. split; [|done].
  unfold ring_index. rewrite E. cbn [mbind result_bind]. rewrite Ep. cbv zeta. f_equal.
  destruct (Z.leb_spec (Z.of_nat (length ring)) (Z.of_nat p)).
  - assert (p = length ring) as -> by lia. by rewrite Z.rem_same, Nat.Div0.mod_same by lia.
  - by rewrite Nat.mod_small by lia.
Qed.

Lemma ring_ranges_length ring : length (ring_ranges ring) = length ring.
Proof.
  destruct (decide (length ring = 1%nat)) as [Hn|Hn]; [by destruct ring as [|a [|b l]]|].
  set (f := fun i => match ring !! i, ring !! (S i mod length ring)%nat with
                     | Some s, Some e => Some (mkRange s e) | _, _ => None end).
  assert (E : ring_ranges ring = omap f (seq 0 (length ring))) by (by destruct ring as [|a [|b l]]).
  rewrite E. assert (Hf : forall n j, (j + n <= length ring)%nat -> length (omap f (seq j n)) = n).
  { induction n as [|n IH]; intros j Hj; [done|]. cbn [seq]. cbn.
    assert (Hs : is_Some (f j)).
    { unfold f. destruct (lookup_lt_is_Some_2 ring j) as [x ->]; [lia|].
      destruct (lookup_lt_is_Some_2 ring (S j mod length ring)%nat) as [y ->]; [apply Nat.mod_upper_bound; lia|]. eauto. }
    destruct Hs as [y ->]. cbn. rewrite IH by lia. done. }
  apply Hf. lia.
Qed.

Lemma S_mod_inj n i j : (i < n)%nat -> (j < n)%nat -> (S i mod n = S j mod n)%nat -> i = j.
Proof.
  intros Hi Hj.
  destruct (decide (S i = n)) as [Ei|]; [rewrite Ei, Nat.Div0.mod_same|rewrite (Nat.mod_small (S i)) by lia];
    (destruct (decide (S j = n)) as [Ej|]; [rewrite Ej, Nat.Div0.mod_same|rewrite (Nat.mod_small (S j)) by lia]); lia.
Qed.

(** *** Ranges of the ring *)

Lemma contains_inner s e t :
  Token_wf s -> Token_wf e -> Token_wf t -> Token_compare s e < 0 ->
  TokenRange_contains (mkRange s e) t = (Token_compare s t <? 0) && (0 <=? Token_compare e t).
Proof.
  intros Hs He Ht H. rewrite contains_on_arc by (repeat split; done). unfold on_arc, ring_lt. cbn [range_start range_end].
  pose proof (compare_opp e t He Ht). pose proof (compare_opp s e Hs He).
  assert (E : (0 <=? Token_compare e t) = (Token_compare t e <=? 0)).
  { destruct (Z.leb_spec 0 (Token_compare e t)), (Z.leb_spec (Token_compare t e) 0); lia || done. }
  rewrite E. clear E. assert (H' : (Token_compare s e <? 0) = true) by (by apply Z.ltb_lt). clear H H0 H1. revert H'.
  by_ranks [minToken; s; e; t]. split_tests; done.
Qed.

Lemma contains_outer s e t :
  Token_wf s -> Token_wf e -> Token_wf t -> Token_compare e s < 0 ->
  TokenRange_contains (mkRange s e) t = (Token_compare s t <? 0) || (0 <=? Token_compare e t).
Proof.
  intros Hs He Ht H. rewrite contains_on_arc by (repeat split; done). unfold on_arc, ring_lt. cbn [range_start range_end].
  pose proof (compare_opp e t He Ht).
  assert (E : (0 <=? Token_compare e t) = (Token_compare t e <=? 0)).
  { destruct (Z.leb_spec 0 (Token_compare e t)), (Z.leb_spec (Token_compare t e) 0); lia || done. }
  rewrite E. clear E. assert (H' : (Token_compare e s <? 0) = true) by (by apply Z.ltb_lt). clear H H0. revert H'.
  by_ranks [minToken; s; e; t]. split_tests; done.
Qed.

Lemma contains_whole t : Token_wf t -> TokenRange_contains (mkRange minToken minToken) t = true.
Proof.
  intros Ht. pose proof minToken_wf as Hm. rewrite contains_on_arc by (repeat split; done).
  unfold on_arc, ring_lt. cbn [range_start range_end]. by_ranks [minToken; t]. split_tests; done.
Qed.

(** A range of the ring contains the token exactly when it ends at the
    position found. *)
Lemma ring_range_contains ring t i r :
  StronglySorted token_le ring -> Forall Token_wf ring -> Token_wf t -> ring_distinct ring ->
  forall p : nat, (p <= length ring)%nat ->
  (forall i x, ring !! i = Some x -> (i < p)%nat -> Token_compare x t < 0) ->
  (forall i x, ring !! i = Some x -> (p <= i)%nat -> 0 <= Token_compare x t) ->
  ring_ranges ring !! i = Some r ->
  TokenRange_contains r t = bool_decide ((S i mod length ring) = (p mod length ring))%nat.
Proof.
  intros Hs Hw Ht Hd p Hp H1 H2 Hr.
  destruct (decide (length ring = 1%nat)) as [Hn|Hn].
  { destruct ring as [|a [|b l]]; try done. destruct i; [|done]. injection Hr as <-. symmetry.
    rewrite contains_whole by done. by rewrite bool_decide_true by (cbn [length]; by rewrite !Nat.mod_1_r). }
  apply ring_ranges_lookup in Hr as (Hi & Es & Ee); [|done]. destruct r as [s e]. cbn [range_start range_end] in *.
  assert (Ws : Token_wf s) by (by eapply Forall_lookup_1). assert (We : Token_wf e) by (by eapply Forall_lookup_1).
  assert (Cs : (Token_compare s t <? 0) = bool_decide (i < p)%nat).
  { destruct (decide (i < p)%nat) as [Hlt|Hge]; [rewrite bool_decide_true by done|rewrite bool_decide_false by done].
    - apply Z.ltb_lt. by apply (H1 i).
    - apply Z.ltb_ge. apply (H2 i); [done|lia]. }
  assert (Ce : (0 <=? Token_compare e t) = bool_decide (p <= S i mod length ring)%nat).
  { destruct (decide (p <= S i mod length ring)%nat) as [Hle|Hgt]; [rewrite bool_decide_true by done|rewrite bool_decide_false by done].
    - apply Z.leb_le. by apply (H2 (S i mod length ring)%nat).
    - apply Z.leb_gt. apply (H1 (S i mod length ring)%nat); [done|lia]. }
  destruct (decide (S i = length ring)) as [Hl|Hl].
  - rewrite Hl in *. rewrite Nat.Div0.mod_same in *. rewrite contains_outer; try done.
    2: { pose proof (strongly_sorted_lookup _ _ O i _ _ Hs ltac:(lia) Ee Es) as Hle. unfold token_le, cmp_le in Hle.
         pose proof (Hd O i e s ltac:(lia) Ee Es). lia. }
    rewrite Cs, Ce. destruct (decide (p = length ring)) as [->|].
    + rewrite Nat.Div0.mod_same. rewrite !bool_decide_true by lia. done.
    + rewrite (Nat.mod_small p) by lia. rewrite bool_decide_false by lia. cbn [orb]. apply bool_decide_ext. lia.
  - rewrite (Nat.mod_small (S i)) in * by lia. rewrite contains_inner; try done.
    2: { pose proof (strongly_sorted_lookup _ _ i (S i) _ _ Hs ltac:(lia) Es Ee) as Hle. unfold token_le, cmp_le in Hle.
         pose proof (Hd i (S i) s e ltac:(lia) Es Ee). lia. }
    rewrite Cs, Ce. rewrite <- bool_decide_and. apply bool_decide_ext.
    destruct (decide (p = length ring)) as [->|]; [rewrite Nat.Div0.mod_same|rewrite (Nat.mod_small p) by lia]; lia.
Qed.
End ring.

(** ** Theorems *)

(** C4: The ring made of the tokens of the hosts is sorted and complete. When the
    tokens are different, every token lies in exactly one of the ranges, and
    the primary replica found for it is a host that owns the end of that
    range: the two views of the ring agree. *)
Theorem getReplicas_owner {T : Type} `{TO : TokenOps T} `{TR : !TokenOrder T} `{TK : Tokenizer T}
    `{TL : !TokenizerLaws T} `{TX : TokenizerText T} `{TXL : !TokenizerTextLaws T}
    (m : Metadata T) (hosts : list Host) (a : routing_arg T)
    (Ht : md_tokenizer m = true) (Hlen : 0 < Z.of_nat (length (all_tokens hosts)) < 2 ^ 31)
    (Ha : Token_wf (routing_token a)) :
  exists m' ring, buildTokens m hosts = Ok m' /\ md_ring m' = Some ring /\
    StronglySorted token_le ring /\ ring ≡ₚ all_tokens hosts /\
    (ring_distinct ring ->
     exists i r h, md_tokenRanges m' !! i = Some r /\
       (forall j s, md_tokenRanges m' !! j = Some s -> TokenRange_contains s (routing_token a) = bool_decide (j = i)) /\
       getReplicas m' None a = Ok (Some [Some h], m') /\ h ∈ hosts /\
       (length ring <> 1%nat -> owns h (range_end r))).
Proof.
  destruct (buildTokens_spec m hosts Ht (proj2 Hlen)) as (m' & ring & E & Er & Erg & Est & S1 & S2 & S3 & S4).
  cbn [fst snd] in *. exists m', ring. split_and!; try done. intros Hd.
  pose proof (Permutation_length S2) as Hl.
  assert (Hne : ring <> []) by (intros ->; cbn in Hl; lia).
  assert (Hn : (0 < length ring)%nat) by lia.
  destruct (ring_index_spec ring (routing_token a) S1 S3 Ha Hd Hne ltac:(lia)) as (p & Ep & Hp & H1 & H2).
  set (q := (p mod length ring)%nat) in *.
  assert (Hq : (q < length ring)%nat) by (apply Nat.mod_upper_bound; lia).
  destruct (lookup_lt_is_Some_2 ring q Hq) as [x Hx].
  destruct (S4 x ltac:(by eapply list_elem_of_lookup_2)) as (h & Eh & Hh & Ho).
  set (i := ((q + length ring - 1) mod length ring)%nat).
  assert (Hi : (S i mod length ring = q)%nat).
  { unfold i. rewrite <- Nat.add_1_r, Nat.Div0.add_mod_idemp_l.
    replace (q + length ring - 1 + 1)%nat with (q + 1 * length ring)%nat by lia.
    rewrite Nat.Div0.mod_add, Nat.mod_small by lia. done. }
  assert (Hi' : (i < length ring)%nat) by (apply Nat.mod_upper_bound; lia).
  assert (Hlr : length (ring_ranges ring) = length ring) by apply ring_ranges_length.
  destruct (lookup_lt_is_Some_2 (ring_ranges ring) i) as [r Hr]; [lia|].
  exists i, r, h. rewrite Erg. split_and!; [done| | |done|].
  - intros j s Hs. rewrite (ring_range_contains ring (routing_token a) j s) with (p := p) by done.
    apply bool_decide_ext. fold q. rewrite <- Hi. split; [|by intros ->].
    apply lookup_lt_Some in Hs. apply S_mod_inj; lia.
  - unfold getReplicas. rewrite Er. cbv zeta iota. rewrite Ep. cbn [mbind result_bind].
    rewrite Est, Nat2Z.id, list_lookup_fmap, Hx. cbn [fmap option_fmap option_map]. by rewrite Eh.
  - intros Hn1. apply ring_ranges_lookup in Hr as (_ & _ & Ee); [|done]. rewrite Hi in Ee. by replace (range_end r) with x by congruence.
Qed.

(** Murmur3 tokens are written in decimal.  The hash of a key is irrelevant to
    the ring; any function into the tokens will do. *)
#[export] Instance Murmur3_text : TokenizerText MutableLong := {|
  Tokenizer_parse s := Murmur3_of (l64_parse s);
  Tokenizer_stringify x := num_to_string 10 (ML_val x);
  Tokenizer_hash b := Murmur3_of (be_val 256 b) |}.

Lemma num_to_string_int64_inj x y : is_int64 x -> is_int64 y -> num_to_string 10 x = num_to_string 10 y -> x = y.
Proof.
  intros Hx Hy E. destruct (long_fromString_val x Hx) as [Ex _], (long_fromString_val y Hy) as [Ey _].
  rewrite <- Ex, <- Ey. by rewrite E.
Qed.

#[export] Instance Murmur3_text_laws : TokenizerTextLaws MutableLong.
Proof.
  split; [intros; apply Murmur3_of_wf..|]. intros x y Hx Hy.
  cbn [Tokenizer_stringify Murmur3_text Token_compare Murmur3Token_ops]. rewrite ML_compare_spec by done.
  pose proof (signed64_range _ (ML_bits_range x Hx)) as Rx. pose proof (signed64_range _ (ML_bits_range y Hy)) as Ry.
  split.
  - intros E. rewrite (num_to_string_int64_inj (ML_val x) (ML_val y)); [lia|done|done|done].
  - intros E. f_equal. lia.
Qed.

Definition ring_host (a : string) (tokens : list string) : Host :=
  mkHostNode (str a) None (Some (str "dc1")) (Some (str "r1")) (Some (map str tokens)) None.

Lemma getReplicas_owner_witness :
  let m : Metadata MutableLong := mkMetadata true None [] [] [] [] [] in
  exists m' h, buildTokens m [ring_host "a" ["-100"; "77"]%string; ring_host "b" ["100"]%string] = Ok m' /\
    getReplicas m' None (ArgToken (Murmur3_of 78)) = Ok (Some [Some h], m') /\
    h ∈ [ring_host "a" ["-100"; "77"]%string; ring_host "b" ["100"]%string].
Proof.
  intros m.
  destruct (getReplicas_owner m [ring_host "a" ["-100"; "77"]%string; ring_host "b" ["100"]%string] (ArgToken (Murmur3_of 78)))
    as (m' & ring & E & Er & _ & _ & H).
  - reflexivity.
  - vm_compute. split; reflexivity.
  - apply Murmur3_of_wf.
  - assert (D : ring_distinct ring).
    { vm_compute in E. injection E as <-. injection Er as <-.
      intros [|[|[|i]]] [|[|[|j]]] x y Hij Hx Hy; try done; injection Hx as <-; injection Hy as <-; vm_compute; congruence. }
    destruct (H D) as (i & r & h & _ & _ & Hg & Hh & _). by exists m', h.
Defined.

From stdpp Require Import gmap.
From S2P Require Import Prelude.
From S2P Require Import ReplicasTheorems.

(** The cache of prepared statements of Metadata: its invariant, the identity
    of the infos and the bound on its size. *)

(** [length] counts the entries, and keys are different. *)
Definition prepared_wf (q : PreparedQueries) : Prop :=
  NoDup (map fst (pq_mapByKey q)) /\ pq_length q = Z.of_nat (length (pq_mapByKey q)).

Lemma obj_delete_get {V} (o : obj V) k k' :
  NoDup (map fst o) -> obj_get (obj_delete o k) k' = if decide (k = k') then None else obj_get o k'.
Proof.
  induction o as [|[a b] o IH]; cbn [obj_delete obj_get map fst].
  - by destruct (decide (k = k')).
  - intros [Ha Ho]%NoDup_cons. destruct (decide (k = a)) as [->|Hk].
    + destruct (decide (a = k')) as [->|]; [by apply obj_get_None|]. by rewrite decide_False by done.
    + cbn [obj_get]. rewrite IH by done. destruct (decide (k' = a)) as [->|]; [by rewrite decide_False by done|done].
Qed.

Lemma obj_delete_keys {V} (o : obj V) k :
  k ∈ map fst o -> map fst o ≡ₚ k :: map fst (obj_delete o k).
Proof.
  induction o as [|[a b] o IH]; cbn [obj_delete map fst]; [by intros ?%not_elem_of_nil|].
  destruct (decide (k = a)) as [->|Hk]; [done|]. rewrite elem_of_cons. intros [|Hin]; [done|]. cbn [map fst].
  rewrite (IH Hin) at 1. constructor.
Qed.

(** The loop that removes the entries [l]. *)
Definition evict (q : PreparedQueries) (l : list (jsstr * jsstr)) : PreparedQueries :=
  foldl (fun q kq => mkPrepared (pq_length q - 1) (pq_maxPrepared q)
           (obj_delete (pq_mapByKey q) kq.1) (obj_delete (pq_mapById q) kq.2) (pq_heap q)) q l.

Lemma evict_spec l q :
  prepared_wf q -> NoDup (map fst l) -> map fst l ⊆ map fst (pq_mapByKey q) ->
  prepared_wf (evict q l) /\ pq_length (evict q l) = pq_length q - Z.of_nat (length l) /\
  pq_maxPrepared (evict q l) = pq_maxPrepared q /\ pq_heap (evict q l) = pq_heap q /\
  forall k, obj_get (pq_mapByKey (evict q l)) k =
    if decide (k ∈ map fst l) then None else obj_get (pq_mapByKey q) k.
Proof.
  revert q. induction l as [|[k qid] l IH]; intros q Hq Hnd Hsub.
  { split_and!; try done. cbn. lia. }
  cbn [map fst] in *. apply NoDup_cons in Hnd as [Hk Hnd].
  destruct Hq as [Hkeys Hlen].
  assert (Hin : k ∈ map fst (pq_mapByKey q)) by set_solver.
  pose proof (obj_delete_keys _ _ Hin) as Hp.
  set (q1 := mkPrepared (pq_length q - 1) (pq_maxPrepared q) (obj_delete (pq_mapByKey q) k)
               (obj_delete (pq_mapById q) qid) (pq_heap q)).
  change (evict q ((k, qid) :: l)) with (evict q1 l).
  destruct (IH q1) as (I1 & I2 & I3 & I4 & I5).
  - split; cbn [q1 pq_mapByKey pq_length].
    + rewrite Hp in Hkeys. by apply NoDup_cons in Hkeys as [_ ?].
    + apply Permutation_length in Hp. cbn [length] in Hp. rewrite !length_map in Hp. lia.
  - done.
  - cbn [q1 pq_mapByKey]. intros x Hx. assert (Hx' : x ∈ map fst (pq_mapByKey q)) by set_solver.
    rewrite Hp in Hx'. apply elem_of_cons in Hx' as [->|]; [done|done].
  - split_and!; [done|rewrite I2; cbn [q1 pq_length length]; lia|done|done|].
    intros k'. rewrite I5. cbn [q1 pq_mapByKey]. rewrite obj_delete_get by done.
    destruct (decide (k' ∈ map fst l)) as [|Hn]; [by rewrite decide_True by by right|].
    destruct (decide (k = k')) as [->|Hne]; [by rewrite decide_True by by left|].
    rewrite decide_False; [done|]. intros [|]%elem_of_cons; congruence || done.
Qed.

Lemma removable_keys q : sublist (map fst (removable q)) (map fst (pq_mapByKey q)).
Proof.
  unfold removable. induction (pq_mapByKey q) as [|[k id] o IH]; [constructor|]. cbn.
  destruct (queryId_of (pq_heap q) id); cbn; by constructor.
Qed.

(** The entries removed to make room: the oldest ones that were prepared. *)
Definition evicted (q : PreparedQueries) : list (jsstr * jsstr) :=
  if pq_length q <? pq_maxPrepared q then []
  else take (Z.to_nat (pq_length q - pq_maxPrepared q + 1)) (removable q).

Lemma validateOverflow_evict q : _validateOverflow q = evict q (evicted q).
Proof. unfold _validateOverflow, evicted. by destruct (_ <? _). Qed.

Lemma evicted_ok q :
  prepared_wf q -> NoDup (map fst (evicted q)) /\ map fst (evicted q) ⊆ map fst (pq_mapByKey q).
Proof.
  intros [Hk _]. unfold evicted. destruct (_ <? _); [split; [constructor|set_solver]|].
  pose proof (removable_keys q) as Hs. rewrite <- List.firstn_map. split.
  - apply NoDup_prefix. exact (sublist_NoDup _ _ Hk Hs).
  - intros x Hx%elem_of_take. destruct Hx as (i & Hx & _). apply list_elem_of_lookup_2 in Hx.
    by eapply elem_of_submseteq, sublist_submseteq.
Qed.

(** The entries that have no query id yet. *)
Definition unprepared (q : PreparedQueries) : Z :=
  Z.of_nat (length (pq_mapByKey q)) - Z.of_nat (length (removable q)).

Lemma removable_bound q : (length (removable q) <= length (pq_mapByKey q))%nat.
Proof. pose proof (sublist_length _ _ (removable_keys q)) as H. by rewrite !length_map in H. Qed.

(** C33: An info is returned for every query, the same one again for the
    same query as long as it is not evicted. Only a full cache evicts: the
    oldest entries that have a query id, as many as needed for one more, if
    there are so many; all others stay, and the invariant is kept. A query that
    is found does not change the cache. After a query was added to a full cache
    its size is the maximum, or one more than the number of entries that were
    still without a query id when there are more of them: only when all others
    are prepared, or few are not, is the maximum kept. *)
Theorem getOrAdd_cache (q : PreparedQueries) (keyspace : option jsstr) (query : jsstr) (fresh other : Z)
    (Hq : prepared_wf q) :
  let key := _getKey keyspace query in
  let '(id, q') := getOrAdd q keyspace query fresh in
  prepared_wf q' /\ obj_get (pq_mapByKey q') key = Some id /\ getOrAdd q' keyspace query other = (id, q') /\
  (obj_get (pq_mapByKey q) key = None -> id = fresh /\
    (forall k, k <> key -> obj_get (pq_mapByKey q') k =
       if decide (k ∈ map fst (evicted q)) then None else obj_get (pq_mapByKey q) k)) /\
  (obj_get (pq_mapByKey q) key <> None -> q' = q) /\
  (obj_get (pq_mapByKey q) key = None ->
   pq_length q' = if pq_length q <? pq_maxPrepared q then pq_length q + 1
                  else Z.max (pq_maxPrepared q) (unprepared q + 1)).
Proof.
  cbv zeta. unfold getOrAdd at 1. destruct (obj_get (pq_mapByKey q) (_getKey keyspace query)) as [id|] eqn:E.
  { split; [done|]. split; [done|]. split; [unfold getOrAdd; by rewrite E|]. by split_and!. }
  rewrite validateOverflow_evict. destruct (evicted_ok q Hq) as [Hnd Hsub].
  destruct (evict_spec (evicted q) q Hq Hnd Hsub) as ([W1 W2] & L & M & _ & G).
  set (key := _getKey keyspace query) in *.
  assert (Hkey : obj_get (pq_mapByKey (evict q (evicted q))) key = None) by (rewrite G, E; by destruct (decide _)).
  pose proof (proj1 (obj_get_None _ _) Hkey) as Hkey'.
  assert (Hget : obj_get (obj_set (pq_mapByKey (evict q (evicted q))) key fresh) key = Some fresh)
    by (rewrite obj_get_set; by rewrite decide_True).
  cbn [pq_mapByKey pq_length]. split_and!; try done.
  - split; cbn [pq_mapByKey pq_length].
    + rewrite obj_set_new by done. rewrite map_app. apply NoDup_app. split_and!; [done| |apply NoDup_singleton].
      intros x Hx ->%list_elem_of_singleton. done.
    + rewrite obj_set_new by done. rewrite length_app, W2. cbn. lia.
  - unfold getOrAdd. cbn [pq_mapByKey]. fold key. by rewrite Hget.
  - intros _. split; [done|]. intros k Hne. rewrite obj_get_set, decide_False by done. apply G.
  - intros _. rewrite L. unfold evicted, unprepared. destruct (Z.ltb_spec (pq_length q) (pq_maxPrepared q)); [cbn; lia|].
    rewrite length_take. pose proof (removable_bound q). destruct Hq as [_ Hlen]. lia.
Qed.

Lemma getOrAdd_cache_witness :
  (let q := setById (getOrAdd (PreparedQueries_new 1) None (str "SELECT a") 1).2 1 (str "0a") in
   let '(id, q') := getOrAdd q None (str "SELECT b") 2 in
   id = 2 /\ obj_get (pq_mapByKey q') (str "SELECT a") = None /\ pq_length q' = 1).
Proof.
  pose proof (getOrAdd_cache (setById (getOrAdd (PreparedQueries_new 1) None (str "SELECT a") 1).2 1 (str "0a"))
    None (str "SELECT b") 2 3) as H.
  cbv zeta in *. destruct (getOrAdd _ None (str "SELECT b") 2) as [id q'] eqn:E.
  destruct H as (_ & _ & _ & H & _ & L).
  - split; [repeat constructor; set_solver|reflexivity].
  - destruct H as [-> H]; [reflexivity|]. split; [reflexivity|]. split.
    + rewrite H by (vm_compute; congruence). reflexivity.
    + exact (L eq_refl).
Defined.

(** Statements that are being prepared are not evicted: the maximum is exceeded. *)
Example getOrAdd_exceeds :
  pq_length (getOrAdd (getOrAdd (PreparedQueries_new 1) None (str "SELECT a") 1).2 None (str "SELECT b") 2).2 = 2.
Proof. reflexivity. Qed.

(** The key of a query is its keyspace followed by its text: different
    statements can share one entry. *)
Theorem getKey_ambiguous :
  _getKey (Some (str "a")) (str "b c") = _getKey (Some (str "ab")) (str " c") /\
  (let '(i, q) := getOrAdd (PreparedQueries_new 500) (Some (str "a")) (str "b c") 1 in
   (getOrAdd q (Some (str "ab")) (str " c") 2).1 = i).
Proof. vm_compute. auto. Qed.
