(* ===== verification/Debouncer.v ===== *)
(** [lib/metadata/event-debouncer.js] as a state machine: events are queued and
    processed together after a sliding delay.

    A step is a call from outside ([eventReceived], [shutdown]), the timer, or
    the end of a handler whose promise is awaited.  Handlers that are not
    awaited are synchronous and do not throw.  [d_log] is the history of what
    the debouncer invoked. *)
From S2P Require Import Prelude.
From S2P Require Import JsStr.
From S2P Require Import Utils.

Definition _queueOverflowThreshold : Z := 1000.

(** [ev_id] stands for the event's callback.  A [cqlObject] that is undefined
    is [None]; null is [Some None]. *)
Record event := mkEvent {
  ev_id : Z;
  ev_all : bool;
  ev_keyspace : option jsstr;
  ev_cqlObject : option (option jsstr) }.

#[export] Instance event_eq_dec : EqDecision event.
Proof. solve_decision. Defined.

Record keyspace_events := mkKeyspaceEvents { ke_events : list event; ke_mainEvent : option event }.

Record event_queue := mkQueue {
  q_callbacks : list event;
  q_keyspaces : obj keyspace_events;
  q_mainEvent : option event }.

(** What is invoked: the warning, a handler, a callback (with an error). *)
Inductive debouncer_action :=
  | LogWarning
  | CallHandler (e : event)
  | CallCallback (e : event) (err : bool).

(** A handler whose promise is pending, and the callbacks to call then. *)
Record running := mkRunning { r_handler : event; r_callbacks : list event }.

Record EventDebouncer := mkDebouncer {
  d_delay : Z;
  d_queue : option event_queue;
  d_timeout : bool;
  d_running : list running;
  d_log : list debouncer_action }.

Definition EventDebouncer_new (delay : Z) : EventDebouncer := mkDebouncer delay None false [] [].

(** ** Processing the queue *)

(** The handlers and callbacks of one keyspace, and the handler to await. *)
Definition process_keyspace (ke : keyspace_events) : list debouncer_action * list running :=
  match ke_mainEvent ke with
  | Some m => ([CallHandler m], [mkRunning m (ke_events ke)])
  | None => (concat (map (fun e => [CallHandler e; CallCallback e false]) (ke_events ke)), [])
  end.

Definition processQueue (q : event_queue) : list debouncer_action * list running :=
  match q_mainEvent q with
  | Some m => ([CallHandler m], [mkRunning m (q_callbacks q)])
  | None =>
      (concat (map (fun kv => (process_keyspace kv.2).1) (q_keyspaces q)),
       concat (map (fun kv => (process_keyspace kv.2).2) (q_keyspaces q)))
  end.

(** The local function [process]: the queue is detached first. *)
Definition process (d : EventDebouncer) : EventDebouncer :=
  match d_queue d with
  | None => d
  | Some q =>
      let '(log, running) := processQueue q in
      mkDebouncer (d_delay d) None false (d_running d ++ running) (d_log d ++ log)
  end.

Definition _slideDelay (d : EventDebouncer) (delay : Z) : EventDebouncer :=
  if delay =? 0 then process (mkDebouncer (d_delay d) (d_queue d) false (d_running d) (d_log d))
  else mkDebouncer (d_delay d) (d_queue d) true (d_running d) (d_log d).

(** ** Calls *)

(** The property name of a keyspace. *)
Definition keyspace_key (k : option jsstr) : jsstr := default (str "undefined") k.

(** The queue with the event in it. *)
Definition enqueue (q : event_queue) (e : event) : event_queue :=
  let main := if ev_all e then Some e else q_mainEvent q in
  let callbacks := q_callbacks q ++ [e] in
  match main with
  | Some _ => mkQueue callbacks (q_keyspaces q) main
  | None =>
      let key := keyspace_key (ev_keyspace e) in
      let ke := default (mkKeyspaceEvents [] None) (obj_get (q_keyspaces q) key) in
      let main_ks := match ev_cqlObject e with None => Some e | Some _ => ke_mainEvent ke end in
      mkQueue callbacks (obj_set (q_keyspaces q) key (mkKeyspaceEvents (ke_events ke ++ [e]) main_ks)) None
  end.

Definition eventReceived (d : EventDebouncer) (e : event) (processNow : bool) : EventDebouncer :=
  let q := default (mkQueue [] [] None) (d_queue d) in
  let delay := if processNow then 0 else d_delay d in
  let log := if Z.of_nat (length (q_callbacks q)) =? _queueOverflowThreshold then [LogWarning] else [] in
  _slideDelay (mkDebouncer (d_delay d) (Some (enqueue q e)) (d_timeout d) (d_running d) (d_log d ++ log)) delay.

Definition shutdown (d : EventDebouncer) : EventDebouncer :=
  match d_queue d with
  | None => d
  | Some q =>
      mkDebouncer (d_delay d) None false (d_running d)
        (d_log d ++ map (fun e => CallCallback e false) (q_callbacks q))
  end.

(** The timer set by [_slideDelay] fires. *)
Definition timer_fires (d : EventDebouncer) : EventDebouncer := process d.

(** The promise of the [i]-th running handler settles. *)
Definition handler_settles (d : EventDebouncer) (i : nat) (err : bool) : EventDebouncer :=
  match d_running d !! i with
  | None => d
  | Some r =>
      mkDebouncer (d_delay d) (d_queue d) (d_timeout d) (delete i (d_running d))
        (d_log d ++ map (fun e => CallCallback e err) (r_callbacks r))
  end.

(** The steps; the second state component is the list of events received. *)
Inductive debouncer_step : EventDebouncer * list event -> EventDebouncer * list event -> Prop :=
  | step_event d l e now : debouncer_step (d, l) (eventReceived d e now, l ++ [e])
  | step_timer d l : d_timeout d = true -> debouncer_step (d, l) (timer_fires d, l)
  | step_settle d l i err : (i < length (d_running d))%nat -> debouncer_step (d, l) (handler_settles d i err, l)
  | step_shutdown d l : debouncer_step (d, l) (shutdown d, l).

Inductive debouncer_reachable (delay : Z) : EventDebouncer * list event -> Prop :=
  | reach_new : debouncer_reachable delay (EventDebouncer_new delay, [])
  | reach_step s s' : debouncer_reachable delay s -> debouncer_step s s' -> debouncer_reachable delay s'.

(** The callbacks that were called, in order. *)
Definition called_back (log : list debouncer_action) : list event :=
  omap (fun a => match a with CallCallback e _ => Some e | _ => None end) log.

From stdpp Require Import relations.
From S2P Require Import Prelude.
From S2P Require Import UtilsTheorems.
From S2P Require Import ReplicasTheorems.
From S2P Require Import MetadataTheorems.

(** No event is lost or answered twice by the debouncer, and events are
    coalesced. *)

(** ** The invariant *)

Definition keyspaces_events (o : obj keyspace_events) : list event := concat (map (fun kv => ke_events kv.2) o).

(** Without a full refresh, the keyspaces hold all the events queued. *)
Definition queue_wf (q : event_queue) : Prop :=
  q_mainEvent q = None -> keyspaces_events (q_keyspaces q) ≡ₚ q_callbacks q.

Definition awaiting (l : list running) : list event := concat (map r_callbacks l).

Definition queued (d : EventDebouncer) : list event :=
  match d_queue d with Some q => q_callbacks q | None => [] end.

Definition debouncer_inv (s : EventDebouncer * list event) : Prop :=
  let '(d, l) := s in
  queued d ++ awaiting (d_running d) ++ called_back (d_log d) ≡ₚ l /\
  (d_queue d = None <-> d_timeout d = false) /\
  (forall q, d_queue d = Some q -> queue_wf q).

Lemma called_back_app a b : called_back (a ++ b) = called_back a ++ called_back b.
Proof. unfold called_back. apply omap_app. Qed.

Lemma called_back_callbacks l err : called_back (map (fun e => CallCallback e err) l) = l.
Proof. unfold called_back. induction l as [|e l IH]; [done|]. cbn. by rewrite IH. Qed.

Lemma awaiting_app a b : awaiting (a ++ b) = awaiting a ++ awaiting b.
Proof. unfold awaiting. by rewrite map_app, concat_app. Qed.

Lemma process_keyspace_events ke :
  called_back (process_keyspace ke).1 ++ awaiting (process_keyspace ke).2 = ke_events ke.
Proof.
  unfold process_keyspace. destruct (ke_mainEvent ke); cbn; [by rewrite app_nil_r|].
  rewrite app_nil_r. induction (ke_events ke) as [|e l IH]; [done|]. cbn in *. by rewrite IH.
Qed.

Lemma processQueue_events q :
  queue_wf q -> called_back (processQueue q).1 ++ awaiting (processQueue q).2 ≡ₚ q_callbacks q.
Proof.
  unfold queue_wf, processQueue. intros H. destruct (q_mainEvent q); cbn [fst snd]; [cbn; by rewrite app_nil_r|].
  rewrite <- (H eq_refl). clear H. unfold keyspaces_events. induction (q_keyspaces q) as [|[k ke] o IH]; [done|].
  cbn [map concat fst snd]. rewrite called_back_app, awaiting_app, <- (process_keyspace_events ke), <- IH. solve_Permutation.
Qed.

Lemma keyspaces_events_set o key e m :
  keyspaces_events (obj_set o key (mkKeyspaceEvents (ke_events (default (mkKeyspaceEvents [] None) (obj_get o key)) ++ [e]) m))
  ≡ₚ keyspaces_events o ++ [e].
Proof.
  unfold keyspaces_events. induction o as [|[k ke] o IH]; cbn [obj_set obj_get map concat]; [done|].
  destruct (decide (key = k)); cbn [map concat snd default from_option id ke_events].
  - solve_Permutation.
  - rewrite IH. solve_Permutation.
Qed.

Lemma enqueue_spec q e : queue_wf q -> queue_wf (enqueue q e) /\ q_callbacks (enqueue q e) = q_callbacks q ++ [e].
Proof.
  intros H. unfold enqueue. destruct (if ev_all e then Some e else q_mainEvent q) eqn:E; [done|].
  split; [|done]. intros _. cbn [q_keyspaces q_callbacks].
  rewrite keyspaces_events_set. unfold queue_wf in H. rewrite H; [done|]. by destruct (ev_all e).
Qed.

Lemma process_inv d l :
  d_queue d <> None -> queued d ++ awaiting (d_running d) ++ called_back (d_log d) ≡ₚ l ->
  (forall q, d_queue d = Some q -> queue_wf q) ->
  debouncer_inv (process d, l) /\ d_queue (process d) = None.
Proof.
  intros Hq Hl Hw. unfold process, queued in *. destruct (d_queue d) as [q|] eqn:E; [|done].
  destruct (processQueue q) as [log running] eqn:Ep.
  pose proof (processQueue_events q (Hw q eq_refl)) as Hp. rewrite Ep in Hp. cbn [fst snd] in Hp.
  split; [|done]. unfold debouncer_inv, queued. cbn [d_queue d_running d_log d_timeout].
  split; [|done]. rewrite awaiting_app, called_back_app, <- Hl, <- Hp. solve_Permutation.
Qed.

Lemma eventReceived_inv d l e now : debouncer_inv (d, l) -> debouncer_inv (eventReceived d e now, l ++ [e]).
Proof.
  intros (Hl & Ht & Hw). unfold eventReceived, _slideDelay. cbn [d_delay d_queue d_running d_log].
  set (q := default (mkQueue [] [] None) (d_queue d)).
  assert (Hq : queue_wf q) by (unfold q; destruct (d_queue d) as [q0|] eqn:E; [by apply Hw|intros _; reflexivity]).
  assert (Hc : queued d = q_callbacks q) by (unfold q, queued; by destruct (d_queue d)).
  destruct (enqueue_spec q e Hq) as [Hq' Hc'].
  set (log := if Z.of_nat (length (q_callbacks q)) =? _queueOverflowThreshold then [LogWarning] else []).
  assert (Hlog : called_back (d_log d ++ log) = called_back (d_log d)).
  { rewrite called_back_app. unfold log. destruct (_ =? _); cbn; by rewrite app_nil_r. }
  assert (Hl' : q_callbacks (enqueue q e) ++ awaiting (d_running d) ++ called_back (d_log d ++ log) ≡ₚ l ++ [e]).
  { rewrite Hc', Hlog, <- Hl, Hc. solve_Permutation. }
  destruct ((if now then 0 else d_delay d) =? 0).
  - apply process_inv; [done|exact Hl'|]. intros q0 [= <-]. exact Hq'.
  - unfold debouncer_inv, queued. cbn [d_queue d_running d_log d_timeout]. split; [exact Hl'|]. split; [done|]. intros q0 [= <-]. exact Hq'.
Qed.

Lemma settle_inv d l i err : debouncer_inv (d, l) -> debouncer_inv (handler_settles d i err, l).
Proof.
  intros (Hl & Ht & Hw). unfold handler_settles. destruct (d_running d !! i) as [r|] eqn:E; [|done].
  unfold debouncer_inv, queued in *. cbn [d_queue d_running d_log d_timeout]. split; [|done]. rewrite <- Hl.
  rewrite called_back_app, called_back_callbacks.
  apply delete_Permutation in E.
  assert (P : awaiting (d_running d) ≡ₚ r_callbacks r ++ awaiting (delete i (d_running d))).
  { unfold awaiting. rewrite E at 1. done. }
  rewrite P. solve_Permutation.
Qed.

Lemma debouncer_step_inv s s' : debouncer_inv s -> debouncer_step s s' -> debouncer_inv s'.
Proof.
  intros H Hs. destruct Hs as [d l e now|d l Ht|d l i err _|d l].
  - by apply eventReceived_inv.
  - destruct H as (Hl & Ht' & Hw). apply process_inv; [|done|done]. intros E%Ht'. congruence.
  - by apply settle_inv.
  - unfold shutdown. destruct (d_queue d) as [q|] eqn:E; [|exact H].
    destruct H as (Hl & Ht & Hw). unfold queued in Hl. rewrite E in Hl.
    unfold debouncer_inv, queued. cbn [d_queue d_running d_log d_timeout]. split; [|done].
    rewrite called_back_app, called_back_callbacks, <- Hl. solve_Permutation.
Qed.

Lemma reachable_inv delay s : debouncer_reachable delay s -> debouncer_inv s.
Proof. induction 1 as [|s s' _ IH Hs]; [by split|]. by eapply debouncer_step_inv. Qed.

(** Letting everything that is pending happen. *)
Fixpoint settle_all (n : nat) (d : EventDebouncer) : EventDebouncer :=
  match n with O => d | S n' => settle_all n' (handler_settles d 0 false) end.

Definition run_out (d : EventDebouncer) : EventDebouncer :=
  let d := if d_timeout d then timer_fires d else d in settle_all (length (d_running d)) d.

Lemma settle_all_spec n d l :
  length (d_running d) = n -> debouncer_inv (d, l) ->
  debouncer_inv (settle_all n d, l) /\ d_running (settle_all n d) = [] /\
  d_queue (settle_all n d) = d_queue d /\ rtc debouncer_step (d, l) (settle_all n d, l).
Proof.
  revert d. induction n as [|n IH]; intros d Hn H; cbn [settle_all].
  { split_and!; [done|by apply nil_length_inv|done|by apply rtc_refl]. }
  pose proof (settle_inv d l 0 false H) as H'.
  assert (E : length (d_running (handler_settles d 0 false)) = n /\ d_queue (handler_settles d 0 false) = d_queue d).
  { unfold handler_settles. destruct (d_running d) as [|r rs] eqn:Er; [cbn in Hn; lia|].
    cbn [length] in Hn. cbn. split; [lia|done]. }
  destruct (IH _ (proj1 E) H') as (I1 & I2 & I3 & I4). split_and!; [done|done|rewrite I3; apply E|].
  eapply rtc_l; [|exact I4]. apply step_settle. lia.
Qed.

(** ** Coalescing *)

(** The last event that satisfies [p]. *)
Definition last_such (p : event -> bool) (l : list event) : option event := last (List.filter p l).

Definition for_keyspace (k : jsstr) (e : event) : bool := bool_decide (keyspace_key (ev_keyspace e) = k).
Definition whole_keyspace (e : event) : bool := match ev_cqlObject e with None => true | Some _ => false end.

(** The events of a keyspace, and the last one that refreshes it as a whole. *)
Definition gathered (l : list event) (k : jsstr) : keyspace_events :=
  mkKeyspaceEvents (List.filter (for_keyspace k) l) (last_such (fun e => for_keyspace k e && whole_keyspace e) l).

Definition keyspace_keys (l : list event) : list jsstr := distinct (map (fun e => keyspace_key (ev_keyspace e)) l).

Definition queue_after (l : list event) : event_queue := foldl enqueue (mkQueue [] [] None) l.

Lemma last_such_snoc p l e : last_such p (l ++ [e]) = if p e then Some e else last_such p l.
Proof.
  unfold last_such. rewrite List.filter_app. cbn. destruct (p e); [by rewrite last_snoc|by rewrite app_nil_r].
Qed.

Lemma obj_get_map {V} (f : jsstr -> V) ks k : obj_get (map (fun k => (k, f k)) ks) k = if decide (k ∈ ks) then Some (f k) else None.
Proof.
  induction ks as [|a ks IH]; [done|]. cbn [map obj_get]. destruct (decide (k = a)) as [->|Hk].
  - by rewrite decide_True by by left.
  - rewrite IH. destruct (decide (k ∈ ks)); [by rewrite decide_True by by right|].
    by rewrite decide_False by (rewrite elem_of_cons; tauto).
Qed.

Lemma obj_set_map {V} (f g : jsstr -> V) ks k :
  NoDup ks -> k ∈ ks -> (forall x, x <> k -> f x = g x) ->
  obj_set (map (fun k => (k, f k)) ks) k (g k) = map (fun k => (k, g k)) ks.
Proof.
  intros Hnd Hin Hfg. induction Hnd as [|a ks Ha Hnd IH]; [by apply not_elem_of_nil in Hin|].
  cbn [map obj_set]. destruct (decide (k = a)) as [->|Hk].
  - f_equal. apply map_ext_in. intros x Hx. rewrite Hfg; [done|]. intros ->. by apply Ha, list_elem_of_In.
  - rewrite Hfg by congruence. f_equal. apply IH. by apply elem_of_cons in Hin as [|].
Qed.

Lemma queue_after_spec l :
  q_callbacks (queue_after l) = l /\ q_mainEvent (queue_after l) = last_such ev_all l /\
  (q_mainEvent (queue_after l) = None ->
   q_keyspaces (queue_after l) = map (fun k => (k, gathered l k)) (keyspace_keys l)).
Proof.
  induction l as [|e l IH] using rev_ind; [by split_and!|]. unfold queue_after in *. rewrite foldl_app. cbn [foldl].
  set (q := foldl enqueue (mkQueue [] [] None) l) in *. destruct IH as (H1 & H2 & H3).
  rewrite last_such_snoc. unfold enqueue. rewrite H1, H2.
  destruct (if ev_all e then Some e else last_such ev_all l) as [m|] eqn:Em; [by split_and!|].
  cbn [q_callbacks q_mainEvent q_keyspaces]. split; [done|]. split; [done|]. intros _.
  assert (Hn : last_such ev_all l = None) by (by destruct (ev_all e)).
  rewrite (H3 ltac:(congruence)). set (k := keyspace_key (ev_keyspace e)).
  assert (Ekeys : keyspace_keys (l ++ [e]) =
    if decide (k ∈ map (fun e => keyspace_key (ev_keyspace e)) l) then keyspace_keys l else keyspace_keys l ++ [k]).
  { unfold keyspace_keys. rewrite map_app. cbn [map]. by rewrite distinct_snoc. }
  rewrite Ekeys. clear Ekeys.
  assert (Hg : forall x, x <> k -> gathered l x = gathered (l ++ [e]) x).
  { intros x Hx. unfold gathered. rewrite last_such_snoc, List.filter_app. cbn [List.filter].
    assert (E : for_keyspace x e = false) by (apply bool_decide_eq_false; intros E; apply Hx; by rewrite <- E).
    rewrite E. cbn. by rewrite app_nil_r. }
  assert (Ek : for_keyspace k e = true) by (by apply bool_decide_eq_true).
  assert (Hk : gathered (l ++ [e]) k = mkKeyspaceEvents (ke_events (gathered l k) ++ [e])
      (match ev_cqlObject e with None => Some e | Some _ => ke_mainEvent (gathered l k) end)).
  { unfold gathered at 1. rewrite last_such_snoc, List.filter_app. cbn [List.filter]. rewrite Ek. cbn [andb].
    f_equal. unfold whole_keyspace. by destruct (ev_cqlObject e). }
  assert (Hmem : k ∈ keyspace_keys l <-> k ∈ map (fun e => keyspace_key (ev_keyspace e)) l) by apply elem_of_distinct.
  rewrite obj_get_map. destruct (decide (k ∈ map (fun e => keyspace_key (ev_keyspace e)) l)) as [Hin|Hin].
  - rewrite decide_True by tauto. cbn [default from_option id]. rewrite <- Hk.
    apply obj_set_map; [apply NoDup_distinct|tauto|exact Hg].
  - rewrite decide_False by tauto. cbn [default from_option id ke_events ke_mainEvent].
    assert (Hempty : gathered l k = mkKeyspaceEvents [] None).
    { unfold gathered, last_such. assert (E : forall p, List.filter (fun e => for_keyspace k e && p e) l = []).
      { intros p. destruct (List.filter _ l) as [|x xs] eqn:Ef; [done|exfalso].
        assert (Hx : x ∈ List.filter (fun e => for_keyspace k e && p e) l) by (rewrite Ef; by left).
        apply elem_of_Lfilter in Hx as [Hx [Hp%bool_decide_eq_true _]%andb_prop]. apply Hin.
        apply list_elem_of_fmap. by exists x. }
      rewrite E. pose proof (E (fun _ => true)) as E'. f_equal. rewrite <- E'. apply List.filter_ext.
      intros x. by rewrite andb_true_r. }
    rewrite Hempty in Hk. cbn [ke_events ke_mainEvent] in Hk. rewrite <- Hk.
    rewrite obj_set_new.
    2: { rewrite map_map. cbn [fst]. rewrite map_id. tauto. }
    rewrite map_app. cbn [map]. f_equal. apply map_ext_in. intros x Hx. rewrite Hg; [done|].
    intros ->. apply Hin, Hmem. by apply list_elem_of_In.
Qed.

(** The handlers of a history. *)
Definition handled (log : list debouncer_action) : list event :=
  omap (fun a => match a with CallHandler e => Some e | _ => None end) log.

Lemma handled_app a b : handled (a ++ b) = handled a ++ handled b.
Proof. unfold handled. apply omap_app. Qed.

Lemma handled_process_keyspace ke :
  handled (process_keyspace ke).1 = match ke_mainEvent ke with Some m => [m] | None => ke_events ke end.
Proof.
  unfold process_keyspace. destruct (ke_mainEvent ke); [done|]. cbn [fst].
  induction (ke_events ke) as [|e l IH]; [done|]. cbn [map concat]. rewrite handled_app, IH. done.
Qed.

(** Events received with a delay and no timer in between. *)
Lemma receive_all delay l :
  delay <> 0 ->
  let d := foldl (fun d e => eventReceived d e false) (EventDebouncer_new delay) l in
  d_queue d = (match l with [] => None | _ => Some (queue_after l) end) /\ d_delay d = delay /\
  d_running d = [] /\ handled (d_log d) = [].
Proof.
  intros Hd. induction l as [|e l IH] using rev_ind; [done|]. cbv zeta in *. rewrite foldl_app. cbn [foldl].
  set (d := foldl _ _ l) in *. destruct IH as (H1 & H2 & H3 & H4). unfold eventReceived, _slideDelay.
  cbn [d_delay d_queue d_running d_log]. rewrite H2. destruct (Z.eqb_spec delay 0); [done|].
  cbn [d_delay d_queue d_running d_log]. split_and!; [|done|done|].
  - rewrite H1. unfold queue_after. rewrite foldl_app. by destruct l.
  - rewrite handled_app, H4. by destruct (_ =? _).
Qed.

(** ** Theorems *)

(** C26: In every reachable state each event received is waiting in the
    queue, waiting for a running handler, or was called back, exactly once;
    a timer is set exactly while something is queued. Letting the timer fire
    and the handlers settle calls back every event: none is lost. *)
Theorem EventDebouncer_callbacks_once (delay : Z) (d : EventDebouncer) (received : list event)
    (H : debouncer_reachable delay (d, received)) :
  queued d ++ awaiting (d_running d) ++ called_back (d_log d) ≡ₚ received /\
  (d_queue d = None <-> d_timeout d = false) /\
  rtc debouncer_step (d, received) (run_out d, received) /\
  called_back (d_log (run_out d)) ≡ₚ received.
Proof.
  apply reachable_inv in H. pose proof H as (Hl & Ht & Hw). split; [done|]. split; [done|].
  unfold run_out. set (d1 := if d_timeout d then timer_fires d else d).
  assert (H1 : debouncer_inv (d1, received) /\ d_queue d1 = None /\ rtc debouncer_step (d, received) (d1, received)).
  { unfold d1. destruct (d_timeout d) eqn:E.
    - destruct (process_inv d received) as [I1 I2]; [intros Eq; by apply Ht in Eq|done|done|].
      split_and!; [done|done|]. apply rtc_once. by apply step_timer.
    - split_and!; [done|by apply Ht|apply rtc_refl]. }
  destruct H1 as (H1 & Hq & Hr). destruct (settle_all_spec _ d1 received eq_refl H1) as ((P & _) & R & Q & Hs).
  split; [by etrans|]. rewrite <- P. unfold queued. rewrite Q, Hq, R. done.
Qed.

Definition example_event (i : Z) (all : bool) (obj : option (option jsstr)) : event :=
  mkEvent i all (Some (str "ks")) obj.

Lemma EventDebouncer_callbacks_once_witness :
  called_back (d_log (run_out (eventReceived (eventReceived (EventDebouncer_new 1000)
    (example_event 1 false None) false) (example_event 2 true None) false)))
  ≡ₚ [example_event 1 false None; example_event 2 true None].
Proof.
  apply (EventDebouncer_callbacks_once 1000 _ [example_event 1 false None; example_event 2 true None]).
  apply (reach_step 1000 (eventReceived (EventDebouncer_new 1000) (example_event 1 false None) false, [example_event 1 false None])).
  - apply (reach_step 1000 (EventDebouncer_new 1000, [])); [constructor|]. apply (step_event _ []).
  - apply (step_event _ [_]).
Defined.

(** The events received within one delay are coalesced: when one of them asks
    for a full refresh, only the handler of the last such event runs;
    otherwise, for each keyspace in the order of the first events, only the
    handler of the last event that refreshes the whole keyspace, or the
    handlers of all its events when there is none. *)
Theorem EventDebouncer_coalesces (delay : Z) (l : list event) (Hd : delay <> 0) :
  handled (d_log (timer_fires (foldl (fun d e => eventReceived d e false) (EventDebouncer_new delay) l))) =
    match last_such ev_all l with
    | Some m => [m]
    | None =>
        concat (map (fun k =>
          match last_such (fun e => for_keyspace k e && whole_keyspace e) l with
          | Some m => [m]
          | None => List.filter (for_keyspace k) l
          end) (keyspace_keys l))
    end.
Proof.
  destruct (receive_all delay l Hd) as (H1 & _ & _ & H4). cbv zeta in *. set (d := foldl _ _ l) in *.
  destruct (queue_after_spec l) as (_ & Q2 & Q3). unfold timer_fires, process. rewrite H1.
  destruct l as [|e l]; [done|]. remember (e :: l) as evs eqn:E. clear E e l H1.
  unfold processQueue. rewrite Q2 in *. destruct (last_such ev_all evs) as [m|]; cbn [d_log].
  { by rewrite handled_app, H4. }
  rewrite Q3 by done. clear Q3. rewrite handled_app, H4. cbn [app]. rewrite map_map. cbn [snd].
  induction (keyspace_keys evs) as [|k ks IH]; [done|]. cbn [map concat]. rewrite handled_app, IH. f_equal.
  rewrite handled_process_keyspace. done.
Qed.

Lemma EventDebouncer_coalesces_witness :
  handled (d_log (timer_fires (foldl (fun d e => eventReceived d e false) (EventDebouncer_new 1000)
    [example_event 1 false None; example_event 2 false (Some None); example_event 3 false None])))
  = [example_event 3 false None].
Proof. rewrite EventDebouncer_coalesces by discriminate. vm_compute. reflexivity. Defined.
