(* ===== verification/LoadBalancing.v ===== *)
(** [lib/policies/load-balancing.js]: the policies that choose the hosts of a
    query, and the plans (iterators) they make.

    A plan is a machine: a step yields a host, is silent (a wrapper that passes
    over a host of its child), or is done.  [LoadBalancingPolicy] is the
    interface of a policy, so that the wrapping policies are functions of the
    policy they wrap.  The last policy mutates itself while its plan is consumed
    and has its own machine.  [Math.random] is a stream of Numbers. *)
From S2P Require Import Prelude.
From S2P Require Import JsNum.
From S2P Require Import JsStr.
From S2P Require Import JsFloat.
From S2P Require Import Utils.
From S2P Require Import Host.
From S2P Require Import Replicas.

Inductive distance := local | remote | ignored.

#[export] Instance distance_eq_dec : EqDecision distance.
Proof. solve_decision. Defined.

Definition newlyUpInterval : Z := 60000.

(** What the policies read of the execution options. *)
Record exec_options := mkExecOptions {
  eo_routingKey : option (list Z);
  eo_keyspace : option jsstr;
  eo_preferredHost : option Host }.

(** What they use of a client: its options and [getReplicas] (null is
    [None]). *)
Record lb_client := mkClient {
  client_localDataCenter : option jsstr;
  client_getReplicas : option jsstr -> list Z -> option (list Host) }.

Inductive plan_event := Yield (h : Host) | Skip | Done.

Class LoadBalancingPolicy (P It : Type) := {
  lb_init : P -> lb_client -> HostMap -> option js_error * P;
  lb_getDistance : P -> Host -> distance;
  lb_newQueryPlan : P -> option jsstr -> option exec_options -> list dyadic -> result (It * P);
  lb_step : It -> plan_event * It }.

#[export] Hint Mode LoadBalancingPolicy ! - : typeclass_instances.
#[export] Hint Mode LoadBalancingPolicy - ! : typeclass_instances.

(** The base class: the distance is local, and there is no plan. *)
Definition Base_getDistance (h : Host) : distance := local.
Definition Base_newQueryPlan : result unit := Throw PlainError.

(** The hosts a plan yields until it is done. *)
Fixpoint drain `{LoadBalancingPolicy P It} (fuel : nat) (i : It) : option (list Host) :=
  match fuel with
  | O => None
  | S fuel' =>
      match lb_step i with
      | (Yield h, i') => cons h <$> drain fuel' i'
      | (Skip, i') => drain fuel' i'
      | (Done, _) => Some []
      end
  end.

(** [this.hosts.values()] *)
Definition host_values (m : HostMap) : list Host := (HostMap_values m).1.

Definition next_index (index : Z) : Z :=
  let index := index + 1 in if utils_maxInt <=? index then 0 else index.

(** ** [RoundRobinPolicy] *)

Record RoundRobinPolicy := mkRoundRobin { rr_hosts : option HostMap; rr_index : Z }.

Definition RoundRobinPolicy_new : RoundRobinPolicy := mkRoundRobin None 0.

(** A plan around an array: [planIndex] and [counter]. *)
Record round_plan := mkRound { rp_hosts : list Host; rp_index : Z; rp_counter : Z }.

(** The index is in the range of the array. *)
Definition round_host (i : round_plan) : option Host :=
  rp_hosts i !! Z.to_nat (Z.rem (rp_index i) (Z.of_nat (length (rp_hosts i)))).

Definition rr_step (i : round_plan) : plan_event * round_plan :=
  let counter := rp_counter i + 1 in
  if Z.of_nat (length (rp_hosts i)) <? counter then (Done, mkRound (rp_hosts i) (rp_index i) counter)
  else
    match round_host i with
    | Some h => (Yield h, mkRound (rp_hosts i) (rp_index i + 1) counter)
    | None => (Done, i)
    end.

(** ([index % 0] is NaN, and no host is read then.) *)
Definition rr_newQueryPlan (p : RoundRobinPolicy) : result (round_plan * RoundRobinPolicy) :=
  match rr_hosts p with
  | None => Throw PlainError
  | Some m =>
      let hosts := host_values m in
      let planIndex := Z.rem (rr_index p) (Z.of_nat (length hosts)) in
      Ok (mkRound hosts planIndex 0, mkRoundRobin (rr_hosts p) (next_index (rr_index p)))
  end.

#[export] Instance RoundRobinPolicy_lb : LoadBalancingPolicy RoundRobinPolicy round_plan := {|
  lb_init p client hosts := (None, mkRoundRobin (Some hosts) (rr_index p));
  lb_getDistance p h := Base_getDistance h;
  lb_newQueryPlan p keyspace options rnds := rr_newQueryPlan p;
  lb_step := rr_step |}.

(** ** Local data center *)

Definition getDataCenters (hosts : list Host) : list (option jsstr) := map host_datacenter hosts.

(** [setLocalDc]: the data center of the policy, or of the client.  It is
    assigned before it is checked. *)
Definition setLocalDc (localDc : option jsstr) (client : lb_client) (hosts : HostMap)
    : option js_error * option jsstr :=
  let localDc := if truthy localDc then localDc else client_localDataCenter client in
  let dcs := getDataCenters (host_values hosts) in
  if negb (truthy localDc) then (Some ArgumentError, localDc)
  else if negb (bool_decide (localDc ∈ dcs)) then (Some ArgumentError, localDc)
  else (None, localDc).

(** ** [DCAwareRoundRobinPolicy] *)

Record DCAwareRoundRobinPolicy := mkDCAware {
  dc_hosts_map : option HostMap;
  dc_localDc : option jsstr;
  dc_index : Z;
  localHostsArray : option (list Host) }.

Definition DCAwareRoundRobinPolicy_new (localDc : option jsstr) : DCAwareRoundRobinPolicy :=
  mkDCAware None localDc 0 None.

(** The listeners on the map are [dc_hosts_changed]. *)
Definition dc_init (p : DCAwareRoundRobinPolicy) (client : lb_client) (hosts : HostMap)
    : option js_error * DCAwareRoundRobinPolicy :=
  let '(err, localDc) := setLocalDc (dc_localDc p) client hosts in
  (err, mkDCAware (Some hosts) localDc (dc_index p) (localHostsArray p)).

Definition _cleanHostCache (p : DCAwareRoundRobinPolicy) : DCAwareRoundRobinPolicy :=
  mkDCAware (dc_hosts_map p) (dc_localDc p) (dc_index p) None.

(** The map of hosts has changed and emits its event. *)
Definition dc_hosts_changed (p : DCAwareRoundRobinPolicy) (hosts : HostMap) : DCAwareRoundRobinPolicy :=
  _cleanHostCache (mkDCAware (Some hosts) (dc_localDc p) (dc_index p) (localHostsArray p)).

Definition in_local_dc (localDc : option jsstr) (h : Host) : bool :=
  truthy (host_datacenter h) && bool_decide (host_datacenter h = localDc).

Definition _resolveLocalHosts (p : DCAwareRoundRobinPolicy) (hosts : list Host) : DCAwareRoundRobinPolicy :=
  match localHostsArray p with
  | Some _ => p
  | None =>
      mkDCAware (dc_hosts_map p) (dc_localDc p) (dc_index p)
        (Some (List.filter (in_local_dc (dc_localDc p)) hosts))
  end.

Definition dc_step (i : round_plan) : plan_event * round_plan :=
  if rp_counter i <? Z.of_nat (length (rp_hosts i)) then
    match round_host i with
    | Some h => (Yield h, mkRound (rp_hosts i) (rp_index i + 1) (rp_counter i + 1))
    | None => (Done, i)
    end
  else (Done, mkRound (rp_hosts i) (rp_index i) (rp_counter i + 1)).

Definition dc_newQueryPlan (p : DCAwareRoundRobinPolicy) : result (round_plan * DCAwareRoundRobinPolicy) :=
  match dc_hosts_map p with
  | None => Throw PlainError
  | Some m =>
      let p := mkDCAware (dc_hosts_map p) (dc_localDc p) (next_index (dc_index p)) (localHostsArray p) in
      let p := _resolveLocalHosts p (host_values m) in
      Ok (mkRound (default [] (localHostsArray p)) (dc_index p) 0, p)
  end.

Definition dc_getDistance (p : DCAwareRoundRobinPolicy) (h : Host) : distance :=
  if bool_decide (host_datacenter h = dc_localDc p) then local else ignored.

#[export] Instance DCAwareRoundRobinPolicy_lb : LoadBalancingPolicy DCAwareRoundRobinPolicy round_plan := {|
  lb_init := dc_init;
  lb_getDistance := dc_getDistance;
  lb_newQueryPlan p keyspace options rnds := dc_newQueryPlan p;
  lb_step := dc_step |}.

(** ** The wrapping policies *)

Section wrappers.
Context {P It : Type} `{LoadBalancingPolicy P It}.

Record TokenAwarePolicy := mkTokenAware { ta_client : option lb_client; ta_childPolicy : P }.

Definition ta_init (p : TokenAwarePolicy) (client : lb_client) (hosts : HostMap)
    : option js_error * TokenAwarePolicy :=
  let '(err, child) := lb_init (ta_childPolicy p) client hosts in (err, mkTokenAware (Some client) child).

(** [TokenAwareIterator]; [replicaMap] holds the addresses of the local
    replicas. *)
Record TokenAwareIterator := mkTokenAwareIterator {
  ti_localReplicas : list Host;
  ti_replicaIndex : Z;
  ti_startIndex : Z;
  ti_childIterator : It }.

Definition local_replicas (child : P) (replicas : list Host) : list Host :=
  List.filter (fun h => bool_decide (lb_getDistance child h = local)) replicas.

Definition replicaMap (i : TokenAwareIterator) (h : Host) : bool :=
  bool_decide (host_address h ∈ map host_address (ti_localReplicas i)).

(** [computeNext]: one round of its loop. *)
Definition computeNext (i : TokenAwareIterator) : plan_event * TokenAwareIterator :=
  let n := Z.of_nat (length (ti_localReplicas i)) in
  if ti_replicaIndex i <? n then
    let next := mkTokenAwareIterator (ti_localReplicas i) (ti_replicaIndex i + 1) (ti_startIndex i) (ti_childIterator i) in
    match ti_localReplicas i !! Z.to_nat (Z.rem (ti_startIndex i + ti_replicaIndex i) n) with
    | Some h => (Yield h, next)
    | None => (Done, i)
    end
  else
    let '(item, child) := lb_step (ti_childIterator i) in
    let i := mkTokenAwareIterator (ti_localReplicas i) (ti_replicaIndex i) (ti_startIndex i) child in
    match item with
    | Yield h => if replicaMap i h then (Skip, i) else (Yield h, i)
    | _ => (item, i)
    end.

(** A plan is the iterator, or the plan of the child as it is. *)
Definition ta_step (i : TokenAwareIterator + It) : plan_event * (TokenAwareIterator + It) :=
  match i with
  | inl i => let '(e, i) := computeNext i in (e, inl i)
  | inr c => let '(e, c) := lb_step c in (e, inr c)
  end.

Definition ta_newQueryPlan (p : TokenAwarePolicy) (keyspace : option jsstr) (options : option exec_options)
    (rnds : list dyadic) : result ((TokenAwareIterator + It) * TokenAwarePolicy) :=
  let routingKey := match options with Some o => eo_routingKey o | None => None end in
  let keyspace := match options with
                  | Some o => if truthy (eo_keyspace o) then eo_keyspace o else keyspace
                  | None => keyspace
                  end in
  let replicas :=
    match routingKey with
    | None => Ok None
    | Some key =>
        match ta_client p with
        | Some client => Ok (client_getReplicas client keyspace key)
        | None => Throw TypeError
        end
    end in
  replicas ← replicas;
  match replicas with
  | None =>
      r ← lb_newQueryPlan (ta_childPolicy p) keyspace options rnds;
      let '(i, child) := r in Ok (inr i, mkTokenAware (ta_client p) child)
  | Some replicas =>
      let locals := local_replicas (ta_childPolicy p) replicas in
      let startIndex := random_index (hd (0, 53%N) rnds) (Z.of_nat (length locals)) in
      r ← lb_newQueryPlan (ta_childPolicy p) keyspace options (tail rnds);
      let '(i, child) := r in
      Ok (inl (mkTokenAwareIterator locals 0 startIndex i), mkTokenAware (ta_client p) child)
  end.

Record AllowListPolicy := mkAllowList { al_childPolicy : P; al_allowList : list jsstr }.

Definition al_contains (p : AllowListPolicy) (h : Host) : bool := bool_decide (host_address h ∈ al_allowList p).

Definition al_getDistance (p : AllowListPolicy) (h : Host) : distance :=
  if negb (al_contains p h) then ignored else lb_getDistance (al_childPolicy p) h.

(** The plan of the child with the policy that filters it. *)
Definition al_step (i : AllowListPolicy * It) : plan_event * (AllowListPolicy * It) :=
  let '(p, c) := i in
  let '(item, c) := lb_step c in
  match item with
  | Yield h => if negb (al_contains p h) then (Skip, (p, c)) else (Yield h, (p, c))
  | _ => (item, (p, c))
  end.

Definition al_newQueryPlan (p : AllowListPolicy) (keyspace : option jsstr) (options : option exec_options)
    (rnds : list dyadic) : result ((AllowListPolicy * It) * AllowListPolicy) :=
  r ← lb_newQueryPlan (al_childPolicy p) keyspace options rnds;
  let '(i, child) := r in Ok ((p, i), mkAllowList child (al_allowList p)).
End wrappers.
Arguments TokenAwarePolicy P : clear implicits.
Arguments TokenAwareIterator It : clear implicits.
Arguments AllowListPolicy P : clear implicits.

#[export] Instance TokenAwarePolicy_lb {P It} `{LoadBalancingPolicy P It}
    : LoadBalancingPolicy (TokenAwarePolicy P) (TokenAwareIterator It + It) := {|
  lb_init := ta_init;
  lb_getDistance p := lb_getDistance (ta_childPolicy p);
  lb_newQueryPlan := ta_newQueryPlan;
  lb_step := ta_step |}.

#[export] Instance AllowListPolicy_lb {P It} `{LoadBalancingPolicy P It}
    : LoadBalancingPolicy (AllowListPolicy P) (AllowListPolicy P * It) := {|
  lb_init p client hosts :=
    let '(err, child) := lb_init (al_childPolicy p) client hosts in (err, mkAllowList child (al_allowList p));
  lb_getDistance := al_getDistance;
  lb_newQueryPlan := al_newQueryPlan;
  lb_step := al_step |}.
