(* ===== verification/LoadBalancingTheorems.v ===== *)
(** What the plans of the load-balancing policies yield.

    [LoadBalancingLaws] is what a policy promises of its plans; the wrapping
    policies keep the promise of the policy they wrap. *)
From S2P Require Import Prelude.
From S2P Require Import JsNum.
From S2P Require Import JsStr.
From S2P Require Import JsFloat.
From S2P Require Import Policies.
From S2P Require Import Utils.
From S2P Require Import UtilsTheorems.
From S2P Require Import Host.
From S2P Require Import Replicas.
From S2P Require Import ReplicasTheorems.
From S2P Require Import LoadBalancing.

(** ** Plans *)

Section yields.
Context `{LoadBalancingPolicy P It}.

(** The plan yields exactly these hosts, and every [next] returns. *)
Inductive yields : It -> list Host -> Prop :=
  | yields_done i i' : lb_step i = (Done, i') -> yields i []
  | yields_host i i' h l : lb_step i = (Yield h, i') -> yields i' l -> yields i (h :: l)
  | yields_skip i i' l : lb_step i = (Skip, i') -> yields i' l -> yields i l.

Lemma yields_drain i l : yields i l -> exists n, forall fuel, (n <= fuel)%nat -> drain fuel i = Some l.
Proof.
  induction 1 as [i i' E|i i' h l E _ [n IH]|i i' l E _ [n IH]].
  - exists 1%nat. intros [|fuel] Hf; [lia|]. cbn. by rewrite E.
  - exists (S n). intros [|fuel] Hf; [lia|]. cbn. rewrite E, IH by lia. done.
  - exists (S n). intros [|fuel] Hf; [lia|]. cbn. rewrite E. apply IH. lia.
Qed.
End yields.

(** The hosts have different addresses. *)
Definition distinct_hosts (l : list Host) : Prop := NoDup (map host_address l).

(** A plan that ends, in which no host comes twice and no host is to be
    ignored; the policy stays ready, with the same distances. *)
Definition good_plan `{LoadBalancingPolicy P It} (ready : P -> Prop) (p : P)
    (keyspace : option jsstr) (options : option exec_options) (rnds : list dyadic) : Prop :=
  exists i p' l, lb_newQueryPlan p keyspace options rnds = Ok (i, p') /\ ready p' /\
    (forall h, lb_getDistance p' h = lb_getDistance p h) /\
    yields i l /\ distinct_hosts l /\ Forall (fun h => lb_getDistance p h <> ignored) l.

Class LoadBalancingLaws (P It : Type) `{LoadBalancingPolicy P It} := {
  lb_ready : P -> Prop;
  lb_plan p keyspace options rnds :
    lb_ready p -> Forall random_ok rnds -> good_plan lb_ready p keyspace options rnds }.

#[export] Hint Mode LoadBalancingLaws ! - - : typeclass_instances.

(** ** Round plans *)

Lemma round_host_rotate hosts start c counter :
  0 <= start -> (c < length hosts)%nat ->
  round_host (mkRound hosts (start + Z.of_nat c) counter) = rotate (Z.to_nat start) hosts !! c.
Proof.
  intros Hs Hc. unfold round_host. cbn [rp_hosts rp_index].
  rewrite lookup_rotate_r by done. unfold rotate_nat_add.
  rewrite Z2Nat.id by lia. rewrite Z.rem_mod_nonneg by lia. done.
Qed.

Section round.
Context `{LoadBalancingPolicy P round_plan}.

(** A step that yields while [counter] is below the length. *)
Hypothesis step_yields : forall hosts idx c h,
  (c < length hosts)%nat -> round_host (mkRound hosts idx (Z.of_nat c)) = Some h ->
  lb_step (mkRound hosts idx (Z.of_nat c)) = (Yield h, mkRound hosts (idx + 1) (Z.of_nat (S c))).
Hypothesis step_done : forall hosts idx,
  exists i', lb_step (mkRound hosts idx (Z.of_nat (length hosts))) = (Done, i').

Lemma round_yields_from hosts start c :
  0 <= start -> (c <= length hosts)%nat ->
  yields (mkRound hosts (start + Z.of_nat c) (Z.of_nat c)) (drop c (rotate (Z.to_nat start) hosts)).
Proof.
  intros Hs Hc. remember (length hosts - c)%nat as n eqn:En. revert c Hc En.
  induction n as [|n IH]; intros c Hc En.
  - assert (c = length hosts) as -> by lia. rewrite drop_ge by (rewrite length_rotate; lia).
    destruct (step_done hosts (start + Z.of_nat (length hosts))) as [i' E]. by eapply yields_done.
  - assert (Hlt : (c < length hosts)%nat) by lia.
    destruct (lookup_lt_is_Some_2 (rotate (Z.to_nat start) hosts) c) as [h Hh]; [by rewrite length_rotate|].
    rewrite (drop_S _ h) by done. eapply yields_host.
    + apply step_yields; [done|]. by rewrite round_host_rotate.
    + replace (start + Z.of_nat c + 1) with (start + Z.of_nat (S c)) by lia. apply IH; lia.
Qed.

Lemma round_yields hosts start :
  0 <= start -> yields (mkRound hosts start 0) (rotate (Z.to_nat start) hosts).
Proof.
  intros Hs. pose proof (round_yields_from hosts start 0 Hs ltac:(lia)) as E.
  cbn [Z.of_nat] in E. by rewrite Z.add_0_r, drop_0 in E.
Qed.
End round.

Lemma rr_yields hosts start : 0 <= start -> yields (P := RoundRobinPolicy) (mkRound hosts start 0) (rotate (Z.to_nat start) hosts).
Proof.
  apply round_yields.
  - intros hs idx c h Hc Hh. cbn [lb_step RoundRobinPolicy_lb]. unfold rr_step. cbn [rp_hosts rp_index rp_counter].
    rewrite (proj2 (Z.ltb_ge _ _)) by lia.
    replace (round_host (mkRound hs idx (Z.of_nat c))) with (Some h). by rewrite Nat2Z.inj_succ, <- Z.add_1_r.
  - intros hs idx. cbn [lb_step RoundRobinPolicy_lb]. unfold rr_step. cbn [rp_hosts rp_index rp_counter].
    rewrite (proj2 (Z.ltb_lt _ _)) by lia. eauto.
Qed.

Lemma dc_yields hosts start :
  0 <= start -> yields (P := DCAwareRoundRobinPolicy) (mkRound hosts start 0) (rotate (Z.to_nat start) hosts).
Proof.
  apply round_yields.
  - intros hs idx c h Hc Hh. cbn [lb_step DCAwareRoundRobinPolicy_lb]. unfold dc_step. cbn [rp_hosts rp_index rp_counter].
    rewrite (proj2 (Z.ltb_lt _ _)) by lia.
    replace (round_host (mkRound hs idx (Z.of_nat c))) with (Some h). by rewrite Nat2Z.inj_succ, <- Z.add_1_r.
  - intros hs idx. cbn [lb_step DCAwareRoundRobinPolicy_lb]. unfold dc_step. cbn [rp_hosts rp_index rp_counter].
    rewrite (proj2 (Z.ltb_ge _ _)) by lia. eauto.
Qed.

Lemma next_index_range k : 0 <= k < utils_maxInt -> 0 <= next_index k < utils_maxInt.
Proof. unfold next_index, utils_maxInt. intros Hk. destruct (Z.leb_spec 9007199254740992 (k + 1)); lia. Qed.

Lemma distinct_rotate n l : distinct_hosts l -> distinct_hosts (rotate n l).
Proof.
  unfold distinct_hosts. intros H. assert (E : rotate n l ≡ₚ l).
  { unfold rotate. rewrite Permutation_app_comm. by rewrite take_drop. }
  by rewrite E.
Qed.

(** ** The two round-robin policies *)

Definition rr_ready (p : RoundRobinPolicy) : Prop :=
  0 <= rr_index p < utils_maxInt /\ exists m, rr_hosts p = Some m /\ distinct_hosts (host_values m).

Lemma rr_plan p m :
  0 <= rr_index p -> rr_hosts p = Some m ->
  exists i, rr_newQueryPlan p = Ok (i, mkRoundRobin (Some m) (next_index (rr_index p))) /\
    yields (P := RoundRobinPolicy) i (rotate (Z.to_nat (rr_index p)) (host_values m)).
Proof.
  intros Hi Hm. unfold rr_newQueryPlan. rewrite Hm. eexists. split; [done|].
  set (hosts := host_values m). destruct (decide (hosts = [])) as [E|E].
  { rewrite E. unfold rotate. rewrite drop_nil, take_nil. eapply yields_done. reflexivity. }
  assert (Hn : 0 < Z.of_nat (length hosts)) by (destruct hosts; [done|cbn; lia]).
  assert (R : rotate (Z.to_nat (rr_index p)) hosts = rotate (Z.to_nat (Z.rem (rr_index p) (Z.of_nat (length hosts)))) hosts).
  { unfold rotate. rewrite Z.rem_mod_nonneg by lia. rewrite Z2Nat.inj_mod, Nat2Z.id by lia.
    by rewrite Nat.Div0.mod_mod. }
  rewrite R. apply rr_yields. apply Z.rem_bound_pos; lia.
Qed.

Lemma rr_good_plan p keyspace options rnds : rr_ready p -> Forall random_ok rnds -> good_plan rr_ready p keyspace options rnds.
Proof.
  intros (Hi & m & Hm & Hd) _.
  destruct (rr_plan p m ltac:(lia) Hm) as (i & E & Hy). exists i. eexists _, _.
  split; [exact E|]. split_and!; [split; [by apply next_index_range|by exists m]|done|exact Hy|by apply distinct_rotate|].
  apply Forall_forall. intros h _. done.
Qed.

#[export] Instance RoundRobinPolicy_laws : LoadBalancingLaws RoundRobinPolicy round_plan :=
  {| lb_ready := rr_ready; lb_plan := rr_good_plan |}.

(** The hosts of the local data center, as the policy finds them. *)
Definition dc_locals (p : DCAwareRoundRobinPolicy) (m : HostMap) : list Host :=
  List.filter (in_local_dc (dc_localDc p)) (host_values m).

(** The cached array is that of the map. *)
Definition dc_ready (p : DCAwareRoundRobinPolicy) : Prop :=
  0 <= dc_index p < utils_maxInt /\
  exists m, dc_hosts_map p = Some m /\ distinct_hosts (host_values m) /\
    (forall l, localHostsArray p = Some l -> l = dc_locals p m).

Lemma dc_plan p m :
  0 <= dc_index p < utils_maxInt -> dc_hosts_map p = Some m ->
  (forall l, localHostsArray p = Some l -> l = dc_locals p m) ->
  exists i p', dc_newQueryPlan p = Ok (i, p') /\
    p' = mkDCAware (Some m) (dc_localDc p) (next_index (dc_index p)) (Some (dc_locals p m)) /\
    yields (P := DCAwareRoundRobinPolicy) i (rotate (Z.to_nat (next_index (dc_index p))) (dc_locals p m)).
Proof.
  intros Hi Hm Hl. unfold dc_newQueryPlan. rewrite Hm. unfold _resolveLocalHosts. cbn [localHostsArray dc_localDc dc_index dc_hosts_map].
  pose proof (next_index_range _ Hi).
  destruct (localHostsArray p) as [l|] eqn:E.
  - rewrite (Hl l eq_refl). eexists _, _. split; [reflexivity|]. split; [done|].
    cbn [localHostsArray default from_option id dc_index]. apply dc_yields. lia.
  - eexists _, _. split; [reflexivity|]. split; [done|].
    cbn [localHostsArray default from_option id dc_index]. apply dc_yields. lia.
Qed.

Lemma distinct_filter (f : Host -> bool) l : distinct_hosts l -> distinct_hosts (List.filter f l).
Proof.
  unfold distinct_hosts. induction l as [|h l IH]; [done|]. cbn [map List.filter]. intros [Hh Hl]%NoDup_cons.
  destruct (f h); [|by apply IH]. cbn [map]. constructor; [|by apply IH].
  intros Hin. apply Hh. apply list_elem_of_fmap in Hin as (g & E & Hg). apply list_elem_of_fmap.
  exists g. split; [done|]. by apply elem_of_Lfilter in Hg as [? _].
Qed.

Lemma dc_locals_local p m h : h ∈ dc_locals p m -> dc_getDistance p h = local.
Proof.
  unfold dc_locals. rewrite elem_of_Lfilter. unfold in_local_dc, dc_getDistance.
  intros [_ [_ ->]%andb_prop]. done.
Qed.

Lemma dc_good_plan p keyspace options rnds : dc_ready p -> Forall random_ok rnds -> good_plan dc_ready p keyspace options rnds.
Proof.
  intros (Hi & m & Hm & Hd & Hl) _.
  destruct (dc_plan p m Hi Hm Hl) as (i & p' & E & -> & Hy). exists i. eexists _, _.
  split; [exact E|]. split_and!; [split; [by apply next_index_range|]|done|exact Hy|by apply distinct_rotate, distinct_filter|].
  - exists m. split_and!; [done|done|]. by intros l [= <-].
  - apply Forall_forall. intros h Hh. rewrite elem_of_rotate in Hh.
    cbn [lb_getDistance DCAwareRoundRobinPolicy_lb]. rewrite (dc_locals_local p m h Hh). discriminate.
Qed.

#[export] Instance DCAwareRoundRobinPolicy_laws : LoadBalancingLaws DCAwareRoundRobinPolicy round_plan :=
  {| lb_ready := dc_ready; lb_plan := dc_good_plan |}.

(** ** The wrapping policies *)

Section wrappers.
Context {P It : Type} `{L : LoadBalancingLaws P It}.

Lemma ta_child_yields (c : It) l :
  yields c l -> yields (P := TokenAwarePolicy P) (inr c : TokenAwareIterator It + It) l.
Proof.
  induction 1 as [c c' E|c c' h l E _ IH|c c' l E _ IH].
  - eapply yields_done. cbn. by rewrite E.
  - eapply yields_host; [|exact IH]. cbn. by rewrite E.
  - eapply yields_skip; [|exact IH]. cbn. by rewrite E.
Qed.

Definition not_replica (locals : list Host) (h : Host) : bool :=
  negb (bool_decide (host_address h ∈ map host_address locals)).

(** The plan of the child without the replicas that came first. *)
Lemma ta_rest_yields locals idx start c l :
  Z.of_nat (length locals) <= idx -> yields c l ->
  yields (P := TokenAwarePolicy P) (inl (mkTokenAwareIterator locals idx start c) : TokenAwareIterator It + It)
    (List.filter (not_replica locals) l).
Proof.
  intros Hidx. induction 1 as [c c' E|c c' h l E _ IH|c c' l E _ IH]; cbn [List.filter].
  - eapply yields_done. cbn. unfold computeNext. cbn [ti_localReplicas ti_replicaIndex ti_childIterator ti_startIndex].
    rewrite (proj2 (Z.ltb_ge _ _)) by done. by rewrite E.
  - unfold not_replica at 1. destruct (bool_decide (host_address h ∈ map host_address locals)) eqn:D; cbn [negb].
    + eapply yields_skip; [|exact IH]. cbn. unfold computeNext. cbn [ti_localReplicas ti_replicaIndex ti_childIterator ti_startIndex].
      rewrite (proj2 (Z.ltb_ge _ _)) by done. rewrite E. unfold replicaMap. cbn [ti_localReplicas]. by rewrite D.
    + eapply yields_host; [|exact IH]. cbn. unfold computeNext. cbn [ti_localReplicas ti_replicaIndex ti_childIterator ti_startIndex].
      rewrite (proj2 (Z.ltb_ge _ _)) by done. rewrite E. unfold replicaMap. cbn [ti_localReplicas]. by rewrite D.
  - eapply yields_skip; [|exact IH]. cbn. unfold computeNext. cbn [ti_localReplicas ti_replicaIndex ti_childIterator ti_startIndex].
    rewrite (proj2 (Z.ltb_ge _ _)) by done. by rewrite E.
Qed.

Lemma ta_yields locals start c l :
  0 <= start -> yields c l ->
  yields (P := TokenAwarePolicy P) (inl (mkTokenAwareIterator locals 0 start c) : TokenAwareIterator It + It)
    (rotate (Z.to_nat start) locals ++ List.filter (not_replica locals) l).
Proof.
  intros Hs Hc.
  assert (G : forall k, (k <= length locals)%nat ->
    yields (P := TokenAwarePolicy P) (inl (mkTokenAwareIterator locals (Z.of_nat k) start c) : TokenAwareIterator It + It)
      (drop k (rotate (Z.to_nat start) locals) ++ List.filter (not_replica locals) l)).
  { intros k Hk. remember (length locals - k)%nat as n eqn:En. revert k Hk En.
    induction n as [|n IH]; intros k Hk En.
    - rewrite drop_ge by (rewrite length_rotate; lia). apply ta_rest_yields; [lia|done].
    - destruct (lookup_lt_is_Some_2 (rotate (Z.to_nat start) locals) k) as [h Hh]; [rewrite length_rotate; lia|].
      rewrite (drop_S _ h) by done. cbn [app]. eapply yields_host; [|apply (IH (S k)); lia].
      cbn. unfold computeNext. cbn [ti_localReplicas ti_replicaIndex ti_childIterator ti_startIndex].
      rewrite (proj2 (Z.ltb_lt _ _)) by lia.
      pose proof (round_host_rotate locals start k 0 Hs ltac:(lia)) as R. unfold round_host in R.
      cbn [rp_hosts rp_index] in R. rewrite R, Hh. by rewrite Nat2Z.inj_succ, <- Z.add_1_r. }
  pose proof (G O ltac:(lia)) as G0. by rewrite drop_0 in G0.
Qed.

(** The keyspace and key the replicas are asked for. *)
Definition ta_keyspace (keyspace : option jsstr) (options : option exec_options) : option jsstr :=
  match options with Some o => if truthy (eo_keyspace o) then eo_keyspace o else keyspace | None => keyspace end.

Definition ta_replicas (client : lb_client) (keyspace : option jsstr) (options : option exec_options) : option (list Host) :=
  match options with
  | Some o => match eo_routingKey o with
              | Some key => client_getReplicas client (ta_keyspace keyspace options) key
              | None => None
              end
  | None => None
  end.

(** The client's replicas of a key have different addresses. *)
Definition replicas_distinct (client : lb_client) : Prop :=
  forall keyspace key l, client_getReplicas client keyspace key = Some l -> distinct_hosts l.

Lemma ta_newQueryPlan_eq (p : TokenAwarePolicy P) client keyspace options rnds :
  ta_client p = Some client ->
  ta_newQueryPlan (It := It) p keyspace options rnds =
    match ta_replicas client keyspace options with
    | None =>
        r ← lb_newQueryPlan (ta_childPolicy p) (ta_keyspace keyspace options) options rnds;
        let '(i, child) := r in Ok (inr i, mkTokenAware (ta_client p) child)
    | Some replicas =>
        let locals := local_replicas (ta_childPolicy p) replicas in
        let startIndex := random_index (hd (0, 53%N) rnds) (Z.of_nat (length locals)) in
        r ← lb_newQueryPlan (ta_childPolicy p) (ta_keyspace keyspace options) options (tail rnds);
        let '(i, child) := r in
        Ok (inl (mkTokenAwareIterator locals 0 startIndex i), mkTokenAware (ta_client p) child)
    end.
Proof.
  intros E. unfold ta_newQueryPlan, ta_replicas, ta_keyspace. rewrite E.
  destruct options as [o|]; [|done]. by destruct (eo_routingKey o).
Qed.

Lemma fl_floor_nonneg r n : 0 <= r.1 -> 0 <= n -> 0 <= random_index r n.
Proof.
  intros Hr Hn. unfold random_index, fl_floor, fl_mul. cbn [fst snd].
  assert (H0 : 0 <= r.1 * n) by (apply Z.mul_nonneg_nonneg; done).
  apply Z_div_nonneg_nonneg; [|apply Z.pow_nonneg; lia].
  apply (round53_bound_below 0 0 0); lia.
Qed.

Lemma start_nonneg rnds n : Forall random_ok rnds -> 0 <= random_index (hd (0, 53%N) rnds) (Z.of_nat n).
Proof.
  intros Hr. apply fl_floor_nonneg; [|lia].
  destruct Hr as [|r rs [_ Hr] _]; cbn [hd fst]; lia.
Qed.

(** The random numbers that are left for the child, and the first replica. *)
Definition ta_child_rnds (client : lb_client) (keyspace : option jsstr) (options : option exec_options)
    (rnds : list dyadic) : list dyadic :=
  match ta_replicas client keyspace options with Some _ => tail rnds | None => rnds end.

Definition ta_start (rnds : list dyadic) (locals : list Host) : nat :=
  Z.to_nat (random_index (hd (0, 53%N) rnds) (Z.of_nat (length locals))).

(** What the plan yields when that of the child yields [l]. *)
Definition ta_hosts (p : TokenAwarePolicy P) (client : lb_client) (keyspace : option jsstr)
    (options : option exec_options) (rnds : list dyadic) (l : list Host) : list Host :=
  match ta_replicas client keyspace options with
  | None => l
  | Some replicas =>
      let locals := local_replicas (ta_childPolicy p) replicas in
      rotate (ta_start rnds locals) locals ++ List.filter (not_replica locals) l
  end.

(** The whole plan, in the order of the code: the local replicas from a random
    one on, then the plan of the child without them. *)
Lemma ta_plan (p : TokenAwarePolicy P) client keyspace options rnds :
  ta_client p = Some client -> lb_ready (ta_childPolicy p) -> Forall random_ok rnds ->
  exists i c c' l, ta_newQueryPlan p keyspace options rnds = Ok (i, mkTokenAware (Some client) c') /\
    lb_newQueryPlan (ta_childPolicy p) (ta_keyspace keyspace options) options
      (ta_child_rnds client keyspace options rnds) = Ok (c, c') /\
    yields c l /\ lb_ready c' /\
    (forall h, lb_getDistance c' h = lb_getDistance (ta_childPolicy p) h) /\
    distinct_hosts l /\ Forall (fun h => lb_getDistance (ta_childPolicy p) h <> ignored) l /\
    yields (P := TokenAwarePolicy P) i (ta_hosts p client keyspace options rnds l).
Proof.
  intros Hc Hr Hrnd. rewrite (ta_newQueryPlan_eq p client) by done.
  assert (Ht : Forall random_ok (ta_child_rnds client keyspace options rnds)).
  { unfold ta_child_rnds. destruct (ta_replicas client keyspace options); [by destruct Hrnd|done]. }
  destruct (lb_plan (ta_childPolicy p) (ta_keyspace keyspace options) options _ Hr Ht)
    as (c & c' & l & E & Hr' & Hd & Hy & Hdis & Hig).
  unfold ta_hosts. unfold ta_child_rnds in *.
  destruct (ta_replicas client keyspace options) as [replicas|]; cbv zeta; rewrite E, Hc; cbn [mbind result_bind].
  - eexists _, c, c', l. split; [reflexivity|]. split_and!; [done|done|done|done|done|done|].
    apply ta_yields; [by apply start_nonneg|done].
  - eexists _, c, c', l. split; [reflexivity|]. split_and!; [done|done|done|done|done|done|].
    by apply ta_child_yields.
Qed.

Definition ta_ready (p : TokenAwarePolicy P) : Prop :=
  lb_ready (ta_childPolicy p) /\ exists client, ta_client p = Some client /\ replicas_distinct client.

Lemma ta_good_plan (p : TokenAwarePolicy P) keyspace options rnds : ta_ready p -> Forall random_ok rnds -> good_plan ta_ready p keyspace options rnds.
Proof.
  intros (Hr & client & Hc & Hrep) Hrnd.
  destruct (ta_plan p client keyspace options rnds Hc Hr Hrnd) as (i & c & c' & l & E & _ & _ & Hr' & Hd & Hdis & Hig & Hy).
  eexists i, _, _. split; [exact E|]. split; [by split; [|exists client]|]. split; [exact Hd|]. split; [exact Hy|].
  unfold ta_hosts.
  destruct (ta_replicas client keyspace options) as [replicas|] eqn:Er; [|done]. cbv zeta.
  assert (Hl : distinct_hosts (local_replicas (ta_childPolicy p) replicas)).
  { apply distinct_filter. unfold ta_replicas in Er. destruct options as [o|]; [|done].
    destruct (eo_routingKey o); [|done]. by eapply Hrep. }
  split.
  - unfold distinct_hosts. rewrite map_app. apply NoDup_app. split_and!; [by apply distinct_rotate| |by apply distinct_filter].
    intros a Ha Hb. apply list_elem_of_fmap in Hb as (h & -> & Hh). apply elem_of_Lfilter in Hh as [_ Hn].
    unfold not_replica in Hn. rewrite bool_decide_true in Hn; [done|].
    apply list_elem_of_fmap in Ha as (g & -> & Hg). apply list_elem_of_fmap. exists g. split; [done|].
    by rewrite elem_of_rotate in Hg.
  - apply Forall_app. split.
    + apply Forall_forall. intros h Hh. rewrite elem_of_rotate in Hh. unfold local_replicas in Hh.
      apply elem_of_Lfilter in Hh as [_ Hh%bool_decide_eq_true]. cbn [lb_getDistance TokenAwarePolicy_lb].
      rewrite Hh. discriminate.
    + apply Forall_forall. intros h [Hh _]%elem_of_Lfilter. rewrite Forall_forall in Hig. by apply Hig.
Qed.

Lemma al_yields p c l : yields c l -> yields (P := AllowListPolicy P) (p, c) (List.filter (al_contains p) l).
Proof.
  induction 1 as [c c' E|c c' h l E _ IH|c c' l E _ IH]; cbn [List.filter].
  - eapply yields_done. cbn. by rewrite E.
  - destruct (al_contains p h) eqn:D.
    + eapply yields_host; [|exact IH]. cbn. rewrite E. by rewrite D.
    + eapply yields_skip; [|exact IH]. cbn. rewrite E. by rewrite D.
  - eapply yields_skip; [|exact IH]. cbn. by rewrite E.
Qed.

Definition al_ready (p : AllowListPolicy P) : Prop := lb_ready (al_childPolicy p).

Lemma al_good_plan (p : AllowListPolicy P) keyspace options rnds : al_ready p -> Forall random_ok rnds -> good_plan al_ready p keyspace options rnds.
Proof.
  intros Hr Hrnd. destruct (lb_plan (al_childPolicy p) keyspace options rnds Hr Hrnd) as (i & c & l & E & Hr' & Hd & Hy & Hdis & Hig).
  exists (p, i), (mkAllowList c (al_allowList p)), (List.filter (al_contains p) l). split_and!.
  - cbn [lb_newQueryPlan AllowListPolicy_lb]. unfold al_newQueryPlan. by rewrite E.
  - exact Hr'.
  - intros h. cbn [lb_getDistance AllowListPolicy_lb]. unfold al_getDistance, al_contains. cbn [al_allowList al_childPolicy].
    by rewrite Hd.
  - by apply al_yields.
  - by apply distinct_filter.
  - apply Forall_forall. intros h [Hh Ha]%elem_of_Lfilter. cbn [lb_getDistance AllowListPolicy_lb]. unfold al_getDistance.
    rewrite Ha. cbn [negb]. rewrite Forall_forall in Hig. by apply Hig.
Qed.
End wrappers.

#[export] Instance TokenAwarePolicy_laws {P It} `{LoadBalancingLaws P It}
    : LoadBalancingLaws (TokenAwarePolicy P) (TokenAwareIterator It + It) :=
  {| lb_ready := ta_ready; lb_plan := ta_good_plan |}.

#[export] Instance AllowListPolicy_laws {P It} `{LoadBalancingLaws P It}
    : LoadBalancingLaws (AllowListPolicy P) (AllowListPolicy P * It) :=
  {| lb_ready := al_ready; lb_plan := al_good_plan |}.

(** The plans of the round-robin, token-aware and allow-list policies, and of
    a policy composed of all three. *)

(** ** Consecutive plans *)

(** [n] plans of the same policy, one after the other, each consumed. *)
Fixpoint plans_in_turn `{LoadBalancingPolicy P It} (fuel n : nat) (p : P) : option (list (list Host)) :=
  match n with
  | O => Some []
  | S n' =>
      match lb_newQueryPlan p None None [] with
      | Throw _ => None
      | Ok (i, p') =>
          match drain fuel i with
          | Some l => cons l <$> plans_in_turn fuel n' p'
          | None => None
          end
      end
  end.

Lemma next_index_small k : 0 <= k -> k + 1 < utils_maxInt -> next_index k = k + 1.
Proof. intros. unfold next_index. by rewrite (proj2 (Z.leb_gt _ _)) by lia. Qed.

Lemma rr_plans_in_turn m n k :
  0 <= k -> k + Z.of_nat n < utils_maxInt ->
  exists fuel0, forall fuel, (fuel0 <= fuel)%nat ->
    plans_in_turn fuel n (mkRoundRobin (Some m) k) =
      Some (map (fun j => rotate (Z.to_nat k + j) (host_values m)) (seq 0 n)).
Proof.
  revert k. induction n as [|n IH]; intros k Hk Hn; [by exists O|].
  destruct (rr_plan (mkRoundRobin (Some m) k) m Hk eq_refl) as (i & E & Hy).
  destruct (yields_drain _ _ Hy) as [f1 D]. cbn [rr_index] in *.
  rewrite next_index_small in E by lia.
  destruct (IH (k + 1) ltac:(lia) ltac:(lia)) as [f2 R].
  exists (Nat.max f1 f2). intros fuel Hf. cbn [plans_in_turn lb_newQueryPlan RoundRobinPolicy_lb].
  rewrite E, D, R by lia. cbn [seq map]. rewrite Nat.add_0_r, <- seq_shift, map_map. cbn.
  do 2 f_equal. apply map_ext. intros j. f_equal. lia.
Qed.

(** Rotating [n] times brings every element to the front once. *)
Lemma rotate_heads {A} (l : list A) k :
  map (fun j => head (rotate (k + j) l)) (seq 0 (length l)) = map Some (rotate k l).
Proof.
  apply list_eq. intros i. rewrite !list_lookup_fmap. destruct (decide (i < length l)%nat) as [Hi|Hi].
  - rewrite lookup_seq_lt by done. cbn. rewrite head_lookup, lookup_rotate_r by lia.
    destruct (lookup_lt_is_Some_2 (rotate k l) i) as [x Hx]; [by rewrite length_rotate|].
    rewrite Hx. rewrite lookup_rotate_r in Hx by done. cbn. f_equal.
    rewrite <- Hx. f_equal. unfold rotate_nat_add. do 2 f_equal. lia.
  - rewrite lookup_seq_ge by lia. cbn. by rewrite lookup_ge_None_2 by (rewrite length_rotate; lia).
Qed.

(** ** Host maps from the native part have one host per address *)

Definition keyed (o : obj Host) : Prop := map fst o = map (fun kv => host_address kv.2) o /\ NoDup (map fst o).

Lemma obj_set_keys {V} (o : obj V) k v a : a ∈ map fst (obj_set o k v) -> a = k \/ a ∈ map fst o.
Proof.
  induction o as [|[k' v'] o IH]; cbn [obj_set map fst].
  - intros H%list_elem_of_singleton. by left.
  - destruct (decide (k = k')) as [->|D]; cbn [map fst]; intros [->|H]%elem_of_cons.
    + by left.
    + right. by right.
    + right. by left.
    + destruct (IH H); [by left|right; by right].
Qed.

Lemma obj_set_keyed o h : keyed o -> keyed (obj_set o (host_address h) h).
Proof.
  unfold keyed. induction o as [|[k v] o IH]; cbn [obj_set map fst snd].
  - intros _. split; [done|apply NoDup_singleton].
  - intros [[= -> E] [Hk Hn]%NoDup_cons]. destruct (decide (host_address h = host_address v)) as [D|D]; cbn [map fst snd].
    + rewrite <- D in *. rewrite E. split; [done|]. constructor; [by rewrite <- E|by rewrite <- E].
    + destruct (IH (conj E Hn)) as [E' Hn']. rewrite E'. split; [done|]. rewrite <- E'. constructor; [|done].
      intros Hin. apply Hk. clear IH E Hn E' Hn'.
      by apply obj_set_keys in Hin as [?|?].
Qed.

Lemma fromRust_distinct ws : distinct_hosts (host_values (HostMap_fromRust ws)).
Proof.
  unfold host_values, HostMap_values, HostMap_fromRust, distinct_hosts. cbn [hm_values hm_items fst].
  assert (G : forall o, keyed o -> keyed (foldl (fun items w => obj_set items (hw_address w) (Host_fromRust w)) o ws)).
  { induction ws as [|w ws IH]; intros o Ho; [done|]. cbn [foldl]. apply IH.
    exact (obj_set_keyed o (Host_fromRust w) Ho). }
  destruct (G [] (conj eq_refl (NoDup_nil_2))) as [E Hn]. rewrite map_map. by rewrite <- E.
Qed.

(** ** Theorems *)

(** C32: The round-robin policy goes around: as many plans in turn as there are
    hosts each yield all the hosts, every host exactly once, and every host is
    the first of exactly one of the plans. *)
Theorem RoundRobin_fair (client : lb_client) (hosts : HostMap) (k : Z)
    (Hd : distinct_hosts (host_values hosts))
    (Hk : 0 <= k) (Hmax : k + Z.of_nat (length (host_values hosts)) < utils_maxInt) :
  let '(err, p) := lb_init (mkRoundRobin None k) client hosts in
  err = None /\
  exists plans fuel0, (forall fuel, (fuel0 <= fuel)%nat ->
      plans_in_turn fuel (length (host_values hosts)) p = Some plans) /\
    Forall (fun l => l ≡ₚ host_values hosts /\ NoDup l) plans /\
    map head plans ≡ₚ map Some (host_values hosts).
Proof.
  cbn [lb_init RoundRobinPolicy_lb rr_index]. split; [done|].
  destruct (rr_plans_in_turn hosts (length (host_values hosts)) k Hk Hmax) as [f R].
  eexists _, f. split; [exact R|]. split.
  - apply Forall_forall. intros l Hl. apply list_elem_of_In, in_map_iff in Hl as (j & <- & _). split.
    + unfold rotate. by rewrite Permutation_app_comm, take_drop.
    + by apply (NoDup_fmap_1 host_address), distinct_rotate.
  - rewrite map_map, rotate_heads. apply Permutation_map. unfold rotate. by rewrite Permutation_app_comm, take_drop.
Qed.

Definition node (a dc : string) : HostWrapper := mkHostWrapper [] (str a) (Some (str dc)) (Some (str "r1")).
Definition three_nodes : HostMap := HostMap_fromRust [node "a" "dc1"; node "b" "dc2"; node "c" "dc1"]%string.
Definition client_of (dc : string) (replicas : list Host) : lb_client := mkClient (Some (str dc)) (fun _ _ => Some replicas).

Lemma RoundRobin_fair_witness :
  0 <= 1 /\ snd (lb_init (mkRoundRobin None 1) (client_of "dc1" []) three_nodes) = mkRoundRobin (Some three_nodes) 1 /\
  (fst (lb_init (mkRoundRobin None 1) (client_of "dc1" []) three_nodes) = None /\
   exists plans fuel0, (forall fuel, (fuel0 <= fuel)%nat ->
      plans_in_turn fuel 3 (mkRoundRobin (Some three_nodes) 1) = Some plans) /\
    Forall (fun l => l ≡ₚ host_values three_nodes /\ NoDup l) plans /\
    map head plans ≡ₚ map Some (host_values three_nodes)).
Proof.
  split; [done|]. split; [reflexivity|].
  apply (RoundRobin_fair (client_of "dc1" []) three_nodes 1); [apply fromRust_distinct|done|reflexivity].
Defined.

(** The data center in use once the policy is initialised, when there is one. *)
Definition known_dc (dc : option jsstr) (m : HostMap) : Prop :=
  truthy dc = true /\ dc ∈ getDataCenters (host_values m).

Lemma setLocalDc_spec dc client m :
  let dc' := if truthy dc then dc else client_localDataCenter client in
  snd (setLocalDc dc client m) = dc' /\
  fst (setLocalDc dc client m) ∈ [None; Some ArgumentError] /\
  (fst (setLocalDc dc client m) = None <-> known_dc dc' m).
Proof.
  intros dc'. unfold setLocalDc, known_dc. fold dc'. cbv zeta. destruct (truthy dc'); cbn [negb fst snd].
  - case_bool_decide; cbn [negb fst snd]; (split; [done|]); split; [left|tauto|right; left|].
    split; [done|]. by intros [_ ?].
  - split; [done|]. split; [right; left|]. split; [done|]. by intros [? _].
Qed.

Lemma dc_locals_truthy p m h : truthy (dc_localDc p) = true ->
  h ∈ dc_locals p m <-> h ∈ host_values m /\ host_datacenter h = dc_localDc p.
Proof.
  intros T. unfold dc_locals, in_local_dc. rewrite elem_of_Lfilter, andb_true_iff, bool_decide_eq_true.
  split; [by intros (? & ? & ?)|]. intros [? E]. split_and!; [done|by rewrite E|done].
Qed.

(** The hosts of a data center, in the order of the map. *)
Definition hosts_of_dc (dc : option jsstr) (m : HostMap) : list Host :=
  List.filter (fun h => bool_decide (host_datacenter h = dc)) (host_values m).

Lemma dc_locals_hosts_of_dc p m : truthy (dc_localDc p) = true -> dc_locals p m = hosts_of_dc (dc_localDc p) m.
Proof.
  intros T. unfold dc_locals, hosts_of_dc. apply filter_ext. intros h. unfold in_local_dc.
  case_bool_decide as D; [by rewrite D, T|by rewrite andb_false_r].
Qed.

(** [n] plans in turn of a policy that is ready, each consumed. *)
Lemma dc_plans_in_turn m n p :
  0 <= dc_index p -> dc_index p + Z.of_nat n < utils_maxInt -> dc_hosts_map p = Some m ->
  (forall l, localHostsArray p = Some l -> l = dc_locals p m) ->
  exists fuel0, forall fuel, (fuel0 <= fuel)%nat ->
    plans_in_turn fuel n p =
      Some (map (fun j => rotate (Z.to_nat (dc_index p) + S j) (dc_locals p m)) (seq 0 n)).
Proof.
  revert p. induction n as [|n IH]; intros p Hk Hn Hm Hl; [by exists O|].
  destruct (dc_plan p m ltac:(lia) Hm Hl) as (i & p' & E & -> & Hy).
  destruct (yields_drain _ _ Hy) as [f1 D]. rewrite next_index_small in E, D by lia.
  set (p' := mkDCAware _ _ _ _) in E.
  assert (Ep : dc_locals p' m = dc_locals p m) by done.
  destruct (IH p') as [f2 R]; subst p'; cbn [dc_index dc_hosts_map localHostsArray]; [lia|lia|done|by intros l [= <-]|].
  exists (Nat.max f1 f2). intros fuel Hf. cbn [plans_in_turn lb_newQueryPlan DCAwareRoundRobinPolicy_lb].
  rewrite E, D, R by lia. rewrite Ep. cbn [seq map dc_index fmap option_fmap option_map]. rewrite <- seq_shift, map_map.
  do 2 f_equal; [f_equal; lia|]. apply map_ext. intros j. f_equal. lia.
Qed.

(** The policy after [n] plans, whether they are consumed or not. *)
Fixpoint policy_after `{LoadBalancingPolicy P It} (n : nat) (p : P) : option P :=
  match n with
  | O => Some p
  | S n' => match lb_newQueryPlan p None None [] with Ok (_, p') => policy_after n' p' | Throw _ => None end
  end.

Lemma dc_policy_after m n p :
  0 <= dc_index p -> dc_index p + Z.of_nat n < utils_maxInt -> dc_hosts_map p = Some m ->
  (forall l, localHostsArray p = Some l -> l = dc_locals p m) ->
  exists p', policy_after n p = Some p' /\ dc_hosts_map p' = Some m /\ dc_localDc p' = dc_localDc p /\
    dc_index p' = dc_index p + Z.of_nat n.
Proof.
  revert p. induction n as [|n IH]; intros p Hk Hn Hm Hl; [exists p; split_and!; [done..|lia]|].
  destruct (dc_plan p m ltac:(lia) Hm Hl) as (i & p' & E & -> & _). rewrite next_index_small in E by lia.
  cbn [policy_after lb_newQueryPlan DCAwareRoundRobinPolicy_lb]. rewrite E.
  match type of E with _ = Ok (_, ?q) => destruct (IH q) as (r & R & Hr & Hdc & Hi) end;
    cbn [dc_index dc_hosts_map localHostsArray]; [lia|lia|done|by intros l [= <-]|].
  exists r. cbn [dc_index dc_localDc] in *. split_and!; [done|done|done|lia].
Qed.

(** C31: The DC-aware policy: initialising it is an error exactly when no known
    data center is given, by the policy or by the client; otherwise the plans
    made in turn (fewer than 2^53) end and yield the hosts of that data center
    in the order of the map, the j-th plan from the j-th of them on, around;
    after the hosts changed the plans go on in the same way around the new
    hosts of the data center.  No plan has a host twice, and the hosts of the
    other data centers are at distance ignored. *)
Theorem DCAwareRoundRobin_plan (localDc : option jsstr) (client : lb_client) (hosts hosts' : HostMap) (n n' : nat)
    (Hd : distinct_hosts (host_values hosts)) (Hd' : distinct_hosts (host_values hosts'))
    (Hmax : Z.of_nat n + Z.of_nat n' < utils_maxInt) :
  let dc := if truthy localDc then localDc else client_localDataCenter client in
  let '(err, p) := dc_init (DCAwareRoundRobinPolicy_new localDc) client hosts in
  err ∈ [None; Some ArgumentError] /\
  (err = None <-> known_dc dc hosts) /\
  (err = None ->
   exists p1 fuel0, policy_after n p = Some p1 /\
     (forall fuel, (fuel0 <= fuel)%nat ->
        plans_in_turn fuel n p = Some (map (fun j => rotate (S j) (hosts_of_dc dc hosts)) (seq 0 n)) /\
        plans_in_turn fuel n' (dc_hosts_changed p1 hosts') =
          Some (map (fun j => rotate (n + S j) (hosts_of_dc dc hosts')) (seq 0 n'))) /\
     NoDup (hosts_of_dc dc hosts) /\ NoDup (hosts_of_dc dc hosts') /\
     (forall h, dc_getDistance p1 h = if bool_decide (host_datacenter h = dc) then local else ignored)).
Proof.
  intros dc. destruct (setLocalDc_spec localDc client hosts) as (E1 & E2 & E3). fold dc in E1, E3.
  unfold dc_init. cbn [dc_localDc DCAwareRoundRobinPolicy_new dc_index localHostsArray].
  destruct (setLocalDc localDc client hosts) as [err d]. cbn [fst snd] in *. subst d.
  split; [done|]. split; [done|]. intros Hnone. destruct (proj1 E3 Hnone) as [T _].
  set (p := mkDCAware (Some hosts) dc 0 None).
  destruct (dc_policy_after hosts n p) as (p1 & P1 & Hm1 & Hdc1 & Hi1); [done|cbn; lia|done|done|].
  destruct (dc_plans_in_turn hosts n p) as [f1 R1]; [done|cbn; lia|done|done|].
  set (q := dc_hosts_changed p1 hosts').
  assert (Hq : dc_localDc q = dc) by exact Hdc1. assert (Hqi : dc_index q = Z.of_nat n) by exact Hi1.
  destruct (dc_plans_in_turn hosts' n' q) as [f2 R2]; [lia|lia|done|done|].
  rewrite dc_locals_hosts_of_dc in R1, R2 by (by rewrite ?Hq). rewrite Hq, Hqi, Nat2Z.id in R2.
  exists p1, (Nat.max f1 f2). split; [exact P1|]. split_and!.
  - intros fuel Hf. split; [apply R1|apply R2]; lia.
  - by apply (NoDup_fmap_1 host_address), distinct_filter.
  - by apply (NoDup_fmap_1 host_address), distinct_filter.
  - intros h. unfold dc_getDistance. change (dc_localDc p1) with (dc_localDc q). by rewrite Hq.
Qed.

Lemma DCAwareRoundRobin_plan_witness :
  let '(err, p) := dc_init (DCAwareRoundRobinPolicy_new None) (client_of "dc1" []) three_nodes in
  err = None /\ known_dc (Some (str "dc1")) three_nodes /\
  exists p1 fuel0, policy_after 2 p = Some p1 /\ forall fuel, (fuel0 <= fuel)%nat ->
    plans_in_turn fuel 2 p = Some [rotate 1 (hosts_of_dc (Some (str "dc1")) three_nodes); rotate 2 (hosts_of_dc (Some (str "dc1")) three_nodes)].
Proof.
  destruct (DCAwareRoundRobin_plan None (client_of "dc1" []) three_nodes three_nodes 2 1) as (_ & H1 & H2);
    [apply fromRust_distinct|apply fromRust_distinct|reflexivity|].
  split; [reflexivity|]. split; [by apply H1|].
  destruct (H2 eq_refl) as (p1 & f & A & B & _). exists p1, f. split; [exact A|]. intros fuel Hf. apply (proj1 (B fuel Hf)).
Defined.

(** C25: A token-aware policy, over any policy that keeps the promise of
    [LoadBalancingLaws], for a client whose replicas of a key have different
    addresses: it asks the child for one plan, with the keyspace of the options
    if they have one; its plan ends, and yields all the replicas of the routing
    key that the child calls local, from the one that Math.random gives on, and
    then the hosts of the child's plan, in its order, that are not among them.
    Without a key or without replicas it yields what the child's plan yields.
    No host comes twice. *)
Theorem TokenAware_plan {P It : Type} `{L : LoadBalancingLaws P It} (p : TokenAwarePolicy P) (client : lb_client)
    (keyspace : option jsstr) (options : option exec_options) (rnds : list dyadic)
    (Hc : ta_client p = Some client) (Hr : lb_ready (ta_childPolicy p)) (Hrep : replicas_distinct client)
    (Hrnd : Forall random_ok rnds) :
  exists i c c' child l fuel0, ta_newQueryPlan p keyspace options rnds = Ok (i, mkTokenAware (Some client) c') /\
    lb_newQueryPlan (ta_childPolicy p) (ta_keyspace keyspace options) options
      (ta_child_rnds client keyspace options rnds) = Ok (c, c') /\
    (forall fuel, (fuel0 <= fuel)%nat -> drain fuel c = Some child /\ drain fuel i = Some l) /\
    distinct_hosts l /\
    l = match ta_replicas client keyspace options with
        | None => child
        | Some replicas =>
            let locals := local_replicas (ta_childPolicy p) replicas in
            rotate (ta_start rnds locals) locals ++ List.filter (not_replica locals) child
        end.
Proof.
  destruct (ta_plan p client keyspace options rnds Hc Hr Hrnd) as (i & c & c' & child & E & Ec & Yc & _ & _ & _ & _ & Hy).
  destruct (ta_good_plan p keyspace options rnds) as (i2 & p2 & l2 & E2 & _ & _ & Hy2 & Hd2 & _); [by split; [|exists client]|done|].
  cbn [lb_newQueryPlan TokenAwarePolicy_lb] in E2. rewrite E in E2. injection E2 as <- <-.
  destruct (yields_drain _ _ Yc) as [fc Dc]. destruct (yields_drain _ _ Hy) as [f D]. destruct (yields_drain _ _ Hy2) as [f2 D2].
  assert (El : l2 = ta_hosts p client keyspace options rnds child).
  { pose proof (D (Nat.max f f2) ltac:(lia)) as A. rewrite (D2 (Nat.max f f2)) in A by lia. by injection A. }
  exists i, c, c', child, l2, (Nat.max fc f2). split_and!; [done|done| |done|done].
  intros fuel Hf. split; [apply Dc|apply D2]; lia.
Qed.

Definition node_host (a dc : string) : Host := Host_fromRust (node a dc).
Definition composed_client : lb_client := client_of "dc1" [node_host "c" "dc1"; node_host "b" "dc2"].
Definition composed : TokenAwarePolicy (AllowListPolicy DCAwareRoundRobinPolicy) :=
  mkTokenAware (Some composed_client)
    (mkAllowList (mkDCAware (Some three_nodes) (Some (str "dc1")) 0 None) [str "a"; str "b"; str "c"]).
Definition keyed_options : option exec_options := Some (mkExecOptions (Some [1; 2]) (Some (str "ks")) None).

Lemma composed_child_ready : lb_ready (ta_childPolicy composed).
Proof.
  split; [split; [done|reflexivity]|]. exists three_nodes. split_and!; [done|apply fromRust_distinct|done].
Qed.

Lemma TokenAware_plan_witness :
  exists i c c' child l fuel0, ta_newQueryPlan composed None keyed_options [] = Ok (i, mkTokenAware (Some composed_client) c') /\
    al_newQueryPlan (ta_childPolicy composed) (Some (str "ks")) keyed_options [] = Ok (c, c') /\
    (forall fuel, (fuel0 <= fuel)%nat -> drain fuel c = Some child /\ drain fuel i = Some l) /\ distinct_hosts l /\
    node_host "c" "dc1" ∈ l /\ drain 9 i = Some [node_host "c" "dc1"; node_host "a" "dc1"].
Proof.
  destruct (TokenAware_plan composed composed_client None keyed_options [])
    as (i & c & c' & child & l & f & E & Ec & D & Hd & El).
  - reflexivity.
  - apply composed_child_ready.
  - intros ks key l [= <-]. apply (bool_decide_unpack _). vm_compute. done.
  - constructor.
  - exists i, c, c', child, l, f. split_and!; [exact E|exact Ec|exact D|exact Hd| |].
    + rewrite El. apply elem_of_app. left. apply elem_of_rotate. vm_compute. left.
    + vm_compute in E. injection E as <- _. vm_compute. reflexivity.
Defined.

(** An allow-list policy, over any policy that keeps the promise: the plan is
    the child's plan without the hosts that are not on the list, it still ends,
    and every host that is not on the list is at distance ignored. *)
Theorem AllowList_plan {P It : Type} `{L : LoadBalancingLaws P It} (p : AllowListPolicy P)
    (keyspace : option jsstr) (options : option exec_options) (rnds : list dyadic)
    (Hr : lb_ready (al_childPolicy p)) (Hrnd : Forall random_ok rnds) :
  exists i p' c c' l fuel0, al_newQueryPlan p keyspace options rnds = Ok (i, p') /\
    lb_newQueryPlan (al_childPolicy p) keyspace options rnds = Ok (c, c') /\
    (forall fuel, (fuel0 <= fuel)%nat ->
       drain fuel c = Some l /\ drain fuel i = Some (List.filter (al_contains p) l)) /\
    distinct_hosts (List.filter (al_contains p) l) /\
    (forall h, al_getDistance p' h =
       if bool_decide (host_address h ∈ al_allowList p) then lb_getDistance (al_childPolicy p) h else ignored).
Proof.
  destruct (lb_plan (al_childPolicy p) keyspace options rnds Hr Hrnd) as (c & c' & l & E & _ & Hd & Hy & Hdis & _).
  destruct (yields_drain _ _ Hy) as [f1 D1]. destruct (yields_drain _ _ (al_yields p c l Hy)) as [f2 D2].
  exists (p, c), (mkAllowList c' (al_allowList p)), c, c', l, (Nat.max f1 f2). split_and!.
  - unfold al_newQueryPlan. by rewrite E.
  - exact E.
  - intros fuel Hf. split; [apply D1|apply D2]; lia.
  - by apply distinct_filter.
  - intros h. unfold al_getDistance, al_contains. cbn [al_allowList al_childPolicy]. rewrite Hd.
    by destruct (bool_decide (host_address h ∈ al_allowList p)).
Qed.

Lemma AllowList_plan_witness :
  let p := mkAllowList (mkRoundRobin (Some three_nodes) 1) [str "a"; str "c"] in
  exists i p' l fuel0, al_newQueryPlan p None None [] = Ok (i, p') /\
    (forall fuel, (fuel0 <= fuel)%nat -> drain fuel i = Some (List.filter (al_contains p) l)) /\
    drain 9 i = Some [node_host "c" "dc1"; node_host "a" "dc1"].
Proof.
  intros p. destruct (AllowList_plan p None None []) as (i & p' & c & c' & l & f & E & _ & D & _ & _).
  - split; [split; [done|reflexivity]|]. exists three_nodes. split; [done|apply fromRust_distinct].
  - constructor.
  - exists i, p', l, f. split_and!; [exact E|by intros fuel [_ ?]%D|].
    vm_compute in E. injection E as <- _. vm_compute. reflexivity.
Defined.
