(* ===== verification/DefaultPolicy.v ===== *)
(** [lib/policies/load-balancing.js], [DefaultLoadBalancingPolicy]: its plans
    are generators that read and change the policy, and ask the hosts for their
    state, each time a host is asked for.

    What the hosts answer is a [host_state]; [real_state] is what the class
    [Host] of [lib/host.js] answers.  A method that throws is a [Throw]. *)
From S2P Require Import Prelude.
From S2P Require Import JsNum.
From S2P Require Import JsStr.
From S2P Require Import JsFloat.
From S2P Require Import Utils.
From S2P Require Import Host.
From S2P Require Import Replicas.
From S2P Require Import LoadBalancing.

(** The state of the hosts at one moment, and the clock ([isUpSince] that is
    null or undefined is [None]). *)
Record host_state := mkHostState {
  isUp : Host -> result bool;
  isUpSince : Host -> option Z;
  getInFlight : Host -> result Z;
  getResponseCount : Host -> result Z;
  Date_now : Z }.

(** [Host] has no [getInFlight], [getResponseCount] or [isUpSince]. *)
Definition real_state (now : Z) : host_state :=
  mkHostState Host_isUp (fun _ => None) (fun _ => Throw TypeError) (fun _ => Throw TypeError) now.

Definition MIN_SAFE_INTEGER : Z := - (2 ^ 53 - 1).

Definition _isHostNewlyUp (hs : host_state) (h : Host) : result (option Z) :=
  Ok (match isUpSince hs h with
      | Some since => if Date_now hs - since <? newlyUpInterval then Some since else None
      | None => None
      end).

Definition _healthCheck (hs : host_state) (h : Host) : result bool :=
  inFlight ← getInFlight hs h;
  if 10 <=? inFlight then
    responses ← getResponseCount hs h;
    Ok (negb (responses <=? 1))
  else Ok true.

Definition _compare (hs : host_state) (h1 h2 : Host) : result Z :=
  a ← getInFlight hs h1;
  b ← getInFlight hs h2;
  Ok (if a <? b then 1 else -1).

(** The options: checks can be injected. *)
Record default_options := mkDefaultOptions {
  do_localDc : option jsstr;
  do_filter : option (Host -> bool);
  do_isHostNewlyUp : option (host_state -> Host -> result (option Z));
  do_healthCheck : option (host_state -> Host -> result bool);
  do_compare : option (host_state -> Host -> Host -> result Z);
  do_getReplicas : option (option jsstr -> list Z -> option (list Host)) }.

Definition emptyOptions : default_options := mkDefaultOptions None None None None None None.

(** The client is null before [init]. *)
Record DefaultLoadBalancingPolicy := mkDefault {
  df_client : option lb_client;
  df_hosts : option HostMap;
  _filteredHosts : option (list Host);
  _preferredHost : option Host;
  df_index : Z;
  df_localDc : option jsstr;
  df_filter : Host -> bool;
  df_isHostNewlyUp : host_state -> Host -> result (option Z);
  df_healthCheck : host_state -> Host -> result bool;
  df_compare : host_state -> Host -> Host -> result Z;
  df_getReplicas : option (option jsstr -> list Z -> option (list Host)) }.

(** The argument of the constructor: a data center, options, or nothing. *)
Inductive default_arg := ArgDc (dc : jsstr) | ArgOptions (o : default_options) | ArgNone.

Definition DefaultLoadBalancingPolicy_new (a : default_arg) : DefaultLoadBalancingPolicy :=
  let o := match a with
           | ArgDc dc => mkDefaultOptions (Some dc) None None None None None
           | ArgOptions o => o
           | ArgNone => emptyOptions
           end in
  mkDefault None None None None 0 (do_localDc o) (default (fun _ => true) (do_filter o))
    (default _isHostNewlyUp (do_isHostNewlyUp o)) (default _healthCheck (do_healthCheck o))
    (default _compare (do_compare o)) (do_getReplicas o).

(** What changes of the policy. *)
Definition df_update (p : DefaultLoadBalancingPolicy) (filtered : option (list Host)) (preferred : option Host)
    (index : Z) : DefaultLoadBalancingPolicy :=
  mkDefault (df_client p) (df_hosts p) filtered preferred index (df_localDc p) (df_filter p)
    (df_isHostNewlyUp p) (df_healthCheck p) (df_compare p) (df_getReplicas p).

Definition df_init (p : DefaultLoadBalancingPolicy) (client : lb_client) (hosts : HostMap)
    : option js_error * DefaultLoadBalancingPolicy :=
  let '(err, localDc) := setLocalDc (df_localDc p) client hosts in
  (err, mkDefault (Some client) (Some hosts) (_filteredHosts p) (_preferredHost p) (df_index p) localDc
          (df_filter p) (df_isHostNewlyUp p) (df_healthCheck p) (df_compare p) (df_getReplicas p)).

(** The map of hosts has changed and emits its event. *)
Definition df_hosts_changed (p : DefaultLoadBalancingPolicy) (hosts : HostMap) : DefaultLoadBalancingPolicy :=
  mkDefault (df_client p) (Some hosts) None (_preferredHost p) (df_index p) (df_localDc p)
    (df_filter p) (df_isHostNewlyUp p) (df_healthCheck p) (df_compare p) (df_getReplicas p).

Definition df_getDistance (p : DefaultLoadBalancingPolicy) (h : Host) : distance :=
  if bool_decide (Some h = _preferredHost p) then local
  else if negb (df_filter p h) then ignored
  else if bool_decide (host_datacenter h = df_localDc p) then local else ignored.

Definition is_filtered_local (p : DefaultLoadBalancingPolicy) (h : Host) : bool :=
  df_filter p h && bool_decide (host_datacenter h = df_localDc p).

Definition _getFilteredLocalHosts (p : DefaultLoadBalancingPolicy)
    : result (list Host * DefaultLoadBalancingPolicy) :=
  match _filteredHosts p with
  | Some hosts => Ok (hosts, p)
  | None =>
      match df_hosts p with
      | None => Throw TypeError
      | Some m =>
          let hosts := List.filter (is_filtered_local p) (host_values m) in
          Ok (hosts, df_update p (Some hosts) (_preferredHost p) (df_index p))
      end
  end.

Definition _getIndex (p : DefaultLoadBalancingPolicy) : Z * DefaultLoadBalancingPolicy :=
  let index := df_index p + 1 in
  (df_index p, df_update p (_filteredHosts p) (_preferredHost p) (if index =? 2147483647 then 0 else index)).

(** ** The generators *)

(** A generator and where it is suspended.  [LocalHosts] has read its array and
    its index once it is started. *)
Inductive default_plan :=
  | LocalHosts (localReplicas : option (list Host)) (started : option (list Host * Z)) (i : Z)
  | ReplicasFirst (replicas : list Host) (i : Z)
  | PreferredHostFirst (preferredHost : Host) (started : bool) (iterable : default_plan)
  | Finished.

Definition canBeYield (localReplicas : option (list Host)) (h : Host) : bool :=
  match localReplicas with Some l => bool_decide (h ∉ l) | None => true end.

(** A step of the generators without a preferred host. *)
Definition local_step (hs : host_state) (p : DefaultLoadBalancingPolicy)
    (localReplicas : option (list Host)) (started : option (list Host * Z)) (i : Z)
    : result plan_event * DefaultLoadBalancingPolicy * default_plan :=
  match started with
  | None =>
      match _getFilteredLocalHosts p with
      | Throw e => (Throw e, p, Finished)
      | Ok (hosts, p) =>
          let '(initialIndex, p) := _getIndex p in
          (Ok Skip, p, LocalHosts localReplicas (Some (hosts, initialIndex)) 0)
      end
  | Some (hosts, initialIndex) =>
      if i <? Z.of_nat (length hosts) then
        match hosts !! Z.to_nat (Z.rem (i + initialIndex) (Z.of_nat (length hosts))) with
        | None => (Throw TypeError, p, Finished)
        | Some h =>
            let next := LocalHosts localReplicas started (i + 1) in
            if canBeYield localReplicas h then
              match isUp hs h with
              | Throw e => (Throw e, p, Finished)
              | Ok true => (Ok (Yield h), p, next)
              | Ok false => (Ok Skip, p, next)
              end
            else (Ok Skip, p, next)
        end
      else (Ok Done, p, Finished)
  end.

Fixpoint default_step (hs : host_state) (p : DefaultLoadBalancingPolicy) (plan : default_plan)
    : result plan_event * DefaultLoadBalancingPolicy * default_plan :=
  match plan with
  | Finished => (Ok Done, p, Finished)
  | LocalHosts localReplicas started i => local_step hs p localReplicas started i
  | ReplicasFirst replicas i =>
      match replicas !! Z.to_nat i with
      | Some h => (Ok (Yield h), p, ReplicasFirst replicas (i + 1))
      | None => (Ok Skip, p, LocalHosts (Some replicas) None 0)
      end
  | PreferredHostFirst preferredHost false iterable =>
      (Ok (Yield preferredHost), p, PreferredHostFirst preferredHost true iterable)
  | PreferredHostFirst preferredHost true iterable =>
      let '(e, p, iterable) := default_step hs p iterable in
      match e with
      | Ok (Yield h) =>
          (Ok (if bool_decide (h = preferredHost) then Skip else Yield h), p,
           PreferredHostFirst preferredHost true iterable)
      | Ok Skip => (Ok Skip, p, PreferredHostFirst preferredHost true iterable)
      | _ => (e, p, Finished)
      end
  end.

(** The hosts a plan yields until it is done or throws. *)
Fixpoint default_drain (fuel : nat) (hs : host_state) (p : DefaultLoadBalancingPolicy) (plan : default_plan)
    : option (result (list Host) * DefaultLoadBalancingPolicy) :=
  match fuel with
  | O => None
  | S fuel' =>
      match default_step hs p plan with
      | (Throw e, p, _) => Some (Throw e, p)
      | (Ok Done, p, _) => Some (Ok [], p)
      | (Ok Skip, p, plan) => default_drain fuel' hs p plan
      | (Ok (Yield h), p, plan) =>
          '(l, p) ← default_drain fuel' hs p plan;
          Some (match l with Ok l => Ok (h :: l) | Throw e => Throw e end, p)
      end
  end.

(** ** The order of the replicas *)

(** The loop over the replicas: those to use, the newest of the newly up ones
    with its timestamp, and the number of the unhealthy ones. *)
Fixpoint scan_replicas (hs : host_state) (p : DefaultLoadBalancingPolicy) (replicas : list Host)
    (filtered : list Host) (newlyUp : option Host) (timestamp unhealthy : Z)
    : result (list Host * option Host * Z) :=
  match replicas with
  | [] => Ok (filtered, newlyUp, unhealthy)
  | h :: rest =>
      if is_filtered_local p h then
        up ← isUp hs h;
        if (up : bool) then
          upSince ← df_isHostNewlyUp p hs h;
          let '(newlyUp, timestamp) :=
            match upSince with
            | Some since => if timestamp <? since then (Some h, since) else (newlyUp, timestamp)
            | None => (newlyUp, timestamp)
            end in
          unhealthy ← (if bool_decide (newlyUp = None) then
                         healthy ← df_healthCheck p hs h;
                         Ok (if (healthy : bool) then unhealthy else unhealthy + 1)
                       else Ok unhealthy);
          scan_replicas hs p rest (filtered ++ [h]) newlyUp timestamp unhealthy
        else scan_replicas hs p rest filtered newlyUp timestamp unhealthy
      else scan_replicas hs p rest filtered newlyUp timestamp unhealthy
  end.

(** [_sendUnhealthyToTheBack]: its loop from the index before [i] down. *)
Fixpoint back_loop (hs : host_state) (p : DefaultLoadBalancingPolicy) (i : nat) (counter unhealthyReplicas : Z)
    (replicas : list Host) : result (list Host) :=
  match i with
  | O => Ok replicas
  | S i' =>
      if counter <? unhealthyReplicas then
        match replicas !! i' with
        | None => Throw TypeError
        | Some host =>
            healthy ← df_healthCheck p hs host;
            if (healthy : bool) then back_loop hs p i' counter unhealthyReplicas replicas
            else
              let targetIndex := Z.to_nat (Z.of_nat (length replicas) - 1 - counter) in
              back_loop hs p i' (counter + 1) unhealthyReplicas (swap replicas targetIndex i')
        end
      else Ok replicas
  end.

Definition _sendUnhealthyToTheBack (hs : host_state) (p : DefaultLoadBalancingPolicy)
    (replicas : list Host) (unhealthyReplicas : Z) : result (list Host) :=
  back_loop hs p (length replicas) 0 unhealthyReplicas replicas.

(** [Math.random() * 4 >= 1] *)
Definition dice (rnd : dyadic) : bool :=
  let x := fl_mul rnd (4, 0%N) in 2 ^ Z.of_N x.2 <=? x.1.

(** The replicas in the order they are tried, from those the scan has kept. *)
Definition order_replicas (hs : host_state) (p : DefaultLoadBalancingPolicy) (rnds : list dyadic)
    (filtered : list Host) (newlyUp : option Host) (unhealthy : Z) : result (list Host) :=
  let replicas := shuffleArray filtered rnds in
  let n := Z.of_nat (length replicas) in
  if n <? 3 then Ok replicas
  else
    replicas ←
      match newlyUp with
      | None =>
          if (0 <? unhealthy) && (unhealthy <? n / 2 + 1) then _sendUnhealthyToTheBack hs p replicas unhealthy
          else Ok replicas
      | Some _ =>
          if (bool_decide (newlyUp = replicas !! 0%nat) || bool_decide (newlyUp = replicas !! 1%nat)) &&
             dice (default (0, 53%N) (rnds !! (length replicas - 1)%nat)) then
            let index := if bool_decide (newlyUp = replicas !! 0%nat) then 0%nat else 1%nat in
            Ok (swap replicas (length replicas - 1) index)
          else Ok replicas
      end;
    match replicas !! 1%nat, replicas !! 0%nat with
    | Some r1, Some r0 =>
        c ← df_compare p hs r1 r0;
        Ok (if 0 <? c then swap replicas 0 1 else replicas)
    | _, _ => Throw TypeError
    end.

Definition _getReplicas (p : DefaultLoadBalancingPolicy) (keyspace : option jsstr) (routingKey : list Z)
    : result (option (list Host)) :=
  match df_getReplicas p with
  | Some f => Ok (f keyspace routingKey)
  | None =>
      match df_client p with
      | Some client => Ok (client_getReplicas client keyspace routingKey)
      | None => Throw TypeError
      end
  end.

Definition _getReplicasAndLocalHosts (hs : host_state) (p : DefaultLoadBalancingPolicy) (rnds : list dyadic)
    (keyspace : option jsstr) (routingKey : list Z) : result default_plan :=
  replicas ← _getReplicas p keyspace routingKey;
  match replicas with
  | None => Ok (LocalHosts None None 0)
  | Some replicas =>
      s ← scan_replicas hs p replicas [] None MIN_SAFE_INTEGER 0;
      let '(filtered, newlyUp, unhealthy) := s in
      replicas ← order_replicas hs p rnds filtered newlyUp unhealthy;
      Ok (ReplicasFirst replicas 0)
  end.

Definition df_newQueryPlan (hs : host_state) (p : DefaultLoadBalancingPolicy) (keyspace : option jsstr)
    (options : option exec_options) (rnds : list dyadic) : result (default_plan * DefaultLoadBalancingPolicy) :=
  let routingKey := match options with Some o => eo_routingKey o | None => None end in
  let keyspace := match options with
                  | Some o => if truthy (eo_keyspace o) then eo_keyspace o else keyspace
                  | None => keyspace
                  end in
  let preferredHost := match options with Some o => eo_preferredHost o | None => None end in
  iterable ←
    match routingKey with
    | Some key => if truthy keyspace then _getReplicasAndLocalHosts hs p rnds keyspace key
                  else Ok (LocalHosts None None 0)
    | None => Ok (LocalHosts None None 0)
    end;
  match preferredHost with
  | Some h => Ok (PreferredHostFirst h false iterable, df_update p (_filteredHosts p) (Some h) (df_index p))
  | None => Ok (iterable, p)
  end.
