(* ===== verification/DefaultPolicyTheorems.v ===== *)
(** The plans of [DefaultLoadBalancingPolicy]: which hosts they have, in which
    order, and that they end; the reordering of the replicas. *)
From S2P Require Import Prelude.
From S2P Require Import JsNum.
From S2P Require Import JsStr.
From S2P Require Import JsFloat.
From S2P Require Import Policies.
From S2P Require Import Utils.
From S2P Require Import UtilsTheorems.
From S2P Require Import Host.
From S2P Require Import Replicas.
From S2P Require Import ReplicasTheorems.
From S2P Require Import LoadBalancing.
From S2P Require Import LoadBalancingTheorems.
From S2P Require Import DefaultPolicy.

(** ** Swapping *)

Lemma swap_lookup {A} (arr : list A) i j k :
  (i < length arr)%nat -> (j < length arr)%nat ->
  swap arr i j !! k = if decide (k = j) then arr !! i else if decide (k = i) then arr !! j else arr !! k.
Proof.
  intros Hi Hj. destruct (lookup_lt_is_Some_2 _ _ Hi) as [x Hx]. destruct (lookup_lt_is_Some_2 _ _ Hj) as [y Hy].
  unfold swap. rewrite Hx, Hy. destruct (decide (k = j)) as [->|Dj].
  - by rewrite list_lookup_insert_eq by (by rewrite length_insert).
  - rewrite list_lookup_insert_ne by done. destruct (decide (k = i)) as [->|Di].
    + by rewrite list_lookup_insert_eq.
    + by rewrite list_lookup_insert_ne.
Qed.

Lemma length_swap {A} (arr : list A) i j : length (swap arr i j) = length arr.
Proof. apply Permutation_length, swap_perm. Qed.

Lemma Lfilter_perm {A} (f : A -> bool) l l' : l ≡ₚ l' -> List.filter f l ≡ₚ List.filter f l'.
Proof.
  induction 1 as [|x l l' _ IH|x y l|l l' l'' _ IH1 _ IH2]; cbn [List.filter]; [done| | |by etrans].
  - destruct (f x); [by constructor|done].
  - destruct (f x), (f y); try done. by constructor.
Qed.

Lemma Lfilter_split {A} (f : A -> bool) l m :
  (forall k x, l !! k = Some x -> f x = bool_decide (m <= k)%nat) -> length (List.filter f l) = (length l - m)%nat.
Proof.
  revert m. induction l as [|x l IH]; intros m H; [done|]. cbn [List.filter length].
  rewrite (H 0%nat x eq_refl). destruct m as [|m].
  - rewrite bool_decide_true by lia. cbn [length]. rewrite (IH 0%nat); [lia|].
    intros k y Hy. rewrite (H (S k) y Hy). apply bool_decide_ext. lia.
  - rewrite bool_decide_false by lia. rewrite (IH m); [lia|].
    intros k y Hy. rewrite (H (S k) y Hy). apply bool_decide_ext. lia.
Qed.

Section fixed_state.
Context (hs : host_state) (p : DefaultLoadBalancingPolicy) (up healthy : Host -> bool).

(** The hosts answer, and the injected checks do. *)
Record answers : Prop := {
  ans_up h : isUp hs h = Ok (up h);
  ans_health h : df_healthCheck p hs h = Ok (healthy h);
  ans_newly h : exists s, df_isHostNewlyUp p hs h = Ok s;
  ans_compare a b : exists c, df_compare p hs a b = Ok c }.

Definition usable (h : Host) : bool := is_filtered_local p h && up h.
Definition unhealthy (h : Host) : bool := negb (healthy h).

Lemma scan_spec replicas filtered nu ts u :
  answers ->
  exists nu' u', scan_replicas hs p replicas filtered nu ts u = Ok (filtered ++ List.filter usable replicas, nu', u') /\
    (nu' = None -> nu = None /\
       u' = u + Z.of_nat (length (List.filter unhealthy (List.filter usable replicas)))).
Proof.
  intros A. revert filtered nu ts u.
  induction replicas as [|h rest IH]; intros filtered nu ts u; cbn [scan_replicas List.filter].
  - exists nu, u. rewrite app_nil_r. split; [done|]. intros ->. cbn. split; [done|lia].
  - change (usable h) with (is_filtered_local p h && up h). destruct (is_filtered_local p h); cbn [andb]; [|apply IH].
    rewrite (ans_up A). cbn [mbind result_bind]. destruct (up h); [|apply IH].
    destruct (ans_newly A h) as [s ->]. cbn [mbind result_bind].
    set (nt := match s with Some since => if ts <? since then (Some h, since) else (nu, ts) | None => (nu, ts) end).
    assert (Hnt : nt.1 = None -> nu = None) by (subst nt; destruct s as [s|]; [destruct (ts <? s)|]; done).
    destruct nt as [nu1 ts1]. cbn [fst] in Hnt. case_bool_decide as D.
    + rewrite (ans_health A). cbn [mbind result_bind].
      destruct (IH (filtered ++ [h]) nu1 ts1 (if healthy h then u else u + 1)) as (nu' & u' & E & H).
      exists nu', u'. rewrite E, <- app_assoc. split; [done|]. intros N. destruct (H N) as [_ ->].
      split; [by apply Hnt|]. cbn [List.filter]. unfold unhealthy at 2. destruct (healthy h); cbn [negb length]; lia.
    + cbn [mbind result_bind].
      destruct (IH (filtered ++ [h]) nu1 ts1 u) as (nu' & u' & E & H).
      exists nu', u'. rewrite E, <- app_assoc. split; [done|]. intros N. by destruct (H N).
Qed.

(** The loop: from [i] on, the healthy ones come before the [c] unhealthy ones
    that it has moved. *)
Lemma back_loop_spec u i c l :
  answers -> (i + c <= length l)%nat -> (c <= u)%nat ->
  length (List.filter unhealthy l) = u ->
  (forall k h, l !! k = Some h -> (i <= k)%nat -> unhealthy h = bool_decide (length l - c <= k)%nat) ->
  exists l', back_loop hs p i (Z.of_nat c) (Z.of_nat u) l = Ok l' /\ l' ≡ₚ l /\
    forall k h, l' !! k = Some h -> unhealthy h = bool_decide (length l - u <= k)%nat.
Proof.
  intros A. revert c l. induction i as [|i IH]; intros c l Hi Hc Hu Hl; cbn [back_loop].
  - exists l. split_and!; [done|done|]. intros k h Hk. rewrite (Hl k h Hk) by lia.
    assert (length (List.filter unhealthy l) = (length l - (length l - c))%nat) as E.
    { apply Lfilter_split. intros k' h' Hk'. by rewrite (Hl k' h' Hk') by lia. }
    apply bool_decide_ext. lia.
  - destruct (Z.ltb_spec (Z.of_nat c) (Z.of_nat u)) as [Hlt|Hge].
    + destruct (lookup_lt_is_Some_2 l i) as [h Hh]; [lia|]. rewrite Hh, (ans_health A). cbn [mbind result_bind].
      destruct (healthy h) eqn:Eh.
      * apply IH; [lia|lia|done|]. intros k g Hg Hk. destruct (decide (k = i)) as [->|].
        -- replace g with h by congruence. unfold unhealthy. rewrite Eh. rewrite bool_decide_false by lia. done.
        -- apply Hl; [done|lia].
      * set (t := Z.to_nat (Z.of_nat (length l) - 1 - Z.of_nat c)). assert (Et : t = (length l - 1 - c)%nat) by lia.
        replace (Z.of_nat c + 1) with (Z.of_nat (S c)) by lia.
        destruct (IH (S c) (swap l t i)) as (l' & E & Hp & H).
        -- rewrite length_swap. lia.
        -- lia.
        -- rewrite <- Hu. apply Permutation_length, Lfilter_perm, swap_perm.
        -- rewrite length_swap. intros k g Hg Hk. rewrite swap_lookup in Hg by lia.
           destruct (decide (k = i)) as [->|Hki]; [|destruct (decide (k = t)) as [->|Hkt]].
           ++ destruct (decide (t = i)) as [Eti|Dti].
              ** rewrite Eti in Hg. replace g with h by congruence. unfold unhealthy. rewrite Eh.
                 rewrite bool_decide_true by lia. done.
              ** rewrite (Hl _ _ Hg) by lia. apply bool_decide_ext. lia.
           ++ replace g with h by congruence. unfold unhealthy. rewrite Eh. rewrite bool_decide_true by lia. done.
           ++ rewrite (Hl _ _ Hg) by lia. apply bool_decide_ext. lia.
        -- exists l'. split_and!; [done|by rewrite Hp, swap_perm|]. rewrite length_swap in H. exact H.
    + exists l. split_and!; [done|done|]. assert (c = u) as -> by lia. intros k h Hk.
      destruct (decide (S i <= k)%nat); [by apply Hl|].
      (* all the unhealthy ones are already at the back *)
      rewrite bool_decide_false by lia. destruct (unhealthy h) eqn:Eh; [|done]. exfalso.
      rewrite <- (take_drop (length l - u) l), List.filter_app, length_app in Hu.
      assert (F2 : length (List.filter unhealthy (drop (length l - u) l)) = u).
      { rewrite (Lfilter_split _ _ 0), length_drop; [lia|]. intros k' h' Hk'. rewrite lookup_drop in Hk'.
        rewrite (Hl _ _ Hk') by lia. by rewrite !bool_decide_true by lia. }
      assert (F1 : h ∈ List.filter unhealthy (take (length l - u) l)).
      { apply elem_of_Lfilter. split; [|done]. apply list_elem_of_lookup. exists k. rewrite lookup_take_lt by lia. done. }
      destruct (List.filter unhealthy (take (length l - u) l)); [by apply elem_of_nil in F1|]. cbn in Hu. lia.
Qed.

Lemma sendUnhealthyToTheBack_spec l u :
  answers -> Z.of_nat (length (List.filter unhealthy l)) = u ->
  exists l', _sendUnhealthyToTheBack hs p l u = Ok l' /\ l' ≡ₚ l /\
    forall k h, l' !! k = Some h -> unhealthy h = bool_decide (length l - Z.to_nat u <= k)%nat.
Proof.
  intros A <-. unfold _sendUnhealthyToTheBack. rewrite Nat2Z.id.
  apply (back_loop_spec _ (length l) 0 l A); [lia|lia|done|].
  intros k h Hk%lookup_lt_Some ?. lia.
Qed.

(** Reordering always succeeds, and only reorders. *)
Lemma order_replicas_perm rnds l nu u :
  answers -> (nu = None -> u = Z.of_nat (length (List.filter unhealthy l))) ->
  exists l', order_replicas hs p rnds l nu u = Ok l' /\ l' ≡ₚ l.
Proof.
  intros A Hu. unfold order_replicas. set (s := shuffleArray l rnds).
  assert (Hs : s ≡ₚ l) by apply shuffle_loop_perm. cbv zeta.
  destruct (Z.ltb_spec (Z.of_nat (length s)) 3) as [|Hlen]; [by exists s|].
  match goal with |- context [mbind _ ?m] => assert (G : exists s', m = Ok s' /\ s' ≡ₚ s) end.
  { destruct nu as [h|]; [case_match; [|by exists s]; eexists; split; [done|apply swap_perm]|].
    destruct (_ && _); [|by exists s]. destruct (sendUnhealthyToTheBack_spec s u) as (s' & E & Hp & _); [done| |by exists s'].
    rewrite Hu by done. f_equal. by apply Permutation_length, Lfilter_perm. }
  destruct G as (s' & -> & Hp). cbn [mbind result_bind]. pose proof (Permutation_length Hp) as Hl.
  destruct (lookup_lt_is_Some_2 s' 0) as [r0 ->]; [lia|]. destruct (lookup_lt_is_Some_2 s' 1) as [r1 ->]; [lia|].
  destruct (ans_compare A r1 r0) as [c ->]. cbn [mbind result_bind].
  destruct (0 <? c); eexists; (split; [done|]); [by rewrite swap_perm, Hp|by rewrite Hp].
Qed.
End fixed_state.

(** ** What the generators yield *)

Section generators.
Context (hs : host_state) (up : Host -> bool) (Hup : forall h, isUp hs h = Ok (up h)).

(** The plan yields these hosts and is done; the policy is [p'] then. *)
Inductive generates : DefaultLoadBalancingPolicy -> default_plan -> list Host -> DefaultLoadBalancingPolicy -> Prop :=
  | gen_done p i p' i' : default_step hs p i = (Ok Done, p', i') -> generates p i [] p'
  | gen_yield p i p' i' h l p'' :
      default_step hs p i = (Ok (Yield h), p', i') -> generates p' i' l p'' -> generates p i (h :: l) p''
  | gen_skip p i p' i' l p'' :
      default_step hs p i = (Ok Skip, p', i') -> generates p' i' l p'' -> generates p i l p''.

Lemma generates_drain p i l p' :
  generates p i l p' -> exists n, forall fuel, (n <= fuel)%nat -> default_drain fuel hs p i = Some (Ok l, p').
Proof.
  induction 1 as [p i p' i' E|p i p' i' h l p'' E _ [n IH]|p i p' i' l p'' E _ [n IH]].
  - exists 1%nat. intros [|fuel] Hf; [lia|]. cbn [default_drain]. by rewrite E.
  - exists (S n). intros [|fuel] Hf; [lia|]. cbn [default_drain]. by rewrite E, IH by lia.
  - exists (S n). intros [|fuel] Hf; [lia|]. cbn [default_drain]. by rewrite E, IH by lia.
Qed.

(** The local hosts a plan goes on with. *)
Definition can_yield (lr : option (list Host)) (h : Host) : bool := canBeYield lr h && up h.

Lemma local_loop_generates p lr hosts k i :
  0 <= k -> (i <= length hosts)%nat ->
  generates p (LocalHosts lr (Some (hosts, k)) (Z.of_nat i))
    (List.filter (can_yield lr) (drop i (rotate (Z.to_nat k) hosts))) p.
Proof.
  intros Hk Hi. remember (length hosts - i)%nat as n eqn:En. revert i Hi En.
  induction n as [|n IH]; intros i Hi En.
  - rewrite drop_ge by (rewrite length_rotate; lia). eapply gen_done. cbn.
    by rewrite (proj2 (Z.ltb_ge _ _)) by lia.
  - destruct (lookup_lt_is_Some_2 (rotate (Z.to_nat k) hosts) i) as [h Hh]; [rewrite length_rotate; lia|].
    assert (E : hosts !! Z.to_nat (Z.rem (Z.of_nat i + k) (Z.of_nat (length hosts))) = Some h).
    { rewrite <- Hh, <- (round_host_rotate hosts k i 0) by lia. unfold round_host. cbn [rp_hosts rp_index]. by rewrite Z.add_comm. }
    pose proof (IH (S i) ltac:(lia) ltac:(lia)) as G. rewrite Nat2Z.inj_succ, <- Z.add_1_r in G.
    rewrite (drop_S _ h) by done. cbn [List.filter].
    assert (S1 : default_step hs p (LocalHosts lr (Some (hosts, k)) (Z.of_nat i)) =
      (Ok (if can_yield lr h then Yield h else Skip), p, LocalHosts lr (Some (hosts, k)) (Z.of_nat i + 1))).
    { cbn [default_step]. unfold local_step. rewrite (proj2 (Z.ltb_lt _ _)), E by lia. unfold can_yield.
      rewrite Hup. by destruct (canBeYield lr h), (up h). }
    destruct (can_yield lr h); [by eapply gen_yield|by eapply gen_skip].
Qed.

(** The hosts the policy keeps for its plans. *)
Definition df_locals (p : DefaultLoadBalancingPolicy) (m : HostMap) : list Host :=
  List.filter (is_filtered_local p) (host_values m).

Record df_ready (p : DefaultLoadBalancingPolicy) (m : HostMap) : Prop := {
  dfr_hosts : df_hosts p = Some m;
  dfr_index : 0 <= df_index p < 2147483647;
  dfr_cache l : _filteredHosts p = Some l -> l = df_locals p m }.

Lemma local_generates p m lr :
  df_ready p m -> exists p', df_ready p' m /\
    generates p (LocalHosts lr None 0)
      (List.filter (can_yield lr) (rotate (Z.to_nat (df_index p)) (df_locals p m))) p'.
Proof.
  intros [Hm Hi Hf].
  pose (k := df_index p). pose (k' := if k + 1 =? 2147483647 then 0 else k + 1).
  exists (df_update p (Some (df_locals p m)) (_preferredHost p) k'). split.
  { split; [done| |by intros l [= <-]]. cbn [df_index df_update]. subst k' k. destruct (Z.eqb_spec (df_index p + 1) 2147483647); lia. }
  eapply gen_skip; [|apply (local_loop_generates _ lr (df_locals p m) (df_index p) 0); lia].
  cbn [default_step]. unfold local_step, _getFilteredLocalHosts. destruct (_filteredHosts p) as [l|] eqn:E.
  - unfold _getIndex. rewrite E, <- (Hf l eq_refl). subst k' k. done.
  - rewrite Hm. done.
Qed.

Lemma replicas_generate p m replicas :
  df_ready p m -> exists p', df_ready p' m /\
    generates p (ReplicasFirst replicas 0)
      (replicas ++ List.filter (can_yield (Some replicas)) (rotate (Z.to_nat (df_index p)) (df_locals p m))) p'.
Proof.
  intros Hr. destruct (local_generates p m (Some replicas) Hr) as (p' & Hr' & G). exists p'. split; [done|].
  set (rest := List.filter _ _) in *.
  assert (F : forall i, (i <= length replicas)%nat ->
    generates p (ReplicasFirst replicas (Z.of_nat i)) (drop i replicas ++ rest) p').
  { intros i Hi. remember (length replicas - i)%nat as n eqn:En. revert i Hi En.
    induction n as [|n IH]; intros i Hi En.
    - rewrite drop_ge by lia. eapply gen_skip; [|exact G]. cbn [default_step].
      by rewrite Nat2Z.id, lookup_ge_None_2 by lia.
    - destruct (lookup_lt_is_Some_2 replicas i) as [h Hh]; [lia|]. rewrite (drop_S _ h) by done.
      eapply gen_yield; [cbn [default_step]; rewrite Nat2Z.id, Hh; reflexivity|].
      rewrite Z.add_1_r, <- Nat2Z.inj_succ. apply IH; lia. }
  exact (F 0%nat ltac:(lia)).
Qed.

Definition not_host (g h : Host) : bool := negb (bool_decide (h = g)).

Lemma preferred_generates p i l p' g :
  generates p i l p' -> generates p (PreferredHostFirst g false i) (g :: List.filter (not_host g) l) p'.
Proof.
  intros G. eapply gen_yield; [reflexivity|].
  induction G as [p i p' i' E|p i p' i' h l p'' E _ IH|p i p' i' l p'' E _ IH]; cbn [List.filter].
  - eapply gen_done. cbn [default_step]. by rewrite E.
  - unfold not_host at 1. destruct (bool_decide (h = g)) eqn:D; cbn [negb].
    + eapply gen_skip; [|exact IH]. cbn [default_step]. by rewrite E, D.
    + eapply gen_yield; [|exact IH]. cbn [default_step]. by rewrite E, D.
  - eapply gen_skip; [|exact IH]. cbn [default_step]. by rewrite E.
Qed.
End generators.

(** ** Theorems *)

(** The replicas a plan is made for: none without a keyspace or a key. *)
Definition plan_replicas (p : DefaultLoadBalancingPolicy) (keyspace : option jsstr) (options : option exec_options)
    : result (option (list Host)) :=
  match options with
  | Some o =>
      match eo_routingKey o with
      | Some key => if truthy (ta_keyspace keyspace options) then _getReplicas p (ta_keyspace keyspace options) key else Ok None
      | None => Ok None
      end
  | None => Ok None
  end.

Definition plan_preferred (options : option exec_options) : option Host :=
  match options with Some o => eo_preferredHost o | None => None end.

Definition or_empty (replicas : option (list Host)) : list Host := default [] replicas.

Lemma df_ready_preferred p m g : df_ready p m -> df_ready (df_update p (_filteredHosts p) g (df_index p)) m.
Proof. by intros [? ? ?]. Qed.

(** The generator that a preferred host goes before. *)
Definition plan_iterable hs p rnds (replicas : option (list Host)) : result default_plan :=
  match replicas with
  | None => Ok (LocalHosts None None 0)
  | Some replicas =>
      s ← scan_replicas hs p replicas [] None MIN_SAFE_INTEGER 0;
      let '(filtered, newlyUp, unhealthy) := s in
      replicas ← order_replicas hs p rnds filtered newlyUp unhealthy;
      Ok (ReplicasFirst replicas 0)
  end.

Lemma df_newQueryPlan_eq hs p keyspace options rnds replicas :
  plan_replicas p keyspace options = Ok replicas ->
  df_newQueryPlan hs p keyspace options rnds =
    (i ← plan_iterable hs p rnds replicas;
     Ok (match plan_preferred options with
         | Some g => (PreferredHostFirst g false i, df_update p (_filteredHosts p) (Some g) (df_index p))
         | None => (i, p)
         end)).
Proof.
  unfold plan_replicas, df_newQueryPlan, plan_preferred, ta_keyspace. intros E.
  destruct options as [o|]; [|by injection E as <-].
  destruct (eo_routingKey o) as [key|]; [|injection E as <-; by destruct (eo_preferredHost o)].
  case_match; [|injection E as <-; by destruct (eo_preferredHost o)].
  unfold _getReplicasAndLocalHosts. rewrite E. cbn [mbind result_bind]. unfold plan_iterable.
  destruct replicas as [l|]; [|by destruct (eo_preferredHost o)].
  destruct (scan_replicas _ _ _ _ _ _ _) as [[[f nu] u]|]; [|done]. cbn [mbind result_bind].
  destruct (order_replicas _ _ _ _ _ _); [|done]. cbn [mbind result_bind]. by destruct (eo_preferredHost o).
Qed.

(** The plan without a preferred host: the replicas, then the others. *)
Lemma plan_iterable_spec hs p m up healthy rnds replicas :
  answers hs p up healthy ->
  exists i reps, plan_iterable hs p rnds replicas = Ok i /\
    reps ≡ₚ List.filter (usable p up) (or_empty replicas) /\
    forall q, df_ready q m -> exists q' start, df_ready q' m /\
      generates hs q i (reps ++ List.filter (can_yield up (Some reps)) (rotate start (df_locals q m))) q'.
Proof.
  intros A. pose proof (ans_up _ _ _ _ A) as Hup. destruct replicas as [l|]; cbn [plan_iterable or_empty default from_option id].
  - destruct (scan_spec hs p up healthy l [] None MIN_SAFE_INTEGER 0 A) as (nu & u & E & Hu).
    rewrite E. cbn [app mbind result_bind].
    destruct (order_replicas_perm hs p up healthy rnds (List.filter (usable p up) l) nu u A) as (reps & E' & Hp).
    { intros N. by destruct (Hu N) as [_ ->]. }
    rewrite E'. cbn [mbind result_bind]. exists (ReplicasFirst reps 0), reps. split_and!; [done|done|].
    intros q Hq. destruct (replicas_generate hs up Hup q m reps Hq) as (q' & Hq' & G). by exists q', (Z.to_nat (df_index q)).
  - exists (LocalHosts None None 0), []. split_and!; [done|done|]. intros q Hq.
    destruct (local_generates hs up Hup q m None Hq) as (q' & Hq' & G).
    exists q', (Z.to_nat (df_index q)). split; [done|]. cbn [app]. erewrite List.filter_ext; [exact G|].
    intros h. unfold can_yield, canBeYield. by rewrite bool_decide_true by apply not_elem_of_nil.
Qed.

Lemma Lfilter_NoDup {A} (f : A -> bool) (l : list A) : NoDup l -> NoDup (List.filter f l).
Proof. intros H%NoDup_ListNoDup. by apply NoDup_ListNoDup, List.NoDup_filter. Qed.

Lemma rotate_perm {A} k (l : list A) : rotate k l ≡ₚ l.
Proof. unfold rotate. by rewrite Permutation_app_comm, take_drop. Qed.

(** The hosts of the replicas followed by the others. *)
Lemma replicas_and_others p m up reps start h :
  h ∈ reps ++ List.filter (can_yield up (Some reps)) (rotate start (df_locals p m)) <->
  h ∈ reps \/ (usable p up h = true /\ h ∈ host_values m).
Proof.
  rewrite elem_of_app, elem_of_Lfilter, elem_of_rotate. unfold df_locals. rewrite elem_of_Lfilter.
  unfold can_yield, canBeYield, usable. rewrite !andb_true_iff, bool_decide_eq_true.
  destruct (decide (h ∈ reps)); tauto.
Qed.

Lemma replicas_and_others_NoDup p m up reps start :
  NoDup reps -> NoDup (host_values m) ->
  NoDup (reps ++ List.filter (can_yield up (Some reps)) (rotate start (df_locals p m))).
Proof.
  intros H1 H2. apply NoDup_app. split_and!; [done| |].
  - intros h Hh [_ Hc]%elem_of_Lfilter. unfold can_yield, canBeYield in Hc.
    apply andb_prop in Hc as [Hc%bool_decide_eq_true _]. done.
  - apply Lfilter_NoDup. rewrite rotate_perm. by apply Lfilter_NoDup.
Qed.

(** While the hosts answer and their state does not change. *)
Lemma answered_plan (hs : host_state) (p : DefaultLoadBalancingPolicy) (m : HostMap) (up healthy : Host -> bool)
    (keyspace : option jsstr) (options : option exec_options) (rnds : list dyadic) (replicas : option (list Host))
    (A : answers hs p up healthy) (Hr : df_ready p m) (Hm : NoDup (host_values m))
    (Hrep : plan_replicas p keyspace options = Ok replicas) (Hrd : NoDup (or_empty replicas)) :
  exists i p' p'' l fuel0, df_newQueryPlan hs p keyspace options rnds = Ok (i, p') /\
    (forall fuel, (fuel0 <= fuel)%nat -> default_drain fuel hs p' i = Some (Ok l, p'')) /\ df_ready p'' m /\
    NoDup l /\
    (forall h, h ∈ l <-> plan_preferred options = Some h \/
       (usable p up h = true /\ (h ∈ or_empty replicas \/ h ∈ host_values m))) /\
    exists reps rest, reps ≡ₚ List.filter (usable p up) (or_empty replicas) /\
      l = match plan_preferred options with
          | Some g => g :: List.filter (not_host g) (reps ++ rest)
          | None => reps ++ rest
          end.
Proof.
  destruct (plan_iterable_spec hs p m up healthy rnds replicas A) as (i & reps & Ei & Hp & Hg).
  rewrite (df_newQueryPlan_eq _ _ _ _ _ replicas), Ei by done. cbn [mbind result_bind].
  assert (Hreps : forall h, h ∈ reps <-> usable p up h = true /\ h ∈ or_empty replicas).
  { intros h. rewrite Hp, elem_of_Lfilter. tauto. }
  assert (Hnd : NoDup reps) by (rewrite Hp; by apply Lfilter_NoDup).
  destruct (plan_preferred options) as [g|].
  - set (q := df_update p (_filteredHosts p) (Some g) (df_index p)).
    destruct (Hg q (df_ready_preferred p m (Some g) Hr)) as (q' & start & Hq' & G).
    change (df_locals q m) with (df_locals p m) in G. set (rest := List.filter _ _) in G.
    destruct (generates_drain hs _ _ _ _ (preferred_generates hs _ _ _ _ g G)) as [n D].
    eexists _, _, q', _, n. split; [reflexivity|]. split; [exact D|]. split_and!; [done| | |by exists reps, rest].
    + unfold rest. constructor; [|by apply Lfilter_NoDup, replicas_and_others_NoDup].
      intros [_ F]%elem_of_Lfilter. unfold not_host in F. by rewrite bool_decide_true in F.
    + intros h. unfold rest. rewrite elem_of_cons, elem_of_Lfilter, replicas_and_others, Hreps.
      unfold not_host. rewrite negb_true_iff, bool_decide_eq_false. destruct (decide (h = g)) as [->|]; [tauto|].
      assert (h = g <-> Some g = Some h) by (split; congruence). tauto.
  - destruct (Hg p Hr) as (q' & start & Hq' & G). set (rest := List.filter _ _) in G.
    destruct (generates_drain hs _ _ _ _ G) as [n D].
    eexists _, _, q', _, n. split; [reflexivity|]. split; [exact D|]. split_and!; [done| | |by exists reps, rest].
    + by apply replicas_and_others_NoDup.
    + intros h. unfold rest. rewrite replicas_and_others, Hreps. assert (None <> Some h) by done. tauto.
Qed.

(** *** The hosts of [lib/host.js] *)

(** No host of the repository says whether it is up. *)
Lemma scan_real now p replicas :
  scan_replicas (real_state now) p replicas [] None MIN_SAFE_INTEGER 0 =
    if existsb (is_filtered_local p) replicas then Throw PlainError else Ok ([], None, 0).
Proof.
  induction replicas as [|h l IH]; cbn [scan_replicas existsb]; [done|]. by destruct (is_filtered_local p h).
Qed.

Lemma iterable_real now p rnds replicas :
  plan_iterable (real_state now) p rnds replicas =
    if existsb (is_filtered_local p) (or_empty replicas) then Throw PlainError
    else Ok (match replicas with Some _ => ReplicasFirst [] 0 | None => LocalHosts None None 0 end).
Proof.
  destruct replicas as [l|]; [|done]. cbn [plan_iterable or_empty default from_option id]. rewrite scan_real.
  by destruct (existsb _ _).
Qed.

(** The generator over the local hosts throws at the first of them. *)
Lemma local_real now p m lr :
  df_ready p m -> lr ∈ [None; Some []] ->
  exists p1 p2 i1, default_step (real_state now) p (LocalHosts lr None 0) = (Ok Skip, p1, i1) /\
    default_step (real_state now) p1 i1 =
      (match df_locals p m with [] => Ok Done | _ :: _ => Throw PlainError end, p2, Finished).
Proof.
  intros [Hm Hi Hf] Hlr. cbn [default_step]. unfold local_step at 1, _getFilteredLocalHosts.
  assert (G : forall q, local_step (real_state now) q lr (Some (df_locals p m, df_index p)) 0 =
    (match df_locals p m with [] => Ok Done | _ :: _ => Throw PlainError end, q, Finished)).
  { intros q. unfold local_step. destruct (decide (df_locals p m = [])) as [->|Hne]; [done|].
    assert (Hn : 0 < Z.of_nat (length (df_locals p m))) by (destruct (df_locals p m); [done|cbn; lia]).
    rewrite (proj2 (Z.ltb_lt _ _)) by done.
    destruct (lookup_lt_is_Some_2 (df_locals p m) (Z.to_nat (Z.rem (0 + df_index p) (Z.of_nat (length (df_locals p m)))))) as [h ->].
    { pose proof (Z.rem_bound_pos (0 + df_index p) _ ltac:(lia) Hn). lia. }
    assert (C : canBeYield lr h = true) by (apply elem_of_cons in Hlr as [->|Hs%list_elem_of_singleton]; [done|by rewrite Hs]).
    rewrite C. cbn [isUp real_state]. by destruct (df_locals p m). }
  destruct (_filteredHosts p) as [l|] eqn:E; [rewrite (Hf l eq_refl)|rewrite Hm];
    unfold _getIndex; eexists _, _, _; (split; [reflexivity|]); apply G.
Qed.

(** The plan consumed: the preferred host, then nothing or the error. *)
Lemma drain_real now p m (replicas : option (list Host)) preferred :
  df_ready p m ->
  let i := match replicas with Some _ => ReplicasFirst [] 0 | None => LocalHosts None None 0 end in
  exists p'', forall fuel, (5 <= fuel)%nat ->
    default_drain fuel (real_state now) p (match preferred with Some g => PreferredHostFirst g false i | None => i end) =
      Some (match df_locals p m with [] => Ok (option_list preferred) | _ :: _ => Throw PlainError end, p'').
Proof.
  intros Hr i.
  destruct (local_real now p m (match replicas with Some _ => Some [] | None => None end) Hr) as (p1 & p2 & i1 & E1 & E2);
    [destruct replicas; [right; left|left]|].
  exists p2. intros fuel Hf. do 5 (destruct fuel as [|fuel]; [lia|]). clear Hf. subst i.
  assert (N : (@nil Host) !! Z.to_nat 0 = None) by done.
  destruct preferred as [g|], replicas as [l|]; cbn [default_drain default_step mbind option_bind option_list] in *;
    rewrite ?N; cbn [default_drain default_step mbind option_bind option_list] in *;
    rewrite ?E1; cbn [default_drain default_step mbind option_bind]; rewrite ?E2; by destruct (df_locals p m).
Qed.

(** C24: The plan of the default policy.  While the hosts answer [isUp] and the
    checks of the policy answer (those given to it, or its own, which ask
    [getInFlight] and [getResponseCount]) and their state does not change, the
    plan ends; it has the preferred host first, then the usable replicas in some
    order, then the other usable hosts of the local data center; it has exactly
    those hosts, none of them twice.  The hosts of [lib/host.js] do not answer:
    with them making a plan throws if a replica is a local host, and otherwise
    the plan yields the preferred host if there is one and then throws, or ends
    when there is no local host. *)
Theorem Default_plan (p : DefaultLoadBalancingPolicy) (m : HostMap)
    (keyspace : option jsstr) (options : option exec_options) (rnds : list dyadic) (replicas : option (list Host))
    (Hr : df_ready p m) (Hm : NoDup (host_values m))
    (Hrep : plan_replicas p keyspace options = Ok replicas) (Hrd : NoDup (or_empty replicas)) :
  (forall (hs : host_state) (up healthy : Host -> bool), answers hs p up healthy ->
   exists i p' p'' l fuel0, df_newQueryPlan hs p keyspace options rnds = Ok (i, p') /\
     (forall fuel, (fuel0 <= fuel)%nat -> default_drain fuel hs p' i = Some (Ok l, p'')) /\ df_ready p'' m /\
     NoDup l /\
     (forall h, h ∈ l <-> plan_preferred options = Some h \/
        (usable p up h = true /\ (h ∈ or_empty replicas \/ h ∈ host_values m))) /\
     exists reps rest, reps ≡ₚ List.filter (usable p up) (or_empty replicas) /\
       l = match plan_preferred options with
           | Some g => g :: List.filter (not_host g) (reps ++ rest)
           | None => reps ++ rest
           end) /\
  (forall now,
   if existsb (is_filtered_local p) (or_empty replicas)
   then df_newQueryPlan (real_state now) p keyspace options rnds = Throw PlainError
   else exists i p' p'', df_newQueryPlan (real_state now) p keyspace options rnds = Ok (i, p') /\
     forall fuel, (5 <= fuel)%nat ->
       default_drain fuel (real_state now) p' i =
         Some (match df_locals p m with
               | [] => Ok (option_list (plan_preferred options))
               | _ :: _ => Throw PlainError
               end, p'')).
Proof.
  split.
  - intros hs up healthy A. by apply answered_plan with (healthy := healthy).
  - intros now. rewrite (df_newQueryPlan_eq _ _ _ _ _ replicas), iterable_real by done.
    destruct (existsb _ _); [done|]. cbn [mbind result_bind]. destruct (plan_preferred options) as [g|].
    + destruct (drain_real now _ m replicas (Some g) (df_ready_preferred p m (Some g) Hr)) as [p'' D].
      eexists _, _, p''. split; [reflexivity|exact D].
    + destruct (drain_real now p m replicas None Hr) as [p'' D]. eexists _, _, p''. split; [reflexivity|exact D].
Qed.

(** Three or more local replicas of which none is newly up and at most half are
    unhealthy: whatever the shuffle, the unhealthy ones come last, and of the
    first two the one with fewer requests in flight is tried first. *)
Theorem Default_order (hs : host_state) (p : DefaultLoadBalancingPolicy) (up healthy : Host -> bool)
    (inFlight : Host -> Z) (rnds : list dyadic) (replicas : list Host) (u : Z)
    (A : answers hs p up healthy) (Hc : df_compare p = _compare) (Hf : forall h, getInFlight hs h = Ok (inFlight h))
    (Hn : (3 <= length replicas)%nat)
    (Hu : u = Z.of_nat (length (List.filter (fun h => negb (healthy h)) replicas)))
    (Hhalf : 2 * u <= Z.of_nat (length replicas)) :
  exists l r0 r1, order_replicas hs p rnds replicas None u = Ok l /\ l ≡ₚ replicas /\
    l !! 0%nat = Some r0 /\ l !! 1%nat = Some r1 /\ inFlight r0 <= inFlight r1 /\
    forall k h, l !! k = Some h -> healthy h = bool_decide (k < length replicas - Z.to_nat u)%nat.
Proof.
  unfold order_replicas. set (s := shuffleArray replicas rnds).
  assert (Hs : s ≡ₚ replicas) by apply shuffle_loop_perm. pose proof (Permutation_length Hs) as Hl. cbv zeta.
  rewrite (proj2 (Z.ltb_ge _ _)) by lia.
  assert (Hus : Z.of_nat (length (List.filter (unhealthy healthy) s)) = u).
  { rewrite Hu. f_equal. by apply Permutation_length, Lfilter_perm. }
  assert (G : exists s', (if (0 <? u) && (u <? Z.of_nat (length s) / 2 + 1) then _sendUnhealthyToTheBack hs p s u else Ok s) = Ok s' /\
    s' ≡ₚ s /\ forall k h, s' !! k = Some h -> unhealthy healthy h = bool_decide (length s - Z.to_nat u <= k)%nat).
  { destruct (Z.ltb_spec 0 u); cbn [andb].
    - rewrite (proj2 (Z.ltb_lt _ _)) by (apply Z.lt_succ_r, Z.div_le_lower_bound; lia).
      by apply (sendUnhealthyToTheBack_spec hs p up).
    - exists s. split_and!; [done|done|]. intros k h Hk. pose proof (lookup_lt_Some _ _ _ Hk).
      rewrite bool_decide_false by lia. destruct (unhealthy healthy h) eqn:E; [|done].
      assert (F : h ∈ List.filter (unhealthy healthy) s) by (apply elem_of_Lfilter; split; [by eapply list_elem_of_lookup_2|done]).
      destruct (List.filter (unhealthy healthy) s); [by apply elem_of_nil in F|]. cbn in Hus. lia. }
  destruct G as (s' & -> & Hp & Hh). cbn [mbind result_bind]. pose proof (Permutation_length Hp) as Hl'.
  destruct (lookup_lt_is_Some_2 s' 0) as [r0 E0]; [lia|]. destruct (lookup_lt_is_Some_2 s' 1) as [r1 E1]; [lia|].
  rewrite E0, E1, Hc. unfold _compare. rewrite !Hf. cbn [mbind result_bind].
  assert (Hk : forall k h, s' !! k = Some h -> healthy h = bool_decide (k < length replicas - Z.to_nat u)%nat).
  { intros k h H. specialize (Hh k h H). unfold unhealthy in Hh. apply (f_equal negb) in Hh. rewrite negb_involutive in Hh.
    rewrite Hh, <- bool_decide_not. apply bool_decide_ext. lia. }
  destruct (Z.ltb_spec (inFlight r1) (inFlight r0)).
  - exists (swap s' 0 1), r1, r0. cbn [Z.ltb Z.compare]. split_and!; [done|by rewrite swap_perm, Hp| | |lia|].
    + by rewrite swap_lookup by lia.
    + by rewrite swap_lookup by lia.
    + intros k h H'. rewrite swap_lookup in H' by lia.
      destruct (decide (k = 1%nat)) as [->|]; [rewrite (Hk _ _ H'); apply bool_decide_ext; lia|].
      destruct (decide (k = 0%nat)) as [->|]; [rewrite (Hk _ _ H'); apply bool_decide_ext; lia|by apply Hk].
  - exists s', r0, r1. cbn [Z.ltb Z.compare]. split_and!; [done|by rewrite Hp|done|done|lia|done].
Qed.

(** *** A cluster of five nodes *)

Definition five_nodes : HostMap :=
  HostMap_fromRust [node "a" "dc1"; node "b" "dc1"; node "c" "dc1"; node "d" "dc1"; node "e" "dc2"]%string.
Definition busy_b (h : Host) : bool := bool_decide (h = node_host "b" "dc1").

(** All are up; [b] has many requests and no responses. *)
Definition five_state : host_state :=
  mkHostState (fun _ => Ok true) (fun _ => None) (fun h => Ok (if busy_b h then 20 else 3)) (fun _ => Ok 0) 1000.

Definition five_replicas : list Host := [node_host "b" "dc1"; node_host "c" "dc1"; node_host "a" "dc1"].
Definition five_policy : DefaultLoadBalancingPolicy :=
  snd (df_init (DefaultLoadBalancingPolicy_new ArgNone) (client_of "dc1" five_replicas) five_nodes).

Lemma five_answers : answers five_state five_policy (fun _ => true) (fun h => negb (busy_b h)).
Proof.
  constructor; [done| |by exists None|].
  - intros h. change (_healthCheck five_state h = Ok (negb (busy_b h))). unfold _healthCheck.
    cbn [getInFlight getResponseCount five_state mbind result_bind]. by destruct (busy_b h).
  - intros a b. eexists. reflexivity.
Qed.

Lemma five_ready : df_ready five_policy five_nodes.
Proof. constructor; [reflexivity|vm_compute; split; [discriminate|reflexivity]|discriminate]. Qed.

Lemma five_distinct : NoDup (host_values five_nodes).
Proof. apply (NoDup_fmap_1 host_address), fromRust_distinct. Qed.

Lemma Default_plan_witness :
  let options := Some (mkExecOptions (Some [1; 2]) (Some (str "ks")) (Some (node_host "e" "dc2"))) in
  (exists i p' p'' l fuel0, df_newQueryPlan five_state five_policy None options [] = Ok (i, p') /\
    (forall fuel, (fuel0 <= fuel)%nat -> default_drain fuel five_state p' i = Some (Ok l, p'')) /\
    NoDup l /\ node_host "e" "dc2" ∈ l /\ node_host "d" "dc1" ∈ l /\
    fst <$> default_drain 30 five_state p' i =
      Some (Ok (map (fun x => node_host x (if bool_decide (x = "e"%string) then "dc2" else "dc1")%string) ["e"; "a"; "c"; "b"; "d"]%string))) /\
  df_newQueryPlan (real_state 5) five_policy None options [] = Throw PlainError.
Proof.
  intros options.
  destruct (Default_plan five_policy five_nodes None options [] (Some five_replicas)
              five_ready five_distinct) as [Hans Hreal].
  - reflexivity.
  - apply (bool_decide_unpack _). vm_compute. done.
  - destruct (Hans _ _ _ five_answers) as (i & p' & p'' & l & f & E & D & _ & N & H & _).
    split; [|exact (Hreal 5)]. exists i, p', p'', l, f. split_and!; [exact E|exact D|exact N| | |].
    + apply H. left. reflexivity.
    + apply H. right. split; [reflexivity|]. right. apply (bool_decide_unpack _). vm_compute. done.
    + vm_compute in E. injection E as <- <-. vm_compute. reflexivity.
Defined.

Lemma Default_order_witness :
  exists l r0 r1, order_replicas five_state five_policy [] five_replicas None 1 = Ok l /\ l ≡ₚ five_replicas /\
    l !! 0%nat = Some r0 /\ l !! 1%nat = Some r1 /\
    forall k h, l !! k = Some h -> negb (busy_b h) = bool_decide (k < 3 - 1)%nat.
Proof.
  destruct (Default_order five_state five_policy (fun _ => true) (fun h => negb (busy_b h)) (fun h => if busy_b h then 20 else 3) []
    five_replicas 1 five_answers) as (l & r0 & r1 & H1 & H2 & H3 & H4 & _ & H5); [reflexivity|reflexivity|cbn; lia|reflexivity|cbn; lia|].
  by exists l, r0, r1.
Defined.
