(* ===== verification/JsDouble.v ===== *)
(** The IEEE 754 bit patterns of Numbers, as [writeDoubleBE], [writeFloatBE]
    and their readers of Node's Buffer use them.

    The formats are given by the number of mantissa and exponent bits.  The
    type [number] has one zero; a Number [m / 2^e] is in lowest terms. *)
From S2P Require Import Prelude.
From S2P Require Import JsNum.

#[export] Instance number_eq_dec : EqDecision number.
Proof. solve_decision. Defined.

Section format.
Context (mb eb : Z).

Definition ieee_bias : Z := 2 ^ (eb - 1) - 1.
Definition ieee_inf : Z := (2 ^ eb - 1) * 2 ^ mb.
Definition ieee_sign (negative : bool) : Z := if negative then 2 ^ (mb + eb) else 0.

(** The exponent of a unit in the last place of [a / 2^e]. *)
Definition ieee_ulp (a e : Z) : Z := Z.max (Z.log2 a - e) (1 - ieee_bias) - mb.

(** The bits of the magnitude [a / 2^e], rounded to nearest, ties to even; too
    large ones are infinite. *)
Definition ieee_magnitude (a e : Z) : Z :=
  let q := ieee_ulp a e in
  let s := round_half_even (a * 2 ^ Z.max 0 (- (e + q))) (2 ^ Z.max 0 (e + q)) in
  Z.min ieee_inf ((q + mb + ieee_bias - 1) * 2 ^ mb + s).

Definition ieee_encode (n : number) : Z :=
  match n with
  | NaN => ieee_inf + 2 ^ (mb - 1)
  | Infinity negative => ieee_sign negative + ieee_inf
  | Fin m e => if m =? 0 then 0 else ieee_sign (m <? 0) + ieee_magnitude (Z.abs m) (Z.of_N e)
  end.

(** [s / 2^e] in lowest terms. *)
Fixpoint lowest (fuel : nat) (s e : Z) : number :=
  match fuel with
  | O => Fin s (Z.to_N e)
  | S fuel' => if Z.even s && (0 <? e) then lowest fuel' (s / 2) (e - 1) else Fin s (Z.to_N e)
  end.

(** [s * 2^q] *)
Definition dyadic_number (s q : Z) : number :=
  if s =? 0 then Int 0
  else if 0 <=? q then Int (s * 2 ^ q)
  else lowest (Z.to_nat (- q)) s (- q).

Definition ieee_decode (bits : Z) : number :=
  let negative := 2 ^ (mb + eb) <=? bits in
  let biased := bits / 2 ^ mb mod 2 ^ eb in
  let mant := bits mod 2 ^ mb in
  if biased =? 2 ^ eb - 1 then if mant =? 0 then Infinity negative else NaN
  else
    let s := if biased =? 0 then mant else mant + 2 ^ mb in
    let q := Z.max biased 1 - ieee_bias - mb in
    dyadic_number (if negative then - s else s) q.

(** *** Reading back *)

Hypothesis mb_pos : 1 <= mb.
Hypothesis eb_pos : 2 <= eb.

Lemma pow_split a b : 0 <= a -> 0 <= b -> 2 ^ (a + b) = 2 ^ a * 2 ^ b.
Proof. intros. apply Z.pow_add_r; lia. Qed.

(** The value does not change in [lowest]. *)
Lemma lowest_value fuel s e : 0 <= e -> s <> 0 ->
  exists k, 0 <= k <= e /\ lowest fuel s e = Fin (s / 2 ^ k) (Z.to_N (e - k)) /\ s = s / 2 ^ k * 2 ^ k.
Proof.
  revert s e. induction fuel as [|fuel IH]; intros s e He Hs; cbn [lowest].
  - exists 0. rewrite Z.div_1_r, Z.sub_0_r. split; [lia|]. split; [done|]. cbn. lia.
  - destruct (Z.even s && (0 <? e)) eqn:C.
    + apply andb_prop in C as [C1 C2%Z.ltb_lt]. apply Z.even_spec in C1 as [t ->].
      rewrite (Z.mul_comm 2 t), Z.div_mul by lia.
      destruct (IH t (e - 1) ltac:(lia) ltac:(lia)) as (k & Hk & E & V). exists (k + 1).
      assert (D : t * 2 / 2 ^ (k + 1) = t / 2 ^ k).
      { rewrite (pow_split k 1) by lia. change (2 ^ 1) with 2. apply Z.div_mul_cancel_r; [|lia].
        apply Z.pow_nonzero; lia. }
      rewrite D, E. replace (e - 1 - k) with (e - (k + 1)) by lia. split; [lia|]. split; [done|].
      rewrite (pow_split k 1) by lia. change (2 ^ 1) with 2. rewrite V at 1. lia.
    + exists 0. rewrite Z.div_1_r, Z.sub_0_r. split; [lia|]. split; [done|]. cbn. lia.
Qed.

(** The magnitude of an exact number: [s] in [0, 2^(mb+1)) units. *)
Lemma ieee_magnitude_exact a e s biased :
  0 < a -> 0 <= e -> 0 <= biased < 2 ^ eb - 1 ->
  (if biased =? 0 then 0 < s < 2 ^ mb else 2 ^ mb <= s < 2 * 2 ^ mb) ->
  let q := Z.max biased 1 - ieee_bias - mb in
  a * 2 ^ Z.max 0 (- (e + q)) = s * 2 ^ Z.max 0 (e + q) ->
  ieee_magnitude a e = biased * 2 ^ mb + (if biased =? 0 then s else s - 2 ^ mb).
Proof.
  intros Ha He Hb Hs q Hv.
  assert (Hmb : 0 < 2 ^ mb) by (apply Z.pow_pos_nonneg; lia).
  assert (Hs0 : 0 < s) by (destruct (biased =? 0); lia).
  assert (Hlog : Z.log2 a + Z.max 0 (- (e + q)) = Z.log2 s + Z.max 0 (e + q)).
  { pose proof (f_equal Z.log2 Hv) as L. rewrite !Z.log2_mul_pow2 in L by lia. lia. }
  assert (Eq : ieee_ulp a e = q).
  { unfold ieee_ulp. destruct (Z.eqb_spec biased 0) as [->|Hn].
    - assert (Z.log2 s < mb) by (apply Z.log2_lt_pow2; lia). subst q. lia.
    - assert (Z.log2 s = mb).
      { apply Z.log2_unique; [lia|]. rewrite Z.pow_succ_r by lia. lia. }
      subst q. lia. }
  unfold ieee_magnitude. rewrite Eq. cbv zeta. rewrite Hv, round_half_even_exact by (apply Z.pow_pos_nonneg; lia).
  assert (Hp : q + mb + ieee_bias - 1 = Z.max biased 1 - 1) by (subst q; lia). rewrite Hp.
  assert (Hinf : ieee_inf = (2 ^ eb - 1) * 2 ^ mb) by done. rewrite Hinf.
  destruct (Z.eqb_spec biased 0) as [->|Hn].
  - change (Z.max 0 1 - 1) with 0. rewrite Z.min_r; [lia|]. nia.
  - rewrite Z.max_l by lia. rewrite Z.min_r; [lia|]. nia.
Qed.

(** Every pattern that is not a NaN or a negative zero is written back. *)
Lemma ieee_encode_decode bits :
  0 <= bits < 2 ^ (mb + eb + 1) -> ieee_decode bits <> NaN -> bits <> 2 ^ (mb + eb) ->
  ieee_encode (ieee_decode bits) = bits.
Proof.
  intros Hb Hnan Hz. unfold ieee_decode in *.
  assert (Hmb : 0 < 2 ^ mb) by (apply Z.pow_pos_nonneg; lia).
  assert (Heb : 2 <= 2 ^ eb) by (transitivity (2 ^ 1); [done|]; apply Z.pow_le_mono_r; lia).
  rewrite (pow_split (mb + eb) 1) in Hb by lia. rewrite (pow_split mb eb) in * by lia. change (2 ^ 1) with 2 in Hb.
  set (M := 2 ^ mb) in *. set (E := 2 ^ eb) in *.
  set (neg := M * E <=? bits) in *. set (biased := bits / M mod E) in *. set (mant := bits mod M) in *.
  assert (Hmant : 0 <= mant < M) by (apply Z.mod_pos_bound; lia).
  assert (Hbi : 0 <= biased < E) by (apply Z.mod_pos_bound; lia).
  assert (Hbits : bits = (if neg then M * E else 0) + biased * M + mant).
  { pose proof (Z.div_mod bits M ltac:(lia)). pose proof (Z.div_mod (bits / M) E ltac:(lia)) as D.
    fold mant in H. fold biased in D. unfold neg. destruct (Z.leb_spec (M * E) bits).
    - assert (bits / M / E = 1) as Q; [|rewrite Q in D; nia].
      rewrite Z.div_div by lia. symmetry. apply Z.div_unique with (bits - M * E); lia.
    - assert (bits / M / E = 0) as Q; [|rewrite Q in D; nia].
      rewrite Z.div_div by lia. apply Z.div_small. lia. }
  destruct (Z.eqb_spec biased (E - 1)) as [Hmax|Hmax].
  - destruct (Z.eqb_spec mant 0) as [Hm0|]; [|done]. cbn [ieee_encode]. unfold ieee_sign, ieee_inf.
    rewrite (pow_split mb eb) by lia. fold M E. destruct neg; nia.
  - set (s := if biased =? 0 then mant else mant + M). set (q := Z.max biased 1 - ieee_bias - mb).
    destruct (Z.eqb_spec s 0) as [Hs|Hs].
    { assert (biased = 0 /\ mant = 0) as [B0 M0] by (unfold s in Hs; destruct (Z.eqb_spec biased 0); lia).
      rewrite Hs. destruct neg; [rewrite B0, M0 in Hbits; lia|]. cbn. lia. }
    assert (Hs' : if biased =? 0 then 0 < s < M else M <= s < 2 * M).
    { unfold s in *. destruct (Z.eqb_spec biased 0); lia. }
    assert (G : forall e m, m <> 0 -> (m <? 0) = neg -> 0 <= e ->
      Z.abs m * 2 ^ Z.max 0 (- (e + q)) = s * 2 ^ Z.max 0 (e + q) -> ieee_encode (Fin m (Z.to_N e)) = bits).
    { intros e m Hm Hneg He Hv. cbn [ieee_encode]. destruct (Z.eqb_spec m 0); [lia|]. rewrite Hneg, Z2N.id by lia.
      rewrite (ieee_magnitude_exact (Z.abs m) e s biased) by (done || lia). fold M.
      unfold ieee_sign. rewrite (pow_split mb eb) by lia. fold M E.
      unfold s. destruct (biased =? 0), neg; lia. }
    assert (Hsgn : 0 < s) by (destruct (biased =? 0); lia).
    set (t := if neg then - s else s). assert (Ht : t <> 0 /\ Z.abs t = s /\ (t <? 0) = neg).
    { unfold t. destruct neg; split_and!; lia. }
    destruct Ht as (Ht0 & Hta & Htn). unfold dyadic_number. destruct (Z.eqb_spec t 0); [lia|].
    destruct (Z.leb_spec 0 q) as [Hq|Hq].
    + assert (0 < 2 ^ q) by (apply Z.pow_pos_nonneg; lia).
      change (Int (t * 2 ^ q)) with (Fin (t * 2 ^ q) (Z.to_N 0)). apply G; [nia| |lia|].
      * rewrite <- Htn. destruct (Z.ltb_spec t 0); [apply Z.ltb_lt|apply Z.ltb_ge]; nia.
      * rewrite Z.abs_mul, Hta, (Z.abs_eq (2 ^ q)) by lia. replace (Z.max 0 (- (0 + q))) with 0 by lia. replace (Z.max 0 (0 + q)) with q by lia. lia.
    + destruct (lowest_value (Z.to_nat (- q)) t (- q) ltac:(lia) Ht0) as (k & Hk & -> & V).
      assert (0 < 2 ^ k) by (apply Z.pow_pos_nonneg; lia).
      apply G; [nia| |lia|].
      * rewrite <- Htn. destruct (Z.ltb_spec t 0); [apply Z.ltb_lt|apply Z.ltb_ge]; nia.
      * replace (Z.max 0 (- (- q - k + q))) with k by lia. replace (Z.max 0 (- q - k + q)) with 0 by lia.
        rewrite <- Hta. rewrite V at 2. rewrite Z.abs_mul, (Z.abs_eq (2 ^ k)) by lia. lia.
Qed.
End format.

(** ** Doubles and floats *)

Definition double_bits : number -> Z := ieee_encode 52 11.
Definition double_of_bits : Z -> number := ieee_decode 52 11.
Definition float_bits : number -> Z := ieee_encode 23 8.
Definition float_of_bits : Z -> number := ieee_decode 23 8.

(** The Numbers that are doubles, apart from NaN. *)
Definition is_double (n : number) : Prop :=
  exists bits, 0 <= bits < 2 ^ 64 /\ bits <> 2 ^ 63 /\ n = double_of_bits bits /\ n <> NaN.
Definition is_float (n : number) : Prop :=
  exists bits, 0 <= bits < 2 ^ 32 /\ bits <> 2 ^ 31 /\ n = float_of_bits bits /\ n <> NaN.

Lemma double_roundtrip n : is_double n -> 0 <= double_bits n < 2 ^ 64 /\ double_of_bits (double_bits n) = n.
Proof.
  intros (bits & Hb & Hz & -> & Hn). unfold double_bits, double_of_bits in *.
  rewrite ieee_encode_decode by (done || lia). done.
Qed.

Lemma float_roundtrip n : is_float n -> 0 <= float_bits n < 2 ^ 32 /\ float_of_bits (float_bits n) = n.
Proof.
  intros (bits & Hb & Hz & -> & Hn). unfold float_bits, float_of_bits in *.
  rewrite ieee_encode_decode by (done || lia). done.
Qed.

Example double_bits_examples :
  map double_bits [Int 1; Fin (-5) 1; Fin 1 1074; Fin 3 1074; Int (2 ^ 1024)] =
    [0x3ff0000000000000; 0xc004000000000000; 1; 3; 0x7ff0000000000000] /\
  float_bits (Fin 3602879701896397 55) = 0x3dcccccd.
Proof. split; vm_compute; reflexivity. Qed.
