(* ===== verification/TypeNames.v ===== *)
(** The column types and their names: [dataTypes] and [getDataTypeNameByCode] of
    [lib/types/index.js], and the parsers of type names of [lib/encoder.js]
    ([parseFqTypeName], [parseTypeName], [parseKeyTypes]).

    Indexes into a name are the code's; a length is a [Z], because cutting a
    malformed name can make it negative.  The options [frozen] and [reversed] of
    a type are not used by the encoder and are left out. *)
From S2P Require Import Prelude.
From S2P Require Import JsNum.
From S2P Require Import JsStr.
From S2P Require Import Uuid.
From S2P Require Import Utils.

(** ** Data types *)

Definition dataTypes : list (string * Z) :=
  [("custom", 0); ("ascii", 1); ("bigint", 2); ("blob", 3); ("boolean", 4); ("counter", 5); ("decimal", 6);
   ("double", 7); ("float", 8); ("int", 9); ("text", 10); ("timestamp", 11); ("uuid", 12); ("varchar", 13);
   ("varint", 14); ("timeuuid", 15); ("inet", 16); ("date", 17); ("time", 18); ("smallint", 19); ("tinyint", 20);
   ("duration", 21); ("list", 32); ("map", 33); ("set", 34); ("udt", 48); ("tuple", 49)]%string.

(** [dataTypes[name]] *)
Definition dataType_code (name : jsstr) : option Z :=
  snd <$> find (fun p => bool_decide (str p.1 = name)) dataTypes.

(** [_dataTypesByCode] *)
Definition dataTypesByCode (code : Z) : option jsstr :=
  (fun p => str p.1) <$> find (fun p => p.2 =? code) dataTypes.

(** What the driver knows of a column's type.  [TSimple] is a code without
    [info]; [TUdtName] is a user-defined type of which only the name is known;
    [TCustom] is a custom type with its name. *)
Inductive column_type :=
  | TSimple (code : Z)
  | TList (t : column_type)
  | TSet (t : column_type)
  | TMap (k v : column_type)
  | TTuple (ts : list column_type)
  | TUdt (keyspace name : jsstr) (fields : list (jsstr * column_type))
  | TUdtName (name : jsstr)
  | TVector (t : column_type) (dimension : number)
  | TCustom (info : jsstr).

Definition type_code (t : column_type) : Z :=
  match t with
  | TSimple c => c
  | TList _ => 32 | TMap _ _ => 33 | TSet _ => 34
  | TUdt _ _ _ | TUdtName _ => 48 | TTuple _ => 49
  | TVector _ _ | TCustom _ => 0
  end.

(** A Number as text, as far as the names need it. *)
Definition number_text (n : number) : result jsstr :=
  match n with
  | NaN => Ok (str "NaN")
  | Fin m 0 => Ok (num_to_string 10 m)
  | _ => Throw Unmodelled
  end.

Definition angle (name inner : jsstr) : jsstr := name ++ str "<" ++ inner ++ str ">".

Fixpoint getDataTypeNameByCode (item : column_type) : result jsstr :=
  match dataTypesByCode (type_code item) with
  | None => Throw ArgumentError
  | Some typeName =>
      match item with
      | TSimple _ | TCustom _ => Ok typeName
      | TUdtName _ => Throw Unmodelled
      | TVector t n =>
          sub ← getDataTypeNameByCode t;
          dim ← number_text n;
          Ok (angle (str "vector") (sub ++ str ", " ++ dim))
      | TMap k v =>
          k ← getDataTypeNameByCode k;
          v ← getDataTypeNameByCode v;
          Ok (angle typeName (k ++ str ", " ++ v))
      | TTuple ts =>
          names ← traverse id (map getDataTypeNameByCode ts);
          Ok (angle typeName (join (str ", ") names))
      | TList t | TSet t => sub ← getDataTypeNameByCode t; Ok (angle typeName sub)
      | TUdt _ name _ => Ok name
      end
  end.

(** ** [getByName] *)

Definition starts_with (prefix s : jsstr) : bool := bool_decide (take (length prefix) s = prefix).

Definition has_line_break (s : jsstr) : bool := existsb (fun c => (code c =? 10) || (code c =? 13)) s.

(** The part of [s] between [prefix] and a final [>] that is not empty and has
    no line break. *)
Definition in_angles (prefix s : jsstr) : option jsstr :=
  if starts_with prefix s && char_is s (length s - 1) ">"%char && (length prefix + 1 <? length s)%nat
  then
    let inner := substring s (length prefix) (length s - 1) in
    if has_line_break inner then None else Some inner
  else None.

(** The last comma of [s] with something behind it, and the parts around it. *)
Fixpoint last_comma (s : jsstr) : option (jsstr * jsstr) :=
  match s with
  | [] => None
  | c :: s' =>
      match last_comma s' with
      | Some (a, b) => Some (c :: a, b)
      | None => if bool_decide (c = ","%char) && negb (bool_decide (s' = [])) then Some ([], s') else None
      end
  end.

Fixpoint skip_spaces (s : jsstr) : jsstr :=
  match s with c :: s' => if bool_decide (c = " "%char) then skip_spaces s' else s | [] => [] end.

(** [(\d+)\s*] at the end of the name of a vector, behind [\s*]. *)
Definition dimension_text (s : jsstr) : option jsstr :=
  let d := trim s in if negb (bool_decide (d = [])) && forallb is_digit d then Some d else None.

Definition simple_by_name (name : jsstr) : result column_type :=
  match dataType_code name with Some c => Ok (TSimple c) | None => Throw TypeError end.

Fixpoint getByName_loop (fuel : nat) (name : jsstr) : result column_type :=
  match fuel with
  | O => Throw OutOfFuel
  | S fuel' =>
      let name := toLowerCase name in
      let angled := match index_of "<"%char name with Some (S _) => true | _ => false end in
      if negb angled then simple_by_name name
      else
        match in_angles (str "list<") name with
        | Some inner => TList <$> getByName_loop fuel' inner
        | None =>
        match in_angles (str "set<") name with
        | Some inner => TSet <$> getByName_loop fuel' inner
        | None =>
        match in_angles (str "map<") name ≫= last_comma with
        | Some (k, v) =>
            k ← getByName_loop fuel' (skip_spaces k);
            v ← getByName_loop fuel' (skip_spaces v);
            Ok (TMap k v)
        | None =>
        match in_angles (str "udt<") name with
        | Some inner => Ok (TUdtName inner)
        | None =>
        match in_angles (str "tuple<") name with
        | Some inner => TTuple <$> traverse (fun x => getByName_loop fuel' (trim x)) (split_on ","%char inner)
        | None =>
        if starts_with (str "vector<") name && has_line_break name then Throw Unmodelled else
        match in_angles (str "vector<") name ≫= last_comma with
        | Some (t, d) =>
            match dimension_text d with
            | Some d => t ← getByName_loop fuel' (trim_start t); Ok (TVector t (parseInt d 10))
            | None => simple_by_name name
            end
        | None => simple_by_name name
        end end end end end end
  end.

Definition getByName (name : jsstr) : result column_type := getByName_loop (S (length name)) name.

(** ** Parameters of a type name *)

(** [value.substr(start, length)] *)
Definition substr_z (value : jsstr) (start : nat) (length : Z) : jsstr := substr value start (Z.to_nat length).

(** The loop of [parseParams] for [n] more characters. *)
Fixpoint params_loop (value : jsstr) (open close : ascii) (n i paramStart : nat) (level : Z) (types : list jsstr)
    : list jsstr * nat :=
  match n with
  | O => (types, paramStart)
  | S n' =>
      let level := if char_is value i open then level + 1 else level in
      let level := if char_is value i close then level - 1 else level in
      if (level =? 0) && char_is value i ","%char then
        params_loop value open close n' (S i) (S i) level (types ++ [substr value paramStart (i - paramStart)])
      else params_loop value open close n' (S i) paramStart level types
  end.

Definition parseParams (value : jsstr) (startIndex : nat) (length : Z) (open close : ascii) : list jsstr :=
  let '(types, paramStart) := params_loop value open close (Z.to_nat length) startIndex startIndex 0 [] in
  types ++ [substr_z value paramStart (length - (Z.of_nat paramStart - Z.of_nat startIndex))].

(** ** Fully qualified class names *)

Definition marshal (name : string) : jsstr := str "org.apache.cassandra.db.marshal." ++ str name.

Definition singleTypeNames : list (jsstr * Z) :=
  [(marshal "UTF8Type", 13); (marshal "AsciiType", 1); (marshal "UUIDType", 12); (marshal "TimeUUIDType", 15);
   (marshal "Int32Type", 9); (marshal "BytesType", 3); (marshal "FloatType", 8); (marshal "DoubleType", 7);
   (marshal "BooleanType", 4); (marshal "InetAddressType", 16); (marshal "SimpleDateType", 17);
   (marshal "TimeType", 18); (marshal "ShortType", 19); (marshal "ByteType", 20); (marshal "DateType", 11);
   (marshal "TimestampType", 11); (marshal "LongType", 2); (marshal "DecimalType", 6); (marshal "IntegerType", 14);
   (marshal "CounterColumnType", 5)].

Definition singleFqTypeNamesLength : Z :=
  foldl (fun previous p => Z.max previous (Z.of_nat (length p.1))) 0 singleTypeNames.

Definition customTypeNames_duration : jsstr := marshal "DurationType".
Definition customTypeNames_vector : jsstr := marshal "VectorType".

(** [typeName.indexOf(prefix, start) === start] *)
Definition has_at (prefix typeName : jsstr) (start : nat) : bool :=
  (start <=? length typeName)%nat && starts_with prefix (drop start typeName).

(** [typeName.indexOf(prefix)] *)
Fixpoint index_of_str (prefix s : jsstr) : option nat :=
  if starts_with prefix s then Some O
  else match s with [] => None | _ :: s' => S <$> index_of_str prefix s' end.

(** Bytes as text in UTF-8; only text in Latin-1 has a value in the model. *)
Fixpoint utf8_decode (bytes : list Z) : result jsstr :=
  match bytes with
  | [] => Ok []
  | b :: rest =>
      if b <? 128 then s ← utf8_decode rest; Ok (chr b :: s)
      else
        match rest with
        | c :: rest' =>
            if ((b =? 194) || (b =? 195)) && (128 <=? c) && (c <? 192)
            then s ← utf8_decode rest'; Ok (chr ((b - 192) * 64 + (c - 128)) :: s)
            else Throw Unmodelled
        | [] => Throw Unmodelled
        end
  end.

(** [Buffer.from(s, "hex").toString()] *)
Definition hex_text (s : jsstr) : result jsstr := utf8_decode (bytes_of_hex s).

(** A cursor moved over the name [prefix] and the bracket behind it. *)
Definition across (prefix : jsstr) (startIndex : nat) (len : Z) : nat * Z :=
  ((startIndex + length prefix + 1)%nat, len - (Z.of_nat (length prefix) + 2)).

(** The vector type with two arguments that [resolve] makes. *)
Definition parseVectorTypeArgs (typeName stringToExclude : jsstr) (resolve : jsstr -> result column_type)
    : result column_type :=
  let argsLength := Z.of_nat (length typeName) - (Z.of_nat (length stringToExclude) + 2) in
  match parseParams typeName (S (length stringToExclude)) argsLength "("%char ")"%char with
  | [a; b] => t ← resolve (trim a); Ok (TVector t (parseInt (trim b) 10))
  | _ => Throw TypeError
  end.

Section fq.
(** The recursive call, on a parameter of the name. *)
Context (parse : jsstr -> nat -> Z -> result column_type).

Definition parse_whole (p : jsstr) : result column_type := parse p 0 0.

Definition parse_udt_field (p : jsstr) : result (jsstr * column_type) :=
  let separatorIndex := match index_of ":"%char p with Some i => Z.of_nat i | None => -1 end in
  let behind := Z.to_nat (separatorIndex + 1) in
  fieldType ← parse p behind (Z.of_nat (length p) - (separatorIndex + 1));
  name ← hex_text (substr_z p 0 separatorIndex);
  Ok (name, fieldType).

Definition _parseUdtName (typeName : jsstr) (startIndex : nat) (length : Z) : result column_type :=
  match parseParams typeName startIndex length "("%char ")"%char with
  | keyspace :: name :: fields =>
      name ← hex_text name;
      fields ← traverse parse_udt_field fields;
      Ok (TUdt keyspace name fields)
  | _ => Throw TypeError
  end.

Definition single_fq (typeName : jsstr) : result column_type :=
  match find (fun p => bool_decide (p.1 = typeName)) singleTypeNames with
  | Some (_, c) => Ok (TSimple c)
  | None => if bool_decide (typeName = customTypeNames_duration) then Ok (TSimple 21) else Throw TypeError
  end.

(** The complex types, with the cursor behind [reversed] and [frozen]. *)
Definition complex_fq (typeName : jsstr) (startIndex : nat) (len : Z) : result column_type :=
  let params prefix := let '(i, l) := across prefix startIndex len in parseParams typeName i l "("%char ")"%char in
  if has_at (marshal "ListType") typeName startIndex then
    match params (marshal "ListType") with [p] => TList <$> parse_whole p | _ => Throw TypeError end
  else if has_at (marshal "SetType") typeName startIndex then
    match params (marshal "SetType") with [p] => TSet <$> parse_whole p | _ => Throw TypeError end
  else if has_at (marshal "MapType") typeName startIndex then
    match params (marshal "MapType") with
    | [p; q] => k ← parse_whole p; v ← parse_whole q; Ok (TMap k v)
    | _ => Throw TypeError
    end
  else if has_at (marshal "UserType") typeName startIndex then
    let '(i, l) := across (marshal "UserType") startIndex len in _parseUdtName typeName i l
  else if has_at (marshal "TupleType") typeName startIndex then
    TTuple <$> traverse parse_whole (params (marshal "TupleType"))
  else if has_at customTypeNames_vector typeName startIndex then
    parseVectorTypeArgs typeName customTypeNames_vector parse_whole
  else Ok (TCustom (substr_z typeName startIndex len)).
End fq.

(** A length of 0 is replaced by that of the name. *)
Definition length_or (typeName : jsstr) (len : Z) : Z := if len =? 0 then Z.of_nat (length typeName) else len.

(** Every parameter is shorter than the name. *)
Fixpoint parseFq_loop (fuel : nat) (typeName : jsstr) (startIndex : nat) (len : Z) : result column_type :=
  match fuel with
  | O => Throw OutOfFuel
  | S fuel' =>
      let len := length_or typeName len in
      let '(startIndex, len) :=
        if (Z.of_nat (length (marshal "ReversedType")) <? len) &&
           bool_decide (index_of_str (marshal "ReversedType") typeName = Some startIndex)
        then across (marshal "ReversedType") startIndex len else (startIndex, len) in
      let '(startIndex, len) :=
        if (Z.of_nat (length (marshal "FrozenType")) <? len) && has_at (marshal "FrozenType") typeName startIndex
        then across (marshal "FrozenType") startIndex len else (startIndex, len) in
      if bool_decide (typeName = marshal "EmptyType") then Ok (TCustom (str "empty"))
      else if len <=? singleFqTypeNamesLength then
        single_fq (if (0 <? startIndex)%nat then substr_z typeName startIndex len else typeName)
      else complex_fq (parseFq_loop fuel') typeName startIndex len
  end.

(** [parseFqTypeName(typeName)] *)
Definition parseFqTypeName (typeName : jsstr) : result column_type :=
  parseFq_loop (S (length typeName)) typeName 0 0.

(** ** Names in CQL *)

Definition quote : ascii := chr 34.

Section cql.
(** Finds the fields of a user-defined type; [None] when it is not passed. *)
Context (udtResolver : option (jsstr -> result (option (list (jsstr * column_type))))) (keyspace : jsstr).
Context (parse : jsstr -> result column_type).

(** Two double quotes, the first time they occur, become one. *)
Fixpoint unescape_quotes (s : jsstr) : jsstr :=
  match s with
  | c :: (d :: s') as rest =>
      if bool_decide (c = quote) && bool_decide (d = quote) then d :: s' else c :: unescape_quotes rest
  | _ => s
  end.

(** A type that is not a collection. *)
Definition simple_cql (typeName : jsstr) (startIndex : nat) (len : Z) : result column_type :=
  let quoted := has_at [quote] typeName startIndex in
  let startIndex := if quoted then S startIndex else startIndex in
  let len := if quoted then len - 2 else len in
  let typeName := if (0 <? startIndex)%nat then substr_z typeName startIndex len else typeName in
  let typeName := if quoted then unescape_quotes typeName else typeName in
  match dataType_code typeName with
  | Some c => Ok (TSimple c)
  | None =>
      if bool_decide (typeName = str "duration") then Ok (TCustom customTypeNames_duration)
      else if bool_decide (typeName = str "empty") then Ok (TCustom (str "empty"))
      else
        match udtResolver with
        | None => Throw TypeError
        | Some resolver =>
            udtInfo ← resolver typeName;
            match udtInfo with
            | Some fields => Ok (TUdt keyspace typeName fields)
            | None => Throw TypeError
            end
        end
  end.

Definition complex_cql (parse_vector : jsstr -> result column_type) (typeName : jsstr) (startIndex : nat) (len : Z)
    : result column_type :=
  let params prefix := let '(i, l) := across prefix startIndex len in parseParams typeName i l "<"%char ">"%char in
  if has_at (str "list") typeName startIndex then
    match params (str "list") with [p] => TList <$> parse p | _ => Throw TypeError end
  else if has_at (str "set") typeName startIndex then
    match params (str "set") with [p] => TSet <$> parse p | _ => Throw TypeError end
  else if has_at (str "map") typeName startIndex then
    match params (str "map") with
    | [p; q] => k ← parse (trim p); v ← parse (trim q); Ok (TMap k v)
    | _ => Throw TypeError
    end
  else if has_at (str "tuple") typeName startIndex then
    TTuple <$> traverse (fun p => parse (trim p)) (params (str "tuple"))
  else if has_at (str "vector") typeName startIndex then
    parseVectorTypeArgs typeName (str "vector") parse_vector
  else simple_cql typeName startIndex len.

Definition cql_step (parse_vector : jsstr -> result column_type) (typeName : jsstr) : result column_type :=
  let len := Z.of_nat (length typeName) in
  if has_at (str "'") typeName 0 then Ok (TCustom (substr_z typeName 1 (len - 2)))
  else
    let '(startIndex, len) :=
      if has_at (str "frozen") typeName 0 then across (str "frozen") 0 len else (0%nat, len) in
    complex_cql parse_vector typeName startIndex len.
End cql.

(** The subtype of a vector is parsed without the resolver. *)
Fixpoint parseTypeName_loop (fuel : nat) (resolver : option (jsstr -> result (option (list (jsstr * column_type)))))
    (keyspace typeName : jsstr) : result column_type :=
  match fuel with
  | O => Throw OutOfFuel
  | S fuel' =>
      cql_step resolver keyspace (parseTypeName_loop fuel' resolver keyspace) (parseTypeName_loop fuel' None keyspace)
        typeName
  end.

(** [parseTypeName(keyspace, typeName, 0, null, udtResolver)] *)
Definition parseTypeName (resolver : jsstr -> result (option (list (jsstr * column_type)))) (keyspace typeName : jsstr)
    : result column_type :=
  parseTypeName_loop (S (length typeName)) (Some resolver) keyspace typeName.

(** ** Composite keys *)

(** The variables of the loop of [parseKeyTypes]. *)
Record key_loop := mkKeyLoop {
  kl_i : nat; kl_startIndex : nat; kl_nested : Z; kl_inCollectionType : bool; kl_types : list jsstr }.

(** [s.substring(i, j)] for any order of the indexes. *)
Definition substring_any (s : jsstr) (i j : nat) : jsstr := substring s (Nat.min i j) (Nat.max i j).

(** [s.indexOf(":", start) + 1] *)
Definition behind_colon (s : jsstr) (start : nat) : nat :=
  match index_of ":"%char (drop start s) with Some k => S (start + k) | None => O end.

(** The switch on the character at [i]. *)
Definition key_step (s : jsstr) (l : key_loop) : key_loop :=
  let i := kl_i l in
  if char_is s i ","%char then
    if 0 <? kl_nested l then l
    else
      let start := if kl_inCollectionType l then behind_colon s (kl_startIndex l) else kl_startIndex l in
      mkKeyLoop i (S i) (kl_nested l) (kl_inCollectionType l) (kl_types l ++ [substring_any s start i])
  else if char_is s i "("%char then
    if (kl_nested l =? 0) && has_at (marshal "ColumnToCollectionType") s (kl_startIndex l)
    then mkKeyLoop (S i) (S i) (kl_nested l) true (kl_types l)
    else mkKeyLoop i (kl_startIndex l) (kl_nested l + 1) (kl_inCollectionType l) (kl_types l)
  else if char_is s i ")"%char then
    if kl_inCollectionType l && (kl_nested l =? 0)
    then mkKeyLoop i (S i) (kl_nested l) (kl_inCollectionType l)
           (kl_types l ++ [substring_any s (behind_colon s (kl_startIndex l)) i])
    else mkKeyLoop i (kl_startIndex l) (kl_nested l - 1) (kl_inCollectionType l) (kl_types l)
  else l.

(** [while (++i < length)] *)
Fixpoint key_loop_run (fuel : nat) (s : jsstr) (len : nat) (l : key_loop) : key_loop :=
  match fuel with
  | O => l
  | S fuel' =>
      let i := S (kl_i l) in
      let l := mkKeyLoop i (kl_startIndex l) (kl_nested l) (kl_inCollectionType l) (kl_types l) in
      if (i <? len)%nat then key_loop_run fuel' s len (key_step s l) else l
  end.

Record key_types := mkKeyTypes { kt_types : list column_type; kt_hasCollections : bool; kt_isComposite : bool }.

(** [hasCollections] is set together with [inCollectionType] and neither is
    reset. *)
Definition parseKeyTypes (typesString : jsstr) : result key_types :=
  let isComposite := starts_with (marshal "CompositeType") typesString in
  let i := if isComposite then S (length (marshal "CompositeType")) else O in
  let len := if isComposite then (length typesString - 1)%nat else length typesString in
  let l := key_loop_run (S len) typesString len (mkKeyLoop i i 0 false []) in
  let names := if (kl_startIndex l <? len)%nat then kl_types l ++ [substring_any typesString (kl_startIndex l) len]
               else kl_types l in
  types ← traverse parseFqTypeName names;
  Ok (mkKeyTypes types (kl_inCollectionType l) isComposite).

Example parse_examples :
  parseFqTypeName (marshal "MapType(" ++ marshal "Int32Type," ++ marshal "ListType(" ++ marshal "UTF8Type))") =
    Ok (TMap (TSimple 9) (TList (TSimple 13))) /\
  getByName (str "Map<int, vector<float, 3>>") = Throw TypeError /\
  getByName (str "tuple<int, Text>") = Ok (TTuple [TSimple 9; TSimple 10]) /\
  parseTypeName (fun _ => Ok None) [] (str "frozen<map<text, list<int>>>") = Ok (TMap (TSimple 10) (TList (TSimple 9))) /\
  (kt_types <$> parseKeyTypes (marshal "CompositeType(" ++ marshal "Int32Type," ++ marshal "UTF8Type)")) =
    Ok [TSimple 9; TSimple 13].
Proof. repeat split; vm_compute; reflexivity. Qed.
