(* ===== verification/Encoder.v ===== *)
(** [lib/encoder.js]: values of the database's types to and from bytes.

    [value] is what the encoder takes and gives: the JavaScript values it knows.
    Objects of classes of the driver are those of the other files; a [Long] is
    its two 32-bit halves.  Buffers are not shared: [copyBuffer] has no effect.
    Text is Latin-1, and where the code would need the text or the number of a
    value the model does not have, the result is [Unmodelled]. *)
From S2P Require Import Prelude.
From S2P Require Import JsNum.
From S2P Require Import JsStr.
From S2P Require Import Buffer.
From S2P Require Import JsDouble.
From S2P Require Import Integer.
From S2P Require Import LongLib.
From S2P Require Import MutableLong.
From S2P Require Import VInt.
From S2P Require Import Duration.
From S2P Require Import BigDecimal.
From S2P Require Import Uuid.
From S2P Require Import Version.
From S2P Require Import LocalDate.
From S2P Require Import InetAddress.
From S2P Require Import LocalTime.
From S2P Require Import Utils.
From S2P Require Import TypeNames.

(** ** Values *)

(** [VMap] and [VSet] are instances of the [Map] and [Set] of the encoding
    options; [VObject] is an object with its own properties; [VDate None] is an
    invalid date. *)
Inductive value :=
  | VNull
  | VUndefined
  | VUnset
  | VBoolean (b : bool)
  | VNumber (n : number)
  | VBigInt (z : Z)
  | VString (s : jsstr)
  | VBuffer (bytes : list Z)
  | VDate (time : option Z)
  | VLong (low high : Z) (unsigned : bool)
  | VMutableLong (x : MutableLong)
  | VInteger (x : Integer)
  | VBigDecimal (x : BigDecimal)
  | VUuid (x : Uuid)
  | VTimeUuid (x : Uuid)
  | VInetAddress (x : InetAddress)
  | VLocalDate (x : LocalDate)
  | VLocalTime (x : LocalTime)
  | VDuration (x : Duration)
  | VArray (l : list value)
  | VTuple (l : list value)
  | VVector (l : list value) (subtype : option jsstr)
  | VObject (props : list (jsstr * value))
  | VMap (entries : list (value * value))
  | VSet (l : list value).

(** What [encode] returns: a buffer, null, or undefined for an unset value. *)
Inductive encoded := EBuffer (bytes : list Z) | ENull | EUnset.

(** The type information given to [encode]. *)
Inductive hint := HintNone | HintCode (code : Z) | HintName (name : jsstr) | HintType (t : column_type).

(** The elements of a value come with the function that encodes them. *)
Abbreviation element := (value * (hint -> result encoded))%type.

Record encoding_options := mkEncodingOptions {
  opt_map : bool;
  opt_set : bool;
  useUndefinedAsUnset : bool;
  useBigIntAsLong : bool;
  useBigIntAsVarint : bool }.

Record Encoder := mkEncoder { encodingOptions : encoding_options; protocolVersion : Z }.

(** ** Text *)

(** Latin-1 text in UTF-8. *)
Definition utf8_encode (s : jsstr) : list Z :=
  concat (map (fun c => let n := code c in if n <? 128 then [n] else [192 + n / 64; 128 + n mod 64]) s).

(** [Buffer.from(s, "ascii")] takes the low byte of each character;
    [toString("ascii")] takes seven bits of each byte. *)
Definition ascii_encode (s : jsstr) : list Z := map code s.
Definition ascii_decode (bytes : list Z) : jsstr := map (fun b => chr (Z.land b 127)) bytes.

(** ** Conversions of the language *)

(** The integer a decimal text stands for. *)
Definition integer_text (s : jsstr) : option Z :=
  let s := trim s in
  let '(negative, digits) :=
    match s with
    | c :: s' => if bool_decide (c = "-"%char) then (true, s') else if bool_decide (c = "+"%char) then (false, s') else (false, s)
    | [] => (false, s)
    end in
  if negb (bool_decide (digits = [])) && forallb is_digit digits then
    let z := match parseInt digits 10 with Fin m _ => m | _ => 0 end in Some (if negative then - z else z)
  else None.

(** [Number(v)], [+v] *)
Definition to_number (v : value) : result number :=
  match v with
  | VNumber n => Ok n
  | VBoolean b => Ok (Int (if b then 1 else 0))
  | VDate (Some t) => Ok (Int t)
  | VDate None => Ok NaN
  | VBigInt _ => Throw TypeError
  | VString s => match integer_text s with Some z => Ok (Int (round53 z)) | None => Throw Unmodelled end
  | _ => Throw Unmodelled
  end.

(** A falsy value. *)
Definition falsy (v : value) : bool :=
  match v with
  | VNull | VUndefined => true
  | VBoolean b => negb b
  | VNumber NaN => true
  | VNumber (Fin m _) => m =? 0
  | VBigInt z => z =? 0
  | VString s => bool_decide (s = [])
  | _ => false
  end.

(** [BigInt(v)] *)
Definition to_bigint (v : value) : result Z :=
  match v with
  | VBigInt z => Ok z
  | VBoolean b => Ok (if b then 1 else 0)
  | VNumber (Fin m 0) => Ok m
  | VNumber _ => Throw RangeError
  | VString s =>
      if bool_decide (trim s = []) then Ok 0
      else match integer_text s with Some z => Ok z | None => Throw Unmodelled end
  | VLong low high unsigned =>
      let bits := to_uint32 low + 2 ^ 32 * to_uint32 high in
      Ok (if unsigned then bits else signed64 bits)
  | _ => Throw Unmodelled
  end.

(** [writeInt8], [writeInt16BE], [writeInt32BE] of any Number: the range is
    checked first, then the fraction is cut off. *)
Definition write_number (n : nat) (x : number) : result (list Z) :=
  let bound := 2 ^ (8 * Z.of_nat n - 1) in
  match x with
  | NaN => Throw TypeError
  | Infinity _ => Throw RangeError
  | Fin m e =>
      if (m <? - bound * 2 ^ Z.of_N e) || ((bound - 1) * 2 ^ Z.of_N e <? m) then Throw RangeError
      else Ok (be_bytes n (Z.quot m (2 ^ Z.of_N e)))
  end.

Definition or_type_error {A} (r : result A) : result A :=
  match r with Throw Unmodelled => Throw Unmodelled | Throw _ => Throw TypeError | Ok x => Ok x end.

Section encoder.
Context `{LongLib}.
(** The unspecified content of [allocUnsafe] in [InetAddress.fromString]; the
    shared buffers of [VIntCoding]; the texts of Numbers used by [BigDecimal]. *)
Context (alloc : list Z) (scratch : list Z) (toString_ toFixed20 : number -> jsstr).
Context (E : Encoder).

Let opts : encoding_options := encodingOptions E.

(** ** Single values *)

Definition encodeFloat (v : value) : result (list Z) :=
  match v with
  | VNumber n => Ok (be_bytes 4 (float_bits n))
  | VString _ => Throw Unmodelled
  | _ => Throw TypeError
  end.

Definition encodeDouble (v : value) : result (list Z) :=
  match v with
  | VNumber n => Ok (be_bytes 8 (double_bits n))
  | VString _ => Throw Unmodelled
  | _ => Throw TypeError
  end.

(** [Long.toBuffer] *)
Definition Long_toBuffer (low high : Z) : list Z := be_bytes 4 high ++ be_bytes 4 low.

Definition long_toBuffer (x : Long) : list Z := Long_toBuffer (Long_getLowBits x) (Long_getHighBits x).

Definition _encodeBigIntFromLong (v : value) : result (list Z) :=
  match v with
  | VNumber (Fin m 0) => Ok (long_toBuffer (Long_fromNumber m))
  | VNumber _ => Throw Unmodelled
  | VString s => Ok (long_toBuffer (Long_fromString s))
  | VLong low high _ => Ok (Long_toBuffer low high)
  | VMutableLong x => Ok (long_toBuffer (ML_toImmutable x))
  | _ => Throw TypeError
  end.

(** [Number(z) >>> 0] of a BigInt. *)
Definition bigint_uint32 (z : Z) : Z := if 2 ^ 1024 <=? Z.abs (round53 z) then 0 else to_uint32 (round53 z).

Definition _encodeBigIntFromBigInt (v : value) : result (list Z) :=
  v ← match v with VString _ => VBigInt <$> to_bigint v | _ => Ok v end;
  match v with
  | VBigInt z => Ok (be_bytes 4 (bigint_uint32 (Z.shiftr z 32)) ++ be_bytes 4 (Z.land z (2 ^ 32 - 1)))
  | _ => Throw TypeError
  end.

Definition encodeLong (v : value) : result (list Z) :=
  if useBigIntAsLong opts then _encodeBigIntFromBigInt v else _encodeBigIntFromLong v.

(** The text of a date is read by the language. *)
Definition encodeTimestamp (v : value) : result (list Z) :=
  v ← match v with
      | VString _ => Throw Unmodelled
      | VDate None => Throw TypeError
      | VDate (Some t) => Ok (VNumber (Int t))
      | _ => Ok v
      end;
  v ← if useBigIntAsLong opts then VBigInt <$> to_bigint v else Ok v;
  encodeLong v.

(** The local fields of a Date are not part of the model. *)
Definition encodeDate (v : value) : result (list Z) :=
  match v with
  | VString s => d ← or_type_error (LocalDate_fromString s); LocalDate_toBuffer d
  | VDate (Some _) => Throw Unmodelled
  | VDate None => Throw TypeError
  | VLocalDate d => LocalDate_toBuffer d
  | _ => Throw TypeError
  end.

Definition encodeTime (v : value) : result (list Z) :=
  match v with
  | VString s => t ← or_type_error (LocalTime_fromString s); LocalTime_toBuffer t
  | VLocalTime t => LocalTime_toBuffer t
  | _ => Throw TypeError
  end.

Definition encodeUuid (v : value) : result (list Z) :=
  match v with
  | VString s => or_type_error (Uuid_getBuffer <$> Uuid_fromString s)
  | VUuid x | VTimeUuid x => Ok (Uuid_getBuffer x)
  | _ => Throw TypeError
  end.

Definition encodeInet (v : value) : result (list Z) :=
  match v with
  | VString s => inet_buffer <$> InetAddress_fromString alloc s
  | VInetAddress x => Ok (inet_buffer x)
  | _ => Throw TypeError
  end.

Definition _encodeVarintFromInteger (v : value) : result (list Z) :=
  match v with
  | VNumber n => Ok (Integer_toBuffer (Integer_fromNumber n))
  | VString s => Integer_toBuffer <$> Integer_fromString s 0
  | VInteger x => Ok (Integer_toBuffer x)
  | _ => Throw TypeError
  end.

(** The loop: bytes are put in front until the value is [stop] (0 or -1). *)
Fixpoint bigint_parts (fuel : nat) (stop z : Z) (parts : list Z) : result (list Z) :=
  match fuel with
  | O => Throw OutOfFuel
  | S fuel' => if z =? stop then Ok parts else bigint_parts fuel' stop (Z.shiftr z 8) (Z.land z 255 :: parts)
  end.

Definition bigint_fuel (z : Z) : nat := S (S (Z.to_nat (Z.log2 (Z.abs z)))).

Definition bigint_bytes (z : Z) : result (list Z) :=
  if z =? 0 then Ok [0]
  else if z =? -1 then Ok [255]
  else if 0 <? z then
    parts ← bigint_parts (bigint_fuel z) 0 z [];
    Ok (if 127 <? rd parts 0 then 0 :: parts else parts)
  else
    parts ← bigint_parts (bigint_fuel z) (-1) z [];
    Ok (if rd parts 0 <=? 127 then 255 :: parts else parts).

Definition _encodeVarintFromBigInt (v : value) : result (list Z) :=
  v ← match v with VString _ => VBigInt <$> to_bigint v | _ => Ok v end;
  match v with VBigInt z => bigint_bytes z | _ => Throw TypeError end.

Definition encodeVarint (v : value) : result (list Z) :=
  if useBigIntAsVarint opts then _encodeVarintFromBigInt v else _encodeVarintFromInteger v.

Definition encodeDecimal (v : value) : result (list Z) :=
  match v with
  | VNumber n => d ← BigDecimal_fromNumber toString_ toFixed20 n; BigDecimal_toBuffer d
  | VString s => d ← BigDecimal_fromString s; BigDecimal_toBuffer d
  | VBigDecimal d => BigDecimal_toBuffer d
  | _ => Throw TypeError
  end.

Definition encodeUtf8String (v : value) : result (list Z) :=
  match v with VString s => Ok (utf8_encode s) | _ => Throw TypeError end.

Definition encodeAsciiString (v : value) : result (list Z) :=
  match v with VString s => Ok (ascii_encode s) | _ => Throw TypeError end.

Definition encodeBlob (v : value) : result (list Z) :=
  match v with VBuffer b => Ok b | _ => Throw TypeError end.

Definition encodeBoolean (v : value) : result (list Z) := Ok (if falsy v then [0] else [1]).

(** [encodeInt], [encodeSmallint], [encodeTinyint] for [n] = 4, 2, 1. *)
Definition encode_fixed (n : nat) (v : value) : result (list Z) := x ← to_number v; write_number n x.

Definition encodeDuration (v : value) : result (list Z) :=
  match v with
  | VDuration d => Ok (Duration_toBuffer d scratch scratch scratch).1
  | _ => Throw TypeError
  end.

(** The encoders of the types that are not collections; [None] is a type
    without an encoder. *)
Definition encode_single (code : Z) (v : value) : option (result (list Z)) :=
  match code with
  | 1 => Some (encodeAsciiString v)
  | 2 | 5 => Some (encodeLong v)
  | 3 => Some (encodeBlob v)
  | 4 => Some (encodeBoolean v)
  | 6 => Some (encodeDecimal v)
  | 7 => Some (encodeDouble v)
  | 8 => Some (encodeFloat v)
  | 9 => Some (encode_fixed 4 v)
  | 10 | 13 => Some (encodeUtf8String v)
  | 11 => Some (encodeTimestamp v)
  | 12 | 15 => Some (encodeUuid v)
  | 14 => Some (encodeVarint v)
  | 16 => Some (encodeInet v)
  | 17 => Some (encodeDate v)
  | 18 => Some (encodeTime v)
  | 19 => Some (encode_fixed 2 v)
  | 20 => Some (encode_fixed 1 v)
  | 21 => Some (encodeDuration v)
  | _ => None
  end.

(** ** The type of a value *)

(** [guessDataType]; [None] is null. *)
Fixpoint guessDataType (v : value) : result (option column_type) :=
  match v with
  | VNumber _ => Ok (Some (TSimple 7))
  | VString s => Ok (Some (TSimple (if (length s =? 36)%nat && uuidRegex_test s then 12 else 10)))
  | VBoolean _ => Ok (Some (TSimple 4))
  | VBuffer _ => Ok (Some (TSimple 3))
  | VDate _ => Ok (Some (TSimple 11))
  | VLong _ _ _ => Ok (Some (TSimple 2))
  | VInteger _ => Ok (Some (TSimple 14))
  | VBigDecimal _ => Ok (Some (TSimple 6))
  | VUuid _ | VTimeUuid _ => Ok (Some (TSimple 12))
  | VInetAddress _ => Ok (Some (TSimple 16))
  | VTuple _ => Ok (Some (TSimple 49))
  | VLocalDate _ => Ok (Some (TSimple 17))
  | VLocalTime _ => Ok (Some (TSimple 18))
  | VDuration _ => Ok (Some (TCustom customTypeNames_duration))
  | VVector (x :: l) subtype =>
      let named :=
        match subtype with
        | Some (c :: cs) => match getByName (c :: cs) with Ok t => Ok (Some t) | Throw Unmodelled => Throw Unmodelled | _ => Ok None end
        | _ => Ok None
        end in
      named ← named;
      t ← match named with Some t => Ok (Some t) | None => guessDataType x end;
      match t with
      | Some t => Ok (Some (TVector t (Int (Z.of_nat (S (length l))))))
      | None => Throw TypeError
      end
  | VVector [] _ => Throw TypeError
  | VArray _ => Ok (Some (TSimple 32))
  | _ => Ok None
  end.

(** The type [encode] goes by: that of the hint (0 and the empty name count as
    none), or the one that is guessed. *)
Definition resolve_type (v : value) (h : hint) : result column_type :=
  let guess := t ← guessDataType v; match t with Some t => Ok t | None => Throw TypeError end in
  match h with
  | HintNone => guess
  | HintCode c => if c =? 0 then guess else Ok (TSimple c)
  | HintName [] => guess
  | HintName s => getByName s
  | HintType t => Ok t
  end.

(** The value for [undefined], and an unset value. *)
Definition encode_unset : result encoded :=
  if negb (supportsUnset (protocolVersion E)) then Throw TypeError else Ok EUnset.

Definition encode_undefined : result encoded :=
  if useUndefinedAsUnset opts && (4 <=? protocolVersion E) then encode_unset else Ok ENull.

(** ** Collections *)

Inductive elements :=
  | NoElements
  | ListElements (l : list element)
  | PropElements (l : list (jsstr * element))
  | EntryElements (l : list (element * element)).

Definition nullish (v : value) : bool := match v with VNull | VUndefined | VUnset => true | _ => false end.

Definition collectionLengthSize : nat := if uses4BytesCollectionLength (protocolVersion E) then 4 else 2.

(** [getLengthBuffer] of a number. *)
Definition getLengthBuffer (n : Z) : result (list Z) :=
  if uses4BytesCollectionLength (protocolVersion E) then writeInt 4 n else writeUInt 2 n.

Definition encoded_length (e : encoded) : Z := match e with EBuffer b => Z.of_nat (length b) | _ => 0 end.

(** [Buffer.concat]: what is not a buffer is a TypeError. *)
Definition concat_parts (parts : list encoded) : result (list Z) :=
  parts ← traverse (fun e => match e with EBuffer b => Ok b | _ => Throw TypeError end) parts;
  Ok (concat parts).

Definition encode_item (subtype : hint) (x : element) : result (list encoded) :=
  if nullish x.1 then Throw TypeError
  else
    bytes ← x.2 subtype;
    len ← getLengthBuffer (encoded_length bytes);
    Ok [EBuffer len; bytes].

Definition encodeList (items : list element) (subtype : hint) : result encoded :=
  match items with
  | [] => Ok ENull
  | _ =>
      len ← getLengthBuffer (Z.of_nat (length items));
      parts ← traverse (encode_item subtype) items;
      EBuffer <$> concat_parts (EBuffer len :: concat parts)
  end.

(** [addItem] *)
Definition encode_entry (keySubtype valueSubtype : hint) (kv : element * element) : result (list encoded) :=
  let '(k, v) := kv in
  if nullish k.1 then Throw TypeError
  else if nullish v.1 then Throw TypeError
  else
    keyBuffer ← k.2 keySubtype;
    keyLength ← getLengthBuffer (encoded_length keyBuffer);
    valueBuffer ← v.2 valueSubtype;
    valueLength ← getLengthBuffer (encoded_length valueBuffer);
    Ok ([EBuffer keyLength; keyBuffer; EBuffer valueLength] ++
        match valueBuffer with ENull => [] | _ => [valueBuffer] end).

Definition encodeMap (entries : list (element * element)) (keySubtype valueSubtype : hint) : result encoded :=
  parts ← traverse (encode_entry keySubtype valueSubtype) entries;
  len ← getLengthBuffer (Z.of_nat (length entries));
  EBuffer <$> concat_parts (EBuffer len :: concat parts).

Definition nullValueBuffer : list Z := [255; 255; 255; 255].

(** A field of a user-defined type or an element of a tuple.  An unset one is
    [undefined] here, and becomes null. *)
Definition encode_field (item : result encoded) : result (list Z) :=
  item ← item;
  match item with
  | EBuffer b => len ← writeInt 4 (Z.of_nat (length b)); Ok (len ++ b)
  | _ => Ok nullValueBuffer
  end.

Definition field_element (props : list (jsstr * element)) (name : jsstr) : hint -> result encoded :=
  match obj_get props name with Some x => x.2 | None => fun _ => encode_undefined end.

Definition encodeUdt (props : list (jsstr * element)) (fields : list (jsstr * column_type)) : result encoded :=
  parts ← traverse (fun f => encode_field (field_element props f.1 (HintType f.2))) fields;
  Ok (EBuffer (concat parts)).

Definition encodeTuple (items : list element) (ts : list column_type) : result encoded :=
  parts ← traverse (fun p => encode_field (p.1.2 (HintType p.2))) (zip items ts);
  Ok (EBuffer (concat parts)).

(** -1 for a type of variable size. *)
Fixpoint serializationSizeIfFixed (t : column_type) : result Z :=
  match t with
  | TSimple 2 | TSimple 11 | TSimple 7 => Ok 8
  | TSimple 4 => Ok 1
  | TSimple 8 | TSimple 9 => Ok 4
  | TSimple 15 | TSimple 12 => Ok 16
  | TVector sub dimension =>
      size ← serializationSizeIfFixed sub;
      if size =? -1 then Ok (-1)
      else match dimension with Fin d 0 => Ok (size * d) | _ => Throw Unmodelled end
  | _ => Ok (-1)
  end.

Definition encode_vector_item (subtype : column_type) (size : Z) (x : element) : result (list encoded) :=
  elemBuffer ← x.2 (HintType subtype);
  if size =? -1 then
    match elemBuffer with
    | EBuffer b => len ← uvintPack (Z.of_nat (length b)); Ok [EBuffer len; elemBuffer]
    | _ => Throw TypeError
    end
  else Ok [elemBuffer].

Definition encodeVector (items : list element) (subtype : column_type) (dimension : number) : result encoded :=
  if negb (bool_decide (dimension = Int (Z.of_nat (length items)))) then Throw TypeError
  else
    match items with
    | [] => Throw TypeError
    | _ =>
        size ← serializationSizeIfFixed subtype;
        parts ← traverse (encode_vector_item subtype size) items;
        EBuffer <$> concat_parts (concat parts)
    end.

(** The elements of [for (key in value)] with [encode_key] for the keys. *)
Definition own_entries (encode_key : jsstr -> element) (v : value) (es : elements)
    : result (list (element * element)) :=
  match v, es with
  | VObject _, PropElements l => Ok (map (fun p => (encode_key p.1, p.2)) l)
  | VArray _, ListElements l => Ok (imap (fun i x => (encode_key (num_to_string 10 (Z.of_nat i)), x)) l)
  | VNumber _, _ | VBoolean _, _ | VBigInt _, _ | VMap _, _ | VSet _, _ | VDate _, _ => Ok []
  | _, _ => Throw Unmodelled
  end.

(** [value.length] where it is not undefined. *)
Definition length_of (v : value) : result (option nat) :=
  match v with
  | VString s => Ok (Some (length s))
  | VArray l | VTuple l | VVector l _ => Ok (Some (length l))
  | VInetAddress x => Ok (Some (length (inet_buffer x)))
  | VObject props => match obj_get props (str "length") with Some _ => Throw Unmodelled | None => Ok None end
  | _ => Ok None
  end.

(** Only a tuple has [get]; a value without a length has no elements. *)
Definition encode_as_tuple (v : value) (es : elements) (ts : list column_type) : result encoded :=
  match v, es with
  | VTuple _, ListElements l => encodeTuple l ts
  | _, _ =>
      n ← length_of v;
      match n, ts with
      | Some (S _), _ :: _ => Throw TypeError
      | _, _ => Ok (EBuffer [])
      end
  end.

Definition encode_as_vector (v : value) (es : elements) (subtype : column_type) (dimension : number) : result encoded :=
  match v, es with
  | VVector _ _, ListElements l => encodeVector l subtype dimension
  | _, _ => Throw TypeError
  end.

Definition encodeCustom (v : value) (es : elements) (t : column_type) : result encoded :=
  match t with
  | TVector subtype dimension => encode_as_vector v es subtype dimension
  | TCustom info =>
      if starts_with customTypeNames_vector info then
        t ← parseFqTypeName info;
        match t with
        | TVector subtype dimension => encode_as_vector v es subtype dimension
        | _ => Throw Unmodelled
        end
      else if bool_decide (info = customTypeNames_duration) then EBuffer <$> encodeDuration v
      else Throw TypeError
  | _ => Throw TypeError
  end.

(** The encoder of the type, on a value and its elements. *)
Definition encode_typed (encode_key : jsstr -> element) (v : value) (es : elements) (t : column_type) : result encoded :=
  match encode_single (type_code t) v with
  | Some r => EBuffer <$> r
  | None =>
      let list_of (subtype : hint) :=
        match v, es with VArray _, ListElements l => encodeList l subtype | _, _ => Throw TypeError end in
      let set_of (subtype : hint) :=
        match v, es with
        | VSet _, ListElements l => if opt_set opts then encodeList l subtype else Throw TypeError
        | _, _ => list_of subtype
        end in
      let map_of (k w : hint) :=
        match v, es with
        | VMap _, EntryElements l => if opt_map opts then encodeMap l k w else encodeMap [] k w
        | _, _ => l ← own_entries encode_key v es; encodeMap l k w
        end in
      match t with
      | TList sub => list_of (HintType sub)
      | TSimple 32 => list_of HintNone
      | TSet sub => set_of (HintType sub)
      | TSimple 34 => set_of HintNone
      | TMap k w => map_of (HintType k) (HintType w)
      | TSimple 33 => map_of HintNone HintNone
      | TUdt _ _ fields =>
          match v, es with
          | VObject _, PropElements props => encodeUdt props fields
          | _, _ => Throw Unmodelled
          end
      | TTuple ts => encode_as_tuple v es ts
      | TUdtName _ | TSimple 48 | TSimple 49 => Throw TypeError
      | TVector _ _ | TCustom _ | TSimple 0 => encodeCustom v es t
      | TSimple _ => Throw PlainError
      end
  end.

(** A property name as a value. *)
Definition encode_key (k : jsstr) : element :=
  (VString k, fun h => t ← resolve_type (VString k) h; encode_typed (fun k => (VString k, fun _ => Throw Unmodelled)) (VString k) NoElements t).

(** ** [encode] *)

Fixpoint encode (v : value) (h : hint) {struct v} : result encoded :=
  let es :=
    match v with
    | VArray l | VTuple l | VVector l _ | VSet l => ListElements (map (fun x => (x, encode x)) l)
    | VObject props => PropElements (map (fun p => match p with (k, x) => (k, (x, encode x)) end) props)
    | VMap entries =>
        EntryElements (map (fun p => match p with (k, x) => ((k, encode k), (x, encode x)) end) entries)
    | _ => NoElements
    end in
  match v with
  | VUndefined => encode_undefined
  | VUnset => encode_unset
  | VNull => Ok ENull
  | VBuffer b => Ok (EBuffer b)
  | _ => t ← resolve_type v h; encode_typed encode_key v es t
  end.
End encoder.
