(* ===== verification/Decoder.v ===== *)
(** [lib/encoder.js]: bytes to values of the database's types. *)
From S2P Require Import Prelude.
From S2P Require Import JsNum.
From S2P Require Import JsStr.
From S2P Require Import Buffer.
From S2P Require Import JsDouble.
From S2P Require Import Integer.
From S2P Require Import LongLib.
From S2P Require Import VInt.
From S2P Require Import Duration.
From S2P Require Import BigDecimal.
From S2P Require Import Uuid.
From S2P Require Import Version.
From S2P Require Import LocalDate.
From S2P Require Import InetAddress.
From S2P Require Import LocalTime.
From S2P Require Import Utils.
From S2P Require Import TypeNames.
From S2P Require Import Encoder.

(** [bytes.slice(start, end)]: negative indexes count from the end. *)
Definition js_slice (bytes : list Z) (start stop : Z) : list Z :=
  let n := Z.of_nat (length bytes) in
  let norm x := if x <? 0 then Z.max 0 (x + n) else Z.min x n in
  slice bytes (Z.to_nat (norm start)) (Z.to_nat (norm stop)).

(** Reading at an offset that may be negative. *)
Definition readInt_at (n : nat) (bytes : list Z) (offset : Z) : result Z :=
  if offset <? 0 then Throw RangeError else readInt n bytes (Z.to_nat offset).

Definition readUInt_at (n : nat) (bytes : list Z) (offset : Z) : result Z :=
  if offset <? 0 then Throw RangeError else readUInt n bytes (Z.to_nat offset).

(** The equality of the keys of a Map and of the elements of a Set: the values
    decoded are new objects, so that only primitive ones can be equal. *)
Definition same_value (a b : value) : bool :=
  match a, b with
  | VNull, VNull | VUndefined, VUndefined => true
  | VBoolean x, VBoolean y => Bool.eqb x y
  | VNumber x, VNumber y => bool_decide (x = y)
  | VBigInt x, VBigInt y => x =? y
  | VString x, VString y => bool_decide (x = y)
  | _, _ => false
  end.

(** [map.set(key, value)] *)
Fixpoint map_set (entries : list (value * value)) (k v : value) : list (value * value) :=
  match entries with
  | [] => [(k, v)]
  | (k', v') :: entries' => if same_value k' k then (k', v) :: entries' else (k', v') :: map_set entries' k v
  end.

(** [new Set(arr)] *)
Definition set_of_array (l : list value) : list value :=
  foldl (fun s x => if existsb (fun y => same_value y x) s then s else s ++ [x]) [] l.

(** A value as the name of a property. *)
Definition property_key (v : value) : result jsstr :=
  match v with
  | VNull => Ok (str "null")
  | VUndefined => Ok (str "undefined")
  | VBoolean b => Ok (str (if b then "true" else "false"))
  | VNumber (Fin m 0) => if Z.abs m <? 10 ^ 21 then Ok (num_to_string 10 m) else Throw Unmodelled
  | VBigInt z => Ok (num_to_string 10 z)
  | VString s => Ok s
  | VLong low high false => Ok (num_to_string 10 (signed64 (to_uint32 low + 2 ^ 32 * to_uint32 high)))
  | VUuid x | VTimeUuid x => Ok (Uuid_toString x)
  | _ => Throw Unmodelled
  end.

Section decoder.
Context `{LongLib}.
Context (E : Encoder).

Let opts : encoding_options := encodingOptions E.

(** ** Single values *)

Definition decodeBoolean (bytes : list Z) : result value := b ← readUInt 1 bytes 0; Ok (VBoolean (negb (b =? 0))).
Definition decodeDouble (bytes : list Z) : result value := b ← readUInt 8 bytes 0; Ok (VNumber (double_of_bits b)).
Definition decodeFloat (bytes : list Z) : result value := b ← readUInt 4 bytes 0; Ok (VNumber (float_of_bits b)).

(** [decodeInt], [decodeSmallint], [decodeTinyint] for [n] = 4, 2, 1. *)
Definition decode_fixed (n : nat) (bytes : list Z) : result value := z ← readInt n bytes 0; Ok (VNumber (Int z)).

(** [Long.fromBuffer]: the low half is read first. *)
Definition _decodeCqlLongAsLong (bytes : list Z) : result (Z * Z) :=
  low ← readInt 4 bytes 4;
  high ← readInt 4 bytes 0;
  Ok (low, high).

Definition _decodeCqlLongAsBigInt (bytes : list Z) : result value :=
  high ← readUInt 4 bytes 0;
  low ← readUInt 4 bytes 4;
  Ok (VBigInt (signed64 (Z.lor (Z.shiftl high 32) low))).

Definition decodeLong (bytes : list Z) : result value :=
  if useBigIntAsLong opts then _decodeCqlLongAsBigInt bytes
  else p ← _decodeCqlLongAsLong bytes; Ok (VLong p.1 p.2 false).

(** A Date has no time outside a hundred million days around 1970. *)
Definition decodeTimestamp (bytes : list Z) : result value :=
  p ← _decodeCqlLongAsLong bytes;
  let ms := Long_toNumber (Long_fromBits p.1 p.2 false) in
  Ok (VDate (if Z.abs ms <=? 8640000000000000 then Some ms else None)).

(** The loop of [_decodeVarintAsBigInt] from the last byte to the first. *)
Definition varint_loop (f : Z -> Z) (bytes : list Z) : Z :=
  foldl (fun result i => Z.lor result (Z.shiftl (f (rd bytes (length bytes - 1 - i))) (8 * Z.of_nat i)))
    0 (seq 0 (length bytes)).

Definition _decodeVarintAsBigInt (bytes : list Z) : Z :=
  if rd bytes 0 <=? 127 then varint_loop id bytes
  else Z.lnot (varint_loop (fun b => Z.land (Z.lnot b) 255) bytes).

Definition decodeVarint (bytes : list Z) : value :=
  if useBigIntAsVarint opts then VBigInt (_decodeVarintAsBigInt bytes) else VInteger (Integer_fromBuffer bytes).

(** The decoders of the types that are not collections. *)
Definition decode_single (code : Z) (bytes : list Z) : option (result value) :=
  match code with
  | 0 | 3 => Some (Ok (VBuffer bytes))
  | 1 => Some (Ok (VString (ascii_decode bytes)))
  | 2 | 5 => Some (decodeLong bytes)
  | 4 => Some (decodeBoolean bytes)
  | 6 => Some (VBigDecimal <$> BigDecimal_fromBuffer bytes)
  | 7 => Some (decodeDouble bytes)
  | 8 => Some (decodeFloat bytes)
  | 9 => Some (decode_fixed 4 bytes)
  | 10 | 13 => Some (VString <$> utf8_decode bytes)
  | 11 => Some (decodeTimestamp bytes)
  | 12 => Some (VUuid <$> Uuid_new bytes)
  | 14 => Some (Ok (decodeVarint bytes))
  | 15 => Some (VTimeUuid <$> TimeUuid_fromBuffer bytes)
  | 16 => Some (VInetAddress <$> InetAddress_new bytes)
  | 17 => Some (VLocalDate <$> LocalDate_fromBuffer bytes)
  | 18 => Some (VLocalTime <$> LocalTime_fromBuffer bytes)
  | 19 => Some (decode_fixed 2 bytes)
  | 20 => Some (decode_fixed 1 bytes)
  | 21 => Some (VDuration <$> Duration_fromBuffer bytes)
  | _ => None
  end.

(** ** Collections, given the decoders of their parts *)

Definition decodeCollectionLength (bytes : list Z) (offset : Z) : result Z :=
  if uses4BytesCollectionLength (protocolVersion E) then readInt_at 4 bytes offset else readUInt_at 2 bytes offset.

Let size : Z := Z.of_nat (collectionLengthSize E).

Fixpoint list_loop (decode : list Z -> result value) (bytes : list Z) (n : nat) (offset : Z) : result (list value) :=
  match n with
  | O => Ok []
  | S n' =>
      len ← decodeCollectionLength bytes offset;
      let offset := offset + size in
      x ← decode (js_slice bytes offset (offset + len));
      xs ← list_loop decode bytes n' (offset + len);
      Ok (x :: xs)
  end.

Definition decodeList (decode : list Z -> result value) (bytes : list Z) : result (list value) :=
  totalItems ← decodeCollectionLength bytes 0;
  if totalItems <? 0 then Throw RangeError
  else list_loop decode bytes (Z.to_nat totalItems) size.

(** [readValues]: a negative length of a value is null. *)
Fixpoint map_loop (decode_key decode_value : list Z -> result value) (bytes : list Z) (n : nat) (offset : Z)
    : result (list (value * value)) :=
  match n with
  | O => Ok []
  | S n' =>
      keyLength ← decodeCollectionLength bytes offset;
      let offset := offset + size in
      key ← decode_key (js_slice bytes offset (offset + keyLength));
      let offset := offset + keyLength in
      valueLength ← decodeCollectionLength bytes offset;
      let offset := offset + size in
      if valueLength <? 0 then
        rest ← map_loop decode_key decode_value bytes n' offset;
        Ok ((key, VNull) :: rest)
      else
        x ← decode_value (js_slice bytes offset (offset + valueLength));
        rest ← map_loop decode_key decode_value bytes n' (offset + valueLength);
        Ok ((key, x) :: rest)
  end.

Definition object_set (props : list (jsstr * value)) (kv : value * value) : result (list (jsstr * value)) :=
  k ← property_key kv.1; Ok (obj_set props k kv.2).

Fixpoint object_sets (props : list (jsstr * value)) (entries : list (value * value)) : result (list (jsstr * value)) :=
  match entries with
  | [] => Ok props
  | kv :: entries' => props ← object_set props kv; object_sets props entries'
  end.

Definition decodeMap (decode_key decode_value : list Z -> result value) (bytes : list Z) : result value :=
  totalItems ← decodeCollectionLength bytes 0;
  entries ← map_loop decode_key decode_value bytes (Z.to_nat totalItems) size;
  if opt_map opts then Ok (VMap (foldl (fun m kv => map_set m kv.1 kv.2) [] entries))
  else VObject <$> object_sets [] entries.

(** The fields of a user-defined type or the elements of a tuple, as far as
    the bytes go; [None] is null. *)
Fixpoint fields_loop {A} (parts : list (A * (list Z -> result value))) (bytes : list Z) (offset : Z)
    : result (list (A * value)) :=
  match parts with
  | [] => Ok []
  | (name, decode) :: parts' =>
      if offset <? Z.of_nat (length bytes) then
        len ← readInt_at 4 bytes offset;
        let offset := offset + 4 in
        if len <? 0 then rest ← fields_loop parts' bytes offset; Ok ((name, VNull) :: rest)
        else
          x ← decode (js_slice bytes offset (offset + len));
          rest ← fields_loop parts' bytes (offset + len);
          Ok ((name, x) :: rest)
      else Ok []
  end.

Definition decodeUdt (fields : list (jsstr * (list Z -> result value))) (bytes : list Z) : result value :=
  props ← fields_loop fields bytes 0;
  Ok (VObject (foldl (fun o p => obj_set o p.1 p.2) [] props)).

(** The elements that are missing are undefined. *)
Definition decodeTuple (parts : list (list Z -> result value)) (bytes : list Z) : result value :=
  elements ← fields_loop (map (fun d => (tt, d)) parts) bytes 0;
  let elements := map snd elements ++ replicate (length parts - length elements) VUndefined in
  match elements with
  | [] => Throw TypeError
  | _ => Ok (VTuple elements)
  end.

Fixpoint vector_loop (decode : list Z -> result value) (elemLength : Z) (bytes : list Z) (n : nat) (offset : Z)
    : result (list value * Z) :=
  match n with
  | O => Ok ([], offset)
  | S n' =>
      let '(len, bytesRead) :=
        if elemLength =? -1 then uvintUnpack (js_slice bytes offset (Z.of_nat (length bytes))) else (elemLength, 0) in
      let offset := offset + bytesRead in
      if Z.of_nat (length bytes) <? offset + len then Throw TypeError
      else
        x ← decode (js_slice bytes offset (offset + len));
        r ← vector_loop decode elemLength bytes n' (offset + len);
        Ok (x :: r.1, r.2)
  end.

Definition decodeVector (decode : list Z -> result value) (subtype : column_type) (dimension : number) (bytes : list Z)
    : result value :=
  elemLength ← serializationSizeIfFixed subtype;
  n ← match dimension with
      | Fin d 0 => Ok (Z.to_nat d)
      | NaN => Ok 0%nat
      | _ => Throw Unmodelled
      end;
  r ← vector_loop decode elemLength bytes n 0;
  if negb (r.2 =? Z.of_nat (length bytes)) then Throw TypeError
  else
    typeInfo ← getDataTypeNameByCode subtype;
    match r.1 with
    | [] => Throw TypeError
    | l => Ok (VVector l (Some typeInfo))
    end.

(** ** [decode] *)

(** [zeroLengthTypesSupported] *)
Definition zeroLengthTypesSupported (code : Z) : bool := bool_decide (code ∈ [10; 1; 13; 0; 3]).

Section decode.
(** What is done with a custom type whose name is that of a vector. *)
Context (decode_named_vector : jsstr -> list Z -> result value).

Definition decodeCustom (info : jsstr) (bytes : list Z) : result value :=
  if starts_with customTypeNames_vector info then decode_named_vector info bytes
  else if bool_decide (info = customTypeNames_duration) then VDuration <$> Duration_fromBuffer bytes
  else Ok (VBuffer bytes).

(** Without the type of its parts, a collection is only read when it is empty. *)
Fixpoint decode_with (t : column_type) (bytes : list Z) {struct t} : result value :=
  if bool_decide (bytes = []) && negb (zeroLengthTypesSupported (type_code t)) then Ok VNull
  else
    let untyped (bytes : list Z) : result value := Throw TypeError in
    let set_of (l : list value) := if opt_set opts then VSet (set_of_array l) else VArray l in
    match t with
    | TSimple 32 => VArray <$> decodeList untyped bytes
    | TList sub => VArray <$> decodeList (decode_with sub) bytes
    | TSimple 34 => set_of <$> decodeList untyped bytes
    | TSet sub => set_of <$> decodeList (decode_with sub) bytes
    | TSimple 33 => decodeMap untyped untyped bytes
    | TMap k v => decodeMap (decode_with k) (decode_with v) bytes
    | TUdt _ _ fields => decodeUdt (map (fun f => match f with (n, t) => (n, decode_with t) end) fields) bytes
    | TTuple ts => decodeTuple (map decode_with ts) bytes
    | TUdtName _ | TSimple 48 | TSimple 49 => Throw TypeError
    | TVector sub dimension => decodeVector (decode_with sub) sub dimension bytes
    | TCustom info => decodeCustom info bytes
    | TSimple c => match decode_single c bytes with Some r => r | None => Throw PlainError end
    end.
End decode.

(** The type a name is parsed to is a vector with the parsed type of its
    elements, in which no vector is left as a name. *)
Definition decode_named (info : jsstr) (bytes : list Z) : result value :=
  t ← parseFqTypeName info; decode_with (fun _ _ => Throw Unmodelled) t bytes.

Definition decode (t : column_type) (buffer : option (list Z)) : result value :=
  match buffer with
  | None => Ok VNull
  | Some bytes => decode_with decode_named t bytes
  end.
End decoder.
