(* ===== verification/EncoderValues.v ===== *)
(** The single values of Encoder and Decoder: what [encode] writes for a value
    of a type is read back as the same value. *)
From S2P Require Import Prelude.
From S2P Require Import JsNum.
From S2P Require Import JsStr.
From S2P Require Import Buffer.
From S2P Require Import JsDouble.
From S2P Require Import Integer.
From S2P Require Import IntegerArith.
From S2P Require Import IntegerText.
From S2P Require Import LongLib.
From S2P Require Import VInt.
From S2P Require Import Duration.
From S2P Require Import DurationTheorems.
From S2P Require Import BigDecimal.
From S2P Require Import Uuid.
From S2P Require Import LocalDate.
From S2P Require Import LocalDateTheorems.
From S2P Require Import InetAddress.
From S2P Require Import NewUtils.
From S2P Require Import LocalTime.
From S2P Require Import Utils.
From S2P Require Import TypeNames.
From S2P Require Import Encoder.
From S2P Require Import Decoder.

(** ** Fixed-size numbers *)

Lemma readUInt_be n v : 0 <= v < 2 ^ (8 * Z.of_nat n) -> readUInt n (be_bytes n v) 0 = Ok v.
Proof.
  intros Hv. pose proof (readUInt_writeUInt n v _ [] [] (writeUInt_small n v Hv)) as R.
  by rewrite app_nil_r in R.
Qed.

Lemma readInt_be n v :
  (0 < n)%nat -> - 2 ^ (8 * Z.of_nat n - 1) <= v < 2 ^ (8 * Z.of_nat n - 1) -> readInt n (be_bytes n v) 0 = Ok v.
Proof.
  intros Hn [H1%Z.leb_le H2%Z.ltb_lt].
  assert (W : writeInt n v = Ok (be_bytes n v)) by (unfold writeInt; by rewrite H1, H2).
  pose proof (readInt_writeInt n v _ [] [] Hn W) as R. by rewrite app_nil_r in R.
Qed.

Lemma be_bytes_nonempty n v : be_bytes (S n) v <> [].
Proof. intros E. apply (f_equal length) in E. by rewrite length_be_bytes in E. Qed.

(** The two halves of a 64-bit integer. *)
Lemma be_bytes_halves low high :
  be_bytes 4 high ++ be_bytes 4 low = be_bytes 8 (high * 2 ^ 32 + low mod 2 ^ 32).
Proof.
  rewrite (be_bytes_app 4 4). change (256 ^ Z.of_nat 4) with (2 ^ 32). f_equal; apply be_bytes_mod;
    change (2 ^ (8 * Z.of_nat 4)) with (2 ^ 32); div_lia.
Qed.

Lemma long_toBuffer_bits `{LongLaws} x : long_toBuffer x = be_bytes 8 (long_bits x).
Proof.
  unfold long_toBuffer, Long_toBuffer. rewrite be_bytes_halves, long_getLowBits_eq, long_getHighBits_eq, to_int32_mod.
  apply be_bytes_mod. change (2 ^ (8 * Z.of_nat 8)) with (2 ^ 32 * 2 ^ 32).
  pose proof (to_int32_mod (long_bits x / 2 ^ 32)). div_lia.
Qed.

Lemma read_long v : _decodeCqlLongAsLong (be_bytes 8 v) = Ok (to_int32 v, to_int32 (v / 2 ^ 32)).
Proof.
  unfold _decodeCqlLongAsLong. rewrite (be_bytes_app 4 4). change (256 ^ Z.of_nat 4) with (2 ^ 32).
  assert (R : forall z, is_int32 (to_int32 z) /\ be_bytes 4 z = be_bytes 4 (to_int32 z)).
  { intros z. split; [apply to_int32_range|]. apply be_bytes_mod. symmetry. apply to_int32_mod. }
  assert (W : forall z, writeInt 4 (to_int32 z) = Ok (be_bytes 4 (to_int32 z))).
  { intros z. destruct (R z) as [[R1%Z.leb_le R2%Z.ltb_lt] _]. unfold writeInt.
    change (8 * Z.of_nat 4 - 1) with 31. by rewrite R1, R2. }
  pose proof (readInt_writeInt 4 _ _ (be_bytes 4 (v / 2 ^ 32)) [] ltac:(lia) (W v)) as L.
  rewrite app_nil_r, length_be_bytes, <- (proj2 (R v)) in L. rewrite L. cbn [mbind result_bind].
  pose proof (readInt_writeInt 4 _ _ [] (be_bytes 4 v) ltac:(lia) (W (v / 2 ^ 32))) as Hh.
  cbn [app length] in Hh. rewrite <- (proj2 (R (v / 2 ^ 32))) in Hh. by rewrite Hh.
Qed.

(** ** BigInt *)

Lemma lookup_rev {A} (l : list A) i : (i < length l)%nat -> rev l !! i = l !! (length l - S i)%nat.
Proof. intros Hi. rewrite <- reverse_lookup by done. unfold reverse. by rewrite rev_alt. Qed.

Lemma lnot_byte b : 0 <= b < 256 -> Z.land (Z.lnot b) 255 = 255 - b.
Proof. intros Hb. change (Z.land (Z.lnot b) 255) with (Z.land (Z.lnot b) (Z.ones 8)). rewrite Z.land_ones by lia. change (2 ^ 8) with 256. unfold Z.lnot. div_lia. Qed.

Lemma lor_shift r b n : 0 <= r < 2 ^ n -> 0 <= n -> Z.lor r (Z.shiftl b n) = r + b * 2 ^ n.
Proof. intros Hr Hn. rewrite Z.shiftl_mul_pow2, Z.lor_comm, lor_add_disjoint by lia. lia. Qed.

Lemma varint_loop_val f bytes :
  (forall b, 0 <= b < 256 -> 0 <= f b < 256) -> bytes_ok bytes ->
  varint_loop f bytes = be_val 256 (map f bytes).
Proof.
  intros Hf Hb. unfold varint_loop, be_val. rewrite <- map_rev.
  assert (Hr : digits_in 256 (rev bytes)) by (by apply Forall_rev).
  assert (G : forall n, (n <= length bytes)%nat ->
    foldl (fun result i => Z.lor result (Z.shiftl (f (rd bytes (length bytes - 1 - i))) (8 * Z.of_nat i))) 0 (seq 0 n) =
    le_val 256 (map f (take n (rev bytes)))).
  { induction n as [|n IH]; intros Hn; [done|]. rewrite seq_S, foldl_app, IH by lia. cbn [foldl Nat.add].
    destruct (lookup_lt_is_Some_2 (rev bytes) n) as [b Eb]; [rewrite length_rev; lia|].
    rewrite (take_S_r _ _ _ Eb), map_app, le_val_app, length_map, length_take, length_rev, Nat.min_l by lia. cbn [map le_val].
    assert (Erd : rd bytes (length bytes - 1 - n) = b).
    { rewrite lookup_rev in Eb by lia. unfold rd. replace (length bytes - 1 - n)%nat with (length bytes - S n)%nat by lia.
      by rewrite Eb. }
    rewrite Erd. rewrite pow256, lor_shift; [lia| |lia].
    assert (D : digits_in 256 (map f (take n (rev bytes)))).
    { apply Forall_map. eapply Forall_impl; [apply Forall_take; exact Hr|]. exact Hf. }
    pose proof (le_val_bounds 256 _ ltac:(lia) D) as B. rewrite length_map, length_take, length_rev, Nat.min_l, pow256 in B by lia. exact B. }
  rewrite (G (length bytes)) by lia. by rewrite take_ge by (rewrite length_rev; lia).
Qed.

Lemma be_val_complement bytes :
  bytes_ok bytes ->
  be_val 256 (map (fun b => Z.land (Z.lnot b) 255) bytes) = 256 ^ Z.of_nat (length bytes) - 1 - be_val 256 bytes.
Proof.
  induction 1 as [|b l Hb Hl IH]; [done|]. cbn [map length]. rewrite !be_val_cons, IH, lnot_byte, length_map by done.
  rewrite Nat2Z.inj_succ, Z.pow_succ_r by lia. lia.
Qed.

Lemma be_signed_cons b l :
  0 <= b < 256 -> bytes_ok l ->
  be_signed (b :: l) = (if b <? 128 then b else b - 256) * 256 ^ Z.of_nat (length l) + be_val 256 l.
Proof.
  intros Hb Hl. rewrite be_signed_sign by (done || by constructor). change (rd (b :: l) 0) with b.
  cbv zeta. rewrite sign_bit, be_val_cons, <- pow256 by done. cbn [length]. rewrite Nat2Z.inj_succ, Z.pow_succ_r by lia.
  destruct (b <? 128); lia.
Qed.

(** [_decodeVarintAsBigInt] reads two's complement. *)
Lemma decodeVarint_spec bytes : bytes_ok bytes -> bytes <> [] -> _decodeVarintAsBigInt bytes = be_signed bytes.
Proof.
  intros Hb Hne. unfold _decodeVarintAsBigInt. destruct bytes as [|b l]; [done|].
  pose proof Hb as [Hb0 Hl]%Forall_cons. rewrite be_signed_cons by done. change (rd (b :: l) 0) with b.
  destruct (Z.leb_spec b 127), (Z.ltb_spec b 128); try lia.
  - by rewrite varint_loop_val, map_id, be_val_cons by done.
  - rewrite varint_loop_val, be_val_complement by (try done; intros x Hx; rewrite lnot_byte; lia).
    rewrite be_val_cons. cbn [length]. rewrite Nat2Z.inj_succ, Z.pow_succ_r by lia. unfold Z.lnot. lia.
Qed.

Lemma land_255 z : Z.land z 255 = z mod 256.
Proof. change 255 with (Z.ones 8). by rewrite Z.land_ones by lia. Qed.

(** The loop of [_encodeVarintFromBigInt]: the bytes it has put in front and
    what is left make up the value. *)
Lemma bigint_parts_spec stop z parts fuel :
  (stop = 0 /\ 0 <= z \/ stop = -1 /\ z < 0) -> (Z.to_nat (Z.log2 (Z.abs (2 * z + 1))) < fuel)%nat -> bytes_ok parts ->
  exists parts', bigint_parts fuel stop z parts = Ok parts' /\ bytes_ok parts' /\
    (length parts <= length parts')%nat /\
    z * 256 ^ Z.of_nat (length parts) + be_val 256 parts = stop * 256 ^ Z.of_nat (length parts') + be_val 256 parts'.
Proof.
  revert z parts. induction fuel as [|fuel IH]; intros z parts Hz Hf Hp; [lia|]. cbn [bigint_parts].
  destruct (Z.eqb_spec z stop) as [->|Hne]; [by exists parts|].
  rewrite Z.shiftr_div_pow2, land_255 by lia. change (2 ^ 8) with 256.
  assert (Hlog : (Z.to_nat (Z.log2 (Z.abs (2 * (z / 256) + 1))) < fuel)%nat).
  { assert (2 * Z.abs (2 * (z / 256) + 1) <= Z.abs (2 * z + 1)) by div_lia.
    assert (L : Z.log2 (2 * Z.abs (2 * (z / 256) + 1)) <= Z.log2 (Z.abs (2 * z + 1))) by (by apply Z.log2_le_mono).
    rewrite Z.log2_double in L by lia. pose proof (Z.log2_nonneg (Z.abs (2 * (z / 256) + 1))). lia. }
  destruct (IH (z / 256) (z mod 256 :: parts)) as (parts' & E & B & L & V); [|done| |].
  - destruct Hz as [[-> Hz]|[-> Hz]]; [left|right]; split; try done; div_lia.
  - constructor; [div_lia|done].
  - exists parts'. split_and!; [done|done|cbn in L; lia|]. rewrite <- V, be_val_cons. cbn [length].
    rewrite Nat2Z.inj_succ, Z.pow_succ_r by lia. pose proof (Z.div_mod z 256 ltac:(lia)). nia.
Qed.

Lemma bigint_bytes_spec z : exists bytes, bigint_bytes z = Ok bytes /\ bytes_ok bytes /\ bytes <> [] /\ be_signed bytes = z.
Proof.
  unfold bigint_bytes. destruct (Z.eqb_spec z 0) as [->|]; [exists [0]; split_and!; [done|by repeat constructor|done|done]|].
  destruct (Z.eqb_spec z (-1)) as [->|]; [exists [255]; split_and!; [done|by repeat constructor|done|done]|].
  assert (Hfuel : (Z.to_nat (Z.log2 (Z.abs (2 * z + 1))) < bigint_fuel z)%nat).
  { assert (L : Z.log2 (Z.abs (2 * z + 1)) < 2 + Z.log2 (Z.abs z)).
    { apply Z.log2_lt_pow2; [lia|]. rewrite Z.pow_add_r by (lia || apply Z.log2_nonneg).
      pose proof (Z.log2_spec (Z.abs z) ltac:(lia)) as [_ S]. rewrite Z.pow_succ_r in S by apply Z.log2_nonneg.
      change (2 ^ 2) with 4. lia. }
    unfold bigint_fuel. lia. }
  destruct (Z.ltb_spec 0 z).
  - destruct (bigint_parts_spec 0 z [] _ ltac:(lia) Hfuel ltac:(constructor)) as (parts & -> & B & _ & V).
    cbn [mbind result_bind length] in *. change (be_val 256 []) with 0 in V.
    eexists. split; [done|]. destruct parts as [|b l]; [cbn in V; lia|]. change (rd (b :: l) 0) with b.
    pose proof B as [Hb Hl]%Forall_cons. cbn beta in Hb. rewrite be_val_cons in V.
    destruct (Z.ltb_spec 127 b); (split_and!; [first [done|by apply Forall_cons]|done|]); rewrite be_signed_cons by done.
    + rewrite be_val_cons. cbn. cbn in V. lia.
    + destruct (Z.ltb_spec b 128); lia.
  - destruct (bigint_parts_spec (-1) z [] _ ltac:(lia) Hfuel ltac:(constructor)) as (parts & -> & B & _ & V).
    cbn [mbind result_bind length] in *. change (be_val 256 []) with 0 in V.
    eexists. split; [done|]. destruct parts as [|b l]; [cbn in V; lia|]. change (rd (b :: l) 0) with b.
    pose proof B as [Hb Hl]%Forall_cons. cbn beta in Hb. rewrite be_val_cons in V. cbn [length] in V.
    rewrite Nat2Z.inj_succ, Z.pow_succ_r in V by lia.
    destruct (Z.leb_spec b 127); (split_and!; [first [done|by apply Forall_cons]|done|]); rewrite be_signed_cons by done.
    + rewrite be_val_cons. change (255 <? 128) with false. cbn [length]. rewrite Nat2Z.inj_succ, Z.pow_succ_r by lia. lia.
    + destruct (Z.ltb_spec b 128); lia.
Qed.

Lemma round53_id z : Z.abs z < 2 ^ 53 -> round53 z = z.
Proof.
  intros Hz. unfold round53, round53_abs. destruct (Z.ltb_spec (Z.abs z) (2 ^ 53)); [|lia].
  rewrite Z.mul_comm. by rewrite Z.abs_sgn.
Qed.

Lemma bigint_halves z :
  Z.abs z < 2 ^ 84 -> be_bytes 4 (bigint_uint32 (Z.shiftr z 32)) ++ be_bytes 4 (Z.land z (2 ^ 32 - 1)) = be_bytes 8 z.
Proof.
  intros Hz. rewrite Z.shiftr_div_pow2 by lia.
  assert (Hh : Z.abs (z / 2 ^ 32) < 2 ^ 53) by div_lia.
  unfold bigint_uint32. rewrite round53_id by done.
  destruct (Z.leb_spec (2 ^ 1024) (Z.abs (z / 2 ^ 32))) as [Hbig|_].
  { assert (2 ^ 53 < 2 ^ 1024) by (apply Z.pow_lt_mono_r; lia). lia. }
  rewrite be_bytes_halves. apply be_bytes_mod.
  change (2 ^ 32 - 1) with (Z.ones 32). rewrite Z.land_ones by lia. unfold to_uint32.
  change (2 ^ (8 * Z.of_nat 8)) with (2 ^ 32 * 2 ^ 32). div_lia.
Qed.

Lemma read_long_halves low high :
  is_int32 low -> is_int32 high ->
  _decodeCqlLongAsLong (be_bytes 4 high ++ be_bytes 4 low) = Ok (low, high).
Proof.
  intros Hl Hh. rewrite be_bytes_halves, read_long. unfold is_int32 in *. f_equal. f_equal.
  - rewrite <- (to_int32_id low) at 2 by done. apply to_int32_inj. unfold to_uint32. div_lia.
  - rewrite <- (to_int32_id high) at 2 by done. apply to_int32_inj. unfold to_uint32. div_lia.
Qed.

Lemma read_bigint z : is_int64 z -> _decodeCqlLongAsBigInt (be_bytes 8 z) = Ok (VBigInt z).
Proof.
  intros Hz. unfold _decodeCqlLongAsBigInt. rewrite (be_bytes_app 4 4). change (256 ^ Z.of_nat 4) with (2 ^ 32).
  assert (M : forall v, be_bytes 4 v = be_bytes 4 (v mod 2 ^ 32)).
  { intros v. apply be_bytes_mod. change (8 * Z.of_nat 4) with 32. by rewrite Z.mod_mod by lia. }
  rewrite (M z), (M (z / 2 ^ 32)).
  assert (W : forall v, writeUInt 4 (v mod 2 ^ 32) = Ok (be_bytes 4 (v mod 2 ^ 32))).
  { intros v. apply writeUInt_small. apply Z.mod_pos_bound. lia. }
  pose proof (readUInt_writeUInt 4 _ _ [] (be_bytes 4 (z mod 2 ^ 32)) (W (z / 2 ^ 32))) as Hh. cbn [app length] in Hh.
  rewrite Hh. cbn [mbind result_bind].
  pose proof (readUInt_writeUInt 4 _ _ (be_bytes 4 ((z / 2 ^ 32) mod 2 ^ 32)) [] (W z)) as L.
  rewrite app_nil_r, length_be_bytes in L. rewrite L. cbn [mbind result_bind]. do 2 f_equal.
  rewrite Z.lor_comm, lor_shift by (try (apply Z.mod_pos_bound); lia).
  unfold signed64, is_int64 in *. case_match; div_lia.
Qed.

(** The types without parts, in bytes: the format of the native protocol as a
    relation, which the encoders write and the decoders read. *)

(** ** Text *)

Lemma code_range c : 0 <= code c < 256.
Proof. unfold code. pose proof (N_ascii_bounded c). lia. Qed.

Lemma chr_code c : chr (code c) = c.
Proof. unfold chr, code. by rewrite N2Z.id, ascii_N_embedding. Qed.

Lemma ascii_roundtrip s : Forall (fun c => code c < 128) s -> ascii_decode (ascii_encode s) = s.
Proof.
  unfold ascii_decode, ascii_encode. induction 1 as [|c s Hc _ IH]; [done|]. cbn [map]. rewrite IH. f_equal.
  change 127 with (Z.ones 7). rewrite Z.land_ones by lia. pose proof (code_range c).
  rewrite Z.mod_small by (change (2 ^ 7) with 128; lia). apply chr_code.
Qed.

Lemma utf8_roundtrip s : utf8_decode (utf8_encode s) = Ok s.
Proof.
  unfold utf8_encode. induction s as [|c s IH]; [done|]. cbn [map concat]. pose proof (code_range c).
  destruct (Z.ltb_spec (code c) 128); cbn [app utf8_decode].
  - destruct (Z.ltb_spec (code c) 128); [|lia]. rewrite IH. cbn [mbind result_bind]. by rewrite chr_code.
  - destruct (Z.ltb_spec (192 + code c / 64) 128); [div_lia|].
    replace (((192 + code c / 64 =? 194) || (192 + code c / 64 =? 195)) && (128 <=? 128 + code c mod 64) && (128 + code c mod 64 <? 192))
      with true.
    { rewrite IH. cbn [mbind result_bind]. do 2 f_equal.
      replace ((192 + code c / 64 - 192) * 64 + (128 + code c mod 64 - 128)) with (code c) by div_lia. apply chr_code. }
    symmetry. rewrite !andb_true_iff, orb_true_iff, !Z.eqb_eq, Z.leb_le, Z.ltb_lt. div_lia.
Qed.

Section singles.
Context `{LongLaws} (alloc scratch : list Z) (toString_ toFixed20 : number -> jsstr) (E : Encoder).
Context (Hscratch : (9 <= length scratch)%nat).

Let opts : encoding_options := encodingOptions E.

(** The bytes of a value of a type without parts. *)
Inductive single_wire : Z -> value -> list Z -> Prop :=
  | W_ascii s : Forall (fun c => code c < 128) s -> single_wire 1 (VString s) (map code s)
  | W_long c low high :
      c = 2 \/ c = 5 -> useBigIntAsLong opts = false -> is_int32 low -> is_int32 high ->
      single_wire c (VLong low high false) (be_bytes 4 high ++ be_bytes 4 low)
  | W_long_bigint c z :
      c = 2 \/ c = 5 -> useBigIntAsLong opts = true -> is_int64 z -> single_wire c (VBigInt z) (be_bytes 8 z)
  | W_blob c b : c = 0 \/ c = 3 -> single_wire c (VBuffer b) b
  | W_boolean b : single_wire 4 (VBoolean b) [if b : bool then 1 else 0]
  | W_decimal x :
      BigDecimal_wf x -> single_wire 6 (VBigDecimal x) (be_bytes 4 (_scale x) ++ Integer_toBuffer (_intVal x))
  | W_double n : is_double n -> single_wire 7 (VNumber n) (be_bytes 8 (double_bits n))
  | W_float n : is_float n -> single_wire 8 (VNumber n) (be_bytes 4 (float_bits n))
  | W_fixed c n z :
      (c = 9 /\ n = 4%nat) \/ (c = 19 /\ n = 2%nat) \/ (c = 20 /\ n = 1%nat) ->
      - 2 ^ (8 * Z.of_nat n - 1) <= z < 2 ^ (8 * Z.of_nat n - 1) -> single_wire c (VNumber (Int z)) (be_bytes n z)
  | W_text c s : c = 10 \/ c = 13 -> single_wire c (VString s) (utf8_encode s)
  | W_timestamp t : Z.abs t <= 8640000000000000 -> single_wire 11 (VDate (Some t)) (be_bytes 8 t)
  | W_uuid b : length b = 16%nat -> single_wire 12 (VUuid (mkUuid b)) b
  | W_timeuuid b : length b = 16%nat -> single_wire 15 (VTimeUuid (mkUuid b)) b
  | W_varint x : useBigIntAsVarint opts = false -> Integer_wf x -> single_wire 14 (VInteger x) (Integer_toBuffer x)
  | W_varint_bigint z b : useBigIntAsVarint opts = true -> bigint_bytes z = Ok b -> single_wire 14 (VBigInt z) b
  | W_inet b : length b = 4%nat \/ length b = 16%nat -> single_wire 16 (VInetAddress (mkInet b)) b
  | W_date n x : LocalDate_newDays n = Ok x -> single_wire 17 (VLocalDate x) (be_bytes 4 (n + 2 ^ 31))
  | W_time v :
      time_in_range v = true ->
      single_wire 18 (VLocalTime (convert_to_object v)) (be_bytes 4 (v / 2 ^ 32) ++ be_bytes 4 (v mod 2 ^ 32))
  | W_duration d : Duration_wf d -> single_wire 21 (VDuration d) (duration_bytes d).

Lemma encode_duration d : Duration_wf d -> encodeDuration scratch (VDuration d) = Ok (duration_bytes d).
Proof.
  intros Hd. unfold encodeDuration.
  by destruct (Duration_toBuffer_bytes d scratch scratch scratch Hd Hscratch Hscratch Hscratch) as (? & ? & ? & -> & _).
Qed.

Lemma duration_bytes_nonempty d : Duration_wf d -> duration_bytes d <> [].
Proof.
  intros (Hm & _) E'. apply (f_equal length) in E'. unfold duration_bytes in E'. rewrite length_app in E'. cbn [length] in E'.
  unfold is_int32 in Hm. pose proof (length_vint_bytes (zigzag (d_months d))) as L.
  assert (B : 0 <= zigzag (d_months d) < 2 ^ 64) by (unfold zigzag; case_match; lia).
  specialize (L B). pose proof (vint_size_bounds _ B) as [S _]. lia.
Qed.

Lemma encode_timestamp t :
  Z.abs t <= 8640000000000000 -> encodeTimestamp E (VDate (Some t)) = Ok (be_bytes 8 t).
Proof.
  intros Ht. unfold encodeTimestamp, encodeLong. cbn [mbind result_bind]. fold opts.
  destruct (useBigIntAsLong opts); cbn [to_bigint fmap result_fmap mbind result_bind Int].
  - unfold _encodeBigIntFromBigInt. cbn [mbind result_bind]. by rewrite bigint_halves by lia.
  - unfold _encodeBigIntFromLong. f_equal. rewrite long_toBuffer_bits.
    destruct (long_fromNumber_val t ltac:(lia)) as [V _]. apply be_bytes_mod. rewrite <- long_val_bits, V.
    change (8 * Z.of_nat 8) with 64. by rewrite Z.mod_mod by lia.
Qed.

Lemma decode_timestamp t : Z.abs t <= 8640000000000000 -> decodeTimestamp (be_bytes 8 t) = Ok (VDate (Some t)).
Proof.
  intros Ht. unfold decodeTimestamp. rewrite read_long. cbn [mbind result_bind fst snd]. rewrite long_toNumber_val.
  assert (V : long_val (Long_fromBits (to_int32 t) (to_int32 (t / 2 ^ 32)) false) = t).
  { apply long_val_of_bits; [apply long_fromBits_unsigned| |unfold is_int64; lia]. rewrite long_fromBits_bits.
    unfold to_uint32. rewrite !to_int32_mod. div_lia. }
  rewrite V, round53_id by lia. by destruct (Z.leb_spec (Z.abs t) 8640000000000000); [|lia].
Qed.

Lemma encode_long low high :
  useBigIntAsLong opts = false -> is_int32 low -> is_int32 high ->
  let b := be_bytes 4 high ++ be_bytes 4 low in
  encodeLong E (VLong low high false) = Ok b /\ decodeLong E b = Ok (VLong low high false).
Proof.
  intros O Hl Hh. unfold encodeLong, decodeLong. fold opts. rewrite O. split; [done|]. by rewrite read_long_halves.
Qed.

Lemma encode_long_bigint z :
  useBigIntAsLong opts = true -> is_int64 z ->
  encodeLong E (VBigInt z) = Ok (be_bytes 8 z) /\ decodeLong E (be_bytes 8 z) = Ok (VBigInt z).
Proof.
  intros O Hz. unfold encodeLong, decodeLong. fold opts. rewrite O. split; [|by apply read_bigint].
  unfold _encodeBigIntFromBigInt. cbn [mbind result_bind]. by rewrite bigint_halves by (unfold is_int64 in *; lia).
Qed.

Lemma encode_decimal x :
  BigDecimal_wf x ->
  let b := be_bytes 4 (_scale x) ++ Integer_toBuffer (_intVal x) in
  encodeDecimal toString_ toFixed20 (VBigDecimal x) = Ok b /\ BigDecimal_fromBuffer b = Ok x.
Proof.
  destruct x as [i scale]. intros [W S]. cbn [_intVal _scale] in *.
  unfold encodeDecimal, BigDecimal_toBuffer, BigDecimal_fromBuffer. cbn [_intVal _scale].
  assert (Ew : writeInt 4 scale = Ok (be_bytes 4 scale)).
  { unfold writeInt, is_int32 in *. change (2 ^ (8 * Z.of_nat 4 - 1)) with (2 ^ 31).
    destruct (Z.leb_spec (- 2 ^ 31) scale), (Z.ltb_spec scale (2 ^ 31)); done || lia. }
  rewrite Ew. split; [done|].
  pose proof (readInt_writeInt 4 scale _ [] (Integer_toBuffer i) ltac:(lia) Ew) as Er. cbn [app length] in Er.
  rewrite Er. cbn [mbind result_bind]. rewrite drop_app_length' by (symmetry; apply length_be_bytes). do 2 f_equal.
  destruct (Integer_toBuffer_spec i W) as (B & N & V). destruct (Integer_fromBuffer_spec _ B N) as [W2 V2].
  apply Integer_val_inj; [done|done|by rewrite V2].
Qed.

Lemma encode_varint x :
  useBigIntAsVarint opts = false -> Integer_wf x ->
  let b := Integer_toBuffer x in
  encodeVarint E (VInteger x) = Ok b /\ decodeVarint E b = VInteger x /\ b <> [].
Proof.
  intros O W. cbv zeta. unfold encodeVarint, decodeVarint. fold opts. rewrite O.
  destruct (Integer_toBuffer_spec x W) as (B & N & V). destruct (Integer_fromBuffer_spec _ B N) as [W2 V2].
  split_and!; [done| |done]. f_equal. apply Integer_val_inj; [done|done|by rewrite V2].
Qed.

Lemma encode_varint_bigint z b :
  useBigIntAsVarint opts = true -> bigint_bytes z = Ok b ->
  encodeVarint E (VBigInt z) = Ok b /\ decodeVarint E b = VBigInt z /\ b <> [].
Proof.
  intros O Hz. unfold encodeVarint, decodeVarint. fold opts. rewrite O.
  destruct (bigint_bytes_spec z) as (b' & Eb & B & N & V). rewrite Hz in Eb. injection Eb as <-.
  split_and!; [done| |done]. by rewrite decodeVarint_spec, V.
Qed.

Lemma encode_fixed_int n z :
  (0 < n)%nat -> - 2 ^ (8 * Z.of_nat n - 1) <= z < 2 ^ (8 * Z.of_nat n - 1) ->
  encode_fixed n (VNumber (Int z)) = Ok (be_bytes n z) /\ decode_fixed n (be_bytes n z) = Ok (VNumber (Int z)).
Proof.
  intros Hn Hz. split.
  - unfold encode_fixed, write_number. cbn [to_number mbind result_bind Int]. change (2 ^ Z.of_N 0) with 1.
    rewrite !Z.mul_1_r, Z.quot_1_r.
    destruct (Z.ltb_spec z (- 2 ^ (8 * Z.of_nat n - 1))), (Z.ltb_spec (2 ^ (8 * Z.of_nat n - 1) - 1) z); done || lia.
  - unfold decode_fixed. by rewrite readInt_be.
Qed.

Lemma be_bytes_app_nonempty n v l : be_bytes (S n) v ++ l <> [].
Proof. intros [E0 _]%app_eq_nil. by apply be_bytes_nonempty in E0. Qed.

(** Every encoder writes the format, every decoder reads it, and an empty
    encoding is one that [decode] does not take for null. *)
Lemma single_roundtrip c v b :
  single_wire c v b ->
  (c = 0 \/ encode_single alloc scratch toString_ toFixed20 E c v = Some (Ok b)) /\ decode_single E c b = Some (Ok v) /\
  (b <> [] \/ zeroLengthTypesSupported c = true).
Proof.
  intros Hw. destruct Hw as [s Hs|c low high Hc O Hl Hh|c z Hc O Hz|c b Hc|b|x W|n D|n D|c n z Hc Hz|c s Hc|t Ht|b Hb|b Hb
    |x O W|z b O Hz|b Hb|n x Hx|v Hv|d Hd].
  - split_and!; [by right| |by right]. cbn [decode_single encode_single]. do 3 f_equal. by apply ascii_roundtrip.
  - destruct (encode_long low high O Hl Hh) as [E1 E2].
    destruct Hc as [-> | ->]; (split_and!; [right|..|left; apply be_bytes_app_nonempty]); by first [exact (f_equal Some E1)|exact (f_equal Some E2)].
  - destruct (encode_long_bigint z O Hz) as [E1 E2].
    destruct Hc as [-> | ->]; (split_and!; [right|..|left; apply (be_bytes_nonempty 7)]); by first [exact (f_equal Some E1)|exact (f_equal Some E2)].
  - destruct Hc as [-> | ->]; (split_and!; [first [by left|by right]|done|by right]).
  - split_and!; [by right; destruct b|by destruct b|by left].
  - destruct (encode_decimal x W) as [E1 E2]. split_and!; [right; exact (f_equal Some E1)| |left; apply be_bytes_app_nonempty].
    cbn [decode_single encode_single]. by rewrite E2.
  - destruct (double_roundtrip n D) as [B R]. split_and!; [by right| |left; apply be_bytes_nonempty].
    cbn [decode_single encode_single]. unfold decodeDouble. rewrite readUInt_be by done. cbn [mbind result_bind]. by rewrite R.
  - destruct (float_roundtrip n D) as [B R]. split_and!; [by right| |left; apply be_bytes_nonempty].
    cbn [decode_single encode_single]. unfold decodeFloat. rewrite readUInt_be by done. cbn [mbind result_bind]. by rewrite R.
  - destruct (encode_fixed_int n z) as [E1 E2]; [lia|done|].
    destruct Hc as [[-> ->]|[[-> ->]|[-> ->]]]; (split_and!; [right|..|left; apply be_bytes_nonempty]); by first [exact (f_equal Some E1)|exact (f_equal Some E2)].
  - destruct Hc as [-> | ->]; (split_and!; [by right| |by right]); cbn [decode_single encode_single]; by rewrite utf8_roundtrip.
  - split_and!; [right| |left; apply be_bytes_nonempty]; cbn [decode_single encode_single]; [by rewrite encode_timestamp|by rewrite decode_timestamp].
  - split_and!; [by right| |left; by destruct b]. cbn [decode_single encode_single]. unfold Uuid_new. by rewrite Hb.
  - split_and!; [by right| |left; by destruct b]. cbn [decode_single encode_single]. unfold TimeUuid_fromBuffer, Uuid_new. by rewrite Hb.
  - destruct (encode_varint x O W) as (E1 & E2 & N). split_and!; [right; exact (f_equal Some E1)|cbn [decode_single encode_single]; by rewrite E2|by left].
  - destruct (encode_varint_bigint z b O Hz) as (E1 & E2 & N). split_and!; [right; exact (f_equal Some E1)|cbn [decode_single encode_single]; by rewrite E2|by left].
  - split_and!; [by right| |left; destruct Hb; by destruct b]. cbn [decode_single encode_single]. unfold InetAddress_new. by destruct Hb as [-> | ->].
  - destruct (LocalDate_buffer n x Hx) as [E1 E2]. split_and!; [right; exact (f_equal Some E1)|cbn [decode_single encode_single]; by rewrite E2|left; apply be_bytes_nonempty].
  - destruct (LocalTime_buffer_read v Hv) as (b & E1 & L & E2). rewrite LocalTime_toBuffer_bytes in E1 by done.
    assert (Eb : b = be_bytes 4 (v / 2 ^ 32) ++ be_bytes 4 (v mod 2 ^ 32)) by congruence. rewrite Eb in E2.
    split_and!; [right; exact (f_equal Some (LocalTime_toBuffer_bytes v Hv))|cbn [decode_single encode_single]; by rewrite E2|left; apply be_bytes_app_nonempty].
  - split_and!; [right; cbn [decode_single encode_single]; by rewrite encode_duration|cbn [decode_single encode_single]; by rewrite Duration_fromBuffer_bytes|left; by apply duration_bytes_nonempty].
Qed.
End singles.

From S2P Require Import Version.

(** The parts of collections in bytes: what one loop of the encoder writes, the
    loop of the decoder reads. *)

(** ** Bytes at an offset *)

Lemma js_slice_mid pre b post :
  js_slice (pre ++ b ++ post) (Z.of_nat (length pre)) (Z.of_nat (length pre) + Z.of_nat (length b)) = b.
Proof.
  unfold js_slice. rewrite !length_app.
  destruct (Z.ltb_spec (Z.of_nat (length pre)) 0); [lia|].
  destruct (Z.ltb_spec (Z.of_nat (length pre) + Z.of_nat (length b)) 0); [lia|].
  rewrite !Z.min_l by lia. rewrite <- Nat2Z.inj_add, !Nat2Z.id. unfold slice.
  rewrite drop_app_length. replace (length pre + length b - length pre)%nat with (length b) by lia. apply take_app_length.
Qed.

Lemma js_slice_tail pre b :
  js_slice (pre ++ b) (Z.of_nat (length pre)) (Z.of_nat (length (pre ++ b))) = b.
Proof. pose proof (js_slice_mid pre b []) as S. rewrite app_nil_r in S. by rewrite length_app, Nat2Z.inj_add. Qed.

Lemma readInt_at_mid n pre v post :
  (0 < n)%nat -> - 2 ^ (8 * Z.of_nat n - 1) <= v < 2 ^ (8 * Z.of_nat n - 1) ->
  readInt_at n (pre ++ be_bytes n v ++ post) (Z.of_nat (length pre)) = Ok v.
Proof.
  intros Hn [H1%Z.leb_le H2%Z.ltb_lt]. unfold readInt_at.
  destruct (Z.ltb_spec (Z.of_nat (length pre)) 0); [lia|]. rewrite Nat2Z.id.
  apply readInt_writeInt; [done|]. unfold writeInt. by rewrite H1, H2.
Qed.

Section lengths.
Context (E : Encoder).

(** A length or a number of items that the protocol version can express. *)
Definition fits (n : nat) : Prop :=
  Z.of_nat n < (if uses4BytesCollectionLength (protocolVersion E) then 2 ^ 31 else 2 ^ 16).

(** [collection_length n] is how it is written, and [frame b] is an item with
    its length in front. *)
Definition collection_length (n : nat) : list Z := be_bytes (collectionLengthSize E) (Z.of_nat n).
Definition frame (b : list Z) : list Z := collection_length (length b) ++ b.

Lemma length_collection_length n : length (collection_length n) = collectionLengthSize E.
Proof. apply length_be_bytes. Qed.

Lemma getLengthBuffer_fits n : fits n -> getLengthBuffer E (Z.of_nat n) = Ok (collection_length n).
Proof.
  unfold fits, getLengthBuffer, collection_length, collectionLengthSize. intros Hn.
  destruct (uses4BytesCollectionLength (protocolVersion E)).
  - unfold writeInt. change (8 * Z.of_nat 4 - 1) with 31.
    destruct (Z.leb_spec (- 2 ^ 31) (Z.of_nat n)), (Z.ltb_spec (Z.of_nat n) (2 ^ 31)); done || lia.
  - apply writeUInt_small. change (8 * Z.of_nat 2) with 16. lia.
Qed.

Lemma decodeCollectionLength_mid pre n post :
  fits n ->
  decodeCollectionLength E (pre ++ collection_length n ++ post) (Z.of_nat (length pre)) = Ok (Z.of_nat n).
Proof.
  unfold fits, decodeCollectionLength, collection_length, collectionLengthSize. intros Hn.
  destruct (uses4BytesCollectionLength (protocolVersion E)).
  - apply readInt_at_mid; [lia|]. change (8 * Z.of_nat 4 - 1) with 31. lia.
  - unfold readUInt_at. destruct (Z.ltb_spec (Z.of_nat (length pre)) 0); [lia|]. rewrite Nat2Z.id.
    apply readUInt_writeUInt. apply writeUInt_small. change (8 * Z.of_nat 2) with 16. lia.
Qed.

(** ** Lists and sets *)

Definition list_bytes (bs : list (list Z)) : list Z := collection_length (length bs) ++ concat (map frame bs).

Lemma concat_parts_buffers bs : concat_parts (map EBuffer bs) = Ok (concat bs).
Proof.
  unfold concat_parts.
  assert (T : traverse (fun e => match e with EBuffer b => Ok b | _ => Throw TypeError end) (map EBuffer bs) = Ok bs).
  { apply traverse_ok. induction bs; by constructor. }
  by rewrite T.
Qed.

Definition encodes (h : hint) (x : element) (b : list Z) : Prop :=
  nullish x.1 = false /\ x.2 h = Ok (EBuffer b) /\ fits (length b).

Lemma encode_item_ok h x b :
  encodes h x b -> encode_item E h x = Ok (map EBuffer [collection_length (length b); b]).
Proof.
  intros (N & Ex & F). unfold encode_item. rewrite N, Ex. cbn [mbind result_bind encoded_length].
  by rewrite getLengthBuffer_fits.
Qed.

Lemma encodeList_ok h items bs :
  Forall2 (encodes h) items bs -> items <> [] -> fits (length items) ->
  encodeList E items h = Ok (EBuffer (list_bytes bs)).
Proof.
  intros Hi Hne Hf. pose proof (Forall2_length _ _ _ Hi) as L. unfold encodeList. destruct items as [|x items]; [done|].
  rewrite getLengthBuffer_fits by done. cbn [mbind result_bind].
  assert (T : traverse (encode_item E h) (x :: items) = Ok (map (fun b => map EBuffer [collection_length (length b); b]) bs)).
  { apply traverse_ok. clear -Hi. induction Hi; constructor; [by apply encode_item_ok|done]. }
  rewrite T. cbn [mbind result_bind].
  replace (EBuffer (collection_length (length (x :: items))) :: concat (map (fun b => map EBuffer [collection_length (length b); b]) bs))
    with (map EBuffer (collection_length (length bs) :: concat (map (fun b => [collection_length (length b); b]) bs))).
  2: { cbn [map]. rewrite concat_map, map_map, L. done. }
  rewrite concat_parts_buffers. cbn. unfold list_bytes. do 3 f_equal. clear. unfold frame.
  induction bs as [|b bs IH]; [done|]. cbn. by rewrite IH, app_assoc.
Qed.

Lemma list_loop_ok dec l bs pre post :
  Forall2 (fun x b => dec b = Ok x /\ fits (length b)) l bs ->
  list_loop E dec (pre ++ concat (map frame bs) ++ post) (length l) (Z.of_nat (length pre)) = Ok l.
Proof.
  intros Hl. revert pre. induction Hl as [|x b l bs [D F] _ IH]; intros pre; [done|].
  cbn [length list_loop map concat]. change (frame b) with (collection_length (length b) ++ b). rewrite <- !app_assoc.
  rewrite decodeCollectionLength_mid by done. cbn [mbind result_bind].
  rewrite (app_assoc pre (collection_length _)).
  replace (Z.of_nat (length pre) + Z.of_nat (collectionLengthSize E))
    with (Z.of_nat (length (pre ++ collection_length (length b)))) by (rewrite length_app, length_collection_length; lia).
  rewrite js_slice_mid, D. cbn [mbind result_bind].
  rewrite <- Nat2Z.inj_add, <- length_app, (app_assoc _ b). by rewrite IH.
Qed.

Lemma decodeList_ok dec l bs :
  Forall2 (fun x b => dec b = Ok x /\ fits (length b)) l bs -> fits (length l) ->
  decodeList E dec (list_bytes bs) = Ok l.
Proof.
  intros Hl F. pose proof (Forall2_length _ _ _ Hl) as L. unfold decodeList, list_bytes. rewrite <- L.
  pose proof (decodeCollectionLength_mid [] (length l) (concat (map frame bs)) F) as R. cbn [app length] in R.
  change (Z.of_nat 0) with 0 in R. rewrite R. cbn [mbind result_bind]. destruct (Z.ltb_spec (Z.of_nat (length l)) 0); [lia|]. rewrite Nat2Z.id.
  pose proof (list_loop_ok dec l bs (collection_length (length l)) [] Hl) as S. rewrite app_nil_r, length_collection_length in S.
  exact S.
Qed.

(** ** Maps *)

Definition entry_bytes (kv : list Z * list Z) : list Z := frame kv.1 ++ frame kv.2.
Definition map_bytes (bs : list (list Z * list Z)) : list Z :=
  collection_length (length bs) ++ concat (map entry_bytes bs).

Lemma encode_entry_ok hk hv kv bb :
  encodes hk kv.1 bb.1 -> encodes hv kv.2 bb.2 ->
  encode_entry E hk hv kv =
    Ok (map EBuffer [collection_length (length bb.1); bb.1; collection_length (length bb.2); bb.2]).
Proof.
  destruct kv as [k v], bb as [b c]. cbn [fst snd]. intros (Nk & Ek & Fk) (Nv & Ev & Fv).
  unfold encode_entry. rewrite Nk, Nv, Ek. cbn [mbind result_bind encoded_length].
  rewrite getLengthBuffer_fits by done. cbn [mbind result_bind]. rewrite Ev. cbn [mbind result_bind encoded_length].
  by rewrite getLengthBuffer_fits.
Qed.

Lemma encodeMap_ok hk hv entries bs :
  Forall2 (fun kv bb => encodes hk kv.1 bb.1 /\ encodes hv kv.2 bb.2) entries bs -> fits (length entries) ->
  encodeMap E entries hk hv = Ok (EBuffer (map_bytes bs)).
Proof.
  intros Hi Hf. pose proof (Forall2_length _ _ _ Hi) as L. unfold encodeMap.
  set (parts := fun bb : list Z * list Z => [collection_length (length bb.1); bb.1; collection_length (length bb.2); bb.2]).
  assert (T : traverse (encode_entry E hk hv) entries = Ok (map (fun bb => map EBuffer (parts bb)) bs)).
  { apply traverse_ok. clear -Hi. induction Hi as [|? ? ? ? [? ?] _ IH]; constructor; [by apply encode_entry_ok|done]. }
  rewrite T. cbn [mbind result_bind]. rewrite getLengthBuffer_fits by done. cbn [mbind result_bind].
  replace (EBuffer (collection_length (length entries)) :: concat (map (fun bb => map EBuffer (parts bb)) bs))
    with (map EBuffer (collection_length (length bs) :: concat (map parts bs))).
  2: { cbn [map]. by rewrite concat_map, map_map, L. }
  rewrite concat_parts_buffers. cbn. unfold map_bytes. do 3 f_equal. clear. unfold entry_bytes, frame.
  induction bs as [|b bs IH]; [done|]. cbn. by rewrite IH, <- !app_assoc.
Qed.

Lemma map_loop_ok dk dv entries bs pre post :
  Forall2 (fun kv bb => (dk bb.1 = Ok kv.1 /\ fits (length bb.1)) /\ (dv bb.2 = Ok kv.2 /\ fits (length bb.2))) entries bs ->
  map_loop E dk dv (pre ++ concat (map entry_bytes bs) ++ post) (length entries) (Z.of_nat (length pre)) = Ok entries.
Proof.
  intros Hl. revert pre. induction Hl as [|[k v] [b c] entries bs [[Dk Fk] [Dv Fv]] _ IH]; intros pre; [done|].
  cbn [fst snd] in *. cbn [length map_loop map concat].
  change (entry_bytes (b, c)) with ((collection_length (length b) ++ b) ++ (collection_length (length c) ++ c)).
  rewrite <- !app_assoc. rewrite decodeCollectionLength_mid by done. cbn [mbind result_bind].
  rewrite (app_assoc pre (collection_length _)).
  assert (S : forall (l : list Z) m, Z.of_nat (length l) + Z.of_nat (collectionLengthSize E) = Z.of_nat (length (l ++ collection_length m)))
    by (intros; rewrite length_app, length_collection_length; lia).
  rewrite (S pre (length b)), js_slice_mid, Dk. cbn [mbind result_bind].
  rewrite <- Nat2Z.inj_add, <- length_app, (app_assoc _ b), decodeCollectionLength_mid by done. cbn [mbind result_bind].
  rewrite (S _ (length c)). destruct (Z.ltb_spec (Z.of_nat (length c)) 0); [lia|].
  rewrite (app_assoc _ (collection_length (length c))), js_slice_mid, Dv. cbn [mbind result_bind].
  rewrite <- Nat2Z.inj_add, <- length_app, (app_assoc _ c). by rewrite IH.
Qed.

Lemma map_entries_ok dk dv entries bs :
  Forall2 (fun kv bb => (dk bb.1 = Ok kv.1 /\ fits (length bb.1)) /\ (dv bb.2 = Ok kv.2 /\ fits (length bb.2))) entries bs ->
  fits (length entries) ->
  decodeMap E dk dv (map_bytes bs) =
    if opt_map (encodingOptions E) then Ok (VMap (foldl (fun m kv => map_set m kv.1 kv.2) [] entries))
    else VObject <$> object_sets [] entries.
Proof.
  intros Hl F. pose proof (Forall2_length _ _ _ Hl) as L. unfold decodeMap, map_bytes. rewrite <- L.
  pose proof (decodeCollectionLength_mid [] (length entries) (concat (map entry_bytes bs)) F) as R. cbn [app length] in R.
  change (Z.of_nat 0) with 0 in R. rewrite R. cbn [mbind result_bind]. rewrite Nat2Z.id.
  pose proof (map_loop_ok dk dv entries bs (collection_length (length entries)) [] Hl) as S.
  rewrite app_nil_r, length_collection_length in S. by rewrite S.
Qed.
End lengths.

(** ** Fields of user-defined types and elements of tuples *)

Definition field_bytes (f : option (list Z)) : list Z :=
  match f with Some b => be_bytes 4 (Z.of_nat (length b)) ++ b | None => nullValueBuffer end.

Definition field_fits (f : option (list Z)) : Prop :=
  match f with Some b => Z.of_nat (length b) < 2 ^ 31 | None => True end.

(** What is encoded for a field, and what is decoded. *)
Definition field_encoded (f : option (list Z)) : encoded := match f with Some b => EBuffer b | None => ENull end.

Definition field_decodes (d : list Z -> result value) (x : value) (f : option (list Z)) : Prop :=
  match f with Some b => d b = Ok x | None => x = VNull end.

Lemma encode_field_ok r f : r = Ok (field_encoded f) -> field_fits f -> encode_field r = Ok (field_bytes f).
Proof.
  intros -> F. destruct f as [b|]; [|done]. cbn in F |- *. unfold writeInt. change (8 * Z.of_nat 4 - 1) with 31.
  destruct (Z.leb_spec (- 2 ^ 31) (Z.of_nat (length b))), (Z.ltb_spec (Z.of_nat (length b)) (2 ^ 31)); done || lia.
Qed.

Lemma fields_loop_ok {A} (names : list A) ds l fs pre post :
  Forall3 (fun d x f => field_decodes d x f /\ field_fits f) ds l fs -> length names = length ds ->
  fields_loop (zip names ds) (pre ++ concat (map field_bytes fs) ++ post) (Z.of_nat (length pre)) = Ok (zip names l).
Proof.
  intros Hl. revert names pre. induction Hl as [|d x f ds l fs [D F] _ IH]; intros [|name names] pre L; try done.
  injection L as L. cbn [zip zip_with fields_loop map concat]. fold (zip names ds) (zip names l).
  assert (P : (0 < length (field_bytes f))%nat) by (destruct f; cbn [field_bytes]; rewrite ?length_app, ?length_be_bytes; cbn; lia).
  destruct (Z.ltb_spec (Z.of_nat (length pre)) (Z.of_nat (length (pre ++ (field_bytes f ++ concat (map field_bytes fs)) ++ post))))
    as [_|Hlt]; [|rewrite !length_app in Hlt; lia].
  destruct f as [b|]; cbn [field_bytes field_decodes field_fits] in *; rewrite <- !app_assoc.
  - rewrite (readInt_at_mid 4) by (change (8 * Z.of_nat 4 - 1) with 31; lia). cbn [mbind result_bind].
    destruct (Z.ltb_spec (Z.of_nat (length b)) 0); [lia|].
    rewrite (app_assoc pre). replace (Z.of_nat (length pre) + 4) with (Z.of_nat (length (pre ++ be_bytes 4 (Z.of_nat (length b)))))
      by (rewrite length_app, length_be_bytes; lia).
    rewrite js_slice_mid, D. cbn [mbind result_bind].
    rewrite <- Nat2Z.inj_add, <- length_app, (app_assoc _ b). by rewrite IH.
  - subst x. change nullValueBuffer with (be_bytes 4 (-1)).
    rewrite (readInt_at_mid 4) by (change (8 * Z.of_nat 4 - 1) with 31; lia). cbn [mbind result_bind].
    change (-1 <? 0) with true. cbn iota. rewrite (app_assoc pre).
    replace (Z.of_nat (length pre) + 4) with (Z.of_nat (length (pre ++ be_bytes 4 (-1)))) by (rewrite length_app, length_be_bytes; lia).
    by rewrite IH.
Qed.

(** ** Vectors *)

(** The bytes [e] of an item whose own bytes are [b], in a vector of items of
    [size] bytes, or of any size. *)
Definition vector_item (size : Z) (b e : list Z) : Prop :=
  if size =? -1
  then Z.of_nat (length b) < 2 ^ 31 /\ exists len, uvintPack (Z.of_nat (length b)) = Ok len /\ e = len ++ b
  else Z.of_nat (length b) = size /\ e = b.

Lemma encode_vector_items sub size items bs es :
  Forall2 (fun (x : element) b => x.2 (HintType sub) = Ok (EBuffer b)) items bs ->
  Forall2 (vector_item size) bs es ->
  exists parts, traverse (encode_vector_item sub size) items = Ok parts /\ concat_parts (concat parts) = Ok (concat es).
Proof.
  intros Hi He.
  assert (T : exists parts, traverse (encode_vector_item sub size) items = Ok (map (map EBuffer) parts) /\ concat (concat parts) = concat es).
  { revert es He. induction Hi as [|x b items bs Hx _ IH]; intros es He; inversion He as [|? e ? es' Hv He']; subst; [by exists []|].
    destruct (IH _ He') as (parts & T & C).
    assert (I : exists p, encode_vector_item sub size x = Ok (map EBuffer p) /\ concat p = e).
    { unfold encode_vector_item, vector_item in *. rewrite Hx. cbn [mbind result_bind]. destruct (size =? -1).
      - destruct Hv as (_ & len & U & ->). rewrite U. exists [len; b]. split; [done|]. cbn. by rewrite app_nil_r.
      - destruct Hv as [_ ->]. exists [b]. split; [done|]. cbn. by rewrite app_nil_r. }
    destruct I as (p & I & Cp). exists (p :: parts). cbn [traverse]. rewrite I, T. split; [done|].
    cbn [concat]. by rewrite concat_app, Cp, C. }
  destruct T as (parts & T & C). exists (map (map EBuffer) parts). split; [done|]. by rewrite <- concat_map, concat_parts_buffers, C.
Qed.

Lemma vector_loop_ok dec size l bs es pre post :
  Forall3 (fun x b e => dec b = Ok x /\ vector_item size b e) l bs es ->
  vector_loop dec size (pre ++ concat es ++ post) (length l) (Z.of_nat (length pre)) =
    Ok (l, Z.of_nat (length (pre ++ concat es))).
Proof.
  intros Hl. revert pre. induction Hl as [|x b e l bs es [D V] _ IH]; intros pre; [cbn; by rewrite app_nil_r|].
  cbn [length vector_loop concat]. unfold vector_item in V.
  assert (Step : forall head, e = head ++ b ->
    (if Z.of_nat (length (pre ++ (e ++ concat es) ++ post)) <? Z.of_nat (length (pre ++ head)) + Z.of_nat (length b) then Throw TypeError
     else
       x0 ← dec (js_slice (pre ++ (e ++ concat es) ++ post) (Z.of_nat (length (pre ++ head)))
              (Z.of_nat (length (pre ++ head)) + Z.of_nat (length b)));
       r ← vector_loop dec size (pre ++ (e ++ concat es) ++ post) (length l) (Z.of_nat (length (pre ++ head)) + Z.of_nat (length b));
       Ok (x0 :: r.1, r.2)) = Ok (x :: l, Z.of_nat (length (pre ++ e ++ concat es)))).
  { intros head ->. destruct (Z.ltb_spec (Z.of_nat (length (pre ++ ((head ++ b) ++ concat es) ++ post))) (Z.of_nat (length (pre ++ head)) + Z.of_nat (length b)))
      as [Hlt|_]; [rewrite !length_app in Hlt; lia|].
    rewrite <- !app_assoc, (app_assoc pre head), js_slice_mid, D. cbn [mbind result_bind].
    rewrite <- Nat2Z.inj_add, <- length_app, (app_assoc _ b), IH. cbn [mbind result_bind fst snd].
    by rewrite <- !app_assoc. }
  destruct (size =? -1).
  - destruct V as (B & len & U & Ee). rewrite js_slice_tail.
    destruct (uvint_roundtrip (Z.of_nat (length b)) (b ++ concat es ++ post) ltac:(lia)) as (len' & U' & _ & R).
    rewrite U in U'. injection U' as <-.
    assert (R' : uvintUnpack ((e ++ concat es) ++ post) = (Z.of_nat (length b), Z.of_nat (length len))).
    { by rewrite Ee, <- !app_assoc, R. }
    rewrite R'. cbn beta iota zeta. rewrite <- Nat2Z.inj_add, <- length_app. exact (Step len Ee).
  - destruct V as [B Ee]. specialize (Step [] Ee). rewrite app_nil_r, B in Step. rewrite Z.add_0_r. exact Step.
Qed.
