(* ===== verification/EncoderTheorems.v ===== *)
(** The round trip of [lib/encoder.js]: the format of the native protocol as a
    relation between a type, a value and its bytes; [encode] writes it and
    [decode] reads it. *)
From S2P Require Import Prelude.
From S2P Require Import JsNum.
From S2P Require Import JsStr.
From S2P Require Import Buffer.
From S2P Require Import LongLib.
From S2P Require Import Version.
From S2P Require Import VInt.
From S2P Require Import Duration.
From S2P Require Import DurationTheorems.
From S2P Require Import Utils.
From S2P Require Import TypeNames.
From S2P Require Import Encoder.
From S2P Require Import Decoder.
From S2P Require Import EncoderValues.

(** Induction over the parts of a type. *)
Section column_type_induction.
Context (P : column_type -> Prop).
Context (HSimple : forall c, P (TSimple c)) (HList : forall t, P t -> P (TList t)) (HSet : forall t, P t -> P (TSet t))
  (HMap : forall k v, P k -> P v -> P (TMap k v)) (HTuple : forall ts, Forall P ts -> P (TTuple ts))
  (HUdt : forall ks name fields, Forall (fun f => P f.2) fields -> P (TUdt ks name fields))
  (HUdtName : forall name, P (TUdtName name)) (HVector : forall t d, P t -> P (TVector t d)) (HCustom : forall i, P (TCustom i)).

Fixpoint column_type_nested_ind (t : column_type) : P t :=
  match t with
  | TSimple c => HSimple c
  | TList t => HList t (column_type_nested_ind t)
  | TSet t => HSet t (column_type_nested_ind t)
  | TMap k v => HMap k v (column_type_nested_ind k) (column_type_nested_ind v)
  | TTuple ts =>
      HTuple ts ((fix all ts := match ts return Forall P ts with
                                | [] => Forall_nil_2 _
                                | t :: ts' => Forall_cons_2 _ _ _ (column_type_nested_ind t) (all ts')
                                end) ts)
  | TUdt ks name fields =>
      HUdt ks name fields ((fix all fs := match fs return Forall (fun f => P f.2) fs with
                                          | [] => Forall_nil_2 _
                                          | f :: fs' => Forall_cons_2 _ f _ (column_type_nested_ind f.2) (all fs')
                                          end) fields)
  | TUdtName name => HUdtName name
  | TVector t d => HVector t d (column_type_nested_ind t)
  | TCustom i => HCustom i
  end.
End column_type_induction.

(** ** The format *)

Section format.
Context `{LongLib} (E : Encoder).

Let opts : encoding_options := encodingOptions E.

(** Values and their bytes, one by one. *)
Definition list_wire {A} (w : A -> list Z -> Prop) (l : list A) (b : list Z) : Prop :=
  fits E (length l) /\
  exists bs, Forall2 (fun x c => w x c /\ fits E (length c)) l bs /\ b = list_bytes E bs.

Definition map_wire {A B} (wk : A -> list Z -> Prop) (wv : B -> list Z -> Prop) (entries : list (A * B)) (b : list Z) : Prop :=
  fits E (length entries) /\
  exists bs, Forall2 (fun kv c => (wk kv.1 c.1 /\ fits E (length c.1)) /\ (wv kv.2 c.2 /\ fits E (length c.2))) entries bs /\
    b = map_bytes E bs.

(** A field is null or a value. *)
Definition field_wire (w : value -> list Z -> Prop) (x : value) (f : option (list Z)) : Prop :=
  match f with Some c => w x c | None => x = VNull end /\ field_fits f.

Definition fields_wire (ws : list (value -> list Z -> Prop)) (l : list value) (b : list Z) : Prop :=
  ws <> [] /\ exists fs, Forall3 field_wire ws l fs /\ b = concat (map field_bytes fs).

(** [wire t v b]: the bytes of the value [v] of the type [t] are [b].  With the
    option [map] (or [set]) a map (a set) is an instance of that class without
    repeated keys (elements); otherwise a map is an object, and a set an array. *)
Fixpoint wire (t : column_type) (v : value) (b : list Z) {struct t} : Prop :=
  match t, v with
  | TSimple c, _ => single_wire E c v b
  | TList sub, VArray l => l <> [] /\ list_wire (wire sub) l b
  | TSet sub, VArray l => opt_set opts = false /\ l <> [] /\ list_wire (wire sub) l b
  | TSet sub, VSet l => opt_set opts = true /\ set_of_array l = l /\ l <> [] /\ list_wire (wire sub) l b
  | TMap k w, VMap entries =>
      opt_map opts = true /\ foldl (fun m kv => map_set m kv.1 kv.2) [] entries = entries /\
      map_wire (wire k) (wire w) entries b
  | TMap k w, VObject props =>
      opt_map opts = false /\ (k = TSimple 1 \/ k = TSimple 10 \/ k = TSimple 13) /\ NoDup (map fst props) /\
      map_wire (wire k) (wire w) (map (fun p => (VString p.1, p.2)) props) b
  | TTuple ts, VTuple l => fields_wire (map wire ts) l b
  | TUdt _ _ fields, VObject props =>
      map fst props = map fst fields /\ NoDup (map fst fields) /\
      fields_wire (map (fun f => match f with (_, t) => wire t end) fields) (map snd props) b
  | TVector sub dimension, VVector l subtype =>
      l <> [] /\ dimension = Int (Z.of_nat (length l)) /\
      (exists name, getDataTypeNameByCode sub = Ok name /\ subtype = Some name) /\
      exists size bs es, serializationSizeIfFixed sub = Ok size /\ Forall2 (wire sub) l bs /\
        Forall2 (vector_item size) bs es /\ b = concat es
  | TCustom info, VDuration d => info = customTypeNames_duration /\ Duration_wf d /\ b = duration_bytes d
  | TCustom info, VBuffer c => starts_with customTypeNames_vector info = false /\ info <> customTypeNames_duration /\ b = c
  | _, _ => False
  end.
End format.

(** ** The round trip *)

Section roundtrip.
Context `{LongLaws} (alloc scratch : list Z) (toString_ toFixed20 : number -> jsstr) (E : Encoder).
Context (Hscratch : (9 <= length scratch)%nat).

Abbreviation enc := (encode alloc scratch toString_ toFixed20 E).
Abbreviation item := (fun x : value => (x, enc x)).

(** What is shown of every type by induction. *)
Record codec (t : column_type) (v : value) (b : list Z) : Prop := {
  codec_encode : enc v (HintType t) = Ok (EBuffer b);
  codec_decode : forall named, decode_with E named t b = Ok v;
  codec_present : nullish v = false;
  codec_size : forall size, serializationSizeIfFixed t = Ok size -> size = -1 \/ Z.of_nat (length b) = size }.

Lemma codec_encodes t v b : codec t v b -> fits E (length b) -> encodes E (HintType t) (item v) b.
Proof. intros [] F. done. Qed.

Lemma decode_with_present t (b : list Z) :
  b <> [] \/ zeroLengthTypesSupported (type_code t) = true ->
  bool_decide (b = []) && negb (zeroLengthTypesSupported (type_code t)) = false.
Proof. intros [Hb | ->]; [by rewrite bool_decide_eq_false_2|apply andb_false_r]. Qed.

Lemma single_size c v b size :
  single_wire E c v b -> serializationSizeIfFixed (TSimple c) = Ok size -> size = -1 \/ Z.of_nat (length b) = size.
Proof.
  intros Hw. destruct Hw; repeat match goal with H : _ \/ _ |- _ => destruct H end;
    repeat match goal with H : _ /\ _ |- _ => destruct H end; subst; cbn [serializationSizeIfFixed]; intros [= <-];
    first [by left|right; cbn; by rewrite ?length_app, ?length_be_bytes|right; lia].
Qed.

Lemma decode_with_single named c b r :
  decode_single E c b = Some r ->
  decode_with E named (TSimple c) b =
    if bool_decide (b = []) && negb (zeroLengthTypesSupported c) then Ok VNull else r.
Proof.
  intros D. cbn [decode_with type_code]. destruct (_ && _); [done|].
  destruct c as [|c|c]; [by injection D|..|done].
  do 6 (destruct c as [c|c|]; try done; try (by injection D)).
Qed.

Lemma single_codec c v b : single_wire E c v b -> codec (TSimple c) v b.
Proof.
  intros Hw. destruct (single_roundtrip alloc scratch toString_ toFixed20 E Hscratch c v b Hw) as (Ee & De & N). split.
  - destruct Ee as [-> | Ee].
    + inversion Hw; subst; done.
    + assert (G : enc v (HintType (TSimple c)) = encode_typed alloc scratch toString_ toFixed20 E
        (encode_key alloc scratch toString_ toFixed20 E) v NoElements (TSimple c) \/ exists c, v = VBuffer c)
        by (destruct Hw; eauto).
      destruct G as [-> | [d ->]].
      * unfold encode_typed. cbn [type_code]. by rewrite Ee.
      * inversion Hw; subst; done.
  - intros named. rewrite (decode_with_single _ _ _ _ De).
    pose proof (decode_with_present (TSimple c) b N) as G. cbn [type_code] in G. by rewrite G.
  - by destruct Hw.
  - intros size. by apply (single_size c v).
Qed.

Lemma list_codec sub l b :
  (forall x c, wire E sub x c -> codec sub x c) -> l <> [] -> list_wire E (wire E sub) l b ->
  encodeList E (map item l) (HintType sub) = Ok (EBuffer b) /\
  (forall named, decodeList E (decode_with E named sub) b = Ok l) /\ b <> [].
Proof.
  intros IH Hne (F & bs & Hl & ->). split_and!.
  - apply encodeList_ok; [|by destruct l|by rewrite length_map]. clear -IH Hl.
    induction Hl as [|x c l bs [W F] _ IHl]; constructor; [|done]. apply codec_encodes; [by apply IH|done].
  - intros named. apply decodeList_ok; [|done]. clear -IH Hl.
    induction Hl as [|x c l bs [W F] _ IHl]; constructor; [|done]. split; [|done]. by apply IH.
  - unfold list_bytes, collection_length, collectionLengthSize. case_match; apply be_bytes_app_nonempty.
Qed.

Lemma map_codec k w entries b (f : value -> element) :
  (forall x c, wire E k x c -> codec k x c) -> (forall x c, wire E w x c -> codec w x c) ->
  map_wire E (wire E k) (wire E w) entries b ->
  (forall x c, wire E k x c -> fits E (length c) -> x ∈ entries.*1 -> encodes E (HintType k) (f x) c) ->
  encodeMap E (map (fun kv => (f kv.1, item kv.2)) entries) (HintType k) (HintType w) = Ok (EBuffer b) /\
  (forall named, decodeMap E (decode_with E named k) (decode_with E named w) b =
     if opt_map (encodingOptions E) then Ok (VMap (foldl (fun m kv => map_set m kv.1 kv.2) [] entries))
     else VObject <$> object_sets [] entries) /\
  b <> [].
Proof.
  intros IHk IHw (F & bs & Hl & ->) Hf. split_and!.
  - apply encodeMap_ok; [|by rewrite length_map]. clear -IHw Hl Hf.
    induction Hl as [|[x y] [c d] l bs [[W1 F1] [W2 F2]] _ IHl]; constructor.
    + cbn [fst snd] in *. split; [apply Hf; [done|done|left]|]. apply codec_encodes; [by apply IHw|done].
    + apply IHl. intros x' c' ? ? ?. apply Hf; [done|done|]. by right.
  - intros named. apply map_entries_ok; [|done]. clear -IHk IHw Hl.
    induction Hl as [|[x y] [c d] l bs [[W1 F1] [W2 F2]] _ IHl]; constructor; [|done].
    cbn [fst snd] in *. by split; split; try done; [apply IHk|apply IHw].
  - unfold map_bytes, collection_length, collectionLengthSize. case_match; apply be_bytes_app_nonempty.
Qed.

(** Distinct names set one after the other. *)
Lemma foldl_obj_set (props o : obj value) :
  NoDup (map fst (o ++ props)) -> foldl (fun o p => obj_set o p.1 p.2) o props = o ++ props.
Proof.
  revert o. induction props as [|[k v] props IH]; intros o Ho; [by rewrite app_nil_r|]. cbn [foldl fst snd].
  rewrite map_app in Ho. cbn [map fst] in Ho.
  assert (Hk : k ∉ map fst o).
  { intros Hin. apply NoDup_app in Ho as (_ & D & _). apply (D k Hin). left. }
  rewrite obj_set_new, IH by (done || by rewrite <- app_assoc, map_app). by rewrite <- app_assoc.
Qed.

Lemma object_sets_names (props : obj value) o :
  object_sets o (map (fun p => (VString p.1, p.2)) props) = Ok (foldl (fun o p => obj_set o p.1 p.2) o props).
Proof. revert o. induction props as [|[k v] props IH]; intros o; [done|]. cbn. by rewrite IH. Qed.

Lemma obj_get_in {V} (o : obj V) k v : NoDup (map fst o) -> (k, v) ∈ o -> obj_get o k = Some v.
Proof.
  induction o as [|[k' v'] o IH]; intros Hn Hin; [by apply elem_of_nil in Hin|]. cbn [map fst] in Hn.
  apply NoDup_cons in Hn as [Hk Hn]. cbn. apply elem_of_cons in Hin as [[= -> ->]|Hin]; [by rewrite decide_True|].
  rewrite decide_False; [by apply IH|]. intros ->. apply Hk. apply list_elem_of_fmap. by exists (k', v).
Qed.

(** A property name is encoded as the text it is. *)
Lemma encode_key_text k name c :
  k = TSimple 1 \/ k = TSimple 10 \/ k = TSimple 13 -> wire E k (VString name) c -> fits E (length c) ->
  encodes E (HintType k) (encode_key alloc scratch toString_ toFixed20 E name) c.
Proof.
  intros Hk Hw F. assert (single : exists c', k = TSimple c' /\ single_wire E c' (VString name) c) by (destruct Hk as [-> | [-> | ->]]; eauto).
  destruct single as (c' & -> & Hs). pose proof (codec_encode _ _ _ (single_codec c' _ c Hs)) as Ee.
  split; [done|]. split; [|done]. exact Ee.
Qed.

(** *** Fields *)

Lemma field_codec t x f :
  (forall x c, wire E t x c -> codec t x c) -> field_wire (wire E t) x f ->
  encode_field (enc x (HintType t)) = Ok (field_bytes f) /\
  (forall named, field_decodes (decode_with E named t) x f /\ field_fits f).
Proof.
  intros IH [W F]. destruct f as [c|].
  - destruct (IH x c W) as [Ee De _ _]. split; [by apply encode_field_ok|]. intros named. split; [apply De|done].
  - subst x. split; [done|]. intros named. done.
Qed.

Lemma fields_nonempty f fs : concat (map field_bytes (f :: fs)) <> [].
Proof. destruct f; cbn [map concat field_bytes]; rewrite <- ?app_assoc; [apply be_bytes_app_nonempty|done]. Qed.

Lemma fields_codec ts l fs :
  Forall (fun t => forall x c, wire E t x c -> codec t x c) ts -> Forall3 field_wire (map (wire E) ts) l fs ->
  Forall3 (fun t x f => encode_field (enc x (HintType t)) = Ok (field_bytes f)) ts l fs /\
  (forall named, Forall3 (fun d x f => field_decodes d x f /\ field_fits f) (map (decode_with E named) ts) l fs) /\
  length l = length ts.
Proof.
  intros IH. revert l fs. induction IH as [|t ts Ht _ IHt]; intros l fs Hf; inversion Hf as [|? x f ? l' fs' Hx Hl]; subst; [by repeat constructor|].
  destruct (IHt _ _ Hl) as (G1 & G2 & G3). destruct (field_codec t x f Ht Hx) as [E1 D1].
  split_and!; [by constructor|intros named; cbn [map]; by constructor|cbn; lia].
Qed.

Lemma decode_fields {A} (names : list A) ts l fs named :
  Forall3 (fun d x f => field_decodes d x f /\ field_fits f) (map (decode_with E named) ts) l fs -> length names = length ts ->
  fields_loop (zip names (map (decode_with E named) ts)) (concat (map field_bytes fs)) 0 = Ok (zip names l).
Proof.
  intros Hf L. pose proof (fields_loop_ok names _ l fs [] [] Hf ltac:(by rewrite length_map)) as R.
  cbn [app length] in R. by rewrite app_nil_r in R.
Qed.

Lemma tuple_codec ts l b :
  Forall (fun t => forall x c, wire E t x c -> codec t x c) ts -> fields_wire (map (wire E) ts) l b ->
  encodeTuple (map item l) ts = Ok (EBuffer b) /\
  (forall named, decodeTuple (map (decode_with E named) ts) b = Ok (VTuple l)) /\ b <> [].
Proof.
  intros IH (Hne & fs & Hf & ->). destruct (fields_codec ts l fs IH Hf) as (G1 & G2 & G3). split_and!.
  - unfold encodeTuple.
    assert (T : traverse (fun p : element * column_type => encode_field (p.1.2 (HintType p.2))) (zip (map item l) ts) = Ok (map field_bytes fs)).
    { apply traverse_ok. clear -G1. induction G1; [constructor|]. by constructor. }
    by rewrite T.
  - intros named. unfold decodeTuple.
    assert (Z1 : map (fun d => (tt, d)) (map (decode_with E named) ts) = zip (map (fun _ => tt) ts) (map (decode_with E named) ts)).
    { clear. induction ts as [|t ts IH]; [done|]. cbn. f_equal. exact IH. }
    rewrite Z1, (decode_fields _ ts l fs) by (done || by rewrite length_map). cbn [mbind result_bind].
    assert (Z2 : map snd (zip (map (fun _ => tt) ts) l) = l) by (apply snd_zip; rewrite length_map; lia).
    rewrite <- (length_map snd (zip _ _)), Z2, length_map, G3, Nat.sub_diag. cbn [replicate]. rewrite app_nil_r.
    destruct l; [|done]. destruct ts; done.
  - destruct Hf as [|? ? f]; [done|]. apply fields_nonempty.
Qed.

Lemma udt_codec fields props b :
  Forall (fun f : jsstr * column_type => forall x c, wire E f.2 x c -> codec f.2 x c) fields ->
  map fst props = map fst fields -> NoDup (map fst fields) ->
  fields_wire (map (wire E) (map snd fields)) (map snd props) b ->
  encodeUdt E (map (fun p => (p.1, item p.2)) props) fields = Ok (EBuffer b) /\
  (forall named, decodeUdt (zip (map fst fields) (map (decode_with E named) (map snd fields))) b = Ok (VObject props)) /\ b <> [].
Proof.
  intros IH Hn Hd (Hne & fs & Hf & ->).
  assert (IH' : Forall (fun t => forall x c, wire E t x c -> codec t x c) (map snd fields)) by (by apply Forall_map).
  destruct (fields_codec _ _ fs IH' Hf) as (G1 & G2 & G3). split_and!.
  - set (all := map (fun p => (p.1, item p.2)) props). change (encodeUdt E all fields = Ok (EBuffer (concat (map field_bytes fs)))). unfold encodeUdt.
    assert (T : traverse (fun f : jsstr * column_type => encode_field (field_element E all f.1 (HintType f.2))) fields =
      Ok (map field_bytes fs)).
    { apply traverse_ok.
      assert (All : forall k x, (k, x) ∈ props -> obj_get all k = Some (item x)).
      { intros k x Hin. apply obj_get_in; [unfold all; rewrite map_map; change (NoDup (map fst props)); by rewrite Hn|].
        apply list_elem_of_fmap. by exists (k, x). }
      clearbody all. clear -Hn G1 All.
      revert props fs Hn G1 All. induction fields as [|[k t] fields IHf]; intros [|[k' x] props] fs Hn G1 All; try done;
        inversion G1 as [|? ? f ? ? fs' Hx Hl]; subst; [constructor|].
      cbn [map fst] in Hn. injection Hn as -> Hn. cbn [map]. constructor.
      - cbn [fst snd]. unfold field_element. rewrite (All k x) by left. exact Hx.
      - apply (IHf props); [done|done|]. intros k' x' Hin. apply All. by right. }
    by rewrite T.
  - intros named. unfold decodeUdt. rewrite (decode_fields _ _ _ _ _ (G2 named)) by (by rewrite !length_map).
    cbn [mbind result_bind]. rewrite <- Hn.
    assert (Z1 : zip (map fst props) (map snd props) = props).
    { clear. induction props as [|[k x] props IH]; [done|]. cbn. f_equal. exact IH. }
    rewrite Z1, foldl_obj_set; [done|]. cbn [app]. by rewrite Hn.
  - destruct Hf as [|? ? f]; [done|]. apply fields_nonempty.
Qed.

(** *** Vectors *)

Lemma vector_codec sub l b size bs es name :
  (forall x c, wire E sub x c -> codec sub x c) -> l <> [] -> getDataTypeNameByCode sub = Ok name ->
  serializationSizeIfFixed sub = Ok size -> Forall2 (wire E sub) l bs -> Forall2 (vector_item size) bs es -> b = concat es ->
  let d := Int (Z.of_nat (length l)) in
  encodeVector (map item l) sub d = Ok (EBuffer b) /\
  (forall named, decodeVector (decode_with E named sub) sub d b = Ok (VVector l (Some name))) /\
  (size <> -1 -> Z.of_nat (length b) = size * Z.of_nat (length l)).
Proof.
  intros IH Hne Hname Hsize Hl He -> d. split_and!.
  - unfold encodeVector, d. rewrite length_map, bool_decide_eq_true_2 by done. cbn [negb].
    destruct (encode_vector_items sub size (map item l) bs es) as (parts & T & C); [|done|].
    { clear -IH Hl. induction Hl as [|x c l bs W _ IHl]; constructor; [|done]. cbn. by apply IH. }
    destruct (map item l) eqn:El; [by destruct l|]. rewrite <- El in *. rewrite Hsize. cbn [mbind result_bind].
    rewrite T. cbn [mbind result_bind]. by rewrite C.
  - intros named. unfold decodeVector, d. rewrite Hsize. cbn [mbind result_bind Int]. rewrite Nat2Z.id.
    pose proof (vector_loop_ok (decode_with E named sub) size l bs es [] []) as L. cbn [app length] in L.
    rewrite app_nil_r in L. change (Z.of_nat 0) with 0 in L. rewrite L.
    + cbn [mbind result_bind fst snd]. rewrite Z.eqb_refl. cbn [negb]. rewrite Hname. cbn [mbind result_bind]. by destruct l.
    + clear -IH Hl He. revert es He. induction Hl as [|x c l bs W _ IHl]; intros es He; inversion He; subst; constructor; [|by apply IHl].
      split; [|done]. by apply IH.
  - intros Hs. clear -Hs Hl He. revert es He. induction Hl as [|x c l bs W _ IHl]; intros es He; inversion He as [|? e ? es' V He']; subst; [cbn; lia|].
    unfold vector_item in V. destruct (Z.eqb_spec size (-1)); [done|]. destruct V as [V ->].
    cbn [concat]. rewrite length_app. specialize (IHl _ He'). cbn [length]. lia.
Qed.

(** *** All types *)

Lemma encode_by_type v t : 
  nullish v = false -> (forall b, v <> VBuffer b) ->
  enc v (HintType t) = encode_typed alloc scratch toString_ toFixed20 E (encode_key alloc scratch toString_ toFixed20 E) v
    match v with
    | VArray l | VTuple l | VVector l _ | VSet l => ListElements (map item l)
    | VObject props => PropElements (map (fun p => match p with (k, x) => (k, item x) end) props)
    | VMap entries => EntryElements (map (fun p => match p with (k, x) => (item k, item x) end) entries)
    | _ => NoElements
    end t.
Proof. intros N Hb. destruct v; try done. by destruct (Hb bytes). Qed.

Lemma collection_nonempty t (b : list Z) :
  b <> [] -> bool_decide (b = []) && negb (zeroLengthTypesSupported (type_code t)) = false.
Proof. intros Hb. apply decode_with_present. by left. Qed.

Ltac sized := intros ? [= <-]; by left.

Lemma wire_codec t : forall v b, wire E t v b -> codec t v b.
Proof.
  induction t as [c|t IH|t IH|k w IHk IHw|ts IH|ks name fields IH|name|t d IH|info] using column_type_nested_ind; intros v b W.
  - by apply single_codec.
  - destruct v as [| | | | | | | | | | | | | | | | | | | l| | | | |]; try done. destruct W as [Hne W].
    destruct (list_codec t l b IH Hne W) as (Ee & De & N). split; [|intros named; cbn [decode_with]|done|sized].
    + by rewrite encode_by_type.
    + by rewrite collection_nonempty, De.
  - destruct v as [| | | | | | | | | | | | | | | | | | | l| | | | |l]; try done.
    + destruct W as (O & Hne & W). destruct (list_codec t l b IH Hne W) as (Ee & De & N).
      split; [|intros named; cbn [decode_with]|done|sized].
      * by rewrite encode_by_type.
      * by rewrite collection_nonempty, De, O.
    + destruct W as (O & Hset & Hne & W). destruct (list_codec t l b IH Hne W) as (Ee & De & N).
      split; [|intros named; cbn [decode_with]|done|sized].
      * rewrite encode_by_type by done. cbn. by rewrite O.
      * rewrite collection_nonempty, De, O by done. cbn. by rewrite Hset.
  - destruct v as [| | | | | | | | | | | | | | | | | | | | | |props|entries|]; try done.
    + destruct W as (O & Hk & Hn & W).
      destruct (map_codec k w _ b (fun x => match x with VString s => encode_key alloc scratch toString_ toFixed20 E s | _ => item x end)
        IHk IHw W) as (Ee & De & N).
      { intros x c Hx F Hin. apply list_elem_of_fmap in Hin as ([x' y] & -> & Hin).
        apply list_elem_of_In, in_map_iff in Hin as ([s z] & [= <- <-] & _). cbn [fst]. by apply encode_key_text. }
      split; [|intros named; cbn [decode_with]|done|sized].
      * rewrite encode_by_type by done. cbn. rewrite <- Ee. do 2 rewrite map_map. f_equal. apply map_ext. by intros [].
      * rewrite collection_nonempty, De, O, object_sets_names, foldl_obj_set by done. done.
    + destruct W as (O & Hd & W). destruct (map_codec k w _ b item IHk IHw W) as (Ee & De & N).
      { intros x c Hx F _. apply codec_encodes; [by apply IHk|done]. }
      split; [|intros named; cbn [decode_with]|done|sized].
      * rewrite encode_by_type by done. cbn. rewrite O, <- Ee. f_equal. apply map_ext. by intros [].
      * by rewrite collection_nonempty, De, O, Hd.
  - destruct v as [| | | | | | | | | | | | | | | | | | | |l| | | |]; try done.
    destruct (tuple_codec ts l b IH W) as (Ee & De & N). split; [|intros named; cbn [decode_with]|done|sized].
    + by rewrite encode_by_type.
    + by rewrite collection_nonempty, De.
  - destruct v as [| | | | | | | | | | | | | | | | | | | | | |props| |]; try done. destruct W as (Hn & Hd & W).
    destruct (udt_codec fields props b IH Hn Hd) as (Ee & De & N).
    { rewrite map_map. erewrite map_ext; [exact W|]. by intros []. }
    split; [|intros named; cbn [decode_with]|done|sized].
    + rewrite encode_by_type by done. cbn. rewrite <- Ee. f_equal. apply map_ext. by intros [].
    + rewrite collection_nonempty by done. rewrite <- (De named). f_equal. clear.
      induction fields as [|[n t] fields IH]; [done|]. cbn. f_equal. exact IH.
  - by destruct v.
  - destruct v as [| | | | | | | | | | | | | | | | | | | | |l subtype| | |]; try done.
    destruct W as (Hne & -> & (name & Hname & ->) & size & bs & es & Hs & Hl & He & Eb).
    destruct (vector_codec t l b size bs es name IH Hne Hname Hs Hl He Eb) as (Ee & De & N).
    split; [|intros named; cbn [decode_with]|done|].
    + by rewrite encode_by_type.
    + rewrite decode_with_present by (by right). apply De.
    + cbn [serializationSizeIfFixed]. rewrite Hs. cbn [mbind result_bind Int]. intros size'.
      destruct (Z.eqb_spec size (-1)) as [->|]; intros [= <-]; [by left|right; by apply N].
  - destruct v as [| | | | | | |c| | | | | | | | | | |d| | | | | |]; try done.
    + destruct W as (V & D & ->). split; [done|intros named; cbn [decode_with]|done|sized].
      rewrite decode_with_present by (by right). unfold decodeCustom. by rewrite V, bool_decide_eq_false_2.
    + destruct W as (-> & Hd & ->). split; [|intros named; cbn [decode_with]|done|sized].
      * transitivity (EBuffer <$> encodeDuration scratch (VDuration d)); [reflexivity|]. by rewrite encode_duration.
      * rewrite decode_with_present by (by right). unfold decodeCustom.
        change (starts_with customTypeNames_vector customTypeNames_duration) with false. cbn iota.
        rewrite bool_decide_eq_true_2 by done. by rewrite Duration_fromBuffer_bytes.
Qed.
End roundtrip.


Definition default_encoder (version : Z) : Encoder := mkEncoder (mkEncodingOptions true true true false false) version.


Lemma encodeList_nullish E x items h :
  nullish x.1 = true -> fits E (S (length items)) -> encodeList E (x :: items) h = Throw TypeError.
Proof.
  intros N F. unfold encodeList. cbn [length]. rewrite getLengthBuffer_fits by done. cbn [mbind result_bind traverse].
  unfold encode_item. by rewrite N.
Qed.

(** what is not written. [null] is the null value; [undefined] is null, or
    unset when the option says so and the protocol has unset values; an unset
    value needs version 4 of the protocol.  A null, undefined or unset item of a
    list or a set, and such a key or value of a map, is a TypeError; so is a
    nested list, set or map that is encoded to nothing. *)
Theorem encode_absent `{LongLib} (alloc scratch : list Z) (toString_ toFixed20 : number -> jsstr) (E : Encoder) (h : hint) :
  let enc := encode alloc scratch toString_ toFixed20 E in
  enc VNull h = Ok ENull /\
  enc VUnset h = (if 4 <=? protocolVersion E then Ok EUnset else Throw TypeError) /\
  enc VUndefined h = (if useUndefinedAsUnset (encodingOptions E) && (4 <=? protocolVersion E) then Ok EUnset else Ok ENull) /\
  (forall t, enc (VArray []) (HintType (TList t)) = Ok ENull /\
     enc (VArray [VArray []]) (HintType (TList (TList t))) = Throw TypeError) /\
  (forall t x l, nullish x = true -> Z.of_nat (length l) < 2 ^ 16 - 1 ->
     enc (VArray (x :: l)) (HintType (TList t)) = Throw TypeError /\
     enc (VArray (x :: l)) (HintType (TSet t)) = Throw TypeError).
Proof.
  cbv zeta. split_and!.
  - done.
  - cbn. unfold encode_unset, supportsUnset. change v4 with 4. by destruct (4 <=? protocolVersion E).
  - cbn. unfold encode_undefined, encode_unset, supportsUnset. change v4 with 4.
    by destruct (useUndefinedAsUnset (encodingOptions E)), (4 <=? protocolVersion E).
  - intros t. split; [done|]. cbn [encode resolve_type mbind result_bind map].
    assert (R : encodeList E [(VArray [], encode alloc scratch toString_ toFixed20 E (VArray []))] (HintType (TList t)) = Throw TypeError).
    { unfold encodeList. cbn [length]. rewrite getLengthBuffer_fits by (unfold fits; case_match; lia).
      cbn [mbind result_bind traverse]. unfold encode_item. cbn [nullish fst snd].
      change (encode _ _ _ _ _ _ _) with (Ok ENull). cbn [mbind result_bind encoded_length].
      change 0 with (Z.of_nat 0) at 1. by rewrite getLengthBuffer_fits by (unfold fits; case_match; lia). }
    exact R.
  - intros t x l N L. cbn [encode resolve_type mbind result_bind map].
    assert (R : encodeList E ((x, encode alloc scratch toString_ toFixed20 E x) :: map (fun x => (x, encode alloc scratch toString_ toFixed20 E x)) l)
      (HintType t) = Throw TypeError).
    { apply encodeList_nullish; [done|]. unfold fits. rewrite length_map. case_match; lia. }
    split; exact R.
Qed.

Lemma encode_absent_witness :
  encode [] [] (fun _ => []) (fun _ => []) (default_encoder 3) (VArray [VNull; VBoolean true]) (HintType (TList (TSimple 4))) = Throw TypeError.
Proof.
  refine (proj1 (proj2 (proj2 (proj2 (proj2 (encode_absent [] [] (fun _ => []) (fun _ => []) (default_encoder 3) HintNone))))
    (TSimple 4) VNull [VBoolean true] _ _)); [reflexivity|cbn; lia].
Defined.

(** ** Bounds and defects *)

(** C34: Numbers for [int], [smallint] and [tinyint]: NaN is a TypeError; any
    other Number, integer or not, is a RangeError exactly when it lies outside
    the range of the type (so are both infinities), and is written without its
    fraction otherwise: never as another integer.  A BigInt for a [bigint], a
    [counter] or a [timestamp] is a TypeError unless [useBigIntAsLong] is set.
    If it is, no BigInt is an error: the low word is that of the integer, the
    high word that of [Number(z >> 32n)], so that below [2^84] the integer is
    written modulo [2^64] (from there on the Number can be rounded). *)
Theorem encode_integer_bounds `{LongLib} (alloc scratch : list Z) (toString_ toFixed20 : number -> jsstr) (E : Encoder)
  (c : Z) (n : nat) (Hc : (c = 9 /\ n = 4%nat) \/ (c = 19 /\ n = 2%nat) \/ (c = 20 /\ n = 1%nat)) (x : number) (z : Z) :
  let enc v c := encode alloc scratch toString_ toFixed20 E v (HintType (TSimple c)) in
  let bound := 2 ^ (8 * Z.of_nat n - 1) in
  enc (VNumber x) c =
    match x with
    | NaN => Throw TypeError
    | Infinity _ => Throw RangeError
    | Fin m e =>
        if (- bound * 2 ^ Z.of_N e <=? m) && (m <=? (bound - 1) * 2 ^ Z.of_N e)
        then Ok (EBuffer (be_bytes n (Z.quot m (2 ^ Z.of_N e)))) else Throw RangeError
    end /\
  forall b, b ∈ [2; 5; 11] ->
    enc (VBigInt z) b =
      (if useBigIntAsLong (encodingOptions E)
       then Ok (EBuffer (be_bytes 4 (bigint_uint32 (Z.shiftr z 32)) ++ be_bytes 4 (Z.land z (2 ^ 32 - 1))))
       else Throw TypeError) /\
    (useBigIntAsLong (encodingOptions E) = true -> Z.abs z < 2 ^ 84 ->
     enc (VBigInt z) b = Ok (EBuffer (be_bytes 8 (z mod 2 ^ 64)))).
Proof.
  cbv zeta. split.
  - assert (R : encode alloc scratch toString_ toFixed20 E (VNumber x) (HintType (TSimple c)) = EBuffer <$> encode_fixed n (VNumber x))
      by (by destruct Hc as [[-> ->]|[[-> ->]|[-> ->]]]).
    rewrite R. destruct x as [|s|m e]; [done|done|].
    unfold encode_fixed, write_number. cbn [to_number mbind result_bind]. set (bound := 2 ^ (8 * Z.of_nat n - 1)).
    destruct (Z.ltb_spec m (- bound * 2 ^ Z.of_N e)), (Z.ltb_spec ((bound - 1) * 2 ^ Z.of_N e) m),
      (Z.leb_spec (- bound * 2 ^ Z.of_N e) m), (Z.leb_spec m ((bound - 1) * 2 ^ Z.of_N e)); done || lia.
  - intros b Hb.
    assert (G : encode alloc scratch toString_ toFixed20 E (VBigInt z) (HintType (TSimple b)) = EBuffer <$> encodeLong E (VBigInt z)).
    { apply elem_of_cons in Hb as [->|[->|[->|Hb%not_elem_of_nil]%elem_of_cons]%elem_of_cons]; [done|done| |done].
      transitivity (EBuffer <$> encodeTimestamp E (VBigInt z)); [done|]. unfold encodeTimestamp. cbn [mbind result_bind].
      destruct (useBigIntAsLong _); done. }
    rewrite G. unfold encodeLong. destruct (useBigIntAsLong (encodingOptions E)); [|done]. split; [done|]. intros _ Hz.
    unfold _encodeBigIntFromBigInt. cbn [mbind result_bind fmap result_fmap]. do 2 f_equal. rewrite bigint_halves by done.
    symmetry. apply be_bytes_mod. change (8 * Z.of_nat 8) with 64. by rewrite Z.mod_mod by lia.
Qed.

Lemma encode_integer_bounds_witness :
  encode [] [] (fun _ => []) (fun _ => []) (default_encoder 4) (VNumber (Fin 255 1)) (HintType (TSimple 20)) = Throw RangeError.
Proof.
  refine (proj1 (encode_integer_bounds [] [] (fun _ => []) (fun _ => []) (default_encoder 4) 20 1 _ (Fin 255 1) 0)). right. by right.
Defined.

(** From [2^84] on a BigInt need not be written modulo [2^64]. *)
Lemma bigint_rounds : be_bytes 4 (bigint_uint32 (Z.shiftr (2 ^ 85 + 2 ^ 32) 32)) <> be_bytes 4 ((2 ^ 85 + 2 ^ 32) / 2 ^ 32).
Proof. vm_compute. discriminate. Qed.

(** Values that are encoded to something else without an error: unset elements
    of a tuple become null; what is not a tuple is a tuple without elements when
    it has no length; a Map is an empty map when the option [map] is not set; a
    BigInt above [2^63] is a negative number. *)
Lemma encode_silently_wrong `{LongLib} (alloc scratch : list Z) (toString_ toFixed20 : number -> jsstr) :
  let enc E v t := encode alloc scratch toString_ toFixed20 E v (HintType t) in
  let without_map := mkEncoder (mkEncodingOptions false false true false false) 4 in
  let with_bigint := mkEncoder (mkEncodingOptions true true true true true) 4 in
  enc (default_encoder 4) (VTuple [VUnset]) (TTuple [TSimple 9]) = Ok (EBuffer nullValueBuffer) /\
  enc (default_encoder 4) (VNumber (Int 5)) (TTuple [TSimple 9]) = Ok (EBuffer []) /\
  enc without_map (VMap [(VString (str "a"), VBoolean true)]) (TMap (TSimple 10) (TSimple 4)) = Ok (EBuffer [0; 0; 0; 0]) /\
  decode with_bigint (TSimple 2) (match enc with_bigint (VBigInt (2 ^ 63)) (TSimple 2) with Ok (EBuffer b) => Some b | _ => None end) =
    Ok (VBigInt (- 2 ^ 63)).
Proof. split_and!; vm_compute; reflexivity. Qed.
