(* ===== verification/TypeNamesTheorems.v ===== *)
(** The names of column types: [getByName] of [lib/types/index.js] reads the
    names that [getDataTypeNameByCode] writes. *)
From S2P Require Import Prelude.
From S2P Require Import JsNum.
From S2P Require Import JsStr.
From S2P Require Import JsDouble.
From S2P Require Import Duration.
From S2P Require Import DurationTheorems.
From S2P Require Import BigDecimal.
From S2P Require Import Version.
From S2P Require Import Utils.
From S2P Require Import TypeNames.
From S2P Require Import Encoder.
From S2P Require Import EncoderTheorems.

(** ** Characters of names *)

Definition name_char (c : ascii) : bool := bool_decide (lower c = c) && negb ((code c =? 10) || (code c =? 13)).

(** A name: lower case, in one line, and without space around it. *)
Record name_ok (s : jsstr) : Prop := {
  name_chars : forallb name_char s = true;
  name_start : exists c s', s = c :: s' /\ is_space c = false;
  name_end : exists s' c, s = s' ++ [c] /\ is_space c = false }.

Lemma name_nonempty s : name_ok s -> s <> [].
Proof. intros [_ (c & s' & -> & _) _]. done. Qed.

Lemma name_lower s : forallb name_char s = true -> toLowerCase s = s.
Proof.
  intros Hs. unfold toLowerCase. rewrite <- (map_id s) at 2. apply map_ext_in. intros c Hc.
  rewrite forallb_forall in Hs. specialize (Hs c Hc). unfold name_char in Hs. apply andb_prop in Hs as [Hl _].
  by apply bool_decide_eq_true in Hl.
Qed.

Lemma name_line s : forallb name_char s = true -> has_line_break s = false.
Proof.
  intros Hs. unfold has_line_break. apply not_true_iff_false. intros (c & Hc & Hb)%existsb_exists.
  rewrite forallb_forall in Hs. specialize (Hs c Hc). unfold name_char in Hs. apply andb_prop in Hs as [_ Hn].
  by rewrite Hb in Hn.
Qed.

Lemma name_trim s : name_ok s -> trim s = s.
Proof.
  intros [_ (c & s' & E & Hc) (t & d & F & Hd)]. subst s. destruct t as [|x t].
  - cbn in F. injection F as -> ->. unfold trim. cbn. by rewrite Hc; cbn; rewrite Hc.
  - injection F as -> ->. by apply trim_id.
Qed.

Lemma name_trim_start s : name_ok s -> trim_start s = s.
Proof. intros [_ (c & s' & -> & Hc) _]. cbn. by rewrite Hc. Qed.

Lemma trim_space s : trim (" "%char :: s) = trim s.
Proof. done. Qed.

Lemma trim_start_space s : trim_start (" "%char :: s) = trim_start s.
Proof. done. Qed.

Lemma name_skip s : name_ok s -> skip_spaces s = s.
Proof.
  intros [_ (c & s' & -> & Hc) _]. cbn. destruct (bool_decide (c = " "%char)) eqn:E; [|done].
  apply bool_decide_eq_true in E as ->. done.
Qed.

(** ** Names with parameters *)

Definition comma_free (s : jsstr) : Prop := Forall (fun c => c <> ","%char) s.

Lemma in_angles_angle prefix inner :
  forallb name_char inner = true -> inner <> [] ->
  in_angles (prefix ++ str "<") (angle prefix inner) = Some inner.
Proof.
  intros Hi Hne. unfold in_angles, angle. change (str ">") with [">"%char].
  rewrite app_assoc. set (p := prefix ++ str "<"). rewrite (app_assoc p).
  assert (S : starts_with p ((p ++ inner) ++ [">"%char]) = true).
  { unfold starts_with. apply bool_decide_eq_true. by rewrite <- app_assoc, take_app_length. }
  assert (L : (length ((p ++ inner) ++ [">"%char]) - 1)%nat = length (p ++ inner)) by (rewrite (length_app _ [_]); cbn; lia).
  rewrite S, L.
  assert (C : char_is ((p ++ inner) ++ [">"%char]) (length (p ++ inner)) ">"%char = true).
  { unfold char_is. rewrite list_lookup_middle by done. by apply bool_decide_eq_true. }
  rewrite C.
  destruct (Nat.ltb_spec (length p + 1) (length ((p ++ inner) ++ [">"%char]))) as [_|Hlt].
  2: { rewrite !length_app in Hlt. destruct inner; [done|]. cbn in Hlt. lia. }
  cbn [andb]. assert (I : substring ((p ++ inner) ++ [">"%char]) (length p) (length (p ++ inner)) = inner).
  { unfold substring. rewrite <- app_assoc, drop_app_length, length_app.
    replace (length p + length inner - length p)%nat with (length inner) by lia. apply take_app_length. }
  rewrite I. by rewrite name_line.
Qed.

Lemma last_comma_none s : comma_free s -> last_comma s = None.
Proof.
  induction 1 as [|c s Hc _ IH]; [done|]. cbn. rewrite IH. by rewrite bool_decide_eq_false_2.
Qed.

Lemma last_comma_app a b : comma_free b -> b <> [] -> last_comma (a ++ ","%char :: b) = Some (a, b).
Proof.
  intros Hb Hne. induction a as [|c a IH]; cbn.
  - rewrite last_comma_none by done. by destruct b.
  - by rewrite IH.
Qed.

Lemma angle_name prefix inner :
  name_ok prefix -> forallb name_char inner = true -> name_ok (angle prefix inner).
Proof.
  intros [Hp (c & s' & E & Hc) _] Hi. split.
  - unfold angle. rewrite !forallb_app, Hp, Hi. done.
  - rewrite E. by exists c, (s' ++ str "<" ++ inner ++ str ">").
  - exists (prefix ++ str "<" ++ inner), ">"%char. split; [|done]. unfold angle. by rewrite <- !app_assoc.
Qed.

(** ** The names of the table *)

Definition simple_name_ok (p : string * Z) : bool :=
  let s := str p.1 in
  bool_decide (dataType_code s = Some p.2) && forallb name_char s && negb (contains_char ","%char s) && negb (contains_char "<"%char s) &&
  match s with c :: _ => negb (is_space c) | [] => false end && match rev s with c :: _ => negb (is_space c) | [] => false end.

Lemma contains_char_false c s : contains_char c s = false -> index_of c s = None /\ Forall (fun d => d <> c) s.
Proof.
  unfold contains_char. intros Hs. assert (I : index_of c s = None) by (by destruct (index_of c s)). split; [done|]. clear Hs.
  induction s as [|d s IH]; [constructor|]. cbn in I. destruct (decide (d = c)); [done|].
  constructor; [done|]. apply IH. by destruct (index_of c s).
Qed.

Lemma simple_name c s :
  dataTypesByCode c = Some s ->
  name_ok s /\ comma_free s /\ dataType_code s = Some c /\ index_of "<"%char s = None.
Proof.
  unfold dataTypesByCode. destruct (find (fun p => p.2 =? c) dataTypes) as [[n c']|] eqn:F; [|done]. intros [= <-].
  apply find_some in F as [Hin Hc%Z.eqb_eq]. cbn in Hc. subst c'. cbn [fst].
  assert (All : forallb simple_name_ok dataTypes = true) by (vm_compute; reflexivity).
  rewrite forallb_forall in All. specialize (All _ Hin). unfold simple_name_ok in All. cbn [fst snd] in All.
  repeat (apply andb_prop in All as [All ?]). apply bool_decide_eq_true in All.
  repeat match goal with H : negb _ = true |- _ => apply negb_true_iff in H end.
  split_and!; [|by apply (contains_char_false ","%char)|done|by apply (contains_char_false "<"%char)].
  split; [done| |].
  - destruct (str n) as [|d s]; [done|]. exists d, s. split; [done|]. by apply negb_true_iff.
  - destruct (rev (str n)) as [|d s] eqn:R; [done|]. exists (rev s), d. split; [|by apply negb_true_iff].
    by rewrite <- (rev_involutive (str n)), R.
Qed.

(** ** The round trip *)

(** A name without a comma. *)
Fixpoint no_comma (t : column_type) : bool :=
  match t with
  | TSimple _ => true
  | TList t | TSet t => no_comma t
  | TTuple [t] => no_comma t
  | _ => false
  end.

(** The types whose names are read back: [getByName] cuts the parameters of a
    map at the last comma and those of a tuple at every comma. *)
Fixpoint nameable (t : column_type) : Prop :=
  match t with
  | TSimple c => dataTypesByCode c <> None
  | TList t | TSet t => nameable t
  | TMap k v => nameable k /\ nameable v /\ no_comma v = true
  | TTuple ts => ts <> [] /\ Forall id (map nameable ts) /\ forallb no_comma ts = true
  | TVector t d => nameable t /\ exists n, 0 <= n < 2 ^ 53 /\ d = Int n
  | _ => False
  end.

Definition named (t : column_type) (s : jsstr) : Prop :=
  getDataTypeNameByCode t = Ok s /\ name_ok s /\ (no_comma t = true -> comma_free s) /\
  forall fuel, (length s < fuel)%nat -> getByName_loop fuel s = Ok t.

Lemma angle_comma_free prefix inner : comma_free prefix -> comma_free inner -> comma_free (angle prefix inner).
Proof. intros Hp Hi. unfold angle, comma_free. repeat apply Forall_app_2; try done; by repeat constructor. Qed.

Lemma length_angle prefix inner : length (angle prefix inner) = (length prefix + length inner + 2)%nat.
Proof. unfold angle. rewrite !length_app. cbn. lia. Qed.

Lemma named_simple c : dataTypesByCode c <> None -> exists s, named (TSimple c) s.
Proof.
  intros Hc. destruct (dataTypesByCode c) as [s|] eqn:F; [|done]. destruct (simple_name c s F) as (N & C & D & I).
  exists s. split; [cbn [getDataTypeNameByCode type_code]; by rewrite F|]. split; [done|]. split; [done|]. intros [|fuel] Hf; [lia|].
  cbn [getByName_loop]. rewrite (name_lower s) by apply N. rewrite I. cbn [negb]. unfold simple_by_name. by rewrite D.
Qed.

(** The words in front of the brackets. *)
Lemma word_ok w : w ∈ ["list"; "set"; "map"; "tuple"; "vector"]%string -> name_ok (str w) /\ comma_free (str w).
Proof.
  intros Hw. repeat (apply elem_of_cons in Hw as [->|Hw]; [split; [split; [done|eexists _, _; done|]|by repeat constructor]|]); [..|by apply elem_of_nil in Hw];
  match goal with |- exists s' c, ?s = _ /\ _ => exists (removelast s), (List.last s " "%char) end; done.
Qed.


(** What [getByName] does with the parameters behind a word. *)
Lemma angled_lookup w inner fuel :
  w ∈ ["list"; "set"; "map"; "tuple"; "vector"]%string -> forallb name_char inner = true -> inner <> [] ->
  getByName_loop (S fuel) (angle (str w) inner) =
    let name := angle (str w) inner in
    if (w =? "list")%string then TList <$> getByName_loop fuel inner
    else if (w =? "set")%string then TSet <$> getByName_loop fuel inner
    else if (w =? "tuple")%string then TTuple <$> traverse (fun x => getByName_loop fuel (trim x)) (split_on ","%char inner)
    else
      match last_comma inner with
      | Some (a, b) =>
          if (w =? "map")%string then
            k ← getByName_loop fuel (skip_spaces a); v ← getByName_loop fuel (skip_spaces b); Ok (TMap k v)
          else
            match dimension_text b with
            | Some d => t ← getByName_loop fuel (trim_start a); Ok (TVector t (parseInt d 10))
            | None => simple_by_name name
            end
      | None => getByName_loop (S fuel) name
      end.
Proof.
  intros Hw Hi Hne. cbv zeta.
  assert (A : forallb name_char (angle (str w) inner) = true) by (apply angle_name; [by apply word_ok|done]).
  destruct (last_comma inner) as [[a b]|] eqn:C.
  all: repeat (apply elem_of_cons in Hw as [->|Hw]; [|]); [..|by apply elem_of_nil in Hw].
  all: try reflexivity.
  all: cbn [getByName_loop]; rewrite (name_lower _ A).
  - change (in_angles (str "list<")) with (in_angles (str "list" ++ str "<")). by rewrite in_angles_angle.
  - change (in_angles (str "set<")) with (in_angles (str "set" ++ str "<")). by rewrite in_angles_angle.
  - change (in_angles (str "map<")) with (in_angles (str "map" ++ str "<")). rewrite in_angles_angle by done.
    cbn [mbind option_bind]. by rewrite C.
  - change (in_angles (str "tuple<")) with (in_angles (str "tuple" ++ str "<")). by rewrite in_angles_angle.
  - change (in_angles (str "vector<")) with (in_angles (str "vector" ++ str "<")). rewrite in_angles_angle by done.
    cbn [mbind option_bind]. rewrite C, (name_line _ A). done.
  - change (in_angles (str "list<")) with (in_angles (str "list" ++ str "<")). by rewrite in_angles_angle.
  - change (in_angles (str "set<")) with (in_angles (str "set" ++ str "<")). by rewrite in_angles_angle.
  - change (in_angles (str "tuple<")) with (in_angles (str "tuple" ++ str "<")). by rewrite in_angles_angle.
Qed.

Ltac word := rewrite !elem_of_cons; tauto.

Lemma named_angle w inner t :
  w ∈ ["list"; "set"; "map"; "tuple"; "vector"]%string -> forallb name_char inner = true -> inner <> [] ->
  getDataTypeNameByCode t = Ok (angle (str w) inner) -> (no_comma t = true -> comma_free inner) ->
  (forall fuel, (length inner < fuel)%nat -> getByName_loop (S fuel) (angle (str w) inner) = Ok t) ->
  named t (angle (str w) inner).
Proof.
  intros Hw Hi Hne G C L. destruct (word_ok w Hw) as [Wn Wc]. split; [done|]. split; [by apply angle_name|].
  split; [intros Hc; apply angle_comma_free; [done|by apply C]|]. intros [|fuel] Hf; [lia|]. apply L.
  rewrite length_angle in Hf. lia.
Qed.

Lemma named_collection w t s :
  named t s -> w = "list"%string \/ w = "set"%string ->
  named (if (w =? "list")%string then TList t else TSet t) (angle (str w) s).
Proof.
  intros (G & N & C & L) Hw. assert (Hin : w ∈ ["list"; "set"; "map"; "tuple"; "vector"]%string) by (destruct Hw as [->| ->]; word).
  apply named_angle; [done|apply N|by apply name_nonempty| | |].
  - destruct Hw as [-> | ->]; cbn; by rewrite G.
  - destruct Hw as [-> | ->]; exact C.
  - intros fuel Hf. rewrite angled_lookup by (done || apply N || by apply name_nonempty). cbv zeta.
    destruct Hw as [-> | ->]; cbn [String.eqb Ascii.eqb Bool.eqb]; by rewrite L.
Qed.

Lemma named_map k v s1 s2 :
  named k s1 -> named v s2 -> no_comma v = true -> named (TMap k v) (angle (str "map") (s1 ++ str ", " ++ s2)).
Proof.
  intros (G1 & N1 & C1 & L1) (G2 & N2 & C2 & L2) Hv.
  assert (Hi : forallb name_char (s1 ++ str ", " ++ s2) = true) by (rewrite !forallb_app, (name_chars _ N1), (name_chars _ N2); done).
  assert (Hne : s1 ++ str ", " ++ s2 <> []) by (intros [E _]%app_eq_nil; by apply (name_nonempty s1)).
  apply named_angle; [word|done|done|cbn; by rewrite G1, G2|done|].
  intros fuel Hf. rewrite angled_lookup by (done || word). cbv zeta. cbn [String.eqb Ascii.eqb Bool.eqb].
  change (s1 ++ str ", " ++ s2) with (s1 ++ ","%char :: (" "%char :: s2)).
  rewrite last_comma_app by first [done | constructor; [done|by apply C2]]. rewrite !length_app in Hf. cbn in Hf.
  rewrite (name_skip s1), L1 by (done || lia). cbn [mbind result_bind]. change (skip_spaces (" "%char :: s2)) with (skip_spaces s2).
  by rewrite (name_skip s2), L2 by (done || lia).
Qed.

Lemma named_vector t s n :
  named t s -> 0 <= n -> named (TVector t (Int n)) (angle (str "vector") (s ++ str ", " ++ num_to_string 10 n)).
Proof.
  intros (G & N & C & L) Hn. destruct (num_to_string_digits 10 n ltac:(lia) Hn) as (ds & Ed & D & V & Nd). rewrite Ed.
  set (text := map digit_char ds).
  assert (Dg : Forall (fun c => is_digit c = true) text).
  { unfold text. apply Forall_map. eapply Forall_impl; [exact D|]. apply digit_char_is_digit. }
  assert (Plain : forall c, is_digit c = true -> name_char c = true /\ is_space c = false /\ c <> ","%char).
  { intros c Hc. destruct c as [[] [] [] [] [] [] [] []]; try discriminate Hc; done. }
  assert (Ht : name_ok text).
  { split.
    - apply forallb_forall. intros c Hc. apply Plain. rewrite Forall_forall in Dg. by apply Dg, list_elem_of_In.
    - destruct ds as [|d ds]; [done|]. exists (digit_char d), (map digit_char ds). split; [done|]. apply Plain. by apply Forall_cons in Dg as [? _].
    - destruct (exists_last (l := text)) as (l & c & El); [by destruct ds|]. exists l, c. split; [done|]. apply Plain.
      rewrite El in Dg. apply Forall_app in Dg as [_ Dg]. by apply Forall_cons in Dg as [? _]. }
  assert (Hi : forallb name_char (s ++ str ", " ++ text) = true) by (rewrite !forallb_app, (name_chars _ N), (name_chars _ Ht); done).
  assert (Hne : s ++ str ", " ++ text <> []) by (intros [E _]%app_eq_nil; by apply (name_nonempty s)).
  apply named_angle; [word|done|done|cbn; rewrite G; cbn; by rewrite Ed|done|].
  intros fuel Hf. rewrite angled_lookup by (done || word). cbv zeta. cbn [String.eqb Ascii.eqb Bool.eqb].
  change (s ++ str ", " ++ text) with (s ++ ","%char :: (" "%char :: text)).
  rewrite last_comma_app; [|constructor; [done|]|done].
  2: { unfold comma_free. eapply Forall_impl; [exact Dg|]. intros c Hc. by apply Plain. }
  rewrite !length_app in Hf. cbn in Hf. rewrite name_trim_start, L by (done || lia).
  unfold dimension_text. rewrite trim_space, name_trim by done. rewrite bool_decide_eq_false_2 by (by apply name_nonempty).
  assert (F : forallb is_digit text = true).
  { apply forallb_forall. intros c Hc. rewrite Forall_forall in Dg. by apply Dg, list_elem_of_In. }
  rewrite F. cbn [negb andb mbind result_bind]. unfold text. by rewrite parseInt_digits, V by (done || lia).
Qed.

Lemma join_names s ss :
  Forall name_ok (s :: ss) -> Forall comma_free (s :: ss) ->
  map trim (split_on ","%char (join (str ", ") (s :: ss))) = s :: ss /\ forallb name_char (join (str ", ") (s :: ss)) = true.
Proof.
  assert (G : forall s, comma_free (s : jsstr) -> forall ss, Forall name_ok ss -> Forall comma_free ss ->
    map trim (split_on ","%char (join (str ", ") (s :: ss))) = trim s :: ss).
  { intros s0 H0 ss0. revert s0 H0. induction ss0 as [|t ss0 IH]; intros s0 H0 N C.
    - cbn [join]. by rewrite split_on_word.
    - apply Forall_cons in N as [N1 N], C as [C1 C].
      change (join (str ", ") (s0 :: t :: ss0)) with (s0 ++ ","%char :: (" "%char :: join (str ", ") (t :: ss0))).
      rewrite split_on_app by done. cbn [map].
      assert (J : " "%char :: join (str ", ") (t :: ss0) = join (str ", ") ((" "%char :: t) :: ss0)) by (destruct ss0; done).
      rewrite J, IH; [|by apply Forall_cons|done|done]. by rewrite trim_space, (name_trim t). }
  intros N C. split.
  - apply Forall_cons in N as [N1 N], C as [C1 C]. rewrite G by done. by rewrite name_trim.
  - clear G C. revert s N. induction ss as [|t ss IH]; intros s N; [by apply Forall_cons in N as [[] _]|].
    apply Forall_cons in N as [[N1 _ _] N]. change (join (str ", ") (s :: t :: ss)) with (s ++ str ", " ++ join (str ", ") (t :: ss)).
    rewrite !forallb_app, N1, IH by done. done.
Qed.

Lemma length_join_in sep (s : jsstr) ss : s ∈ ss -> (length s <= length (join sep ss))%nat.
Proof.
  induction ss as [|t ss IH]; intros Hs; [by apply elem_of_nil in Hs|]. destruct ss as [|u ss].
  - apply list_elem_of_singleton in Hs as ->. done.
  - change (join sep (t :: u :: ss)) with (t ++ sep ++ join sep (u :: ss)). rewrite !length_app.
    apply elem_of_cons in Hs as [->|Hs]; [lia|]. specialize (IH Hs). lia.
Qed.

Lemma named_tuple ts ss :
  Forall2 named ts ss -> ts <> [] -> forallb no_comma ts = true ->
  named (TTuple ts) (angle (str "tuple") (join (str ", ") ss)).
Proof.
  intros Hn Hne Hc.
  assert (N : Forall name_ok ss).
  { clear -Hn. induction Hn as [|t s ts ss (_ & N & _) _ IH]; by constructor. }
  assert (C : Forall comma_free ss).
  { clear -Hn Hc. induction Hn as [|t s ts ss (_ & _ & C & _) _ IH]; [constructor|]. cbn in Hc. apply andb_prop in Hc as [Hc1 Hc].
    constructor; [by apply C|by apply IH]. }
  assert (G : traverse id (map getDataTypeNameByCode ts) = Ok ss).
  { apply traverse_ok, Forall2_fmap_l. clear -Hn. induction Hn as [|t s ts ss (G & _) _ IH]; by constructor. }
  destruct ss as [|s ss]; [inversion Hn; by subst|].
  destruct (join_names s ss N C) as [Hj Hi].
  assert (Hne' : join (str ", ") (s :: ss) <> []).
  { apply Forall_cons in N as [N1 _]. intros E. apply (name_nonempty s N1). destruct ss; [done|]. by apply app_eq_nil in E as [? _]. }
  apply named_angle; [word|done|done|cbn [getDataTypeNameByCode]; by rewrite G| |].
  - cbn [no_comma]. destruct ts as [|t [|]]; try done. inversion Hn as [|? ? ? ? ? Hn' E1 E2]; subst. inversion Hn'; subst.
    intros _. by apply Forall_cons in C as [? _].
  - intros fuel Hf. rewrite angled_lookup by (done || word). cbv zeta. cbn [String.eqb Ascii.eqb Bool.eqb].
    set (parts := split_on _ _) in *.
    assert (T : traverse (fun x => getByName_loop fuel (trim x)) parts = Ok ts); [|by rewrite T].
    apply traverse_ok.
    enough (F : Forall2 (fun s t => getByName_loop fuel s = Ok t) (map trim parts) ts) by (by apply Forall2_fmap_l in F).
    rewrite Hj. apply Forall2_flip.
    assert (B : Forall (fun s => (length s < fuel)%nat) (s :: ss)).
    { apply Forall_forall. intros x Hx. pose proof (length_join_in (str ", ") x _ Hx). lia. }
    clear -Hn B. induction Hn as [|t x ts xs (_ & _ & _ & L) _ IH]; [constructor|].
    apply Forall_cons in B as [B1 B]. constructor; [by apply L|by apply IH].
Qed.

Lemma nameable_named t : nameable t -> exists s, named t s.
Proof.
  induction t as [c|t IH|t IH|k v IHk IHv|ts IH|ks name fields IH|name|t d IH|info] using column_type_nested_ind; intros W; try done.
  - by apply named_simple.
  - destruct (IH W) as [s Hs]. eexists. apply (named_collection "list" t s Hs). by left.
  - destruct (IH W) as [s Hs]. eexists. apply (named_collection "set" t s Hs). by right.
  - destruct W as (Wk & Wv & Hv). destruct (IHk Wk) as [s1 H1], (IHv Wv) as [s2 H2]. eexists. by apply named_map.
  - destruct W as (Hne & W & Hc).
    assert (S : exists ss, Forall2 named ts ss).
    { clear -IH W. induction IH as [|t ts Ht _ IHt]; [by exists []|]. cbn [map] in W. apply Forall_cons in W as [W1 W].
      destruct (Ht W1) as [s Hs], (IHt W) as [ss Hss]. exists (s :: ss). by constructor. }
    destruct S as [ss Hss]. eexists. by apply named_tuple.
  - destruct W as (W & n & Hn & ->). destruct (IH W) as [s Hs]. eexists. apply named_vector; [done|lia].
Qed.

(** ** What is read of any name *)

(** An automaton on the characters of a name; [None] is a failure. *)
Fixpoint run_chars {St} (step : St -> ascii -> option St) (st : St) (s : jsstr) : option St :=
  match s with [] => Some st | c :: s' => st ← step st c; run_chars step st s' end.

Lemma run_chars_app {St} (step : St -> ascii -> option St) st a b :
  run_chars step st (a ++ b) = st ← run_chars step st a; run_chars step st b.
Proof. revert st. induction a as [|c a IH]; intros st; [done|]. cbn. destruct (step st c); cbn; [apply IH|done]. Qed.

(** [dt<] does not occur; 1 is behind a [d], and 2 behind [dt]. *)
Definition udt_step (m : nat) (c : ascii) : option nat :=
  if decide (c = "d"%char) then Some 1%nat
  else if decide (c = "t"%char) then Some (if (m =? 1)%nat then 2%nat else 0%nat)
  else if decide (c = "<"%char) then (if (m =? 2)%nat then None else Some 0%nat)
  else Some 0%nat.

(** The brackets are balanced, and commas are inside of them. *)
Definition depth_step (d : Z) (c : ascii) : option Z :=
  if decide (c = "<"%char) then Some (d + 1)
  else if decide (c = ">"%char) then (if 0 <? d then Some (d - 1) else None)
  else if decide (c = ","%char) then (if 0 <? d then Some d else None)
  else Some d.

Fixpoint balance (s : jsstr) : Z :=
  match s with
  | [] => 0
  | c :: s' => (if decide (c = "<"%char) then 1 else if decide (c = ">"%char) then -1 else 0) + balance s'
  end.

Lemma balance_app a b : balance (a ++ b) = balance a + balance b.
Proof. induction a as [|c a IH]; cbn [app balance]; lia. Qed.

Lemma depth_balance d s e : run_chars depth_step d s = Some e -> e = d + balance s.
Proof.
  revert d. induction s as [|c s IH]; intros d Hs; [injection Hs as <-; cbn; lia|]. cbn [run_chars] in Hs.
  destruct (depth_step d c) as [d'|] eqn:Hc; [|done]. cbn in Hs. apply IH in Hs. cbn [balance]. unfold depth_step in Hc.
  repeat case_decide; repeat case_match; simplify_eq; lia.
Qed.

Lemma depth_shift k d s e : 0 <= k -> run_chars depth_step d s = Some e -> run_chars depth_step (d + k) s = Some (e + k).
Proof.
  intros Hk. revert d. induction s as [|c s IH]; intros d Hs; [by injection Hs as <-|]. cbn [run_chars] in *.
  destruct (depth_step d c) as [d'|] eqn:Hc; [|done]. cbn in Hs.
  assert (depth_step (d + k) c = Some (d' + k)) as ->; [|cbn; by apply IH]. unfold depth_step in *.
  destruct (Z.ltb_spec 0 d), (Z.ltb_spec 0 (d + k)); repeat case_decide; simplify_eq; try lia; f_equal; lia.
Qed.

Lemma udt_start m s : is_Some (run_chars udt_step m s) -> is_Some (run_chars udt_step 0%nat s).
Proof.
  revert m. induction s as [|c s IH]; intros m; [done|]. cbn [run_chars]. unfold udt_step.
  repeat case_decide; [done| | |done].
  - cbn. intros Hs. by eapply IH.
  - destruct (m =? 2)%nat; [by intros []|done].
Qed.

(** A name in lower case and in one line, without [udt<]. *)
Definition plain (s : jsstr) : Prop := forallb name_char s = true /\ is_Some (run_chars udt_step 0%nat s).

Lemma plain_part a s b : plain (a ++ s ++ b) -> plain s.
Proof.
  intros [Hc Hu]. split; [by rewrite !forallb_app in Hc; apply andb_prop in Hc as [_ [? _]%andb_prop]|].
  rewrite run_chars_app in Hu. destruct (run_chars udt_step 0%nat a) as [m|]; [|by destruct Hu].
  cbn in Hu. rewrite run_chars_app in Hu. apply (udt_start m). by destruct (run_chars udt_step m s); [|destruct Hu].
Qed.

Lemma in_angles_Some p s inner : in_angles p s = Some inner -> s = p ++ inner ++ [">"%char].
Proof.
  unfold in_angles. destruct (starts_with p s) eqn:Hp; [|done]. destruct (char_is s (length s - 1) ">"%char) eqn:Hc; [|done].
  destruct (Nat.ltb_spec (length p + 1) (length s)) as [Hl|]; [|done]. cbn [andb]. destruct (has_line_break _); [done|]. intros [= <-].
  unfold starts_with in Hp. apply bool_decide_eq_true in Hp. unfold char_is in Hc.
  destruct (s !! (length s - 1)%nat) as [c|] eqn:Hs; [|done]. apply bool_decide_eq_true in Hc as ->.
  rewrite <- Hp at 1. unfold substring. rewrite <- (take_drop (length p) s) at 1. f_equal.
  rewrite <- (take_drop (length s - 1 - length p) (drop (length p) s)) at 1. f_equal. rewrite drop_drop.
  replace (length p + (length s - 1 - length p))%nat with (length s - 1)%nat by lia.
  rewrite (drop_S _ _ _ Hs). by rewrite drop_ge by lia.
Qed.

Lemma last_comma_Some s a b : last_comma s = Some (a, b) -> s = a ++ ","%char :: b /\ b <> [].
Proof.
  revert a. induction s as [|c s IH]; intros a Hs; [done|]. cbn in Hs. destruct (last_comma s) as [[a' b']|].
  - injection Hs as <- <-. destruct (IH a' eq_refl) as [-> ?]. done.
  - destruct (bool_decide (c = ","%char)) eqn:Hc; [|done]. apply bool_decide_eq_true in Hc as ->.
    destruct (bool_decide (s = [])) eqn:Hb; [done|]. injection Hs as <- <-. by apply bool_decide_eq_false in Hb.
Qed.

Lemma last_comma_prefix p s a b : last_comma s = Some (a, b) -> last_comma (p ++ s) = Some (p ++ a, b).
Proof. intros Hs. induction p as [|c p IH]; [done|]. cbn. by rewrite IH. Qed.

Lemma last_comma_here a b : last_comma b = None -> b <> [] -> last_comma (a ++ ","%char :: b) = Some (a, b).
Proof.
  intros Hb Hne. rewrite (last_comma_prefix a _ [] b); [by rewrite app_nil_r|]. cbn. rewrite Hb. by destruct b.
Qed.

(** What the parser strips has no brackets. *)
Lemma skip_spaces_part s : exists a, s = a ++ skip_spaces s /\ balance a = 0.
Proof.
  induction s as [|c s (a & E & B)]; [by exists []|]. cbn. case_bool_decide as Hc; [|by exists []].
  exists (c :: a). split; [by rewrite E at 1|]. subst c. cbn [balance]. by rewrite !decide_False, B by done.
Qed.

Lemma trim_start_part s : exists a, s = a ++ trim_start s /\ balance a = 0.
Proof.
  induction s as [|c s (a & E & B)]; [by exists []|]. cbn. destruct (is_space c) eqn:Hc; [|by exists []].
  exists (c :: a). split; [by rewrite E at 1|]. cbn [balance]. rewrite !decide_False, B by (by intros ->). done.
Qed.

Lemma balance_rev s : balance (rev s) = balance s.
Proof. induction s as [|c s IH]; [done|]. cbn [rev]. rewrite balance_app, IH. cbn [balance]. lia. Qed.

Lemma trim_part s : exists a b, s = a ++ trim s ++ b /\ balance (trim s) = balance s.
Proof.
  destruct (trim_start_part s) as (a & E & B). destruct (trim_start_part (rev (trim_start s))) as (b & E2 & B2).
  exists a, (rev b). assert (Es : trim_start s = trim s ++ rev b).
  { unfold trim. rewrite <- rev_app_distr, <- E2. by rewrite rev_involutive. }
  split; [by rewrite <- Es|]. apply (f_equal balance) in E, Es. rewrite balance_app in E. rewrite balance_app, balance_rev in Es. lia.
Qed.

Lemma split_on_parts c s x : x ∈ split_on c s -> exists a b, s = a ++ x ++ b.
Proof.
  revert x. induction s as [|d s IH]; intros x Hx; cbn in Hx.
  - apply list_elem_of_singleton in Hx as ->. by exists [], [].
  - case_decide.
    + apply elem_of_cons in Hx as [->|Hx]; [by exists [], (d :: s)|]. destruct (IH x Hx) as (a & b & ->). by exists (d :: a), b.
    + destruct (split_on c s) as [|w ws] eqn:Es.
      { apply list_elem_of_singleton in Hx as ->. by exists [], s. }
      apply elem_of_cons in Hx as [->|Hx].
      * assert (exists b, s = w ++ b) as [b ->]; [|by exists [], b].
        clear IH H. revert w ws Es. induction s as [|e s IH]; intros w ws Es; cbn in Es.
        { injection Es as <- <-. by exists []. }
        case_decide; [injection Es as <- <-; by exists (e :: s)|].
        destruct (split_on c s) as [|v vs]; [injection Es as <- <-; by exists s|]. injection Es as <- <-.
        destruct (IH v vs eq_refl) as [b ->]. by exists b.
      * destruct (IH x) as (a & b & ->); [by right|]. by exists (d :: a), b.
Qed.

Lemma split_on_cons c s : exists w ws, split_on c s = w :: ws.
Proof.
  destruct s as [|d s]; cbn; [eauto|]. case_decide; [eauto|]. destruct (split_on c s); eauto.
Qed.

(** When every part is balanced, so is what stands in front of a separator. *)
Lemma split_on_balanced a b :
  Forall (fun x => balance x = 0) (split_on ","%char (a ++ ","%char :: b)) -> balance a = 0.
Proof.
  assert (G : forall n w ws, split_on ","%char (a ++ ","%char :: b) = w :: ws -> n + balance w = 0 -> Forall (fun x => balance x = 0) ws ->
    n + balance a = 0); [|intros Hs; destruct (split_on_cons ","%char (a ++ ","%char :: b)) as (w & ws & E); rewrite E in Hs;
      apply Forall_cons in Hs as [Hw Hws]; by apply (G 0 w ws)].
  induction a as [|c a IH]; intros n w ws Hs Hw Hws; cbn in Hs; [by injection Hs as <- <-|].
  destruct (split_on_cons ","%char (a ++ ","%char :: b)) as (v & vs & E). rewrite E in Hs. cbn [balance]. case_decide as Hc.
  - injection Hs as <- <-. subst c. rewrite !decide_False by done. cbn in Hw. apply Forall_cons in Hws as [Hv Hvs].
    rewrite Z.add_0_l. by apply (IH n v vs); [|lia|].
  - injection Hs as <- <-. cbn [balance] in Hw. rewrite Z.add_assoc. by apply (IH _ v vs); [|lia|].
Qed.

Lemma split_on_total s : Forall (fun x => balance x = 0) (split_on ","%char s) -> balance s = 0.
Proof.
  assert (G : forall n w ws, split_on ","%char s = w :: ws -> n + balance w = 0 -> Forall (fun x => balance x = 0) ws ->
    n + balance s = 0); [|intros Hs; destruct (split_on_cons ","%char s) as (w & ws & E); rewrite E in Hs;
      apply Forall_cons in Hs as [Hw Hws]; by apply (G 0 w ws)].
  induction s as [|c s IH]; intros n w ws Hs Hw Hws; cbn in Hs; [by injection Hs as <- <-|].
  destruct (split_on_cons ","%char s) as (v & vs & E). rewrite E in Hs. cbn [balance]. case_decide as Hc.
  - injection Hs as <- <-. subst c. rewrite !decide_False by done. cbn in Hw. apply Forall_cons in Hws as [Hv Hvs].
    rewrite Z.add_0_l. by apply (IH n v vs); [|lia|].
  - injection Hs as <- <-. cbn [balance] in Hw. rewrite Z.add_assoc. by apply (IH _ v vs); [|lia|].
Qed.

(** A name that is read is balanced; otherwise it is a TypeError. *)
Definition read_or_rejected (s : jsstr) (r : result column_type) : Prop :=
  match r with Ok _ => balance s = 0 | Throw e => e = TypeError end.

Lemma simple_read s : read_or_rejected s (simple_by_name s).
Proof.
  unfold simple_by_name, dataType_code. destruct (find _ dataTypes) as [[n c]|] eqn:F; [|done]. cbn.
  apply find_some in F as [Hin Hn%bool_decide_eq_true]. cbn in Hn. subst s.
  assert (All : forallb (fun p => balance (str p.1) =? 0) dataTypes = true) by (vm_compute; reflexivity).
  rewrite forallb_forall in All. by apply (All (n, c)), Z.eqb_eq in Hin.
Qed.

Lemma plain_line s : plain s -> has_line_break s = false.
Proof. intros [? _]. by apply name_line. Qed.

Lemma balance_digits d : forallb is_digit d = true -> balance d = 0.
Proof.
  induction d as [|c d IH]; [done|]. cbn [forallb balance]. intros [Hc Hd]%andb_prop. rewrite IH by done.
  rewrite !decide_False by (by intros ->). done.
Qed.

Lemma loop_read fuel s : plain s -> (length s < fuel)%nat -> read_or_rejected s (getByName_loop fuel s).
Proof.
  revert s. induction fuel as [|fuel IH]; intros s Hp Hf; [lia|]. cbn [getByName_loop].
  rewrite (name_lower s) by apply Hp. rewrite (plain_line s Hp), andb_false_r. case_match; [by apply simple_read|].
  assert (Part : forall a x b, s = a ++ x ++ b -> (length x < length s)%nat -> read_or_rejected x (getByName_loop fuel x)).
  { intros a x b E Hx. apply IH; [|lia]. apply (plain_part a x b). by rewrite <- E. }
  assert (Inner : forall p inner, in_angles p s = Some inner -> balance p = 1 ->
    balance s = balance inner /\ forall a x b, inner = a ++ x ++ b -> read_or_rejected x (getByName_loop fuel x)).
  { intros p inner E Hb. apply in_angles_Some in E. split; [rewrite E, !balance_app, Hb; cbn [balance]; rewrite decide_False, decide_True by done; lia|].
    intros a x b Ei. apply (Part (p ++ a) x (b ++ [">"%char])); [by rewrite E, Ei, <- !app_assoc|]. rewrite E, Ei, !length_app. cbn. lia. }
  destruct (in_angles (str "list<") s) as [inner|] eqn:E1.
  { destruct (Inner _ _ E1 eq_refl) as [B R]. specialize (R [] inner [] ltac:(by rewrite app_nil_r)).
    destruct (getByName_loop fuel inner); cbn in *; [by rewrite B|done]. }
  destruct (in_angles (str "set<") s) as [inner|] eqn:E2.
  { destruct (Inner _ _ E2 eq_refl) as [B R]. specialize (R [] inner [] ltac:(by rewrite app_nil_r)).
    destruct (getByName_loop fuel inner); cbn in *; [by rewrite B|done]. }
  destruct (in_angles (str "map<") s ≫= last_comma) as [[k v]|] eqn:E3.
  { destruct (in_angles (str "map<") s) as [inner|] eqn:E3'; [|done]. cbn in E3. destruct (Inner _ _ E3' eq_refl) as [B R].
    apply last_comma_Some in E3 as [-> _]. destruct (skip_spaces_part k) as (a & Ek & Bk), (skip_spaces_part v) as (b & Ev & Bv).
    pose proof (R a (skip_spaces k) (","%char :: v) ltac:(by rewrite app_assoc, <- Ek)) as Rk.
    pose proof (R (k ++ ","%char :: b) (skip_spaces v) [] ltac:(by rewrite app_nil_r, <- app_assoc, <- app_comm_cons, <- Ev)) as Rv.
    destruct (getByName_loop fuel (skip_spaces k)); [|done]. cbn [mbind result_bind].
    destruct (getByName_loop fuel (skip_spaces v)); [|done]. cbn in Rk, Rv |- *. rewrite B, balance_app. cbn [balance].
    rewrite !decide_False by done. rewrite Ek, Ev, !balance_app. lia. }
  destruct (in_angles (str "udt<") s) as [inner|] eqn:E4.
  { apply in_angles_Some in E4. destruct Hp as [_ Hu]. rewrite E4, run_chars_app in Hu. by destruct Hu. }
  destruct (in_angles (str "tuple<") s) as [inner|] eqn:E5.
  { destruct (Inner _ _ E5 eq_refl) as [B R].
    assert (Ps : Forall (fun x => read_or_rejected x (getByName_loop fuel (trim x))) (split_on ","%char inner)).
    { apply Forall_forall. intros x Hx. destruct (split_on_parts _ _ _ Hx) as (a & b & E). destruct (trim_part x) as (c & d & Ex & Bx).
      specialize (R (a ++ c) (trim x) (d ++ b)). unfold read_or_rejected in *. rewrite Bx in R. apply R.
      rewrite E, Ex at 1. by rewrite <- !app_assoc. }
    assert (T : match traverse (fun x => getByName_loop fuel (trim x)) (split_on ","%char inner) with
                | Ok _ => Forall (fun x => balance x = 0) (split_on ","%char inner) | Throw e => e = TypeError end).
    { clear -Ps. induction Ps as [|x xs Hx _ IHx]; [by constructor|]. cbn. destruct (getByName_loop fuel (trim x)); [|done]. cbn.
      destruct (traverse _ xs); [|done]. by constructor. }
    destruct (traverse _ _); [|done]. cbn. rewrite B. by apply split_on_total. }
  cbn [andb]. destruct (in_angles (str "vector<") s ≫= last_comma) as [[t d]|] eqn:E6; [|apply simple_read].
  destruct (in_angles (str "vector<") s) as [inner|] eqn:E6'; [|done]. cbn in E6. destruct (Inner _ _ E6' eq_refl) as [B R].
  apply last_comma_Some in E6 as [-> _]. destruct (dimension_text d) as [n|] eqn:Hd; [|apply simple_read].
  destruct (trim_start_part t) as (a & Et & Bt), (trim_part d) as (b & c & Ed & Bd).
  pose proof (R a (trim_start t) (","%char :: d) ltac:(by rewrite app_assoc, <- Et)) as Rt.
  destruct (getByName_loop fuel (trim_start t)); [|done]. cbn in Rt |- *. rewrite B, balance_app. cbn [balance]. rewrite !decide_False by done.
  unfold dimension_text in Hd. destruct (negb _ && _) eqn:Hn; [|done]. apply andb_prop in Hn as [_ Hn%balance_digits].
  rewrite Et, balance_app. lia.
Qed.

(** ** Which names are read back *)

(** The types whose name is built from the names of their parts: native types,
    lists, sets, maps, tuples and vectors with a dimension that a Number holds. *)
Fixpoint built (t : column_type) : Prop :=
  match t with
  | TSimple c => dataTypesByCode c <> None
  | TList t | TSet t => built t
  | TMap k v => built k /\ built v
  | TTuple ts => Forall id (map built ts)
  | TVector t d => built t /\ exists n, 0 <= n < 2 ^ 53 /\ d = Int n
  | _ => False
  end.

(** The name of such a type. *)
Record built_name (t : column_type) (s : jsstr) : Prop := {
  bn_name : getDataTypeNameByCode t = Ok s;
  bn_udt : is_Some (run_chars udt_step 0%nat s);
  bn_depth : run_chars depth_step 0 s = Some 0;
  bn_ok : name_ok s;
  bn_cut : nameable t -> no_comma t = false -> exists a b, s = a ++ ","%char :: b }.

(** The names of parts, separated by commas. *)
Record built_inner (s : jsstr) : Prop := {
  bi_udt : is_Some (run_chars udt_step 0%nat s);
  bi_depth : run_chars depth_step 1 s = Some 1;
  bi_chars : forallb name_char s = true }.

Lemma inner_of_name t s : built_name t s -> built_inner s.
Proof. intros [_ U D N _]. split; [done| |by apply N]. by apply (depth_shift 1 0 s 0). Qed.

Lemma inner_join s1 s2 : built_inner s1 -> built_inner s2 -> built_inner (s1 ++ str ", " ++ s2).
Proof.
  intros [[m U1] D1 C1] [U2 D2 C2]. split.
  - by rewrite run_chars_app, U1.
  - by rewrite run_chars_app, D1.
  - by rewrite !forallb_app, C1, C2.
Qed.

Lemma inner_angle w inner t :
  w ∈ ["list"; "set"; "map"; "tuple"; "vector"]%string -> built_inner inner ->
  getDataTypeNameByCode t = Ok (angle (str w) inner) ->
  (nameable t -> no_comma t = false -> exists a b, inner = a ++ ","%char :: b) ->
  built_name t (angle (str w) inner).
Proof.
  intros Hw [[m U] D C] G Hcut. destruct (word_ok w Hw) as [Wn Wc].
  assert (P : run_chars udt_step 0%nat (str w ++ str "<") = Some 0%nat /\ run_chars depth_step 0 (str w ++ str "<") = Some 1).
  { repeat (apply elem_of_cons in Hw as [->|Hw]; [by split|]). by apply elem_of_nil in Hw. }
  destruct P as [P1 P2]. unfold angle. split; [done| | |by apply angle_name|].
  - rewrite app_assoc, run_chars_app, P1. cbn [mbind option_bind]. by rewrite run_chars_app, U.
  - rewrite app_assoc, run_chars_app, P2. cbn [mbind option_bind]. by rewrite run_chars_app, D.
  - intros Ht Hc. destruct (Hcut Ht Hc) as (a & b & ->). exists (str w ++ str "<" ++ a), (b ++ str ">").
    by rewrite <- !app_assoc.
Qed.

Lemma name_comma_cut t s a b : built_name t s -> s = a ++ ","%char :: b -> 0 < balance a.
Proof.
  intros [_ _ D _ _] ->. rewrite run_chars_app in D. destruct (run_chars depth_step 0 a) as [d|] eqn:E; [|done].
  apply depth_balance in E. cbn in D. unfold depth_step in D. cbn in D. destruct (Z.ltb_spec 0 d); [lia|done].
Qed.

Lemma name_balance t s : built_name t s -> balance s = 0.
Proof. intros [_ _ D _ _]. apply depth_balance in D. lia. Qed.

Lemma digits_inner n : 0 <= n -> built_inner (num_to_string 10 n) /\ comma_free (num_to_string 10 n) /\
  dimension_text (" "%char :: num_to_string 10 n) = Some (num_to_string 10 n).
Proof.
  intros Hn. destruct (num_to_string_digits 10 n ltac:(lia) Hn) as (ds & Ed & D & _ & Nd). rewrite Ed.
  set (text := map digit_char ds).
  assert (Dg : Forall (fun c => is_digit c = true) text).
  { unfold text. apply Forall_map. eapply Forall_impl; [exact D|]. apply digit_char_is_digit. }
  assert (P : forall c, is_digit c = true -> name_char c = true /\ is_space c = false /\ c <> ","%char /\ udt_step 0 c = Some 0%nat /\ depth_step 1 c = Some 1).
  { intros c Hc. destruct c as [[] [] [] [] [] [] [] []]; try discriminate Hc; done. }
  assert (F : forallb is_digit text = true).
  { apply forallb_forall. intros c Hc. rewrite Forall_forall in Dg. by apply Dg, list_elem_of_In. }
  split_and!.
  - split; [exists 0%nat| |]; clear F; clearbody text; induction Dg as [|c cs Hc _ IH]; try done; destruct (P c Hc) as (P1 & _ & _ & P4 & P5); cbn [run_chars forallb].
    + by rewrite P4.
    + by rewrite P5.
    + by rewrite P1.
  - eapply Forall_impl; [exact Dg|]. intros c Hc. by apply P.
  - unfold dimension_text. rewrite trim_space.
    assert (T : trim text = text).
    { destruct (exists_last (l := text)) as (l & c & El); [by destruct ds|]. assert (Hc : is_space c = false).
      { rewrite El in Dg. apply Forall_app in Dg as [_ [Dg _]%Forall_cons]. by apply P. }
      clear F. clearbody text. subst text. destruct l as [|y l]; [unfold trim; cbn; by rewrite Hc; cbn; rewrite Hc|].
      apply Forall_cons in Dg as [Dx _]. apply trim_id; [by apply P|done]. }
    rewrite T, F. rewrite bool_decide_eq_false_2; [done|]. unfold text. by destruct ds.
Qed.

(** The name of a type, which is read only when the type is [nameable]. *)
Definition reads_only (t : column_type) (s : jsstr) : Prop :=
  built_name t s /\ forall fuel r, (length s < fuel)%nat -> getByName_loop fuel s = Ok r -> nameable t.

Lemma only_simple c : dataTypesByCode c <> None -> exists s, reads_only (TSimple c) s.
Proof.
  intros Hc. destruct (dataTypesByCode c) as [s|] eqn:F; [|done]. exists s. split; [|intros fuel r _ _; cbn [nameable]; by rewrite F].
  assert (All : forallb (fun p => bool_decide (is_Some (run_chars udt_step 0%nat (str p.1)) /\ run_chars depth_step 0 (str p.1) = Some 0)) dataTypes = true)
    by (vm_compute; reflexivity).
  destruct (simple_name c s F) as (N & _). rewrite forallb_forall in All.
  assert (G : getDataTypeNameByCode (TSimple c) = Ok s) by (cbn [getDataTypeNameByCode type_code]; by rewrite F).
  unfold dataTypesByCode in F. destruct (find _ dataTypes) as [[n c']|] eqn:Fd; [|done]. injection F as <-.
  apply find_some in Fd as [[U Dp]%All%bool_decide_eq_true _]. by split.
Qed.

Lemma only_collection w t s :
  reads_only t s -> w = "list"%string \/ w = "set"%string ->
  reads_only (if (w =? "list")%string then TList t else TSet t) (angle (str w) s).
Proof.
  intros [B L] Hw. assert (Hin : w ∈ ["list"; "set"; "map"; "tuple"; "vector"]%string) by (destruct Hw as [->| ->]; word).
  pose proof (name_chars _ (bn_ok _ _ B)) as Nc. pose proof (name_nonempty s (bn_ok _ _ B)) as Hne. split.
  - apply inner_angle; [done|by eapply inner_of_name| |].
    + destruct Hw as [-> | ->]; cbn; by rewrite (bn_name _ _ B).
    + destruct Hw as [-> | ->]; apply B.
  - intros [|fuel] r Hf; [lia|]. rewrite length_angle in Hf. rewrite angled_lookup by done. cbv zeta.
    intros Hr. enough (nameable t) by (by destruct Hw as [-> | ->]).
    destruct Hw as [-> | ->]; cbn [String.eqb Ascii.eqb Bool.eqb] in Hr;
      (destruct (getByName_loop fuel s) as [r'|] eqn:E; [|done]); eapply (L fuel r'); done || lia.
Qed.

Lemma last_comma_none_end a b : last_comma (a ++ ","%char :: b) = None -> b = [].
Proof.
  intros Hl. destruct (last_comma b) as [[x y]|] eqn:E.
  - assert (last_comma (a ++ ","%char :: b) = Some ((a ++ [","%char]) ++ x, y)) as E2; [|by rewrite E2 in Hl].
    change (","%char :: b) with ([","%char] ++ b). rewrite app_assoc. by apply last_comma_prefix.
  - destruct b as [|c b]; [done|]. by rewrite (last_comma_here a (c :: b)) in Hl.
Qed.

Lemma only_map k v s1 s2 :
  reads_only k s1 -> reads_only v s2 -> reads_only (TMap k v) (angle (str "map") (s1 ++ str ", " ++ s2)).
Proof.
  intros [B1 L1] [B2 L2]. pose proof (inner_join s1 s2 (inner_of_name _ _ B1) (inner_of_name _ _ B2)) as I.
  assert (Hne : s1 ++ str ", " ++ s2 <> []) by (intros [E _]%app_eq_nil; by apply (name_nonempty s1 (bn_ok _ _ B1))).
  split.
  - apply inner_angle; [word|done|cbn; by rewrite (bn_name _ _ B1), (bn_name _ _ B2)|]. intros _ _. by exists s1, (" "%char :: s2).
  - intros [|fuel] r Hf; [lia|]. rewrite length_angle, !length_app in Hf. cbn in Hf.
    rewrite angled_lookup by (done || word || apply I). cbv zeta. cbn [String.eqb Ascii.eqb Bool.eqb].
    change (s1 ++ str ", " ++ s2) with (s1 ++ ","%char :: (" "%char :: s2)) in *.
    destruct (last_comma s2) as [[a b]|] eqn:E2.
    + rewrite (last_comma_prefix s1 _ (","%char :: " "%char :: a) b) by (cbn; by rewrite E2). intros Hr. exfalso.
      destruct (getByName_loop fuel (skip_spaces (s1 ++ ","%char :: " "%char :: a))) as [r'|] eqn:Ek; [|done]. clear Hr.
      destruct (last_comma_Some _ _ _ E2) as [Es _]. pose proof (name_comma_cut _ _ _ _ B2 Es) as Hcut.
      destruct (skip_spaces_part (s1 ++ ","%char :: " "%char :: a)) as (p & Ep & Bp).
      assert (P : plain (skip_spaces (s1 ++ ","%char :: " "%char :: a))).
      { apply (plain_part p _ (","%char :: b)). rewrite app_assoc, <- Ep, <- app_assoc, <- !app_comm_cons, <- Es. split; apply I. }
      pose proof (f_equal length Ep) as Hlen. rewrite !length_app in Hlen. pose proof (f_equal length Es) as Hlen2. rewrite length_app in Hlen2. cbn in Hlen, Hlen2.
      pose proof (loop_read fuel _ P ltac:(lia)) as R. rewrite Ek in R. cbn in R.
      apply (f_equal balance) in Ep. rewrite !balance_app in Ep. cbn [balance] in Ep. rewrite !decide_False in Ep by done.
      rewrite (name_balance _ _ B1) in Ep. lia.
    + rewrite last_comma_here by first [done|cbn; by rewrite E2]. rewrite (name_skip s1) by apply B1.
      destruct (getByName_loop fuel s1) as [r1|] eqn:Ek; [|done]. change (skip_spaces (" "%char :: s2)) with (skip_spaces s2).
      rewrite (name_skip s2) by apply B2. cbn [mbind result_bind]. destruct (getByName_loop fuel s2) as [r2|] eqn:Ev; [|done]. intros _.
      pose proof (L1 fuel r1 ltac:(lia) Ek) as N1. pose proof (L2 fuel r2 ltac:(lia) Ev) as N2. cbn [nameable]. split_and!; [done|done|].
      destruct (no_comma v) eqn:C; [done|]. destruct (bn_cut _ _ B2 N2 C) as (a & b & Es). pose proof (name_comma_cut _ _ _ _ B2 Es) as Hcut.
      rewrite Es in E2. apply last_comma_none_end in E2 as ->. pose proof (name_balance _ _ B2) as B. rewrite Es, balance_app in B.
      cbn [balance] in B. rewrite !decide_False in B by done. lia.
Qed.

Lemma only_vector t s n :
  reads_only t s -> 0 <= n < 2 ^ 53 -> reads_only (TVector t (Int n)) (angle (str "vector") (s ++ str ", " ++ num_to_string 10 n)).
Proof.
  intros [B L] Hn. destruct (digits_inner n ltac:(lia)) as (D & C & Dt). pose proof (inner_join s _ (inner_of_name _ _ B) D) as I.
  assert (Hne : s ++ str ", " ++ num_to_string 10 n <> []) by (intros [E _]%app_eq_nil; by apply (name_nonempty s (bn_ok _ _ B))).
  split.
  - apply inner_angle; [word|done|cbn; by rewrite (bn_name _ _ B)|]. intros _ _. by exists s, (" "%char :: num_to_string 10 n).
  - intros [|fuel] r Hf; [lia|]. rewrite length_angle, !length_app in Hf. cbn in Hf.
    rewrite angled_lookup by (done || word || apply I). cbv zeta. cbn [String.eqb Ascii.eqb Bool.eqb].
    change (s ++ str ", " ++ num_to_string 10 n) with (s ++ ","%char :: (" "%char :: num_to_string 10 n)).
    rewrite last_comma_app by first [done|constructor; [done|exact C]]. rewrite Dt, name_trim_start by apply B.
    destruct (getByName_loop fuel s) as [r1|] eqn:Ek; [|done]. intros _. cbn [nameable]. split; [by apply (L fuel r1); [lia|]|]. by exists n.
Qed.

Lemma join_cut (ss : list jsstr) s a b :
  s ∈ ss -> s = a ++ ","%char :: b -> Forall (fun s => balance s = 0) ss ->
  exists p q, join (str ", ") ss = p ++ ","%char :: q /\ balance p = balance a.
Proof.
  induction ss as [|x ss IH]; intros Hin Es Hb; [by apply elem_of_nil in Hin|]. apply Forall_cons in Hb as [Hx Hb].
  apply elem_of_cons in Hin as [<-|Hin].
  - subst s. destruct ss as [|y ss]; [by exists a, b|]. exists a, (b ++ str ", " ++ join (str ", ") (y :: ss)). split; [|done].
    change (join (str ", ") ((a ++ ","%char :: b) :: y :: ss)) with ((a ++ ","%char :: b) ++ str ", " ++ join (str ", ") (y :: ss)).
    by rewrite <- app_assoc.
  - destruct (IH Hin Es Hb) as (p & q & Ej & Bp). destruct ss as [|y ss]; [by apply elem_of_nil in Hin|].
    exists (x ++ str ", " ++ p), q. change (join (str ", ") (x :: y :: ss)) with (x ++ str ", " ++ join (str ", ") (y :: ss)).
    split; [by rewrite Ej, <- !app_assoc|]. rewrite !balance_app, Hx, Bp. change (balance (str ", ")) with 0. lia.
Qed.

Lemma comma_free_dec (s : jsstr) : comma_free s \/ exists a b, s = a ++ ","%char :: b.
Proof.
  induction s as [|c s [C|(a & b & ->)]]; [by left; constructor| |right; by exists (c :: a), b].
  destruct (decide (c = ","%char)) as [->|]; [right; by exists [], s|by left; constructor].
Qed.

Lemma only_tuple ts ss :
  Forall2 reads_only ts ss -> reads_only (TTuple ts) (angle (str "tuple") (join (str ", ") ss)).
Proof.
  intros Hn.
  assert (I : built_inner (join (str ", ") ss)).
  { clear -Hn. induction Hn as [|t s ts ss [B _] Hn IH]; [split; [by eexists|done|done]|]. apply inner_of_name in B.
    destruct ss as [|s' ss]; [done|]. by apply (inner_join s). }
  assert (G : traverse id (map getDataTypeNameByCode ts) = Ok ss).
  { apply traverse_ok, Forall2_fmap_l. clear -Hn. induction Hn as [|t s ts ss [[] _] _ IH]; by constructor. }
  split.
  - apply inner_angle; [word|done|cbn [getDataTypeNameByCode]; by rewrite G|].
    intros Ht Hc. destruct Hn as [|t s ts ss [B _] Hn]; [by destruct Ht|]. destruct Hn as [|t' s' ts ss _ Hn]; [|by exists s, (" "%char :: join (str ", ") (s' :: ss))].
    apply (bn_cut _ _ B); [|done]. cbn [nameable map] in Ht. destruct Ht as (_ & [Ht _]%Forall_cons & _). exact Ht.
  - intros [|fuel] r Hf Hr; [lia|]. destruct ss as [|s ss].
    { inversion Hn; subst. done. }
    rewrite length_angle in Hf. set (inner := join (str ", ") (s :: ss)) in *.
    assert (N : Forall name_ok (s :: ss)) by (clear -Hn; induction Hn as [|? ? ? ? [[] _]]; by constructor).
    assert (Hne : inner <> []).
    { apply Forall_cons in N as [N1 _]. intros E. apply (name_nonempty s N1). unfold inner in E. destruct ss; [done|]. by apply app_eq_nil in E as [? _]. }
    rewrite angled_lookup in Hr by (done || word || apply I). cbv zeta in Hr. cbn [String.eqb Ascii.eqb Bool.eqb] in Hr.
    destruct (traverse _ _) as [rs|] eqn:T in Hr; [|done]. clear Hr. apply traverse_ok in T.
    assert (Bal : Forall (fun x => balance x = 0) (split_on ","%char inner)).
    { apply Forall_forall. intros x Hx. destruct (split_on_parts _ _ _ Hx) as (a & b & E). destruct (trim_part x) as (c & d & Ex & <-).
      apply list_elem_of_lookup in Hx as [i Hi]. destruct (Forall2_lookup_l _ _ _ _ _ T Hi) as (t & _ & Hy).
      assert (E' : inner = (a ++ c) ++ trim x ++ (d ++ b)) by (rewrite E; rewrite Ex at 1; by rewrite <- !app_assoc).
      pose proof (loop_read fuel (trim x)) as R. rewrite Hy in R. apply R.
      - apply (plain_part (a ++ c) _ (d ++ b)). rewrite <- E'. split; apply I.
      - apply (f_equal length) in E'. rewrite !length_app in E'. lia. }
    assert (Free : Forall comma_free (s :: ss)).
    { apply Forall_forall. intros x Hx. destruct (comma_free_dec x) as [|(a & b & Ex)]; [done|]. exfalso.
      assert (Bs : Forall (fun s => balance s = 0) (s :: ss)) by (clear -Hn; induction Hn as [|? ? ? ? [B _]]; constructor; [by eapply name_balance|done]).
      destruct (join_cut _ x a b Hx Ex Bs) as (p & q & Ej & Bp). unfold inner in Bal. rewrite Ej in Bal. apply split_on_balanced in Bal.
      apply list_elem_of_lookup in Hx as [i Hi]. destruct (Forall2_lookup_r _ _ _ _ _ Hn Hi) as (t & _ & [B _]).
      pose proof (name_comma_cut _ _ _ _ B Ex). lia. }
    destruct (join_names s ss N Free) as [Hj _]. fold inner in Hj.
    assert (T' : Forall2 (fun s r => getByName_loop fuel s = Ok r) (s :: ss) rs) by (rewrite <- Hj; by apply Forall2_fmap_l).
    assert (Len : Forall (fun s => (length s < fuel)%nat) (s :: ss)).
    { apply Forall_forall. intros x Hx. pose proof (length_join_in (str ", ") x _ Hx). unfold inner in Hf. lia. }
    assert (All : Forall (fun t => nameable t /\ no_comma t = true) ts).
    { clear -Hn T' Len Free. revert rs T'. induction Hn as [|t x ts xs [B L] _ IH]; intros rs T'; [constructor|].
      apply Forall2_cons_inv_l in T' as (r & rs' & Hr & T' & ->). apply Forall_cons in Len as [H1 Len], Free as [F1 Free].
      pose proof (L fuel r H1 Hr) as Nt. constructor; [|by eapply IH]. split; [done|].
      destruct (no_comma t) eqn:C; [done|]. destruct (bn_cut _ _ B Nt C) as (a & b & ->). apply Forall_app in F1 as [_ [F1 _]%Forall_cons]. done. }
    cbn [nameable]. split_and!; [by inversion Hn| |].
    + clear -All. induction All as [|? ? []]; by constructor.
    + clear -All. induction All as [|? ? [_ E]]; [done|]. cbn. by rewrite E.
Qed.

Lemma built_reads_only t : built t -> exists s, reads_only t s.
Proof.
  induction t as [c|t IH|t IH|k v IHk IHv|ts IH|ks name fields IH|name|t d IH|info] using column_type_nested_ind; intros W; try done.
  - by apply only_simple.
  - destruct (IH W) as [s Hs]. eexists. apply (only_collection "list" t s Hs). by left.
  - destruct (IH W) as [s Hs]. eexists. apply (only_collection "set" t s Hs). by right.
  - destruct W as [Wk Wv]. destruct (IHk Wk) as [s1 H1], (IHv Wv) as [s2 H2]. eexists. by apply only_map.
  - assert (S : exists ss, Forall2 reads_only ts ss).
    { cbn [built] in W. clear -IH W. induction IH as [|t ts Ht _ IHt]; [by exists []|]. cbn [map] in W. apply Forall_cons in W as [W1 W].
      destruct (Ht W1) as [s Hs], (IHt W) as [ss Hss]. exists (s :: ss). by constructor. }
    destruct S as [ss Hss]. eexists. by apply only_tuple.
  - destruct W as (W & n & Hn & ->). destruct (IH W) as [s Hs]. eexists. by apply only_vector.
Qed.

(** C35: the name of a type built from native types, lists, sets, maps, tuples
    and vectors (with a dimension below 2^53) is lower case, and [getByName] reads it
    back as the type exactly when the type is [nameable]: when no parameter that
    the parser finds by its commas (the value of a map, the elements of a tuple)
    has a comma in its own name, and no tuple is empty.  The name of any other
    of these types is a TypeError.  So a decoded vector, which carries the name
    of the type of its elements, is encoded again with that type when it
    is [nameable]; otherwise its type is guessed from its first element. *)
Theorem getByName_name (t : column_type) (Ht : built t) :
  exists s, getDataTypeNameByCode t = Ok s /\ toLowerCase s = s /\
    (nameable t -> getByName s = Ok t /\
       forall x l, guessDataType (VVector (x :: l) (Some s)) = Ok (Some (TVector t (Int (Z.of_nat (S (length l))))))) /\
    (~ nameable t -> getByName s = Throw TypeError /\
       forall x l, guessDataType (VVector (x :: l) (Some s)) = guessDataType (VVector (x :: l) None)).
Proof.
  destruct (built_reads_only t Ht) as (s & B & R). exists s. pose proof (bn_ok _ _ B) as N. pose proof (name_nonempty s N) as Hne.
  split_and!; [apply B|by apply name_lower; apply N| |]; intros Hn.
  - destruct (nameable_named t Hn) as (s' & G & _ & _ & L). rewrite (bn_name _ _ B) in G. injection G as <-.
    assert (E : getByName s = Ok t) by (apply L; lia). split; [done|]. intros x l. destruct s as [|c s]; [done|].
    cbn [guessDataType]. by rewrite E.
  - assert (E : getByName s = Throw TypeError); [|split; [done|]; intros x l; destruct s as [|c s]; [done|]; cbn [guessDataType]; by rewrite E].
    pose proof (loop_read (S (length s)) s (conj (name_chars _ N) (bn_udt _ _ B)) ltac:(lia)) as Hr. unfold getByName.
    destruct (getByName_loop _ s) as [r|e] eqn:E; [|by rewrite Hr]. exfalso. apply Hn. by apply (R _ r (Nat.lt_succ_diag_r _) E).
Qed.

Lemma getByName_name_witness :
  (exists s, getDataTypeNameByCode (TVector (TMap (TMap (TSimple 10) (TSimple 9)) (TSet (TSimple 8))) (Int 3)) = Ok s /\
    getByName s = Ok (TVector (TMap (TMap (TSimple 10) (TSimple 9)) (TSet (TSimple 8))) (Int 3))) /\
  exists s, getDataTypeNameByCode (TTuple [TSimple 9; TMap (TSimple 9) (TSimple 10)]) = Ok s /\ getByName s = Throw TypeError.
Proof.
  split.
  - destruct (getByName_name (TVector (TMap (TMap (TSimple 10) (TSimple 9)) (TSet (TSimple 8))) (Int 3))) as (s & G & _ & Hn & _).
    { split; [by repeat split|]. exists 3. split; [lia|done]. }
    exists s. split; [exact G|]. apply Hn. split; [by repeat split|]. exists 3. split; [lia|done].
  - destruct (getByName_name (TTuple [TSimple 9; TMap (TSimple 9) (TSimple 10)])) as (s & G & _ & _ & Hn).
    { repeat constructor; discriminate. }
    exists s. split; [exact G|]. apply Hn. intros (_ & _ & H). discriminate H.
Defined.

(** Nested collections whose names are cut at the wrong comma. *)
Lemma getByName_nested_defects :
  let read t := s ← getDataTypeNameByCode t; getByName s in
  read (TMap (TSimple 9) (TMap (TSimple 9) (TSimple 10))) = Throw TypeError /\
  read (TTuple [TSimple 9; TMap (TSimple 9) (TSimple 10)]) = Throw TypeError.
Proof. split; vm_compute; reflexivity. Qed.
