(* ===== verification/Schema.v ===== *)
(** [lib/metadata/schema-parser.js] for Cassandra 3 and later, with
    [schema-index.js] and the classes of tables, views, functions and
    aggregates: what the rows of the schema tables become.

    A row is an object.  The columns of a table are objects that several fields
    share: they are kept in a store and the fields hold their indexes, which are
    those of their rows.  [resolver] finds the fields of a user-defined type.
    The option [map] of the encoding is not set: an associative array is an
    object. *)
From S2P Require Import Prelude.
From S2P Require Import JsNum.
From S2P Require Import JsStr.
From S2P Require Import Utils.
From S2P Require Import JsVal.
From S2P Require Import TypeNames.
From S2P Require Import Metadata.

Abbreviation schema_row := (obj jv).
Abbreviation udt_resolver := (jsstr -> result (option (list (jsstr * column_type)))).

(** ** Cells *)

(** [v || d] *)
Definition falsy_or (v d : jv) : jv := if truthy v then v else d.

Definition text_of (v : jv) : result jsstr := match v with JStr s => Ok s | _ => Throw Unmodelled end.

(** [v === s] *)
Definition is_text_of (v : jv) (s : string) : bool := match v with JStr t => bool_decide (t = str s) | _ => false end.

(** A list of texts, [v || utils.emptyArray] *)
Definition texts_of (v : jv) : result (list jsstr) :=
  if truthy v then match v with JArr l => traverse text_of l | _ => Throw Unmodelled end else Ok [].

(** [row["position"] || 0] *)
Definition position_of (v : jv) : result Z :=
  if truthy v then match v with JNum (Fin z 0) => Ok z | _ => Throw Unmodelled end else Ok 0.

(** [parseTypeName] of a cell: what is not a text has no [length] or no
    [indexOf]. *)
Definition cell_type (resolver : udt_resolver) (keyspace v : jv) : result column_type :=
  match v with
  | JStr s => ks ← text_of keyspace; parseTypeName resolver ks s
  | _ => Throw TypeError
  end.

(** ** Sorting by a number *)

(** [l.sort(utils.propCompare(...))], which keeps the order of equal items. *)
Fixpoint insert_by {A} (f : A -> Z) (x : A) (l : list A) : list A :=
  match l with
  | [] => [x]
  | y :: l' => if f x <? f y then x :: l else y :: insert_by f x l'
  end.

Definition sort_by {A} (f : A -> Z) (l : list A) : list A := foldl (fun acc x => insert_by f x acc) [] l.

(** ** Keyspaces *)

Record schema_keyspace := mkSchemaKeyspace {
  sk_name : jv;
  sk_durableWrites : jv;
  sk_strategy : jv;
  sk_strategyOptions : option (obj jv);
  sk_virtual : bool;
  sk_graphEngine : jv }.

Definition _createKeyspace (name durableWrites strategy : jv) (strategyOptions : option (obj jv)) (virtual : bool) : schema_keyspace :=
  mkSchemaKeyspace name durableWrites strategy strategyOptions virtual JUndef.

(** The loop over the properties of the replication. *)
Definition strategy_options (replication : obj jv) : obj jv :=
  foldl (fun o kv => if bool_decide (kv.1 = str "class") then o else obj_set o kv.1 kv.2) [] replication.

Definition _parseKeyspace (row : schema_row) (virtual : bool) : schema_keyspace :=
  let replication := prop row "replication" in
  let ks :=
    if truthy replication then
      _createKeyspace (prop row "keyspace_name") (prop row "durable_writes") (prop (own_props replication) "class")
        (Some (strategy_options (own_props replication))) virtual
    else _createKeyspace (prop row "keyspace_name") (prop row "durable_writes") JUndef None virtual in
  mkSchemaKeyspace (sk_name ks) (sk_durableWrites ks) (sk_strategy ks) (sk_strategyOptions ks) (sk_virtual ks) (prop row "graph_engine").

(** [keyspaces[ksInfo.name] = ksInfo] for each row. *)
Fixpoint add_keyspaces (keyspaces : obj schema_keyspace) (rows : list schema_row) (virtual : bool) : result (obj schema_keyspace) :=
  match rows with
  | [] => Ok keyspaces
  | row :: rows' =>
      let ks := _parseKeyspace row virtual in
      name ← text_of (sk_name ks);
      add_keyspaces (obj_set keyspaces name ks) rows' virtual
  end.

(** [getKeyspaces] of SchemaParserV2, with the answer to its query. *)
Definition getKeyspaces_v2 {Er} (answer : list schema_row + Er) : result (obj schema_keyspace) + Er :=
  match answer with inl rows => inl (add_keyspaces [] rows false) | inr e => inr e end.

(** [getKeyspaces] of SchemaParserV3: the answers to its two queries in the
    order they arrive; [true] is that of the virtual keyspaces. *)
Fixpoint getKeyspaces_v3 {Er} (keyspaces : obj schema_keyspace) (answers : list (bool * (list schema_row + Er)))
    : result (obj schema_keyspace) + Er :=
  match answers with
  | [] => inl (Ok keyspaces)
  | (virtual, inl rows) :: answers' =>
      match add_keyspaces keyspaces rows virtual with
      | Ok keyspaces => getKeyspaces_v3 keyspaces answers'
      | Throw e => inl (Throw e)
      end
  | (true, inr _) :: answers' => getKeyspaces_v3 keyspaces answers'
  | (false, inr e) :: _ => inr e
  end.

(** [getKeyspace] of SchemaParserV3, with the answers to the query and to the
    one for virtual keyspaces. *)
Definition getKeyspace_v3 {Er} (answer virtual_answer : list schema_row + Er) : option schema_keyspace + Er :=
  match answer with
  | inl (row :: _) => inl (Some (_parseKeyspace row false))
  | inl [] =>
      match virtual_answer with
      | inl (row :: _) => inl (Some (_parseKeyspace row true))
      | _ => inl None
      end
  | inr e => inr e
  end.

(** ** Indexes *)

(** [name.toLowerCase()] as a property of [kind]; undefined otherwise. *)
Definition getKindByName (name : jsstr) : option Z :=
  match name with
  | [] => Some 0
  | _ => obj_get [(str "custom", 0); (str "keys", 1); (str "composites", 2)] (toLowerCase name)
  end.

Record Index := mkIndex { ix_name : jv; ix_target : jv; ix_kind : jv; ix_options : jv }.

Definition Index_new (name target kind options : jv) : Index :=
  mkIndex name target
    (match kind with JStr s => match getKindByName s with Some k => jnum k | None => JUndef end | _ => kind end) options.

Definition _getIndexes (indexRows : option (list schema_row)) : result (list Index) :=
  traverse (fun row =>
    let options := prop row "options" in
    target ← field options "target";
    Ok (Index_new (prop row "index_name") target (prop row "kind") options)) (default [] indexRows).

(** ** Tables and views *)

Record table_column := mkColumn { tc_name : jsstr; tc_type : column_type; tc_isStatic : bool }.

(** [tableInfo]: the columns and the keys, and the other fields. *)
Record table_info := mkTable {
  ti_store : list table_column;
  ti_columns : list nat;
  ti_columnsByName : obj nat;
  ti_partitionKeys : list nat;
  ti_clusteringKeys : list nat;
  ti_clusteringOrder : list jsstr;
  ti_fields : obj jv;
  ti_indexes : option (list Index) }.

(** The fields of DataCollection, TableMetadata and MaterializedView. *)
Definition DataCollection_new (name : jsstr) : obj jv := own_props (JObj [
  (str "name", JStr name); (str "bloomFilterFalsePositiveChance", jnum 0); (str "caching", JNull); (str "comment", JNull);
  (str "gcGraceSeconds", jnum 0); (str "compactionClass", JNull); (str "compactionOptions", JNull); (str "compression", JNull);
  (str "localReadRepairChance", jnum 0); (str "readRepairChance", jnum 0); (str "extensions", JNull); (str "crcCheckChance", JNull);
  (str "populateCacheOnFlush", JBool false); (str "defaultTtl", jnum 0); (str "speculativeRetry", jstr "NONE");
  (str "minIndexInterval", jnum 128); (str "maxIndexInterval", jnum 2048); (str "nodesync", JNull)]).

Definition TableMetadata_new (name : jsstr) : obj jv := DataCollection_new name ++ [
  (str "replicateOnWrite", JBool true); (str "memtableFlushPeriod", jnum 0); (str "indexInterval", JNull);
  (str "isCompact", JBool false); (str "cdc", JNull); (str "virtual", JBool false)].

Definition MaterializedView_new (name : jsstr) : obj jv := DataCollection_new name ++ [
  (str "tableName", JNull); (str "whereClause", JNull); (str "includeAllColumns", JBool false)].

(** ** The columns *)

Definition schema_column (resolver : udt_resolver) (keyspace : jv) (row : schema_row) : result table_column :=
  type ← cell_type resolver keyspace (prop row "type");
  name ← text_of (prop row "column_name");
  Ok (mkColumn name type (is_text_of (prop row "kind") "static")).

(** An item of [partitionKeys] or [clusteringKeys]. *)
Record schema_key := mkKeyItem { ki_c : nat; ki_index : Z; ki_order : jsstr }.

Definition schema_key_of (i : nat) (row : schema_row) : result schema_key :=
  index ← position_of (prop row "position");
  Ok (mkKeyItem i index (if is_text_of (prop row "clustering_order") "desc" then str "DESC" else str "ASC")).

(** The variables of the function that the rows are mapped with. *)
Record column_lists := mkColumnLists {
  cl_columnsKeyed : obj nat; cl_partitionKeys : list schema_key; cl_clusteringKeys : list schema_key }.

(** What follows the await of the type of row [i]. *)
Definition add_column (resolver : udt_resolver) (keyspace : jv) (i : nat) (row : schema_row) (st : column_lists) : result column_lists :=
  c ← schema_column resolver keyspace row;
  let keyed := obj_set (cl_columnsKeyed st) (tc_name c) i in
  if is_text_of (prop row "kind") "partition_key" then
    item ← schema_key_of i row; Ok (mkColumnLists keyed (cl_partitionKeys st ++ [item]) (cl_clusteringKeys st))
  else if is_text_of (prop row "kind") "clustering" then
    item ← schema_key_of i row; Ok (mkColumnLists keyed (cl_partitionKeys st) (cl_clusteringKeys st ++ [item]))
  else Ok (mkColumnLists keyed (cl_partitionKeys st) (cl_clusteringKeys st)).

(** The rows in the order in which their types are known. *)
Fixpoint add_columns (resolver : udt_resolver) (keyspace : jv) (rows : list schema_row) (order : list nat) (st : column_lists)
    : result column_lists :=
  match order with
  | [] => Ok st
  | i :: order' => st ← add_column resolver keyspace i (default [] (rows !! i)) st; add_columns resolver keyspace rows order' st
  end.

(** The columns and keys of [_parseTableOrView]. *)
Definition schema_columns (resolver : udt_resolver) (keyspace : jv) (rows : list schema_row) (order : list nat)
    (fields : obj jv) (indexes : option (list Index)) : result table_info :=
  st ← add_columns resolver keyspace rows order (mkColumnLists [] [] []);
  store ← traverse (schema_column resolver keyspace) rows;
  let clusteringKeys := sort_by ki_index (cl_clusteringKeys st) in
  Ok (mkTable store (seq 0 (length rows)) (cl_columnsKeyed st) (map ki_c (sort_by ki_index (cl_partitionKeys st)))
        (map ki_c clusteringKeys) (map ki_order clusteringKeys) fields indexes).

(** ** The other fields *)

(** [JSON.stringify] of an object of texts. *)
Definition hex2 (c : Z) : jsstr := if c <? 16 then str "0" ++ num_to_string 16 c else num_to_string 16 c.

Definition json_char (c : ascii) : jsstr :=
  let code := Z.of_N (N_of_ascii c) in
  if (code =? 34) || (code =? 92) then ["\"%char; c]
  else if code =? 8 then str "\b" else if code =? 12 then str "\f" else if code =? 10 then str "\n"
  else if code =? 13 then str "\r" else if code =? 9 then str "\t"
  else if code <? 32 then str "\u00" ++ hex2 code
  else [c].

Definition json_text (s : jsstr) : jsstr := [chr 34] ++ concat (map json_char s) ++ [chr 34].

Definition json_stringify (v : jv) : result jv :=
  match v with
  | JUndef => Ok JUndef
  | JNull => Ok (jstr "null")
  | JObj o =>
      fields ← traverse (fun kv : jsstr * jv => s ← text_of kv.2; Ok (json_text kv.1 ++ str ":" ++ json_text s)) o;
      Ok (JStr (str "{" ++ join (str ",") fields ++ str "}"))
  | _ => Throw Unmodelled
  end.

(** [this._asMap(obj)] *)
Definition _asMap (v : jv) : obj jv := if truthy v then own_props v else [].

(** [tableInfo.field = v], and [tableInfo.field = v || tableInfo.field]. *)
Definition set_field (field : string) (v : jv) (o : obj jv) : obj jv := obj_set o (str field) v.
Definition keep_field (field : string) (v : jv) (o : obj jv) : obj jv := obj_set o (str field) (falsy_or v (prop o field)).

(** The assignments between the keys and the indexes, for a table that is not
    virtual. *)
Definition parse_fields (isView : bool) (row : schema_row) (o : obj jv) : result (obj jv) :=
  let o := set_field "bloomFilterFalsePositiveChance" (prop row "bloom_filter_fp_chance") o in
  caching ← json_stringify (prop row "caching");
  let o := set_field "comment" (prop row "comment") (set_field "caching" caching o) in
  let compaction := _asMap (prop row "compaction") in
  let o := set_field "compactionOptions" (JObj (strategy_options compaction)) (set_field "compactionClass" (prop compaction "class") o) in
  let o := set_field "compression" (prop row "compression") o in
  let o := set_field "gcGraceSeconds" (prop row "gc_grace_seconds") o in
  let o := set_field "localReadRepairChance" (prop row "dclocal_read_repair_chance") o in
  let o := set_field "readRepairChance" (prop row "read_repair_chance") o in
  let o := set_field "extensions" (prop row "extensions") o in
  let o := set_field "crcCheckChance" (prop row "crc_check_chance") o in
  let o := keep_field "memtableFlushPeriod" (prop row "memtable_flush_period_in_ms") o in
  let o := keep_field "defaultTtl" (prop row "default_time_to_live") o in
  let o := keep_field "speculativeRetry" (prop row "speculative_retry") o in
  let o := keep_field "minIndexInterval" (prop row "min_index_interval") o in
  let o := keep_field "maxIndexInterval" (prop row "max_index_interval") o in
  let o := keep_field "nodesync" (prop row "nodesync") o in
  if isView then
    Ok (set_field "includeAllColumns" (prop row "include_all_columns")
         (set_field "whereClause" (prop row "where_clause") (set_field "tableName" (prop row "base_table_name") o)))
  else
    let cdc := prop row "cdc" in
    Ok (if is_undef cdc then o else set_field "cdc" cdc o).

(** ** Columns of Thrift *)

(** [columns.splice(columns.indexOf(c), 1)]; the index -1 is that of the last
    element. *)
Fixpoint remove_first (c : nat) (l : list nat) : option (list nat) :=
  match l with [] => None | x :: l' => if (x =? c)%nat then Some l' else (fun r => x :: r) <$> remove_first c l' end.

Definition splice_column (columns : list nat) (c : nat) : list nat :=
  match remove_first c columns with Some l => l | None => take (length columns - 1) columns end.

Definition name_at (store : list table_column) (c : nat) : jsstr := match store !! c with Some x => tc_name x | None => [] end.
Definition static_at (store : list table_column) (c : nat) : bool := match store !! c with Some x => tc_isStatic x | None => false end.

(** [c.isStatic = false] *)
Definition unset_static (store : list table_column) (c : nat) : list table_column :=
  alter (fun x => mkColumn (tc_name x) (tc_type x) false) c store.

(** A step of the loops that go over the columns from the last one: [dropped]
    is the condition to remove the column. *)
Definition prune_step (dropped : list table_column -> nat -> bool) (c : nat) (st : list nat * obj nat * list table_column)
    : list nat * obj nat * list table_column :=
  let '(kept, byName, store) := st in
  if dropped store c then (kept, obj_delete byName (name_at store c), store) else (c :: kept, byName, unset_static store c).

Definition prune_loop (dropped : list table_column -> nat -> bool) (t : table_info) : table_info :=
  let '(columns, byName, store) := foldr (prune_step dropped) ([], ti_columnsByName t, ti_store t) (ti_columns t) in
  mkTable store columns byName (ti_partitionKeys t) (ti_clusteringKeys t) (ti_clusteringOrder t) (ti_fields t) (ti_indexes t).

Definition pruneStaticCompactTableColumns (t : table_info) : table_info :=
  let columns := foldl splice_column (ti_columns t) (ti_clusteringKeys t) in
  let byName := foldl (fun o c => obj_delete o (name_at (ti_store t) c)) (ti_columnsByName t) (ti_clusteringKeys t) in
  prune_loop (fun store c => negb (static_at store c) && negb (bool_decide (c ∈ ti_partitionKeys t)))
    (mkTable (ti_store t) columns byName (ti_partitionKeys t) [] [] (ti_fields t) (ti_indexes t)).

(** A column of the custom type [empty]. *)
Definition empty_at (store : list table_column) (c : nat) : bool :=
  match store !! c with Some x => match tc_type x with TCustom info => bool_decide (info = str "empty") | _ => false end | None => false end.

Definition pruneDenseTableColumns (t : table_info) : table_info :=
  prune_loop (fun store c => negb (static_at store c) && empty_at store c) t.

(** ** [_parseTableOrView] of SchemaParserV2 *)

Definition flag (flags : list jv) (s : string) : bool := existsb (fun v => is_text_of v s) flags.

Definition with_fields_indexes (t : table_info) (fields : obj jv) (indexes : option (list Index)) : table_info :=
  mkTable (ti_store t) (ti_columns t) (ti_columnsByName t) (ti_partitionKeys t) (ti_clusteringKeys t) (ti_clusteringOrder t) fields indexes.

Definition _parseTableOrView (resolver : udt_resolver) (isView : bool) (fields : obj jv) (tableRow : schema_row) (columnRows : list schema_row)
    (indexRows : option (list schema_row)) (virtual : bool) (order : list nat) : result table_info :=
  t ← schema_columns resolver (prop tableRow "keyspace_name") columnRows order fields None;
  if virtual then Ok (with_fields_indexes t (set_field "virtual" (JBool true) fields) None)
  else
    fields ← parse_fields isView tableRow fields;
    if isView then Ok (with_fields_indexes t fields None)
    else
      indexes ← _getIndexes indexRows;
      match prop tableRow "flags" with
      | JArr flags =>
          let isDense := flag flags "dense" in
          let isSuper := flag flags "super" in
          let isCompound := flag flags "compound" in
          let t := with_fields_indexes t (set_field "isCompact" (JBool (isSuper || isDense || negb isCompound)) fields) (Some indexes) in
          Ok (if negb isSuper && negb isDense && negb isCompound then pruneStaticCompactTableColumns t
              else if isDense then pruneDenseTableColumns t
              else t)
      | _ => Throw TypeError
      end.

(** ** User-defined types, functions and aggregates *)

Definition _parseUdt (resolver : udt_resolver) (row : schema_row) : result (list (jsstr * column_type)) :=
  match prop row "field_names" with
  | JArr names =>
      traverse (fun iv : nat * jv =>
        fieldType ← match prop row "field_types" with
                    | JArr types => Ok (default JUndef (types !! iv.1))
                    | _ => Throw TypeError
                    end;
        type ← cell_type resolver (prop row "keyspace_name") fieldType;
        name ← text_of iv.2;
        Ok (name, type)) (zip (seq 0 (length names)) names)
  | _ => Throw TypeError
  end.

Record schema_function := mkFunction {
  sf_name : jv; sf_keyspaceName : jv; sf_signature : list jsstr; sf_argumentNames : list jsstr;
  sf_argumentTypes : list column_type; sf_body : jv; sf_calledOnNullInput : jv; sf_language : jv;
  sf_returnType : column_type; sf_deterministic : jv; sf_monotonic : jv; sf_monotonicOn : list jsstr }.

Definition _parseFunction (resolver : udt_resolver) (row : schema_row) : result schema_function :=
  signature ← texts_of (prop row "argument_types");
  argumentNames ← texts_of (prop row "argument_names");
  monotonicOn ← texts_of (prop row "monotonic_on");
  argumentTypes ← traverse (fun name => cell_type resolver (prop row "keyspace_name") (JStr name)) signature;
  returnType ← cell_type resolver (prop row "keyspace_name") (prop row "return_type");
  Ok (mkFunction (prop row "function_name") (prop row "keyspace_name") signature argumentNames argumentTypes (prop row "body")
        (prop row "called_on_null_input") (prop row "language") returnType (falsy_or (prop row "deterministic") (JBool false))
        (falsy_or (prop row "monotonic") (JBool false)) monotonicOn).

Record schema_aggregate := mkAggregate {
  sa_name : jv; sa_keyspaceName : jv; sa_signature : list jsstr; sa_argumentTypes : list column_type; sa_stateFunction : jv;
  sa_stateType : column_type; sa_finalFunction : jv; sa_initCondition : jv; sa_returnType : column_type; sa_deterministic : jv }.

Definition _parseAggregate (resolver : udt_resolver) (row : schema_row) : result schema_aggregate :=
  signature ← texts_of (prop row "argument_types");
  argumentTypes ← traverse (fun name => cell_type resolver (prop row "keyspace_name") (JStr name)) signature;
  stateType ← cell_type resolver (prop row "keyspace_name") (prop row "state_type");
  returnType ← cell_type resolver (prop row "keyspace_name") (prop row "return_type");
  Ok (mkAggregate (prop row "aggregate_name") (prop row "keyspace_name") signature argumentTypes (prop row "state_func") stateType
        (prop row "final_func") (prop row "initcond") returnType (falsy_or (prop row "deterministic") (JBool false))).

(** The Map of [getFunctions] for the functions of the rows. *)
Definition functions_map {F} (signature : F -> list jsstr) (funcs : list F) : obj F :=
  foldl (fun m f => obj_set m (join (str ",") (signature f)) f) [] funcs.

(** ** [getByVersion] *)

Inductive parser_version := SchemaParserV1 | SchemaParserV2 | SchemaParserV3.

(** [currentInstance instanceof parserConstructor]; V3 extends V2. *)
Definition parser_instanceof (p constructor : parser_version) : bool :=
  match p, constructor with
  | SchemaParserV1, SchemaParserV1 | SchemaParserV2, SchemaParserV2 | SchemaParserV3, (SchemaParserV2 | SchemaParserV3) => true
  | _, _ => false
  end.

Definition getByVersion (version : option (list Z)) (currentInstance : option parser_version) : parser_version :=
  let constructor :=
    match version with
    | Some (v :: _) => if v =? 3 then SchemaParserV2 else if 4 <=? v then SchemaParserV3 else SchemaParserV1
    | _ => SchemaParserV1
    end in
  match currentInstance with
  | Some p => if parser_instanceof p constructor then p else constructor
  | None => constructor
  end.
