(* ===== verification/SchemaTheorems.v ===== *)
(** The schema parser: the tables do not depend on the order in which their
    types are resolved, their keys are in order, the columns that Thrift added
    are hidden, and the keyspaces of both queries are kept. *)
From stdpp Require Import sorting.
From S2P Require Import Prelude.
From S2P Require Import JsNum.
From S2P Require Import JsStr.
From S2P Require Import Utils.
From S2P Require Import JsVal.
From S2P Require Import TypeNames.
From S2P Require Import Metadata.
From S2P Require Import MetadataTheorems.
From S2P Require Import Schema.

(** ** Sorting *)

Section sorting.
Context {A : Type} (f : A -> Z).

Lemma insert_by_perm x l : insert_by f x l ≡ₚ x :: l.
Proof.
  induction l as [|y l IH]; cbn [insert_by]; [done|]. destruct (f x <? f y); [done|].
  rewrite IH. apply Permutation_swap.
Qed.

Lemma sort_by_perm l : sort_by f l ≡ₚ l.
Proof.
  unfold sort_by. enough (G : forall acc, foldl (fun acc x => insert_by f x acc) acc l ≡ₚ acc ++ l) by apply G.
  induction l as [|x l IH]; intros acc; cbn [foldl]; [by rewrite app_nil_r|].
  rewrite IH, insert_by_perm. apply Permutation_middle.
Qed.

Lemma insert_by_sorted x l :
  StronglySorted (fun a b => f a <= f b) l -> StronglySorted (fun a b => f a <= f b) (insert_by f x l).
Proof.
  induction 1 as [|y l Hs IH Hy]; cbn [insert_by]; [repeat constructor|]. destruct (Z.ltb_spec (f x) (f y)).
  - constructor; [by constructor|]. constructor; [lia|]. eapply Forall_impl; [exact Hy|]. cbv beta. lia.
  - constructor; [done|]. rewrite insert_by_perm. by constructor.
Qed.

Lemma sort_by_sorted l : StronglySorted (fun a b => f a <= f b) (sort_by f l).
Proof.
  unfold sort_by. enough (G : forall acc, StronglySorted (fun a b => f a <= f b) acc ->
    StronglySorted (fun a b => f a <= f b) (foldl (fun acc x => insert_by f x acc) acc l)) by (apply G; constructor).
  induction l as [|x l IH]; intros acc Ha; cbn [foldl]; [done|]. by apply IH, insert_by_sorted.
Qed.

(** With different keys the order is strict. *)
Lemma sort_by_strict l : NoDup (map f l) -> StronglySorted (fun a b => f a < f b) (sort_by f l).
Proof.
  intros Hn. rewrite <- (sort_by_perm l) in Hn. revert Hn. induction (sort_by_sorted l) as [|x l' Hs IH Hx]; cbn [map]; [constructor|].
  intros [Hx' Hn]%NoDup_cons. constructor; [by apply IH|]. rewrite !Forall_forall in *. intros y Hy. specialize (Hx y Hy).
  cut (f x <> f y); [lia|]. intros E. apply Hx'. rewrite E. by apply list_elem_of_fmap_2.
Qed.
End sorting.

(** ** Columns *)

Section columns.
Context (resolver : udt_resolver) (keyspace : jv) (rows : list schema_row).

Definition row_at (i : nat) : schema_row := default [] (rows !! i).
Definition has_kind (k : string) (i : nat) : bool := is_text_of (prop (row_at i) "kind") k.

Definition row_position (i : nat) : Z := match position_of (prop (row_at i) "position") with Ok z => z | Throw _ => 0 end.
Definition row_order (i : nat) : jsstr := if is_text_of (prop (row_at i) "clustering_order") "desc" then str "DESC" else str "ASC".

(** The rows of a kind, in the order [order], as items. *)
Definition item_at (i : nat) : schema_key := mkKeyItem i (row_position i) (row_order i).
Definition key_items (k : string) (order : list nat) : list schema_key := map item_at (filter (fun i => has_kind k i = true) order).

Lemma key_items_app k l l' : key_items k (l ++ l') = key_items k l ++ key_items k l'.
Proof. unfold key_items. by rewrite filter_app, map_app. Qed.

Lemma key_items_perm k l l' : l ≡ₚ l' -> key_items k l ≡ₚ key_items k l'.
Proof. intros E. unfold key_items. by rewrite E. Qed.

Lemma is_text_of_inj v s s' : is_text_of v s = true -> is_text_of v s' = true -> str s = str s'.
Proof. destruct v; try done. cbn. rewrite !bool_decide_eq_true. congruence. Qed.

Lemma has_kind_excl i : has_kind "partition_key" i = true -> has_kind "clustering" i = true -> False.
Proof. intros H1 H2. by pose proof (is_text_of_inj _ _ _ H1 H2). Qed.

(** The name of the column of a row. *)
Definition row_name (i : nat) : jsstr := match prop (row_at i) "column_name" with JStr s => s | _ => [] end.

Lemma schema_column_name row c : schema_column resolver keyspace row = Ok c -> prop row "column_name" = JStr (tc_name c) /\
  tc_isStatic c = is_text_of (prop row "kind") "static".
Proof.
  unfold schema_column. intros (type & _ & (name & Hn & [= <-])%bind_ok)%bind_ok. cbn. split; [|done].
  destruct (prop row "column_name"); try done. by injection Hn as ->.
Qed.

Lemma schema_key_of_ok i item : schema_key_of i (row_at i) = Ok item -> item = item_at i.
Proof. unfold schema_key_of, item_at, row_position. intros (z & -> & [= <-])%bind_ok. done. Qed.

Lemma add_column_spec i st st' :
  add_column resolver keyspace i (row_at i) st = Ok st' ->
  st' = mkColumnLists (obj_set (cl_columnsKeyed st) (row_name i) i) (cl_partitionKeys st ++ key_items "partition_key" [i])
          (cl_clusteringKeys st ++ key_items "clustering" [i]).
Proof.
  unfold add_column. intros (c & Hc & H)%bind_ok. destruct (schema_column_name _ _ Hc) as [Hn _].
  assert (E : row_name i = tc_name c) by (unfold row_name; by rewrite Hn). rewrite E. unfold key_items. rewrite !filter_cons, !filter_nil.
  fold (has_kind "partition_key" i) in H. fold (has_kind "clustering" i) in H. pose proof (has_kind_excl i) as Hex.
  destruct (has_kind "partition_key" i) eqn:K1, (has_kind "clustering" i) eqn:K2; try (by exfalso; apply Hex).
  - apply bind_ok in H as (item & ->%schema_key_of_ok & [= <-]). by rewrite decide_True, decide_False, app_nil_r by done.
  - apply bind_ok in H as (item & ->%schema_key_of_ok & [= <-]). by rewrite decide_False, decide_True, app_nil_r by done.
  - injection H as <-. by rewrite !decide_False, !app_nil_r by done.
Qed.

Lemma add_columns_spec order st st' :
  add_columns resolver keyspace rows order st = Ok st' ->
  st' = mkColumnLists (foldl (fun o i => obj_set o (row_name i) i) (cl_columnsKeyed st) order)
          (cl_partitionKeys st ++ key_items "partition_key" order) (cl_clusteringKeys st ++ key_items "clustering" order).
Proof.
  revert st. induction order as [|i order IH]; intros st; cbn [add_columns].
  - intros [= <-]. unfold key_items. rewrite !filter_nil. cbn. rewrite !app_nil_r. by destruct st.
  - intros (st1 & ->%add_column_spec & ->%IH)%bind_ok. cbn [cl_columnsKeyed cl_partitionKeys cl_clusteringKeys foldl].
    rewrite <- !app_assoc. by rewrite <- !key_items_app.
Qed.

(** Names that are set one by one. *)
Lemma set_names_get (name : nat -> jsstr) order o n :
  NoDup (map name order) ->
  obj_get (foldl (fun o i => obj_set o (name i) i) o order) n = match find (fun i => bool_decide (name i = n)) order with Some i => Some i | None => obj_get o n end.
Proof.
  revert o. induction order as [|i order IH]; intros o; cbn [foldl find map]; [done|]. intros [Hi Hn]%NoDup_cons.
  rewrite IH, obj_get_set by done. case_bool_decide as E.
  - subst n. rewrite decide_True by done. destruct (find _ order) as [j|] eqn:F; [|done].
    apply find_some in F as [Hj Hb]. apply bool_decide_eq_true in Hb. exfalso. apply Hi. rewrite <- Hb.
    apply list_elem_of_In in Hj. by apply list_elem_of_fmap_2.
  - by rewrite decide_False.
Qed.

Lemma obj_delete_NoDup {V} (o : obj V) k : NoDup (map fst o) -> NoDup (map fst (obj_delete o k)).
Proof.
  intros Hn. destruct (decide (k ∈ map fst o)) as [Hk|Hk].
  - rewrite (obj_delete_keys o k Hk) in Hn. by apply NoDup_cons in Hn as [_ ?].
  - induction o as [|[k' v'] o IH]; cbn [obj_delete map fst] in *; [done|]. apply not_elem_of_cons in Hk as [Hne Hk].
    apply NoDup_cons in Hn as [Hk' Hn]. rewrite decide_False by done. cbn [map fst]. constructor; [|by apply IH].
    rewrite <- obj_get_None, obj_delete_get, decide_False by done. by apply obj_get_None.
Qed.

Lemma obj_set_NoDup {V} (o : obj V) k v : NoDup (map fst o) -> NoDup (map fst (obj_set o k v)).
Proof.
  intros Hn. induction o as [|[k' v'] o IH]; cbn [obj_set map fst]; [repeat constructor; by apply not_elem_of_nil|].
  apply NoDup_cons in Hn as [Hk Hn]. destruct (decide (k = k')) as [->|Hne]; cbn [map fst]; constructor; [done|done| |by apply IH].
  rewrite <- obj_get_None, obj_get_set, decide_False by done. by apply obj_get_None.
Qed.

Lemma set_names_NoDup (name : nat -> jsstr) order (o : obj nat) :
  NoDup (map fst o) -> NoDup (map fst (foldl (fun o i => obj_set o (name i) i) o order)).
Proof. revert o. induction order as [|i order IH]; intros o Hn; cbn [foldl]; [done|]. by apply IH, obj_set_NoDup. Qed.

Lemma find_name (name : nat -> jsstr) order n i :
  NoDup (map name order) -> find (fun i => bool_decide (name i = n)) order = Some i <-> i ∈ order /\ name i = n.
Proof.
  intros Hn. split.
  - intros [Hi Hb]%find_some. apply bool_decide_eq_true in Hb. by rewrite list_elem_of_In.
  - intros [Hi E]. induction order as [|j order IH]; [by apply elem_of_nil in Hi|]. cbn [find map] in *. apply NoDup_cons in Hn as [Hj Hn].
    apply elem_of_cons in Hi as [->|Hi]; [by rewrite bool_decide_eq_true_2|]. rewrite bool_decide_eq_false_2; [by apply IH|].
    intros E'. apply Hj. rewrite E', <- E. by apply list_elem_of_fmap_2.
Qed.

(** The rows of a kind, in the order of their positions. *)
Record keys_in_order (k : string) (keys : list nat) : Prop := {
  ko_rows : forall i, i ∈ keys <-> (i < length rows)%nat /\ has_kind k i = true;
  ko_order : StronglySorted (fun i j => row_position i < row_position j) keys }.

Lemma keys_in_order_NoDup k keys : keys_in_order k keys -> NoDup keys.
Proof.
  intros [_ Ho]. induction Ho as [|x l _ IH Hx]; constructor; [|done]. intros Hin. rewrite Forall_forall in Hx. specialize (Hx x Hin). lia.
Qed.

(** There is only one such list. *)
Lemma keys_in_order_unique k keys keys' : keys_in_order k keys -> keys_in_order k keys' -> keys = keys'.
Proof.
  intros K1 K2. pose proof K1 as [R1 O1]. pose proof K2 as [R2 O2].
  apply (StronglySorted_unique_strong _ _ _) with (3 := O2); [lia|done|].
  apply NoDup_Permutation; [by eapply keys_in_order_NoDup..|]. intros i. by rewrite R1, R2.
Qed.

Definition distinct_positions (k : string) : Prop :=
  NoDup (map row_position (filter (fun i => has_kind k i = true) (seq 0 (length rows)))).

Lemma keys_sorted k order :
  order ≡ₚ seq 0 (length rows) -> distinct_positions k ->
  let sorted := sort_by ki_index (key_items k order) in
  keys_in_order k (map ki_c sorted) /\ map ki_order sorted = map row_order (map ki_c sorted).
Proof.
  intros Ho Hp sorted. assert (E : sorted ≡ₚ key_items k (seq 0 (length rows))).
  { unfold sorted. by rewrite sort_by_perm, (key_items_perm k _ _ Ho). }
  assert (I : Forall (fun item => item = item_at (ki_c item)) sorted).
  { rewrite E. unfold key_items. apply Forall_map, Forall_forall. done. }
  assert (S : StronglySorted (fun a b => ki_index a < ki_index b) sorted).
  { apply sort_by_strict. rewrite (key_items_perm k _ _ Ho). unfold key_items. by rewrite map_map. }
  clearbody sorted. split; [split|].
  - intros i. rewrite (fmap_Permutation ki_c _ _ E). unfold key_items. rewrite map_map. cbn [item_at ki_c]. rewrite map_id.
    rewrite list_elem_of_filter, elem_of_seq. intuition lia.
  - clear E. induction S as [|x l _ IH Hx]; cbn [map]; constructor; [by apply IH; inversion I|].
    apply Forall_map. rewrite Forall_forall in *. intros y Hy. specialize (Hx y Hy).
    rewrite (I x) in Hx by (by left). rewrite (I y) in Hx by (by right). exact Hx.
  - rewrite map_map. apply map_ext_Forall. eapply Forall_impl; [exact I|]. intros item E'. by rewrite E' at 1.
Qed.

Lemma row_names store :
  Forall2 (fun row c => schema_column resolver keyspace row = Ok c) rows store ->
  forall i, (i < length rows)%nat -> name_at store i = row_name i /\ static_at store i = has_kind "static" i.
Proof.
  intros Hs i Hi. destruct (lookup_lt_is_Some_2 rows i Hi) as [row Hr].
  destruct (Forall2_lookup_l _ _ _ _ _ Hs Hr) as (c & Hc & Hrow). destruct (schema_column_name _ _ Hrow) as [Hn Hst].
  unfold name_at, static_at, row_name, has_kind, row_at. rewrite Hc, Hr, Hst. change (default [] (Some row)) with row. by rewrite Hn.
Qed.

(** What the columns and the keys are, whatever the order. *)
Lemma schema_columns_spec order fields indexes t :
  order ≡ₚ seq 0 (length rows) -> NoDup (map row_name (seq 0 (length rows))) ->
  distinct_positions "partition_key" -> distinct_positions "clustering" ->
  schema_columns resolver keyspace rows order fields indexes = Ok t ->
  Forall2 (fun row c => schema_column resolver keyspace row = Ok c) rows (ti_store t) /\
  ti_columns t = seq 0 (length rows) /\ NoDup (map fst (ti_columnsByName t)) /\
  (forall n i, obj_get (ti_columnsByName t) n = Some i <-> (i < length rows)%nat /\ row_name i = n) /\
  keys_in_order "partition_key" (ti_partitionKeys t) /\ keys_in_order "clustering" (ti_clusteringKeys t) /\
  ti_clusteringOrder t = map row_order (ti_clusteringKeys t).
Proof.
  intros Ho Hn Hp1 Hp2. unfold schema_columns. intros (st & ->%add_columns_spec & (store & Hs%traverse_ok & [= <-])%bind_ok)%bind_ok.
  cbn [cl_columnsKeyed cl_partitionKeys cl_clusteringKeys app ti_store ti_columns ti_columnsByName ti_partitionKeys ti_clusteringKeys ti_clusteringOrder].
  assert (Hn' : NoDup (map row_name order)) by (by rewrite Ho).
  destruct (keys_sorted _ _ Ho Hp1) as [K1 _], (keys_sorted _ _ Ho Hp2) as [K2 O2].
  split_and!; try done; [apply set_names_NoDup; constructor|].
  intros n i. rewrite set_names_get by done. destruct (find _ order) as [j|] eqn:F.
  - pose proof F as [Hj E]%find_name; [|done]. rewrite Ho, elem_of_seq in Hj. split; [intros [= <-]; split; [lia|done]|].
    intros [Hi E']. rewrite <- F. apply find_name; [done|]. rewrite Ho, elem_of_seq. split; [lia|done].
  - split; [done|]. intros [Hi E]. rewrite (proj2 (find_name row_name order n i Hn')) in F; [done|]. rewrite Ho, elem_of_seq. split; [lia|done].
Qed.
End columns.

(** ** Columns that Thrift added *)

Section prune.
Context (dropped : list table_column -> nat -> bool).
(** The condition looks at the column itself. *)
Context (dropped_local : forall store store' c, store !! c = store' !! c -> dropped store c = dropped store' c).

Lemma unset_static_other store c c' : c <> c' -> unset_static store c !! c' = store !! c'.
Proof. intros Hc. by apply list_lookup_alter_ne. Qed.

Lemma unset_static_name store c c' : name_at (unset_static store c) c' = name_at store c'.
Proof.
  unfold name_at, unset_static. destruct (decide (c = c')) as [->|Hc]; [|by rewrite list_lookup_alter_ne].
  rewrite list_lookup_alter_eq. by destruct (store !! c').
Qed.

(** The type of a column stays what it is. *)
Definition type_at (store : list table_column) (c : nat) : option column_type := tc_type <$> store !! c.

Lemma unset_static_type store c c' : type_at (unset_static store c) c' = type_at store c'.
Proof.
  unfold type_at, unset_static. destruct (decide (c = c')) as [->|Hc]; [|by rewrite list_lookup_alter_ne].
  rewrite list_lookup_alter_eq. by destruct (store !! c').
Qed.

(** What the loop leaves. *)
Lemma prune_foldr cols byName store :
  NoDup cols -> NoDup (map fst byName) ->
  let '(kept, byName', store') := foldr (prune_step dropped) ([], byName, store) cols in
  kept = filter (fun c => dropped store c = false) cols /\
  NoDup (map fst byName') /\
  (forall n, obj_get byName' n = if existsb (fun c => dropped store c && bool_decide (name_at store c = n)) cols then None else obj_get byName n) /\
  (forall c, name_at store' c = name_at store c /\ type_at store' c = type_at store c) /\
  (forall c, c ∉ cols -> store' !! c = store !! c) /\
  (forall c, c ∈ kept -> static_at store' c = false).
Proof.
  induction cols as [|c cols IH]; cbn [foldr].
  { intros _ Hb. split_and!; try done. intros c Hc. by apply elem_of_nil in Hc. }
  intros [Hc Hn]%NoDup_cons Hb. specialize (IH Hn Hb). destruct (foldr _ _ cols) as [[kept byName'] store'].
  destruct IH as (Hk & Hb' & Hg & Hnm & Hst & Hs). unfold prune_step. rewrite filter_cons.
  rewrite (dropped_local store' store c) by (by apply Hst). cbn [existsb]. destruct (dropped store c) eqn:Hd.
  - rewrite decide_False by done. split_and!; try done.
    + clear Hg. apply (obj_delete_NoDup byName' _ Hb').
    + intros n. rewrite obj_delete_get, Hg by done. destruct (Hnm c) as [-> _]. cbn [andb]. case_bool_decide as E; cbn [orb]; [by rewrite decide_True|by rewrite decide_False].
    + intros c' [_ Hc']%not_elem_of_cons. by apply Hst.
  - rewrite decide_True by done. cbn [andb orb]. split_and!; try done.
    + by rewrite Hk.
    + intros c'. by rewrite unset_static_name, unset_static_type.
    + intros c' [Hne Hc']%not_elem_of_cons. rewrite unset_static_other by done. by apply Hst.
    + intros c' [->|Hc']%elem_of_cons.
      * unfold static_at, unset_static. rewrite list_lookup_alter_eq. by destruct (store' !! c).
      * unfold static_at. rewrite unset_static_other; [by apply Hs|]. intros <-. subst kept. apply list_elem_of_filter in Hc' as [_ ?]. done.
Qed.

Lemma prune_loop_spec t :
  NoDup (ti_columns t) -> NoDup (map fst (ti_columnsByName t)) ->
  (forall n i, obj_get (ti_columnsByName t) n = Some i <-> i ∈ ti_columns t /\ name_at (ti_store t) i = n) ->
  let t' := prune_loop dropped t in
  ti_columns t' = filter (fun c => dropped (ti_store t) c = false) (ti_columns t) /\
  (forall n i, obj_get (ti_columnsByName t') n = Some i <-> i ∈ ti_columns t' /\ name_at (ti_store t') i = n) /\
  (forall c, name_at (ti_store t') c = name_at (ti_store t) c /\ type_at (ti_store t') c = type_at (ti_store t) c) /\
  (forall c, c ∈ ti_columns t' -> static_at (ti_store t') c = false) /\
  ti_partitionKeys t' = ti_partitionKeys t /\ ti_clusteringKeys t' = ti_clusteringKeys t /\ ti_clusteringOrder t' = ti_clusteringOrder t.
Proof.
  intros Hn Hb Hg t'. unfold t', prune_loop. pose proof (prune_foldr (ti_columns t) (ti_columnsByName t) (ti_store t) Hn Hb) as G.
  destruct (foldr _ _ _) as [[kept byName] store]. destruct G as (Hk & _ & Hg' & Hnm & _ & Hs).
  cbn [ti_columns ti_columnsByName ti_store ti_partitionKeys ti_clusteringKeys ti_clusteringOrder]. split_and!; try done.
  intros n i. destruct (Hnm i) as [-> _]. rewrite Hg', Hk, list_elem_of_filter. destruct (existsb _ _) eqn:Ex.
  - split; [done|]. intros [[Hd Hi] E]. apply existsb_exists in Ex as (c & Hc & [Hdc E'%bool_decide_eq_true]%andb_prop).
    apply list_elem_of_In in Hc. assert (obj_get (ti_columnsByName t) n = Some c) as H1 by (by apply Hg).
    assert (obj_get (ti_columnsByName t) n = Some i) as H2 by (by apply Hg). rewrite H1 in H2. injection H2 as <-. congruence.
  - rewrite Hg. split; [|tauto]. intros [Hi E]. split; [|done]. split; [|done].
    destruct (dropped (ti_store t) i) eqn:Hd; [|done]. exfalso. apply Bool.not_true_iff_false in Ex. apply Ex. apply existsb_exists.
    exists i. split; [by apply list_elem_of_In|]. by rewrite Hd, bool_decide_eq_true_2.
Qed.
End prune.

Lemma filter_all {A} (Q : A -> Prop) `{forall x, Decision (Q x)} (l : list A) : Forall Q l -> filter Q l = l.
Proof. induction 1 as [|x l Hx _ IH]; [done|]. rewrite filter_cons, decide_True by done. by rewrite IH. Qed.

Lemma filter_ext_in {A} (Q Q' : A -> Prop) `{forall x, Decision (Q x)} `{forall x, Decision (Q' x)} (l : list A) :
  (forall x, x ∈ l -> Q x <-> Q' x) -> filter Q l = filter Q' l.
Proof.
  induction l as [|x l IH]; intros E; [done|]. rewrite !filter_cons. rewrite IH by (intros y Hy; apply E; by right).
  destruct (decide (Q x)) as [Hq|Hq]; [rewrite decide_True; [done|]|rewrite decide_False; [done|]]; rewrite <- (E x); (done || by left).
Qed.

Lemma remove_first_spec c l : NoDup l -> c ∈ l -> remove_first c l = Some (filter (fun x => x <> c) l).
Proof.
  induction l as [|x l IH]; [by intros _ ?%elem_of_nil|]. intros [Hx Hn]%NoDup_cons Hc. cbn [remove_first]. rewrite filter_cons.
  destruct (Nat.eqb_spec x c) as [->|Hne].
  - rewrite decide_False by tauto. f_equal. symmetry. apply filter_all. rewrite Forall_forall. by intros y Hy ->.
  - rewrite decide_True by done. apply elem_of_cons in Hc as [->|Hc]; [done|]. by rewrite IH.
Qed.

(** The clustering keys are removed from the columns and from the names. *)
Lemma splice_columns keys columns :
  NoDup columns -> NoDup keys -> (forall c, c ∈ keys -> c ∈ columns) ->
  foldl splice_column columns keys = filter (fun c => c ∉ keys) columns.
Proof.
  revert columns. induction keys as [|k keys IH]; intros columns Hc Hk Hin; cbn [foldl].
  - symmetry. apply filter_all, Forall_forall. intros c _ ?%elem_of_nil. done.
  - apply NoDup_cons in Hk as [Hk Hks]. unfold splice_column at 2. rewrite remove_first_spec; [|done|apply Hin; by left].
    rewrite IH; [| |done|].
    + rewrite list_filter_filter. apply list_filter_iff. intros c. rewrite not_elem_of_cons. tauto.
    + by apply NoDup_filter.
    + intros c Hc'. apply list_elem_of_filter. split; [by intros ->|]. apply Hin. by right.
Qed.

Lemma delete_names (store : list table_column) keys (o : obj nat) n :
  NoDup (map fst o) ->
  NoDup (map fst (foldl (fun o c => obj_delete o (name_at store c)) o keys)) /\
  obj_get (foldl (fun o c => obj_delete o (name_at store c)) o keys) n =
    if existsb (fun c => bool_decide (name_at store c = n)) keys then None else obj_get o n.
Proof.
  revert o. induction keys as [|k keys IH]; intros o Hn; cbn [foldl existsb]; [done|].
  destruct (IH (obj_delete o (name_at store k)) (obj_delete_NoDup _ _ Hn)) as [IH1 IH2]. split; [done|].
  rewrite IH2, obj_delete_get by done. case_bool_decide as E; cbn [orb].
  - rewrite decide_True by done. by destruct (existsb _ keys).
  - by rewrite decide_False.
Qed.

Lemma pruneStatic_spec t :
  NoDup (ti_columns t) -> NoDup (map fst (ti_columnsByName t)) ->
  NoDup (ti_clusteringKeys t) -> (forall c, c ∈ ti_clusteringKeys t -> c ∈ ti_columns t) ->
  (forall n i, obj_get (ti_columnsByName t) n = Some i <-> i ∈ ti_columns t /\ name_at (ti_store t) i = n) ->
  let t' := pruneStaticCompactTableColumns t in
  ti_columns t' = filter (fun c => c ∉ ti_clusteringKeys t /\ (c ∈ ti_partitionKeys t \/ static_at (ti_store t) c = true)) (ti_columns t) /\
  (forall n i, obj_get (ti_columnsByName t') n = Some i <-> i ∈ ti_columns t' /\ name_at (ti_store t') i = n) /\
  (forall c, name_at (ti_store t') c = name_at (ti_store t) c /\ type_at (ti_store t') c = type_at (ti_store t) c) /\
  (forall c, c ∈ ti_columns t' -> static_at (ti_store t') c = false) /\
  ti_partitionKeys t' = ti_partitionKeys t /\ ti_clusteringKeys t' = [] /\ ti_clusteringOrder t' = [].
Proof.
  intros Hn Hb Hk Hin Hg t'. unfold t', pruneStaticCompactTableColumns. rewrite splice_columns by done.
  match goal with |- context [prune_loop ?d ?x] => destruct (prune_loop_spec d) with (t := x) as (P1 & P2 & P3 & P4 & P5 & P6 & P7) end.
  - intros store store' c E. unfold static_at. by rewrite E.
  - by apply NoDup_filter.
  - by apply (delete_names _ _ _ []).
  - intros n i. cbn [ti_columns ti_columnsByName ti_store].
    destruct (delete_names (ti_store t) (ti_clusteringKeys t) (ti_columnsByName t) n Hb) as [_ ->]. rewrite list_elem_of_filter.
    destruct (existsb _ _) eqn:Ex.
    + split; [done|]. intros [[Hni Hi] E]. apply existsb_exists in Ex as (c & Hc & E'%bool_decide_eq_true). apply list_elem_of_In in Hc.
      assert (H1 : obj_get (ti_columnsByName t) n = Some c) by (apply Hg; auto).
      assert (H2 : obj_get (ti_columnsByName t) n = Some i) by (by apply Hg). congruence.
    + rewrite Hg. split; [|tauto]. intros [Hi E]. split; [|done]. split; [|done]. intros Hc. apply Bool.not_true_iff_false in Ex. apply Ex.
      apply existsb_exists. exists i. split; [by apply list_elem_of_In|]. by apply bool_decide_eq_true.
  - split_and!; try done. rewrite P1. cbn [ti_columns ti_store]. rewrite list_filter_filter. apply list_filter_iff. intros c.
    rewrite andb_false_iff, !negb_false_iff, bool_decide_eq_true. tauto.
Qed.

(** ** Tables *)

Section tables.
Context (resolver : udt_resolver) (isView virtual : bool) (tableRow : schema_row) (rows : list schema_row).

Definition row_flag (s : string) : bool := match prop tableRow "flags" with JArr l => flag l s | _ => false end.

(** Tables whose columns are pruned. *)
Definition static_compact : bool :=
  negb isView && negb virtual && negb (row_flag "super") && negb (row_flag "dense") && negb (row_flag "compound").
Definition dense_table : bool := negb isView && negb virtual && row_flag "dense".

Definition row_column (i : nat) : result table_column := schema_column resolver (prop tableRow "keyspace_name") (row_at rows i).

Definition row_empty (i : nat) : bool :=
  match row_column i with Ok c => match tc_type c with TCustom info => bool_decide (info = str "empty") | _ => false end | Throw _ => false end.

(** The rows whose columns the user sees. *)
Definition visible (i : nat) : bool :=
  if static_compact then has_kind rows "partition_key" i || has_kind rows "static" i
  else if dense_table then has_kind rows "static" i || negb (row_empty i)
  else true.

Lemma row_column_store store i :
  Forall2 (fun row c => schema_column resolver (prop tableRow "keyspace_name") row = Ok c) rows store -> (i < length rows)%nat ->
  exists c, row_column i = Ok c /\ store !! i = Some c.
Proof.
  intros Hs Hi. destruct (lookup_lt_is_Some_2 rows i Hi) as [row Hr]. destruct (Forall2_lookup_l _ _ _ _ _ Hs Hr) as (c & Hc & Hrow).
  exists c. unfold row_column, row_at. by rewrite Hr.
Qed.

Lemma parse_table_cases fields indexRows order t :
  _parseTableOrView resolver isView fields tableRow rows indexRows virtual order = Ok t ->
  exists t0 f ix, schema_columns resolver (prop tableRow "keyspace_name") rows order fields None = Ok t0 /\
    t = (let t1 := with_fields_indexes t0 f ix in
         if static_compact then pruneStaticCompactTableColumns t1 else if dense_table then pruneDenseTableColumns t1 else t1).
Proof.
  unfold _parseTableOrView, static_compact, dense_table, row_flag. intros (t0 & Ht0 & H)%bind_ok. rewrite Ht0.
  destruct virtual.
  { injection H as <-. rewrite !andb_false_r. eauto. }
  apply bind_ok in H as (f & _ & H). destruct isView; [injection H as <-; eauto|].
  apply bind_ok in H as (ix & _ & H). destruct (prop tableRow "flags"); try done. injection H as <-. cbn [negb andb].
  destruct (flag l "super"), (flag l "dense"), (flag l "compound"); eexists t0, _, _; split; reflexivity.
Qed.

(** C20: the metadata of a table does not depend on the order in which the types
    of its columns are resolved: the columns are those of the rows that the user
    may see (without what Thrift added to compact tables), in order, and found by
    their names; the keys are the rows of their kinds in the order of their
    positions, each clustering key with its own order; in a compact table no
    column is static. *)
Theorem parse_table_spec fields indexRows order t :
  order ≡ₚ seq 0 (length rows) -> NoDup (map (row_name rows) (seq 0 (length rows))) ->
  distinct_positions rows "partition_key" -> distinct_positions rows "clustering" ->
  _parseTableOrView resolver isView fields tableRow rows indexRows virtual order = Ok t ->
  ti_columns t = filter (fun i => visible i = true) (seq 0 (length rows)) /\
  (forall n i, obj_get (ti_columnsByName t) n = Some i <-> i ∈ ti_columns t /\ row_name rows i = n) /\
  (forall i, i ∈ ti_columns t -> exists c, row_column i = Ok c /\ name_at (ti_store t) i = tc_name c /\ type_at (ti_store t) i = Some (tc_type c) /\
     static_at (ti_store t) i = if static_compact || dense_table then false else has_kind rows "static" i) /\
  keys_in_order rows "partition_key" (ti_partitionKeys t) /\
  (if static_compact then ti_clusteringKeys t = [] /\ ti_clusteringOrder t = []
   else keys_in_order rows "clustering" (ti_clusteringKeys t) /\ ti_clusteringOrder t = map (row_order rows) (ti_clusteringKeys t)).
Proof.
  intros Ho Hn Hp1 Hp2 (t0 & f & ix & (Hs & Hc & Hb & Hg & K1 & K2 & Hord)%schema_columns_spec & ->)%parse_table_cases; try done.
  assert (In : forall i, i ∈ seq 0 (length rows) <-> (i < length rows)%nat) by (intros i; rewrite elem_of_seq; lia).
  assert (Nm : forall i, (i < length rows)%nat -> name_at (ti_store t0) i = row_name rows i /\ static_at (ti_store t0) i = has_kind rows "static" i).
  { by eapply row_names. }
  assert (St : forall i, (i < length rows)%nat -> exists c, row_column i = Ok c /\ ti_store t0 !! i = Some c).
  { intros i. by apply row_column_store. }
  assert (Ds : forall i, (i < length rows)%nat -> exists c, row_column i = Ok c /\ name_at (ti_store t0) i = tc_name c /\ type_at (ti_store t0) i = Some (tc_type c)).
  { intros i Hi. destruct (St i Hi) as (c & Hcol & E). exists c. unfold name_at, type_at. by rewrite E. }
  assert (Hg' : forall n i, obj_get (ti_columnsByName t0) n = Some i <-> i ∈ ti_columns t0 /\ name_at (ti_store t0) i = n).
  { intros n i. rewrite Hg, Hc, In. split; intros [Hi E]; (split; [done|]); destruct (Nm i Hi); congruence. }
  assert (Nd : NoDup (ti_columns t0)) by (rewrite Hc; apply NoDup_seq).
  destruct static_compact eqn:Esc; [|destruct dense_table eqn:Ed]; cbn [orb].
  - destruct (pruneStatic_spec (with_fields_indexes t0 f ix)) as (P1 & P2 & P3 & P4 & P5 & P6 & P7); try done.
    { by eapply keys_in_order_NoDup. }
    { cbn. intros c Hin. rewrite Hc, In. by apply K2. }
    cbv zeta in *. cbn [with_fields_indexes ti_columns ti_store ti_partitionKeys ti_clusteringKeys] in P1, P3, P5.
    assert (V : ti_columns (pruneStaticCompactTableColumns (with_fields_indexes t0 f ix)) = filter (fun i => visible i = true) (seq 0 (length rows))).
    { rewrite P1, Hc. apply filter_ext_in. intros i Hi%In. unfold visible. rewrite Esc, orb_true_iff. destruct (Nm i Hi) as [_ ->].
      rewrite (ko_rows _ _ _ K1), (ko_rows _ _ _ K2). pose proof (has_kind_excl rows i).
      assert (has_kind rows "static" i = true -> has_kind rows "clustering" i = true -> False) by (unfold has_kind; intros A B; pose proof (is_text_of_inj _ _ _ A B) as E; vm_compute in E; discriminate).
      naive_solver. }
    assert (Sub : forall i, i ∈ ti_columns (pruneStaticCompactTableColumns (with_fields_indexes t0 f ix)) -> (i < length rows)%nat).
    { intros i. rewrite V, list_elem_of_filter, In. tauto. }
    split_and!; [done| | |by rewrite P5|done..].
    + intros n i. rewrite P2. split; intros [Hi E]; (split; [done|]); destruct (P3 i) as [E3 _], (Nm i (Sub i Hi)) as [E4 _]; congruence.
    + intros i Hi. destruct (Ds i (Sub i Hi)) as (c & Hcol & E1 & E2). destruct (P3 i) as [-> ->]. exists c. by rewrite (P4 i Hi).
  - destruct (prune_loop_spec (fun store c => negb (static_at store c) && empty_at store c)) with (t := with_fields_indexes t0 f ix)
      as (P1 & P2 & P3 & P4 & P5 & P6 & P7); try done.
    { intros store store' c E. unfold static_at, empty_at. by rewrite E. }
    fold (pruneDenseTableColumns (with_fields_indexes t0 f ix)) in *. cbv zeta in *.
    cbn [with_fields_indexes ti_columns ti_store ti_partitionKeys ti_clusteringKeys ti_clusteringOrder] in P1, P3, P5, P6, P7.
    assert (V : ti_columns (pruneDenseTableColumns (with_fields_indexes t0 f ix)) = filter (fun i => visible i = true) (seq 0 (length rows))).
    { rewrite P1, Hc. apply filter_ext_in. intros i Hi%In. unfold visible, row_empty. rewrite Esc, Ed. destruct (Nm i Hi) as [_ ->].
      destruct (St i Hi) as (c & -> & E). unfold empty_at. rewrite E. destruct (has_kind rows "static" i), (tc_type c); cbn; try done.
      all: try (rewrite negb_true_iff; done). }
    assert (Sub : forall i, i ∈ ti_columns (pruneDenseTableColumns (with_fields_indexes t0 f ix)) -> (i < length rows)%nat).
    { intros i. rewrite V, list_elem_of_filter, In. tauto. }
    split_and!; [done| | |by rewrite P5|by rewrite P6|by rewrite P7, P6].
    + intros n i. rewrite P2. split; intros [Hi E]; (split; [done|]); destruct (P3 i) as [E3 _], (Nm i (Sub i Hi)) as [E4 _]; congruence.
    + intros i Hi. destruct (Ds i (Sub i Hi)) as (c & Hcol & E1 & E2). destruct (P3 i) as [-> ->]. exists c. by rewrite (P4 i Hi).
  - cbn [with_fields_indexes ti_columns ti_store ti_columnsByName ti_partitionKeys ti_clusteringKeys ti_clusteringOrder].
    split_and!; [|by intros n i; rewrite Hg, Hc, In| |done..].
    + rewrite Hc. symmetry. apply filter_all, Forall_forall. intros i _. unfold visible. by rewrite Esc, Ed.
    + intros i Hi. rewrite Hc, In in Hi. destruct (Ds i Hi) as (c & Hcol & E1 & E2). exists c. by destruct (Nm i Hi) as [_ ->].
Qed.
End tables.

(** ** Keyspaces *)

(** The name of the keyspace of a row, when it is a text. *)
Definition keyspace_name (row : schema_row) : jsstr := match prop row "keyspace_name" with JStr s => s | _ => [] end.
Definition named_row (row : schema_row) : Prop := prop row "keyspace_name" = JStr (keyspace_name row).

Lemma parseKeyspace_name row virtual : sk_name (_parseKeyspace row virtual) = prop row "keyspace_name".
Proof. unfold _parseKeyspace. by destruct (truthy (prop row "replication")). Qed.

(** The options of the strategy are the replication without the class. *)
Lemma strategy_options_get (replication : obj jv) k :
  NoDup (map fst replication) ->
  obj_get (strategy_options replication) k = if decide (k = str "class") then None else obj_get replication k.
Proof.
  unfold strategy_options. enough (G : forall o, NoDup (map fst replication) -> (forall k, k ∈ map fst replication -> obj_get o k = None) ->
    obj_get (foldl (fun o kv => if bool_decide (kv.1 = str "class") then o else obj_set o kv.1 kv.2) o replication) k =
    match obj_get o k with Some v => Some v | None => if decide (k = str "class") then None else obj_get replication k end).
  { intros Hn. rewrite G; [done|done|]. done. }
  induction replication as [|[a v] l IH]; intros o; cbn [foldl map fst snd obj_get].
  { intros _ _. destruct (obj_get o k); [done|]. by destruct (decide (k = str "class")). }
  intros [Ha Hn]%NoDup_cons Ho. rewrite IH; [|done|].
  - case_bool_decide as Ea.
    + destruct (obj_get o k) eqn:Eo; [done|]. destruct (decide (k = str "class")) as [|Hk]; [done|]. by rewrite (decide_False (P := k = a)) by congruence.
    + rewrite obj_get_set. destruct (decide (a = k)) as [->|Hne].
      * rewrite (Ho k) by (by left). by rewrite decide_False, decide_True.
      * by rewrite (decide_False (P := k = a)) by congruence.
  - intros k' Hk'. case_bool_decide; [apply Ho; by right|]. rewrite obj_get_set, decide_False by (by intros ->). apply Ho. by right.
Qed.

Lemma add_keyspaces_spec rows virtual keyspaces :
  Forall named_row rows -> NoDup (map keyspace_name rows) ->
  exists keyspaces', add_keyspaces keyspaces rows virtual = Ok keyspaces' /\
    forall name, obj_get keyspaces' name =
      match find (fun row => bool_decide (keyspace_name row = name)) rows with
      | Some row => Some (_parseKeyspace row virtual)
      | None => obj_get keyspaces name
      end.
Proof.
  revert keyspaces. induction rows as [|row rows IH]; intros keyspaces Hr; cbn [add_keyspaces map find]; [by eexists|].
  apply Forall_cons in Hr as [Hrow Hr]. intros [Hi Hn]%NoDup_cons. rewrite parseKeyspace_name, Hrow. cbn [text_of mbind result_bind].
  destruct (IH (obj_set keyspaces (keyspace_name row) (_parseKeyspace row virtual)) Hr Hn) as (ks & E & Hg). exists ks. split; [done|].
  intros name. rewrite Hg, obj_get_set. case_bool_decide as En.
  - rewrite decide_True by done. destruct (find _ rows) as [row'|] eqn:F; [|done]. apply find_some in F as [Hin E']. apply bool_decide_eq_true in E'.
    exfalso. apply Hi. rewrite En, <- E'. apply list_elem_of_fmap_2. by apply list_elem_of_In.
  - by rewrite decide_False.
Qed.

(** The row of a name, in an answer. *)
Definition rows_named (name : jsstr) (rows : list schema_row) : list schema_row := filter (fun row => keyspace_name row = name) rows.

Lemma rows_named_find name rows :
  head (rows_named name rows) = find (fun row => bool_decide (keyspace_name row = name)) rows.
Proof.
  unfold rows_named. induction rows as [|row rows IH]; [done|]. rewrite filter_cons. cbn [find].
  case_bool_decide; [by rewrite decide_True|by rewrite decide_False].
Qed.

(** The answer to the query of one keyspace, from that of all. *)
Definition named_answer {Er} (name : jsstr) (a : list schema_row + Er) : list schema_row + Er :=
  match a with inl rows => inl (rows_named name rows) | inr e => inr e end.

Definition answer_rows {Er} (a : list schema_row + Er) : list schema_row := match a with inl rows => rows | inr _ => [] end.

(** on servers of version 4, [getKeyspaces] gives the keyspaces of both
    tables in whatever order the answers arrive, and [getKeyspace] of each name
    the same keyspace; a failure of the query of the virtual keyspaces is that
    there are none, a failure of the other one is the error. *)
Theorem getKeyspaces_v3_spec {Er} (answer virtual_answer : list schema_row + Er) answers :
  Permutation answers [(false, answer); (true, virtual_answer)] ->
  Forall named_row (answer_rows answer ++ answer_rows virtual_answer) ->
  NoDup (map keyspace_name (answer_rows answer ++ answer_rows virtual_answer)) ->
  match answer with
  | inr e => getKeyspaces_v3 [] answers = inr e
  | inl _ => exists keyspaces, getKeyspaces_v3 [] answers = inl (Ok keyspaces) /\
      forall name, getKeyspace_v3 (named_answer name answer) (named_answer name virtual_answer) = inl (obj_get keyspaces name)
  end.
Proof.
  intros Hp Hr Hn. rewrite map_app in Hn. apply NoDup_app in Hn as (Hn1 & Hd & Hn2). apply Forall_app in Hr as [Hr1 Hr2].
  assert (Ha : answers = [(false, answer); (true, virtual_answer)] \/ answers = [(true, virtual_answer); (false, answer)]).
  { symmetry in Hp. by apply Permutation_length_2_inv in Hp. }
  assert (Hx : forall name row row', find (fun row => bool_decide (keyspace_name row = name)) (answer_rows answer) = Some row ->
    find (fun row => bool_decide (keyspace_name row = name)) (answer_rows virtual_answer) = Some row' -> False).
  { intros name row row' [H1 E1]%find_some [H2 E2]%find_some. apply bool_decide_eq_true in E1, E2. apply (Hd name).
    - rewrite <- E1. apply list_elem_of_fmap_2. by apply list_elem_of_In.
    - rewrite <- E2. apply list_elem_of_fmap_2. by apply list_elem_of_In. }
  assert (Hget : forall name keyspaces,
    obj_get keyspaces name = match find (fun row => bool_decide (keyspace_name row = name)) (answer_rows answer) with
      | Some row => Some (_parseKeyspace row false)
      | None => match find (fun row => bool_decide (keyspace_name row = name)) (answer_rows virtual_answer) with
                | Some row => Some (_parseKeyspace row true) | None => None end end ->
    match answer with inl _ => True | inr _ => False end ->
    getKeyspace_v3 (named_answer name answer) (named_answer name virtual_answer) = inl (obj_get keyspaces name)).
  { intros name keyspaces -> Hin. destruct answer as [rows|e]; [|done]. cbn [answer_rows named_answer]. unfold getKeyspace_v3.
    pose proof (rows_named_find name rows) as E1. destruct (rows_named name rows) as [|row l]; cbn [head] in E1; rewrite <- E1; [|done].
    destruct virtual_answer as [vrows|e]; cbn [answer_rows named_answer]; [|done]. pose proof (rows_named_find name vrows) as E2.
    destruct (rows_named name vrows); cbn [head] in E2; rewrite <- E2; done. }
  destruct answer as [rows|e], virtual_answer as [vrows|e']; cbn [answer_rows] in *.
  - destruct Ha as [-> | ->]; cbn [getKeyspaces_v3].
    + destruct (add_keyspaces_spec rows false [] Hr1 Hn1) as (ks1 & -> & G1). destruct (add_keyspaces_spec vrows true ks1 Hr2 Hn2) as (ks2 & -> & G2).
      exists ks2. split; [done|]. intros name. apply Hget; [|done]. rewrite G2, G1. pose proof (Hx name).
      destruct (find _ rows) eqn:F1, (find _ vrows) eqn:F2; try done. exfalso. eauto.
    + destruct (add_keyspaces_spec vrows true [] Hr2 Hn2) as (ks1 & -> & G1). destruct (add_keyspaces_spec rows false ks1 Hr1 Hn1) as (ks2 & -> & G2).
      exists ks2. split; [done|]. intros name. apply Hget; [|done]. by rewrite G2, G1.
  - destruct (add_keyspaces_spec rows false [] Hr1 Hn1) as (ks1 & E & G1). exists ks1.
    split; [by destruct Ha as [-> | ->]; cbn [getKeyspaces_v3]; rewrite E|]. intros name. apply Hget; [|done]. by rewrite G1.
  - destruct Ha as [-> | ->]; cbn [getKeyspaces_v3]; [done|].
    by destruct (add_keyspaces_spec vrows true [] Hr2 Hn2) as (ks1 & -> & _).
  - by destruct Ha as [-> | ->].
Qed.

(** ** Examples *)

Definition column_row (name kind type : string) (position : Z) : schema_row :=
  [(str "column_name", jstr name); (str "kind", jstr kind); (str "type", jstr type); (str "position", jnum position);
   (str "clustering_order", jstr "none")].

(** A table made with Thrift: a key, a static column and the two columns that
    migration adds. *)
Definition thrift_columns : list schema_row :=
  [column_row "column1" "clustering" "text" 0; column_row "key" "partition_key" "int" 0; column_row "v" "static" "list<int>" (-1);
   column_row "value" "regular" "blob" (-1)].

Definition thrift_table : schema_row := [(str "keyspace_name", jstr "ks"); (str "flags", JArr [])].

Lemma parse_table_spec_witness :
  exists t, _parseTableOrView (fun _ => Ok None) false (TableMetadata_new (str "t")) thrift_table thrift_columns None false [3; 1; 0; 2]%nat = Ok t /\
    ti_columns t = [1; 2]%nat /\ keys_in_order thrift_columns "partition_key" (ti_partitionKeys t) /\ ti_clusteringKeys t = [] /\
    (forall i, obj_get (ti_columnsByName t) (str "v") = Some i <-> i ∈ ti_columns t /\ row_name thrift_columns i = str "v").
Proof.
  destruct (_parseTableOrView (fun _ => Ok None) false (TableMetadata_new (str "t")) thrift_table thrift_columns None false [3; 1; 0; 2]%nat)
    as [t|] eqn:Ht; [|vm_compute in Ht; discriminate].
  destruct (parse_table_spec (fun _ => Ok None) false false thrift_table thrift_columns (TableMetadata_new (str "t")) None [3; 1; 0; 2]%nat t)
    as (Hc & Hb & _ & Hk & Hq).
  - change (seq 0 (length thrift_columns)) with [0; 1; 2; 3]%nat. by apply (bool_decide_unpack _); vm_compute.
  - apply (bool_decide_unpack _). by vm_compute.
  - unfold distinct_positions. apply (bool_decide_unpack _). by vm_compute.
  - unfold distinct_positions. apply (bool_decide_unpack _). by vm_compute.
  - exact Ht.
  - exists t. split_and!; [done|rewrite Hc; by vm_compute|done|by destruct Hq|apply Hb].
Defined.

Definition keyspace_row (name : string) : schema_row :=
  [(str "keyspace_name", jstr name); (str "durable_writes", JBool true);
   (str "replication", JObj [(str "class", jstr "SimpleStrategy"); (str "replication_factor", jstr "2")])].

Lemma getKeyspaces_v3_spec_witness :
  exists keyspaces, getKeyspaces_v3 (Er := nat) [] [(true, inl [keyspace_row "system_views"]); (false, inl [keyspace_row "ks"])] = inl (Ok keyspaces) /\
    sk_strategyOptions <$> obj_get keyspaces (str "ks") = Some (Some [(str "replication_factor", jstr "2")]).
Proof.
  destruct (getKeyspaces_v3_spec (Er := nat) (inl [keyspace_row "ks"]) (inl [keyspace_row "system_views"])
    [(true, inl [keyspace_row "system_views"]); (false, inl [keyspace_row "ks"])]) as (keyspaces & Hk & Hg).
  - apply Permutation_swap.
  - by repeat constructor.
  - apply (bool_decide_unpack _). by vm_compute.
  - exists keyspaces. split; [done|].
    etrans; [symmetry; exact (f_equal (fun r => match r with inl k => sk_strategyOptions <$> k | inr _ => None end) (Hg (str "ks")))|].
    by vm_compute.
Defined.
