(* ===== verification/SchemaCache.v ===== *)
(** The loading of schema objects: [getTable], [getUdt], [getFunctions] and
    [getMaterializedView] of [lib/metadata/schema-parser.js], and the methods of
    [lib/metadata/index.js] in front of them.

    A load is a script of queries to the control connection, whose answers may
    be errors.  The object in the cache (its value, the load in progress and the
    calls that wait for its event [load]) is a step machine: calls and answers
    come in any order. *)
From S2P Require Import Prelude.
From S2P Require Import JsNum.
From S2P Require Import JsStr.
From S2P Require Import Utils.
From S2P Require Import JsVal.
From S2P Require Import TypeNames.
From S2P Require Import Metadata.
From S2P Require Import Schema.

(** ** Queries *)

(** The queries, with their keyspace and name. *)
Inductive schema_query :=
  | SelectTable (ks name : jsstr)
  | SelectVirtualTable (ks name : jsstr)
  | SelectColumns (ks name : jsstr)
  | SelectVirtualColumns (ks name : jsstr)
  | SelectIndexes (ks name : jsstr)
  | SelectUdt (ks name : jsstr)
  | SelectFunctions (ks name : jsstr)
  | SelectAggregates (ks name : jsstr)
  | SelectView (ks name : jsstr).

Section loads.
Context {Er : Type}.

(** An error of the control connection, or one of the driver. *)
Definition load_error : Type := js_error + Er.
Definition query_answer : Type := list schema_row + Er.

Inductive db (B : Type) :=
  | DReturn (b : B)
  | DRaise (e : load_error)
  | DQuery (q : schema_query) (k : query_answer -> db B).
Arguments DReturn {B} b.
Arguments DRaise {B} e.
Arguments DQuery {B} q k.

(** [_getRows], and a parser that may throw. *)
Definition _getRows {B} (q : schema_query) (k : list schema_row -> db B) : db B :=
  DQuery q (fun a => match a with inl rows => k rows | inr e => DRaise (inr e) end).
Definition parsed {A B} (r : result A) (k : A -> db B) : db B := match r with Ok a => k a | Throw e => DRaise (inl e) end.

(** A load gives the answer to the calls, and whether it is kept. *)
Definition found {A} (a : A) : option A * bool := (Some a, true).
Definition missing {A} : option A * bool := (None, false).

Section queries.
Context (resolver : udt_resolver) (order : list nat) (supportsVirtual : bool) (ks name : jsstr).

(** The last part of [getTable]: columns, indexes and the parser. *)
Definition load_columns (tableRow : schema_row) (virtual : bool) : db (option table_info * bool) :=
  _getRows (if virtual then SelectVirtualColumns ks name else SelectColumns ks name) (fun columnRows =>
    let parse indexRows :=
      parsed (_parseTableOrView resolver false (TableMetadata_new name) tableRow columnRows indexRows virtual order)
        (fun t => DReturn (found t)) in
    if virtual then parse None else _getRows (SelectIndexes ks name) (fun indexRows => parse (Some indexRows))).

(** [virtual] is undefined when it is not known. *)
Definition load_table (virtual : option bool) : db (option table_info * bool) :=
  let virtualTable := default false virtual in
  _getRows (if virtualTable then SelectVirtualTable ks name else SelectTable ks name) (fun rows =>
    match rows with
    | tableRow :: _ => load_columns tableRow virtualTable
    | [] =>
        match virtual with
        | None =>
            if supportsVirtual then
              DQuery (SelectVirtualTable ks name) (fun a =>
                match a with inl (tableRow :: _) => load_columns tableRow true | _ => DReturn missing end)
            else DReturn missing
        | Some _ => DReturn missing
        end
    end).

Definition load_view : db (option table_info * bool) :=
  _getRows (SelectView ks name) (fun rows =>
    match rows with
    | [] => DReturn missing
    | tableRow :: _ =>
        _getRows (SelectColumns ks name) (fun columnRows =>
          parsed (_parseTableOrView resolver true (MaterializedView_new name) tableRow columnRows None false order)
            (fun t => DReturn (found t)))
    end).

Definition load_udt : db (option (list (jsstr * column_type)) * bool) :=
  _getRows (SelectUdt ks name) (fun rows =>
    match rows with
    | [] => DReturn missing
    | row :: _ => parsed (_parseUdt resolver row) (fun fields => DReturn (found fields))
    end).

(** The functions, or aggregates, of a name: kept if there are any. *)
Definition load_functions {F} (query : schema_query) (parser : schema_row -> result F) (signature : F -> list jsstr) : db (obj F * bool) :=
  _getRows query (fun rows =>
    parsed (traverse parser rows) (fun funcs =>
      DReturn (functions_map signature funcs, match rows with [] => false | _ => true end))).
End queries.

(** ** The object in the cache *)

Section entry.
Context {A : Type} (load : db (A * bool)).

(** The value, the load in progress with the call that made it, the calls that
    wait; the calls that ended, and the queries sent. *)
Record cache_entry := mkEntry {
  en_value : option A;
  en_loading : option (nat * db (A * bool));
  en_waiting : list nat;
  en_ended : list (nat * (A + load_error));
  en_queries : list schema_query }.

Definition entry_new : cache_entry := mkEntry None None [] [] [].

Definition ended_with (out : A + load_error) (ids : list nat) : list (nat * (A + load_error)) := map (fun id => (id, out)) ids.

(** Goes on with the load up to its next query. *)
Definition advance (x : cache_entry) (id : nat) (s : db (A * bool)) : cache_entry :=
  match s with
  | DQuery q k => mkEntry (en_value x) (Some (id, s)) (en_waiting x) (en_ended x) (en_queries x ++ [q])
  | DReturn (a, keep) =>
      mkEntry (if keep then Some a else None) None [] (en_ended x ++ ended_with (inl a) (en_waiting x ++ [id])) (en_queries x)
  | DRaise e => mkEntry (en_value x) None [] (en_ended x ++ ended_with (inr e) (en_waiting x ++ [id])) (en_queries x)
  end.

Definition load_call (x : cache_entry) (id : nat) : cache_entry :=
  match en_value x with
  | Some a => mkEntry (en_value x) (en_loading x) (en_waiting x) (en_ended x ++ ended_with (inl a) [id]) (en_queries x)
  | None =>
      match en_loading x with
      | Some _ => mkEntry (en_value x) (en_loading x) (en_waiting x ++ [id]) (en_ended x) (en_queries x)
      | None => advance x id load
      end
  end.

Inductive entry_event := LoadCall (id : nat) | QueryAnswer (a : query_answer).

(** [None]: there is no query to answer. *)
Definition entry_step (x : cache_entry) (ev : entry_event) : option cache_entry :=
  match ev with
  | LoadCall id => Some (load_call x id)
  | QueryAnswer a => match en_loading x with Some (id, DQuery _ k) => Some (advance x id (k a)) | _ => None end
  end.

Fixpoint entry_run (x : cache_entry) (evs : list entry_event) : option cache_entry :=
  match evs with [] => Some x | ev :: evs' => match entry_step x ev with Some y => entry_run y evs' | None => None end end.
End entry.
End loads.
Arguments load_error : clear implicits.
Arguments query_answer : clear implicits.
Arguments db : clear implicits.
Arguments DReturn {Er B} b.
Arguments DRaise {Er B} e.
Arguments DQuery {Er B} q k.
Arguments cache_entry : clear implicits.
Arguments entry_event : clear implicits.

(** ** The methods of Metadata *)

(** What the methods use of the metadata: a keyspace is known by whether it is
    virtual. *)
Record schema_metadata := mkSchemaMetadata {
  sm_initialized : bool;
  sm_isMetadataSyncEnabled : bool;
  sm_keyspaces : obj bool }.

(** A method answers at once, or asks the parser; with the metadata in sync it
    passes the cache of the keyspace, and whether the keyspace is virtual. *)
Inductive schema_request := NoKeyspace | AskParser (virtual : option bool).

Definition schema_target (m : schema_metadata) (keyspaceName : jsstr) : result schema_request :=
  if negb (sm_initialized m) then Throw PlainError
  else if sm_isMetadataSyncEnabled m then
    match obj_get (sm_keyspaces m) keyspaceName with
    | None => Ok NoKeyspace
    | Some virtual => Ok (AskParser (Some virtual))
    end
  else Ok (AskParser None).

(** [_getTable], [_getUdt] and [_getMaterializedView], where [load] is the
    method of the parser. *)
Definition getSchemaObject {B} (load : option bool -> result (option B)) (m : schema_metadata) (keyspaceName : jsstr) : result (option B) :=
  target ← schema_target m keyspaceName;
  match target with NoKeyspace => Ok None | AskParser virtual => load virtual end.

Definition _getFunctions {F} (load : result (obj F)) (m : schema_metadata) (keyspaceName : jsstr) : result (obj F) :=
  target ← schema_target m keyspaceName;
  match target with NoKeyspace => Ok [] | AskParser _ => load end.

(** [_getFunctionsWrapper] and [_getAggregates] *)
Definition _getFunctionsWrapper {F} (load : result (obj F)) (m : schema_metadata) (keyspaceName name : jsstr) : result (list F) :=
  match keyspaceName, name with
  | [], _ | _, [] => Throw ArgumentError
  | _, _ => map snd <$> _getFunctions load m keyspaceName
  end.

(** An element of the signature: a name, or a type. *)
Definition signature_name (item : jsstr + column_type) : result jsstr :=
  match item with inl s => Ok s | inr t => getDataTypeNameByCode t end.

Definition _getSingleFunction {F} (load : result (obj F)) (m : schema_metadata) (keyspaceName name : jsstr)
    (signature : option (list (jsstr + column_type))) : result (option F) :=
  match keyspaceName, name, signature with
  | [], _, _ | _, [], _ | _, _, None => Throw ArgumentError
  | _, _, Some signature =>
      names ← traverse signature_name signature;
      functionsMap ← _getFunctions load m keyspaceName;
      Ok (obj_get functionsMap (join (str ",") names))
  end.

(** ** Loads are shared *)

Section shared.
Context {A Er : Type} (load : db Er (A * bool)).
Implicit Types (x y : cache_entry Er A) (ev : entry_event Er) (evs : list (entry_event Er)).

Definition event_calls evs : list nat := omap (fun ev => match ev with LoadCall id => Some id | QueryAnswer _ => None end) evs.
Definition event_answers evs : list (query_answer Er) := omap (fun ev => match ev with LoadCall _ => None | QueryAnswer a => Some a end) evs.

(** A script on a list of answers: its result and its queries. *)
Fixpoint db_run (s : db Er (A * bool)) (answers : list (query_answer Er)) : option ((A * bool + load_error Er) * list schema_query) :=
  match s, answers with
  | DReturn b, [] => Some (inl b, [])
  | DRaise e, [] => Some (inr e, [])
  | DQuery q k, a :: answers' => (fun z => (z.1, q :: z.2)) <$> db_run (k a) answers'
  | _, _ => None
  end.

(** What the calls get, and what is kept. *)
Definition answer_of (out : A * bool + load_error Er) : A + load_error Er := match out with inl (a, _) => inl a | inr e => inr e end.
Definition kept_of (out : A * bool + load_error Er) : option A := match out with inl (a, true) => Some a | _ => None end.

Record entry_ok (ids : list nat) x : Prop := {
  eo_idle : en_loading x = None -> en_waiting x = [];
  eo_query : forall id s, en_loading x = Some (id, s) -> exists q k, s = DQuery q k;
  eo_value : is_Some (en_value x) -> en_loading x = None;
  eo_calls : map fst (en_ended x) ++ en_waiting x ++ match en_loading x with Some (id, _) => [id] | None => [] end ≡ₚ ids }.

Lemma ended_with_ids (out : A + load_error Er) ids : map fst (ended_with out ids) = ids.
Proof. unfold ended_with. rewrite map_map. apply map_id. Qed.

Lemma advance_ok ids x id s :
  en_value x = None -> map fst (en_ended x) ++ en_waiting x ++ [id] ≡ₚ ids -> entry_ok ids (advance x id s).
Proof.
  intros Hv Hc. destruct s as [[a keep]|e|q k]; constructor; cbn [advance en_value en_loading en_waiting en_ended]; try done.
  - by rewrite map_app, ended_with_ids, <- !app_assoc, app_nil_r.
  - by rewrite map_app, ended_with_ids, <- !app_assoc, app_nil_r.
  - intros id' s' [= <- <-]. eauto.
  - rewrite Hv. by intros [? ?].
Qed.

Lemma entry_step_ok ids x ev y : entry_ok ids x -> entry_step load x ev = Some y -> entry_ok (ids ++ event_calls [ev]) y.
Proof.
  intros [Hi Hq Hv Hc]. destruct ev as [id|a]; cbn [entry_step event_calls omap list_omap].
  - intros [= <-]. unfold load_call. destruct (en_value x) as [a|] eqn:Ev.
    + constructor; cbn [en_value en_loading en_waiting en_ended]; [done|done|done|].
      rewrite Hv in Hc |- * by eauto. rewrite map_app, ended_with_ids, Hi in * by eauto. cbn [app]. rewrite app_nil_r in *. by rewrite Hc.
    + destruct (en_loading x) as [[id' s]|] eqn:El.
      * constructor; cbn [en_value en_loading en_waiting en_ended]; [done|done|done|]. rewrite <- Hc.
        rewrite <- !app_assoc. do 2 apply Permutation_app_head. apply Permutation_app_comm.
      * apply advance_ok; [done|]. rewrite <- Hc, (Hi eq_refl). cbn [app]. by rewrite app_nil_r.
  - destruct (en_loading x) as [[id s]|] eqn:El; [|done]. destruct (Hq id s eq_refl) as (q & k & ->). intros [= <-]. rewrite app_nil_r.
    apply advance_ok; [|done]. destruct (en_value x) eqn:E; [|done]. by discriminate Hv.
Qed.

Lemma event_calls_cons ev evs : event_calls (ev :: evs) = event_calls [ev] ++ event_calls evs.
Proof. by destruct ev. Qed.

Lemma entry_run_ok ids x evs y : entry_ok ids x -> entry_run load x evs = Some y -> entry_ok (ids ++ event_calls evs) y.
Proof.
  revert ids x. induction evs as [|ev evs IH]; intros ids x Hx; cbn [entry_run].
  - intros [= <-]. by rewrite app_nil_r.
  - destruct (entry_step load x ev) as [z|] eqn:Hs; [|done]. intros Hr. apply (IH _ _ (entry_step_ok _ _ _ _ Hx Hs)) in Hr.
    by rewrite <- app_assoc, <- event_calls_cons in Hr.
Qed.

Lemma entry_new_ok : entry_ok [] (@entry_new Er A).
Proof. by constructor. Qed.

(** C22: whatever the order of calls and answers, at most one load of a schema
    object is in progress, every call ends exactly once or waits for it, and once
    a value is kept no query is sent any more and every later call gets that
    value at once. *)
Theorem schema_cache_invariant evs x :
  entry_run load (entry_new) evs = Some x ->
  (en_loading x = None -> map fst (en_ended x) ≡ₚ event_calls evs) /\
  (forall id s, en_loading x = Some (id, s) -> en_value x = None /\ map fst (en_ended x) ++ en_waiting x ++ [id] ≡ₚ event_calls evs) /\
  (forall a evs' y, en_value x = Some a -> entry_run load x evs' = Some y ->
     en_value y = Some a /\ en_queries y = en_queries x /\ en_ended y = en_ended x ++ ended_with (inl a) (event_calls evs')).
Proof.
  intros Hr. pose proof (entry_run_ok _ _ _ _ entry_new_ok Hr) as [Hi Hq Hv Hc]. cbn [app] in Hc. split_and!.
  - intros Hl. rewrite Hl, Hi, !app_nil_r in Hc by done. done.
  - intros id s Hl. rewrite Hl in Hc. split; [|done]. destruct (en_value x); [|done]. by rewrite Hv in Hl by eauto.
  - intros a evs' y Ha. assert (Hl : en_loading x = None) by (apply Hv; eauto). clear -Ha Hl. revert x Ha Hl.
    induction evs' as [|[id|b] evs' IH]; intros x Ha Hl; cbn [entry_run entry_step].
    + intros [= <-]. by rewrite app_nil_r.
    + unfold load_call. rewrite Ha. intros Hr. apply IH in Hr as (H1 & H2 & H3); [|done..]. split_and!; [done|done|].
      rewrite H3. cbn [en_ended]. by rewrite <- app_assoc.
    + by rewrite Hl.
Qed.

(** A load in progress, up to its last answer. *)
Lemma load_goes_on evs a id q k x out qs :
  en_value x = None -> en_loading x = Some (id, DQuery q k) ->
  db_run (DQuery q k) (event_answers (evs ++ [QueryAnswer a])) = Some (out, qs) ->
  exists y, entry_run load x (evs ++ [QueryAnswer a]) = Some y /\
    en_ended y = en_ended x ++ ended_with (answer_of out) (en_waiting x ++ event_calls evs ++ [id]) /\
    en_queries y = en_queries x ++ tail qs /\ en_value y = kept_of out /\ en_loading y = None.
Proof.
  revert q k x qs. induction evs as [|[id'|b] evs IH]; intros q k x qs Hv Hl; cbn [app entry_run entry_step event_answers omap list_omap db_run].
  - rewrite Hl. destruct (db_run (k a) []) as [[o' qs']|] eqn:E; [|done]. intros [= <- <-]. eexists. split; [reflexivity|].
    destruct (k a) as [[v keep]|e|q' k']; cbn [db_run] in E; [| |done].
    + injection E as <- <-. cbn. rewrite app_nil_r. by destruct keep.
    + injection E as <- <-. cbn. by rewrite app_nil_r, Hv.
  - unfold load_call. rewrite Hv, Hl. intros Hr.
    destruct (IH q k (mkEntry None (Some (id, DQuery q k)) (en_waiting x ++ [id']) (en_ended x) (en_queries x)) qs) as (y & Hy & H1 & H2 & H3 & H4); try done.
    exists y. split_and!; try done. rewrite H1. cbn [en_ended en_waiting event_calls omap list_omap]. by rewrite <- app_assoc.
  - rewrite Hl. destruct (db_run (k b) _) as [[o' qs']|] eqn:E; [|done]. intros [= <- <-].
    assert (Ha : exists c l, event_answers (evs ++ [QueryAnswer a]) = c :: l).
    { clear. induction evs as [|[|] evs IH]; cbn; eauto. }
    destruct Ha as (c & l & Ha). unfold event_answers in Ha. rewrite Ha in E. destruct (k b) as [?|e|q' k']; try done.
    destruct (IH q' k' (advance x id (DQuery q' k')) qs') as (y & Hy & H1 & H2 & H3 & H4); try done.
    { unfold event_answers. by rewrite Ha. }
    exists y. split_and!; try done. rewrite H2. cbn [advance en_queries tail]. cbn [db_run] in E.
    destruct (db_run (k' c) l) as [z|]; [|done]. injection E as _ <-. by rewrite <- app_assoc.
Qed.

(** C21: calls that come while a schema object is being loaded share its load:
    whatever the interleaving of the calls with the answers, the queries are those
    of one load, every call gets its result or its error, and the value is kept
    exactly if the load says so; after an error or a missing object nothing is
    kept and the next call loads again. *)
Theorem load_shared evs a id x out qs :
  en_value x = None -> en_loading x = None -> en_waiting x = [] ->
  db_run load (event_answers (evs ++ [QueryAnswer a])) = Some (out, qs) ->
  exists y, entry_run load x (LoadCall id :: evs ++ [QueryAnswer a]) = Some y /\
    en_ended y = en_ended x ++ ended_with (answer_of out) (event_calls evs ++ [id]) /\
    en_queries y = en_queries x ++ qs /\ en_value y = kept_of out /\ en_loading y = None /\
    (en_value y = None -> forall id', load_call load y id' = advance y id' load).
Proof.
  intros Hv Hl Hw Hr. cbn [entry_run entry_step]. unfold load_call at 1. rewrite Hv, Hl.
  assert (Hq : exists q k, load = DQuery q k).
  { destruct load as [?|?|q k]; [| |by eauto]; exfalso.
    all: destruct (event_answers (evs ++ [QueryAnswer a])) eqn:E; [|done]; clear -E; by induction evs as [|[|] evs IH]. }
  destruct Hq as (q & k & Hq). rewrite Hq in Hr |- *.
  destruct (load_goes_on evs a id q k (advance x id (DQuery q k)) out qs) as (y & Hy & H1 & H2 & H3 & H4); try done.
  rewrite <- Hq in *. exists y. split_and!; try done.
  - rewrite H1. cbn [advance en_ended en_waiting]. rewrite Hq. cbn. by rewrite Hw.
  - rewrite H2, Hq. cbn [advance en_queries]. rewrite Hq in Hr. destruct (event_answers _); cbn [db_run] in Hr; [done|].
    destruct (db_run (k _) _) as [z|]; [|done]. injection Hr as _ <-. by rewrite <- app_assoc.
  - intros Hn id'. unfold load_call. by rewrite Hn, H4.
Qed.
End shared.

(** ** Examples *)

Definition udt_row : schema_row :=
  [(str "keyspace_name", jstr "ks"); (str "field_names", JArr [jstr "a"]); (str "field_types", JArr [jstr "int"])].

Definition some_load : db nat (option (list (jsstr * column_type)) * bool) := load_udt (fun _ => Ok None) (str "ks") (str "u").

Lemma load_shared_witness :
  exists y, entry_run some_load entry_new [LoadCall 0; LoadCall 1; QueryAnswer (inl [udt_row])] = Some y /\
    en_ended y = [(1%nat, inl (Some [(str "a", TSimple 9)])); (0%nat, inl (Some [(str "a", TSimple 9)]))] /\
    en_queries y = [SelectUdt (str "ks") (str "u")].
Proof.
  destruct (load_shared some_load [LoadCall 1] (inl [udt_row]) 0%nat entry_new (inl (Some [(str "a", TSimple 9)], true)) [SelectUdt (str "ks") (str "u")])
    as (y & Hy & He & Hq & _); [reflexivity|reflexivity|reflexivity|reflexivity|].
  exists y. split_and!; [exact Hy|exact He|exact Hq].
Defined.

Lemma schema_cache_invariant_witness :
  exists x, entry_run some_load entry_new [LoadCall 0; QueryAnswer (inr 5%nat); LoadCall 1; LoadCall 2] = Some x /\
    map fst (en_ended x) ++ en_waiting x ++ [1%nat] ≡ₚ [0; 1; 2]%nat.
Proof.
  pose (x0 := advance (mkEntry None None [] [(0%nat, inr (inr 5%nat))] [SelectUdt (str "ks") (str "u")]) 1 some_load).
  exists (load_call some_load x0 2). assert (Hx : entry_run some_load entry_new [LoadCall 0; QueryAnswer (inr 5%nat); LoadCall 1; LoadCall 2] =
    Some (load_call some_load x0 2)) by reflexivity.
  split; [exact Hx|]. destruct (schema_cache_invariant some_load _ _ Hx) as (_ & H & _). by destruct (H 1%nat some_load eq_refl) as [_ Hp].
Defined.
