(* ===== verification/UserHints.v ===== *)
(** [adaptUserHints] of [lib/metadata/index.js]: the hints of the user that are
    names of types become types, and the user-defined types in them are looked
    up. *)
From S2P Require Import Prelude.
From S2P Require Import JsNum.
From S2P Require Import JsStr.
From S2P Require Import TypeNames.

Section hints.
(** [getUdt]: the type with its information, or none. *)
Context {H : Type} (getUdt : jsstr -> jsstr -> result (option column_type)) (keyspace : option jsstr).

(** The hints: texts and others. *)
Inductive user_hint := HintName (name : jsstr) | HintOther (h : H).

(** The keyspace and the name of a user-defined type; [None] and the empty
    keyspace are falsy. *)
Definition udt_names (name : jsstr) : result (jsstr * jsstr) :=
  match split_on "."%char name with
  | first :: (_ :: _) as second :: _ => Ok (first, second)
  | first :: _ => match keyspace with Some (c :: s) => Ok (c :: s, first) | _ => Throw TypeError end
  | [] => Throw TypeError
  end.

(** [_checkUdtTypes]: the names of the types that it adds to [udts].  A type whose
    information is not a text has no [split]. *)
Fixpoint checkUdtTypes (type : column_type) : result (list (jsstr * jsstr)) :=
  match type with
  | TUdtName name => kn ← udt_names name; Ok [kn]
  | TUdt _ _ _ => Throw TypeError
  | TSimple code => if code =? 48 then Throw TypeError else Ok []
  | TList t | TSet t => checkUdtTypes t
  | TMap k v => a ← checkUdtTypes k; b ← checkUdtTypes v; Ok (a ++ b)
  | TTuple _ | TVector _ _ | TCustom _ => Ok []
  end.

(** [type.info = udtInfo] for the types of [udts], which are parts of the hints. *)
Fixpoint set_infos (type : column_type) (infos : list column_type) : column_type * list column_type :=
  match type with
  | TUdtName _ => match infos with u :: rest => (u, rest) | [] => (type, []) end
  | TList t => let '(t, rest) := set_infos t infos in (TList t, rest)
  | TSet t => let '(t, rest) := set_infos t infos in (TSet t, rest)
  | TMap k v => let '(k, rest) := set_infos k infos in let '(v, rest) := set_infos v rest in (TMap k v, rest)
  | _ => (type, infos)
  end.

Fixpoint set_hints (hints : list (column_type + H)) (infos : list column_type) : list (column_type + H) :=
  match hints with
  | [] => []
  | inl t :: hints' => let '(t, rest) := set_infos t infos in inl t :: set_hints hints' rest
  | inr h :: hints' => inr h :: set_hints hints' infos
  end.

Definition check_hint (hint : user_hint) : result ((column_type + H) * list (jsstr * jsstr)) :=
  match hint with
  | HintName name => type ← getByName name; names ← checkUdtTypes type; Ok (inl type, names)
  | HintOther h => Ok (inr h, [])
  end.

Definition find_udt (kn : jsstr * jsstr) : result column_type :=
  match getUdt kn.1 kn.2 with Ok (Some u) => Ok u | Ok None => Throw TypeError | Throw e => Throw e end.

(** The hints afterwards, when they are an array. *)
Definition adaptUserHints (hints : list user_hint) : result (list (column_type + H)) :=
  checked ← traverse check_hint hints;
  infos ← traverse find_udt (concat (map snd checked));
  Ok (set_hints (map fst checked) infos).

(** ** What the hints become *)

(** A type whose user-defined types are resolved: those in lists, sets and maps,
    not those in tuples and vectors. *)
Inductive resolved : column_type -> column_type -> Prop :=
  | resolved_udt name k n u : udt_names name = Ok (k, n) -> getUdt k n = Ok (Some u) -> resolved (TUdtName name) u
  | resolved_list t u : resolved t u -> resolved (TList t) (TList u)
  | resolved_set t u : resolved t u -> resolved (TSet t) (TSet u)
  | resolved_map k k' v v' : resolved k k' -> resolved v v' -> resolved (TMap k v) (TMap k' v')
  | resolved_simple code : code <> 48 -> resolved (TSimple code) (TSimple code)
  | resolved_tuple ts : resolved (TTuple ts) (TTuple ts)
  | resolved_vector t d : resolved (TVector t d) (TVector t d)
  | resolved_custom info : resolved (TCustom info) (TCustom info).

Definition hint_resolved (h : user_hint) (r : column_type + H) : Prop :=
  match h with HintName name => exists t u, getByName name = Ok t /\ resolved t u /\ r = inl u | HintOther h => r = inr h end.

Lemma traverse_append {A B} (f : A -> result B) l l' out :
  traverse f (l ++ l') = Ok out <-> exists a b, traverse f l = Ok a /\ traverse f l' = Ok b /\ out = a ++ b.
Proof.
  rewrite traverse_ok. split.
  - intros (a & b & Ha & Hb & ->)%Forall2_app_inv_l. exists a, b. by rewrite !traverse_ok.
  - intros (a & b & Ha & Hb & ->). apply traverse_ok in Ha, Hb. by apply Forall2_app.
Qed.

Lemma find_udt_ok k n u : find_udt (k, n) = Ok u <-> getUdt k n = Ok (Some u).
Proof. unfold find_udt. cbn. destruct (getUdt k n) as [[?|]|]; split; intros E; simplify_eq; done. Qed.

(** Collecting the types and setting their information is to resolve them. *)
Lemma collected_resolved t names infos rest :
  checkUdtTypes t = Ok names -> traverse find_udt names = Ok infos ->
  exists u, set_infos t (infos ++ rest) = (u, rest) /\ resolved t u.
Proof.
  revert names infos rest. induction t as [code|t IH|t IH|k IHk v IHv|ts|ks name fields|name|t IH d|i]; intros names infos rest; cbn [checkUdtTypes set_infos].
  - destruct (Z.eqb_spec code 48); [done|]. intros [= <-] [= <-]. eauto using resolved.
  - intros Hn Hi. destruct (IH _ _ rest Hn Hi) as (u & -> & Hu). eauto using resolved.
  - intros Hn Hi. destruct (IH _ _ rest Hn Hi) as (u & -> & Hu). eauto using resolved.
  - intros (a & Ha & (b & Hb & [= <-])%bind_ok)%bind_ok (ia & ib & Hia & Hib & ->)%traverse_append.
    rewrite <- app_assoc. destruct (IHk _ _ (ib ++ rest) Ha Hia) as (k' & -> & Hk'). destruct (IHv _ _ rest Hb Hib) as (v' & -> & Hv'). eauto using resolved.
  - intros [= <-] [= <-]. eauto using resolved.
  - done.
  - intros ([k n] & Hkn & [= <-])%bind_ok. cbn [traverse]. intros (u & Hu & [= <-])%bind_ok. apply find_udt_ok in Hu. cbn. eauto using resolved.
  - intros [= <-] [= <-]. eauto using resolved.
  - intros [= <-] [= <-]. eauto using resolved.
Qed.

Lemma resolved_collected t u : resolved t u ->
  exists names infos, checkUdtTypes t = Ok names /\ traverse find_udt names = Ok infos /\ forall rest, set_infos t (infos ++ rest) = (u, rest).
Proof.
  induction 1 as [name k n u Hn Hu|t u _ IH|t u _ IH|k k' v v' _ IHk _ IHv|code Hc|ts|t d|i].
  - exists [(k, n)], [u]. cbn. rewrite Hn. split_and!; [done| |done]. apply find_udt_ok in Hu. by rewrite Hu.
  - destruct IH as (names & infos & Hn & Hi & Hs). exists names, infos. split_and!; [done..|]. intros rest. cbn. by rewrite Hs.
  - destruct IH as (names & infos & Hn & Hi & Hs). exists names, infos. split_and!; [done..|]. intros rest. cbn. by rewrite Hs.
  - destruct IHk as (a & ia & Ha & Hia & Hsa), IHv as (b & ib & Hb & Hib & Hsb). exists (a ++ b), (ia ++ ib). split_and!.
    + cbn. by rewrite Ha, Hb.
    + apply traverse_append. eauto.
    + intros rest. cbn. by rewrite <- app_assoc, Hsa, Hsb.
  - exists [], []. cbn. by rewrite (proj2 (Z.eqb_neq _ _) Hc).
  - by exists [], [].
  - by exists [], [].
  - by exists [], [].
Qed.

Lemma set_hints_resolved hints checked infos :
  Forall2 (fun h c => check_hint h = Ok c) hints checked -> traverse find_udt (concat (map snd checked)) = Ok infos ->
  Forall2 hint_resolved hints (set_hints (map fst checked) infos).
Proof.
  intros Hc. revert infos. induction Hc as [|h [c names] hints checked Hh Hc IH]; intros infos Hi; cbn [map concat fst snd set_hints] in *; [constructor|].
  apply traverse_append in Hi as (a & b & Ha & Hb & ->). destruct h as [name|h]; unfold check_hint in Hh.
  - apply bind_ok in Hh as (t & Ht & (ns & Hns & [= <- <-])%bind_ok). destruct (collected_resolved _ _ _ b Hns Ha) as (u & -> & Hu).
    constructor; [|by apply IH]. cbn. eauto.
  - injection Hh as <- <-. injection Ha as <-. constructor; [done|by apply IH].
Qed.

Lemma resolved_set_hints hints out : Forall2 hint_resolved hints out ->
  exists checked infos, traverse check_hint hints = Ok checked /\ traverse find_udt (concat (map snd checked)) = Ok infos /\
    forall rest, set_hints (map fst checked) (infos ++ rest) = out.
Proof.
  induction 1 as [|h r hints out Hh _ (checked & infos & Hc & Hi & Hs)]; [by exists [], []|].
  destruct h as [name|h]; cbn [hint_resolved] in Hh.
  - destruct Hh as (t & u & Ht & Hu & ->). destruct (resolved_collected _ _ Hu) as (names & us & Hn & Hus & Hset).
    exists ((inl t, names) :: checked), (us ++ infos). split_and!.
    + apply traverse_ok in Hc. apply traverse_ok. constructor; [|exact Hc]. unfold check_hint. rewrite Ht, bind_ok_l, Hn. done.
    + apply traverse_append. eauto.
    + intros rest. cbn [map fst set_hints]. by rewrite <- app_assoc, Hset, Hs.
  - subst r. exists ((inr h, []) :: checked), infos. cbn. rewrite Hc. split_and!; [done|done|]. intros rest. cbn [map fst set_hints]. by rewrite Hs.
Qed.

(** C23: [adaptUserHints] succeeds exactly when every text is the name of a type
    whose user-defined types, in lists, sets and maps, all exist, and gives these
    types with each user-defined type replaced by its own definition; other hints
    stay. *)
Theorem adaptUserHints_resolves hints out : adaptUserHints hints = Ok out <-> Forall2 hint_resolved hints out.
Proof.
  unfold adaptUserHints. split.
  - intros (checked & Hc & (infos & Hi & [= <-])%bind_ok)%bind_ok. apply traverse_ok in Hc. by apply set_hints_resolved.
  - intros (checked & infos & Hc & Hi & Hs)%resolved_set_hints. rewrite Hc. cbn. rewrite Hi. cbn. specialize (Hs []). by rewrite app_nil_r in Hs; rewrite Hs.
Qed.
End hints.
Arguments user_hint : clear implicits.

(** A user-defined type of the keyspace at hand is found in a map; in a tuple it is
    not looked up. *)
Definition sample_getUdt (ks name : jsstr) : result (option column_type) :=
  if bool_decide (ks = str "ks" /\ name = str "address") then Ok (Some (TUdt ks name [(str "street", TSimple 13)])) else Ok None.

Example hints_in_map :
  adaptUserHints sample_getUdt (Some (str "ks")) [HintName (str "map<text, udt<address>>"); HintOther 5] =
  Ok [inl (TMap (TSimple 10) (TUdt (str "ks") (str "address") [(str "street", TSimple 13)])); inr 5].
Proof. vm_compute. reflexivity. Qed.

Lemma udt_in_tuple_not_resolved :
  adaptUserHints (H := unit) sample_getUdt (Some (str "ks")) [HintName (str "tuple<udt<address>>")] = Ok [inl (TTuple [TUdtName (str "address")])].
Proof. vm_compute. reflexivity. Qed.
