(* ===== verification/RoutingKey.v ===== *)
(** The routing key of a request, [lib/encoder.js]: [setRoutingKeyFromUser],
    [setRoutingKeyFromMeta], [_encodeRoutingKeyParts] and [concatRoutingKey]. *)
From S2P Require Import Prelude.
From S2P Require Import JsNum.
From S2P Require Import JsStr.
From S2P Require Import Buffer.
From S2P Require Import LongLib.
From S2P Require Import InetAddress.
From S2P Require Import Utils.
From S2P Require Import TypeNames.
From S2P Require Import Encoder.

(** The property [routingKey] of the execution options: unset or null, a
    buffer, a list given by the user, a Token or TokenRange, or anything else. *)
Inductive routing_key :=
  | RKNone
  | RKBuffer (key : list Z)
  | RKArray (parts : list (option (list Z)))
  | RKToken
  | RKOther.

(** What the execution options tell about the routing of a request. *)
Record routing_options := mkRouting {
  routingKey : routing_key;
  routingIndexes : option (list (option nat));
  routingNames : option (list jsstr);
  routingHints : option (list hint) }.

(** One part of a composite key: its length in two bytes, the part and a zero
    byte, written at [offset] of the buffer. *)
Definition put_part (item : list Z) (st : list Z * nat) : result (list Z * nat) :=
  '(buffer, offset) ← write_at 2 (Z.of_nat (length item)) st;
  let buffer := splice buffer offset item in
  let offset := (offset + length item)%nat in
  Ok (splice buffer offset [0], S offset).

Fixpoint put_parts (parts : list (list Z)) (st : list Z * nat) : result (list Z * nat) :=
  match parts with
  | [] => Ok st
  | item :: parts' => st ← put_part item st; put_parts parts' st
  end.

(** [unsafe n] is the content of a buffer of [n] bytes that is not cleared. *)
Definition concatRoutingKey (unsafe : nat -> list Z) (parts : list (list Z)) (totalLength : nat) : result routing_key :=
  if (totalLength =? 0)%nat then Ok RKNone
  else
    match parts with
    | [part] => Ok (RKBuffer part)
    | _ => st ← put_parts parts (unsafe totalLength, O); Ok (RKBuffer st.1)
    end.

(** [_encodeRoutingKeyParts]: the parts and their length with three extra bytes
    each; [None] is the length zero of a part that is missing. *)
Fixpoint _encodeRoutingKeyParts (encodeParam : nat -> result encoded) (indexes : list (option nat))
    : result (option (list (list Z) * nat)) :=
  match indexes with
  | [] => Ok (Some ([], O))
  | None :: _ => Ok None
  | Some paramIndex :: indexes' =>
      item ← encodeParam paramIndex;
      match item with
      | EBuffer b =>
          rest ← _encodeRoutingKeyParts encodeParam indexes';
          Ok (match rest with Some (parts, n) => Some (b :: parts, (length b + 3 + n)%nat) | None => None end)
      | _ => Ok None
      end
  end.

(** What both operations do with the parts: an error of an encoder is ignored,
    and without a length the routing key stays as it is. *)
Definition key_of_parts (unsafe : nat -> list Z) (current : routing_key) (parts : result (option (list (list Z) * nat)))
    : result routing_key :=
  match parts with
  | Ok (Some (parts, totalLength)) =>
      if (totalLength =? 0)%nat then Ok current else concatRoutingKey unsafe parts totalLength
  | Throw Unmodelled => Throw Unmodelled
  | Throw OutOfFuel => Throw OutOfFuel
  | _ => Ok current
  end.

Section routing.
Context `{LongLib}.
Context (alloc scratch : list Z) (toString_ toFixed20 : number -> jsstr) (unsafe : nat -> list Z).
Context (E : Encoder).

Let enc := encode alloc scratch toString_ toFixed20 E.

Definition option_hint (h : option hint) : hint := default HintNone h.

(** The parameter at an index; in an array of named parameters it is an object,
    so that a missing one is an error. *)
Definition param_encoder (params : list value) (hints : list hint) (named : bool) (i : nat) : result encoded :=
  match params !! i with
  | Some x => enc x (option_hint (hints !! i))
  | None => if named then Throw TypeError else enc VUndefined (option_hint (hints !! i))
  end.

(** The part of an array given by the user, with three bytes each; an empty
    slot clears the routing key. *)
Fixpoint user_parts (parts : list (option (list Z))) : option (list (list Z) * nat) :=
  match parts with
  | [] => Some ([], O)
  | None :: _ => None
  | Some b :: parts' => match user_parts parts' with Some (l, n) => Some (b :: l, (length b + 3 + n)%nat) | None => None end
  end.

(** [keys] are the positions of named parameters. *)
Definition setRoutingKeyFromUser (params : option (list value)) (o : routing_options) (keys : option (obj nat))
    : result routing_key :=
  match routingKey o with
  | RKArray [part] => Ok (match part with Some b => RKBuffer b | None => RKNone end)
  | RKArray parts =>
      match user_parts parts with
      | Some (l, totalLength) => concatRoutingKey unsafe l totalLength
      | None => Ok RKNone
      end
  | RKBuffer _ | RKToken => Ok (routingKey o)
  | RKOther => Throw TypeError
  | RKNone =>
      match params with
      | None | Some [] => Ok RKNone
      | Some params =>
          indexes ← match routingNames o, keys with
                    | Some names, Some keys => Ok (Some (map (obj_get keys) names))
                    | Some [], None => Ok (Some [])
                    | Some _, None => Throw TypeError
                    | None, _ => Ok (routingIndexes o)
                    end;
          match indexes with
          | None => Ok RKNone
          | Some indexes =>
              key_of_parts unsafe RKNone
                (_encodeRoutingKeyParts (param_encoder params (default [] (routingHints o)) (match keys with Some _ => true | None => false end)) indexes)
          end
      end
  end.

(** [columns] are the types of the columns of the prepared statement. *)
Definition meta_encoder (columns : list column_type) (params : list value) (i : nat) : result encoded :=
  enc (default VUndefined (params !! i)) (match columns !! i with Some t => HintType t | None => HintNone end).

Definition setRoutingKeyFromMeta (columns : list column_type) (params : list value) (o : routing_options)
    : result routing_key :=
  match routingIndexes o with
  | None => Ok (routingKey o)
  | Some indexes => key_of_parts unsafe (routingKey o) (_encodeRoutingKeyParts (meta_encoder columns params) indexes)
  end.
End routing.

From S2P Require Import JsDouble.
From S2P Require Import Decoder.
From S2P Require Import EncoderValues.
From S2P Require Import EncoderTheorems.

(** The routing key of RoutingKey: the bytes of the partition key, from which
    the values of its columns can be told apart again. *)

(** ** The composite format *)

Definition part_bytes (b : list Z) : list Z := be_bytes 2 (Z.of_nat (length b)) ++ b ++ [0].
Definition composite_bytes (parts : list (list Z)) : list Z := concat (map part_bytes parts).

(** The bytes of a partition key with these columns. *)
Definition partition_key (parts : list (list Z)) : list Z :=
  match parts with [part] => part | _ => composite_bytes parts end.

Definition part_fits (b : list Z) : Prop := Z.of_nat (length b) < 65536.

Lemma length_part_bytes b : length (part_bytes b) = (length b + 3)%nat.
Proof. unfold part_bytes. rewrite !length_app, length_be_bytes. cbn. lia. Qed.

(** The parts of a composite key. *)
Fixpoint split_key (n : nat) (key : list Z) : option (list (list Z)) :=
  match n with
  | O => match key with [] => Some [] | _ => None end
  | S n' =>
      match readUInt 2 key 0 with
      | Ok len =>
          rest ← split_key n' (drop (2 + Z.to_nat len + 1) key);
          Some (take (Z.to_nat len) (drop 2 key) :: rest)
      | _ => None
      end
  end.

Lemma split_composite parts : Forall part_fits parts -> split_key (length parts) (composite_bytes parts) = Some parts.
Proof.
  induction 1 as [|b parts Hb _ IH]; [done|]. unfold composite_bytes in *. cbn [length split_key map concat].
  change (part_bytes b) with (be_bytes 2 (Z.of_nat (length b)) ++ b ++ [0]). rewrite <- !app_assoc.
  assert (W : writeUInt 2 (Z.of_nat (length b)) = Ok (be_bytes 2 (Z.of_nat (length b)))).
  { apply writeUInt_small. change (2 ^ (8 * Z.of_nat 2)) with 65536. unfold part_fits in Hb. lia. }
  pose proof (readUInt_writeUInt 2 _ _ [] (b ++ [0] ++ concat (map part_bytes parts)) W) as R. cbn [app length] in R.
  cbn [app]. rewrite R, Nat2Z.id. rewrite !drop_app_length' by (by rewrite length_be_bytes).
  rewrite take_app_length.
  replace (drop (2 + length b + 1) (be_bytes 2 (Z.of_nat (length b)) ++ b ++ 0 :: concat (map part_bytes parts)))
    with (concat (map part_bytes parts)); [by rewrite IH|].
  rewrite drop_app_ge by (rewrite length_be_bytes; lia). rewrite length_be_bytes, drop_app_ge by lia.
  by replace (2 + length b + 1 - 2 - length b)%nat with 1%nat by lia.
Qed.

(** ** Writing *)

Lemma put_part_ok item done_ rest :
  part_fits item -> (length item + 3 <= length rest)%nat ->
  put_part item (done_ ++ rest, length done_) =
    Ok ((done_ ++ part_bytes item) ++ drop (length item + 3) rest, length (done_ ++ part_bytes item)).
Proof.
  intros Hi Hr. unfold put_part, part_bytes. rewrite write_group by (unfold part_fits in Hi; lia). cbn [mbind result_bind].
  assert (E1 : (length done_ + 2)%nat = length (done_ ++ be_bytes 2 (Z.of_nat (length item)))) by (by rewrite length_app, length_be_bytes).
  rewrite E1, app_assoc, splice_app, <- length_app, (app_assoc _ item), splice_app, !drop_drop. cbn [length].
  f_equal. f_equal; [|rewrite !length_app; cbn; lia]. rewrite <- !app_assoc. do 5 f_equal. lia.
Qed.

Lemma put_part_too_long item st : ~ part_fits item -> put_part item st = Throw RangeError.
Proof.
  intros Hi. unfold put_part, write_at, writeUInt, part_fits in *. destruct st. change (2 ^ (8 * Z.of_nat 2)) with 65536.
  destruct (Z.leb_spec 0 (Z.of_nat (length item))), (Z.ltb_spec (Z.of_nat (length item)) 65536); try done; lia.
Qed.

Definition parts_length (parts : list (list Z)) : nat := length (composite_bytes parts).

Lemma put_parts_ok parts : forall done_ rest,
  Forall part_fits parts -> length rest = parts_length parts ->
  put_parts parts (done_ ++ rest, length done_) = Ok (done_ ++ composite_bytes parts, length (done_ ++ composite_bytes parts)).
Proof.
  unfold parts_length, composite_bytes. induction parts as [|b parts IH]; intros done_ rest Hp Hl; cbn [map concat put_parts] in *.
  - destruct rest; [by rewrite app_nil_r|done].
  - apply Forall_cons in Hp as [Hb Hp]. rewrite length_app, length_part_bytes in Hl.
    rewrite put_part_ok by (done || lia). cbn [mbind result_bind]. rewrite IH by (try done; rewrite length_drop; lia).
    by rewrite <- !app_assoc.
Qed.

Lemma put_parts_too_long parts : forall done_ rest,
  Exists (fun b => ~ part_fits b) parts -> length rest = parts_length parts ->
  put_parts parts (done_ ++ rest, length done_) = Throw RangeError.
Proof.
  unfold parts_length, composite_bytes. induction parts as [|b parts IH]; intros done_ rest Hp Hl; [by apply Exists_nil in Hp|].
  cbn [put_parts map concat] in *. destruct (decide (Z.of_nat (length b) < 65536)) as [Hb|Hb].
  - rewrite length_app, length_part_bytes in Hl.
    rewrite put_part_ok by (done || lia). cbn [mbind result_bind]. apply IH; [|rewrite length_drop; lia].
    by apply Exists_cons in Hp as [?|?].
  - by rewrite put_part_too_long.
Qed.

(** ** The key of a request *)

Lemma concatRoutingKey_ok unsafe parts :
  length (unsafe (parts_length parts)) = parts_length parts -> parts <> [] ->
  concatRoutingKey unsafe parts (parts_length parts) =
    if bool_decide (length parts = 1%nat) || forallb (fun b => Z.of_nat (length b) <? 65536) parts
    then Ok (RKBuffer (partition_key parts)) else Throw RangeError.
Proof.
  intros Hu Hne. unfold concatRoutingKey. destruct (Nat.eqb_spec (parts_length parts) 0) as [E0|_].
  { destruct parts as [|b parts]; [done|]. unfold parts_length, composite_bytes in E0. cbn [map concat] in E0.
    rewrite length_app, length_part_bytes in E0. lia. }
  destruct (forallb (fun b => Z.of_nat (length b) <? 65536) parts) eqn:Hf.
  - assert (Hp : Forall part_fits parts).
    { apply Forall_forall. intros b Hb. rewrite forallb_forall in Hf. apply Z.ltb_lt, Hf. by apply list_elem_of_In. }
    rewrite orb_true_r. destruct parts as [|b [|c parts]]; [done|done|].
    pose proof (put_parts_ok _ [] (unsafe (parts_length (b :: c :: parts))) Hp Hu) as P. cbn [app length] in P.
    by rewrite P.
  - assert (Hp : Exists (fun b => ~ part_fits b) parts).
    { apply not_Forall_Exists; [unfold part_fits; solve_decision|]. intros Hp. apply not_true_iff_false in Hf. apply Hf.
      apply forallb_forall. intros b Hb. apply Z.ltb_lt. rewrite Forall_forall in Hp. by apply Hp, list_elem_of_In. }
    rewrite orb_false_r. destruct parts as [|b [|c parts]]; [done|done|]. rewrite bool_decide_eq_false_2 by done.
    pose proof (put_parts_too_long _ [] (unsafe (parts_length (b :: c :: parts))) Hp Hu) as P. cbn [app length] in P.
    by rewrite P.
Qed.

Lemma encode_parts_ok encodeParam indexes bs :
  Forall2 (fun i b => encodeParam i = Ok (EBuffer b)) indexes bs ->
  _encodeRoutingKeyParts encodeParam (map Some indexes) = Ok (Some (bs, parts_length bs)).
Proof.
  induction 1 as [|i b indexes bs Hi _ IH]; [done|]. cbn [map _encodeRoutingKeyParts]. rewrite Hi. cbn [mbind result_bind].
  rewrite IH. unfold parts_length, composite_bytes. cbn [map concat mbind result_bind]. by rewrite length_app, length_part_bytes.
Qed.

Lemma parts_agree f g indexes :
  (forall i, f i = g i) -> _encodeRoutingKeyParts f indexes = _encodeRoutingKeyParts g indexes.
Proof.
  intros Hfg. induction indexes as [|[i|] indexes IH]; [done| |done]. cbn [_encodeRoutingKeyParts]. rewrite Hfg.
  destruct (g i) as [[b| |]|]; try done. cbn [mbind result_bind]. by rewrite IH.
Qed.

(** A part that is null or unset, or that a TypeError or RangeError keeps from
    being encoded, and an index that is undefined. *)
Definition part_missing (encodeParam : nat -> result encoded) (i : option nat) : Prop :=
  match i with
  | None => True
  | Some i => match encodeParam i with Ok (EBuffer _) => False | Ok _ => True | Throw e => e <> Unmodelled /\ e <> OutOfFuel end
  end.

Lemma parts_missing unsafe current encodeParam before missing after :
  Forall (fun i => match i with Some i => exists b, encodeParam i = Ok (EBuffer b) | None => False end) before ->
  part_missing encodeParam missing ->
  key_of_parts unsafe current (_encodeRoutingKeyParts encodeParam (before ++ missing :: after)) = Ok current.
Proof.
  intros Hb Hm.
  assert (G : _encodeRoutingKeyParts encodeParam (before ++ missing :: after) = Ok None \/
    exists e, _encodeRoutingKeyParts encodeParam (before ++ missing :: after) = Throw e /\ e <> Unmodelled /\ e <> OutOfFuel).
  { induction Hb as [|i before Hi _ IH]; cbn [app _encodeRoutingKeyParts].
    - destruct missing as [i|]; cbn in Hm |- *; [|by left]. destruct (encodeParam i) as [[b| |]|e]; cbn; try done; eauto.
    - destruct i as [i|]; [destruct Hi as [b Hi]|done]. rewrite Hi. cbn [mbind result_bind]. destruct IH as [-> | (e & -> & He)]; [by left|]. right. by exists e. }
  destruct G as [-> | (e & -> & He & Hf)]; [done|]. by destruct e.
Qed.

Section request.
Context `{LongLaws} (alloc scratch : list Z) (toString_ toFixed20 : number -> jsstr) (unsafe : nat -> list Z) (E : Encoder).
Context (Hscratch : (9 <= length scratch)%nat).

Lemma meta_encoder_wire columns params indexes ts vs bs :
  map (fun i => columns !! i) indexes = map Some ts -> map (fun i => params !! i) indexes = map Some vs ->
  Forall3 (wire E) ts vs bs ->
  Forall2 (fun i b => meta_encoder alloc scratch toString_ toFixed20 E columns params i = Ok (EBuffer b)) indexes bs.
Proof.
  intros Ht Hv Hw. revert indexes Ht Hv. induction Hw as [|t v b ts vs bs W _ IH]; intros [|i indexes] Ht Hv; try done.
  injection Ht as Ht1 Ht. injection Hv as Hv1 Hv. constructor; [|by apply IH].
  unfold meta_encoder. rewrite Ht1, Hv1. cbn [default].
  apply (wire_codec alloc scratch toString_ toFixed20 E Hscratch t v b W).
Qed.

(** The values of the partition key, read from the bytes of the key. *)
Definition decode_key (ts : list column_type) (key : list Z) : result (list value) :=
  match ts with
  | [t] => v ← decode E t (Some key); Ok [v]
  | _ =>
      match split_key (length ts) key with
      | Some parts => traverse (fun p => decode E p.1 (Some p.2)) (zip ts parts)
      | None => Throw RangeError
      end
  end.

Lemma decode_parts ts vs bs :
  Forall3 (wire E) ts vs bs -> traverse (fun p => decode E p.1 (Some p.2)) (zip ts bs) = Ok vs.
Proof.
  intros Hw. apply traverse_ok. induction Hw as [|t v b ts vs bs W _ IH]; cbn; constructor; [|done].
  apply (wire_codec alloc scratch toString_ toFixed20 E Hscratch t v b W).
Qed.

Lemma decode_partition_key ts vs bs :
  Forall3 (wire E) ts vs bs -> Forall part_fits bs \/ length bs = 1%nat -> decode_key ts (partition_key bs) = Ok vs.
Proof.
  intros Hw Hp. pose proof (decode_parts ts vs bs Hw) as D. pose proof (Forall3_length_lm _ _ _ _ Hw) as L1.
  pose proof (Forall3_length_lr _ _ _ _ Hw) as L2.
  destruct ts as [|t [|t' ts]], bs as [|b [|b' bs]]; try done.
  destruct Hp as [Hp|]; [|done]. unfold decode_key, partition_key. rewrite L2, split_composite by done. exact D.
Qed.
End request.

(** C6: the key set for a prepared statement. *)
Theorem setRoutingKeyFromMeta_key `{LongLaws} (alloc scratch : list Z) (toString_ toFixed20 : number -> jsstr)
  (unsafe : nat -> list Z) (E : Encoder) (columns : list column_type) (params : list value) (o : routing_options)
  (indexes : list nat) (ts : list column_type) (vs : list value) (bs : list (list Z))
  (Hscratch : (9 <= length scratch)%nat) (Hunsafe : forall n, length (unsafe n) = n)
  (Ho : routingIndexes o = Some (map Some indexes)) (Hne : indexes <> [])
  (Ht : map (fun i => columns !! i) indexes = map Some ts) (Hv : map (fun i => params !! i) indexes = map Some vs)
  (Hw : Forall3 (wire E) ts vs bs) :
  let set := setRoutingKeyFromMeta alloc scratch toString_ toFixed20 unsafe E columns params o in
  if bool_decide (length bs = 1%nat) || forallb (fun b => Z.of_nat (length b) <? 65536) bs
  then set = Ok (RKBuffer (partition_key bs)) /\ decode_key E ts (partition_key bs) = Ok vs
  else set = Throw RangeError.
Proof.
  cbv zeta. pose proof (Forall3_length_lr _ _ _ _ Hw) as L.
  assert (L' : length indexes = length ts) by (by rewrite <- (length_map (fun i => columns !! i)), Ht, length_map).
  assert (Hb : bs <> []) by (destruct indexes, bs; try done; cbn in *; lia).
  assert (R : setRoutingKeyFromMeta alloc scratch toString_ toFixed20 unsafe E columns params o =
    concatRoutingKey unsafe bs (parts_length bs)).
  { unfold setRoutingKeyFromMeta. rewrite Ho.
    rewrite (encode_parts_ok _ _ bs) by (by eapply meta_encoder_wire). cbn [key_of_parts].
    destruct (Nat.eqb_spec (parts_length bs) 0) as [E0|]; [|done].
    destruct bs as [|b bs]; [done|]. unfold parts_length, composite_bytes in E0. cbn [map concat] in E0.
    rewrite length_app, length_part_bytes in E0. lia. }
  rewrite R, concatRoutingKey_ok by done. destruct (bool_decide (length bs = 1%nat)) eqn:E1; cbn [orb].
  - split; [done|]. apply bool_decide_eq_true in E1. apply (decode_partition_key alloc scratch toString_ toFixed20 E Hscratch); auto.
  - destruct (forallb _ bs) eqn:Hf; [|done]. split; [done|].
    apply (decode_partition_key alloc scratch toString_ toFixed20 E Hscratch); [done|]. left.
    apply Forall_forall. intros b Hin. rewrite forallb_forall in Hf. apply Z.ltb_lt, Hf. by apply list_elem_of_In.
Qed.

Lemma setRoutingKeyFromMeta_key_witness :
  let o := mkRouting RKNone (Some [Some 1; Some 0])%nat None None in
  let set := setRoutingKeyFromMeta [] (replicate 9 0) (fun _ => []) (fun _ => []) (fun n => replicate n 7) (default_encoder 4)
    [TSimple 10; TSimple 9] [VString (str "ab"); VNumber (Int 258)] o in
  set = Ok (RKBuffer [0; 4; 0; 0; 1; 2; 0; 0; 2; 97; 98; 0]) /\
  decode_key (default_encoder 4) [TSimple 9; TSimple 10] [0; 4; 0; 0; 1; 2; 0; 0; 2; 97; 98; 0] =
    Ok [VNumber (Int 258); VString (str "ab")].
Proof.
  refine (setRoutingKeyFromMeta_key [] (replicate 9 0) (fun _ => []) (fun _ => []) (fun n => replicate n 7) (default_encoder 4)
    [TSimple 10; TSimple 9] [VString (str "ab"); VNumber (Int 258)] (mkRouting RKNone (Some [Some 1; Some 0])%nat None None)
    [1; 0]%nat [TSimple 9; TSimple 10] [VNumber (Int 258); VString (str "ab")] [[0; 0; 1; 2]; [97; 98]]
    ltac:(cbn; lia) ltac:(intros n; apply length_replicate) eq_refl ltac:(done) eq_refl eq_refl
    _).
  apply Forall3_cons; [exact (W_fixed (default_encoder 4) 9 4 258 ltac:(by left) ltac:(cbn; lia))|].
  apply Forall3_cons; [exact (W_text (default_encoder 4) 10 (str "ab") ltac:(by left))|apply Forall3_nil].
Defined.

(** the key from the user's hints. *)
Theorem setRoutingKey_user_meta `{LongLib} (alloc scratch : list Z) (toString_ toFixed20 : number -> jsstr)
  (unsafe : nat -> list Z) (E : Encoder) (columns : list column_type) (params : list value)
  (indexes : list (option nat)) (before after : list (option nat)) (missing : option nat) (current : routing_key) :
  let meta := setRoutingKeyFromMeta alloc scratch toString_ toFixed20 unsafe E columns params in
  let user := setRoutingKeyFromUser alloc scratch toString_ toFixed20 unsafe E (Some params) in
  let enc := meta_encoder alloc scratch toString_ toFixed20 E columns params in
  (params <> [] ->
     user (mkRouting RKNone (Some indexes) None (Some (map HintType columns))) None =
     meta (mkRouting RKNone (Some indexes) None None)) /\
  (Forall (fun i => match i with Some i => exists b, enc i = Ok (EBuffer b) | None => False end) before ->
   part_missing enc missing ->
     meta (mkRouting current (Some (before ++ missing :: after)) None None) = Ok current) /\
  (forall l, length l <> 1%nat -> Forall (fun p => p <> None) l ->
     user (mkRouting (RKArray l) None None None) None =
       let parts := map (default []) l in concatRoutingKey unsafe parts (parts_length parts)).
Proof.
  cbv zeta. split_and!.
  - intros Hp. unfold setRoutingKeyFromUser, setRoutingKeyFromMeta. cbn [routingKey routingNames routingIndexes routingHints].
    destruct params as [|p params]; [done|]. cbn [mbind result_bind default]. f_equal. apply parts_agree. intros i.
    unfold param_encoder, meta_encoder. change (id (map HintType columns)) with (HintType <$> columns). rewrite list_lookup_fmap.
    destruct ((p :: params) !! i), (columns !! i); done.
  - intros Hb Hm. unfold setRoutingKeyFromMeta. cbn [routingIndexes routingKey]. by apply parts_missing.
  - intros l Hl Hp. unfold setRoutingKeyFromUser. cbn [routingKey].
    assert (U : user_parts l = Some (map (default []) l, parts_length (map (default []) l))).
    { clear Hl. induction Hp as [|[b|] l Hb _ IH]; [done| |done]. cbn [user_parts map default]. rewrite IH.
      unfold parts_length, composite_bytes. cbn [map concat]. by rewrite length_app, length_part_bytes. }
    destruct l as [|x [|y l]]; [by rewrite U|done|by rewrite U].
Qed.
