(* ===== verification/ExecOptions.v ===== *)
(** [lib/execution-profile.js], [lib/execution-options.js] and
    [lib/query-options.js]: profiles, the options of one execution, and what
    the native part is told of them.

    [P] are load-balancing policies and [R] retry policies, known by their
    identity.  The array [options.profiles] and the profiles in it belong to the
    user and are changed in place: operations on them return the new array. *)
From S2P Require Import Prelude.
From S2P Require Import JsNum.
From S2P Require Import JsStr.
From S2P Require Import LongLib.
From S2P Require Import Uuid.
From S2P Require Import Version.
From S2P Require Import Utils.
From S2P Require Import JsVal.
From S2P Require Import Options.
From S2P Require Import Encoder.

(** ** Profiles *)

Section profiles.
Context {P R : Type} `{EqDecision P}.

Record ExecutionProfile := mkProfile {
  ep_name : jsstr;
  ep_consistency : jv;
  ep_loadBalancing : option P;
  ep_readTimeout : jv;
  ep_retry : option R;
  ep_serialConsistency : jv }.

(** [new ExecutionProfile("default")] *)
Definition ExecutionProfile_new (name : jsstr) : ExecutionProfile := mkProfile name JUndef None JUndef None JUndef.

Definition set_loadBalancing (p : ExecutionProfile) (lb : option P) : ExecutionProfile :=
  mkProfile (ep_name p) (ep_consistency p) lb (ep_readTimeout p) (ep_retry p) (ep_serialConsistency p).
Definition set_retry (p : ExecutionProfile) (r : option R) : ExecutionProfile :=
  mkProfile (ep_name p) (ep_consistency p) (ep_loadBalancing p) (ep_readTimeout p) r (ep_serialConsistency p).

(** [a || b] *)
Definition or_else {A} (a b : option A) : option A := match a with Some _ => a | None => b end.

(** The fields of the manager; the default profile is an index into the
    profiles, as it is one of them. *)
Record ProfileManager := mkProfileManager {
  pm_profiles : list ExecutionProfile;
  pm_default : nat;
  pm_loadBalancingPolicies : list (option P);
  pm_defaultConfiguredRetryPolicy : option R }.

Definition is_default (p : ExecutionProfile) : bool := bool_decide (ep_name p = str "default").

Fixpoint find_index (f : ExecutionProfile -> bool) (l : list ExecutionProfile) : option nat :=
  match l with [] => None | p :: l' => if f p then Some O else S <$> find_index f l' end.

(** The first profile called default, or a new one behind the others. *)
Definition default_profile (profiles : list ExecutionProfile) : list ExecutionProfile * nat :=
  match find_index is_default profiles with
  | Some i => (profiles, i)
  | None => (profiles ++ [ExecutionProfile_new (str "default")], length profiles)
  end.

Definition complete_default (loadBalancing : P) (retry : R) (p : ExecutionProfile) : ExecutionProfile :=
  set_retry (set_loadBalancing p (or_else (ep_loadBalancing p) (Some loadBalancing))) (or_else (ep_retry p) (Some retry)).

(** [_setDefault] with the two policies of the options. *)
Definition _setDefault (profiles : list ExecutionProfile) (loadBalancing : P) (retry : R) : ProfileManager :=
  let '(profiles, i) := default_profile profiles in
  mkProfileManager (alter (complete_default loadBalancing retry) i profiles) i []
    (match profiles !! i with Some p => ep_retry p | None => None end).

Definition default_loadBalancing (m : ProfileManager) : option P :=
  match pm_profiles m !! pm_default m with Some p => ep_loadBalancing p | None => None end.

(** The function of the constructor's [forEach] on one profile. *)
Definition add_policy (policies : list (option P)) (p : ExecutionProfile) : list (option P) :=
  if bool_decide (ep_loadBalancing p ∈ policies) then policies else policies ++ [ep_loadBalancing p].

(** The constructor: the array of the options, if there is one. *)
Definition ProfileManager_new (profiles : option (list ExecutionProfile)) (loadBalancing : P) (retry : R) : ProfileManager :=
  let m := _setDefault (default [] profiles) loadBalancing retry in
  let completed := map (fun p => set_loadBalancing p (or_else (ep_loadBalancing p) (default_loadBalancing m))) (pm_profiles m) in
  mkProfileManager completed (pm_default m) (foldl add_policy [] completed) (pm_defaultConfiguredRetryPolicy m).

(** The array of the user's options afterwards. *)
Definition user_profiles (profiles : option (list ExecutionProfile)) (m : ProfileManager) : option (list ExecutionProfile) :=
  match profiles with Some _ => Some (pm_profiles m) | None => None end.

(** [_profilesMap[name]]: the last profile of that name. *)
Definition profiles_map (m : ProfileManager) (name : jsstr) : option ExecutionProfile :=
  List.find (fun p => bool_decide (ep_name p = name)) (rev (pm_profiles m)).

(** The option [executionProfile]: a profile, or a name if it is set. *)
Definition getProfile (m : ProfileManager) (name : ExecutionProfile + option jsstr) : option ExecutionProfile :=
  match name with
  | inl p => Some p
  | inr (Some ((_ :: _) as s)) => profiles_map m s
  | inr _ => profiles_map m (str "default")
  end.

Definition getDefault (m : ProfileManager) : option ExecutionProfile := pm_profiles m !! pm_default m.

(** [getDistance] with the distances the policies give; 0 is local, 2 ignored. *)
Fixpoint closest (distance : Z) (distances : list Z) : Z :=
  match distances with
  | [] => distance
  | d :: distances' => if d <? distance then if d =? 0 then d else closest d distances' else closest distance distances'
  end.

Definition getDistance (m : ProfileManager) (distance_of : option P -> Z) : Z :=
  closest 2 (map distance_of (pm_loadBalancingPolicies m)).
End profiles.
Arguments ExecutionProfile : clear implicits.
Arguments ProfileManager : clear implicits.

(** ** The options of an execution *)

Definition jIfUndefined (v1 v2 : jv) : jv := if is_undef v1 then v2 else v1.
Definition jIfUndefined3 (v1 v2 v3 : jv) : jv := if is_undef v1 then jIfUndefined v2 v3 else v1.

Definition proxyExecuteKey : jsstr := str "ProxyExecute".

(** [Buffer.from(executeAs)]: text in UTF-8, or an array of bytes; other
    values of the option are not modelled. *)
Definition allocBufferFromString (v : jv) : result jv :=
  match v with JStr s => Ok (JBuf (utf8_encode s)) | JBuf b => Ok (JBuf b) | JNum _ | JBool _ | JBig _ => Throw TypeError | _ => Throw Unmodelled end.

(** [a || b] *)
Definition jor (a b : jv) : jv := if truthy a then a else b.

Definition createCustomPayload (userOptions defaultQueryOptions : obj jv) : result jv :=
  let customPayload := jor (prop userOptions "customPayload") (prop defaultQueryOptions "customPayload") in
  let executeAs := jor (prop userOptions "executeAs") (prop defaultQueryOptions "executeAs") in
  if truthy executeAs then
    if negb (truthy customPayload) then b ← allocBufferFromString executeAs; Ok (JObj [(proxyExecuteKey, b)])
    else if negb (truthy (get (own_props customPayload) proxyExecuteKey)) then
      b ← allocBufferFromString executeAs;
      Ok (JObj (obj_set (extend is_undef [] [Some (own_props customPayload)]) proxyExecuteKey b))
    else Ok customPayload
  else Ok customPayload.

(** The properties of the native options. *)
Record rust_query_options := mkRustQueryOptions {
  autoPage : jv;
  captureStackTrace : jv;
  consistency : jv;
  counter : jv;
  fetchSize : jv;
  isIdempotent : jv;
  keyspace : jv;
  logged : jv;
  prepare : jv;
  readTimeout : jv;
  routingIndexes : jv;
  routingNames : jv;
  serialConsistency : jv;
  timestamp : jv;
  traceQuery : jv }.

Section execution_options.
Context {P R : Type} `{EqDecision P}.

(** The fields of [DefaultExecutionOptions]: those of the user, of the client
    ([queryOptions], [socketOptions.readTimeout], [policies.retry]) and the
    profile, then the values that setters change and the native options made
    by the first use. *)
Record DefaultExecutionOptions := mkExecutionOptions {
  eo_queryOptions : obj jv;
  eo_defaultQueryOptions : obj jv;
  eo_socketReadTimeout : jv;
  eo_clientRetry : R;
  eo_profile : ExecutionProfile P R;
  eo_routingKey : jv;
  eo_hints : jv;
  eo_keyspace : jv;
  eo_routingIndexes : jv;
  eo_pageState : jv;
  eo_customPayload : jv;
  eo_rustWrapper : option rust_query_options }.

Abbreviation options := DefaultExecutionOptions.

(** What the options take from the client. *)
Record client_context := mkClientContext {
  cc_queryOptions : obj jv;
  cc_readTimeout : jv;
  cc_retry : R;
  cc_profileManager : ProfileManager P R }.

(** The constructor; [profile] is the option [executionProfile]. *)
Definition DefaultExecutionOptions_new (queryOptions : obj jv) (profile : ExecutionProfile P R + option jsstr) (client : client_context) : result options :=
  let pageState := match prop queryOptions "pageState" with JStr s => JBuf (bytes_of_hex s) | v => v end in
  let found := getProfile (cc_profileManager client) profile in
  customPayload ← createCustomPayload queryOptions (cc_queryOptions client);
  match found with
  | Some p =>
      Ok (mkExecutionOptions queryOptions (cc_queryOptions client) (cc_readTimeout client) (cc_retry client) p
        (prop queryOptions "routingKey") (prop queryOptions "hints") (prop queryOptions "keyspace")
        (prop queryOptions "routingIndexes") pageState customPayload None)
  | None => Throw ArgumentError
  end.

(** [create]: null, undefined and a function stand for no options. *)
Definition create (queryOptions : jv) (profile : ExecutionProfile P R + option jsstr) (client : client_context) : result options :=
  if negb (truthy queryOptions) || is_function queryOptions then DefaultExecutionOptions_new [] (inr None) client
  else DefaultExecutionOptions_new (own_props queryOptions) profile client.

Section getters.
Context (o : options).

Definition user (k : string) : jv := prop (eo_queryOptions o) k.
Definition client_default (k : string) : jv := prop (eo_defaultQueryOptions o) k.

Definition getCaptureStackTrace : jv := jIfUndefined (user "captureStackTrace") (client_default "captureStackTrace").
Definition getConsistency : jv := jIfUndefined3 (user "consistency") (ep_consistency (eo_profile o)) (client_default "consistency").
Definition getCustomPayload : jv := eo_customPayload o.
Definition getFetchSize : jv := jIfUndefined (user "fetchSize") (client_default "fetchSize").
Definition getFixedHost : jv := user "host".
Definition getHints : jv := eo_hints o.
Definition isAutoPage : jv := jIfUndefined (user "autoPage") (client_default "autoPage").
Definition isBatchCounter : jv := jIfUndefined (user "counter") (JBool false).
Definition isBatchLogged : jv := jIfUndefined3 (user "logged") (client_default "logged") (JBool true).
Definition eo_isIdempotent : jv := jIfUndefined (user "isIdempotent") (client_default "isIdempotent").
Definition isPrepared : jv := jIfUndefined (user "prepare") (client_default "prepare").
Definition isQueryTracing : jv := jIfUndefined (user "traceQuery") (client_default "traceQuery").
Definition getKeyspace : jv := eo_keyspace o.
Definition getLoadBalancingPolicy : option P := ep_loadBalancing (eo_profile o).
Definition isPaged : jv := jIfUndefined (user "paged") (client_default "paged").
Definition getPageState : jv := eo_pageState o.
Definition getReadTimeout : jv := jIfUndefined3 (user "readTimeout") (ep_readTimeout (eo_profile o)) (eo_socketReadTimeout o).
(** The option [retry] of the user is a policy, if it is set. *)
Definition getRetryPolicy (user_retry : option R) : option R :=
  or_else user_retry (or_else (ep_retry (eo_profile o)) (Some (eo_clientRetry o))).
Definition getRoutingIndexes : jv := eo_routingIndexes o.
Definition getRoutingKey : jv := eo_routingKey o.
Definition getRoutingNames : jv := user "routingNames".
Definition getSerialConsistency : jv :=
  jIfUndefined3 (user "serialConsistency") (ep_serialConsistency (eo_profile o)) (client_default "serialConsistency").
Definition getTimestamp : jv := user "timestamp".

(** A property of the object itself, which has these fields and, in
    underscored fields too, the client, the profile, the callback and the host. *)
Definition own_property (k : string) : jv :=
  prop (own_props (object [("_queryOptions"%string, JObj (eo_queryOptions o)); ("_defaultQueryOptions"%string, JObj (eo_defaultQueryOptions o));
    ("_routingKey"%string, eo_routingKey o); ("_hints"%string, eo_hints o); ("_keyspace"%string, eo_keyspace o);
    ("_routingIndexes"%string, eo_routingIndexes o); ("_pageState"%string, eo_pageState o);
    ("_customPayload"%string, eo_customPayload o)])) k.
End getters.

(** [getOrGenerateTimestamp] with the protocol version of the control
    connection and the generator of the client, a function from its state. *)
Definition getOrGenerateTimestamp `{LongLib} {G : Type} (o : options) (version : Z) (generator : option (G -> jv * G)) (g : G) : jv * G :=
  let '(result, g) :=
    match getTimestamp o with
    | JUndef =>
        match generator with
        | Some next => if supportsTimestamp version then next g else (JNull, g)
        | None => (JNull, g)
        end
    | v => (v, g)
    end in
  (match result with
   | JNum (Fin m 0) => let l := Long_fromNumber m in JLong (Long_getLowBits l) (Long_getHighBits l)
   | v => v
   end, g).

(** The setters. *)
Definition with_fields (o : options) (routingKey hints keyspace routingIndexes pageState customPayload : jv)
    (wrapper : option rust_query_options) : options :=
  mkExecutionOptions (eo_queryOptions o) (eo_defaultQueryOptions o) (eo_socketReadTimeout o) (eo_clientRetry o) (eo_profile o)
    routingKey hints keyspace routingIndexes pageState customPayload wrapper.

Definition setCustomPayload (o : options) (v : jv) : options :=
  with_fields o (eo_routingKey o) (eo_hints o) (eo_keyspace o) (eo_routingIndexes o) (eo_pageState o) v (eo_rustWrapper o).
Definition setHints (o : options) (v : jv) : options :=
  with_fields o (eo_routingKey o) v (eo_keyspace o) (eo_routingIndexes o) (eo_pageState o) (eo_customPayload o) (eo_rustWrapper o).
Definition setKeyspace (o : options) (v : jv) : options :=
  with_fields o (eo_routingKey o) (eo_hints o) v (eo_routingIndexes o) (eo_pageState o) (eo_customPayload o) (eo_rustWrapper o).
Definition setPageState (o : options) (v : jv) : options :=
  with_fields o (eo_routingKey o) (eo_hints o) (eo_keyspace o) (eo_routingIndexes o) v (eo_customPayload o) (eo_rustWrapper o).
Definition setRoutingIndexes (o : options) (v : jv) : options :=
  with_fields o (eo_routingKey o) (eo_hints o) (eo_keyspace o) v (eo_pageState o) (eo_customPayload o) (eo_rustWrapper o).
Definition setRoutingKey (o : options) (v : jv) : options :=
  with_fields o v (eo_hints o) (eo_keyspace o) (eo_routingIndexes o) (eo_pageState o) (eo_customPayload o) (eo_rustWrapper o).
Definition setWrapper (o : options) (w : rust_query_options) : options :=
  with_fields o (eo_routingKey o) (eo_hints o) (eo_keyspace o) (eo_routingIndexes o) (eo_pageState o) (eo_customPayload o) (Some w).

(** ** The native options *)

(** [longToBigint] on the two halves of a Long. *)
Definition longToBigint_halves (low high : Z) : Z :=
  let r := low + 2 ^ 32 * high in if low <? 0 then r + 2 ^ 32 else r.

(** [BigInt(v)] of a truthy value. *)
Definition to_BigInt (v : jv) : result jv :=
  match v with
  | JNum (Fin m 0) => Ok (JBig m)
  | JNum _ => Throw RangeError
  | JBig z => Ok (JBig z)
  | JBool _ => Ok (JBig 1)
  | JStr s => match integer_text s with Some z => Ok (JBig z) | None => Throw Unmodelled end
  | _ => Throw Unmodelled
  end.

Definition rust_timestamp (timestamp : jv) : result jv :=
  match timestamp with
  | JLong low high => Ok (JBig (longToBigint_halves low high))
  | _ => if truthy timestamp then to_BigInt timestamp else Ok timestamp
  end.

Definition queryOptionsIntoWrapper (o : options) : result rust_query_options :=
  timestamp ← rust_timestamp (getTimestamp o);
  Ok (mkRustQueryOptions (isAutoPage o) (getCaptureStackTrace o) (getConsistency o) (own_property o "counter")
    (getFetchSize o) (eo_isIdempotent o) (own_property o "keyspace") (own_property o "logged") (own_property o "prepare")
    (getReadTimeout o) (getRoutingIndexes o) (getRoutingNames o) (getSerialConsistency o) timestamp (own_property o "traceQuery")).

Definition wrapOptionsIfNotWrappedYet (o : options) : result options :=
  match eo_rustWrapper o with
  | Some _ => Ok o
  | None => w ← queryOptionsIntoWrapper o; Ok (setWrapper o w)
  end.

Definition getRustOptions (o : options) : result (rust_query_options * options) :=
  o ← wrapOptionsIfNotWrappedYet o;
  match eo_rustWrapper o with Some w => Ok (w, o) | None => Throw PlainError end.
End execution_options.
Arguments DefaultExecutionOptions : clear implicits.
Arguments client_context : clear implicits.
