(* ===== verification/ExecOptionsTheorems.v ===== *)
(** Profiles and the options of an execution: what is set, what comes first, and
    what reaches the native part. *)
From S2P Require Import Prelude.
From S2P Require Import JsNum.
From S2P Require Import JsStr.
From S2P Require Import Utils.
From S2P Require Import JsVal.
From S2P Require Import Options.
From S2P Require Import OptionsTheorems.
From S2P Require Import ExecOptions.

(** ** Profiles *)

Section profiles.
Context {P R : Type} `{EqDecision P}.
Abbreviation profile := (ExecutionProfile P R).
Implicit Types (l : list profile) (p q : profile).

Lemma find_index_Some (f : profile -> bool) l i :
  find_index f l = Some i -> exists p, l !! i = Some p /\ f p = true.
Proof.
  revert i. induction l as [|p l IH]; intros i; cbn [find_index]; [done|].
  destruct (f p) eqn:Hp; [intros [= <-]; by exists p|].
  destruct (find_index f l) as [j|]; [|done]. intros [= <-]. apply IH. done.
Qed.

Lemma find_index_None (f : profile -> bool) l p : find_index f l = None -> p ∈ l -> f p = false.
Proof.
  induction l as [|q l IH]; cbn [find_index]; [by intros _ ?%elem_of_nil|].
  destruct (f q) eqn:Hq; [done|]. destruct (find_index f l); [done|].
  intros _ [->|Hp]%elem_of_cons; auto.
Qed.

(** The names of the profiles, with the one that is added. *)
Definition profile_names (profiles : list profile) : list jsstr :=
  map ep_name profiles ++ (if bool_decide (str "default" ∈ map ep_name profiles) then [] else [str "default"]).

Lemma default_profile_ok l l' i :
  default_profile l = (l', i) ->
  map ep_name l' = profile_names l /\ l `prefix_of` l' /\ exists p, l' !! i = Some p /\ ep_name p = str "default".
Proof.
  unfold default_profile, profile_names. destruct (find_index is_default l) as [j|] eqn:Hf; intros [= <- <-].
  - apply find_index_Some in Hf as (p & Hp & Hd). apply bool_decide_eq_true in Hd.
    rewrite bool_decide_eq_true_2, app_nil_r; [by eauto|]. rewrite <- Hd. apply list_elem_of_fmap. exists p. split; [done|].
    by eapply list_elem_of_lookup_2.
  - rewrite bool_decide_eq_false_2.
    + rewrite map_app. split_and!; [done|by apply prefix_app_r|]. exists (ExecutionProfile_new (str "default")).
      split; [|done]. rewrite lookup_app_r, Nat.sub_diag by done. done.
    + intros (p & Hd & Hp)%list_elem_of_fmap. pose proof (find_index_None _ _ p Hf Hp) as Hn.
      apply bool_decide_eq_false in Hn. by rewrite Hd in Hn.
Qed.

Lemma add_policies_ok l acc :
  NoDup acc -> NoDup (foldl add_policy acc l) /\ forall b, b ∈ foldl add_policy acc l <-> b ∈ acc \/ exists p, p ∈ l /\ ep_loadBalancing p = b.
Proof.
  revert acc. induction l as [|p l IH]; intros acc Ha; cbn [foldl].
  - split; [done|]. intros b. split; [auto|]. intros [?|(p & ?%elem_of_nil & _)]; done.
  - unfold add_policy at 2 4. case_bool_decide as Hin.
    + destruct (IH acc Ha) as [Hn He]. split; [done|]. intros b. rewrite He. setoid_rewrite elem_of_cons.
      split; [naive_solver|]. intros [?|(q & [->|?] & <-)]; eauto.
    + destruct (IH (acc ++ [ep_loadBalancing p])) as [Hn He].
      { apply NoDup_app. split_and!; [done| |apply NoDup_singleton]. intros x Hx ->%list_elem_of_singleton. done. }
      split; [done|]. intros b. rewrite He, elem_of_app, list_elem_of_singleton. setoid_rewrite elem_of_cons. naive_solver.
Qed.

Lemma or_else_Some {A} (a : option A) b : is_Some (or_else a (Some b)).
Proof. destruct a; eauto. Qed.

(** What the constructor makes of a profile: the name and the other options are
    kept, and policies that are set too. *)
Definition kept (p q : profile) : Prop :=
  ep_name q = ep_name p /\ ep_consistency q = ep_consistency p /\ ep_readTimeout q = ep_readTimeout p /\
  ep_serialConsistency q = ep_serialConsistency p /\
  (is_Some (ep_loadBalancing p) -> ep_loadBalancing q = ep_loadBalancing p) /\ (is_Some (ep_retry p) -> ep_retry q = ep_retry p).

Lemma kept_trans p q r : kept p q -> kept q r -> kept p r.
Proof. unfold kept. naive_solver congruence. Qed.

Lemma kept_complete lb rt p : kept p (complete_default lb rt p).
Proof. unfold kept. cbn. destruct (ep_loadBalancing p), (ep_retry p); naive_solver. Qed.

Lemma kept_loadBalancing p o : kept p (set_loadBalancing p (or_else (ep_loadBalancing p) o)).
Proof. unfold kept. cbn. destruct (ep_loadBalancing p); naive_solver. Qed.

Lemma profiles_map_is_Some (m : ProfileManager P R) name :
  is_Some (profiles_map m name) <-> name ∈ map ep_name (pm_profiles m).
Proof.
  unfold profiles_map. rewrite list_elem_of_fmap. split.
  - intros [p Hp]. apply find_some in Hp as [Hin Hn]. apply bool_decide_eq_true in Hn. exists p. split; [done|].
    apply list_elem_of_In. by apply in_rev.
  - intros (p & Hn & Hp). destruct (List.find _ (rev (pm_profiles m))) as [q|] eqn:Hf; [by exists q|].
    assert (Hp' : In p (rev (pm_profiles m))) by (apply -> in_rev; by apply list_elem_of_In).
    apply (find_none _ _ Hf) in Hp'. apply bool_decide_eq_false in Hp'. by rewrite Hn in Hp'.
Qed.

(** the profile manager has a default profile with all the policies, every
    profile has a load-balancing policy, the policies to initialise are those of
    the profiles, each once, every name of a profile is found, and what the
    user's profiles set is kept, in their order. *)
Theorem ProfileManager_new_ok (profiles : option (list profile)) (lb : P) (rt : R) :
  let m := ProfileManager_new profiles lb rt in
  (exists p, getDefault m = Some p /\ ep_name p = str "default" /\ is_Some (ep_loadBalancing p) /\ is_Some (ep_retry p)) /\
  Forall (fun p => is_Some (ep_loadBalancing p)) (pm_profiles m) /\
  NoDup (pm_loadBalancingPolicies m) /\
  (forall b, b ∈ pm_loadBalancingPolicies m <-> exists p, p ∈ pm_profiles m /\ ep_loadBalancing p = b) /\
  map ep_name (pm_profiles m) = profile_names (default [] profiles) /\
  (forall name, name <> [] -> is_Some (getProfile m (inr (Some name))) <-> name ∈ profile_names (default [] profiles)) /\
  (forall i p, default [] profiles !! i = Some p -> exists q, pm_profiles m !! i = Some q /\ kept p q).
Proof.
  cbv zeta. set (l := default [] profiles). unfold ProfileManager_new. fold l. unfold _setDefault.
  destruct (default_profile l) as [l' i] eqn:Hd. apply default_profile_ok in Hd as (Hnames & Hpre & p & Hp & Hpn).
  set (l'' := alter (complete_default lb rt) i l'). set (m0 := mkProfileManager l'' i [] _).
  assert (Hi : l'' !! i = Some (complete_default lb rt p)) by (unfold l''; by rewrite list_lookup_alter_eq, Hp).
  assert (Hlb : default_loadBalancing m0 = ep_loadBalancing (complete_default lb rt p)).
  { unfold default_loadBalancing. cbn [pm_profiles pm_default m0]. by rewrite Hi. }
  destruct (or_else_Some (ep_loadBalancing p) lb) as [b Hb].
  set (done_ := map _ (pm_profiles m0)). cbn [pm_profiles pm_default pm_loadBalancingPolicies getDefault].
  destruct (add_policies_ok done_ [] ltac:(constructor)) as [Hn He].
  assert (Hset : forall q, is_Some (or_else (ep_loadBalancing q) (default_loadBalancing m0))).
  { intros q. rewrite Hlb. cbn [ep_loadBalancing complete_default set_retry set_loadBalancing]. rewrite Hb. apply or_else_Some. }
  assert (Hmap : map ep_name done_ = profile_names l).
  { unfold done_. rewrite map_map. cbn [ep_name set_loadBalancing]. rewrite <- Hnames. change (pm_profiles m0) with l''. unfold l''.
    apply list_eq. intros k. rewrite !lookup_map. destruct (decide (i = k)) as [<-|];
      [rewrite list_lookup_alter_eq|rewrite list_lookup_alter_ne by done]; by destruct (l' !! _). }
  split_and!.
  - exists (set_loadBalancing (complete_default lb rt p) (or_else (ep_loadBalancing (complete_default lb rt p)) (default_loadBalancing m0))).
    unfold getDefault. cbn [pm_profiles pm_default m0]. unfold done_. change (pm_profiles m0) with l''. rewrite lookup_map, Hi. cbn.
    split_and!; [done|done|exact (Hset (complete_default lb rt p))|apply or_else_Some].
  - unfold done_. apply Forall_map, Forall_forall. intros q _. apply Hset.
  - done.
  - intros x. rewrite He. split; [by intros [?%elem_of_nil|?]|auto].
  - done.
  - intros [|c name] Hne; [done|]. cbn [getProfile]. rewrite profiles_map_is_Some. cbn [pm_profiles]. by rewrite Hmap.
  - intros k q Hq. destruct Hpre as [l2 ->]. assert (Hq' : (l ++ l2) !! k = Some q) by (by apply lookup_app_l_Some).
    unfold done_. change (pm_profiles m0) with l''. setoid_rewrite lookup_map. unfold l''.
    destruct (decide (i = k)) as [<-|].
    + rewrite list_lookup_alter_eq, Hq'. cbn. eexists. split; [done|].
      eapply kept_trans; [apply kept_complete|apply kept_loadBalancing].
    + rewrite list_lookup_alter_ne, Hq' by done. cbn. eexists. split; [done|]. apply kept_loadBalancing.
Qed.

(** A name that is given finds the last profile of that name, and none finds
    the default profile's name. *)
Lemma profiles_map_Some (m : ProfileManager P R) name p :
  profiles_map m name = Some p <-> exists i, pm_profiles m !! i = Some p /\ ep_name p = name /\
    forall j q, (i < j)%nat -> pm_profiles m !! j = Some q -> ep_name q <> name.
Proof.
  unfold profiles_map. generalize (pm_profiles m). intros l. induction l as [|q l IH] using rev_ind; cbn.
  - split; [done|]. by intros (i & ? & _).
  - rewrite rev_unit. cbn [List.find]. case_bool_decide as Hq.
    + split.
      * intros [= <-]. exists (length l). rewrite lookup_app_r, Nat.sub_diag by done. split_and!; [done..|].
        intros j r Hj Hr%lookup_lt_Some. rewrite length_app in Hr. cbn in Hr. lia.
      * intros (i & Hi & Hn & Hlast). destruct (decide (i < length l)%nat) as [Hlt|].
        -- exfalso. apply (Hlast (length l) q Hlt); [|done]. by rewrite lookup_app_r, Nat.sub_diag by done.
        -- pose proof (lookup_lt_Some _ _ _ Hi) as Hb. rewrite length_app in Hb. cbn in Hb.
           replace i with (length l) in Hi by lia. rewrite lookup_app_r, Nat.sub_diag in Hi by done. done.
    + rewrite IH. split; intros (i & Hi & Hn & Hlast); exists i.
      * split_and!; [by apply lookup_app_l_Some|done|]. intros j r Hj Hr. apply lookup_app_Some in Hr as [Hr|[Hr1 Hr2]]; [eauto|].
        destruct (j - length l)%nat; [|done]. by injection Hr2 as <-.
      * apply lookup_app_Some in Hi as [Hi|[H1 H2]].
        -- split_and!; [done..|]. intros j r Hj Hr. apply (Hlast j); [done|by apply lookup_app_l_Some].
        -- destruct (i - length l)%nat; [|done]. by injection H2 as <-.
Qed.

(** the distance of a host is the smallest of those that the policies of
    the profiles give, and [ignored] is the largest. *)
Theorem getDistance_closest (m : ProfileManager P R) (f : option P -> Z) :
  (forall b, 0 <= f b <= 2) ->
  (forall b, b ∈ pm_loadBalancingPolicies m -> getDistance m f <= f b) /\
  (getDistance m f = 2 \/ exists b, b ∈ pm_loadBalancingPolicies m /\ getDistance m f = f b).
Proof.
  intros Hf. unfold getDistance.
  assert (H : forall (l : list (option P)) d, d <= 2 -> closest d (map f l) <= d /\ (forall b, b ∈ l -> closest d (map f l) <= f b) /\
    (closest d (map f l) = d \/ exists b, b ∈ l /\ closest d (map f l) = f b)); [|by destruct (H (pm_loadBalancingPolicies m) 2)].
  induction l as [|b l IH]; intros d Hd; cbn [map closest].
  - split_and!; [lia|by intros ? ?%elem_of_nil|auto].
  - destruct (Z.ltb_spec (f b) d), (Z.eqb_spec (f b) 0); setoid_rewrite elem_of_cons.
    + split_and!; [lia| |naive_solver]. intros c _. pose proof (Hf c). lia.
    + destruct (IH (f b) ltac:(lia)) as (H1 & H2 & H3). split_and!; [lia| |naive_solver].
      intros c [->|Hc]; [done|auto].
    + destruct (IH d Hd) as (H1 & H2 & H3). split_and!; [done| |naive_solver]. intros c [->|Hc]; [lia|auto].
    + destruct (IH d Hd) as (H1 & H2 & H3). split_and!; [done| |naive_solver]. intros c [->|Hc]; [lia|auto].
Qed.
End profiles.

(** The array of the options keeps the default profile of the first client: a
    second client with the same array uses the first one's policy. *)
Lemma shared_profiles_keep_first_policy {P R : Type} `{EqDecision P} (lb1 lb2 : P) (rt1 rt2 : R) :
  let first := ProfileManager_new (Some []) lb1 rt1 in
  let second := ProfileManager_new (user_profiles (Some []) first) lb2 rt2 in
  default_loadBalancing second = Some lb1.
Proof. reflexivity. Qed.

(** A profile that is not one of the options has no policy unless it sets one. *)
Lemma foreign_profile {P R : Type} `{EqDecision P} (m : ProfileManager P R) :
  ep_loadBalancing <$> getProfile m (inl (ExecutionProfile_new (str "x"))) = Some None.
Proof. reflexivity. Qed.

(** ** The options of an execution *)

Section execution_options.
Context {P R : Type} `{EqDecision P}.
Abbreviation options := (DefaultExecutionOptions P R).
Implicit Types o : options.

(** The first value that is not undefined. *)
Fixpoint first_defined (l : list jv) : jv :=
  match l with [] => JUndef | v :: l' => if is_undef v then first_defined l' else v end.

Lemma jIfUndefined_first a b : jIfUndefined a b = first_defined [a; b].
Proof. unfold jIfUndefined. cbn. destruct (is_undef a) eqn:Ha; [|done]. destruct b; done. Qed.

Lemma jIfUndefined3_first a b c : jIfUndefined3 a b c = first_defined [a; b; c].
Proof. unfold jIfUndefined3. rewrite jIfUndefined_first. cbn. by destruct (is_undef a). Qed.

(** The levels an option is taken from: the execution, the profile, the client. *)
Definition levels (queryOptions : obj jv) (profile_value : jv) (client : client_context P R) (k : string) : list jv :=
  [prop queryOptions k; profile_value; prop (cc_queryOptions client) k].

Lemma create_fields queryOptions profile client o :
  DefaultExecutionOptions_new queryOptions profile client = Ok o ->
  eo_queryOptions o = queryOptions /\ eo_defaultQueryOptions o = cc_queryOptions client /\
  eo_socketReadTimeout o = cc_readTimeout client /\ eo_routingIndexes o = prop queryOptions "routingIndexes" /\
  eo_rustWrapper o = None /\ getProfile (cc_profileManager client) profile = Some (eo_profile o).
Proof.
  unfold DefaultExecutionOptions_new. cbv zeta. intros (payload & _ & H)%bind_ok.
  destruct (getProfile _ profile) as [p|]; [|done]. by injection H as <-.
Qed.

Lemma own_property_not o k :
  str k ∉ map str ["_queryOptions"; "_defaultQueryOptions"; "_routingKey"; "_hints"; "_keyspace"; "_routingIndexes"; "_pageState";
                   "_customPayload"]%string ->
  own_property o k = JUndef.
Proof.
  intros Hk. unfold own_property, prop, get. cbn [own_props object]. rewrite (proj2 (obj_get_None _ (str k))); [done|].
  by cbn [map fst].
Qed.

(** C15: of the options of an execution, those the native part gets are taken
    from the execution, then from the profile where it has the option, then
    from the client.  A timestamp that is a Long, or an integer other than 0,
    becomes the BigInt of that value; 0 stays a Number (it is falsy), and
    undefined stays undefined.  The batch kind, the keyspace, preparation and
    tracing are never among them, whatever the user says. *)
Theorem native_query_options (queryOptions : obj jv) (profile : ExecutionProfile P R + option jsstr) (client : client_context P R)
    (o o' : options) (w : rust_query_options) :
  DefaultExecutionOptions_new queryOptions profile client = Ok o ->
  getRustOptions o = Ok (w, o') ->
  exists p, getProfile (cc_profileManager client) profile = Some p /\
    consistency w = first_defined (levels queryOptions (ep_consistency p) client "consistency") /\
    serialConsistency w = first_defined (levels queryOptions (ep_serialConsistency p) client "serialConsistency") /\
    readTimeout w = first_defined [prop queryOptions "readTimeout"; ep_readTimeout p; cc_readTimeout client] /\
    (forall f, f ∈ [("fetchSize", fetchSize w); ("autoPage", autoPage w); ("isIdempotent", isIdempotent w);
                    ("captureStackTrace", captureStackTrace w)]%string ->
       f.2 = first_defined [prop queryOptions f.1; prop (cc_queryOptions client) f.1]) /\
    routingIndexes w = prop queryOptions "routingIndexes" /\ routingNames w = prop queryOptions "routingNames" /\
    (forall z, prop queryOptions "timestamp" = JNum (JsNum.Int z) ->
       timestamp w = if z =? 0 then JNum (JsNum.Int 0) else JBig z) /\
    (forall low high, is_int32 low -> prop queryOptions "timestamp" = JLong low high -> timestamp w = JBig (low mod 2 ^ 32 + 2 ^ 32 * high)) /\
    (prop queryOptions "timestamp" = JUndef -> timestamp w = JUndef) /\
    [counter w; keyspace w; logged w; prepare w; traceQuery w] = [JUndef; JUndef; JUndef; JUndef; JUndef].
Proof.
  intros Hnew Hw. destruct (create_fields _ _ _ _ Hnew) as (Eq & Ed & Er & Ei & En & Ep).
  unfold getRustOptions, wrapOptionsIfNotWrappedYet in Hw. rewrite En in Hw.
  apply bind_ok in Hw as (o1 & Hw & Ho1). apply bind_ok in Hw as (w' & Hw & [= <-]). cbn [setWrapper with_fields eo_rustWrapper] in Ho1.
  injection Ho1 as -> <-. apply bind_ok in Hw as (t & Ht & [= <-]). exists (eo_profile o). split; [done|].
  unfold levels. cbn [consistency serialConsistency readTimeout fetchSize autoPage isIdempotent captureStackTrace routingIndexes
    routingNames timestamp counter keyspace logged prepare traceQuery].
  unfold getConsistency, getSerialConsistency, getReadTimeout, getFetchSize, isAutoPage, eo_isIdempotent, getCaptureStackTrace,
    getRoutingIndexes, getRoutingNames, getTimestamp, user, client_default in *.
  rewrite Eq, Ed, Er, Ei, !jIfUndefined3_first, !jIfUndefined_first in *.
  split_and!; try done.
  - intros f. rewrite !elem_of_cons. intros [->|[->|[->|[->|?%elem_of_nil]]]]; done.
  - intros z Hz. rewrite Hz in Ht. unfold rust_timestamp in Ht. cbn in Ht. destruct (Z.eqb_spec z 0) as [Hz0|Hz0]; [subst z|]; by injection Ht as <-.
  - intros low high Hl Hz. rewrite Hz in Ht. cbn in Ht. injection Ht as <-. unfold longToBigint_halves, is_int32 in *. f_equal.
    destruct (Z.ltb_spec low 0); Z.to_euclidean_division_equations; lia.
  - intros Hz. rewrite Hz in Ht. by injection Ht as <-.
Qed.

(** The calls that change the options of an execution. *)
Inductive setter := SetCustomPayload (v : jv) | SetHints (v : jv) | SetKeyspace (v : jv) | SetPageState (v : jv)
  | SetRoutingIndexes (v : jv) | SetRoutingKey (v : jv).

Definition apply_setter (o : options) (c : setter) : options :=
  match c with
  | SetCustomPayload v => setCustomPayload o v
  | SetHints v => setHints o v
  | SetKeyspace v => setKeyspace o v
  | SetPageState v => setPageState o v
  | SetRoutingIndexes v => setRoutingIndexes o v
  | SetRoutingKey v => setRoutingKey o v
  end.

(** The native options are made once: no setter changes them afterwards. *)
Lemma getRustOptions_frozen o o' w calls :
  getRustOptions o = Ok (w, o') ->
  exists o'', getRustOptions (foldl apply_setter o' calls) = Ok (w, o'').
Proof.
  intros Hw. assert (Hw' : eo_rustWrapper o' = Some w).
  { unfold getRustOptions in Hw. apply bind_ok in Hw as (o1 & _ & H). destruct (eo_rustWrapper o1) eqn:E; [|done]. injection H as -> <-. done. }
  clear Hw. revert o' Hw'. induction calls as [|c calls IH]; intros o' Hw'; cbn [foldl].
  - exists o'. unfold getRustOptions, wrapOptionsIfNotWrappedYet. rewrite Hw', bind_ok_l. by rewrite Hw'.
  - apply IH. by destruct c.
Qed.
End execution_options.

(** A client with one profile. *)
Definition some_client : client_context nat nat :=
  mkClientContext [(str "fetchSize", jnum 5000); (str "consistency", jnum 1)] (jnum 12000) 8%nat
    (ProfileManager_new (Some [mkProfile (str "slow") (jnum 4) None (jnum 60000) None JUndef]) 7%nat 8%nat).

Lemma native_query_options_witness :
  exists o o' w,
    DefaultExecutionOptions_new [(str "traceQuery", JBool true); (str "timestamp", jnum 5)] (inr (Some (str "slow"))) some_client = Ok o /\
    getRustOptions o = Ok (w, o') /\ consistency w = jnum 4 /\
    [counter w; keyspace w; logged w; prepare w; traceQuery w] = [JUndef; JUndef; JUndef; JUndef; JUndef].
Proof.
  destruct (DefaultExecutionOptions_new [(str "traceQuery", JBool true); (str "timestamp", jnum 5)] (inr (Some (str "slow"))) some_client)
    as [o|] eqn:Ho; [|vm_compute in Ho; discriminate].
  destruct (getRustOptions o) as [[w o']|] eqn:Hw; [|vm_compute in Ho; injection Ho as <-; vm_compute in Hw; discriminate].
  destruct (native_query_options _ _ _ _ _ _ Ho Hw) as (p & Hp & Hc & _ & _ & _ & _ & _ & _ & _ & _ & Hlost).
  exists o, o', w. vm_compute in Hp. injection Hp as <-. split_and!; [done|done|by rewrite Hc|done].
Defined.

(** A timestamp of 0 stays a Number. *)
Lemma zero_timestamp : rust_timestamp (jnum 0) = Ok (jnum 0) /\ rust_timestamp (jnum 1) = Ok (JBig 1).
Proof. auto. Qed.

Lemma getDistance_closest_witness :
  (forall b : option nat, 0 <= 1 <= 2) /\
  getDistance (ProfileManager_new None 7%nat 8%nat) (fun _ => 1) <= 1.
Proof.
  split; [lia|]. apply (proj1 (getDistance_closest (ProfileManager_new None 7%nat 8%nat) (fun _ => 1) ltac:(cbv beta; lia)) (Some 7%nat)).
  vm_compute. left.
Defined.
