(* ===== verification/Results.v ===== *)
(** [lib/types/results-wrapper.js], [result-set.js], [row.js], [tuple.js] and
    [convertComplexType] of [cql-utils.js], with the values that the native part
    hands over ([src/result.rs], [src/types/type_wrappers.rs]).

    [cql_value] is the type of values of the native driver, a Rust library;
    [to_napi] is the conversion of the repository.  The own properties of an
    object are enumerated with the array indexes first. *)
From S2P Require Import Prelude.
From S2P Require Import JsNum.
From S2P Require Import JsStr.
From S2P Require Import Buffer.
From S2P Require Import LongLib.
From S2P Require Import NewUtils.
From S2P Require Import Duration.
From S2P Require Import BigDecimal.
From S2P Require Import Uuid.
From S2P Require Import LocalDate.
From S2P Require Import InetAddress.
From S2P Require Import LocalTime.
From S2P Require Import Utils.
From S2P Require Import TypeNames.
From S2P Require Import Encoder.

(** ** Types *)

(** [ColumnType] of the native driver; a native type is its code. *)
Inductive complex_type :=
  | CNative (code : Z)
  | CListType (t : complex_type)
  | CSetType (t : complex_type)
  | CMapType (k v : complex_type)
  | CVectorType (t : complex_type) (dimensions : Z)
  | CUdtType (keyspace name : jsstr) (fields : list (jsstr * complex_type))
  | CTupleType (ts : list complex_type).

(** [convertComplexType]; the keyspace of a user-defined type is not copied. *)
Fixpoint convertComplexType (type : complex_type) : column_type :=
  match type with
  | CNative code => TSimple code
  | CListType t => TList (convertComplexType t)
  | CSetType t => TSet (convertComplexType t)
  | CMapType k v => TMap (convertComplexType k) (convertComplexType v)
  | CVectorType t n => TVector (convertComplexType t) (Int n)
  | CUdtType _ name fields => TUdt [] name (map (fun f => match f with (k, t) => (k, convertComplexType t) end) fields)
  | CTupleType ts => TTuple (map convertComplexType ts)
  end.

(** ** Native values *)

Inductive cql_value :=
  | CAscii (s : jsstr)
  | CBoolean (b : bool)
  | CBlob (b : list Z)
  | CCounter (z : Z)
  | CDecimal (scale : Z) (unscaled : list Z)
  | CDate (days : Z)
  | CDouble (n : number)
  | CDuration (months days nanoseconds : Z)
  | CFloat (n : number)
  | CInt (z : Z)
  | CBigInt (z : Z)
  | CText (s : jsstr)
  | CTimestamp (z : Z)
  | CInet (b : list Z)
  | CList (l : list cql_value)
  | CMap (l : list (cql_value * cql_value))
  | CSet (l : list cql_value)
  | CUdt (fields : list (jsstr * option cql_value))
  | CSmallInt (z : Z)
  | CTinyInt (z : Z)
  | CTime (z : Z)
  | CTimeuuid (b : list Z)
  | CTuple (l : list (option cql_value))
  | CUuid (b : list Z)
  | CVarint (z : Z)
  | CVector (l : list cql_value).

(** What JavaScript sees: a value of the language, an instance of one of the
    wrappers, an array or an object. *)
Inductive native :=
  | NNull
  | NPrim (v : value)
  | NLocalDate (value : Z)
  | NDuration (months days nanoseconds : Z)
  | NInet (b : list Z)
  | NLocalTime (value : Z)
  | NArray (l : list native)
  | NObject (l : list (jsstr * native)).

(** [CqlValueWrapper::to_napi_value]; the empty value is not implemented there. *)
Fixpoint to_napi (v : cql_value) : native :=
  match v with
  | CAscii s | CText s => NPrim (VString s)
  | CBoolean b => NPrim (VBoolean b)
  | CBlob b | CTimeuuid b | CUuid b => NPrim (VBuffer b)
  | CCounter z | CBigInt z | CTimestamp z | CVarint z => NPrim (VBigInt z)
  | CDecimal scale unscaled => NPrim (VBuffer (be_bytes 4 scale ++ unscaled))
  | CDate days => NLocalDate (days - 2 ^ 31)
  | CDouble n | CFloat n => NPrim (VNumber n)
  | CDuration m d n => NDuration m d n
  | CInt z | CSmallInt z | CTinyInt z => NPrim (VNumber (Int z))
  | CInet b => NInet b
  | CTime z => NLocalTime z
  | CList l | CSet l | CVector l => NArray (map to_napi l)
  | CMap l => NArray (map (fun p => match p with (k, w) => NArray [to_napi k; to_napi w] end) l)
  | CUdt fields =>
      NObject (map (fun f => match f with (k, o) => (k, match o with Some x => to_napi x | None => NNull end) end) fields)
  | CTuple l => NArray (map (fun o => match o with Some x => to_napi x | None => NNull end) l)
  end.

(** ** The order of properties *)

(** An array index: the decimal text of a number below [2^32 - 1]. *)
Definition array_index_key (k : jsstr) : option Z :=
  match k with
  | [] => None
  | c :: k' =>
      if forallb is_digit k && (negb (bool_decide (c = "0"%char)) || bool_decide (k' = [])) then
        match parseInt k 10 with Fin m _ => if m <? 4294967295 then Some m else None | _ => None end
      else None
  end.

Fixpoint insert_index {A} (i : Z) (p : jsstr * A) (l : list (Z * (jsstr * A))) : list (Z * (jsstr * A)) :=
  match l with
  | [] => [(i, p)]
  | (j, q) :: l' => if i <? j then (i, p) :: l else (j, q) :: insert_index i p l'
  end.

Fixpoint sorted_indexes {A} (l : list (jsstr * A)) : list (Z * (jsstr * A)) :=
  match l with
  | [] => []
  | (k, a) :: l' => match array_index_key k with Some i => insert_index i (k, a) (sorted_indexes l') | None => sorted_indexes l' end
  end.

Definition own_order {A} (l : list (jsstr * A)) : list (jsstr * A) :=
  map snd (sorted_indexes l) ++ List.filter (fun p => match array_index_key p.1 with None => true | Some _ => false end) l.

(** ** [getCqlObject] *)

Section results.
Context `{LongLib}.

(** [new Date(Number(z))] *)
Definition date_of (z : Z) : value :=
  let t := round53 z in VDate (if Z.abs t <=? 8640000000000000 then Some t else None).

Definition long_value (x : Long) : value := VLong (Long_getLowBits x) (Long_getHighBits x) (long_unsigned x).

Definition getCqlSingle (code : Z) (field : native) : result value :=
  match code with
  | 9 | 19 | 20 | 10 | 13 | 3 | 4 | 1 | 7 | 8 | 5 | 14 =>
      match field with NPrim v => Ok v | _ => Throw Unmodelled end
  | 2 => match field with NPrim (VBigInt z) => Ok (long_value (bigintToLong z)) | _ => Throw TypeError end
  | 6 => match field with NPrim (VBuffer b) => VBigDecimal <$> BigDecimal_fromBuffer b | _ => Throw TypeError end
  | 11 => match field with NPrim (VBigInt z) => Ok (date_of z) | _ => Throw Unmodelled end
  | 15 => match field with NPrim (VBuffer b) => VTimeUuid <$> Uuid_new b | _ => Throw TypeError end
  | 12 => match field with NPrim (VBuffer b) => VUuid <$> Uuid_new b | _ => Throw TypeError end
  | _ => Throw PlainError
  end.

(** A value as the name of a property. *)
Definition key_of_value (v : value) : result jsstr :=
  match v with
  | VString s => Ok s
  | VNumber (Fin m 0) => Ok (num_to_string 10 m)
  | VBigInt z => Ok (num_to_string 10 z)
  | VBoolean b => Ok (str (if b then "true" else "false"))
  | VNull => Ok (str "null")
  | VUuid x | VTimeUuid x => Ok (Uuid_toString x)
  | _ => Throw Unmodelled
  end.

(** The entries of a user-defined type, with the types by position. *)
Fixpoint typed_fields (entries : list (jsstr * (column_type -> result value))) (fields : list (jsstr * column_type))
    : result (list (jsstr * value)) :=
  match entries with
  | [] => Ok []
  | (k, convert) :: entries' =>
      match fields with
      | (_, t) :: fields' => v ← convert t; rest ← typed_fields entries' fields'; Ok ((k, v) :: rest)
      | [] => Throw TypeError
      end
  end.

Definition new_tuple (l : list value) : result value := match l with [] => Throw TypeError | _ => Ok (VTuple l) end.

Definition new_vector (l : list value) (name : jsstr) : result value :=
  match l with [] => Throw TypeError | _ => Ok (VVector l (Some name)) end.

Fixpoint getCqlObject (field : native) (typ : column_type) {struct field} : result value :=
  match field with
  | NNull => Ok VNull
  | NLocalDate days => VLocalDate <$> LocalDate_newDays days
  | NDuration months days nanoseconds => VDuration <$> DurationWrapper_new months days nanoseconds
  | NInet b => VInetAddress <$> InetAddress_new b
  | NLocalTime z => VLocalTime <$> LocalTime_new (bigintToLong z)
  | _ =>
      match typ with
      | TList sub | TSet sub =>
          match field with
          | NArray l => VArray <$> traverse id (map (fun v => getCqlObject v sub) l)
          | _ => Throw TypeError
          end
      | TMap k w =>
          match field with
          | NArray l =>
              entries ← traverse id (map (fun p =>
                match p with
                | NArray (a :: b :: _) => x ← getCqlObject a k; y ← getCqlObject b w; key ← key_of_value x; Ok (key, y)
                | _ => Throw TypeError
                end) l);
              Ok (VObject (own_order (foldl (fun res kv => obj_set res kv.1 kv.2) [] entries)))
          | _ => Throw TypeError
          end
      | TTuple ts =>
          match field with
          | NArray l =>
              elements ← (fix elements l ts :=
                match l with
                | [] => Ok []
                | x :: l' =>
                    v ← match x with
                        | NNull => Ok VUndefined
                        | _ => match ts with t :: _ => getCqlObject x t | [] => Throw TypeError end
                        end;
                    rest ← elements l' (tail ts);
                    Ok (v :: rest)
                end) l ts;
              new_tuple elements
          | _ => Throw TypeError
          end
      | TUdt _ _ fields =>
          match field with
          | NObject entries =>
              VObject <$> typed_fields (own_order (map (fun e => match e with (k, x) => (k, fun t => getCqlObject x t) end) entries)) fields
          | _ => Throw TypeError
          end
      | TVector sub _ =>
          match field with
          | NArray l =>
              elements ← traverse id (map (fun v => getCqlObject v sub) l);
              name ← getDataTypeNameByCode sub;
              new_vector elements name
          | _ => Throw TypeError
          end
      | TSimple code => getCqlSingle code field
      | TCustom _ | TUdtName _ => Throw PlainError
      end
  end.

(** ** Rows *)

Record Row := mkRow { row_columns : list jsstr; row_cells : obj value }.

(** [get] by name, and by index. *)
Definition Row_get (r : Row) (columnName : jsstr + nat) : result value :=
  match columnName with
  | inl name => Ok (default VUndefined (obj_get (row_cells r) name))
  | inr i =>
      match row_columns r !! i with
      | Some name => Ok (default VUndefined (obj_get (row_cells r) name))
      | None => Throw TypeError
      end
  end.

Definition Row_values (r : Row) : list value := map snd (own_order (row_cells r)).
Definition Row_keys (r : Row) : list jsstr := map fst (own_order (row_cells r)).

(** [QueryResultWrapper]: the rows, unless the result has none, and the columns. *)
Record native_result := mkNativeResult {
  nr_rows : option (list (list native));
  nr_columns : list (jsstr * jsstr * jsstr * complex_type);
  nr_traceId : option (list Z);
  nr_warnings : list jsstr }.

Definition getColumnsNames (r : native_result) : list jsstr := map (fun c => c.1.2) (nr_columns r).
Definition getColumnsTypes (r : native_result) : list complex_type := map snd (nr_columns r).

(** The inner loop of [getRowsFromResultsWrapper]: one row. *)
Fixpoint collect_row (cols : list native) (names : list jsstr) (types : list column_type) (cells : obj value) : result (obj value) :=
  match cols, names, types with
  | [], _, _ => Ok cells
  | x :: cols', name :: names', t :: types' =>
      v ← getCqlObject x t; collect_row cols' names' types' (obj_set cells name v)
  | _, _, _ => Throw TypeError
  end.

Definition getRowsFromResultsWrapper (result : native_result) : Prelude.result (option (list Row)) :=
  match nr_rows result with
  | None => Ok None
  | Some rustRows =>
      let colNames := getColumnsNames result in
      let types := map convertComplexType (getColumnsTypes result) in
      rows ← traverse (fun cols => mkRow colNames <$> collect_row cols colNames types []) rustRows;
      Ok (Some rows)
  end.

(** ksname, tablename, name and type. *)
Definition getColumnsMetadata (result : native_result) : list (jsstr * jsstr * jsstr * column_type) :=
  map (fun c => (c.1.1.1, c.1.1.2, c.1.2, convertComplexType c.2)) (nr_columns result).

(** ** [ResultSet] *)

Record ResultSet := mkResultSet {
  rs_rows : option (list Row);
  rs_rowLength : nat;
  rs_rawPageState : option (list Z);
  rs_traceId : option Uuid;
  rs_warnings : list jsstr }.

(** [new ResultSet(result, pagingState)]; the paging state, when it is given,
    has the state of the next page if there is one. *)
Definition ResultSet_new (result : native_result) (pagingState : option (option (list Z))) : Prelude.result ResultSet :=
  rows ← getRowsFromResultsWrapper result;
  traceId ← match nr_traceId result with Some b => Some <$> Uuid_new b | None => Ok None end;
  Ok (mkResultSet rows (match rows with Some l => length l | None => O end) (default None pagingState) traceId (nr_warnings result)).

(** The string token. *)
Definition pageState (rs : ResultSet) : option jsstr := hex_of_bytes <$> rs_rawPageState rs.

Definition first (rs : ResultSet) : option Row := match rs_rows rs with Some (r :: _) => Some r | _ => None end.

Definition wasApplied (rs : ResultSet) : bool :=
  match rs_rows rs with
  | Some (r :: _) => match obj_get (row_cells r) (str "[applied]") with Some (VBoolean b) => b | _ => true end
  | _ => true
  end.

(** The rows that the iterator gives. *)
Definition iterator (rs : ResultSet) : list Row := default [] (rs_rows rs).

Definition isPaged_result (rs : ResultSet) : bool := match rs_rawPageState rs with Some _ => true | None => false end.

(** The variables of the asynchronous iterator. *)
Record async_iterator := mkAsyncIterator { ai_index : nat; ai_pageState : option (list Z); ai_rows : list Row }.

(** The iterator of a result without rows is done at once. *)
Definition asyncIterator (rs : ResultSet) : option async_iterator :=
  match rs_rows rs with
  | Some ((_ :: _) as rows) => Some (mkAsyncIterator 0 (rs_rawPageState rs) rows)
  | _ => None
  end.

(** [next]: [fetch] is [nextPageAsync], on a state of the world.  [inl (Some r)]
    is a row and [inl None] the end. *)
Definition async_next {W} (fetch : option (list Z -> W -> Prelude.result ResultSet * W)) (it : async_iterator) (w : W)
    : Prelude.result (option Row * async_iterator) * W :=
  let emit it :=
    match ai_rows it !! ai_index it with
    | Some r => (Some r, mkAsyncIterator (S (ai_index it)) (ai_pageState it) (ai_rows it))
    | None => (None, it)
    end in
  match ai_pageState it with
  | Some state =>
      if (length (ai_rows it) <=? ai_index it)%nat then
        match fetch with
        | None => (Throw DriverInternalError, w)
        | Some fetch =>
            let '(rs, w) := fetch state w in
            match rs with
            | Throw e => (Throw e, w)
            | Ok rs =>
                match rs_rows rs with
                | Some rows => (Ok (emit (mkAsyncIterator 0 (rs_rawPageState rs) rows)), w)
                | None => (Throw TypeError, w)
                end
            end
        end
      else (Ok (emit it), w)
  | None => (Ok (emit it), w)
  end.
End results.
