(* ===== verification/ResultsTheorems.v ===== *)
(** What a query returns: a value of the native driver becomes the JavaScript
    value with the same bytes, which the encoder writes back; rows and pages. *)
From S2P Require Import Prelude.
From S2P Require Import JsNum.
From S2P Require Import JsStr.
From S2P Require Import Buffer.
From S2P Require Import JsDouble.
From S2P Require Import Integer.
From S2P Require Import IntegerArith.
From S2P Require Import IntegerText.
From S2P Require Import IntegerTheorems.
From S2P Require Import LongLib.
From S2P Require Import NewUtils.
From S2P Require Import Duration.
From S2P Require Import DurationTheorems.
From S2P Require Import BigDecimal.
From S2P Require Import Uuid.
From S2P Require Import LocalDate.
From S2P Require Import LocalDateTheorems.
From S2P Require Import InetAddress.
From S2P Require Import LocalTime.
From S2P Require Import Utils.
From S2P Require Import TypeNames.
From S2P Require Import Encoder.
From S2P Require Import Decoder.
From S2P Require Import EncoderValues.
From S2P Require Import EncoderTheorems.
From S2P Require Import Results.

(** ** The order of properties *)

Lemma own_order_plain {A} (l : list (jsstr * A)) :
  Forall (fun p => array_index_key p.1 = None) l -> own_order l = l.
Proof.
  intros Hl. unfold own_order.
  assert (H1 : sorted_indexes l = []).
  { induction Hl as [|[k a] l Hk Hl IH]; cbn [sorted_indexes]; [done|]. cbn in Hk. by rewrite Hk. }
  rewrite H1. cbn [map app]. induction Hl as [|[k a] l Hk Hl IH]; cbn [List.filter]; [done|]. cbn [fst] in *.
  rewrite Hk. f_equal. apply IH. cbn [sorted_indexes] in H1. by rewrite Hk in H1.
Qed.

(** ** The format of native values *)

(** A native value of a type without parts, and its bytes in the protocol.
    Counters are left out, and varints are values of the option
    [useBigIntAsVarint]. *)
Section format.
Context (E : Encoder).

Let opts : encoding_options := encodingOptions E.

Inductive cql_single : Z -> cql_value -> list Z -> Prop :=
  | C_ascii s : Forall (fun c => code c < 128) s -> cql_single 1 (CAscii s) (map code s)
  | C_bigint z : is_int64 z -> cql_single 2 (CBigInt z) (be_bytes 8 z)
  | C_blob b : cql_single 3 (CBlob b) b
  | C_boolean b : cql_single 4 (CBoolean b) [if b : bool then 1 else 0]
  | C_decimal scale i :
      Integer_wf i -> is_int32 scale ->
      cql_single 6 (CDecimal scale (Integer_toBuffer i)) (be_bytes 4 scale ++ Integer_toBuffer i)
  | C_double n : is_double n -> cql_single 7 (CDouble n) (be_bytes 8 (double_bits n))
  | C_float n : is_float n -> cql_single 8 (CFloat n) (be_bytes 4 (float_bits n))
  | C_int z : - 2 ^ 31 <= z < 2 ^ 31 -> cql_single 9 (CInt z) (be_bytes 4 z)
  | C_smallint z : - 2 ^ 15 <= z < 2 ^ 15 -> cql_single 19 (CSmallInt z) (be_bytes 2 z)
  | C_tinyint z : - 2 ^ 7 <= z < 2 ^ 7 -> cql_single 20 (CTinyInt z) (be_bytes 1 z)
  | C_text c s : c = 10 \/ c = 13 -> cql_single c (CText s) (utf8_encode s)
  | C_timestamp t : Z.abs t <= 8640000000000000 -> cql_single 11 (CTimestamp t) (be_bytes 8 t)
  | C_uuid b : length b = 16%nat -> cql_single 12 (CUuid b) b
  | C_timeuuid b : length b = 16%nat -> cql_single 15 (CTimeuuid b) b
  | C_varint z b : useBigIntAsVarint opts = true -> bigint_bytes z = Ok b -> cql_single 14 (CVarint z) b
  | C_inet b : length b = 4%nat \/ length b = 16%nat -> cql_single 16 (CInet b) b
  | C_date days : 0 <= days < 2 ^ 32 -> cql_single 17 (CDate days) (be_bytes 4 days)
  | C_time v :
      time_in_range v = true -> cql_single 18 (CTime v) (be_bytes 4 (v / 2 ^ 32) ++ be_bytes 4 (v mod 2 ^ 32))
  | C_duration m d n :
      Duration_wf (mkDuration m d n) -> cql_single 21 (CDuration m d n) (duration_bytes (mkDuration m d n)).

(** A key of a map as the name of a property. *)
Definition cql_text (c : cql_value) : jsstr := match c with CAscii s | CText s => s | _ => [] end.

Definition cql_field (w : cql_value -> list Z -> Prop) (o : option cql_value) (f : option (list Z)) : Prop :=
  match o, f with Some x, Some c => w x c | None, None => True | _, _ => False end /\ field_fits f.

Definition cql_fields (ws : list (cql_value -> list Z -> Prop)) (l : list (option cql_value)) (b : list Z) : Prop :=
  ws <> [] /\ exists fs, Forall3 cql_field ws l fs /\ b = concat (map field_bytes fs).

(** Names that are not array indexes keep their order. *)
Definition plain_names (names : list jsstr) : Prop := NoDup names /\ Forall (fun k => array_index_key k = None) names.

(** The bytes of a native value of a type.  The keys of maps are text, and the
    fields of tuples are not null. *)
Fixpoint cql_wire (t : column_type) (v : cql_value) (b : list Z) {struct t} : Prop :=
  match t, v with
  | TSimple c, _ => cql_single c v b
  | TList sub, CList l | TSet sub, CSet l => l <> [] /\ list_wire E (cql_wire sub) l b
  | TMap k w, CMap entries =>
      (k = TSimple 1 \/ k = TSimple 10 \/ k = TSimple 13) /\ plain_names (map (fun p => cql_text p.1) entries) /\
      map_wire E (cql_wire k) (cql_wire w) entries b
  | TTuple ts, CTuple l => Forall is_Some l /\ cql_fields (map cql_wire ts) l b
  | TUdt _ _ fields, CUdt entries =>
      map fst entries = map fst fields /\ plain_names (map fst fields) /\
      cql_fields (map (fun f => match f with (_, t) => cql_wire t end) fields) (map snd entries) b
  | TVector sub dimension, CVector l =>
      l <> [] /\ dimension = Int (Z.of_nat (length l)) /\ (exists name, getDataTypeNameByCode sub = Ok name) /\
      exists size bs es, serializationSizeIfFixed sub = Ok size /\ Forall2 (cql_wire sub) l bs /\
        Forall2 (vector_item size) bs es /\ b = concat es
  | _, _ => False
  end.
End format.

(** ** Reading *)

Section reading.
Context `{LongLaws} (E : Encoder).

Let opts : encoding_options := encodingOptions E.

(** What is read from a native value. *)
Definition reads (t : column_type) (c : cql_value) (b : list Z) : Prop :=
  exists v, getCqlObject (to_napi c) t = Ok v /\ wire E t v b.

Lemma long_value_bytes z :
  is_int64 z -> exists low high, long_value (bigintToLong z) = VLong low high false /\ is_int32 low /\ is_int32 high /\
    be_bytes 4 high ++ be_bytes 4 low = be_bytes 8 z.
Proof.
  intros Hz. destruct (bigintToLong_spec z Hz) as [Ev Eu]. set (x := bigintToLong z) in *.
  exists (Long_getLowBits x), (Long_getHighBits x). unfold long_value. rewrite Eu.
  rewrite !long_getLowBits_eq, !long_getHighBits_eq. split_and!; [done|apply to_int32_range|apply to_int32_range|].
  rewrite be_bytes_halves, to_int32_mod. apply be_bytes_mod. change (2 ^ (8 * Z.of_nat 8)) with (2 ^ 32 * 2 ^ 32).
  rewrite long_val_signed in Ev by done. unfold signed64 in Ev. pose proof (long_bits_range x) as R.
  pose proof (to_int32_mod (long_bits x / 2 ^ 32)) as M. unfold is_int64 in Hz.
  destruct (Z.ltb_spec (long_bits x) (2 ^ 63)); div_lia.
Qed.

Lemma decimal_bytes scale i :
  Integer_wf i -> is_int32 scale ->
  BigDecimal_fromBuffer (be_bytes 4 scale ++ Integer_toBuffer i) = Ok (mkBigDecimal i scale).
Proof.
  intros W S. unfold BigDecimal_fromBuffer.
  assert (Ew : writeInt 4 scale = Ok (be_bytes 4 scale)).
  { unfold writeInt, is_int32 in *. change (2 ^ (8 * Z.of_nat 4 - 1)) with (2 ^ 31).
    destruct (Z.leb_spec (- 2 ^ 31) scale), (Z.ltb_spec scale (2 ^ 31)); done || lia. }
  pose proof (readInt_writeInt 4 scale _ [] (Integer_toBuffer i) ltac:(lia) Ew) as Er. cbn [app length] in Er.
  rewrite Er, bind_ok_l. rewrite drop_app_length' by (by rewrite length_be_bytes). do 2 f_equal.
  destruct (Integer_toBuffer_spec i W) as (B & N & V). destruct (Integer_fromBuffer_spec _ B N) as [W2 V2].
  apply Integer_val_inj; [done|done|by rewrite V2].
Qed.

Lemma single_reads n c b : useBigIntAsLong opts = false -> cql_single E n c b -> reads (TSimple n) c b.
Proof.
  intros Ho Hc. destruct Hc; unfold reads; cbn [to_napi getCqlObject getCqlSingle wire].
  - eexists. split; [done|]. by constructor.
  - destruct (long_value_bytes z) as (low & high & -> & Hl & Hh & <-); [done|]. eexists. split; [done|]. by constructor; [left| | |].
  - eexists. split; [done|]. constructor. by right.
  - eexists. split; [done|]. constructor.
  - rewrite decimal_bytes by done. eexists. split; [done|]. apply (W_decimal E (mkBigDecimal i scale)). by constructor.
  - eexists. split; [done|]. by constructor.
  - eexists. split; [done|]. by constructor.
  - eexists. split; [done|]. apply (W_fixed E 9 4); [by left|done].
  - eexists. split; [done|]. apply (W_fixed E 19 2); [by right; left|done].
  - eexists. split; [done|]. apply (W_fixed E 20 1); [by right; right|done].
  - exists (VString s). split; [by destruct H1 as [-> | ->]|]. by constructor.
  - eexists. split; [done|]. unfold date_of. rewrite round53_id by lia.
    destruct (Z.leb_spec (Z.abs t) 8640000000000000); [|lia]. by constructor.
  - unfold Uuid_new. rewrite H1. eexists. split; [done|]. by constructor.
  - unfold Uuid_new. rewrite H1. eexists. split; [done|]. by constructor.
  - eexists. split; [done|]. by constructor.
  - unfold InetAddress_new. assert (((length b =? 4) || (length b =? 16))%nat = true) as -> by (by destruct H1 as [-> | ->]).
    eexists. split; [done|]. by constructor.
  - destruct (proj1 (LocalDate_newDays_civil (days - 2 ^ 31))) as (x & Hx & _); [unfold minDay, maxDay; lia|]. rewrite Hx.
    eexists. split; [done|]. replace (be_bytes 4 days) with (be_bytes 4 (days - 2 ^ 31 + 2 ^ 31)) by (f_equal; lia). by constructor.
  - destruct (time_in_range_bounds v H1) as [_ Hv]. rewrite LocalTime_new_bigint, H1 by done. eexists. split; [done|]. by constructor.
  - unfold DurationWrapper_new. destruct H1 as (Hm & Hd & Hn). cbn in Hm, Hd, Hn.
    rewrite (proj2 (bigint_to_i64_ok n n)), !to_int32_id by done. eexists. split; [done|]. constructor. done.
Qed.

Lemma to_napi_present c : to_napi c <> NNull.
Proof. by destruct c. Qed.

(** The elements of a list, one by one. *)
Lemma traverse_reads sub l bs (W : cql_value -> list Z -> Prop) :
  (forall c b, W c b -> reads sub c b) -> Forall2 W l bs ->
  exists vs, traverse id (map (fun v => getCqlObject v sub) (map to_napi l)) = Ok vs /\ Forall2 (wire E sub) vs bs.
Proof.
  intros IH. induction 1 as [|c b l bs Hc _ (vs & Hvs & Hw)]; [by exists []|].
  destruct (IH c b Hc) as (v & Hv & Hb). exists (v :: vs). split; [|by constructor]. cbn. unfold id in *. rewrite Hv. cbn. by rewrite Hvs.
Qed.

Lemma list_reads sub l b :
  (forall c b, cql_wire E sub c b -> reads sub c b) -> list_wire E (cql_wire E sub) l b ->
  exists vs, traverse id (map (fun v => getCqlObject v sub) (map to_napi l)) = Ok vs /\ length vs = length l /\
    list_wire E (wire E sub) vs b.
Proof.
  intros IH (Hf & bs & Hl & ->).
  destruct (traverse_reads sub l bs (fun c b => cql_wire E sub c b /\ fits E (length b))) as (vs & Hvs & Hw); [naive_solver|done|].
  pose proof (Forall2_length _ _ _ Hl). pose proof (Forall2_length _ _ _ Hw).
  exists vs. split_and!; [done|lia|]. split; [by replace (length vs) with (length l) by lia|]. exists bs. split; [|done].
  clear -Hl Hw. revert l Hl. induction Hw as [|v b vs bs Hv _ IHv]; intros l Hl; [constructor|].
  apply Forall2_cons_inv_r in Hl as (c & l' & [_ Hc] & Hl & ->). constructor; [done|eauto].
Qed.

(** The fields of a tuple or of a user-defined type, with their types. *)
Lemma field_reads t o f :
  (forall c b, cql_wire E t c b -> reads t c b) -> cql_field (cql_wire E t) o f ->
  exists v, match o with Some x => getCqlObject (to_napi x) t | None => Ok VNull end = Ok v /\ field_wire (wire E t) v f.
Proof.
  intros IH [Ho Hf]. destruct o as [c|], f as [b|]; try done.
  - destruct (IH c b Ho) as (v & Hv & Hw). exists v. done.
  - by exists VNull.
Qed.

(** A null element of a tuple becomes undefined. *)
Definition null_undefined (o : option cql_value) (v : value) : value := match o with Some _ => v | None => VUndefined end.

Lemma null_undefined_present l vs : Forall is_Some l -> length vs = length l -> zip_with null_undefined l vs = vs.
Proof.
  intros Hl. revert vs. induction Hl as [|o l [c ->] _ IH]; intros [|v vs] Hlen; try done. cbn. f_equal. apply IH. by injection Hlen.
Qed.

Lemma tuple_reads ts l fs :
  Forall (fun t => forall c b, cql_wire E t c b -> reads t c b) ts ->
  Forall3 cql_field (map (cql_wire E) ts) l fs ->
  exists vs, (fix elements l ts := match l with
       | [] => Ok []
       | x :: l' =>
           v ← match x with NNull => Ok VUndefined | _ => match ts with t :: _ => getCqlObject x t | [] => Throw TypeError end end;
           rest ← elements l' (tail ts); Ok (v :: rest)
       end) (map (fun o => match o with Some x => to_napi x | None => NNull end) l) ts = Ok (zip_with null_undefined l vs) /\
    Forall3 field_wire (map (wire E) ts) vs fs /\ length vs = length l /\ Forall2 (fun o v => o = None -> v = VNull) l vs.
Proof.
  intros IH. revert l fs. induction IH as [|t ts Ht _ IHts]; intros l fs Hfs.
  - inversion Hfs; subst. exists []. split_and!; [done|constructor|done|constructor].
  - cbn [map] in Hfs. apply Forall3_cons_inv_l in Hfs as (o & l' & f & fs' & -> & -> & Ho & Hfs).
    destruct (field_reads t o f Ht Ho) as (v & Hv & Hw).
    destruct (IHts l' fs' Hfs) as (vs & Hvs & Hws & Hlen & Hnull). exists (v :: vs). cbn [map tail zip_with].
    assert (Hp : match match o with Some x => to_napi x | None => NNull end with
                 | NNull => Ok VUndefined
                 | _ => getCqlObject match o with Some x => to_napi x | None => NNull end t
                 end = Ok (null_undefined o v)).
    { destruct o as [c|]; [|done]. cbn [null_undefined]. rewrite <- Hv. pose proof (to_napi_present c). by destruct (to_napi c). }
    rewrite Hp, bind_ok_l, Hvs, bind_ok_l. split_and!; [done|by constructor|cbn; lia|].
    constructor; [|done]. intros ->. by injection Hv.
Qed.

(** The entries of an object with the functions that read them. *)
Definition readers (entries : list (jsstr * option cql_value)) : list (jsstr * (column_type -> result value)) :=
  map (fun e => match e with (k, x) => (k, fun t => getCqlObject x t) end)
    (map (fun f => match f with (k, o) => (k, match o with Some x => to_napi x | None => NNull end) end) entries).

Lemma readers_names entries : map fst (readers entries) = map fst entries.
Proof. unfold readers. rewrite !map_map. apply map_ext. by intros []. Qed.

Lemma udt_reads fields entries fs :
  Forall (fun f => forall c b, cql_wire E f.2 c b -> reads f.2 c b) fields -> map fst entries = map fst fields ->
  Forall3 cql_field (map (fun f => match f with (_, t) => cql_wire E t end) fields) (map snd entries) fs ->
  exists props, typed_fields (readers entries) fields = Ok props /\ map fst props = map fst fields /\
    Forall3 field_wire (map (fun f => match f with (_, t) => wire E t end) fields) (map snd props) fs.
Proof.
  intros IH. revert entries fs. induction IH as [|[k t] fields Ht _ IHf]; intros [|[k' o] entries] fs Hn Hfs; try done.
  - inversion Hfs; subst. exists []. split_and!; [done|done|constructor].
  - cbn [map fst snd] in *. injection Hn as -> Hn. apply Forall3_cons_inv_l in Hfs as (o' & l' & f & fs' & [= <- <-] & -> & Ho & Hfs).
    destruct (field_reads t o f Ht Ho) as (v & Hv & Hw). destruct (IHf entries fs' Hn Hfs) as (props & Hp & Hpn & Hpw).
    exists ((k, v) :: props). cbn [readers map typed_fields].
    replace (getCqlObject match o with Some x => to_napi x | None => NNull end t) with (Ok v) by (rewrite <- Hv; by destruct o).
    rewrite bind_ok_l. unfold readers in Hp. rewrite Hp, bind_ok_l. cbn [map fst snd]. split_and!; [done|by rewrite Hpn|by constructor].
Qed.

(** A key of a map is read as its text. *)
Lemma key_reads k c b :
  k = TSimple 1 \/ k = TSimple 10 \/ k = TSimple 13 -> cql_wire E k c b ->
  getCqlObject (to_napi c) k = Ok (VString (cql_text c)) /\ wire E k (VString (cql_text c)) b.
Proof.
  intros [-> | [-> | ->]] Hc; cbn [cql_wire] in Hc; inversion Hc; subst; cbn; (split; [done|constructor]); naive_solver.
Qed.

(** An entry of a map. *)
Definition read_entry (k w : column_type) (p : native) : result (jsstr * value) :=
  match p with
  | NArray (a :: b :: _) => x ← getCqlObject a k; y ← getCqlObject b w; key ← key_of_value x; Ok (key, y)
  | _ => Throw TypeError
  end.

Lemma map_reads k w entries b :
  k = TSimple 1 \/ k = TSimple 10 \/ k = TSimple 13 -> (forall c b, cql_wire E w c b -> reads w c b) ->
  map_wire E (cql_wire E k) (cql_wire E w) entries b ->
  exists props, traverse id (map (read_entry k w) (map (fun p => match p with (x, y) => NArray [to_napi x; to_napi y] end) entries)) = Ok props /\
    map fst props = map (fun p => cql_text p.1) entries /\
    map_wire E (wire E k) (wire E w) (map (fun p => (VString p.1, p.2)) props) b.
Proof.
  intros Hk IH (Hf & bs & Hl & ->).
  assert (G : exists props, traverse id (map (read_entry k w) (map (fun p => match p with (x, y) => NArray [to_napi x; to_napi y] end) entries)) = Ok props /\
    map fst props = map (fun p => cql_text p.1) entries /\
    Forall2 (fun kv c => (wire E k kv.1 c.1 /\ fits E (length c.1)) /\ (wire E w kv.2 c.2 /\ fits E (length c.2)))
      (map (fun p => (VString p.1, p.2)) props) bs).
  { clear Hf. induction Hl as [|[x y] [bx cy] entries bs [[Wx Fx] [Wy Fy]] _ (props & Hp & Hn & Hw)]; [by exists []|].
    cbn [fst snd] in *. destruct (key_reads k x bx Hk Wx) as [Ek Wk]. destruct (IH y cy Wy) as (v & Ev & Wv).
    exists ((cql_text x, v) :: props). cbn [map]. split_and!; [|cbn [map fst]; by rewrite Hn|by constructor].
    cbn [traverse read_entry]. unfold id in *. rewrite Ek, bind_ok_l, Ev, bind_ok_l. cbn [key_of_value]. rewrite !bind_ok_l, Hp. done. }
  destruct G as (props & Hp & Hn & Hw). exists props. split_and!; [done|done|]. split; [|by exists bs].
  rewrite length_map. pose proof (f_equal length Hn) as Hlen. rewrite !length_map in Hlen. by rewrite Hlen.
Qed.

Lemma readers_plain entries : Forall (fun k => array_index_key k = None) (map fst entries) -> own_order (readers entries) = readers entries.
Proof.
  intros Hp. apply own_order_plain. rewrite <- readers_names in Hp. by apply Forall_map in Hp.
Qed.

Lemma props_plain (props : obj value) :
  plain_names (map fst props) -> own_order (foldl (fun res kv => obj_set res kv.1 kv.2) [] props) = props.
Proof.
  intros [Hd Hp]. rewrite foldl_obj_set by done. cbn [app]. apply own_order_plain. by apply Forall_map in Hp.
Qed.

Lemma fields_none (ws : list (cql_value -> list Z -> Prop)) l fs : ws <> [] -> Forall3 cql_field ws l fs -> l <> [].
Proof. by destruct 2. Qed.

(** Every type, by its parts. *)
Lemma cql_reads t c b :
  useBigIntAsLong opts = false -> opt_map opts = false -> opt_set opts = false ->
  cql_wire E t c b -> reads t c b.
Proof.
  intros Hlong Hmap Hset. revert c b. induction t as [n|t IH|t IH|k w IHk IHw|ts IH|ks name fields IH|name|t d IH|i] using column_type_nested_ind;
    intros c b W; cbn [cql_wire] in W.
  - by apply single_reads.
  - destruct c as [| | | | | | | | | | | | | |l| | | | | | | | | | |]; try done. destruct W as [Hne W].
    destruct (list_reads t l b IH W) as (vs & Hvs & Hlen & Hw). exists (VArray vs). cbn [to_napi getCqlObject].
    rewrite Hvs. split; [done|]. split; [by destruct vs, l|done].
  - destruct c as [| | | | | | | | | | | | | | | |l| | | | | | | | |]; try done. destruct W as [Hne W].
    destruct (list_reads t l b IH W) as (vs & Hvs & Hlen & Hw). exists (VArray vs). cbn [to_napi getCqlObject].
    rewrite Hvs. split; [done|]. split_and!; [done|by destruct vs, l|done].
  - destruct c as [| | | | | | | | | | | | | | |entries| | | | | | | | | |]; try done. destruct W as (Hk & Hp & W).
    destruct (map_reads k w entries b Hk IHw W) as (props & Hprops & Hn & Hw). exists (VObject props).
    cbn [to_napi getCqlObject]. fold (read_entry k w). rewrite <- Hn in Hp.
    split; [|cbn [wire]; split_and!; [done|done|by destruct Hp|done]].
    transitivity (entries' ← traverse id (map (read_entry k w) (map (fun p => match p with (x, y) => NArray [to_napi x; to_napi y] end) entries));
      Ok (VObject (own_order (foldl (fun res kv => obj_set res kv.1 kv.2) [] entries')))); [reflexivity|].
    rewrite Hprops, bind_ok_l. by rewrite props_plain.
  - destruct c as [| | | | | | | | | | | | | | | | | | | | | |l| | |]; try done. destruct W as (Hl & Hne & fs & Hfs & ->).
    destruct (tuple_reads ts l fs IH Hfs) as (vs & Hvs & Hw & Hlen & _). exists (VTuple vs). cbn [to_napi getCqlObject].
    rewrite Hvs, bind_ok_l, null_undefined_present by done. split; [|cbn [wire]; split; [by destruct ts|by exists fs]].
    pose proof (fields_none _ _ _ Hne Hfs). by destruct vs, l.
  - destruct c as [| | | | | | | | | | | | | | | | |entries| | | | | | | |]; try done. destruct W as (Hn & Hp & Hne & fs & Hfs & ->).
    destruct (udt_reads fields entries fs IH Hn Hfs) as (props & Hprops & Hpn & Hw). exists (VObject props).
    cbn [to_napi getCqlObject]. split.
    + transitivity (VObject <$> typed_fields (own_order (readers entries)) fields); [reflexivity|].
      destruct Hp as [_ Hp]. rewrite readers_plain by (by rewrite Hn). by rewrite Hprops.
    + cbn [wire]. split_and!; [done|by destruct Hp|]. split; [by destruct fields|by exists fs].
  - by destruct c.
  - destruct c as [| | | | | | | | | | | | | | | | | | | | | | | | |l]; try done.
    destruct W as (Hne & -> & (name & Hname) & size & bs & es & Hs & Hl & He & ->).
    destruct (traverse_reads t l bs _ IH Hl) as (vs & Hvs & Hw). exists (VVector vs (Some name)). cbn [to_napi getCqlObject].
    assert (Hlen : length vs = length l) by (rewrite (Forall2_length _ _ _ Hw); symmetry; by eapply Forall2_length).
    rewrite Hvs, bind_ok_l, Hname, bind_ok_l. split; [by destruct vs, l|]. cbn [wire].
    split_and!; [by destruct vs, l|do 2 f_equal; by rewrite Hlen|by exists name|]. exists size, bs, es. done.
  - by destruct c.
Qed.

(** A tuple with null elements. *)
Lemma null_tuple_reads ts l b :
  useBigIntAsLong opts = false -> opt_map opts = false -> opt_set opts = false ->
  cql_fields (map (cql_wire E) ts) l b ->
  exists vs, getCqlObject (to_napi (CTuple l)) (TTuple ts) = Ok (VTuple (zip_with null_undefined l vs)) /\
    wire E (TTuple ts) (VTuple vs) b /\ Forall2 (fun o v => o = None -> v = VNull) l vs.
Proof.
  intros Hlong Hmap Hset (Hne & fs & Hfs & ->).
  assert (IH : Forall (fun t => forall c b, cql_wire E t c b -> reads t c b) ts).
  { apply Forall_true. intros t c b. by apply cql_reads. }
  destruct (tuple_reads ts l fs IH Hfs) as (vs & Hvs & Hw & Hlen & Hnull). exists vs. cbn [to_napi getCqlObject].
  rewrite Hvs, bind_ok_l. pose proof (fields_none _ _ _ Hne Hfs). split; [by destruct vs, l|]. split; [|done].
  cbn [wire]. split; [by destruct ts|by exists fs].
Qed.
End reading.

(** An undefined element of a tuple is written as a null one. *)
Lemma encode_null_undefined `{LongLib} alloc scratch toString_ toFixed20 E ts l vs :
  Forall2 (fun o v => o = None -> v = VNull) l vs ->
  encode alloc scratch toString_ toFixed20 E (VTuple (zip_with null_undefined l vs)) (HintType (TTuple ts)) =
  encode alloc scratch toString_ toFixed20 E (VTuple vs) (HintType (TTuple ts)).
Proof.
  intros Hnull. cbn. unfold encodeTuple.
  f_equal. revert ts. induction Hnull as [|o v l vs Hv _ IH]; intros [|t ts]; [done..|]. cbn [zip_with map traverse].
  rewrite (IH ts). destruct o as [c|]; [done|]. rewrite (Hv eq_refl). f_equal. cbn.
  unfold encode_undefined, encode_unset. change (Version.supportsUnset (protocolVersion E)) with (4 <=? protocolVersion E).
  destruct (useUndefinedAsUnset _), (4 <=? protocolVersion E); done.
Qed.

(** C2: what a query returned can be written back, where it can.  First, when
    the options [useBigIntAsLong], [map] and [set] are not set: a native value
    that [cql_wire] gives bytes for (every type with nesting, but no counter, no
    varint unless BigInts are used for them, no timestamp that a Date cannot
    hold; lists, sets, vectors and tuples are not empty, tuples have no null, the keys of
    maps are distinct text, and these and the names of fields are not array indexes) is
    given to the user as the value that [decode] gives for the bytes, and
    [encode] with the column's type gives the bytes again.  Second, the null
    elements of a tuple are read as undefined, where [decode] gives null; the
    bytes that are written are the same.  Then what is not written back: a
    counter is read as a BigInt, which is a TypeError unless [useBigIntAsLong];
    a varint likewise unless [useBigIntAsVarint]; with [useBigIntAsLong] a
    bigint is still read as a Long, and is then a TypeError; and an empty list
    or set is read as an empty array and written as null. *)
Theorem read_write `{LongLaws} (alloc scratch : list Z) (toString_ toFixed20 : number -> jsstr) (E : Encoder)
    (Hscratch : (9 <= length scratch)%nat) :
  let read c t := getCqlObject (to_napi c) t in
  let written v t := encode alloc scratch toString_ toFixed20 E v (HintType t) in
  let o := encodingOptions E in
  (useBigIntAsLong o = false -> opt_map o = false -> opt_set o = false ->
   (forall (type : complex_type) (c : cql_value) (b : list Z), cql_wire E (convertComplexType type) c b ->
      exists v, read c (convertComplexType type) = Ok v /\
        decode E (convertComplexType type) (Some b) = Ok v /\
        written v (convertComplexType type) = Ok (EBuffer b)) /\
   (forall (types : list complex_type) (l : list (option cql_value)) (b : list Z),
      let ts := map convertComplexType types in
      cql_fields (map (cql_wire E) ts) l b ->
      exists vs, read (CTuple l) (TTuple ts) = Ok (VTuple (zip_with null_undefined l vs)) /\
        Forall2 (fun o v => o = None -> v = VNull) l vs /\
        decode E (TTuple ts) (Some b) = Ok (VTuple vs) /\
        written (VTuple (zip_with null_undefined l vs)) (TTuple ts) = Ok (EBuffer b))) /\
  (forall z, is_int64 z -> read (CCounter z) (TSimple 5) = Ok (VBigInt z) /\
     written (VBigInt z) (TSimple 5) = if useBigIntAsLong o then Ok (EBuffer (be_bytes 8 z)) else Throw TypeError) /\
  (forall z, read (CVarint z) (TSimple 14) = Ok (VBigInt z) /\
     (useBigIntAsVarint o = false -> written (VBigInt z) (TSimple 14) = Throw TypeError)) /\
  (forall z, useBigIntAsLong o = true -> exists v, read (CBigInt z) (TSimple 2) = Ok v /\ written v (TSimple 2) = Throw TypeError) /\
  (forall t, read (CList []) (TList t) = Ok (VArray []) /\ written (VArray []) (TList t) = Ok ENull /\
     read (CSet []) (TSet t) = Ok (VArray []) /\ written (VArray []) (TSet t) = Ok ENull).
Proof.
  cbv zeta. split_and!.
  - intros Hl Hm Hs. split; [intros type c b W|intros types l b W].
    + destruct (cql_reads E _ c b Hl Hm Hs W) as (v & Hv & Hw). exists v.
      destruct (wire_codec alloc scratch toString_ toFixed20 E Hscratch _ v b Hw) as [Ee De _ _]. split_and!; [done|apply De|done].
    + destruct (null_tuple_reads E _ l b Hl Hm Hs W) as (vs & Hvs & Hw & Hnull). exists vs.
      destruct (wire_codec alloc scratch toString_ toFixed20 E Hscratch _ _ b Hw) as [Ee De _ _].
      split_and!; [done|done|apply De|by rewrite encode_null_undefined].
  - intros z Hz. split; [done|]. transitivity (EBuffer <$> encodeLong E (VBigInt z)); [done|].
    destruct (useBigIntAsLong (encodingOptions E)) eqn:O.
    + destruct (encode_long_bigint scratch E Hscratch z O Hz) as [-> _]. done.
    + unfold encodeLong. by rewrite O.
  - intros z. split; [done|]. intros O. transitivity (EBuffer <$> encodeVarint E (VBigInt z)); [done|].
    unfold encodeVarint. by rewrite O.
  - intros z O. exists (long_value (bigintToLong z)). split; [done|].
    transitivity (EBuffer <$> encodeLong E (long_value (bigintToLong z))); [done|]. unfold encodeLong. by rewrite O.
  - by intros t.
Qed.

Lemma read_write_witness :
  let type := CMapType (CNative 13) (CListType (CUdtType (str "ks") (str "u") [(str "a", CNative 9); (str "b", CNative 2)])) in
  let c := CMap [(CText (str "k"), CList [CUdt [(str "a", Some (CInt (-2))); (str "b", None)]])] in
  let b := [0; 0; 0; 1; 0; 0; 0; 1; 107; 0; 0; 0; 20; 0; 0; 0; 1; 0; 0; 0; 12; 0; 0; 0; 4; 255; 255; 255; 254; 255; 255; 255; 255] in
  exists v, getCqlObject (H := LongModel) (to_napi c) (convertComplexType type) = Ok v /\
    encode (H := LongModel) [] (replicate 9 0) (fun _ => []) (fun _ => []) (mkEncoder (mkEncodingOptions false false true false false) 4) v
      (HintType (convertComplexType type)) = Ok (EBuffer b).
Proof.
  intros type c b.
  destruct (read_write (H := LongModel) [] (replicate 9 0) (fun _ => []) (fun _ => [])
    (mkEncoder (mkEncodingOptions false false true false false) 4)) as [G _].
  { rewrite length_replicate. lia. }
  destruct (proj1 (G eq_refl eq_refl eq_refl) type c b) as (v & Hv & _ & He); [|by exists v].
  cbn [type convertComplexType map cql_wire]. split_and!; [by right; right| |].
  { split; [apply NoDup_singleton|]. apply Forall_singleton. vm_compute. reflexivity. }
  split; [vm_compute; done|]. exists [([107], [0; 0; 0; 1; 0; 0; 0; 12; 0; 0; 0; 4; 255; 255; 255; 254; 255; 255; 255; 255])].
  split; [|vm_compute; reflexivity]. constructor; [|constructor]. cbn [fst snd]. split.
  { split; [apply (C_text _ 13 (str "k")); by right|vm_compute; done]. }
  split; [|vm_compute; done]. split; [done|]. split; [vm_compute; done|].
  exists [[0; 0; 0; 4; 255; 255; 255; 254; 255; 255; 255; 255]]. split; [|vm_compute; reflexivity].
  constructor; [|constructor]. split; [|vm_compute; done]. split_and!; [done| |].
  { split; [apply (bool_decide_unpack _); vm_compute; exact I|]. repeat (constructor; [vm_compute; reflexivity|]). constructor. }
  split; [done|]. exists [Some [255; 255; 255; 254]; None]. split; [|vm_compute; reflexivity].
  constructor; [|constructor; [|constructor]].
  + split; [apply (C_int _ (-2)); lia|vm_compute; done].
  + by split.
Defined.

(** A field whose name is an array index is enumerated first, and gets the type
    of another field. *)
Lemma udt_index_field `{LongLib} :
  getCqlObject (to_napi (CUdt [(str "b", Some (CInt 7)); (str "1", Some (CText (str "x")))]))
    (TUdt [] (str "u") [(str "b", TSimple 9); (str "1", TSimple 13)]) =
    Ok (VObject [(str "1", VString (str "x")); (str "b", VNumber (Int 7))]) /\
  getCqlObject (to_napi (CUdt [(str "b", Some (CInt 7)); (str "1", Some (CUuid (replicate 16 0)))]))
    (TUdt [] (str "u") [(str "b", TSimple 9); (str "1", TSimple 12)]) = Throw TypeError.
Proof. split; vm_compute; reflexivity. Qed.

(** ** Rows *)

Section rows.
Context `{LongLib}.

Lemma collect_row_cells cols names types cells out :
  length cols = length names -> NoDup names -> (forall n, n ∈ names -> n ∉ map fst cells) ->
  collect_row cols names types cells = Ok out ->
  (forall n, n ∉ names -> obj_get out n = obj_get cells n) /\
  forall i x n t, cols !! i = Some x -> names !! i = Some n -> types !! i = Some t ->
    exists v, getCqlObject x t = Ok v /\ obj_get out n = Some v.
Proof.
  revert names types cells. induction cols as [|x cols IH]; intros [|n names] types cells Hlen Hd Hnew Hout; try done.
  - injection Hout as <-. split; [done|]. by intros [].
  - destruct types as [|t types]; [done|]. cbn [collect_row] in Hout. apply bind_ok in Hout as (v & Hv & Hout).
    apply NoDup_cons in Hd as [Hn Hd]. rewrite obj_set_new in Hout by (apply Hnew; left).
    destruct (IH names types (cells ++ [(n, v)])) as [Hother Hcells]; [by injection Hlen|done| |done|].
    { intros m Hm. rewrite map_app. cbn [map fst]. rewrite not_elem_of_app, not_elem_of_cons. split_and!.
      - apply Hnew. by right.
      - by intros ->.
      - apply not_elem_of_nil. }
    assert (Hsnoc : forall m, m <> n -> obj_get (cells ++ [(n, v)]) m = obj_get cells m).
    { intros m Hm. rewrite <- obj_set_new by (apply Hnew; left). rewrite obj_get_set. by rewrite decide_False. }
    split.
    + intros m [Hm1 Hm2]%not_elem_of_cons. rewrite Hother by done. by apply Hsnoc.
    + intros [|i] y m t' Hy Hm Ht'; [|by eapply Hcells]. injection Hy as <-. injection Hm as <-. injection Ht' as <-.
      exists v. split; [done|]. rewrite Hother by done. rewrite <- obj_set_new by (apply Hnew; left).
      rewrite obj_get_set. by rewrite decide_True.
Qed.

(** the rows of a result are those of the native result, in its order;
    each cell, by the name of its column and by its index, is the native value
    read with the type of the column. *)
Theorem rows_of_result (r : native_result) (rustRows : list (list native)) (rows : list Row) :
  nr_rows r = Some rustRows -> NoDup (getColumnsNames r) ->
  Forall (fun cols => length cols = length (nr_columns r)) rustRows ->
  getRowsFromResultsWrapper r = Ok (Some rows) ->
  Forall2 (fun cols row => forall i x n type,
    cols !! i = Some x -> getColumnsNames r !! i = Some n -> getColumnsTypes r !! i = Some type ->
    exists v, getCqlObject x (convertComplexType type) = Ok v /\
      Row_get row (inl n) = Ok v /\ Row_get row (inr i) = Ok v) rustRows rows.
Proof.
  intros Hr Hd Hlen Hrows. unfold getRowsFromResultsWrapper in Hrows. rewrite Hr in Hrows.
  apply bind_ok in Hrows as (rows' & Ht & [= <-]). apply traverse_ok in Ht.
  apply (Forall2_impl (fun cols row => length cols = length (nr_columns r) /\
    mkRow (getColumnsNames r) <$> collect_row cols (getColumnsNames r) (map convertComplexType (getColumnsTypes r)) [] = Ok row)).
  { clear -Ht Hlen. induction Ht as [|? ? ? ? Hx _ IH]; [constructor|]. apply Forall_cons in Hlen as [H1 H2]. constructor; auto. }
  intros cols row [Hl Hrow] i x n type Hx Hn Htype.
  destruct (collect_row cols _ _ []) as [cells|] eqn:Hc; [|done]. injection Hrow as <-.
  destruct (collect_row_cells cols (getColumnsNames r) (map convertComplexType (getColumnsTypes r)) [] cells) as [_ Hcells];
    [by unfold getColumnsNames; rewrite length_map|done|by intros; apply not_elem_of_nil|done|].
  destruct (Hcells i x n (convertComplexType type) Hx Hn) as (v & Hv & Hg).
  { by rewrite lookup_map, Htype. }
  exists v. unfold Row_get. cbn [row_columns row_cells]. by rewrite Hn, Hg.
Qed.
End rows.

(** ** Pages *)

(** The pages up to the first empty one, which is among them. *)
Fixpoint until_empty {A} (rows : A -> list Row) (pages : list A) : list A :=
  match pages with [] => [] | p :: pages' => p :: match rows p with [] => [] | _ => until_empty rows pages' end end.

Lemma until_empty_id {A} (rows : A -> list Row) pages : Forall (fun p => rows p <> []) pages -> until_empty rows pages = pages.
Proof. induction 1 as [|p pages Hp _ IH]; [done|]. cbn [until_empty]. rewrite IH. by destruct (rows p). Qed.

Section pages.
Context {W : Type} (fetch : option (list Z -> W -> Prelude.result ResultSet * W)).

(** The pages of a query: a result set, the state of the world, the rows of the
    pages from this one on, and the state once all are fetched. *)
Inductive pages_of : ResultSet -> W -> list (list Row) -> W -> Prop :=
  | last_page rs w rows : rs_rawPageState rs = None -> rs_rows rs = Some rows -> pages_of rs w [rows] w
  | next_page rs w rows f state rs' w' pages w'' :
      rs_rawPageState rs = Some state -> rs_rows rs = Some rows -> fetch = Some f -> f state w = (Ok rs', w') ->
      pages_of rs' w' pages w'' -> pages_of rs w (rows :: pages) w''.

(** The pages that an iterator reads: it fetches none after an empty one. *)
Inductive pages_read : ResultSet -> W -> list (list Row) -> W -> Prop :=
  | read_last rs w rows : rs_rawPageState rs = None \/ rows = [] -> rs_rows rs = Some rows -> pages_read rs w [rows] w
  | read_next rs w rows f state rs' w' pages w'' :
      rs_rawPageState rs = Some state -> rs_rows rs = Some rows -> rows <> [] -> fetch = Some f -> f state w = (Ok rs', w') ->
      pages_read rs' w' pages w'' -> pages_read rs w (rows :: pages) w''.

Lemma pages_of_read rs w pages w_end :
  pages_of rs w pages w_end ->
  exists w', pages_read rs w (until_empty id pages) w' /\ (Forall (fun rows => rows <> []) pages -> w' = w_end).
Proof.
  induction 1 as [rs w rows Hs Hr|rs w rows f state rs' w' pages w'' Hs Hr Hf Hfs _ (w1 & Hp & He)].
  - exists w. split; [|done]. destruct rows; apply read_last; auto.
  - destruct rows as [|r rows].
    + exists w. split; [apply read_last; auto|]. by intros []%Forall_cons.
    + exists w1. split; [by eapply read_next|]. intros []%Forall_cons. auto.
Qed.

(** What a [for await] loop gets, with fuel. *)
Fixpoint drain (fuel : nat) (it : async_iterator) (w : W) : option (list Row * W) :=
  match fuel with
  | O => None
  | S fuel' =>
      match async_next fetch it w with
      | (Ok (Some r, it'), w') => (fun z => (r :: z.1, z.2)) <$> drain fuel' it' w'
      | (Ok (None, _), w') => Some ([], w')
      | (Throw _, _) => None
      end
  end.

Definition for_await (fuel : nat) (rs : ResultSet) (w : W) : option (list Row * W) :=
  match asyncIterator rs with None => Some ([], w) | Some it => drain fuel it w end.

(** The pages before the first empty one. *)
Fixpoint before_empty (pages : list (list Row)) : list (list Row) :=
  match pages with [] => [] | [] :: _ => [] | rows :: pages' => rows :: before_empty pages' end.

Lemma concat_before_empty pages : concat (until_empty id pages) = concat (before_empty pages).
Proof. induction pages as [|[|r rows] pages IH]; [done..|]. cbn [until_empty before_empty id concat]. by rewrite IH. Qed.

Lemma async_next_row f it w r :
  ai_rows it !! ai_index it = Some r ->
  async_next (W := W) f it w = (Ok (Some r, mkAsyncIterator (S (ai_index it)) (ai_pageState it) (ai_rows it)), w).
Proof.
  intros Hr. unfold async_next. pose proof (lookup_lt_Some _ _ _ Hr). rewrite Hr.
  rewrite (proj2 (Nat.leb_gt _ _)) by lia. by destruct (ai_pageState it).
Qed.

Lemma drain_rows fuel rows i state w rest :
  (i <= length rows)%nat -> drain fuel (mkAsyncIterator (length rows) state rows) w = Some rest ->
  drain (length rows - i + fuel) (mkAsyncIterator i state rows) w = Some (drop i rows ++ rest.1, rest.2).
Proof.
  intros Hi Hrest. remember (length rows - i)%nat as n eqn:Hn. revert i Hi Hn. induction n as [|n IH]; intros i Hi Hn.
  - replace i with (length rows) by lia. rewrite drop_all. by destruct rest.
  - destruct (lookup_lt_is_Some_2 rows i) as [r Hr]; [lia|]. cbn [Nat.add drain].
    rewrite (async_next_row _ _ _ r) by done. cbn [ai_pageState ai_rows ai_index].
    rewrite IH by lia. cbn. by rewrite (drop_S _ _ _ Hr).
Qed.

Lemma drain_pages rs w pages rows w_end :
  pages_read rs w pages w_end -> rs_rows rs = Some rows -> rows <> [] ->
  exists fuel rest, drain fuel (mkAsyncIterator (length rows) (rs_rawPageState rs) rows) w = Some (rest, w_end) /\
    rows ++ rest = concat pages.
Proof.
  intros Hp. revert rows. induction Hp as [rs w rows0 Hs Hr|rs w rows0 f state rs' w' pages w'' Hs Hr Hne Hf Hfs Hp IH]; intros rows Hrows Hn.
  - rewrite Hr in Hrows. injection Hrows as ->. destruct Hs as [Hs|]; [|done].
    exists 1%nat, []. rewrite Hs. cbn [drain async_next ai_pageState ai_rows ai_index]. by rewrite lookup_ge_None_2.
  - rewrite Hr in Hrows. injection Hrows as ->.
    assert (Hr' : exists rows', rs_rows rs' = Some rows' /\ (rows' = [] -> pages = [[]] /\ w'' = w')).
    { inversion Hp as [? ? ? ? Hr'|? ? ? ? ? ? ? ? ? ? Hr']; subst; rewrite Hr'; eexists; (split; [done|]); [by intros ->|done]. }
    destruct Hr' as ([|r rows'] & Hr' & Hempty).
    + destruct (Hempty eq_refl) as [-> ->]. exists 1%nat, []. rewrite Hs.
      cbn [drain async_next ai_pageState ai_rows ai_index]. rewrite Nat.leb_refl, Hf, Hfs, Hr'. done.
    + destruct (IH _ Hr' ltac:(done)) as (fuel & rest & Hd & Hc).
      exists (length (r :: rows') + fuel)%nat, (concat pages). split; [|done]. rewrite <- Hc, Hs.
      pose proof (drain_rows fuel (r :: rows') 0 (rs_rawPageState rs') w' (rest, w'') ltac:(lia) Hd) as G.
      rewrite Nat.sub_0_r, drop_0 in G. cbn [fst snd] in G. rewrite <- G.
      cbn [length Nat.add drain async_next ai_pageState ai_rows ai_index].
      rewrite Nat.leb_refl, Hf, Hfs, Hr'. cbn [lookup list_lookup]. by destruct (rs_rawPageState rs').
Qed.

(** What the loop gets, and the state in which it leaves the world. *)
Lemma for_await_read rs w pages w_end :
  pages_read rs w pages w_end -> exists fuel, for_await fuel rs w = Some (concat pages, w_end).
Proof.
  intros Hp. assert (Hr : exists rows, rs_rows rs = Some rows /\ (rows = [] -> pages = [[]] /\ w_end = w)).
  { inversion Hp as [? ? ? ? Hr|? ? ? ? ? ? ? ? ? ? Hr]; subst; rewrite Hr; eexists; (split; [done|]); [by intros ->|done]. }
  destruct Hr as ([|r rows] & Hr & Hempty); unfold for_await, asyncIterator; rewrite Hr.
  - destruct (Hempty eq_refl) as [-> ->]. by exists O.
  - destruct (drain_pages rs w _ _ _ Hp Hr ltac:(done)) as (fuel & rest & Hd & Hc).
    exists (length (r :: rows) + fuel)%nat. rewrite <- Hc.
    pose proof (drain_rows fuel (r :: rows) 0 (rs_rawPageState rs) w (rest, w_end) ltac:(lia) Hd) as G.
    by rewrite Nat.sub_0_r, drop_0 in G.
Qed.

(** the asynchronous iterator of a result gives the rows of all the pages
    in order, fetching each page once, when it is needed, as long as no page is
    empty; it ends at the first empty page although more may follow. *)
Theorem for_await_pages rs w pages w_end :
  pages_of rs w pages w_end ->
  exists fuel w', for_await fuel rs w = Some (concat (before_empty pages), w') /\
    (Forall (fun rows => rows <> []) pages -> for_await fuel rs w = Some (concat pages, w_end)).
Proof.
  intros (w' & Hp & He)%pages_of_read. destruct (for_await_read _ _ _ _ Hp) as [fuel Hf]. exists fuel, w'.
  split; [by rewrite <- concat_before_empty|]. intros Hne. rewrite Hf, (He Hne). by rewrite until_empty_id.
Qed.
End pages.

(** A world of three pages, the second of which is empty. *)
Definition some_row (n : Z) : Row := mkRow [str "a"] [(str "a", VNumber (Int n))].
Definition some_pages (state : list Z) (w : list (list Row)) : Prelude.result ResultSet * list (list Row) :=
  match w with
  | rows :: w' => (Ok (mkResultSet (Some rows) (length rows) (match w' with [] => None | _ => Some [1] end) None []), w')
  | [] => (Throw PlainError, [])
  end.

Lemma for_await_pages_witness :
  exists fuel w', for_await (Some some_pages) fuel (mkResultSet (Some [some_row 1]) 1 (Some [1]) None []) [[]; [some_row 2]] = Some ([some_row 1], w').
Proof.
  destruct (for_await_pages (Some some_pages) (mkResultSet (Some [some_row 1]) 1 (Some [1]) None []) [[]; [some_row 2]] [[some_row 1]; []; [some_row 2]] [])
    as (fuel & w' & Hf & _).
  - eapply next_page; [done|done|done|reflexivity|]. eapply next_page; [done|done|done|reflexivity|]. by apply last_page.
  - by exists fuel, w'.
Defined.
