(* ===== verification/Flow.v ===== *)
(** The callback control flow of [lib/utils.js] ([each], [mapEach], [parallel],
    [times]; [eachSeries], [mapSeries], [series], [timesSeries], [whilst]).

    The functions that are called are not part of them: each answers once, in
    the call itself or later.  Functions that call all at once get the answers
    in any order.  Functions that call one after the other are given, for each
    index, the answer and whether it comes in the call: the body of [next] is a
    function from its variables to what it does, and one engine does it. *)
From S2P Require Import Prelude.
From S2P Require Import JsNum.

(** ** All at once *)

Section fan_out.
Context {Er R : Type}.

(** The calls, [completed], [result], whether [callback] was not yet replaced by
    [noop], and the calls of the user's callback. *)
Record fan_state := mkFan {
  fn_called : list nat;
  fn_completed : nat;
  fn_result : list (option R);
  fn_callback : bool;
  fn_callbacks : list (list (option R) + Er) }.

(** [next(err)], after [result[i] = transformed]; [total] is [length] or
    [count], of which [each], [parallel] and [times] use no result. *)
Definition fan_next (total : nat -> bool) (x : fan_state) (i : nat) (err : option Er) (transformed : option R) : fan_state :=
  let result := <[i := transformed]> (fn_result x) in
  match err with
  | Some e => mkFan (fn_called x) (fn_completed x) result false (if fn_callback x then fn_callbacks x ++ [inr e] else fn_callbacks x)
  | None =>
      let completed := S (fn_completed x) in
      if total completed && fn_callback x
      then mkFan (fn_called x) completed result (fn_callback x) (fn_callbacks x ++ [inl result])
      else mkFan (fn_called x) completed result (fn_callback x) (fn_callbacks x)
  end.

(** The loop that calls the functions. *)
Definition fan_start (n : nat) : fan_state := mkFan (seq 0 n) 0 (replicate n None) true [].

(** [each] and [mapEach] return at once for an empty array; [parallel] does not. *)
Definition mapEach_start (n : nat) : fan_state :=
  match n with O => mkFan [] 0 [] true [inl []] | _ => fan_start n end.

Definition parallel_start (n : nat) : fan_state := fan_start n.

(** [times]: the smallest integer that is not less than [count] is the number of
    calls; an infinite count never ends. *)
Definition count_calls (m : Z) (e : N) : nat := Z.to_nat (- ((- m) / 2 ^ Z.of_N e)).

Definition times_start (count : number) : result fan_state :=
  match count with
  | NaN => Ok (mkFan [] 0 [] true [inl []])
  | Infinity true => Ok (fan_start 0)
  | Infinity false => Throw OutOfFuel
  | Fin m e => if m =? 0 then Ok (mkFan [] 0 [] true [inl []]) else Ok (fan_start (count_calls m e))
  end.

(** [completed === count] *)
Definition is_count (count : number) (completed : nat) : bool :=
  match count with Fin m e => Z.of_nat completed * 2 ^ Z.of_N e =? m | _ => false end.

(** The answers, in the order they come. *)
Definition fan_run (total : nat -> bool) (x : fan_state) (answers : list (nat * (option Er * option R))) : fan_state :=
  foldl (fun x a => fan_next total x a.1 a.2.1 a.2.2) x answers.
End fan_out.
Arguments fan_state : clear implicits.

(** ** One after the other *)

Section series.
Context {Er R P V : Type}.

(** What [next] does: it calls the user's callback, or the function of the next
    index, now or on the next tick.  [prepare] is evaluated when the function is
    called and gives its index, and [after] is what follows the call. *)
Inductive action :=
  | Finish (out : P + Er)
  | Call (now : bool) (prepare : V -> V * nat) (after : V -> V).

(** [answers i] is whether the function [i] answers in the call, and what. *)
Context (answers : nat -> bool * (option Er * R)) (next : V -> nat -> option Er * R -> V * action).

(** Calls the function [i] and goes on; [depth] is how many of these calls are on
    the stack, and [after] what follows them when they return.  The result is the
    calls with their depths, and what the callback gets. *)
Fixpoint series_go (fuel : nat) (depth : nat) (v : V) (i : nat) (after : V -> V) : option (list (nat * nat) * (P + Er)) :=
  match fuel with
  | O => None
  | S fuel' =>
      let '(sync, answer) := answers i in
      let '(v, act) := next (if sync then v else after v) i answer in
      let rest :=
        match act with
        | Finish out => Some ([], out)
        | Call now prepare after' =>
            let stacked := sync && now in
            let '(v, j) := prepare (if sync && negb now then after v else v) in
            series_go fuel' (if stacked then S depth else O) v j (if stacked then fun v => after (after' v) else after')
        end in
      (fun z => ((i, depth) :: z.1, z.2)) <$> rest
  end.

(** A first action: the code before the first answer. *)
Definition series_run (fuel : nat) (v : V) (first : action) : option (list (nat * nat) * (P + Er)) :=
  match first with
  | Finish out => Some ([], out)
  | Call _ prepare after => let '(v, i) := prepare v in series_go fuel 0 v i after
  end.
End series.
Arguments action : clear implicits.
Arguments Finish {Er P V} out.
Arguments Call {Er P V} now prepare after.

Section functions.
Context {Er R : Type}.

(** [index] and [sync]; [None] is undefined. *)
Record series_vars := mkVars { sv_index : nat; sv_sync : option bool; sv_result : list (option R) }.

Definition set_sync (v : series_vars) (b : option bool) : series_vars := mkVars (sv_index v) b (sv_result v).

(** [if (sync === undefined) sync = b], and what [sync] is then. *)
Definition define_sync (b : bool) (v : series_vars) : series_vars := match sv_sync v with None => set_sync v (Some b) | Some _ => v end.
Definition is_sync (v : series_vars) : bool := match sv_sync v with Some b => b | None => false end.

(** *** [eachSeries] *)

Definition eachSeries_first (n : nat) : series_vars * action Er unit series_vars :=
  match n with
  | O => (mkVars 0 None [], Finish (inl tt))
  | _ => (mkVars 1 None [], Call true (fun v => (v, 0%nat)) (define_sync false))
  end.

Definition eachSeries_next (n : nat) (v : series_vars) (i : nat) (answer : option Er * option R) : series_vars * action Er unit series_vars :=
  match answer.1 with
  | Some e => (v, Finish (inr e))
  | None =>
      if (n <=? sv_index v)%nat then (v, Finish (inl tt))
      else
        let v := define_sync true v in
        (v, Call (negb (is_sync v)) (fun v => (mkVars (S (sv_index v)) (sv_sync v) (sv_result v), sv_index v)) id)
  end.

(** *** [mapSeries] *)

Definition mapSeries_first (n : nat) : series_vars * action Er (list (option R)) series_vars :=
  match n with
  | O => (mkVars 0 None [], Finish (inl []))
  | _ => (mkVars 0 None (replicate n None), Call true (fun v => (v, 0%nat)) (define_sync false))
  end.

Definition mapSeries_next (n : nat) (v : series_vars) (i : nat) (answer : option Er * option R)
    : series_vars * action Er (list (option R)) series_vars :=
  let v := mkVars (sv_index v) (sv_sync v) (<[i := answer.2]> (sv_result v)) in
  match answer.1 with
  | Some e => (v, Finish (inr e))
  | None =>
      let v := mkVars (S (sv_index v)) (sv_sync v) (sv_result v) in
      if (sv_index v =? n)%nat then (v, Finish (inl (sv_result v)))
      else
        let v := define_sync true v in
        let i := sv_index v in
        (v, Call (negb (is_sync v)) (fun v => (v, i)) id)
  end.

(** *** [series] *)

Definition series_next (n : nat) (v : series_vars) (answer : option Er * option R) : series_vars * action Er (option R) series_vars :=
  match answer.1 with
  | Some e => (v, Finish (inr e))
  | None =>
      if (sv_index v =? n)%nat then (v, Finish (inl answer.2))
      else
        (v, Call (negb (is_sync v)) (fun v => (mkVars (S (sv_index v)) (Some true) (sv_result v), sv_index v))
              (fun v => set_sync v (Some false)))
  end.

Definition series_first (n : nat) : series_vars * action Er (option R) series_vars := series_next n (mkVars 0 None []) (None, None).

(** *** [timesSeries] *)

Definition timesSeries_first (count : number) : series_vars * action Er unit series_vars :=
  match count with
  | Fin m e => if m <? 2 ^ Z.of_N e then (mkVars 0 None [], Finish (inl tt)) else (mkVars 1 None [], Call true (fun v => (v, 0%nat)) (define_sync false))
  | Infinity false => (mkVars 1 None [], Call true (fun v => (v, 0%nat)) (define_sync false))
  | _ => (mkVars 0 None [], Finish (inl tt))
  end.

Definition timesSeries_next (count : number) (v : series_vars) (i : nat) (answer : option Er * option R) : series_vars * action Er unit series_vars :=
  match answer.1 with
  | Some e => (v, Finish (inr e))
  | None =>
      if is_count count (sv_index v) then (v, Finish (inl tt))
      else
        let v := define_sync true v in
        let i := sv_index v in
        (mkVars (S i) (sv_sync v) (sv_result v), Call (negb (is_sync v)) (fun v => (v, i)) id)
  end.

(** *** [whilst] *)

(** [sync] is 0 at first, 1 during the first call, then 2, or 4 if that answered
    in the call; [condition k] is the value of the condition before the call [k]. *)
Definition whilst_next (condition : nat -> bool) (v : nat * nat) (i : nat) (answer : option Er * option R) : (nat * nat) * action Er unit (nat * nat) :=
  let '(calls, sync) := v in
  let sync := if (calls =? 1)%nat && (sync =? 1)%nat then 4%nat else sync in
  match answer.1 with
  | Some e => ((calls, sync), Finish (inr e))
  | None =>
      if negb (condition calls) then ((calls, sync), Finish (inl tt))
      else if (sync =? 0)%nat then
        ((calls, sync), Call true (fun v => ((S v.1, 1%nat), v.1)) (fun v => if (v.2 =? 1)%nat then (v.1, 2%nat) else v))
      else ((calls, sync), Call (negb (sync =? 4)%nat) (fun v => ((S v.1, v.2), v.1)) id)
  end.

Definition whilst_first (condition : nat -> bool) : (nat * nat) * action Er unit (nat * nat) := whilst_next condition (0%nat, 0%nat) 0 (None, None).
End functions.

(** The control flow functions call back exactly once, with the right result,
    and do not nest calls that answer at once. *)

(** ** All at once *)

Section fan_out.
Context {Er R : Type}.
Implicit Types (answers : list (nat * (option Er * option R))).

(** The first error, and the results by their indexes. *)
Definition first_error answers : option Er := head (omap (fun a => a.2.1) answers).
Definition results_of (n : nat) answers : list (option R) := foldl (fun l a => <[a.1 := a.2.2]> l) (replicate n None) answers.

Lemma first_error_app answers a :
  first_error (answers ++ [a]) = match first_error answers with Some e => Some e | None => a.2.1 end.
Proof.
  unfold first_error. rewrite omap_app. destruct (omap _ answers); [|done]. cbn. by destruct (a.2.1).
Qed.

Lemma first_error_None answers : first_error answers = None -> Forall (fun a => a.2.1 = None) answers.
Proof.
  induction answers as [|[i [[e|] r]] answers IH]; cbn; [constructor|done|]. intros H. constructor; [done|by apply IH].
Qed.

(** What is known after each prefix of the answers. *)
Lemma fan_run_spec n answers :
  let x := fan_run (Nat.eqb n) (fan_start n) answers in
  (length answers <= n)%nat -> (0 < n)%nat ->
  fn_called x = seq 0 n /\ fn_result x = results_of n answers /\
  (fn_callback x = true <-> first_error answers = None) /\
  (first_error answers = None -> fn_completed x = length answers) /\ (fn_completed x <= length answers)%nat /\
  fn_callbacks x = match first_error answers with
                   | Some e => [inr e]
                   | None => if (length answers =? n)%nat then [inl (results_of n answers)] else []
                   end.
Proof.
  intros x. unfold x, fan_run. induction answers as [|a answers IH] using rev_ind; intros Hl Hn.
  { destruct n; [lia|]. done. }
  rewrite length_app in *. cbn in Hl. destruct IH as (Hc & Hr & Hcb & Hco & Hle & Hk); [lia|lia|].
  rewrite foldl_app. cbn [foldl]. set (y := foldl _ _ _) in *. unfold results_of at 1. rewrite foldl_app. cbn [foldl]. fold (results_of n answers).
  rewrite first_error_app. unfold fan_next. rewrite Hr. destruct a as [i [[e|] r]]; cbn [fst snd].
  - destruct (first_error answers) as [e0|] eqn:Ef; cbn [fn_called fn_completed fn_result fn_callback fn_callbacks].
    + assert (Ecb : fn_callback y = false) by (destruct (fn_callback y); [destruct Hcb as [Hcb _]; discriminate (Hcb eq_refl)|done]).
      rewrite Ecb. split_and!; try done. lia.
    + rewrite (proj2 Hcb eq_refl), Hk, (proj2 (Nat.eqb_neq (length answers) n)) by lia. split_and!; try done. lia.
  - destruct (fn_callback y) eqn:Ecb.
    + rewrite (proj1 Hcb eq_refl) in *. rewrite (Hco eq_refl) in *. replace (length answers + length [(i, (@None Er, r))])%nat with (S (length answers)) by (cbn; lia).
      rewrite (Nat.eqb_sym n), andb_true_r.
      rewrite (proj2 (Nat.eqb_neq (length answers) n)) in Hk by lia. unfold results_of. rewrite foldl_app. cbn [foldl]. fold (results_of n answers).
      destruct (Nat.eqb_spec (S (length answers)) n); cbn [fn_called fn_completed fn_result fn_callback fn_callbacks]; rewrite ?Hk, ?Ecb; split_and!; done || lia.
    + destruct (first_error answers) as [e0|]; [|discriminate (proj2 Hcb eq_refl)].
      rewrite andb_false_r. cbn [fn_called fn_completed fn_result fn_callback fn_callbacks]. split_and!; try done. cbn; lia.
Qed.

(** [each], [mapEach], [parallel] and [times] call every function at once;
    whatever the order of the answers, the user's callback is called exactly once:
    with the first error when it comes, or, when all have answered without one,
    with the results in the order of the functions. *)
Theorem fan_out_once n answers rest :
  (0 < n)%nat -> map fst (answers ++ rest) ≡ₚ seq 0 n ->
  let x := fan_run (Nat.eqb n) (fan_start n) answers in
  fn_called x = seq 0 n /\
  match first_error answers, rest with
  | Some e, _ => fn_callbacks x = [inr e]
  | None, [] => exists results, fn_callbacks x = [inl results] /\ length results = n /\ forall i e r, (i, (e, r)) ∈ answers -> results !! i = Some r
  | None, _ => fn_callbacks x = []
  end.
Proof.
  intros Hn Hp x. assert (Hl : (length answers + length rest = n)%nat).
  { apply Permutation_length in Hp. by rewrite length_map, length_app, length_seq in Hp. }
  destruct (fan_run_spec n answers) as (Hc & _ & _ & _ & _ & Hk); [lia|lia|]. split; [done|]. fold x in Hk.
  destruct (first_error answers) as [e|]; [done|]. destruct rest as [|b rest].
  - rewrite (proj2 (Nat.eqb_eq (length answers) n)) in Hk by (cbn in Hl; lia). eexists. split; [exact Hk|].
    rewrite app_nil_r in Hp. clear -Hp.
    assert (L : forall l0 : list (option R), length (foldl (fun l (a : nat * (option Er * option R)) => <[a.1 := a.2.2]> l) l0 answers) = length l0).
    { clear. induction answers as [|a answers IH]; intros l0; cbn [foldl]; [done|]. by rewrite IH, length_insert. }
    unfold results_of. split; [by rewrite L, length_replicate|].
    assert (Hb : forall i, i ∈ map fst answers -> (i < n)%nat) by (intros i; rewrite Hp, elem_of_seq; lia).
    assert (Hd : NoDup (map fst answers)) by (rewrite Hp; apply NoDup_seq). clear Hp.
    assert (Hlen : length (replicate n (@None R)) = n) by apply length_replicate.
    revert Hlen. generalize (replicate n (@None R)) as l0. clear L. induction answers as [|[j [e0 r0]] answers IH]; intros l0 Hlen i e r Hin; [by apply elem_of_nil in Hin|].
    cbn [foldl map fst snd] in *. apply NoDup_cons in Hd as [Hj Hd]. apply elem_of_cons in Hin as [[= -> -> ->]|Hin].
    + assert (G : forall l0 : list (option R), l0 !! j = Some r0 -> foldl (fun l (a : nat * (option Er * option R)) => <[a.1 := a.2.2]> l) l0 answers !! j = Some r0).
      { clear -Hj. induction answers as [|[k x] answers IH]; intros l0 Hl; cbn [foldl map fst] in *; [done|]. apply not_elem_of_cons in Hj as [Hne Hj].
        apply IH; [done|]. by rewrite list_lookup_insert_ne by done. }
      apply G. rewrite list_lookup_insert_eq; [done|]. rewrite Hlen. apply Hb. by left.
    + apply (IH) with (e := e); [|done| |done]; [intros k Hk; apply Hb; by right|by rewrite length_insert].
  - by rewrite (proj2 (Nat.eqb_neq (length answers) n)) in Hk by (cbn in Hl; lia).
Qed.
End fan_out.

Lemma fan_out_once_witness :
  (0 < 2)%nat /\ map fst ([(1%nat, (@None nat, Some 7%nat)); (0%nat, (None, Some 5%nat))] ++ []) ≡ₚ seq 0 2 /\
  fn_callbacks (fan_run (Nat.eqb 2) (fan_start 2) [(1%nat, (@None nat, Some 7%nat)); (0%nat, (None, Some 5%nat))]) = [inl [Some 5%nat; Some 7%nat]].
Proof.
  assert (Hp : map fst ([(1%nat, (@None nat, Some 7%nat)); (0%nat, (None, Some 5%nat))] ++ []) ≡ₚ seq 0 2) by apply perm_swap.
  split; [lia|]. split; [exact Hp|].
  destruct (fan_out_once 2 _ [] ltac:(lia) Hp) as (_ & l & Hl & Hn & Hi). rewrite Hl. do 2 f_equal.
  pose proof (Hi 0%nat None (Some 5%nat) ltac:(right; left)) as H0. pose proof (Hi 1%nat None (Some 7%nat) ltac:(left)) as H1.
  destruct l as [|a [|b [|]]]; try discriminate Hn. cbn in H0, H1. congruence.
Defined.

(** With an infinite or a fractional count, [times] never gets to [completed === count]. *)
Lemma is_count_spec m e k : is_count (Fin m e) k = true <-> m = Z.of_nat k * 2 ^ Z.of_N e.
Proof. unfold is_count. rewrite Z.eqb_eq. split; lia. Qed.

(** [completed === count] does not hold for any number of answers when the count is
    negative or has a fraction: the callback is not called. *)
Lemma times_never_calls_back {Er R} m e (answers : list (nat * (option Er * option R))) n :
  m < 0 \/ m mod 2 ^ Z.of_N e <> 0 -> Forall (fun a => a.2.1 = None) answers ->
  fn_callbacks (fan_run (is_count (Fin m e)) (fan_start n) answers) = [].
Proof.
  intros Hm Ha. assert (Hc : forall k, is_count (Fin m e) k = false).
  { intros k. apply not_true_is_false. rewrite is_count_spec. pose proof (Z.pow_pos_nonneg 2 (Z.of_N e)). intros ->.
    destruct Hm as [Hm|Hm]; [nia|]. apply Hm, Z_mod_mult. }
  unfold fan_run. assert (H : fn_callbacks (@fan_start Er R n) = []) by done. revert H. generalize (@fan_start Er R n) as x.
  induction Ha as [|[i [o r]] answers Ho Ha IH]; intros x Hx; cbn [foldl]; [done|]. cbn in Ho. subst o. apply IH.
  unfold fan_next. cbn [fst snd]. by rewrite Hc.
Qed.

(** ** One after the other *)

Section series.
Context {Er R P V : Type}.
Implicit Types (answers : nat -> bool * (option Er * R)) (v w : V) (seen : list R).

(** What makes [first] and [next] a series: [is_last i] says that the function [i]
    is the last one and [out] gives the result.  [Called i seen] holds of the
    variables when the function [i] was called after the others answered [seen],
    [Ready i seen] when it is about to be called. *)
Class Series (first : V * action Er P V) (next : V -> nat -> option Er * R -> V * action Er P V)
    (is_last : nat -> bool) (out : list R -> P) := {
  Called : nat -> list R -> V -> Prop;
  Ready : nat -> list R -> V -> Prop;
  keeps_place (f : V -> V) := forall i seen v, (Called i seen v -> Called i seen (f v)) /\ (Ready i seen v -> Ready i seen (f v));
  calls_function i seen (w : V) (a : action Er P V) := exists now prepare after, a = Call now prepare after /\
    Ready i seen w /\ (forall w, Ready i seen w -> (prepare w).2 = i /\ Called i seen (prepare w).1) /\ keeps_place after;
  first_calls : calls_function 0%nat [] first.1 first.2;
  next_error i seen v e r : Called i seen v -> (next v i (Some e, r)).2 = Finish (inr e);
  next_last i seen v r : Called i seen v -> is_last i = true -> (next v i (None, r)).2 = Finish (inl (out (seen ++ [r])));
  next_calls i seen v r : Called i seen v -> is_last i = false ->
    calls_function (S i) (seen ++ [r]) (next v i (None, r)).1 (next v i (None, r)).2 }.

(** The functions that answered without an error, the last not included. *)
Definition stops_at (is_last : nat -> bool) answers m : Prop :=
  (forall k, (k < m)%nat -> is_last k = false /\ (answers k).2.1 = None) /\ ((answers m).2.1 <> None \/ is_last m = true).

Definition outcome (out : list R -> P) answers m : P + Er :=
  match (answers m).2.1 with Some e => inr e | None => inl (out (map (fun k => (answers k).2.2) (seq 0 (S m)))) end.

Lemma seen_snoc answers i : map (fun k => (answers k).2.2) (seq 0 i) ++ [(answers i).2.2] = map (fun k => (answers k).2.2) (seq 0 (S i)).
Proof. by rewrite seq_S, map_app. Qed.

Lemma series_go_stops {first next is_last out} {HS : Series first next is_last out} answers m i depth v after fuel :
  stops_at is_last answers m -> (i <= m)%nat -> (m - i < fuel)%nat -> Called i (map (fun k => (answers k).2.2) (seq 0 i)) v -> keeps_place after ->
  exists calls, series_go answers next fuel depth v i after = Some (calls, outcome out answers m) /\ map fst calls = seq i (S m - i).
Proof.
  intros [Hbefore Hm]. revert i depth v after. induction fuel as [|fuel IH]; intros i depth v after Hi Hf Hv Ha; [lia|].
  cbn [series_go]. destruct (answers i) as [sync [o r]] eqn:Ei.
  assert (Hv' : Called i (map (fun k => (answers k).2.2) (seq 0 i)) (if sync then v else after v)) by (destruct sync; [done|by apply Ha]).
  set (v' := if sync then v else after v) in *.
  pose proof (seen_snoc answers i) as Es. rewrite Ei in Es. cbn in Es.
  destruct (next v' i (o, r)) as [w act] eqn:En. destruct (decide (i = m)) as [->|Hne].
  - assert (Hact : act = Finish (outcome out answers m)).
    { replace act with (next v' m (o, r)).2 by by rewrite En. unfold outcome. rewrite Ei in Hm |- *. cbn [fst snd] in *.
      destruct o as [e|]; [by apply (next_error m _ _ e r Hv')|]. destruct Hm as [Hm|Hm]; [done|]. cbn [seq map] in *. rewrite <- Es. by apply next_last. }
    subst act. eexists. split; [done|]. cbn. by replace (S m - m)%nat with 1%nat by lia.
  - destruct (Hbefore i ltac:(lia)) as [Hl Ho]. rewrite Ei in Ho. cbn in Ho. subst o.
    destruct (next_calls i _ _ r Hv' Hl) as (now & prepare & after' & Hact & Hr & Hp & Ha'). rewrite En in Hact, Hr. cbn [fst snd] in Hact, Hr. subst act.
    set (w' := if sync && negb now then after w else w).
    assert (Hw : Ready (S i) (map (fun k => (answers k).2.2) (seq 0 i) ++ [r]) w') by (unfold w'; destruct (sync && negb now); [by apply Ha|done]).
    destruct (Hp w' Hw) as [Hj Hc]. destruct (prepare w') as [z j]. cbn [fst snd] in Hj, Hc. subst j. cbn [seq map] in *. rewrite Es in Hc.
    edestruct (IH (S i)) as (calls & Hgo & Hcalls); [lia|lia|exact Hc| |rewrite Hgo; cbn].
    { destruct (sync && now); [|done]. intros j seen u. split; intros Hu; by apply Ha, Ha'. }
    eexists. split; [done|]. cbn. rewrite Hcalls. replace (S m - i)%nat with (S (m - i)) by lia. by replace (S m - S i)%nat with (m - i)%nat by lia.
Qed.

(** The first function after which the series stops, whether each function answers
    in the call or later. *)
Lemma series_run_stops {first next is_last out} {HS : Series first next is_last out} answers m fuel :
  stops_at is_last answers m -> (m < fuel)%nat ->
  exists calls, series_run answers next fuel first.1 first.2 = Some (calls, outcome out answers m) /\ map fst calls = seq 0 (S m).
Proof.
  intros Hs Hf. destruct (first_calls (next := next)) as (now & prepare & after & Hact & Hr & Hp & Ha). unfold series_run. rewrite Hact.
  destruct (Hp _ Hr) as [Hi Hc]. destruct (prepare first.1) as [z i]. cbn in Hi, Hc. subst i.
  destruct (series_go_stops answers m 0 0 z after fuel Hs) as (calls & Hgo & Hcalls); [lia|lia|done|done|]. rewrite Nat.sub_0_r in Hcalls. eauto.
Qed.

(** When no function is the last one and none fails the series does not end. *)
Lemma series_go_endless {first next is_last out} {HS : Series first next is_last out} answers i depth v seen after fuel :
  (forall k, is_last k = false /\ (answers k).2.1 = None) -> Called i seen v -> keeps_place after ->
  series_go answers next fuel depth v i after = None.
Proof.
  intros Hn. revert i depth v seen after. induction fuel as [|fuel IH]; intros i depth v seen after Hv Ha; [done|].
  cbn [series_go]. destruct (Hn i) as [Hl Ho]. destruct (answers i) as [sync [o r]]. cbn in Ho. subst o.
  assert (Hv' : Called i seen (if sync then v else after v)) by (destruct sync; [done|by apply Ha]).
  destruct (next_calls i _ _ r Hv' Hl) as (now & prepare & after' & Hact & Hr & Hp & Ha'). destruct (next _ i (None, r)) as [w act].
  cbn [fst snd] in Hact, Hr. subst act. set (w' := if sync && negb now then after w else w).
  assert (Hw : Ready (S i) (seen ++ [r]) w') by (unfold w'; destruct (sync && negb now); [by apply Ha|done]).
  destruct (Hp w' Hw) as [Hj Hc]. destruct (prepare w') as [z j]. cbn [fst snd] in Hj, Hc. subst j.
  rewrite (IH _ _ _ _ _ Hc); [done|]. destruct (sync && now); [|done]. intros j s u. split; intros Hu; by apply Ha, Ha'.
Qed.

(** A call that is answered at once is followed by one on the next tick:
    [InCall i v after] holds of the variables while the function [i] runs. *)
Definition stays_flat (answers : nat -> bool * (option Er * R)) (next : V -> nat -> option Er * R -> V * action Er P V)
    (InCall : nat -> V -> (V -> V) -> Prop) : Prop :=
  forall i v after, InCall i v after ->
  match next (if (answers i).1 then v else after v) i (answers i).2 with
  | (w, Call now prepare after') =>
      (answers i).1 && now = false /\
      let '(z, j) := prepare (if (answers i).1 && negb now then after w else w) in InCall j z after'
  | _ => True
  end.

Lemma series_go_flat answers next InCall fuel i v after calls out :
  stays_flat answers next InCall -> InCall i v after -> series_go answers next fuel 0 v i after = Some (calls, out) ->
  Forall (fun call => call.2 = 0%nat) calls.
Proof.
  intros Hflat. revert i v after calls. induction fuel as [|fuel IH]; intros i v after calls Hi; [done|]. cbn [series_go].
  specialize (Hflat i v after Hi). destruct (answers i) as [sync a]. cbn [fst snd] in Hflat.
  destruct (next (if sync then v else after v) i a) as [w act]. destruct act as [o|now prepare after']; [intros [= <- <-]; by constructor|].
  destruct Hflat as [Hs Hin]. rewrite Hs. destruct (prepare _) as [z j]. intros H.
  destruct (series_go answers next fuel 0 z j after') as [[rest o]|] eqn:Hgo; [|done]. injection H as <- <-. constructor; [done|eauto].
Qed.
End series.
Arguments keeps_place _ _ /.

(** *** The functions are series *)

Section instances.
Context {Er R : Type}.

Ltac series_call := do 3 eexists; split; [reflexivity|]; split_and!; [|intros ? ?; split|intros ? ? ?; split; intros ?]; cbn in *; unfold define_sync, set_sync in *; repeat case_match; cbn in *; try lia; try done.

#[export] Instance eachSeries_Series n :
  Series (eachSeries_first (Er := Er) (S n)) (eachSeries_next (R := R) (S n)) (fun i => S n <=? S i)%nat (fun _ => tt).
Proof.
  refine {| Called i _ v := sv_index v = S i; Ready i _ v := sv_index v = Nat.max 1 i |}.
  - series_call.
  - done.
  - intros i seen v r Hv Hl. unfold eachSeries_next. cbn [fst]. by rewrite Hv, Hl.
  - intros i seen v r Hv Hl. unfold eachSeries_next. cbn [fst]. rewrite Hv, Hl. series_call.
Defined.

#[export] Instance mapSeries_Series n :
  Series (mapSeries_first (Er := Er) (S n)) (mapSeries_next (R := R) (S n)) (fun i => S i =? S n)%nat id.
Proof.
  set (place (i : nat) (seen : list (option R)) (v : series_vars) := sv_index v = i /\ length seen = i /\ (i <= n)%nat /\ sv_result v = seen ++ replicate (S n - i) None).
  assert (Hset : forall i seen v r, place i seen v -> <[i := r]> (sv_result v) = (seen ++ [r]) ++ replicate (S n - S i) None).
  { intros i seen v r (_ & <- & Hle & ->). rewrite insert_app_r_alt, Nat.sub_diag by lia.
    replace (S n - length seen)%nat with (S (S n - S (length seen))) by lia. cbn [replicate]. by rewrite <- app_assoc. }
  refine {| Called i seen v := place i seen v; Ready i seen v := place i seen v |}.
  - series_call. split_and!; [done|done|cbn; lia|by rewrite Nat.sub_0_r].
  - done.
  - intros i seen v r Hv Hl. unfold mapSeries_next. cbn [fst snd sv_index sv_result]. rewrite (Hset _ _ _ _ Hv). destruct Hv as (-> & _).
    rewrite Hl. apply Nat.eqb_eq in Hl. cbn. replace (n - i)%nat with 0%nat by lia. cbn. by rewrite app_nil_r.
  - intros i seen v r Hv Hl. unfold mapSeries_next. cbn [fst snd sv_index sv_result]. rewrite (Hset _ _ _ _ Hv).
    destruct Hv as (-> & Hs & Hle & _). rewrite Hl. apply Nat.eqb_neq in Hl. series_call.
    all: unfold place in *; cbn; rewrite ?length_app; cbn; split_and!; try done; try lia; naive_solver.
Defined.

#[export] Instance series_Series n :
  Series (series_first (Er := Er) (R := R) (S n)) (fun v _ => series_next (S n) v) (fun i => S i =? S n)%nat (fun results => default None (last results)).
Proof.
  refine {| Called i _ v := sv_index v = S i; Ready i _ v := sv_index v = i |}.
  - series_call.
  - done.
  - intros i seen v r Hv Hl. unfold series_next. cbn [fst snd]. by rewrite Hv, Hl, last_snoc.
  - intros i seen v r Hv Hl. unfold series_next. cbn [fst]. rewrite Hv, Hl. series_call.
Defined.

(** The count is at least one. *)
Lemma timesSeries_Series count :
  (match count with Fin m e => 2 ^ Z.of_N e <=? m | Infinity negative => negb negative | NaN => false end) = true ->
  Series (timesSeries_first (Er := Er) count) (timesSeries_next (R := R) count) (fun i => is_count count (S i)) (fun _ => tt).
Proof.
  intros Hc. refine {| Called i _ v := sv_index v = S i; Ready i _ v := sv_index v = S i |}.
  - destruct count as [|[]|m e]; try discriminate Hc; cbn [timesSeries_first]; [series_call|].
    rewrite (proj2 (Z.ltb_ge m (2 ^ Z.of_N e))) by lia. series_call.
  - done.
  - intros i seen v r Hv Hl. unfold timesSeries_next. cbn [fst]. by rewrite Hv, Hl.
  - intros i seen v r Hv Hl. unfold timesSeries_next. cbn [fst]. rewrite Hv, Hl. series_call.
Defined.

(** The condition holds at first. *)
Lemma whilst_Series condition : condition 0%nat = true ->
  Series (whilst_first (Er := Er) (R := R) condition) (whilst_next (R := R) condition) (fun i => negb (condition (S i))) (fun _ => tt).
Proof.
  intros Hc. refine {| Called i _ v := v.1 = S i; Ready i _ v := v.1 = i |}.
  - unfold whilst_first, whilst_next. cbn. rewrite Hc. series_call.
  - intros i seen [calls sync] e r Hv. unfold whilst_next. cbn. done.
  - intros i seen [calls sync] r Hv Hl. cbn in Hv. subst calls. unfold whilst_next. cbn [fst]. by rewrite Hl.
  - intros i seen [calls sync] r Hv Hl. cbn in Hv. subst calls. unfold whilst_next. cbn [fst]. rewrite Hl.
    destruct (if _ && _ then 4%nat else sync) as [|k]; cbn [Nat.eqb]; series_call.
Defined.
End instances.

(** ** What the functions do *)

Section functions.
Context {Er R : Type}.
Implicit Types (answers : nat -> bool * (option Er * option R)) (n m : nat).

(** The functions 0 to [m] are called one after the other and the callback gets
    the outcome; the calls do not nest when [flat] holds. *)
Definition runs {P V} (first : V * action Er P V) (next : V -> nat -> option Er * option R -> V * action Er P V)
    (out : list (option R) -> P) answers m (flat : Prop) : Prop :=
  forall fuel, (m < fuel)%nat -> exists calls, series_run answers next fuel first.1 first.2 = Some (calls, outcome out answers m) /\
    map fst calls = seq 0 (S m) /\ (flat -> Forall (fun call => call.2 = 0%nat) calls).

Lemma Series_runs {P V} (first : V * action Er P V) next is_last out {HS : Series first next is_last out} answers m flat InCall :
  stops_at is_last answers m ->
  (flat -> stays_flat answers next InCall /\
    match first.2 with Call _ prepare after => InCall (prepare first.1).2 (prepare first.1).1 after | Finish _ => True end) ->
  runs first next out answers m flat.
Proof.
  intros Hs Hflat fuel Hf. destruct (series_run_stops answers m fuel Hs Hf) as (calls & Hrun & Hcalls). exists calls. split_and!; [done..|].
  intros H. destruct (Hflat H) as [Hin H0]. revert Hrun. unfold series_run. destruct first.2 as [o|now prepare after]; [intros [= <- _]; by constructor|].
  destruct (prepare first.1) as [z i]. by apply series_go_flat with (InCall := InCall).
Qed.

(** [sync] while a function runs. *)
Definition sync_in_call (i : nat) (v : series_vars (R := R)) (after : series_vars (R := R) -> series_vars (R := R)) : Prop :=
  (i = 0%nat /\ sv_sync v = None /\ after = define_sync false) \/ (sv_sync v = Some true /\ after = id).

(** [sync] is true when the first function answers in the call, and then
    [next] waits for the next tick. *)
Lemma sync_flat {P} answers (next : series_vars (R := R) -> nat -> option Er * option R -> series_vars (R := R) * action Er P (series_vars (R := R))) :
  (forall v i a, match next v i a with
    | (w, Call now prepare after) => let sync := default true (sv_sync v) in
        sv_sync w = Some sync /\ now = negb sync /\ (forall z, sv_sync (prepare z).1 = sv_sync z) /\ after = id
    | _ => True end) ->
  (answers 0%nat).1 = true -> stays_flat answers next sync_in_call.
Proof.
  intros Hn H0 i v after Hin. set (u := if (answers i).1 then v else after v).
  assert (Hu : default true (sv_sync u) = true).
  { unfold u. destruct Hin as [(-> & Hs & ->)|[Hs ->]]; [by rewrite H0, Hs|]. destruct (answers i).1; cbn; by rewrite Hs. }
  specialize (Hn u i (answers i).2). destruct (next u i (answers i).2) as [w [o|now prepare after']]; [done|].
  cbn zeta in Hn. rewrite Hu in Hn. destruct Hn as (Hw & -> & Hp & ->). split; [by rewrite andb_false_r|].
  assert (Hz : sv_sync (if (answers i).1 && negb (negb true) then after w else w) = Some true).
  { destruct (answers i).1; [|done]. destruct Hin as [(_ & _ & ->)|[_ ->]]; cbn; [|done]. unfold define_sync. by rewrite Hw. }
  specialize (Hp (if (answers i).1 && negb (negb true) then after w else w)). destruct (prepare _) as [z j]. right. split; [|done]. rewrite Hz in Hp. exact Hp.
Qed.

Ltac sync_step := intros [index [[]|] result] i [[e|] r]; cbn; unfold define_sync; cbn; repeat case_match; simplify_eq; done.

Lemma eachSeries_flat n answers : (answers 0%nat).1 = true -> stays_flat answers (eachSeries_next n) sync_in_call.
Proof. apply sync_flat. unfold eachSeries_next. sync_step. Qed.

Lemma mapSeries_flat n answers : (answers 0%nat).1 = true -> stays_flat answers (mapSeries_next n) sync_in_call.
Proof. apply sync_flat. unfold mapSeries_next. sync_step. Qed.

Lemma timesSeries_flat count answers : (answers 0%nat).1 = true -> stays_flat answers (timesSeries_next count) sync_in_call.
Proof. apply sync_flat. unfold timesSeries_next. sync_step. Qed.

Lemma series_flat n answers : stays_flat answers (fun v _ => series_next n v) (fun _ v _ => sv_sync v = Some true).
Proof.
  intros i [index sync result] after Hs. cbn in Hs. subst sync. unfold series_next, is_sync. destruct (answers i) as [[] [[e|] r]]; cbn; [done| |done|].
  - by destruct (index =? n)%nat.
  - by destruct (sv_index (after _) =? n)%nat.
Qed.

Lemma whilst_flat condition answers : (answers 0%nat).1 = true ->
  stays_flat answers (whilst_next condition) (fun i v after =>
    (i = 0%nat /\ v = (1%nat, 1%nat) /\ after = fun v => if (v.2 =? 1)%nat then (v.1, 2%nat) else v) \/ (v.2 = 4%nat /\ after = id)).
Proof.
  intros H0 i v after [(-> & -> & ->)|[Hs ->]].
  - destruct (answers 0%nat) as [s [[e|] r]]; cbn in H0; subst s; [done|]. cbn. destruct (condition 1%nat); [|done]. cbn. auto.
  - destruct v as [calls sync]. cbn in Hs. subst sync. replace (if (answers i).1 then _ else _) with (calls, 4%nat) by by destruct (answers i).1.
    destruct (answers i) as [s [[e|] r]]; [done|]. cbn. rewrite andb_false_r. cbn. destruct (condition calls); [|done]. cbn. rewrite andb_false_r. split; [done|]. right. by destruct s.
Qed.

(** C27: [eachSeries], [mapSeries], [series], [timesSeries] and [whilst] call the
    functions 0, 1, 2, ... one after the other, up to the first that answers with
    an error or the last one, whether they answer in the call or later, and the
    callback gets that error, or the results in order ([mapSeries]), the last
    result ([series]) or nothing.  Functions that all answer in the call do not
    make the stack grow; those of [series] never do. *)
Theorem series_functions answers m :
  let at_once := (answers 0%nat).1 = true in
  (forall n, stops_at (fun i => S n <=? S i)%nat answers m -> runs (eachSeries_first (S n)) (eachSeries_next (S n)) (fun _ => tt) answers m at_once) /\
  (forall n, stops_at (fun i => S i =? S n)%nat answers m -> runs (mapSeries_first (S n)) (mapSeries_next (S n)) id answers m at_once) /\
  (forall n, stops_at (fun i => S i =? S n)%nat answers m -> runs (series_first (S n)) (fun v _ => series_next (S n) v) (fun l => default None (last l)) answers m True) /\
  (forall count, 0 < count -> stops_at (fun i => Z.of_nat (S i) =? count) answers m ->
    runs (timesSeries_first (Fin count 0)) (timesSeries_next (Fin count 0)) (fun _ => tt) answers m at_once) /\
  (forall condition, condition 0%nat = true -> stops_at (fun i => negb (condition (S i))) answers m ->
    runs (whilst_first (R := R) condition) (whilst_next condition) (fun _ => tt) answers m at_once).
Proof.
  split_and!.
  - intros n Hs. apply (Series_runs _ _ _ _ _ _ _ sync_in_call Hs). intros H. split; [by apply eachSeries_flat|]. by left.
  - intros n Hs. apply (Series_runs _ _ _ _ _ _ _ sync_in_call Hs). intros H. split; [by apply mapSeries_flat|]. by left.
  - intros n Hs. apply (Series_runs _ _ _ _ _ _ _ (fun _ v _ => sv_sync v = Some true) Hs). intros _. split; [apply series_flat|]. done.
  - intros count Hc Hs. pose proof (timesSeries_Series (Er := Er) (R := R) (Fin count 0) (proj2 (Z.leb_le 1 count) ltac:(lia))) as HS.
    apply (Series_runs _ _ (fun i => is_count (Fin count 0) (S i)) _ _ _ _ sync_in_call).
    + unfold stops_at, is_count in *. cbn in *. setoid_rewrite Z.mul_1_r. done.
    + intros H. split; [by apply timesSeries_flat|]. unfold timesSeries_first. change (2 ^ Z.of_N 0) with 1. rewrite (proj2 (Z.ltb_ge count 1)) by lia. by left.
  - intros condition Hc Hs. pose proof (whilst_Series (Er := Er) (R := R) condition Hc) as HS.
    eapply (Series_runs _ _ _ _ _ _ _ _ Hs). intros H. split; [by apply whilst_flat|]. unfold whilst_first, whilst_next. cbn. rewrite Hc. cbn. auto.
Qed.
End functions.

(** The conclusions hold of [mapSeries] with two functions, the second of which
    answers later with an error. *)
Definition two_answers (i : nat) : bool * (option nat * option nat) := match i with O => (true, (None, Some 5%nat)) | _ => (false, (Some 7%nat, None)) end.

Lemma series_functions_witness : runs (mapSeries_first 3) (mapSeries_next 3) id two_answers 1 True.
Proof.
  assert (Hs : stops_at (fun i => S i =? 3)%nat two_answers 1).
  { split; [|by left]. intros k Hk. replace k with 0%nat by lia. by split. }
  intros fuel Hf. destruct (proj1 (proj2 (series_functions two_answers 1)) 2%nat Hs fuel Hf) as (calls & Hrun & Hcalls & Hflat).
  exists calls. split_and!; [done..|]. intros _. by apply Hflat.
Defined.

(** The answers of functions of which the first answers later and the others in
    the call. *)
Definition later_first (i : nat) : bool * (option unit * option unit) := ((0 <? i)%nat, (None, None)).

Lemma eachSeries_nests_from n k i depth fuel after :
  (1 <= i)%nat -> (i + k = n)%nat -> (k < fuel)%nat ->
  series_go later_first (eachSeries_next (S n)) fuel depth (mkVars (S i) (Some false) []) i after =
  Some (map (fun j => (j, (depth + (j - i))%nat)) (seq i (S k)), inl tt).
Proof.
  intros Hi Hk Hf. revert i depth fuel after Hi Hk Hf. induction k as [|k IH]; intros i depth [|fuel] after Hi Hk Hf; try lia; cbn [series_go].
  - unfold later_first at 1. rewrite (proj2 (Nat.ltb_lt 0 i)) by lia. unfold eachSeries_next. cbn [fst sv_index]. rewrite (proj2 (Nat.leb_le (S n) (S i))) by lia.
    cbn. by rewrite Nat.sub_diag, Nat.add_0_r.
  - unfold later_first at 1. rewrite (proj2 (Nat.ltb_lt 0 i)) by lia. unfold eachSeries_next at 1. cbn [fst sv_index]. rewrite (proj2 (Nat.leb_gt (S n) (S i))) by lia.
    cbn -[series_go seq]. rewrite IH by lia. cbn. rewrite Nat.sub_diag, Nat.add_0_r. 
    replace (depth + (S i - i))%nat with (S depth) by lia. do 4 f_equal. apply map_ext_in. intros j Hj%in_seq. f_equal. lia.
Qed.

(** When the first function answers later and the others in the call, the calls
    of [eachSeries] nest: the function [i] runs with [i - 1] others on the stack. *)
Lemma eachSeries_nests n :
  series_run later_first (eachSeries_next (S n)) (S n) (eachSeries_first (Er := unit) (R := unit) (S n)).1 (eachSeries_first (S n)).2 =
  Some (map (fun i => (i, pred i)) (seq 0 (S n)), inl tt).
Proof.
  unfold series_run. cbn [eachSeries_first fst snd series_go later_first]. unfold eachSeries_next at 1. cbn [fst sv_index define_sync Nat.ltb Nat.leb sv_sync set_sync].
  destruct n as [|n]; [done|]. cbn -[series_go seq]. rewrite eachSeries_nests_from with (k := n) by lia.
  cbn [seq map fmap option_fmap option_map]. cbn. do 4 f_equal. apply map_ext_in. intros j Hj%in_seq. f_equal. lia.
Qed.

(** With a count that is not an integer [timesSeries] goes on for ever, unless a
    function fails. *)
Lemma timesSeries_endless {Er R} (answers : nat -> bool * (option Er * option R)) m e fuel :
  2 ^ Z.of_N e <= m -> m mod 2 ^ Z.of_N e <> 0 -> (forall k, (answers k).2.1 = None) ->
  series_run answers (timesSeries_next (Fin m e)) fuel (timesSeries_first (Er := Er) (R := R) (Fin m e)).1 (timesSeries_first (Fin m e)).2 = None.
Proof.
  intros Hm Hf Ha. pose proof (timesSeries_Series (Er := Er) (R := R) (Fin m e) (proj2 (Z.leb_le _ m) Hm)) as HS.
  destruct (first_calls (Series := HS)) as (now & prepare & after & Hact & Hr & Hp & Hk). unfold series_run. rewrite Hact.
  destruct (Hp _ Hr) as [Hi Hc]. destruct (prepare _) as [z i]. cbn [fst snd] in Hi, Hc. subst i.
  eapply (series_go_endless (HS := HS)); [|exact Hc|exact Hk]. intros k. split; [|done].
  apply not_true_is_false. rewrite is_count_spec. intros ->. apply Hf, Z_mod_mult.
Qed.
