(* ===== verification/Limits.v ===== *)
(** The functions that bound how many calls are in progress: [timesLimit] of
    [lib/utils.js] and [times] of [lib/promise-utils.js], as machines that take
    the answers of the functions in any order.  [count] and [limit] are integers
    that are not negative. *)
From S2P Require Import Prelude.

(** ** [timesLimit] *)

Section timesLimit.
Context {Er : Type} (count : nat).

(** [i] of the loop that starts the first functions, until it is set to -1;
    [li_callback] is false once [callback] was replaced by [noop].
    [li_called] are the calls in order, [li_waiting] the ones that did not
    answer and [li_ticks] the indexes captured for the next tick. *)
Record limit_state := mkLimit {
  li_loop : option nat;
  li_index : Z;
  li_completed : nat;
  li_sync : option bool;
  li_callback : bool;
  li_callbacks : list (unit + Er);
  li_called : list nat;
  li_waiting : list nat;
  li_ticks : list nat }.

Inductive limit_event :=
  | LoopCall
  | LoopEnd
  | Tick
  | Answer (i : nat) (err : option Er).

(** [limit = Math.min(limit, count); index = limit - 1; completed = 0] *)
Definition limit_start (limit : nat) : limit_state :=
  mkLimit (Some 0%nat) (Z.of_nat (limit `min` count) - 1) 0 None true [] [] [] [].

(** [iteratorFunc(i, next)] *)
Definition limit_call (x : limit_state) (i : nat) : limit_state :=
  mkLimit (li_loop x) (li_index x) (li_completed x) (li_sync x) (li_callback x) (li_callbacks x) (li_called x ++ [i]) (li_waiting x ++ [i]) (li_ticks x).

Definition limit_next (x : limit_state) (err : option Er) : limit_state :=
  match err with
  | Some e =>
      mkLimit (li_loop x) (li_index x) (li_completed x) (li_sync x) false (if li_callback x then li_callbacks x ++ [inr e] else li_callbacks x)
        (li_called x) (li_waiting x) (li_ticks x)
  | None =>
      let completed := S (li_completed x) in
      if (completed =? count)%nat then
        mkLimit (li_loop x) (li_index x) completed (li_sync x) (li_callback x) (if li_callback x then li_callbacks x ++ [inl tt] else li_callbacks x)
          (li_called x) (li_waiting x) (li_ticks x)
      else
        let index := li_index x + 1 in
        if Z.of_nat count <=? index then
          mkLimit (li_loop x) index completed (li_sync x) (li_callback x) (li_callbacks x) (li_called x) (li_waiting x) (li_ticks x)
        else
          let sync := match li_sync x with None => match li_loop x with Some _ => true | None => false end | Some b => b end in
          let x := mkLimit (li_loop x) index completed (Some sync) (li_callback x) (li_callbacks x) (li_called x) (li_waiting x) (li_ticks x) in
          if sync then
            mkLimit (li_loop x) (li_index x) (li_completed x) (li_sync x) (li_callback x) (li_callbacks x) (li_called x) (li_waiting x)
              (li_ticks x ++ [Z.to_nat index])
          else limit_call x (Z.to_nat index)
  end.

(** One event; [None] when it cannot come: the functions that were called answer
    once, in the call or later, and ticks come after the code that runs. *)
Definition limit_step (limit : nat) (x : limit_state) (event : limit_event) : option limit_state :=
  match event with
  | LoopCall =>
      match li_loop x with
      | Some i =>
          if (i <? limit `min` count)%nat
          then Some (limit_call (mkLimit (Some (S i)) (li_index x) (li_completed x) (li_sync x) (li_callback x) (li_callbacks x)
                                   (li_called x) (li_waiting x) (li_ticks x)) i)
          else None
      | None => None
      end
  | LoopEnd =>
      match li_loop x with
      | Some i =>
          if (i <? limit `min` count)%nat then None
          else Some (mkLimit None (li_index x) (li_completed x) (li_sync x) (li_callback x) (li_callbacks x) (li_called x) (li_waiting x) (li_ticks x))
      | None => None
      end
  | Tick =>
      match li_loop x, li_ticks x with
      | None, i :: ticks =>
          Some (limit_call (mkLimit None (li_index x) (li_completed x) (li_sync x) (li_callback x) (li_callbacks x) (li_called x) (li_waiting x) ticks) i)
      | _, _ => None
      end
  | Answer i err =>
      match list_find (fun j => j = i) (li_waiting x) with
      | Some (k, _) =>
          Some (limit_next (mkLimit (li_loop x) (li_index x) (li_completed x) (li_sync x) (li_callback x) (li_callbacks x) (li_called x)
                              (delete k (li_waiting x)) (li_ticks x)) err)
      | None => None
      end
  end.

Definition limit_run (limit : nat) (events : list limit_event) : option limit_state :=
  foldl (fun x event => x ≫= fun x => limit_step limit x event) (Some (limit_start limit)) events.
End timesLimit.
Arguments limit_state : clear implicits.
Arguments limit_event : clear implicits.

(** ** [times] of [promise-utils.js] *)

Section promise_times.
Context {Er : Type}.

(** A call of [invokeSequentially]: it awaits the function of an index, it ended,
    or it was rejected. *)
Inductive promise_worker := Awaits (index : nat) | Ended | Rejected.

(** [info.counter], the promises, the calls in order, and how [Promise.all] was
    settled. *)
Record promises := mkPromises {
  pr_counter : nat;
  pr_workers : list promise_worker;
  pr_called : list nat;
  pr_result : option (unit + Er) }.

(** [(index = info.counter++) < length] *)
Definition take_next (length : nat) (counter : nat) : nat * promise_worker :=
  (S counter, if (counter <? length)%nat then Awaits counter else Ended).

Definition called_by (w : promise_worker) : list nat := match w with Awaits i => [i] | _ => [] end.

Definition is_ended (w : promise_worker) : bool := match w with Ended => true | _ => false end.

(** [Promise.all(promises)] *)
Definition settle_promises (x : promises) : promises :=
  match pr_result x with
  | None => if forallb is_ended (pr_workers x) then mkPromises (pr_counter x) (pr_workers x) (pr_called x) (Some (inl tt)) else x
  | Some _ => x
  end.

(** The loop that starts the promises. *)
Definition start_worker (length : nat) (x : promises) : promises :=
  let '(counter, w) := take_next length (pr_counter x) in
  mkPromises counter (pr_workers x ++ [w]) (pr_called x ++ called_by w) (pr_result x).

Definition times_promises (count limit : nat) : promises :=
  let limit := if (count <? limit)%nat then count else limit in
  settle_promises (Nat.iter limit (start_worker count) (mkPromises 0 [] [] None)).

(** The function that the promise [k] awaits answers. *)
Definition promise_answers (length : nat) (x : promises) (k : nat) (err : option Er) : option promises :=
  match pr_workers x !! k with
  | Some (Awaits _) =>
      Some (match err with
        | Some e =>
            mkPromises (pr_counter x) (<[k := Rejected]> (pr_workers x)) (pr_called x) (match pr_result x with None => Some (inr e) | r => r end)
        | None =>
            let '(counter, w) := take_next length (pr_counter x) in
            settle_promises (mkPromises counter (<[k := w]> (pr_workers x)) (pr_called x ++ called_by w) (pr_result x))
        end)
  | _ => None
  end.

Definition promises_run (count limit : nat) (answers : list (nat * option Er)) : option promises :=
  foldl (fun x a => x ≫= fun x => promise_answers count x a.1 a.2) (Some (times_promises count limit)) answers.
End promise_times.
Arguments promises : clear implicits.

(** ** What [timesLimit] does *)

Section timesLimit_theorems.
Context {Er : Type} (count limit : nat).
Implicit Types (x : limit_state Er) (events : list (limit_event Er)).

(** The answers among the events. *)
Definition answer_of (event : limit_event Er) : option (option Er) := match event with Answer _ err => Some err | _ => None end.
Definition answers_of events : list (option Er) := omap answer_of events.

(** The functions that the first loop called, and the first index it does not call. *)
Definition looped x : nat := default (limit `min` count)%nat (li_loop x).

(** The calls that were made or wait for a tick are those of the first indexes;
    [errors] are the errors so far. *)
Record limit_ok (errors : list Er) (answered : nat) x : Prop := mkLimitOk {
  lo_loop : (looped x <= limit `min` count)%nat;
  lo_index : Z.of_nat (limit `min` count) <= li_index x + 1;
  lo_calls : li_called x ++ li_ticks x ≡ₚ seq 0 (looped x) ++ seq (limit `min` count) (Z.to_nat (li_index x + 1) `min` count - limit `min` count);
  lo_waiting : li_waiting x ⊆+ li_called x;
  lo_answered : length (li_called x) = (length (li_waiting x) + answered)%nat;
  lo_progress : (length (li_waiting x) + length (li_ticks x) + (limit `min` count - looped x) <= limit `min` count)%nat;
  lo_completed : (li_completed x + length errors)%nat = answered;
  lo_next : errors = [] -> li_index x + 1 = Z.of_nat (limit `min` count + li_completed x - (if li_completed x =? count then 1 else 0))%nat;
  lo_callback : li_callback x = true <-> errors = [];
  lo_callbacks : li_callbacks x = match errors with e :: _ => [inr e] | [] => if (li_completed x =? count)%nat then [inl tt] else [] end }.

Lemma limit_start_ok : (0 < count)%nat -> limit_ok [] 0 (limit_start count limit).
Proof.
  intros Hc. unfold limit_start. split; cbn; try done; try lia.
  - replace (Z.to_nat _ `min` count - _)%nat with 0%nat by lia. done.
  - intros _. destruct count as [|c]; cbn; lia.
  - destruct count; [lia|done].
Qed.

Lemma lo_bound errors answered x : limit_ok errors answered x -> (length (li_called x) + length (li_ticks x) <= count)%nat.
Proof. intros H. pose proof (Permutation_length (lo_calls _ _ _ H)) as Hp. rewrite !length_app, !length_seq in Hp. pose proof (lo_loop _ _ _ H). lia. Qed.

Lemma limit_next_ok errors answered x err k i :
  (0 < count)%nat -> limit_ok errors answered x -> li_waiting x !! k = Some i ->
  limit_ok (errors ++ match err with Some e => [e] | None => [] end) (S answered)
    (limit_next count (mkLimit (li_loop x) (li_index x) (li_completed x) (li_sync x) (li_callback x) (li_callbacks x) (li_called x) (delete k (li_waiting x)) (li_ticks x)) err).
Proof.
  intros Hc H Hk. pose proof (lo_bound _ _ _ H) as Hb. destruct H as [H1 H2 H3 H4 H5 H6 H7 H8 H9 H10].
  assert (Hd : length (delete k (li_waiting x)) = (length (li_waiting x) - 1)%nat) by (apply length_delete; eauto). assert (Hw : (0 < length (li_waiting x))%nat) by (apply lookup_lt_Some in Hk; lia).
  assert (Hs : delete k (li_waiting x) ⊆+ li_called x) by (etrans; [apply sublist_submseteq, sublist_delete|done]).
  unfold limit_next. destruct err as [e|]; [|rewrite app_nil_r].
  - split; cbn -[Nat.eqb]; unfold looped in *; cbn -[Nat.eqb] in *; try done; try lia.
    + rewrite length_app. cbn. lia.
    + by destruct errors.
    + by destruct errors.
    + rewrite H10. destruct errors as [|e0 errors]; cbn; [|by destruct (li_callback x); [discriminate (proj1 H9 eq_refl)|]].
      rewrite (proj2 H9 eq_refl). rewrite (proj2 (Nat.eqb_neq _ _)) by (cbn in H7; lia). done.
  - cbn [li_completed li_index li_loop li_sync li_callback li_callbacks li_called li_waiting li_ticks].
    assert (Hcalls : forall n, (looped x <= limit `min` count)%nat -> (limit `min` count <= n)%nat -> (n < count)%nat -> forall l l', l ++ l' ≡ₚ seq 0 (looped x) ++ seq (limit `min` count) (n `min` count - limit `min` count) ->
      l ++ l' ++ [n] ≡ₚ seq 0 (looped x) ++ seq (limit `min` count) (S n `min` count - limit `min` count)).
    { intros n Hl1 Hl2 Hl3 l l' Hp. replace (S n `min` count - limit `min` count)%nat with (S (n `min` count - limit `min` count)) by lia.
      rewrite seq_S, !app_assoc, Hp. by replace (limit `min` count + (n `min` count - limit `min` count))%nat with n by lia. }
    destruct (Nat.eqb_spec (S (li_completed x)) count) as [Hd1|Hd1]; [|destruct (Z.leb_spec (Z.of_nat count) (li_index x + 1))].
    + split; cbn -[Nat.eqb]; unfold looped in *; cbn -[Nat.eqb] in *; try done; try lia.
      * intros He. rewrite H8 by done. rewrite (proj2 (Nat.eqb_neq (li_completed x) count)) by lia. rewrite (proj2 (Nat.eqb_eq _ _) Hd1). lia.
      * rewrite (proj2 (Nat.eqb_eq _ _) Hd1), H10. destruct errors as [|e errors]; [|by destruct (li_callback x); [discriminate (proj1 H9 eq_refl)|]].
        rewrite (proj2 H9 eq_refl), (proj2 (Nat.eqb_neq (li_completed x) count)) by lia. done.
    + split; cbn -[Nat.eqb]; unfold looped in *; cbn -[Nat.eqb] in *; try done; try lia.
      * replace (Z.to_nat (li_index x + 1 + 1) `min` count)%nat with (Z.to_nat (li_index x + 1) `min` count)%nat by lia. done.
      * intros He. rewrite (proj2 (Nat.eqb_neq _ _) Hd1). specialize (H8 He). rewrite (proj2 (Nat.eqb_neq (li_completed x) count)) in H8 by lia. lia.
      * rewrite (proj2 (Nat.eqb_neq _ _) Hd1), H10, (proj2 (Nat.eqb_neq (li_completed x) count)) by lia. done.
    + set (sync := match li_sync x with None => _ | _ => _ end).
      pose proof (Hcalls (Z.to_nat (li_index x + 1)) H1 ltac:(lia) ltac:(lia) _ _ H3) as Hcalls'. replace (S (Z.to_nat (li_index x + 1))) with (Z.to_nat (li_index x + 1 + 1)) in Hcalls' by lia.
      assert (Hnext : errors = [] -> li_index x + 1 + 1 = Z.of_nat (limit `min` count + S (li_completed x) - 0)).
      { intros He. specialize (H8 He). rewrite (proj2 (Nat.eqb_neq (li_completed x) count)) in H8 by lia. lia. }
      rewrite (proj2 (Nat.eqb_neq (li_completed x) count)) in H10 by lia.
      destruct sync; split; cbn -[Nat.eqb]; unfold looped in *; cbn -[Nat.eqb] in *; rewrite ?(proj2 (Nat.eqb_neq _ _) Hd1), ?length_app; cbn -[Nat.eqb]; try done; try lia.
      * rewrite <- app_assoc, (Permutation_app_comm [_]). done.
      * by apply submseteq_app.
Qed.

Lemma limit_call_ok errors answered x y i :
  limit_ok errors answered x -> li_index y = li_index x -> li_completed y = li_completed x -> li_callback y = li_callback x -> li_callbacks y = li_callbacks x ->
  li_called y = li_called x -> li_waiting y = li_waiting x ->
  (looped y <= limit `min` count)%nat -> li_called x ++ i :: li_ticks y ≡ₚ seq 0 (looped y) ++ seq (limit `min` count) (Z.to_nat (li_index x + 1) `min` count - limit `min` count) ->
  (length (li_ticks y) + (limit `min` count - looped y) < length (li_ticks x) + (limit `min` count - looped x))%nat ->
  limit_ok errors answered (limit_call y i).
Proof.
  intros [H1 H2 H3 H4 H5 H6 H7 H8 H9 H10] E1 E2 E3 E4 E5 E6 Hl Hp Ht.
  split; unfold limit_call, looped in *; cbn -[Nat.eqb]; rewrite ?E1, ?E2, ?E3, ?E4, ?E5, ?E6, ?length_app; cbn; try done; try lia.
  - by rewrite <- app_assoc.
  - by apply submseteq_app.
Qed.

Lemma limit_step_ok errors answered x event y :
  (0 < count)%nat -> limit_ok errors answered x -> limit_step count limit x event = Some y ->
  limit_ok (errors ++ match answer_of event with Some (Some e) => [e] | _ => [] end) (answered + match answer_of event with Some _ => 1 | None => 0 end) y.
Proof.
  intros Hc H Hy. destruct event as [| | |i err]; cbn [answer_of] in *; rewrite ?app_nil_r, ?Nat.add_0_r.
  - unfold limit_step in Hy. destruct (li_loop x) as [i|] eqn:El; [|done]. destruct (Nat.ltb_spec i (limit `min` count)); [|done]. injection Hy as <-.
    eapply limit_call_ok; [exact H|done..| | |]; unfold looped in *; cbn -[seq]; rewrite ?El; cbn -[seq]; try lia.
    pose proof (lo_calls _ _ _ H) as Hp. unfold looped in Hp. rewrite El in Hp. cbn in Hp.
    rewrite <- Permutation_middle, Hp, seq_S, <- app_assoc. apply (Permutation_middle (seq 0 i)).
  - unfold limit_step in Hy. destruct (li_loop x) as [i|] eqn:El; [|done]. destruct (Nat.ltb_spec i (limit `min` count)); [done|]. injection Hy as <-.
    destruct H as [H1 H2 H3 H4 H5 H6 H7 H8 H9 H10]. unfold looped in *. rewrite El in *. cbn in *. replace i with (limit `min` count)%nat in * by lia. by split.
  - unfold limit_step in Hy. destruct (li_loop x) as [|] eqn:El; [done|]. destruct (li_ticks x) as [|i ticks] eqn:Et; [done|]. injection Hy as <-.
    pose proof (lo_calls _ _ _ H) as Hp. unfold looped in Hp. rewrite El, Et in Hp. cbn in Hp.
    eapply limit_call_ok; [exact H|done..| | |]; unfold looped in *; cbn; rewrite ?El, ?Et; cbn; try lia. done.
  - unfold limit_step in Hy. destruct (list_find _ _) as [[k j]|] eqn:Ef; [|done]. apply list_find_Some in Ef as (Hk & -> & _). injection Hy as <-.
    rewrite Nat.add_1_r. by apply limit_next_ok with (i := i).
Qed.

Lemma limit_run_ok events x : (0 < count)%nat -> limit_run count limit events = Some x ->
  limit_ok (omap id (answers_of events)) (length (answers_of events)) x.
Proof.
  intros Hc. revert x. unfold limit_run. induction events as [|event events IH] using rev_ind; intros x Hx.
  { injection Hx as <-. by apply limit_start_ok. }
  rewrite foldl_app in Hx. cbn in Hx. destruct (foldl _ _ events) as [y|]; [|done].
  pose proof (limit_step_ok _ _ y event x Hc (IH y eq_refl) Hx) as H. unfold answers_of in *. rewrite omap_app, omap_app, length_app.
  destruct event as [| | |i [e|]]; exact H.
Qed.

(** Without functions to call, or with a limit of 0, nothing is called, nothing
    answers and nobody is called back. *)
Lemma limit_run_none events x : (limit `min` count)%nat = 0%nat -> limit_run count limit events = Some x ->
  li_called x = [] /\ li_waiting x = [] /\ li_ticks x = [] /\ li_callbacks x = [] /\ answers_of events = [].
Proof.
  intros H0. revert x. unfold limit_run. induction events as [|event events IH] using rev_ind; intros x Hx; [by injection Hx as <-|].
  rewrite foldl_app in Hx. cbn in Hx. destruct (foldl _ _ events) as [y|]; [|done].
  destruct (IH y eq_refl) as (Hc & Hw & Ht & Hb & Ha). unfold answers_of in *. rewrite omap_app, Ha.
  destruct event as [| | |i err]; cbn -[Nat.min] in Hx; rewrite ?Hw, ?Ht, ?H0 in Hx; cbn in Hx.
  - destruct (li_loop y); discriminate Hx.
  - destruct (li_loop y); [|discriminate Hx]. by injection Hx as <-.
  - destruct (li_loop y); discriminate Hx.
  - discriminate Hx.
Qed.

(** With functions to call, and a limit. *)
Lemma timesLimit_some events x :
  (0 < count)%nat -> (0 < limit)%nat -> limit_run count limit events = Some x ->
  NoDup (li_called x) /\ Forall (fun i => (i < count)%nat) (li_called x) /\ (length (li_waiting x) <= limit)%nat /\
  li_callbacks x = match omap id (answers_of events) with
                   | e :: _ => [inr e]
                   | [] => if (length (answers_of events) =? count)%nat then [inl tt] else []
                   end /\
  (li_loop x = None -> li_waiting x = [] -> li_ticks x = [] ->
    li_callbacks x <> [] /\ (omap id (answers_of events) = [] -> li_called x ≡ₚ seq 0 count)).
Proof.
  intros Hc Hl Hx. pose proof (limit_run_ok events x Hc Hx) as H. pose proof (lo_bound _ _ _ H) as Hb.
  destruct H as [H1 H2 H3 H4 H5 H6 H7 H8 H9 H10].
  assert (Hd : NoDup (li_called x ++ li_ticks x) /\ Forall (fun i => (i < count)%nat) (li_called x ++ li_ticks x)).
  { rewrite H3. split.
    - apply NoDup_app. split_and!; [apply NoDup_seq| |apply NoDup_seq]. intros i Hi%elem_of_seq Hj%elem_of_seq. lia.
    - apply Forall_app. split; apply Forall_seq; lia. }
  destruct Hd as [Hd1%NoDup_app Hd2%Forall_app]. split_and!; [apply Hd1|apply Hd2|lia| |].
  - rewrite H10. destruct (omap _ _); [|done]. cbn in H7. by replace (li_completed x) with (length (answers_of events)) by lia.
  - intros Hn Hw Ht. unfold looped in *. rewrite Hn, Hw, Ht in *. cbn in *. rewrite app_nil_r in H3.
    assert (Hall : omap id (answers_of events) = [] -> li_completed x = count).
    { intros He. specialize (H8 He). apply Permutation_length in H3. rewrite length_app, !length_seq in H3. rewrite He in H7. cbn in H7.
      destruct (Nat.eqb_spec (li_completed x) count); lia. }
    split.
    + rewrite H10. destruct (omap _ _); [|done]. by rewrite Hall, Nat.eqb_refl.
    + intros He. rewrite H3. pose proof (Hall He) as Hcc. specialize (H8 He). rewrite (proj2 (Nat.eqb_eq _ _) Hcc) in H8.
      replace (Z.to_nat (li_index x + 1) `min` count)%nat with count by lia.
      rewrite <- seq_app. by replace (limit `min` count + (count - limit `min` count))%nat with count by lia.
Qed.

(** C28: In every order of events, in which each called function answers at most
    once, [timesLimit] calls each function at most once, never has more than
    [limit] of them in progress, and calls back at most once: with the first
    error when it comes, or when all [count], of which there is at least one,
    have answered.  When nothing is left to happen, either it has called back,
    and without errors all functions were called; or [count] or [limit] is 0,
    and then nothing was called and it never calls back. *)
Theorem timesLimit_spec events x :
  limit_run count limit events = Some x ->
  NoDup (li_called x) /\ Forall (fun i => (i < count)%nat) (li_called x) /\ (length (li_waiting x) <= limit)%nat /\
  li_callbacks x = match omap id (answers_of events) with
                   | e :: _ => [inr e]
                   | [] => if (0 <? count)%nat && (length (answers_of events) =? count)%nat then [inl tt] else []
                   end /\
  (li_loop x = None -> li_waiting x = [] -> li_ticks x = [] ->
    if (0 <? count)%nat && (0 <? limit)%nat
    then li_callbacks x <> [] /\ (omap id (answers_of events) = [] -> li_called x ≡ₚ seq 0 count)
    else li_callbacks x = [] /\ li_called x = []).
Proof.
  intros Hx. destruct (decide (limit `min` count = 0)%nat) as [H0|H0].
  { destruct (limit_run_none events x H0 Hx) as (Ec & Ew & _ & Eb & Ea). rewrite Ec, Ew, Eb, Ea.
    assert (E : ((0 <? count) && (0 <? limit))%nat = false) by (apply andb_false_iff; rewrite !Nat.ltb_ge; lia).
    split_and!; [constructor|constructor|cbn; lia| |by rewrite E]. cbn -[Nat.ltb Nat.eqb].
    destruct (Nat.ltb_spec 0 count); [|done]. by rewrite (proj2 (Nat.eqb_neq 0 count)) by lia. }
  destruct (timesLimit_some events x ltac:(lia) ltac:(lia) Hx) as (A1 & A2 & A3 & A4 & A5).
  rewrite !(proj2 (Nat.ltb_lt 0 _)) by lia. cbn [andb]. by split_and!.
Qed.
End timesLimit_theorems.

Lemma timesLimit_spec_witness :
  exists x, limit_run 3 2 [LoopCall; Answer 0 None; LoopCall; LoopEnd; Tick; Answer 2 None; Answer 1 (@None nat)] = Some x /\
    li_called x = [0; 1; 2]%nat /\ li_callbacks x = [inl tt].
Proof.
  eexists. split; [vm_compute; reflexivity|]. split; [reflexivity|].
  match goal with |- li_callbacks ?x = _ =>
    destruct (timesLimit_spec 3 2 [LoopCall; Answer 0 None; LoopCall; LoopEnd; Tick; Answer 2 None; Answer 1 (@None nat)] x ltac:(vm_compute; reflexivity)) as (_ & _ & _ & H & _) end.
  exact H.
Defined.

(** ** What [times] of [promise-utils.js] does *)

Section promise_theorems.
Context {Er : Type} (count limit : nat).
Implicit Types (x : promises Er) (answers : list (nat * option Er)).

Lemma insert_Permutation {A} (l : list A) k w : (k < length l)%nat -> <[k := w]> l ≡ₚ w :: delete k l.
Proof.
  intros Hk. rewrite (insert_take_drop l k w Hk), delete_take_drop. by rewrite <- Permutation_middle.
Qed.

(** The indexes that the promises await. *)
Definition awaited x : list nat := concat (map called_by (pr_workers x)).
Definition is_rejected (w : promise_worker) : bool := match w with Rejected => true | _ => false end.
Definition rejected_by (w : promise_worker) : list unit := if is_rejected w then [tt] else [].

(** What is kept while the answers come: the functions are called in order, and
    a promise that ended found the counter past [count]. *)
Record promises_ok (errors : list Er) (answered : nat) x : Prop := mkPromisesOk {
  po_called : pr_called x = seq 0 (pr_counter x `min` count);
  po_workers : length (pr_workers x) = (limit `min` count)%nat;
  po_awaited : awaited x ⊆+ pr_called x;
  po_answered : length (pr_called x) = (length (awaited x) + answered)%nat;
  po_ended : Ended ∈ pr_workers x -> (count < pr_counter x)%nat;
  po_rejected : length (concat (map rejected_by (pr_workers x))) = length errors;
  po_result : pr_result x = match errors with e :: _ => Some (inr e) | [] => if forallb is_ended (pr_workers x) then Some (inl tt) else None end }.

Lemma concat_length_bound {A B} (f : A -> list B) l : (forall w, (length (f w) <= 1)%nat) -> (length (concat (map f l)) <= length l)%nat.
Proof. intros Hf. induction l as [|w l IH]; cbn; [done|]. rewrite length_app. specialize (Hf w). lia. Qed.

(** The first [limit] functions are called when the promises are made. *)
Lemma start_workers k : (k <= count)%nat ->
  Nat.iter k (start_worker count) (mkPromises 0 [] [] (@None (unit + Er))) = mkPromises k (map Awaits (seq 0 k)) (seq 0 k) None.
Proof.
  induction k as [|k IH]; intros Hk; [done|]. change (Nat.iter (S k) ?f ?x) with (f (Nat.iter k f x)). rewrite IH by lia.
  unfold start_worker, take_next. cbn [pr_counter pr_workers pr_called pr_result]. rewrite (proj2 (Nat.ltb_lt k count)) by lia.
  cbn [called_by]. by rewrite seq_S, map_app.
Qed.

Lemma called_awaits l : concat (map called_by (map Awaits l)) = l.
Proof. induction l as [|i l IH]; cbn; [done|]. by rewrite IH. Qed.

Lemma rejected_awaits l : concat (map rejected_by (map Awaits l)) = [].
Proof. by induction l. Qed.

Lemma times_promises_ok : promises_ok [] 0 (times_promises (Er := Er) count limit).
Proof.
  unfold times_promises. replace (if (count <? limit)%nat then count else limit) with (limit `min` count)%nat by (destruct (Nat.ltb_spec count limit); lia).
  rewrite start_workers by lia. set (k := (limit `min` count)%nat).
  assert (He : Ended ∉ map Awaits (seq 0 k)) by (rewrite list_elem_of_fmap; intros (? & ? & _); discriminate).
  assert (Hs : settle_promises (mkPromises k (map Awaits (seq 0 k)) (seq 0 k) (@None (unit + Er))) =
    mkPromises k (map Awaits (seq 0 k)) (seq 0 k) (if forallb is_ended (map Awaits (seq 0 k)) then Some (inl tt) else None)).
  { unfold settle_promises. cbn. by destruct (forallb _ _). }
  rewrite Hs. split; unfold awaited; cbn; rewrite ?called_awaits, ?rejected_awaits; try done.
  - by replace (k `min` count)%nat with k by lia.
  - by rewrite length_map, length_seq.
Qed.

(** One promise changes. *)
Lemma concat_map_insert {A B} (f : A -> list B) l k w0 w : l !! k = Some w0 ->
  exists rest, concat (map f l) ≡ₚ f w0 ++ rest /\ concat (map f (<[k := w]> l)) ≡ₚ f w ++ rest.
Proof.
  intros Hk. exists (concat (map f (delete k l))). rewrite <- !flat_map_concat_map.
  split; [exact (Permutation_flat_map f (delete_Permutation l k w0 Hk))|]. exact (Permutation_flat_map f (insert_Permutation l k w (lookup_lt_Some _ _ _ Hk))).
Qed.

Lemma not_all_ended l k w : l !! k = Some w -> is_ended w = false -> forallb is_ended l = false.
Proof.
  intros Hk Hw. apply not_true_is_false. rewrite forallb_forall. intros H. apply list_elem_of_lookup_2, list_elem_of_In in Hk. rewrite (H _ Hk) in Hw. discriminate.
Qed.

Lemma promise_answers_ok errors answered x k err y :
  promises_ok errors answered x -> promise_answers count x k err = Some y ->
  promises_ok (errors ++ match err with Some e => [e] | None => [] end) (S answered) y.
Proof.
  intros [H1 H2 H3 H4 H5 H6 H7]. unfold promise_answers. destruct (pr_workers x !! k) as [w|] eqn:Hk; [|done].
  destruct w as [i| |]; [|done..]. rewrite (not_all_ended _ _ _ Hk eq_refl) in H7. destruct err as [e|]; [|rewrite app_nil_r].
  - intros [= <-]. destruct (concat_map_insert called_by _ _ _ Rejected Hk) as (ra & Ha1 & Ha2).
    destruct (concat_map_insert rejected_by _ _ _ Rejected Hk) as (rr & Hr1 & Hr2).
    pose proof (Permutation_length Ha1) as La. pose proof (Permutation_length Hr1) as Lr. cbn in La, Lr.
    split; unfold awaited in *; cbn; rewrite ?length_insert; try done.
    + rewrite Ha2. cbn. rewrite Ha1 in H3. cbn in H3. etrans; [|exact H3]. by apply submseteq_cons.
    + rewrite H4, La, Ha2. cbn. lia.
    + intros Hin. apply H5. apply list_elem_of_lookup in Hin as [j Hj]. destruct (decide (k = j)) as [<-|Hne].
      * rewrite list_lookup_insert_eq in Hj by (by apply lookup_lt_Some in Hk). discriminate.
      * rewrite list_lookup_insert_ne in Hj by done. by apply list_elem_of_lookup_2 in Hj.
    + rewrite Hr2, (length_app errors). cbn. lia.
    + rewrite H7. destruct errors; done.
  - unfold take_next. intros [= <-]. set (w := if (pr_counter x <? count)%nat then Awaits (pr_counter x) else Ended).
    destruct (concat_map_insert called_by _ _ _ w Hk) as (ra & Ha1 & Ha2). destruct (concat_map_insert rejected_by _ _ _ w Hk) as (rr & Hr1 & Hr2).
    pose proof (Permutation_length Ha1) as La. pose proof (Permutation_length Hr1) as Lr. cbn in La, Lr.
    assert (Hs : forall z, settle_promises (mkPromises (S (pr_counter x)) (<[k := w]> (pr_workers x)) (pr_called x ++ called_by w) z) =
      mkPromises (S (pr_counter x)) (<[k := w]> (pr_workers x)) (pr_called x ++ called_by w)
        (match z with Some r => Some r | None => if forallb is_ended (<[k := w]> (pr_workers x)) then Some (inl tt) else @None (unit + Er) end)).
    { intros z. unfold settle_promises. cbn. destruct z; [done|]. by destruct (forallb _ _). }
    rewrite Hs. assert (Hw : called_by w = seq (pr_counter x `min` count) (S (pr_counter x) `min` count - pr_counter x `min` count) /\ rejected_by w = [] /\
        (w = Ended -> (count < S (pr_counter x))%nat)).
    { unfold w. destruct (Nat.ltb_spec (pr_counter x) count); split_and!; try done; try (intros; lia).
      - replace (S (pr_counter x) `min` count - _)%nat with 1%nat by lia. cbn. do 2 f_equal. lia.
      - by replace (S (pr_counter x) `min` count - _)%nat with 0%nat by lia. }
    destruct Hw as (Hw1 & Hw2 & Hw3). rewrite Hw2 in Hr2. cbn in Hr2.
    split; unfold awaited in *; cbn -[Nat.min]; rewrite ?length_insert; try done.
    + rewrite H1, Hw1. replace (S (pr_counter x) `min` count)%nat with (pr_counter x `min` count + (S (pr_counter x) `min` count - pr_counter x `min` count))%nat at 2 by lia. by rewrite seq_app.
    + rewrite Ha2, (Permutation_app_comm (called_by w)). apply submseteq_app; [|done]. rewrite Ha1 in H3. cbn in H3. etrans; [|exact H3]. by apply submseteq_cons.
    + rewrite Ha2, !length_app. lia.
    + intros Hin. apply list_elem_of_lookup in Hin as [j Hj]. destruct (decide (k = j)) as [<-|Hne].
      * rewrite list_lookup_insert_eq in Hj by (by apply lookup_lt_Some in Hk). injection Hj as Hj. by apply Hw3.
      * rewrite list_lookup_insert_ne in Hj by done. apply list_elem_of_lookup_2, H5 in Hj. lia.
    + rewrite Hr2. lia.
    + rewrite H7. by destruct errors.
Qed.

Definition errors_of answers : list Er := omap snd answers.

Lemma promises_run_ok answers x : promises_run count limit answers = Some x -> promises_ok (errors_of answers) (length answers) x.
Proof.
  unfold promises_run, errors_of. revert x. induction answers as [|a answers IH] using rev_ind; intros x Hx.
  { injection Hx as <-. apply times_promises_ok. }
  rewrite foldl_app in Hx. cbn in Hx. destruct (foldl _ _ answers) as [y|]; [|done].
  pose proof (promise_answers_ok _ _ _ _ _ _ (IH y eq_refl) Hx) as H. rewrite omap_app, length_app, Nat.add_1_r.
  destruct a as [k [e|]]; exact H.
Qed.

(** In every order of answers [times] of [promise-utils.js] calls the
    functions 0, 1, 2, ... in order, each once and at most [limit] at a time; its
    promise is rejected with the first error and resolved once all have answered
    without one. *)
Theorem promise_times_spec answers x :
  (0 < limit)%nat -> promises_run count limit answers = Some x ->
  pr_called x = seq 0 (length (pr_called x)) /\ (length (pr_called x) <= count)%nat /\ (length (awaited x) <= limit)%nat /\
  length (pr_called x) = (length (awaited x) + length answers)%nat /\
  match errors_of answers with
  | e :: _ => pr_result x = Some (inr e)
  | [] => pr_result x = if (length answers =? count)%nat then Some (inl tt) else None
  end.
Proof.
  intros Hl Hx. destruct (promises_run_ok answers x Hx) as [H1 H2 H3 H4 H5 H6 H7].
  assert (Hb : (length (awaited x) <= limit `min` count)%nat).
  { rewrite <- H2. apply concat_length_bound. by intros []; cbn; lia. }
  assert (Hn : length (pr_called x) = (pr_counter x `min` count)%nat) by by rewrite H1, length_seq.
  split_and!; [by rewrite Hn|lia|lia|done|]. destruct (errors_of answers) as [|e errors]; [|done].
  rewrite H7. destruct (forallb is_ended (pr_workers x)) eqn:Ef.
  - assert (Ha : awaited x = []).
    { unfold awaited. clear -Ef. induction (pr_workers x) as [|w l IH]; [done|]. cbn in *. destruct w; [done| |done]. by apply IH. }
    assert (length answers = count); [|by rewrite (proj2 (Nat.eqb_eq _ _))].
    rewrite Ha in H4. cbn in H4. rewrite <- H4, Hn. destruct (pr_workers x) as [|w l]; [cbn in H2; lia|].
    cbn in Ef. destruct w; try discriminate Ef. specialize (H5 ltac:(left)). lia.
  - destruct (Nat.eqb_spec (length answers) count) as [Hc|]; [|done].
    assert (Ha : awaited x = []) by (apply nil_length_inv; lia).
    exfalso. assert (Hall : forallb is_ended (pr_workers x) = true); [|congruence].
    unfold awaited in Ha. cbn in H6. apply nil_length_inv in H6. clear -Ha H6.
    induction (pr_workers x) as [|w l IH]; [done|]. cbn in *. destruct w; [discriminate Ha| |discriminate H6]. by apply IH.
Qed.
End promise_theorems.

Lemma promise_times_spec_witness :
  (0 < 2)%nat /\ exists x, promises_run 3 2 [(0%nat, None); (1%nat, @None nat); (0%nat, None)] = Some x /\ pr_result x = Some (inl tt).
Proof.
  split; [lia|]. eexists. split; [vm_compute; reflexivity|].
  match goal with |- pr_result ?x = _ =>
    destruct (promise_times_spec 3 2 [(0%nat, None); (1%nat, @None nat); (0%nat, None)] x ltac:(lia) ltac:(vm_compute; reflexivity)) as (_ & _ & _ & _ & H) end.
  exact H.
Defined.

(** With a limit of 0 the promise is resolved and no function is called; after a
    rejection the other promises still call functions. *)
Example promise_times_limit_0 : promises_run (Er := unit) 3 0 [] = Some (mkPromises 0 [] [] (Some (inl tt))).
Proof. reflexivity. Qed.

Example promise_times_goes_on :
  promises_run 4 2 [(0%nat, Some 7%nat); (1%nat, None)] = Some (mkPromises 3 [Rejected; Awaits 2] [0; 1; 2]%nat (Some (inr 7%nat))).
Proof. reflexivity. Qed.
