(* ===== verification/RequestLogger.v ===== *)
(** [lib/tracker/request-logger.js]: which message a request gives and its text.

    Sizes, thresholds and lengths are integers.  The text of a parameter value is
    that of its [toString]. *)
From S2P Require Import Prelude.
From S2P Require Import JsNum.
From S2P Require Import JsStr.
From S2P Require Import JsFloat.

(** ** The time *)

(** The nearest double to [a / b] for positive integers: 53 bits of the quotient. *)
Definition fl_div (a b : Z) : dyadic :=
  if a =? 0 then (0, 0%N)
  else
    let e := Z.max 0 (53 + Z.log2 b - Z.log2 a) in
    let e := if 2 ^ 53 <=? a * 2 ^ e / b then e - 1 else e in
    (round_half_even (a * 2 ^ e) b, Z.to_N e).

Definition nanosToMillis : Z := 1000000.

(** [latency] is what [process.hrtime] gives: seconds and nanoseconds. *)
Definition toMillis (latency : Z * Z) : dyadic := fl_add (latency.1 * 1000, 0%N) (fl_div latency.2 nanosToMillis).

Definition greater_than (x : dyadic) (n : Z) : bool := n * 2 ^ Z.of_N x.2 <? x.1.

(** ** Sizes *)

(** [Math.round(length / 1024)] *)
Definition formatSize (length : Z) : jsstr :=
  if 1000 <? length then num_to_string 10 ((length + 512) / 1024) ++ str " KB" else num_to_string 10 length ++ str " bytes".

Definition getPayloadSizes (requestLength : Z) (responseLength : option Z) : jsstr :=
  str "request size " ++ formatSize requestLength ++
  match responseLength with Some n => str " / response size " ++ formatSize n | None => [] end.

(** ** Statements *)

Section statements.
Context {V : Type} (text : V -> jsstr).

Inductive param := Undefined | Null | Value (v : V).
Inductive parameters := NoParameters | Positional (l : list param) | Named (l : list (jsstr * param)).

(** [substr(0, n)] *)
Definition cut (s : jsstr) (n : Z) : jsstr := take (Z.to_nat n) s.

Definition len (s : jsstr) : Z := Z.of_nat (length s).

Definition formatParam (value : param) (maxLength : Z) : jsstr :=
  match value with Undefined => str "undefined" | Null => str "null" | Value v => cut (text v) maxLength end.

(** [paramStringifier] of a named parameter. *)
Definition named_param (key : jsstr) (value : param) (length : Z) : jsstr :=
  let result := cut key length in
  let rem := length - len result - 1 in
  if rem <=? 0 then result else result ++ str ":" ++ formatParam value rem.

(** The loop over the parameters, which are given by their stringifiers: the text
    and whether one is left out. *)
Fixpoint param_texts_loop (first : bool) (params : list (Z -> jsstr)) (remaining maxParameterLength : Z) : jsstr * bool :=
  match params with
  | [] => ([], false)
  | stringifier :: params' =>
      if 0 <? remaining then
        let '(comma, remaining) := if first then ([], remaining) else (str ",", remaining - 1) in
        let paramString := stringifier (Z.min maxParameterLength remaining) in
        let '(rest, more) := param_texts_loop false params' (remaining - len paramString) maxParameterLength in
        (comma ++ paramString ++ rest, more)
      else ([], true)
  end.

Definition stringifiers (params : parameters) : option (list (Z -> jsstr)) :=
  match params with
  | NoParameters => None
  | Positional l => Some (map formatParam l)
  | Named l => Some (map (fun kv => named_param kv.1 kv.2) l)
  end.

Definition getParametersInfo (params : parameters) (remaining maxParameterLength : Z) : jsstr :=
  if remaining <=? 3 then str " [...]"
  else
    match stringifiers params with
    | None => str " []"
    | Some l =>
        let '(message, more) := param_texts_loop true l remaining maxParameterLength in
        str " [" ++ message ++ (if more then str "..." else []) ++ str "]"
    end.

(** The loop over the queries of a batch: the text, and whether [i] is less than
    their number at the end. *)
Fixpoint batch_info_loop (first : bool) (queries : list (jsstr * parameters)) (remaining maxParameterLength : Z) : jsstr * bool :=
  match queries with
  | [] => ([], false)
  | (q, params) :: queries' =>
      if 0 <? remaining then
        let '(comma, remaining) := if first then ([], remaining) else (str ",", remaining - 1) in
        let queryLength := Z.min remaining (len q) in
        let remaining := remaining - queryLength in
        if remaining <=? 0 then (comma ++ cut q queryLength, true)
        else
          let parameters := getParametersInfo params remaining maxParameterLength in
          let '(rest, more) := batch_info_loop false queries' (remaining - len parameters) maxParameterLength in
          (comma ++ cut q queryLength ++ parameters ++ rest, more)
      else ([], true)
  end.

Definition getBatchStatementInfo (queries : list (jsstr * parameters)) (isBatchLogged isPrepared : bool) (maxQueryLength maxParameterLength : Z) : jsstr :=
  let '(message, more) := batch_info_loop true queries maxQueryLength maxParameterLength in
  (if isBatchLogged then str "LOGGED " else []) ++ str "BATCH w/ " ++ num_to_string 10 (Z.of_nat (length queries)) ++
  (if isPrepared then [] else str " not prepared") ++ str " queries (" ++ message ++ (if more then str ",...)" else str ")").

(** The options; [None] is a missing one. *)
Record logger_options := mkLoggerOptions {
  lo_slowThreshold : option Z;
  lo_requestSizeThreshold : option Z;
  lo_messageMaxQueryLength : option Z;
  lo_messageMaxParameterValueLength : option Z;
  lo_messageMaxErrorStackTraceLength : option Z }.

(** [option || default_] *)
Definition or_default (option_ : option Z) (default_ : Z) : Z := match option_ with Some n => if n =? 0 then default_ else n | None => default_ end.

Definition maxQueryLength_of (o : logger_options) : Z := or_default (lo_messageMaxQueryLength o) 500.
Definition maxParameterLength_of (o : logger_options) : Z := or_default (lo_messageMaxParameterValueLength o) 50.

(** A query with its parameters, or the queries of a batch with theirs. *)
Inductive statement := Single (query : jsstr) (params : parameters) | Batch (queries : list (jsstr * parameters)).

Definition getStatementInfo (s : statement) (isBatchLogged isPrepared : bool) (o : logger_options) : jsstr :=
  match s with
  | Batch queries => getBatchStatementInfo queries isBatchLogged isPrepared (maxQueryLength_of o) (maxParameterLength_of o)
  | Single query params =>
      let message := cut query (maxQueryLength_of o) in
      let remaining := maxQueryLength_of o - len message - 1 in
      message ++ getParametersInfo params remaining (maxParameterLength_of o) ++ (if isPrepared then [] else str " (not prepared)")
  end.

(** ** [RequestLogger] *)

Inductive logger_event := Slow | Large | Normal | Failure.

Record logger := mkLogger { lg_options : logger_options; lg_logNormalRequests : bool; lg_logErroredRequests : bool }.

(** A request: the address of the host, the statement, the execution options that
    are used, its length and its latency. *)
Record logged_request := mkLogged {
  lr_address : jsstr;
  lr_statement : statement;
  lr_isBatchLogged : bool;
  lr_isPrepared : bool;
  lr_requestLength : Z;
  lr_latency : Z * Z }.

(** [o.threshold > 0 && x > o.threshold] *)
Definition exceeds (greater : Z -> bool) (threshold : option Z) : bool := match threshold with Some t => (0 <? t) && greater t | None => false end.

Definition info (g : logger) (r : logged_request) : jsstr := getStatementInfo (lr_statement r) (lr_isBatchLogged r) (lr_isPrepared r) (lg_options g).
Definition prefix_text (r : logged_request) : jsstr := str "[" ++ lr_address r ++ str "] ".
Definition millis_text (r : logged_request) : jsstr := num_to_string 10 (fl_floor (toMillis (lr_latency r))).

(** [~~] *)
Definition truncated_millis_text (r : logged_request) : jsstr := num_to_string 10 (to_int32 (fl_floor (toMillis (lr_latency r)))).

Definition logSlow (g : logger) (r : logged_request) (responseLength : option Z) : logger_event * jsstr :=
  (Slow, prefix_text r ++ str "Slow request, took " ++ millis_text r ++ str " ms (" ++ getPayloadSizes (lr_requestLength r) responseLength ++ str "): " ++ info g r).

Definition logLargeRequest (g : logger) (r : logged_request) (responseLength : option Z) : logger_event * jsstr :=
  (Large, prefix_text r ++ str "Request exceeded length, " ++ getPayloadSizes (lr_requestLength r) responseLength ++ str " (took " ++ truncated_millis_text r ++ str " ms): " ++ info g r).

Definition logNormalRequest (g : logger) (r : logged_request) (responseLength : option Z) : logger_event * jsstr :=
  (Normal, prefix_text r ++ str "Request completed normally, took " ++ truncated_millis_text r ++ str " ms (" ++ getPayloadSizes (lr_requestLength r) responseLength ++ str "): " ++ info g r).

Definition stack_text (g : logger) (stack : jsstr) : jsstr := cut stack (or_default (lo_messageMaxErrorStackTraceLength (lg_options g)) 200).

Definition logLargeErrorRequest (g : logger) (r : logged_request) (stack : jsstr) : logger_event * jsstr :=
  (Large, prefix_text r ++ str "Request exceeded length and execution failed, " ++ getPayloadSizes (lr_requestLength r) None ++ str " (took " ++ truncated_millis_text r ++
     str " ms): " ++ info g r ++ str "; error: " ++ stack_text g stack).

Definition logErrorRequest (g : logger) (r : logged_request) (stack : jsstr) : logger_event * jsstr :=
  (Failure, prefix_text r ++ str "Request execution failed, took " ++ truncated_millis_text r ++ str " ms (" ++ getPayloadSizes (lr_requestLength r) None ++
     str "): " ++ info g r ++ str "; error: " ++ stack_text g stack).

Definition is_slow (g : logger) (r : logged_request) : bool := exceeds (greater_than (toMillis (lr_latency r))) (lo_slowThreshold (lg_options g)).
Definition is_large (g : logger) (r : logged_request) : bool := exceeds (fun t => t <? lr_requestLength r) (lo_requestSizeThreshold (lg_options g)).

Definition onSuccess (g : logger) (r : logged_request) (responseLength : option Z) : option (logger_event * jsstr) :=
  if is_slow g r then Some (logSlow g r responseLength)
  else if is_large g r then Some (logLargeRequest g r responseLength)
  else if lg_logNormalRequests g then Some (logNormalRequest g r responseLength)
  else None.

Definition onError (g : logger) (r : logged_request) (stack : jsstr) : option (logger_event * jsstr) :=
  if is_large g r then Some (logLargeErrorRequest g r stack)
  else if lg_logErroredRequests g then Some (logErrorRequest g r stack)
  else None.
End statements.

(** ** What the messages hold *)

Section lengths.
Context {V : Type} (text : V -> jsstr).

Lemma len_app s t : len (s ++ t) = len s + len t.
Proof. unfold len. rewrite length_app. lia. Qed.

Lemma len_cut s n : len (cut s n) = Z.min (Z.max 0 n) (len s).
Proof. unfold len, cut. rewrite length_take. lia. Qed.

Lemma len_nonneg s : 0 <= len s.
Proof. unfold len. lia. Qed.

(** A stringifier keeps to the length it is given, except that undefined and null
    are not cut. *)
Definition within (f : Z -> jsstr) : Prop := forall n, len (f n) <= Z.max 0 n + 9.

Lemma formatParam_within p : within (formatParam text p).
Proof. intros n. destruct p; cbn [formatParam]; [change (len (str "undefined")) with 9|change (len (str "null")) with 4|rewrite len_cut]; lia. Qed.

Lemma named_param_within key p : within (named_param text key p).
Proof.
  intros n. unfold named_param. pose proof (len_cut key n) as Hk. pose proof (len_nonneg key).
  destruct (Z.leb_spec (n - len (cut key n) - 1) 0); [lia|]. rewrite !len_app. change (len (str ":")) with 1.
  pose proof (formatParam_within p (n - len (cut key n) - 1)). lia.
Qed.

Lemma stringifiers_within params l : stringifiers text params = Some l -> Forall within l.
Proof.
  destruct params as [|ps|ps]; cbn; intros [= <-]; apply Forall_map, Forall_forall; intros p _; [apply formatParam_within|apply named_param_within].
Qed.

(** The loop goes on while something remains. *)
Definition room (remaining extra : Z) : Z := if 0 <? remaining then remaining + extra else 0.

Lemma param_texts_loop_len first l remaining maxP : Forall within l -> len (param_texts_loop first l remaining maxP).1 <= room remaining 9.
Proof.
  intros Hl. revert first remaining. induction Hl as [|f l Hf Hl IH]; intros first remaining; cbn [param_texts_loop]; unfold room.
  { cbn [fst]. change (len []) with 0. destruct (Z.ltb_spec 0 remaining); lia. }
  destruct (Z.ltb_spec 0 remaining); [|done].
  set (r := if first then remaining else remaining - 1). set (comma := if first then [] else str ",").
  replace (if first then ([], remaining) else (str ",", remaining - 1)) with (comma, r) by (unfold comma, r; by destruct first).
  assert (Hc : len comma = remaining - r /\ 0 <= r) by (unfold comma, r; destruct first; [change (len []) with 0|change (len (str ",")) with 1]; lia). clearbody comma r. cbv zeta.
  specialize (Hf (Z.min maxP r)). specialize (IH false (r - len (f (Z.min maxP r)))). unfold room in IH.
  destruct (param_texts_loop _ _ _ _) as [rest more]. cbn [fst] in *. rewrite !len_app. destruct (Z.ltb_spec 0 (r - len (f (Z.min maxP r)))); lia.
Qed.

Lemma getParametersInfo_len params remaining maxP : len (getParametersInfo text params remaining maxP) <= Z.max 0 remaining + 15.
Proof.
  unfold getParametersInfo. destruct (Z.leb_spec remaining 3); [change (len (str " [...]")) with 6; lia|].
  destruct (stringifiers text params) as [l|] eqn:El; [|change (len (str " []")) with 3; lia].
  pose proof (param_texts_loop_len true l remaining maxP (stringifiers_within _ _ El)) as H1. unfold room in H1.
  destruct (Z.ltb_spec 0 remaining); [|lia]. destruct (param_texts_loop _ _ _ _) as [message more]. cbn [fst] in H1. rewrite !len_app.
  change (len (str " [")) with 2. change (len (str "]")) with 1. destruct more; [change (len (str "...")) with 3|change (len []) with 0]; lia.
Qed.

Lemma batch_info_loop_len first queries remaining maxP : len (batch_info_loop text first queries remaining maxP).1 <= room remaining 15.
Proof.
  revert first remaining. induction queries as [|[q params] queries IH]; intros first remaining; cbn [batch_info_loop]; unfold room.
  { cbn [fst]. change (len []) with 0. destruct (Z.ltb_spec 0 remaining); lia. }
  destruct (Z.ltb_spec 0 remaining); [|done].
  set (r := if first then remaining else remaining - 1). set (comma := if first then [] else str ",").
  replace (if first then ([], remaining) else (str ",", remaining - 1)) with (comma, r) by (unfold comma, r; by destruct first).
  assert (Hc : len comma = remaining - r /\ 0 <= r) by (unfold comma, r; destruct first; [change (len []) with 0|change (len (str ",")) with 1]; lia). clearbody comma r. cbv zeta.
  pose proof (len_cut q (Z.min r (len q))) as Hq. pose proof (len_nonneg q).
  destruct (Z.leb_spec (r - Z.min r (len q)) 0); [cbn [fst]; rewrite len_app; lia|].
  pose proof (getParametersInfo_len params (r - Z.min r (len q)) maxP) as Hp.
  set (p := getParametersInfo _ _ _ _) in *. specialize (IH false (r - Z.min r (len q) - len p)). unfold room in IH.
  destruct (batch_info_loop _ _ _ _ _) as [rest more]. cbn [fst] in *. rewrite !len_app. destruct (Z.ltb_spec 0 (r - Z.min r (len q) - len p)); lia.
Qed.

(** When the text of a batch does not say that something is left out it has the
    text of every query. *)
Lemma batch_info_loop_all first queries remaining maxP message :
  batch_info_loop text first queries remaining maxP = (message, false) ->
  Forall (fun q => exists before after, message = before ++ q.1 ++ after) queries.
Proof.
  revert first remaining message. induction queries as [|[q params] queries IH]; intros first remaining message; cbn [batch_info_loop]; [constructor|].
  destruct (0 <? remaining); [|discriminate].
  destruct (if first then _ else _) as [comma r]. destruct (Z.leb_spec (r - Z.min r (len q)) 0); [discriminate|].
  destruct (batch_info_loop _ _ _ _ _) as [rest more] eqn:El. intros [= <- ->].
  assert (Hq : cut q (Z.min r (len q)) = q) by (unfold cut; apply take_ge; unfold len in *; lia). rewrite Hq. constructor.
  - by exists comma, (getParametersInfo text params (r - Z.min r (len q)) maxP ++ rest).
  - eapply Forall_impl; [exact (IH _ _ _ El)|]. intros [q' ps'] (before & after & ->). cbn [fst].
    exists (comma ++ q ++ getParametersInfo text params (r - Z.min r (len q)) maxP ++ before), after. by rewrite <- !app_assoc.
Qed.

(** However long the statement and its parameters are, its text has at most
    [messageMaxQueryLength] characters and a constant more (the decorations, and
    undefined or null in full), and it starts with the query as far as it fits; a
    batch text that ends with a plain parenthesis holds all its queries. *)
Theorem statement_info_bounds s isBatchLogged isPrepared (o : logger_options) :
  let info := getStatementInfo text s isBatchLogged isPrepared o in
  let max := Z.max 0 (maxQueryLength_of o) in
  match s with
  | Single query params => len info <= max + 30 /\ cut query (maxQueryLength_of o) `prefix_of` info
  | Batch queries =>
      len info <= max + 59 + len (num_to_string 10 (Z.of_nat (length queries))) /\
      (~ (exists start, info = start ++ str ",...)") -> Forall (fun q => exists before after, info = before ++ q.1 ++ after) queries)
  end.
Proof.
  cbn zeta. destruct s as [query params|queries]; cbn [getStatementInfo].
  - split; [|apply prefix_app_r; done]. rewrite !len_app.
    pose proof (getParametersInfo_len params (maxQueryLength_of o - len (cut query (maxQueryLength_of o)) - 1) (maxParameterLength_of o)).
    pose proof (len_cut query (maxQueryLength_of o)). pose proof (len_nonneg query).
    destruct isPrepared; [change (len []) with 0|change (len (str " (not prepared)")) with 15]; lia.
  - unfold getBatchStatementInfo. pose proof (batch_info_loop_len true queries (maxQueryLength_of o) (maxParameterLength_of o)) as H. unfold room in H.
    destruct (batch_info_loop _ _ _ _ _) as [message more] eqn:El. split.
    + rewrite !len_app. change (len (str "BATCH w/ ")) with 9. change (len (str " queries (")) with 10. cbn [fst] in H.
      assert (len (if isBatchLogged then str "LOGGED " else []) <= 7) by by destruct isBatchLogged.
      assert (len (if isPrepared then [] else str " not prepared") <= 13) by by destruct isPrepared.
      assert (len (if more then str ",...)" else str ")") <= 5) by by destruct more.
      destruct (Z.ltb_spec 0 (maxQueryLength_of o)); lia.
    + set (a := if isBatchLogged then _ else _). set (b := str "BATCH w/ "). set (c := num_to_string _ _). set (d := if isPrepared then _ else _). set (e := str " queries (").
      intros Hmore. destruct more.
      { destruct Hmore. exists (a ++ b ++ c ++ d ++ e ++ message). by rewrite <- !app_assoc. }
      apply batch_info_loop_all in El. eapply Forall_impl; [exact El|]. intros [q ps] (before & after & ->). cbn [fst].
      exists (a ++ b ++ c ++ d ++ e ++ before), (after ++ str ")"). by rewrite <- !app_assoc.
Qed.
End lengths.

(** The options, messages and their texts on small requests. *)
Definition sample_request : logged_request :=
  mkLogged (str "1.2.3.4:9042") (Single (str "SELECT 1") (Positional [Value (str "abc"); Undefined])) false false 2048 (1, 234567891).
Definition sample_options (slow large : option Z) : logger_options := mkLoggerOptions slow large (Some 20) (Some 2) None.

Example slow_message :
  onSuccess (V := jsstr) id (mkLogger (sample_options (Some 1000) (Some 100)) true true) sample_request (Some 10) =
  Some (Slow, str "[1.2.3.4:9042] Slow request, took 1234 ms (request size 2 KB / response size 10 bytes): SELECT 1 [ab,undefined] (not prepared)").
Proof. vm_compute. reflexivity. Qed.

Example large_error_message :
  onError (V := jsstr) id (mkLogger (sample_options (Some 1000) (Some 100)) true true) sample_request (str "Error: x") =
  Some (Large, str "[1.2.3.4:9042] Request exceeded length and execution failed, request size 2 KB (took 1234 ms): SELECT 1 [ab,undefined] (not prepared); error: Error: x").
Proof. vm_compute. reflexivity. Qed.

(** undefined is longer than [messageMaxParameterValueLength]. *)
Example undefined_not_cut : getParametersInfo (V := jsstr) id (Positional [Undefined]) 10 2 = str " [undefined]".
Proof. reflexivity. Qed.
