(* ===== verification/Addresses.v ===== *)
(** [AddressResolver] of [lib/utils.js] and the translators of
    [lib/policies/address-resolution.js].

    DNS is not part of the model: its answers are arguments. *)
From S2P Require Import Prelude.
From S2P Require Import JsNum.
From S2P Require Import JsStr.
From S2P Require Import Flow.

(** ** [AddressResolver] *)

Section resolver.
Context {Er : Type}.

Definition max_index : Z := 2147483647.

(** The fields; [rs_refreshing] has the calls of [refresh] that wait for the event
    "finished", after the one that resolves.  [rs_resolutions] counts the requests
    to DNS and [rs_refreshed] are the calls that ended. *)
Record resolver := mkResolver {
  rs_nameOrIp : jsstr;
  rs_isIp : bool;
  rs_index : Z;
  rs_addresses : option (list jsstr);
  rs_refreshing : option (nat * list nat);
  rs_resolutions : nat;
  rs_refreshed : list nat }.

Definition AddressResolver_new (nameOrIp : jsstr) (isIp : bool) : resolver := mkResolver nameOrIp isIp 0 None None 0 [].

(** What follows the answer in [_resolve]: the addresses, or what it throws; [None]
    is the error of a name without addresses. *)
Definition resolve_ (x : resolver) (answer : option (list jsstr) + Er) : resolver * option (option Er) :=
  match answer with
  | inr e => (x, Some (Some e))
  | inl (Some ((_ :: _) as arr)) =>
      (mkResolver (rs_nameOrIp x) (rs_isIp x) (rs_index x) (Some arr) (rs_refreshing x) (rs_resolutions x) (rs_refreshed x), None)
  | inl _ => (x, Some None)
  end.

(** [init]: whether it throws; the answer is used if the name is not an address. *)
Definition init (x : resolver) (answer : option (list jsstr) + Er) : resolver * option (option Er) :=
  if rs_isIp x then (x, None)
  else resolve_ (mkResolver (rs_nameOrIp x) (rs_isIp x) (rs_index x) (rs_addresses x) (rs_refreshing x) (S (rs_resolutions x)) (rs_refreshed x)) answer.

(** A call of [refresh], up to its first await. *)
Definition refresh (x : resolver) (id : nat) : resolver :=
  if rs_isIp x then mkResolver (rs_nameOrIp x) (rs_isIp x) (rs_index x) (rs_addresses x) (rs_refreshing x) (rs_resolutions x) (rs_refreshed x ++ [id])
  else
    match rs_refreshing x with
    | Some (first, waiting) =>
        mkResolver (rs_nameOrIp x) (rs_isIp x) (rs_index x) (rs_addresses x) (Some (first, waiting ++ [id])) (rs_resolutions x) (rs_refreshed x)
    | None =>
        mkResolver (rs_nameOrIp x) (rs_isIp x) (rs_index x) (rs_addresses x) (Some (id, [])) (S (rs_resolutions x)) (rs_refreshed x)
    end.

(** The answer to the call that resolves: the error is ignored, the waiting calls
    get the event. *)
Definition refresh_answer (x : resolver) (answer : option (list jsstr) + Er) : option resolver :=
  match rs_refreshing x with
  | None => None
  | Some (first, waiting) =>
      let '(x, _) := resolve_ x answer in
      Some (mkResolver (rs_nameOrIp x) (rs_isIp x) (rs_index x) (rs_addresses x) None (rs_resolutions x) (rs_refreshed x ++ first :: waiting))
  end.

Definition getIp (x : resolver) : result (option jsstr * resolver) :=
  if rs_isIp x then Ok (Some (rs_nameOrIp x), x)
  else
    match rs_addresses x with
    | None => Throw TypeError
    | Some addresses =>
        let item := addresses !! Z.to_nat (rs_index x mod Z.of_nat (length addresses)) in
        let index := if rs_index x =? max_index then 0 else rs_index x + 1 in
        Ok (item, mkResolver (rs_nameOrIp x) (rs_isIp x) index (rs_addresses x) (rs_refreshing x) (rs_resolutions x) (rs_refreshed x))
    end.

Inductive resolver_event := RefreshCall (id : nat) | RefreshAnswer (answer : option (list jsstr) + Er) | GetIp.

(** The state after an event and the address that it gives. *)
Definition resolver_step (x : resolver) (ev : resolver_event) : option (resolver * list jsstr) :=
  match ev with
  | RefreshCall id => Some (refresh x id, [])
  | RefreshAnswer answer => (fun x => (x, [])) <$> refresh_answer x answer
  | GetIp => match getIp x with Ok (Some ip, x) => Some (x, [ip]) | Ok (None, _) => None | Throw _ => None end
  end.

Fixpoint resolver_run (x : resolver) (evs : list resolver_event) : option (resolver * list jsstr) :=
  match evs with
  | [] => Some (x, [])
  | ev :: evs' =>
      match resolver_step x ev with
      | Some (x, ips) => (fun y => (y.1, ips ++ y.2)) <$> resolver_run x evs'
      | None => None
      end
  end.

(** ** Theorems *)

(** After [init] there are addresses, the index is a 32-bit integer and one
    resolution is in progress at most. *)
Definition resolver_ok (x : resolver) : Prop :=
  0 <= rs_index x <= max_index /\ (rs_isIp x = false -> exists a l, rs_addresses x = Some (a :: l)) /\ (rs_isIp x = true -> rs_refreshing x = None).

Lemma init_ok nameOrIp isIp answer : (init (AddressResolver_new nameOrIp isIp) answer).2 = None -> resolver_ok (init (AddressResolver_new nameOrIp isIp) answer).1.
Proof.
  unfold init, resolver_ok, max_index. destruct isIp; cbn; [intros _; split_and!; try lia; try done|].
  destruct answer as [[[|a l]|]|e]; try done. intros _. cbn. split_and!; try lia; try done; eauto.
Qed.

Lemma getIp_ok x : resolver_ok x -> exists ip y, getIp x = Ok (Some ip, y) /\ resolver_ok y.
Proof.
  intros Hx. pose proof Hx as (Hi & Ha & Hr). unfold getIp. destruct (rs_isIp x) eqn:Eip; [by eexists _, x|].
  destruct (Ha eq_refl) as (a & l & ->). pose proof (Z.mod_pos_bound (rs_index x) (Z.of_nat (length (a :: l))) ltac:(cbn; lia)).
  destruct (lookup_lt_is_Some_2 (a :: l) (Z.to_nat (rs_index x mod Z.of_nat (length (a :: l)))) ltac:(lia)) as [ip ->].
  eexists _, _. split; [reflexivity|]. unfold resolver_ok. cbn. split_and!; try done; eauto; destruct (Z.eqb_spec (rs_index x) max_index); unfold max_index in *; lia.
Qed.

Lemma resolver_step_ok x ev y ips : resolver_ok x -> resolver_step x ev = Some (y, ips) -> resolver_ok y.
Proof.
  intros Hx. pose proof Hx as (Hi & Ha & Hr). destruct ev as [id|answer|]; cbn.
  - intros [= <- _]. unfold refresh, resolver_ok. destruct (rs_isIp x) eqn:Eip; [|destruct (rs_refreshing x) as [[first waiting]|]]; cbn; rewrite ?Eip; split_and!; try lia; auto.
  - unfold refresh_answer. destruct (rs_refreshing x) as [[first waiting]|]; [|done]. unfold resolve_, resolver_ok.
    destruct answer as [[[|a l]|]|e]; cbn; intros [= <- _]; cbn; split_and!; try lia; eauto.
  - destruct (getIp_ok x Hx) as (ip & z & Hz & Hok). rewrite Hz. by intros [= <- _].
Qed.

(** Every call of [refresh] ended or waits, in the order of the calls. *)
Definition refresh_calls (evs : list resolver_event) : list nat := omap (fun ev => match ev with RefreshCall id => Some id | _ => None end) evs.
Definition pending (x : resolver) : list nat := match rs_refreshing x with Some (first, waiting) => first :: waiting | None => [] end.

Lemma resolver_run_calls x evs y ips : resolver_ok x -> resolver_run x evs = Some (y, ips) ->
  rs_refreshed y ++ pending y = (rs_refreshed x ++ pending x) ++ refresh_calls evs /\ resolver_ok y /\ rs_isIp y = rs_isIp x /\ rs_nameOrIp y = rs_nameOrIp x.
Proof.
  revert x ips. induction evs as [|ev evs IH]; intros x ips Hx; cbn [resolver_run]; [intros [= <- _]; by rewrite app_nil_r|].
  destruct (resolver_step x ev) as [[z ips']|] eqn:Ez; [|done]. pose proof (resolver_step_ok _ _ _ _ Hx Ez) as Hz.
  destruct (resolver_run z evs) as [[y' rest]|] eqn:Ey; [|done]. intros [= <- _]. destruct (IH _ _ Hz Ey) as (H1 & H2 & H3 & H4). cbn [fst].
  rewrite H1, H3, H4. clear IH H1 H3 H4 Ey.
  destruct ev as [id|answer|]; cbn in Ez; cbn [refresh_calls omap list_omap].
  - injection Ez as <- _. change (refresh_calls (RefreshCall id :: evs)) with (id :: refresh_calls evs). unfold refresh, pending. destruct Hx as (_ & _ & Hr).
    destruct (rs_isIp x) eqn:Eip; [rewrite (Hr eq_refl)|destruct (rs_refreshing x) as [[first waiting]|]]; cbn; rewrite ?Eip, ?app_nil_r, <- ?app_assoc; split_and!; try done. cbn. by rewrite <- app_assoc.
  - unfold refresh_answer, pending in *. destruct (rs_refreshing x) as [[first waiting]|]; [|done].
    destruct answer as [[[|a l]|]|e]; cbn in Ez; injection Ez as <- _; cbn; by rewrite app_nil_r.
  - destruct (getIp x) as [[[ip|] z']|] eqn:Eg; try done. injection Ez as <- _. unfold getIp in Eg.
    destruct (rs_isIp x) eqn:Eip; [by injection Eg as _ <-|]. destruct (rs_addresses x); [|done]. injection Eg as _ <-. by rewrite <- Eip.
Qed.

(** [k] calls of [getIp] with no refresh between them give the addresses in turn. *)
Lemma getIp_turns k x a l : rs_isIp x = false -> rs_addresses x = Some (a :: l) -> 0 <= rs_index x -> rs_index x + Z.of_nat k <= max_index ->
  exists y, resolver_run x (replicate k GetIp) = Some (y, map (fun i => nth ((Z.to_nat (rs_index x) + i) mod S (length l)) (a :: l) a) (seq 0 k)) /\
    rs_index y = rs_index x + Z.of_nat k.
Proof.
  intros Hip. revert x Hip. induction k as [|k IH]; intros x Hip Ha H0 Hk; [exists x; split; [done|lia]|].
  cbn [replicate resolver_run resolver_step]. unfold getIp. rewrite Hip, Ha.
  assert (Hl : (a :: l) !! Z.to_nat (rs_index x mod Z.of_nat (length (a :: l))) = Some (nth ((Z.to_nat (rs_index x) + 0) mod S (length l)) (a :: l) a)).
  { replace (Z.to_nat (rs_index x mod Z.of_nat (length (a :: l)))) with (Z.to_nat (rs_index x) mod S (length l))%nat.
    - rewrite Nat.add_0_r. rewrite nth_lookup. pose proof (Nat.mod_upper_bound (Z.to_nat (rs_index x)) (S (length l)) ltac:(lia)).
      by destruct (lookup_lt_is_Some_2 (a :: l) (Z.to_nat (rs_index x) mod S (length l)) ltac:(cbn; lia)) as [ip ->].
    - rewrite Z2Nat.inj_mod by (cbn; lia). by rewrite Nat2Z.id. }
  rewrite Hl. set (z := mkResolver _ _ _ _ _ _ _).
  assert (Hz : rs_index z = rs_index x + 1) by (unfold z; cbn; destruct (Z.eqb_spec (rs_index x) max_index); lia).
  destruct (IH z) as (y & Hy & Hi); [done|done|lia|lia|]. rewrite Hy. exists y. cbn [fmap option_fmap option_map fst snd app]. split; [|lia].
  do 2 f_equal. cbn [seq map]. f_equal. rewrite <- seq_shift, map_map. apply map_ext. intros i. rewrite Hz. f_equal. f_equal. lia.
Qed.

(** Once [init] has succeeded, for every order of calls and answers: [getIp]
    gives an address, the calls of [refresh] end in the order they came with one
    resolution for those that overlap, whether it fails or not, and consecutive
    calls of [getIp] go round the addresses. *)
Theorem AddressResolver_spec nameOrIp isIp answer evs x ips :
  (init (AddressResolver_new nameOrIp isIp) answer).2 = None ->
  resolver_run (init (AddressResolver_new nameOrIp isIp) answer).1 evs = Some (x, ips) ->
  rs_refreshed x ++ pending x = refresh_calls evs /\
  (forall id, exists y, resolver_step x (RefreshCall id) = Some y) /\
  (exists ip y, resolver_step x GetIp = Some (y, [ip]) /\ (isIp = true -> ip = nameOrIp)) /\
  (isIp = false -> exists a l, rs_addresses x = Some (a :: l) /\
    forall k, rs_index x + Z.of_nat k <= max_index -> exists y,
      resolver_run x (replicate k GetIp) = Some (y, map (fun i => nth ((Z.to_nat (rs_index x) + i) mod S (length l)) (a :: l) a) (seq 0 k))).
Proof.
  intros Hinit Hrun. pose proof (init_ok _ _ _ Hinit) as H0. set (x0 := (init _ _).1) in *.
  assert (Hx0 : rs_refreshed x0 ++ pending x0 = [] /\ rs_isIp x0 = isIp /\ rs_nameOrIp x0 = nameOrIp).
  { unfold x0, init, AddressResolver_new, pending. destruct isIp; [done|]. by destruct answer as [[[|a l]|]|e]. }
  destruct Hx0 as (Hc0 & Hip0 & Hn0). clearbody x0. destruct (resolver_run_calls _ _ _ _ H0 Hrun) as (Hc & Hok & Hip & Hn).
  rewrite Hc0 in Hc. rewrite Hip0 in Hip. rewrite Hn0 in Hn. split_and!; [done|by eexists| |].
  - destruct (getIp_ok x Hok) as (ip & y & Hg & _). exists ip, y. cbn. rewrite Hg. split; [done|]. intros ->. unfold getIp in Hg. rewrite Hip in Hg. congruence.
  - intros ->. destruct Hok as (Hi & Ha & _). destruct (Ha Hip) as (a & l & Hl). exists a, l. split; [done|]. intros k Hk.
    destruct (getIp_turns k x a l Hip Hl) as (y & Hy & _); [lia|done|]. by exists y.
Qed.
End resolver.
Arguments resolver_event : clear implicits.

Lemma AddressResolver_spec_witness :
  let start := init (Er := unit) (AddressResolver_new (str "h") false) (inl (Some [str "1"; str "2"])) in
  start.2 = None /\ exists x ips, resolver_run start.1 [GetIp; RefreshCall 0; RefreshCall 1; RefreshAnswer (inr tt); GetIp] = Some (x, ips) /\
    rs_refreshed x ++ pending x = [0; 1]%nat.
Proof.
  split; [reflexivity|]. do 2 eexists. split; [vm_compute; reflexivity|].
  match goal with |- rs_refreshed ?x ++ _ = _ =>
    exact (proj1 (AddressResolver_spec (Er := unit) (str "h") false (inl (Some [str "1"; str "2"])) [GetIp; RefreshCall 0; RefreshCall 1; RefreshAnswer (inr tt); GetIp] x
      [str "1"; str "2"] eq_refl ltac:(vm_compute; reflexivity))) end.
Defined.

(** ** Translators *)

Section translators.
Context {Er : Type} (port_text : jsstr).

Definition AddressTranslator_translate (address : jsstr) : jsstr := address ++ str ":" ++ port_text.

(** [dns.reverse] and [dns.lookup] answer; [None] are no host names, or an
    undefined first name. *)
Context (reverse : jsstr -> option (list jsstr) + Er) (lookup : jsstr -> jsstr + Er).

(** The variables [name] and [newAddress] after the functions of the series, and
    what each passes to [next]. *)
Definition resolve_function (address : jsstr) : option jsstr * option Er :=
  match reverse address with
  | inr e => (None, Some e)
  | inl (Some (name :: _)) => (Some name, None)
  | inl _ => (None, None)
  end.

Definition lookup_function (address : jsstr) (name : option jsstr) : jsstr * option Er :=
  match name with
  | Some ((_ :: _) as name) => match lookup name with inl lookupAddress => (lookupAddress, None) | inr e => (address, Some e) end
  | _ => (address, None)
  end.

(** The endpoint given to the callback and the calls of [logError]. *)
Definition EC2MultiRegionTranslator_translate (address : jsstr) : jsstr * list (jsstr * Er) :=
  let '(name, err1) := resolve_function address in
  let '(newAddress, err2) := match err1 with Some _ => (address, None) | None => lookup_function address name end in
  let err := match err1 with Some e => Some e | None => err2 end in
  (newAddress ++ str ":" ++ port_text, match err with Some e => [(address, e)] | None => [] end).

(** The functions run in a series of two: its outcome is the error that is
    logged. *)
Lemma EC2_series address (sync : nat -> bool) :
  let answers i := (sync i, (match i with O => (resolve_function address).2 | _ => (lookup_function address (resolve_function address).1).2 end, @None unit)) in
  exists calls out, series_run answers (fun v _ => series_next 2 v) 2 (series_first (Er := Er) (R := unit) 2).1 (series_first 2).2 = Some (calls, out) /\
    (EC2MultiRegionTranslator_translate address).2 = match out with inr e => [(address, e)] | inl _ => [] end.
Proof.
  cbn zeta. set (answers := fun i : nat => _). unfold EC2MultiRegionTranslator_translate.
  destruct (resolve_function address) as [name [e|]] eqn:Er1.
  - edestruct (series_run_stops (HS := series_Series 1) answers 0 2) as (calls & Hrun & _); [|lia|exists calls; eexists; split; [exact Hrun|]].
    + split; [lia|]. left. by cbn.
    + unfold outcome. by cbn.
  - edestruct (series_run_stops (HS := series_Series 1) answers 1 2) as (calls & Hrun & _); [|lia|exists calls; eexists; split; [exact Hrun|]].
    + split; [|by right]. intros k Hk. replace k with 0%nat by lia. cbn. done.
    + unfold outcome. cbn. destruct (lookup_function address name) as [newAddress [e|]]; done.
Qed.
End translators.
