(* ===== verification/Concurrent.v ===== *)
(** [lib/concurrent/index.js] and [lib/cache.js]: the execution of many queries
    at a time.

    The client, whose answers come from the server, is not part of the model:
    an answer arrives as an event, in any order.  [R] are the result sets, [Er]
    the errors, [Pr] the prepared statements, [V] the parameters of a query.
    What is settled, and the executions sent to the client, are kept as logs;
    the code has no such fields.  The cache of prepared statements is a plain
    object; the keys it inherits (["toString"], ...) are no queries. *)
From stdpp Require Import gmap.
From S2P Require Import Prelude.
From S2P Require Import JsNum.
From S2P Require Import JsStr.
From S2P Require Import Utils.

(** ** [PreparedCache] *)

Definition PreparedCache (Pr : Type) := obj Pr.
Definition getElement {Pr} (cache : PreparedCache Pr) (key : jsstr) : option Pr := obj_get cache key.
Definition storeElement {Pr} (cache : PreparedCache Pr) (key : jsstr) (element : Pr) : PreparedCache Pr :=
  obj_set cache key element.

(** ** [ResultSetGroup] *)

Section results.
Context {R Er : Type}.

(** A result set, or an error. *)
Abbreviation answer := (R + Er)%type.

Record concurrent_options := mkConcurrent {
  raiseOnFirstError : option bool;
  concurrencyLevel : option nat;
  collectResults : bool;
  maxErrors : option nat }.

(** [value || 100] *)
Definition or_100 (value : option nat) : nat := match value with Some (S n) => S n | _ => 100 end.

Record ResultSetGroup := mkGroup {
  rg_collectResults : bool;
  rg_maxErrors : nat;
  totalExecuted : nat;
  errors : list Er;
  rg_resultItems : gmap nat answer }.

Definition ResultSetGroup_new (o : concurrent_options) : ResultSetGroup :=
  mkGroup (collectResults o) (or_100 (maxErrors o)) 0 [] ∅.

(** The property [resultItems]. *)
Definition resultItems (g : ResultSetGroup) : result (gmap nat answer) :=
  if rg_collectResults g then Ok (rg_resultItems g) else Throw PlainError.

Definition put_item (g : ResultSetGroup) (index : nat) (a : answer) : gmap nat answer :=
  if rg_collectResults g then <[index := a]> (rg_resultItems g) else rg_resultItems g.

Definition setResultItem (g : ResultSetGroup) (index : nat) (rs : R) : ResultSetGroup :=
  mkGroup (rg_collectResults g) (rg_maxErrors g) (S (totalExecuted g)) (errors g) (put_item g index (inl rs)).

Definition setError (g : ResultSetGroup) (index : nat) (err : Er) : ResultSetGroup :=
  mkGroup (rg_collectResults g) (rg_maxErrors g) (S (totalExecuted g))
    (if (length (errors g) <? rg_maxErrors g)%nat then errors g ++ [err] else errors g) (put_item g index (inr err)).

(** [options.raiseOnFirstError !== false] *)
Definition raises (o : concurrent_options) : bool :=
  match raiseOnFirstError o with Some false => false | _ => true end.
End results.
Arguments ResultSetGroup : clear implicits.
Arguments ResultSetGroup_new {R Er} o.

(** ** [ArrayBasedExecutor] *)

Section array_executor.
Context {R Er Pr V : Type}.

(** One of the concurrent chains of calls of [_executeOneAtATime]: before the
    call of an iteration, waiting for the prepared statement, waiting for the
    result, or settled; [n] counts the items that were executed. *)
Inductive worker :=
  | Calling (n : nat)
  | Preparing (n : nat)
  | Executing (n : nat) (prepared : Pr)
  | Finished (n : nat)
  | Rejected (n : nat).

(** [_stop], [_cache], [_result], the chains, and the first rejection, which
    [Promise.all] passes on. *)
Record array_executor := mkArrayExecutor {
  ae_stop : bool;
  ae_cache : PreparedCache Pr;
  ae_result : ResultSetGroup R Er;
  ae_workers : list worker;
  ae_rejected : option Er;
  ae_sent : list (nat * Pr * V);
  ae_settled : list (nat * (R + Er)) }.

Context (o : concurrent_options) (parameters : list (jsstr * V)).

(** [_concurrencyLevel] *)
Definition array_level : nat := Nat.min (or_100 (concurrencyLevel o)) (length parameters).

Definition ArrayBasedExecutor_new : array_executor :=
  mkArrayExecutor false [] (ResultSetGroup_new o) (replicate array_level (Calling 0)) None [] [].

(** What happens to the chain [i]: its next call is made, its statement is
    prepared, or its execution is settled. *)
Inductive array_event :=
  | Call (i : nat)
  | Prepare (i : nat) (a : Pr + Er)
  | Settle (i : nat) (a : R + Er).

Definition set_worker (x : array_executor) (i : nat) (w : worker) : array_executor :=
  mkArrayExecutor (ae_stop x) (ae_cache x) (ae_result x) (<[i := w]> (ae_workers x)) (ae_rejected x) (ae_sent x) (ae_settled x).

Definition reject (x : array_executor) (i n : nat) (e : Er) : array_executor :=
  mkArrayExecutor (ae_stop x) (ae_cache x) (ae_result x) (<[i := Rejected n]> (ae_workers x))
    (match ae_rejected x with Some e => Some e | None => Some e end) (ae_sent x) (ae_settled x).

(** [rustyExecute] *)
Definition send (x : array_executor) (i n index : nat) (prepared : Pr) (params : V) : array_executor :=
  mkArrayExecutor (ae_stop x) (ae_cache x) (ae_result x) (<[i := Executing n prepared]> (ae_workers x)) (ae_rejected x)
    (ae_sent x ++ [(index, prepared, params)]) (ae_settled x).

Definition store (x : array_executor) (query : jsstr) (prepared : Pr) : array_executor :=
  mkArrayExecutor (ae_stop x) (storeElement (ae_cache x) query prepared) (ae_result x) (ae_workers x) (ae_rejected x)
    (ae_sent x) (ae_settled x).

Definition settle (x : array_executor) (g : ResultSetGroup R Er) (index : nat) (a : R + Er) : array_executor :=
  mkArrayExecutor (ae_stop x) (ae_cache x) g (ae_workers x) (ae_rejected x) (ae_sent x) (ae_settled x ++ [(index, a)]).

Definition stopped (x : array_executor) : array_executor :=
  mkArrayExecutor true (ae_cache x) (ae_result x) (ae_workers x) (ae_rejected x) (ae_sent x) (ae_settled x).

Definition array_index (i n : nat) : nat := i + array_level * n.

(** [_setError] of the chain [i]. *)
Definition array_setError (x : array_executor) (i n : nat) (err : Er) : array_executor :=
  let index := array_index i n in
  let x := settle x (setError (ae_result x) index err) index (inr err) in
  if raises o then reject (stopped x) i (S n) err else set_worker x i (Calling (S n)).

(** [_executeOneAtATime] and what follows its promises; [None] is an event that
    cannot happen. *)
Definition array_step (x : array_executor) (ev : array_event) : option array_executor :=
  match ev with
  | Call i =>
      match ae_workers x !! i with
      | Some (Calling n) =>
          let index := array_index i n in
          match parameters !! index with
          | Some (query, params) =>
              if ae_stop x then Some (set_worker x i (Finished n))
              else
                match getElement (ae_cache x) query with
                | Some prepared => Some (send x i n index prepared params)
                | None => Some (set_worker x i (Preparing n))
                end
          | None => Some (set_worker x i (Finished n))
          end
      | _ => None
      end
  | Prepare i a =>
      match ae_workers x !! i with
      | Some (Preparing n) =>
          let index := array_index i n in
          match parameters !! index, a with
          | Some (query, params), inl prepared => Some (send (store x query prepared) i n index prepared params)
          | _, inr err => Some (reject x i n err)
          | None, _ => None
          end
      | _ => None
      end
  | Settle i a =>
      match ae_workers x !! i with
      | Some (Executing n _) =>
          match a with
          | inl rs =>
              let index := array_index i n in
              Some (set_worker (settle x (setResultItem (ae_result x) index rs) index a) i (Calling (S n)))
          | inr err => Some (array_setError x i n err)
          end
      | _ => None
      end
  end.

Fixpoint array_run (x : array_executor) (evs : list array_event) : option array_executor :=
  match evs with
  | [] => Some x
  | ev :: evs' => match array_step x ev with Some x => array_run x evs' | None => None end
  end.

Definition worker_done (w : worker) : bool := match w with Finished _ | Rejected _ => true | _ => false end.

(** The promise of [execute]. *)
Definition array_outcome (x : array_executor) : option (ResultSetGroup R Er + Er) :=
  match ae_rejected x with
  | Some e => Some (inr e)
  | None => if forallb worker_done (ae_workers x) then Some (inl (ae_result x)) else None
  end.
End array_executor.
Arguments array_executor : clear implicits.
Arguments worker : clear implicits.
Arguments array_event : clear implicits.

(** ** [StreamBasedExecutor] *)

Section stream_executor.
Context {R Er : Type}.

(** The fields; [se_paused] belongs to the stream; [se_flights] are the
    executions the client has not answered, and [se_reactions] counts those whose
    answer was recorded and whose last reaction has not run. *)
Record stream_executor := mkStreamExecutor {
  se_inFlight : nat;
  se_index : nat;
  se_result : ResultSetGroup R Er;
  se_readEnded : bool;
  se_paused : bool;
  se_promise : option (unit + option Er);
  se_flights : list nat;
  se_reactions : nat;
  se_settled : list (nat * (R + Er)) }.

Context (o : concurrent_options).

Definition stream_level : nat := or_100 (concurrencyLevel o).

Definition StreamBasedExecutor_new : stream_executor :=
  mkStreamExecutor 0 0 (ResultSetGroup_new o) false false None [] 0 [].

(** The stream emits [data], [error] or [end]; the client answers; the reaction
    to an answer runs. *)
Inductive stream_event :=
  | Data (is_array : bool)
  | ReadError (e : Er)
  | End
  | Answer (index : nat) (a : R + Er)
  | React.

(** [_resolveCallback(this._result)] and [_rejectCallback(err)]: only the first
    call counts.  [None] is the TypeError of an item that is not an array. *)
Definition settle_promise (x : stream_executor) (p : unit + option Er) : stream_executor :=
  mkStreamExecutor (se_inFlight x) (se_index x) (se_result x) (se_readEnded x) (se_paused x)
    (match se_promise x with Some q => Some q | None => Some p end) (se_flights x) (se_reactions x) (se_settled x).

Definition end_read (x : stream_executor) : stream_executor :=
  mkStreamExecutor (se_inFlight x) (se_index x) (se_result x) true (se_paused x) (se_promise x) (se_flights x)
    (se_reactions x) (se_settled x).

Definition set_paused (x : stream_executor) (b : bool) : stream_executor :=
  mkStreamExecutor (se_inFlight x) (se_index x) (se_result x) (se_readEnded x) b (se_promise x) (se_flights x)
    (se_reactions x) (se_settled x).

Definition _setReadEnded (x : stream_executor) (err : option (option Er)) : stream_executor :=
  if se_readEnded x then x
  else
    let x := end_read x in
    match err with
    | Some e => settle_promise x (inr e)
    | None => if (se_inFlight x =? 0)%nat then settle_promise x (inl tt) else x
    end.

Definition _executeOne (x : stream_executor) (is_array : bool) : stream_executor :=
  if negb is_array then _setReadEnded x (Some None)
  else if se_readEnded x then x
  else
    let x := mkStreamExecutor (S (se_inFlight x)) (S (se_index x)) (se_result x) (se_readEnded x) (se_paused x)
      (se_promise x) (se_flights x ++ [se_index x]) (se_reactions x) (se_settled x) in
    if (stream_level <=? se_inFlight x)%nat then set_paused x true else x.

Definition stream_setError (x : stream_executor) (err : Er) : stream_executor :=
  if raises o then settle_promise (end_read x) (inr (Some err)) else x.

(** The first two reactions to an answer: it is recorded. *)
Definition record_answer (x : stream_executor) (index : nat) (a : R + Er) : stream_executor :=
  let x := mkStreamExecutor (Nat.pred (se_inFlight x)) (se_index x)
    (match a with inl rs => setResultItem (se_result x) index rs | inr err => setError (se_result x) index err end)
    (se_readEnded x) (se_paused x) (se_promise x) (filter (fun k => k <> index) (se_flights x)) (S (se_reactions x))
    (se_settled x ++ [(index, a)]) in
  match a with inl _ => x | inr err => stream_setError x err end.

(** The last reaction. *)
Definition react (x : stream_executor) : stream_executor :=
  let x := mkStreamExecutor (se_inFlight x) (se_index x) (se_result x) (se_readEnded x) false (se_promise x)
    (se_flights x) (Nat.pred (se_reactions x)) (se_settled x) in
  if se_readEnded x && (se_inFlight x =? 0)%nat then settle_promise x (inl tt) else x.

(** A paused stream emits no data, and a stream emits from a new turn of the
    event loop, after the reactions. *)
Definition stream_step (x : stream_executor) (ev : stream_event) : option stream_executor :=
  match ev with
  | Data is_array => if se_paused x || negb (se_reactions x =? 0)%nat then None else Some (_executeOne x is_array)
  | ReadError e => Some (_setReadEnded x (Some (Some e)))
  | End => Some (_setReadEnded x None)
  | Answer index a => if bool_decide (index ∈ se_flights x) then Some (record_answer x index a) else None
  | React => if (se_reactions x =? 0)%nat then None else Some (react x)
  end.

Fixpoint stream_run (x : stream_executor) (evs : list stream_event) : option stream_executor :=
  match evs with
  | [] => Some x
  | ev :: evs' => match stream_step x ev with Some x => stream_run x evs' | None => None end
  end.

(** The promise of [execute]. *)
Definition stream_outcome (x : stream_executor) : option (ResultSetGroup R Er + option Er) :=
  match se_promise x with Some (inl _) => Some (inl (se_result x)) | Some (inr e) => Some (inr e) | None => None end.
End stream_executor.
Arguments stream_executor : clear implicits.
Arguments stream_event : clear implicits.

(** ** [executeConcurrent] *)

(** What the arguments select. *)
Inductive executor_kind := OneQueryArray | OneQueryStream | QueryArray.
Inductive query_arg := QueryText | QueryList | QueryOther.
Inductive parameters_arg := ParametersArray | ParametersStream | ParametersOther.

Definition executeConcurrent (has_client : bool) (query : query_arg) (parameters : parameters_arg) : result executor_kind :=
  if negb has_client then Throw TypeError
  else
    match query, parameters with
    | QueryText, ParametersArray => Ok OneQueryArray
    | QueryText, ParametersStream => Ok OneQueryStream
    | QueryText, ParametersOther => Throw TypeError
    | QueryList, _ => Ok QueryArray
    | QueryOther, _ => Throw TypeError
    end.
