(* ===== verification/ConcurrentTheorems.v ===== *)
(** The executors of Concurrent: whatever the order of the answers, every item
    is executed once and the grouped result is that of the answers. *)
From stdpp Require Import gmap.
From S2P Require Import Prelude.
From S2P Require Import JsNum.
From S2P Require Import JsStr.
From S2P Require Import Utils.
From S2P Require Import Concurrent.

(** ** The grouped result *)

Section group.
Context {R Er : Type}.

Definition answer_error (p : nat * (R + Er)) : option Er := match p.2 with inr e => Some e | inl _ => None end.

(** The result after the answers of [settled], in this order. *)
Record group_of (o : concurrent_options) (settled : list (nat * (R + Er))) (g : ResultSetGroup R Er) : Prop := {
  go_collect : rg_collectResults g = collectResults o;
  go_max : rg_maxErrors g = or_100 (maxErrors o);
  go_total : totalExecuted g = length settled;
  go_errors : errors g = take (or_100 (maxErrors o)) (omap answer_error settled);
  go_items : forall index, rg_resultItems g !! index =
    if collectResults o then snd <$> last (filter (fun p => p.1 = index) settled) else None }.

Lemma group_new o : group_of o [] (ResultSetGroup_new o).
Proof. split; cbn; try done; [by destruct (or_100 _)|]. intros index. rewrite lookup_empty. by destruct (collectResults o). Qed.

Lemma put_item_lookup o settled g index a j :
  group_of o settled g ->
  put_item g index a !! j =
    if collectResults o then snd <$> last (filter (fun p => p.1 = j) (settled ++ [(index, a)])) else None.
Proof.
  intros [C _ _ _ I]. unfold put_item. rewrite C. destruct (collectResults o) eqn:Ec; [|by rewrite I].
  rewrite filter_app. destruct (decide (index = j)) as [->|Hne].
  - rewrite lookup_insert_eq. rewrite filter_cons_True by done. by rewrite filter_nil, last_snoc.
  - rewrite lookup_insert_ne, I by done. rewrite filter_cons_False by done.
    by rewrite filter_nil, app_nil_r.
Qed.

Lemma group_result o settled g index rs :
  group_of o settled g -> group_of o (settled ++ [(index, inl rs)]) (setResultItem g index rs).
Proof.
  intros G. pose proof G as [C M T Er' I]. split; cbn [setResultItem rg_collectResults rg_maxErrors totalExecuted errors rg_resultItems].
  - done.
  - done.
  - rewrite length_app, T. cbn. lia.
  - by rewrite omap_app, app_nil_r.
  - intros j. by apply put_item_lookup.
Qed.

Lemma group_error o settled g index err :
  group_of o settled g -> group_of o (settled ++ [(index, inr err)]) (setError g index err).
Proof.
  intros G. pose proof G as [C M T Er' I]. split; cbn [setError rg_collectResults rg_maxErrors totalExecuted errors rg_resultItems].
  - done.
  - done.
  - rewrite length_app, T. cbn. lia.
  - rewrite M, Er', omap_app. change (omap answer_error [(index, inr err)]) with [err]. set (l := omap answer_error settled). set (k := or_100 (maxErrors o)). rewrite length_take.
    destruct (Nat.ltb_spec (Nat.min k (length l)) k).
    + rewrite (take_ge l k) by lia. by rewrite (take_ge (l ++ _) k) by (rewrite length_app; cbn; lia).
    + by rewrite take_app_le by lia.
  - intros j. by apply put_item_lookup.
Qed.
End group.

(** ** The array executor *)

Section array.
Context {R Er Pr V : Type}.
Context (o : concurrent_options) (parameters : list (jsstr * V)).

Abbreviation level := (array_level o parameters).
Abbreviation index_of_item := (array_index o parameters).
Abbreviation executor := (array_executor R Er Pr V).
Abbreviation run := (array_run (R := R) (Er := Er) (Pr := Pr) o parameters).
Abbreviation start := (ArrayBasedExecutor_new (R := R) (Er := Er) (Pr := Pr) o parameters).

(** The items of a chain that were settled, and those that were sent. *)
Definition done_items (w : worker Pr) : nat :=
  match w with Calling n | Preparing n | Executing n _ | Finished n | Rejected n => n end.

Definition sent_items (w : worker Pr) : nat :=
  match w with Executing n _ => S n | _ => done_items w end.

(** The items at the first [f w] places of the chains. *)
Definition places (f : worker Pr -> nat) (ws : list (worker Pr)) (index : nat) : Prop :=
  exists i n w, ws !! i = Some w /\ (n < f w)%nat /\ index = index_of_item i n.

Lemma index_of_item_inj i j n m : (i < level)%nat -> (j < level)%nat -> index_of_item i n = index_of_item j m -> i = j /\ n = m.
Proof.
  unfold array_index. intros Hi Hj E.
  assert (n = m) by (apply (Nat.div_mod_unique level n m i j Hi Hj); lia). subst. split; [lia|done].
Qed.

Lemma places_same f ws i w w' index :
  ws !! i = Some w -> f w' = f w -> places f (<[i := w']> ws) index <-> places f ws index.
Proof.
  intros Hw Hf. pose proof (lookup_lt_Some _ _ _ Hw) as Hi. split; intros (j & n & v & Hj & Hn & ->); exists j, n.
  - destruct (decide (i = j)) as [<-|]; [|rewrite list_lookup_insert_ne in Hj by done; by exists v].
    rewrite list_lookup_insert_eq in Hj by done. injection Hj as <-. exists w. rewrite Hf in Hn. done.
  - destruct (decide (i = j)) as [<-|]; [|exists v; rewrite list_lookup_insert_ne by done; done].
    rewrite Hw in Hj. injection Hj as <-. exists w'. rewrite list_lookup_insert_eq by done. rewrite Hf. done.
Qed.

Lemma places_next f ws i w w' index :
  ws !! i = Some w -> f w' = S (f w) ->
  places f (<[i := w']> ws) index <-> places f ws index \/ index = index_of_item i (f w).
Proof.
  intros Hw Hf. pose proof (lookup_lt_Some _ _ _ Hw) as Hi. split.
  - intros (j & n & v & Hj & Hn & ->). destruct (decide (i = j)) as [<-|].
    + rewrite list_lookup_insert_eq in Hj by done. injection Hj as <-. rewrite Hf in Hn.
      destruct (decide (n = f w)) as [->|]; [by right|]. left. exists i, n, w. split_and!; [done|lia|done].
    + rewrite list_lookup_insert_ne in Hj by done. left. by exists j, n, v.
  - intros [(j & n & v & Hj & Hn & ->) | ->].
    + destruct (decide (i = j)) as [<-|].
      * rewrite Hw in Hj. injection Hj as <-. exists i, n, w'. rewrite list_lookup_insert_eq by done. split_and!; [done|lia|done].
      * exists j, n, v. by rewrite list_lookup_insert_ne.
    + exists i, (f w), w'. rewrite list_lookup_insert_eq by done. split_and!; [done|lia|done].
Qed.

Lemma places_fresh f ws i w :
  ws !! i = Some w -> length ws = level -> ~ places f ws (index_of_item i (f w)).
Proof.
  intros Hw L (j & n & v & Hj & Hn & E). pose proof (lookup_lt_Some _ _ _ Hw). pose proof (lookup_lt_Some _ _ _ Hj).
  apply index_of_item_inj in E as [-> E]; [|lia|lia]. rewrite Hw in Hj. injection Hj as <-. lia.
Qed.

(** Items known by a list of indexes. *)
Definition tracks (f : worker Pr -> nat) (ws : list (worker Pr)) (l : list nat) : Prop :=
  NoDup l /\ forall index, index ∈ l <-> places f ws index.

Lemma tracks_same f ws i w w' l : ws !! i = Some w -> f w' = f w -> tracks f ws l -> tracks f (<[i := w']> ws) l.
Proof. intros Hw Hf [N T]. split; [done|]. intros index. by rewrite T, places_same. Qed.

Lemma tracks_next f ws i w w' l :
  ws !! i = Some w -> f w' = S (f w) -> length ws = level -> tracks f ws l ->
  tracks f (<[i := w']> ws) (l ++ [index_of_item i (f w)]).
Proof.
  intros Hw Hf L [N T]. split.
  - apply NoDup_app. split_and!; [done| |apply NoDup_singleton]. intros index Hin ->%list_elem_of_singleton.
    apply T in Hin. by eapply places_fresh.
  - intros index. rewrite elem_of_app, list_elem_of_singleton, T. by rewrite places_next.
Qed.

Lemma tracks_start f : (f (Calling 0) = 0%nat) -> tracks f (replicate level (Calling 0)) [].
Proof.
  intros Hf. split; [constructor|]. intros index. split; [by intros ?%elem_of_nil|].
  intros (i & n & w & Hw & Hn & _). apply lookup_replicate in Hw as [-> _]. lia.
Qed.

(** What holds of every state that can be reached. *)
Record array_inv (x : executor) : Prop := {
  ai_workers : length (ae_workers x) = level;
  ai_group : group_of o (ae_settled x) (ae_result x);
  ai_settled : tracks done_items (ae_workers x) (ae_settled x).*1;
  ai_sent : tracks sent_items (ae_workers x) (map (fun s => s.1.1) (ae_sent x));
  ai_params : Forall (fun s => exists query, parameters !! s.1.1 = Some (query, s.2)) (ae_sent x);
  ai_range : forall i w n, ae_workers x !! i = Some w -> (n < sent_items w)%nat -> (index_of_item i n < length parameters)%nat;
  ai_finished : forall i n, ae_workers x !! i = Some (Finished n) -> ae_stop x = true \/ (length parameters <= index_of_item i n)%nat;
  ai_preparing : forall i n, ae_workers x !! i = Some (Preparing n) -> (index_of_item i n < length parameters)%nat;
  ai_stop : ae_stop x = true -> raises o = true /\ ae_rejected x <> None;
  ai_rejected : forall i n, ae_workers x !! i = Some (Rejected n) -> ae_rejected x <> None;
  ai_errors : forall index e, (index, inr e) ∈ ae_settled x -> raises o = true -> ae_rejected x <> None }.

Lemma array_inv_start : array_inv start.
Proof.
  split; cbn [ArrayBasedExecutor_new ae_workers ae_result ae_settled ae_sent ae_stop ae_rejected map fmap list_fmap].
  - apply length_replicate.
  - apply group_new.
  - by apply tracks_start.
  - by apply tracks_start.
  - constructor.
  - intros i w n Hw Hn. apply lookup_replicate in Hw as [-> _]. cbn in Hn. lia.
  - intros i n Hw. by apply lookup_replicate in Hw as [? _].
  - intros i n Hw. by apply lookup_replicate in Hw as [? _].
  - done.
  - intros i n Hw. by apply lookup_replicate in Hw as [? _].
  - by intros index e ?%elem_of_nil.
Qed.

Ltac look_at Hj i j :=
  destruct (decide (i = j)) as [<-|]; [rewrite list_lookup_insert_eq in Hj by done; first [discriminate Hj|injection Hj as <-|injection Hj as Hj]|rewrite list_lookup_insert_ne in Hj by done].

(** The chain [i] changes without an execution being sent or settled. *)
Lemma array_inv_move (x : executor) i w w' :
  array_inv x -> ae_workers x !! i = Some w ->
  done_items w' = done_items w -> sent_items w' = sent_items w ->
  (forall n, w' = Finished n -> ae_stop x = true \/ (length parameters <= index_of_item i n)%nat) ->
  (forall n, w' = Preparing n -> (index_of_item i n < length parameters)%nat) ->
  (forall n, w' = Rejected n -> ae_rejected x <> None) ->
  array_inv (set_worker x i w').
Proof.
  intros [] Hw Hd Hs Hfin Hprep Hrej. pose proof (lookup_lt_Some _ _ _ Hw) as Hi.
  split; cbn [set_worker ae_workers ae_result ae_settled ae_sent ae_stop ae_rejected]; try done.
  - by rewrite length_insert.
  - by apply (tracks_same _ _ _ w).
  - by apply (tracks_same _ _ _ w).
  - intros j v n Hj Hn. look_at Hj i j; [|by eapply ai_range0]. apply (ai_range0 i w); [done|lia].
  - intros j n Hj. look_at Hj i j; [by apply Hfin|by apply ai_finished0].
  - intros j n Hj. look_at Hj i j; [by apply Hprep|by apply ai_preparing0].
  - intros j n Hj. look_at Hj i j; [by eapply Hrej|by eapply ai_rejected0].
Qed.

Lemma array_inv_send (x : executor) i n w prepared query params :
  array_inv x -> ae_workers x !! i = Some w -> w = Calling n \/ w = Preparing n ->
  parameters !! index_of_item i n = Some (query, params) ->
  array_inv (send x i n (index_of_item i n) prepared params).
Proof.
  intros [] Hw Hk Hp. pose proof (lookup_lt_Some _ _ _ Hw) as Hi.
  assert (Hd : done_items w = n /\ sent_items w = n) by (by destruct Hk as [-> | ->]). destruct Hd as [Hd Hs].
  split; cbn [send ae_workers ae_result ae_settled ae_sent ae_stop ae_rejected]; try done.
  - by rewrite length_insert.
  - by apply (tracks_same _ _ _ w).
  - rewrite map_app. cbn [map fst]. rewrite <- Hs at 2. apply tracks_next; [done|cbn; lia|done|done].
  - apply Forall_app. split; [done|]. apply Forall_singleton. by exists query.
  - intros j v m Hj Hm. look_at Hj i j; [|by eapply ai_range0]. cbn in Hm.
    destruct (decide (m = n)) as [->|]; [by eapply lookup_lt_Some|]. apply (ai_range0 i w); [done|lia].
  - intros j m Hj. look_at Hj i j; by apply ai_finished0.
  - intros j m Hj. look_at Hj i j; by apply ai_preparing0.
  - intros j m Hj. look_at Hj i j; by eapply ai_rejected0.
Qed.

(** The execution of the chain [i] is settled with the answer [a]. *)
Lemma array_inv_settle (x : executor) i n prepared g a :
  array_inv x -> ae_workers x !! i = Some (Executing n prepared) ->
  group_of o (ae_settled x ++ [(index_of_item i n, a)]) g ->
  (forall e, a = inr e -> raises o = false) ->
  array_inv (set_worker (settle x g (index_of_item i n) a) i (Calling (S n))).
Proof.
  intros [] Hw Hg Ha. pose proof (lookup_lt_Some _ _ _ Hw) as Hi.
  split; cbn [set_worker settle ae_workers ae_result ae_settled ae_sent ae_stop ae_rejected]; try done.
  - by rewrite length_insert.
  - rewrite fmap_app. change ([(index_of_item i n, a)].*1) with [index_of_item i (done_items (Executing n prepared))].
    by apply tracks_next.
  - by apply (tracks_same _ _ _ (Executing n prepared)).
  - intros j v m Hj Hm. look_at Hj i j; [|by eapply ai_range0]. cbn in Hm. apply (ai_range0 i (Executing n prepared)); [done|cbn; lia].
  - intros j m Hj. look_at Hj i j; by apply ai_finished0.
  - intros j m Hj. look_at Hj i j; by apply ai_preparing0.
  - intros j m Hj. look_at Hj i j; by eapply ai_rejected0.
  - intros index e [Hin|Hin]%elem_of_app Hr; [by eapply ai_errors0|]. apply list_elem_of_singleton in Hin. injection Hin as -> <-.
    by rewrite (Ha e) in Hr.
Qed.

Lemma array_inv_reject (x : executor) i n w e :
  array_inv x -> ae_workers x !! i = Some w -> done_items w = n -> sent_items w = n -> array_inv (reject x i n e).
Proof.
  intros I Hw Hd Hs. set (y := mkArrayExecutor (ae_stop x) (ae_cache x) (ae_result x) (ae_workers x)
    (match ae_rejected x with Some e => Some e | None => Some e end) (ae_sent x) (ae_settled x)).
  assert (J : array_inv y).
  { destruct I. split; cbn [y ae_workers ae_result ae_settled ae_sent ae_stop ae_rejected]; try done.
    - intros Hst. split; [by apply ai_stop0|]. by destruct (ae_rejected x).
    - intros j m _. by destruct (ae_rejected x).
    - intros index e' _ _. by destruct (ae_rejected x). }
  apply (array_inv_move y i w (Rejected n) J Hw); [done|done|done|done|]. intros _ _. cbn. by destruct (ae_rejected x).
Qed.

Lemma array_inv_raise (x : executor) i n prepared g e :
  array_inv x -> ae_workers x !! i = Some (Executing n prepared) ->
  group_of o (ae_settled x ++ [(index_of_item i n, inr e)]) g -> raises o = true ->
  array_inv (reject (stopped (settle x g (index_of_item i n) (inr e))) i (S n) e).
Proof.
  intros [] Hw Hg Hr. pose proof (lookup_lt_Some _ _ _ Hw) as Hi.
  assert (N : match ae_rejected x with Some e => Some e | None => Some e end <> None) by (by destruct (ae_rejected x)).
  split; cbn [reject stopped settle ae_workers ae_result ae_settled ae_sent ae_stop ae_rejected]; try done.
  - by rewrite length_insert.
  - rewrite fmap_app. change ([(index_of_item i n, inr e)].*1) with [index_of_item i (done_items (Executing n prepared))].
    by apply tracks_next.
  - by apply (tracks_same _ _ _ (Executing n prepared)).
  - intros j v m Hj Hm. look_at Hj i j; [|by eapply ai_range0]. cbn in Hm. apply (ai_range0 i (Executing n prepared)); [done|cbn; lia].
  - intros j m Hj. by left.
  - intros j m Hj. look_at Hj i j; by apply ai_preparing0.
Qed.

Lemma array_inv_step (x y : executor) ev : array_inv x -> array_step o parameters x ev = Some y -> array_inv y.
Proof.
  intros I. destruct ev as [i|i a|i a]; cbn [array_step]; destruct (ae_workers x !! i) as [w|] eqn:Hw; try done.
  - destruct w as [n| | | |]; try done. destruct (parameters !! index_of_item i n) as [[query params]|] eqn:Hp.
    + destruct (ae_stop x) eqn:Hs; [|destruct (getElement (ae_cache x) query) as [p|]]; intros [= <-].
      * apply (array_inv_move x i (Calling n)); try done. intros m [= ->]. by left.
      * by apply (array_inv_send x i n (Calling n) p query); [| |left|].
      * apply (array_inv_move x i (Calling n)); try done. intros m [= ->]. by eapply lookup_lt_Some.
    + intros [= <-]. apply (array_inv_move x i (Calling n)); try done. intros m [= ->]. right. by apply lookup_ge_None.
  - destruct w as [|n| | |]; try done. destruct (parameters !! index_of_item i n) as [[query params]|] eqn:Hp; destruct a as [p|e];
      try done; intros [= <-].
    + apply (array_inv_send (store x query p) i n (Preparing n) p query); [|done|by right|done]. destruct I; by split.
    + by apply (array_inv_reject x i n (Preparing n)).
    + by apply (array_inv_reject x i n (Preparing n)).
  - destruct w as [| |n p| |]; try done. destruct a as [rs|e]; intros [= <-].
    + apply (array_inv_settle x i n p); [done|done| |done]. apply group_result. by destruct I.
    + unfold array_setError. set (s := settle x _ _ _).
      assert (G : group_of o (ae_settled x ++ [(index_of_item i n, inr e)]) (setError (ae_result x) (index_of_item i n) e)).
      { apply group_error. by destruct I. }
      destruct (raises o) eqn:Hr; [by apply (array_inv_raise x i n p)|].
      by apply (array_inv_settle x i n p).
Qed.

Lemma array_run_snoc (x : executor) evs ev :
  run x (evs ++ [ev]) = match run x evs with Some y => array_step o parameters y ev | None => None end.
Proof.
  revert x. induction evs as [|e evs IH]; intros x; cbn; [by destruct (array_step o parameters x ev)|].
  destruct (array_step o parameters x e); [apply IH|done].
Qed.

(** Induction over the events of a run. *)
Lemma array_run_ind (I : list (array_event R Er Pr) -> executor -> Prop) :
  I [] start -> (forall evs x ev y, I evs x -> array_step o parameters x ev = Some y -> I (evs ++ [ev]) y) ->
  forall evs x, run start evs = Some x -> I evs x.
Proof.
  intros H0 Hs evs. induction evs as [|ev evs IH] using rev_ind; intros x; [by intros [= <-]|].
  rewrite array_run_snoc. destruct (run start evs) as [y|]; [|done]. intros Hx. eapply Hs; [by apply IH|done].
Qed.

Lemma array_run_inv evs x : run start evs = Some x -> array_inv x.
Proof.
  revert evs x. apply (array_run_ind (fun _ x => array_inv x)); [apply array_inv_start|]. intros _ x ev y I. by apply array_inv_step.
Qed.

(** *** Where a rejection comes from *)

Definition rejection_of (evs : list (array_event R Er Pr)) (x : executor) (e : Er) : Prop :=
  (exists i, Prepare i (inr e) ∈ evs) \/ raises o = true /\ exists index, (index, inr e) ∈ ae_settled x.

Lemma array_rejection evs x e : run start evs = Some x -> ae_rejected x = Some e -> rejection_of evs x e.
Proof.
  revert evs x. apply (array_run_ind (fun evs x => ae_rejected x = Some e -> rejection_of evs x e)); [done|].
  intros evs x ev y IH Hs Hr.
  assert (Keep : ae_rejected x = Some e -> (exists l, ae_settled y = ae_settled x ++ l) -> rejection_of (evs ++ [ev]) y e).
  { intros Hx [l Hl]. destruct (IH Hx) as [[i Hi]|[Hra [index Hi]]].
    - left. exists i. apply elem_of_app. by left.
    - right. split; [done|]. exists index. rewrite Hl. apply elem_of_app. by left. }
  assert (K0 : ae_settled y = ae_settled x -> exists l, ae_settled y = ae_settled x ++ l) by (intros ->; exists []; by rewrite app_nil_r).
  destruct ev as [i|i a|i a]; cbn [array_step] in Hs; destruct (ae_workers x !! i) as [w|]; try done.
  - destruct w as [n| | | |]; try done. destruct (parameters !! _) as [[query params]|].
    + destruct (ae_stop x); [|destruct (getElement _ _)]; injection Hs as <-; by apply Keep, K0.
    + injection Hs as <-. by apply Keep, K0.
  - destruct w as [|n| | |]; try done.
    assert (Rej : a = inr e \/ ae_rejected x = Some e /\ ae_settled y = ae_settled x).
    { destruct (parameters !! _) as [[query params]|], a as [p|e']; try done; injection Hs as <-; try (by right);
        cbn in Hr; destruct (ae_rejected x) eqn:Ex; try (by right); injection Hr as ->; by left. }
    destruct Rej as [-> |[Hx Hl]]; [|by apply Keep, K0]. left. exists i. apply elem_of_app. right. by left.
  - destruct w as [| |n p| |]; try done. destruct a as [rs|e']; injection Hs as <-.
    + apply Keep; [done|by eexists].
    + unfold array_setError in *. destruct (raises o) eqn:Hra; cbn in Hr.
      * destruct (ae_rejected x) eqn:Ex; [apply Keep; [done|by eexists]|]. injection Hr as ->. right. split; [done|].
        eexists. apply elem_of_app. right. by left.
      * apply Keep; [done|by eexists].
Qed.

(** *** Termination *)

(** The events a chain has taken at most. *)
Definition weight (w : worker Pr) : nat :=
  match w with Calling n => 3 * n | Preparing n | Finished n => 3 * n + 1 | Executing n _ | Rejected n => 3 * n + 2 end.

Definition total_weight (ws : list (worker Pr)) : nat := sum_list_with weight ws.

Lemma sum_insert {A} (f : A -> nat) (l : list A) i x y :
  l !! i = Some x -> (sum_list_with f (<[i := y]> l) + f x = sum_list_with f l + f y)%nat.
Proof.
  revert i. induction l as [|z l IH]; intros [|i] Hi; try done; cbn [insert list_insert sum_list_with].
  - injection Hi as ->. lia.
  - specialize (IH i Hi). unfold insert in *. lia.
Qed.

Lemma array_step_weight (x y : executor) ev :
  array_step o parameters x ev = Some y -> (total_weight (ae_workers x) < total_weight (ae_workers y))%nat.
Proof.
  assert (W : forall i w w', ae_workers x !! i = Some w -> (weight w < weight w')%nat ->
    (total_weight (ae_workers x) < total_weight (<[i := w']> (ae_workers x)))%nat).
  { intros i w w' Hw Hlt. pose proof (sum_insert weight _ i w w' Hw). unfold total_weight. lia. }
  destruct ev as [i|i a|i a]; cbn [array_step]; destruct (ae_workers x !! i) as [w|] eqn:Hw; try done.
  - destruct w as [n| | | |]; try done. destruct (parameters !! _) as [[query params]|];
      [destruct (ae_stop x); [|destruct (getElement _ _)]|]; intros [= <-]; apply (W i _ _ Hw); cbn; lia.
  - destruct w as [|n| | |]; try done. destruct (parameters !! _) as [[query params]|], a as [p|e']; try done; intros [= <-];
      apply (W i _ _ Hw); cbn; lia.
  - destruct w as [| |n p| |]; try done. destruct a as [rs|e']; intros [= <-]; [apply (W i _ _ Hw); cbn; lia|].
    unfold array_setError. destruct (raises o); apply (W i _ _ Hw); cbn; lia.
Qed.

Lemma array_run_weight evs x : run start evs = Some x -> (length evs <= total_weight (ae_workers x))%nat.
Proof.
  revert evs x. apply (array_run_ind (fun evs x => (length evs <= total_weight (ae_workers x))%nat)); [cbn; lia|].
  intros evs x ev y IH Hs. apply array_step_weight in Hs. rewrite length_app. cbn. lia.
Qed.

Lemma array_run_done evs x : run start evs = Some x -> sum_list_with done_items (ae_workers x) = length (ae_settled x).
Proof.
  revert evs x. apply (array_run_ind (fun _ x => sum_list_with done_items (ae_workers x) = length (ae_settled x))).
  { cbn. induction level as [|n IH]; [done|]. cbn. exact IH. }
  intros _ x ev y IH.
  assert (W : forall i w w', ae_workers x !! i = Some w -> done_items w' = done_items w ->
    sum_list_with done_items (<[i := w']> (ae_workers x)) = length (ae_settled x)).
  { intros i w w' Hw Hd. pose proof (sum_insert done_items _ i w w' Hw). lia. }
  assert (W' : forall i w w' a, ae_workers x !! i = Some w -> done_items w' = S (done_items w) ->
    sum_list_with done_items (<[i := w']> (ae_workers x)) = length (ae_settled x ++ [a])).
  { intros i w w' a Hw Hd. pose proof (sum_insert done_items _ i w w' Hw). rewrite length_app. cbn [length]. lia. }
  destruct ev as [i|i a|i a]; cbn [array_step]; destruct (ae_workers x !! i) as [w|] eqn:Hw; try done.
  - destruct w as [n| | | |]; try done. destruct (parameters !! _) as [[query params]|];
      [destruct (ae_stop x); [|destruct (getElement _ _)]|]; intros [= <-]; by apply (W i _ _ Hw).
  - destruct w as [|n| | |]; try done. destruct (parameters !! _) as [[query params]|], a as [p|e']; try done; intros [= <-];
      by apply (W i _ _ Hw).
  - destruct w as [| |n p| |]; try done. destruct a as [rs|e']; intros [= <-]; [by apply (W' i _ _ _ Hw)|].
    unfold array_setError. destruct (raises o); by apply (W' i _ _ _ Hw).
Qed.

Lemma total_weight_le ws : (total_weight ws <= 3 * sum_list_with done_items ws + 2 * length ws)%nat.
Proof.
  unfold total_weight. induction ws as [|w ws IH]; [done|]. cbn [sum_list_with length].
  assert (weight w <= 3 * done_items w + 2)%nat by (destruct w; unfold weight, done_items; lia). lia.
Qed.

Lemma done_sent w : (done_items w <= sent_items w)%nat.
Proof. destruct w; cbn; lia. Qed.

Lemma settled_range (x : executor) index : array_inv x -> index ∈ (ae_settled x).*1 -> (index < length parameters)%nat.
Proof.
  intros [] Hin. destruct ai_settled0 as [_ T]. apply T in Hin as (i & n & w & Hw & Hn & ->).
  apply (ai_range0 i w); [done|]. pose proof (done_sent w). lia.
Qed.

Lemma settled_length (x : executor) : array_inv x -> (length (ae_settled x) <= length parameters)%nat.
Proof.
  intros I. pose proof (ai_settled x I) as [N _].
  assert (S : (ae_settled x).*1 ⊆+ seq 0 (length parameters)).
  { apply NoDup_submseteq; [done|]. intros index Hin. apply elem_of_seq. split; [lia|]. by apply (settled_range x). }
  apply submseteq_length in S. by rewrite length_seq, length_fmap in S.
Qed.

Lemma all_settled (x : executor) :
  array_inv x -> ae_rejected x = None -> forallb worker_done (ae_workers x) = true ->
  (ae_settled x).*1 ≡ₚ seq 0 (length parameters).
Proof.
  intros I Hr Hd. pose proof (ai_settled x I) as [N T]. apply NoDup_Permutation; [done|apply NoDup_seq|].
  intros index. rewrite elem_of_seq. split; [intros Hin; split; [lia|by apply (settled_range x)]|]. intros [_ Hlt]. cbn in Hlt.
  apply T. assert (Hl : (0 < level)%nat).
  { unfold array_level, or_100. case_match; [case_match|]; lia. }
  assert (Hi : (index mod level < level)%nat) by (apply Nat.mod_upper_bound; lia).
  rewrite <- (ai_workers x I) in Hi at 2. apply lookup_lt_is_Some_2 in Hi as [w Hw].
  rewrite forallb_forall in Hd. specialize (Hd w ltac:(by apply list_elem_of_In; eapply list_elem_of_lookup_2)).
  destruct w as [| | |m|m]; try done; [|by apply (ai_rejected x I) in Hw].
  assert (Hm : (length parameters <= index_of_item (index mod level) m)%nat).
  { destruct (ai_finished x I _ _ Hw) as [Hs|]; [|done]. by apply (ai_stop x I) in Hs as [_ ?]. }
  exists (index mod level)%nat, (index / level)%nat, (Finished m). pose proof (Nat.div_mod index level ltac:(lia)) as D.
  unfold array_index in *. split_and!; [done| |lia]. cbn [done_items]. nia.
Qed.
End array.

(** A chain that waits for the client. *)
Definition busy {Pr} (w : worker Pr) : bool := match w with Preparing _ | Executing _ _ => true | _ => false end.

(** C29: an execution over an array, with the answers in any order.  At any time
    at most the configured number of requests is in flight, no item was sent or
    settled twice, each was sent with its own parameters, and the grouped result
    is that of the answers so far.  The execution ends
    after at most three events for each item and two for each chain; until then
    a chain that is not finished can go on.  When it is resolved, every item was
    executed exactly once, the result has all the answers, and with
    [raiseOnFirstError] there was no error; when it is rejected, then by a failed
    preparation or, with [raiseOnFirstError], by a failed execution. *)
Theorem array_executor_result {R Er Pr V : Type} (o : concurrent_options) (parameters : list (jsstr * V))
  (evs : list (array_event R Er Pr)) (x : array_executor R Er Pr V)
  (Hrun : array_run o parameters (ArrayBasedExecutor_new o parameters) evs = Some x) :
  let n := length parameters in
  (length (filter (fun w => busy w = true) (ae_workers x)) <= or_100 (concurrencyLevel o))%nat /\
  NoDup (map (fun s => s.1.1) (ae_sent x)) /\
  Forall (fun s => exists query, parameters !! s.1.1 = Some (query, s.2)) (ae_sent x) /\
  NoDup (ae_settled x).*1 /\ group_of o (ae_settled x) (ae_result x) /\
  (length evs <= 3 * n + 2 * array_level o parameters)%nat /\
  (forall i w, ae_workers x !! i = Some w ->
     match w with
     | Calling _ => is_Some (array_step o parameters x (Call i))
     | Preparing _ => forall a, is_Some (array_step o parameters x (Prepare i a))
     | Executing _ _ => forall a, is_Some (array_step o parameters x (Settle i a))
     | _ => True
     end) /\
  match array_outcome x with
  | Some (inl g) =>
      g = ae_result x /\ (ae_settled x).*1 ≡ₚ seq 0 n /\
      (raises o = true -> forall index e, (index, inr e) ∉ ae_settled x)
  | Some (inr e) => rejection_of o evs x e
  | None => exists i w, ae_workers x !! i = Some w /\ worker_done w = false
  end.
Proof.
  cbv zeta. pose proof (array_run_inv o parameters evs x Hrun) as I.
  pose proof (settled_length o parameters x I) as SL. split_and!.
  - transitivity (length (ae_workers x)); [apply length_filter|]. rewrite (ai_workers o parameters x I). unfold array_level. lia.
  - apply (ai_sent o parameters x I).
  - apply (ai_params o parameters x I).
  - apply (ai_settled o parameters x I).
  - apply (ai_group o parameters x I).
  - pose proof (ai_workers o parameters x I). pose proof (array_run_weight o parameters evs x Hrun). pose proof (array_run_done o parameters evs x Hrun).
    pose proof (total_weight_le (ae_workers x)). lia.
  - intros i w Hw. destruct w as [m|m|m p|m|m]; try done; cbn [array_step]; rewrite Hw.
    + destruct (parameters !! _) as [[query params]|]; [destruct (ae_stop x); [|destruct (getElement _ _)]|]; done.
    + intros a. apply (ai_preparing o parameters x I), lookup_lt_is_Some_2 in Hw as [[query params] ->]. by destruct a.
    + intros a. by destruct a.
  - unfold array_outcome. destruct (ae_rejected x) as [e|] eqn:Hr; [by apply (array_rejection o parameters evs)|].
    destruct (forallb worker_done (ae_workers x)) eqn:Hd.
    + split_and!; [done|by apply (all_settled o parameters)|]. intros Hra index e Hin. by apply (ai_errors o parameters x I index e Hin).
    + apply not_true_iff_false in Hd. rewrite forallb_forall in Hd.
      assert (Ex : Exists (fun w => ~ worker_done w = true) (ae_workers x)).
      { apply not_Forall_Exists; [solve_decision|]. intros F. apply Hd. intros w Hw. rewrite Forall_forall in F.
        by apply F, list_elem_of_In. }
      apply Exists_exists in Ex as (w & Hin & Hw). apply list_elem_of_lookup_1 in Hin as [i Hi]. exists i, w.
      split; [done|]. by apply not_true_iff_false.
Qed.

Lemma array_executor_result_witness :
  let o := mkConcurrent (Some false) (Some 2%nat) true None in
  let evs : list (array_event nat nat nat) :=
    [Call 0; Call 1; Prepare 1 (inl 7); Settle 1 (inl 20); Prepare 0 (inl 7); Call 1; Settle 0 (inr 99); Call 0;
     Settle 0 (inl 22); Call 0]%nat in
  let parameters := [(str "q", 1); (str "q", 2); (str "q", 3)] in
  exists x, array_run o parameters (ArrayBasedExecutor_new o parameters) evs = Some x /\
    array_outcome x = Some (inl (ae_result x)) /\ (ae_settled x).*1 ≡ₚ seq 0 3 /\ (10 <= 3 * 3 + 2 * 2)%nat.
Proof.
  cbv zeta. eexists. split; [vm_compute; reflexivity|].
  match goal with |- array_outcome ?x = _ /\ _ =>
    pose proof (array_executor_result (mkConcurrent (Some false) (Some 2%nat) true None) [(str "q", 1); (str "q", 2); (str "q", 3)]
      [Call 0; Call 1; Prepare 1 (inl 7); Settle 1 (inl 20); Prepare 0 (inl 7); Call 1; Settle 0 (inr 99); Call 0;
       Settle 0 (inl 22); Call 0]%nat x eq_refl) as T
  end.
  destruct T as (_ & _ & _ & _ & _ & B & _ & _ & P & _). split; [reflexivity|]. split; [exact P|exact B].
Defined.

(** ** The stream executor *)

Section stream.
Context {R Er : Type} (o : concurrent_options).

Abbreviation level := (stream_level o).
Abbreviation executor := (stream_executor R Er).
Abbreviation run := (stream_run (R := R) (Er := Er) o).
Abbreviation start := (StreamBasedExecutor_new (R := R) (Er := Er) o).

(** What holds of every state that can be reached. *)
Record stream_inv (x : executor) : Prop := {
  si_flights : length (se_flights x) = se_inFlight x;
  si_items : se_flights x ++ (se_settled x).*1 ≡ₚ seq 0 (se_index x);
  si_group : group_of o (se_settled x) (se_result x);
  si_level : (se_inFlight x + se_reactions x <= level)%nat;
  si_room : se_paused x = false -> se_reactions x = 0%nat -> (se_inFlight x < level)%nat;
  si_resolved : se_promise x = Some (inl tt) ->
    se_readEnded x = true /\ se_inFlight x = 0%nat /\ (raises o = true -> forall index e, (index, inr e) ∉ se_settled x);
  si_rejected : forall e, se_promise x = Some (inr e) -> se_readEnded x = true;
  si_pending : se_readEnded x = true -> se_promise x = None -> (0 < se_inFlight x + se_reactions x)%nat;
  si_errors : forall index e, (index, inr e) ∈ se_settled x -> raises o = true -> se_promise x <> None }.

Lemma level_pos : (0 < level)%nat.
Proof. unfold stream_level, or_100. case_match; [case_match|]; lia. Qed.

Lemma stream_inv_start : stream_inv start.
Proof.
  pose proof level_pos. split; cbn; try done; try lia.
  - apply group_new.
  - by intros index e ?%elem_of_nil.
Qed.

Lemma stream_inv_end (x : executor) err : stream_inv x -> stream_inv (_setReadEnded x err).
Proof.
  intros I. unfold _setReadEnded. destruct (se_readEnded x) eqn:Hr; [done|]. destruct I.
  assert (P : se_promise x = None).
  { destruct (se_promise x) as [[[]|e]|] eqn:Ep; [|by specialize (si_rejected0 e eq_refl); rewrite si_rejected0 in Hr|done].
    destruct (si_resolved0 eq_refl) as [? _]. by rewrite H in Hr. }
  assert (N : raises o = true -> forall index e, (index, inr e) ∉ se_settled x).
  { intros Hra index e Hin. by apply (si_errors0 index e Hin). }
  destruct err as [e|]; [|change (se_inFlight (end_read x)) with (se_inFlight x); destruct (Nat.eqb_spec (se_inFlight x) 0)]; split; cbn; try done; rewrite ?P; try done; try (intros; lia).
Qed.

Lemma stream_inv_data (x : executor) b :
  stream_inv x -> se_paused x = false -> se_reactions x = 0%nat -> stream_inv (_executeOne o x b).
Proof.
  intros I Hp Hc. unfold _executeOne. destruct (negb b); [by apply stream_inv_end|].
  destruct (se_readEnded x) eqn:Hr; [done|]. destruct I. specialize (si_room0 Hp Hc).
  assert (P : se_promise x = None).
  { destruct (se_promise x) as [[[]|e]|] eqn:Ep; [|by specialize (si_rejected0 e eq_refl); rewrite si_rejected0 in Hr|done].
    destruct (si_resolved0 eq_refl) as [? _]. by rewrite H in Hr. }
  assert (Items : (se_flights x ++ [se_index x]) ++ (se_settled x).*1 ≡ₚ seq 0 (S (se_index x))).
  { rewrite seq_S, <- si_items0, <- !app_assoc. apply Permutation_app_head, Permutation_app_comm. }
  destruct (Nat.leb_spec level (S (se_inFlight x))).
  all: cbn [se_inFlight]; rewrite ?(proj2 (Nat.leb_le _ _)), ?(proj2 (Nat.leb_gt _ _)) by lia.
  all: split; cbn; try done; rewrite ?P, ?Hr, ?Hp, ?length_app; try done; try (cbn; lia).
Qed.

Lemma flights_without (x : executor) index :
  stream_inv x -> index ∈ se_flights x ->
  se_flights x ≡ₚ index :: filter (fun k => k <> index) (se_flights x).
Proof.
  intros I Hin. assert (N : NoDup (se_flights x)).
  { pose proof (NoDup_seq 0 (se_index x)) as N. rewrite <- (si_items x I) in N. by apply NoDup_app in N as [? _]. }
  apply NoDup_Permutation; [done| |].
  - apply NoDup_cons. split; [|by apply NoDup_filter]. rewrite list_elem_of_filter. naive_solver.
  - intros k. rewrite elem_of_cons, list_elem_of_filter. destruct (decide (k = index)); naive_solver.
Qed.

Lemma stream_inv_answer (x : executor) index a :
  stream_inv x -> index ∈ se_flights x -> stream_inv (record_answer o x index a).
Proof.
  intros I Hin. pose proof (flights_without x index I Hin) as Hf. destruct I.
  pose proof (Permutation_length Hf) as L. cbn in L.
  assert (Items : filter (fun k => k <> index) (se_flights x) ++ (se_settled x ++ [(index, a)]).*1 ≡ₚ seq 0 (se_index x)).
  { transitivity (index :: filter (fun k => k <> index) (se_flights x) ++ (se_settled x).*1);
      [|rewrite <- si_items0; symmetry; exact (Permutation_app_tail _ Hf)].
    rewrite fmap_app, app_assoc. apply (Permutation_app_comm _ [index]). }
  assert (NR : se_promise x <> Some (inl tt)) by (intros Hp; destruct (si_resolved0 Hp) as (_ & ? & _); lia).
  unfold record_answer. destruct a as [rs|err].
  - split; cbn; try done; try lia.
    + by apply group_result.
    + intros index' e [H|H]%elem_of_app Hra; [by eapply si_errors0|]. by apply list_elem_of_singleton in H.
  - unfold stream_setError. destruct (raises o) eqn:Hra; split; cbn; try done; try lia.
    all: try (by apply group_error).
    all: destruct (se_promise x) as [[[]|e']|]; try done.
    intros index' e' _ Hx. by rewrite Hra in Hx.
Qed.

Lemma stream_inv_react (x : executor) : stream_inv x -> (0 < se_reactions x)%nat -> stream_inv (react x).
Proof.
  intros I Hc. destruct I. unfold react. cbn [se_inFlight se_readEnded].
  assert (N : se_promise x = None -> raises o = true -> forall index e, (index, inr e) ∉ se_settled x).
  { intros Hp Hra index e Hin. by apply (si_errors0 index e Hin). }
  destruct (se_readEnded x) eqn:Hr; cbn [andb]; [destruct (Nat.eqb_spec (se_inFlight x) 0) as [E0|]|];
    split; cbn; try done; try lia; rewrite ?Hr; try done; try (destruct (se_promise x) as [[[]|e]|] eqn:Ep; naive_solver lia).
Qed.
Lemma stream_inv_step (x y : executor) ev : stream_inv x -> stream_step o x ev = Some y -> stream_inv y.
Proof.
  intros I. destruct ev as [b|e| |index a|]; cbn [stream_step].
  - destruct (se_paused x) eqn:Hp; [done|]. destruct (Nat.eqb_spec (se_reactions x) 0); [|done]. intros [= <-]. by apply stream_inv_data.
  - intros [= <-]. by apply stream_inv_end.
  - intros [= <-]. by apply stream_inv_end.
  - destruct (bool_decide (index ∈ se_flights x)) eqn:Hin; [|done]. intros [= <-]. apply stream_inv_answer; [done|].
    by apply bool_decide_eq_true in Hin.
  - destruct (Nat.eqb_spec (se_reactions x) 0); [done|]. intros [= <-]. apply stream_inv_react; [done|lia].
Qed.

Lemma stream_run_snoc (x : executor) evs ev :
  run x (evs ++ [ev]) = match run x evs with Some y => stream_step o y ev | None => None end.
Proof.
  revert x. induction evs as [|e evs IH]; intros x; cbn; [by destruct (stream_step o x ev)|].
  destruct (stream_step o x e); [apply IH|done].
Qed.

Lemma stream_run_ind (I : list (stream_event R Er) -> executor -> Prop) :
  I [] start -> (forall evs x ev y, I evs x -> stream_step o x ev = Some y -> I (evs ++ [ev]) y) ->
  forall evs x, run start evs = Some x -> I evs x.
Proof.
  intros H0 Hs evs. induction evs as [|ev evs IH] using rev_ind; intros x; [by intros [= <-]|].
  rewrite stream_run_snoc. destruct (run start evs) as [y|]; [|done]. intros Hx. eapply Hs; [by apply IH|done].
Qed.

Lemma stream_run_inv evs x : run start evs = Some x -> stream_inv x.
Proof.
  revert evs x. apply (stream_run_ind (fun _ x => stream_inv x)); [apply stream_inv_start|]. intros _ x ev y I. by apply stream_inv_step.
Qed.

(** What a rejection comes from: an item that is not an array, an error of the
    stream, or a failed execution. *)
Definition stream_cause (evs : list (stream_event R Er)) (e : option Er) : Prop :=
  match e with
  | None => Data false ∈ evs
  | Some e => ReadError e ∈ evs \/ raises o = true /\ exists index, Answer index (inr e) ∈ evs
  end.

Lemma stream_rejection evs x e : run start evs = Some x -> se_promise x = Some (inr e) -> stream_cause evs e.
Proof.
  revert evs x. apply (stream_run_ind (fun evs x => se_promise x = Some (inr e) -> stream_cause evs e)); [done|].
  intros evs x ev y IH Hs Hp.
  assert (Keep : stream_cause evs e -> stream_cause (evs ++ [ev]) e).
  { destruct e as [e|]; cbn; [intros [H|(H & i & Hi)]; [left|right; split; [done|exists i]]|intros H]; apply elem_of_app; by left. }
  destruct (se_promise x) as [p|] eqn:Ex.
  - assert (Same : se_promise y = Some p).
    { destruct ev as [b|e'| |index a|]; cbn [stream_step] in Hs.
      - destruct (se_paused x || _); [done|]. injection Hs as <-. unfold _executeOne, _setReadEnded.
        destruct (negb b), (se_readEnded x); cbn; rewrite ?Ex; try done. by destruct (_ <=? _)%nat.
      - injection Hs as <-. unfold _setReadEnded. destruct (se_readEnded x); cbn; by rewrite ?Ex.
      - injection Hs as <-. unfold _setReadEnded. destruct (se_readEnded x); cbn [end_read]; [by rewrite ?Ex|].
        destruct (_ =? _)%nat; cbn; by rewrite ?Ex.
      - destruct (bool_decide _); [|done]. injection Hs as <-. unfold record_answer, stream_setError.
        destruct a; [done|]. destruct (raises o); cbn; by rewrite ?Ex.
      - destruct (_ =? _)%nat; [done|]. injection Hs as <-. unfold react. destruct (_ && _); cbn; by rewrite ?Ex. }
    apply Keep, IH. congruence.
  - destruct ev as [b|e'| |index a|]; cbn [stream_step] in Hs.
    + destruct (se_paused x || _); [done|]. injection Hs as <-. unfold _executeOne, _setReadEnded in Hp.
      destruct b; cbn [negb] in Hp; destruct (se_readEnded x); try (by rewrite Ex in Hp).
      { by destruct (_ <=? _)%nat; cbn in Hp; rewrite Ex in Hp. }
      cbn in Hp. rewrite Ex in Hp. injection Hp as <-. apply elem_of_app. right. by left.
    + injection Hs as <-. unfold _setReadEnded in Hp. destruct (se_readEnded x); cbn in Hp; rewrite ?Ex in Hp; [done|].
      injection Hp as <-. left. apply elem_of_app. right. by left.
    + injection Hs as <-. unfold _setReadEnded in Hp. destruct (se_readEnded x); [by rewrite Ex in Hp|].
      destruct (_ =? _)%nat; cbn in Hp; by rewrite Ex in Hp.
    + destruct (bool_decide _); [|done]. injection Hs as <-. unfold record_answer, stream_setError in Hp.
      destruct a as [rs|err]; [by cbn in Hp; rewrite Ex in Hp|]. destruct (raises o) eqn:Hra; cbn in Hp; rewrite Ex in Hp; [|done].
      injection Hp as <-. right. split; [done|]. exists index. apply elem_of_app. right. by left.
    + destruct (_ =? _)%nat; [done|]. injection Hs as <-. unfold react in Hp. destruct (_ && _); cbn in Hp; by rewrite Ex in Hp.
Qed.
End stream.

(** C30: an execution over a stream, with the items, the end of the stream and
    the answers in any order.  At most the configured number of requests is in
    flight; no item is settled twice and the grouped result is that of the
    answers so far.  The promise is resolved only when the stream has ended and
    every item is settled, once, and with [raiseOnFirstError] without an error;
    it is rejected only by an item that is not an array, an error of the stream,
    or, with [raiseOnFirstError], a failed execution.  When the reading has ended
    and nothing is outstanding, the promise is settled. *)
Theorem stream_executor_result {R Er : Type} (o : concurrent_options) (evs : list (stream_event R Er)) (x : stream_executor R Er)
  (Hrun : stream_run o (StreamBasedExecutor_new o) evs = Some x) :
  (length (se_flights x) <= or_100 (concurrencyLevel o))%nat /\
  NoDup (se_settled x).*1 /\ group_of o (se_settled x) (se_result x) /\
  match stream_outcome x with
  | Some (inl g) =>
      g = se_result x /\ (se_settled x).*1 ≡ₚ seq 0 (se_index x) /\
      (raises o = true -> forall index e, (index, inr e) ∉ se_settled x)
  | Some (inr e) => stream_cause o evs e
  | None => se_readEnded x = true -> se_flights x <> [] \/ se_reactions x <> 0%nat
  end.
Proof.
  pose proof (stream_run_inv o evs x Hrun) as I.
  assert (N : NoDup (se_settled x).*1).
  { pose proof (NoDup_seq 0 (se_index x)) as N. rewrite <- (si_items o x I) in N. by apply NoDup_app in N as (_ & _ & ?). }
  split_and!; [|done|by apply si_group|].
  - rewrite (si_flights o x I). pose proof (si_level o x I). unfold stream_level in *. lia.
  - unfold stream_outcome. destruct (se_promise x) as [[[]|e]|] eqn:Hp.
    + destruct (si_resolved o x I Hp) as (_ & H0 & Hn). split_and!; [done| |done].
      rewrite <- (si_items o x I). pose proof (si_flights o x I) as L. rewrite H0 in L. by destruct (se_flights x).
    + by apply (stream_rejection o evs x).
    + intros Hr. pose proof (si_pending o x I Hr Hp). pose proof (si_flights o x I) as L.
      destruct (se_flights x); [right; cbn in L; lia|by left].
Qed.

Lemma stream_executor_result_witness :
  let o := mkConcurrent (Some false) (Some 2%nat) false None in
  let evs : list (stream_event nat nat) :=
    [Data true; Data true; Answer 1 (inl 5); React; Data true; Answer 2 (inr 9); End; Answer 0 (inl 6); React; React]%nat in
  exists x, stream_run o (StreamBasedExecutor_new o) evs = Some x /\
    stream_outcome x = Some (inl (se_result x)) /\ (se_settled x).*1 ≡ₚ seq 0 3.
Proof.
  cbv zeta. eexists. split; [vm_compute; reflexivity|].
  match goal with |- stream_outcome ?x = _ /\ _ =>
    pose proof (stream_executor_result (mkConcurrent (Some false) (Some 2%nat) false None)
      [Data true; Data true; Answer 1 (inl 5); React; Data true; Answer 2 (inr 9); End; Answer 0 (inl 6); React; React]%nat x eq_refl) as T
  end.
  destruct T as (_ & _ & _ & _ & P & _). split; [reflexivity|exact P].
Defined.

(** A statement that cannot be prepared rejects the execution although
    [raiseOnFirstError] is false, and is not among the errors. *)
Lemma array_prepare_error :
  let o := mkConcurrent (Some false) None true None in
  let parameters := [(str "a", 1); (str "b", 2)] in
  exists x : array_executor nat nat nat Z,
    array_run o parameters (ArrayBasedExecutor_new o parameters) [Call 0; Prepare 0 (inr 7)]%nat = Some x /\
    array_outcome x = Some (inr 7%nat) /\ errors (ae_result x) = [] /\
    is_Some (array_step o parameters x (Call 1)).
Proof. cbv zeta. eexists. split; [vm_compute; reflexivity|]. split_and!; [vm_compute; reflexivity..|]. by eexists. Qed.
