(* ===== verification/Client.v ===== *)
(** [lib/client.js] with [encodeParams] of [lib/types/cql-utils.js]: how a call
    becomes requests to the native session, and the connection.

    The session is part of the native driver: a method that awaits its answers
    is a [script], a tree of requests that ends with a value or an error, and a
    session is any function that answers requests.  [Er] are its errors.  A
    result is the native result and the state of the next page. *)
From S2P Require Import Prelude.
From S2P Require Import JsNum.
From S2P Require Import JsStr.
From S2P Require Import LongLib.
From S2P Require Import Uuid.
From S2P Require Import Utils.
From S2P Require Import JsVal.
From S2P Require Import TypeNames.
From S2P Require Import Encoder.
From S2P Require Import Options.
From S2P Require Import ExecOptions.
From S2P Require Import Results.
From S2P Require Import Concurrent.

(** ** Requests and scripts *)

Inductive request :=
  | Connect
  | PrepareStatement (query : jsstr)
  | QueryUnpaged (query : jsstr) (params : list encoded) (o : rust_query_options)
  | ExecutePreparedUnpaged (statement : jsstr) (params : list encoded) (o : rust_query_options)
  | QuerySinglePage (query : jsstr) (params : list encoded) (o : rust_query_options) (page : option (list Z))
  | ExecuteSinglePage (statement : jsstr) (params : list encoded) (o : rust_query_options) (page : option (list Z))
  | BatchEncoded (prepared : bool) (statements : list jsstr) (o : rust_query_options) (rows : list (list encoded)).

Definition answer_type (r : request) : Type :=
  match r with
  | Connect => unit
  | PrepareStatement _ => list complex_type
  | QueryUnpaged _ _ _ | ExecutePreparedUnpaged _ _ _ | BatchEncoded _ _ _ _ => native_result
  | QuerySinglePage _ _ _ _ | ExecuteSinglePage _ _ _ _ => native_result * option (list Z)
  end.

Inductive script (A : Type) :=
  | Return (a : A)
  | Raise (e : js_error)
  | Await (r : request) (k : answer_type r -> script A).
Arguments Return {A} a.
Arguments Raise {A} e.
Arguments Await {A} r k.

#[export] Instance script_ret : MRet script := fun A a => Return a.
#[export] Instance script_bind : MBind script := fun A B f =>
  fix go s := match s with Return a => f a | Raise e => Raise e | Await r k => Await r (fun x => go (k x)) end.

(** A computation that may throw, as a script. *)
Definition lift {A} (r : result A) : script A := match r with Ok a => Return a | Throw e => Raise e end.

(** A session: the answer to a request, or its error. *)
Definition session (W Er : Type) := forall r : request, W -> (answer_type r + Er) * W.

(** The result of a script, the requests it made, and the state afterwards. *)
Fixpoint run {W Er A} (h : session W Er) (s : script A) (w : W) : (A + (js_error + Er)) * list request * W :=
  match s with
  | Return a => (inl a, [], w)
  | Raise e => (inr (inl e), [], w)
  | Await r k =>
      let '(a, w) := h r w in
      match a with
      | inl a => let '(out, sent, w) := run h (k a) w in (out, r :: sent, w)
      | inr e => (inr (inr e), [r], w)
      end
  end.

(** ** Executions *)

Section client.
Context `{LongLib} {P R : Type} `{EqDecision P}.
Context (alloc scratch : list Z) (toString_ toFixed20 : number -> jsstr) (encoder : Encoder).

Abbreviation options := (DefaultExecutionOptions P R).
Abbreviation enc := (encode alloc scratch toString_ toFixed20 encoder).

(** The loop of [encodeParams]; an object has no [length]. *)
Definition encodeParams (expectedTypes : list hint) (params : query_params value) : result (list encoded) :=
  match params with
  | NoParams => match expectedTypes with [] => Ok [] | _ => Throw TypeError end
  | ObjectParams _ => Ok []
  | ArrayParams l => traverse (fun iv => enc iv.2 (default HintNone (expectedTypes !! iv.1))) (zip (seq 0 (length l)) l)
  end.

(** A hint of the user: a name or a code; type descriptions are not modelled. *)
Definition to_hint (v : jv) : result hint :=
  match v with
  | JUndef | JNull => Ok HintNone
  | JStr s => Ok (HintName s)
  | JNum (Fin m 0) => Ok (HintCode m)
  | _ => Throw Unmodelled
  end.

(** [hints || []] *)
Definition to_hints (v : jv) : result (list hint) :=
  if truthy v then match v with JArr l => traverse to_hint l | _ => Throw Unmodelled end else Ok [].

(** A query, or what [prepareQuery] made of it. *)
Inductive query_text := QueryString (s : jsstr) | Prepared (expectedTypes : list column_type) (s : jsstr).

Definition prepareQuery (query : jsstr) : script (list column_type * jsstr) :=
  Await (PrepareStatement query) (fun types => Return (map convertComplexType types, query)).

(** [if (typeof query === "string") query = await this.prepareQuery(query)] *)
Definition prepare_text (query : query_text) : script (list column_type * jsstr) :=
  match query with QueryString s => prepareQuery s | Prepared types s => Return (types, s) end.

(** [await this.#connect()], unless the client is connected. *)
Definition ensure_connected (connected : bool) : script unit := if connected then Return tt else Await Connect Return.

Definition rustyExecute (connected : bool) (query : query_text) (params : query_params value) (o : options) : script ResultSet :=
  match params with
  | ObjectParams _ => Raise PlainError
  | _ =>
      _ ← ensure_connected connected;
      '(rustOptions, o) ← lift (getRustOptions o);
      result ←
        (if truthy (isPrepared o) then
           '(expectedTypes, statement) ← prepare_text query;
           encoded ← lift (encodeParams (map HintType expectedTypes) params);
           Await (ExecutePreparedUnpaged statement encoded rustOptions) Return
         else
           match query with
           | Prepared _ _ => Raise PlainError
           | QueryString s =>
               hints ← lift (to_hints (getHints o));
               encoded ← lift (encodeParams hints params);
               Await (QueryUnpaged s encoded rustOptions) Return
           end);
      lift (ResultSet_new result None)
  end.

(** The answer of one page: the state of the next one, and the result. *)
Record paged := mkPaged { pg_next : option (list Z); pg_result : ResultSet }.

(** The variables that the function [resultSet.nextPageAsync] closes over. *)
Record next_page_function := mkNextPage { np_query : query_text; np_params : query_params value; np_options : options }.

(** The state to send: the one that is passed, or that of the options. *)
Definition page_to_send (o : options) (pageState : option (list Z)) : option (list Z) :=
  match pageState with
  | Some b => Some b
  | None => match getPageState o with JBuf b => Some b | _ => None end
  end.

Definition rustyPaged (connected : bool) (query : query_text) (params : query_params value) (o : options) (pageState : option (list Z))
    : script (paged * option next_page_function) :=
  if negb (truthy (isPrepared o)) && match params with ObjectParams _ => true | _ => false end then Raise PlainError
  else
    _ ← ensure_connected connected;
    let page := page_to_send o pageState in
    '(rustOptions, o) ← lift (getRustOptions o);
    '(result, next, query) ←
      (if truthy (isPrepared o) then
         '(expectedTypes, statement) ← prepare_text query;
         encoded ← lift (encodeParams (map HintType expectedTypes) params);
         Await (ExecuteSinglePage statement encoded rustOptions page) (fun a => Return (a, Prepared expectedTypes statement))
       else
         match query with
         | Prepared _ _ => Raise PlainError
         | QueryString s =>
             hints ← lift (to_hints (getHints o));
             encoded ← lift (encodeParams hints params);
             Await (QuerySinglePage s encoded rustOptions page) (fun a => Return (a, QueryString s))
         end);
    rs ← lift (ResultSet_new result (Some next));
    Return (mkPaged next rs, match next with Some _ => Some (mkNextPage query params o) | None => None end).

(** A call of [resultSet.nextPageAsync]; the new result has its own function. *)
Definition nextPageAsync (connected : bool) (f : next_page_function) (state : list Z) : script (ResultSet * option next_page_function) :=
  '(p, f') ← rustyPaged connected (np_query f) (np_params f) (np_options f) (Some state); Return (pg_result p, f').

(** [execute] behind [createOptions]: paged unless the options say otherwise;
    the result with its [nextPageAsync]. *)
Definition execute (connected : bool) (query : jsstr) (params : query_params value) (o : options) : script (ResultSet * option next_page_function) :=
  o ← lift (wrapOptionsIfNotWrappedYet o);
  if truthy (isPaged o) then '(p, f) ← rustyPaged connected (QueryString query) params o None; Return (pg_result p, f)
  else rs ← rustyExecute connected (QueryString query) params o; Return (rs, None).

(** The arguments of [execute]: a callback can take the place of the optional
    ones. *)
Inductive argument (A C : Type) := Omitted | Given (a : A) | Function (callback : C).
Arguments Omitted {A C}.
Arguments Given {A C} a.
Arguments Function {A C} callback.

Definition given {A C} (a : argument A C) : option A := match a with Given a => Some a | _ => None end.

(** [params], [options] and [callback] as used. *)
Definition execute_arguments {A B C} (params : argument A C) (options : argument B C) (callback : option C)
    : argument A C * argument B C * option C :=
  match callback with
  | Some c => (params, options, Some c)
  | None =>
      match options, params with
      | Function c, _ => (params, Omitted, Some c)
      | _, Function c => (Omitted, options, Some c)
      | _, _ => (params, options, None)
      end
  end.

(** ** [batch] *)

(** An element of the array: a text, or an object; another falsy value. *)
Inductive batch_query :=
  | BatchText (s : jsstr)
  | BatchObject (query : option jsstr) (params : query_params value)
  | BatchFalsy.

(** The text of an element, unless the element or the text is falsy. *)
Definition batch_statement (element : batch_query) : option jsstr :=
  match element with
  | BatchText ((_ :: _) as s) | BatchObject (Some ((_ :: _) as s)) _ => Some s
  | _ => None
  end.

(** [element.params || []] *)
Definition batch_params (element : batch_query) : query_params value :=
  match element with
  | BatchObject _ NoParams => ArrayParams []
  | BatchObject _ params => params
  | _ => ArrayParams []
  end.

(** [hints[i] || []] *)
Definition hints_at (hints : jv) (i : nat) : result (list hint) :=
  if truthy hints then
    match hints with JArr l => to_hints (default JUndef (l !! i)) | _ => Throw Unmodelled end
  else Ok [].

(** The types for a statement, and the cache of prepared statements. *)
Definition batch_types (prepared : bool) (hints : jv) (i : nat) (statement : jsstr) (cache : PreparedCache (list column_type))
    : script (list hint * PreparedCache (list column_type)) :=
  if prepared then
    match getElement cache statement with
    | Some types => Return (map HintType types, cache)
    | None => '(types, _) ← prepareQuery statement; Return (map HintType types, storeElement cache statement types)
    end
  else types ← lift (hints_at hints i); Return (types, cache).

(** The loop over the queries from index [i] on. *)
Fixpoint batch_loop (prepared : bool) (hints : jv) (i : nat) (queries : list batch_query) (cache : PreparedCache (list column_type))
    : script (list (jsstr * list encoded)) :=
  match queries with
  | [] => Return []
  | element :: queries' =>
      match batch_statement element with
      | None => Raise ArgumentError
      | Some statement =>
          '(types, cache) ← batch_types prepared hints i statement cache;
          row ← lift (encodeParams types (batch_params element));
          rest ← batch_loop prepared hints (S i) queries' cache;
          Return ((statement, row) :: rest)
      end
  end.

(** [#rustyBatch]; [None] is a value that is not an array, and [create] makes the
    options. *)
Definition rustyBatch (queries : option (list batch_query)) (create : result options) : script ResultSet :=
  match queries with
  | None | Some [] => Raise ArgumentError
  | Some queries =>
      _ ← Await Connect Return;
      o ← lift create;
      o ← lift (wrapOptionsIfNotWrappedYet o);
      let prepared := truthy (isPrepared o) in
      rows ← batch_loop prepared (getHints o) 0 queries [];
      '(rustOptions, o) ← lift (getRustOptions o);
      result ← Await (BatchEncoded prepared (map fst rows) rustOptions (map snd rows)) Return;
      lift (ResultSet_new result None)
  end.
End client.
Arguments Omitted {A C}.
Arguments Given {A C} a.
Arguments Function {A C} callback.

(** ** [eachRow] *)

Section each_row.
Context {P R Er : Type}.

(** The variables of a call; the calls of [rowCallback] with their row index,
    and those of the final callback: the result with its row length, or an
    error. *)
Record each_row := mkEachRow {
  er_rowLength : nat;
  er_pagingState : option (list Z);
  er_waiting : bool;
  er_nextPage : bool;
  er_rows : list (nat * Row);
  er_callbacks : list ((ResultSet * nat) + Er) }.

Definition eachRow_start : each_row := mkEachRow 0 None true false [] [].

(** A page arrives, or the user calls [nextPage] of the result. *)
Inductive each_row_event := PageAnswer (a : paged + Er) | NextPageCall.

(** [pageCallback] *)
Definition pageCallback (isAutoPage : bool) (x : each_row) (a : paged + Er) : each_row :=
  match a with
  | inr e => mkEachRow (er_rowLength x) (er_pagingState x) false (er_nextPage x) (er_rows x) (er_callbacks x ++ [inr e])
  | inl p =>
      let rs := pg_result p in
      let rowLength := (er_rowLength x + rs_rowLength rs)%nat in
      let rows := er_rows x ++ match rs_rows rs with Some l => zip (seq 0 (length l)) l | None => [] end in
      match pg_next p with
      | Some state =>
          if isAutoPage then mkEachRow rowLength (Some state) true (er_nextPage x) rows (er_callbacks x)
          else mkEachRow rowLength (Some state) false true rows (er_callbacks x ++ [inl (rs, rowLength)])
      | None => mkEachRow rowLength (er_pagingState x) false false rows (er_callbacks x ++ [inl (rs, rowLength)])
      end
  end.

(** [None] is an event that cannot happen: a request has one answer, and
    [nextPage] is called once per result that has it. *)
Definition each_row_step (isAutoPage : bool) (x : each_row) (ev : each_row_event) : option each_row :=
  match ev with
  | PageAnswer a => if er_waiting x then Some (pageCallback isAutoPage x a) else None
  | NextPageCall =>
      if er_nextPage x && negb (er_waiting x)
      then Some (mkEachRow (er_rowLength x) (er_pagingState x) true false (er_rows x) (er_callbacks x)) else None
  end.

Fixpoint each_row_run (isAutoPage : bool) (x : each_row) (evs : list each_row_event) : option each_row :=
  match evs with
  | [] => Some x
  | ev :: evs' => match each_row_step isAutoPage x ev with Some x => each_row_run isAutoPage x evs' | None => None end
  end.
End each_row.
Arguments each_row : clear implicits.
Arguments each_row_event : clear implicits.

(** ** The connection *)

Section connection.
Context {S Er : Type}.

(** How a call of [connect] or [shutdown] ends: with nothing, with
    NoHostAvailableError, or with the error of the session. *)
Inductive ending := Done | ConnectAfterShutdown | SessionError (e : Er).

(** The fields; the calls that wait for the event [connected], those of
    [shutdown] among them apart; the call that creates the session; and the
    calls that have ended. *)
Record connection := mkConnection {
  connected : bool;
  connecting : bool;
  isShuttingDown : bool;
  rustClient : option S;
  cn_waiting : list nat;
  cn_closing : list nat;
  cn_creating : option nat;
  cn_ended : list (nat * ending) }.

Definition Client_new : connection := mkConnection false false false None [] [] None [].

Inductive connection_event := ConnectCall (id : nat) | ShutdownCall (id : nat) | SessionCreated (r : S + Er).

Definition end_call (x : connection) (id : nat) (e : ending) : connection :=
  mkConnection (connected x) (connecting x) (isShuttingDown x) (rustClient x) (cn_waiting x) (cn_closing x) (cn_creating x)
    (cn_ended x ++ [(id, e)]).

(** [#connect] up to its first await. *)
Definition connect_call (x : connection) (id : nat) : connection :=
  if connected x then end_call x id Done
  else if isShuttingDown x then end_call x id ConnectAfterShutdown
  else if connecting x then
    mkConnection (connected x) (connecting x) (isShuttingDown x) (rustClient x) (cn_waiting x ++ [id]) (cn_closing x) (cn_creating x) (cn_ended x)
  else
    mkConnection (connected x) true (isShuttingDown x) (rustClient x) (cn_waiting x) (cn_closing x) (Some id) (cn_ended x).

(** What follows the await of [createSession], with the reactions to the event. *)
Definition session_created (x : connection) (id : nat) (r : S + Er) : connection :=
  match r with
  | inl s =>
      mkConnection (if bool_decide (cn_closing x = []) then true else false) false
        (if bool_decide (cn_closing x = []) then isShuttingDown x else true) (Some s) [] [] None
        (cn_ended x ++ map (fun i => (i, Done)) (cn_waiting x) ++ map (fun i => (i, Done)) (cn_closing x) ++ [(id, Done)])
  | inr e =>
      mkConnection false false (isShuttingDown x) (rustClient x) [] [] None
        (cn_ended x ++ map (fun i => (i, SessionError e)) (cn_waiting x) ++ map (fun i => (i, SessionError e)) (cn_closing x) ++
         [(id, SessionError e)])
  end.

(** [#shutdown] *)
Definition shutdown_call (x : connection) (id : nat) : connection :=
  if negb (connected x) then end_call x id Done
  else if connecting x then
    mkConnection (connected x) (connecting x) (isShuttingDown x) (rustClient x) (cn_waiting x) (cn_closing x ++ [id]) (cn_creating x) (cn_ended x)
  else
    mkConnection false (connecting x) true (rustClient x) (cn_waiting x) (cn_closing x) (cn_creating x) (cn_ended x ++ [(id, Done)]).

Inductive connection_step : connection -> connection_event -> connection -> Prop :=
  | StepConnect x id : connection_step x (ConnectCall id) (connect_call x id)
  | StepShutdown x id : connection_step x (ShutdownCall id) (shutdown_call x id)
  | StepCreated x id r : cn_creating x = Some id -> connection_step x (SessionCreated r) (session_created x id r).

(** The states that a sequence of events leads to. *)
Inductive reaches : list connection_event -> connection -> Prop :=
  | reaches_start : reaches [] Client_new
  | reaches_step evs ev x y : reaches evs x -> connection_step x ev y -> reaches (evs ++ [ev]) y.
End connection.
Arguments connection : clear implicits.
Arguments connection_event : clear implicits.
Arguments ending : clear implicits.
