(* ===== verification/ClientTheorems.v ===== *)
(** The client: its connection, and what its calls send and deliver. *)
From S2P Require Import Prelude.
From S2P Require Import JsNum.
From S2P Require Import JsStr.
From S2P Require Import LongLib.
From S2P Require Import Utils.
From S2P Require Import JsVal.
From S2P Require Import TypeNames.
From S2P Require Import Encoder.
From S2P Require Import Options.
From S2P Require Import ExecOptions.
From S2P Require Import Results.
From S2P Require Import ResultsTheorems.
From S2P Require Import Concurrent.
From S2P Require Import Client.

(** ** The connection *)

Section connection.
Context {S Er : Type}.
Abbreviation client := (connection S Er).
Abbreviation conn_event := (connection_event S Er).
Implicit Types (x y : client) (ev : conn_event) (evs : list conn_event).

(** The calls of [connect] and [shutdown] in a sequence of events. *)
Definition event_call (ev : conn_event) : list nat :=
  match ev with ConnectCall id | ShutdownCall id => [id] | SessionCreated _ => [] end.

Definition calls (evs : list conn_event) : list nat := concat (map event_call evs).

(** The calls that have not ended. *)
Definition open_calls x : list nat := cn_waiting x ++ match cn_creating x with Some id => [id] | None => [] end.

Record connection_ok (ids : list nat) (x : client) : Prop := {
  co_creating : connecting x = true <-> is_Some (cn_creating x);
  co_waiting : connecting x = false -> cn_waiting x = [];
  co_closing : cn_closing x = [];
  co_connected : connected x = true -> connecting x = false /\ is_Some (rustClient x) /\ isShuttingDown x = false;
  co_shutdown : isShuttingDown x = true -> connecting x = false;
  co_calls : map fst (cn_ended x) ++ open_calls x ≡ₚ ids }.

Lemma connection_ok_start : connection_ok [] Client_new.
Proof. split; try done. split; [done|]. by intros [? ?]. Qed.

Lemma ended_ok ids x id e : connection_ok ids x -> connection_ok (ids ++ [id]) (end_call x id e).
Proof.
  intros [A B C D F G]. split; try done. unfold end_call, open_calls in *. cbn. rewrite map_app. cbn.
  rewrite <- G. solve_Permutation.
Qed.

Lemma step_ok ids x ev y : connection_ok ids x -> connection_step x ev y -> connection_ok (ids ++ event_call ev) y.
Proof.
  intros Hx Hs. pose proof Hx as [A B C D F G]. destruct Hs as [x id|x id|x id r Hc]; cbn [event_call].
  - unfold connect_call. destruct (connected x) eqn:Ec; [by apply ended_ok|].
    destruct (isShuttingDown x) eqn:Es; [by apply ended_ok|]. destruct (connecting x) eqn:Eg.
    + split; cbn; try done. unfold open_calls in *. cbn. rewrite <- G. solve_Permutation.
    + destruct (cn_creating x) eqn:En; [destruct A as [_ A]; by discriminate A|].
      split; cbn; try done. unfold open_calls in *. cbn. rewrite En, (B eq_refl) in G. rewrite <- G, (B eq_refl). cbn. by rewrite app_nil_r.
  - unfold shutdown_call. destruct (connected x) eqn:Ec; [|by apply ended_ok]. destruct (D eq_refl) as (Eg & _ & _). rewrite Eg in *. cbn.
    split; cbn; try done; try (by rewrite Eg).  unfold open_calls in *. cbn. rewrite map_app, <- G. cbn. solve_Permutation.
  - rewrite app_nil_r. assert (Eg : connecting x = true) by (apply A; eauto).
    assert (Ec : connected x = false) by (destruct (connected x); [destruct D; [done|congruence]|done]).
    assert (Es : isShuttingDown x = false) by (destruct (isShuttingDown x); [by rewrite F in Eg|done]).
    assert (Hp : forall e : ending Er, map fst (map (fun i => (i, e)) (cn_waiting x)) = cn_waiting x).
    { intros e. rewrite map_map. apply map_id. }
    unfold open_calls in *. rewrite Hc in G.
    unfold session_created. rewrite C, bool_decide_eq_true_2 by done. destruct r; split; cbn; try done;
      try (split; [done|by intros [? ?]]); try (by rewrite Es); rewrite ?app_nil_r, !map_app, Hp; exact G.
Qed.

(** C12: whatever the order of calls and of the session's answer, the client
    is never connected and connecting at once, and is connected only with a
    session; every call of [connect] and [shutdown] ends exactly once, or is
    waiting for the one session that is being created: when none is, no call
    waits. *)
Theorem connection_invariant evs x :
  reaches evs x ->
  (connected x = true -> connecting x = false /\ is_Some (rustClient x) /\ isShuttingDown x = false) /\
  (connecting x = true <-> is_Some (cn_creating x)) /\
  map fst (cn_ended x) ++ open_calls x ≡ₚ calls evs /\
  (connecting x = false -> map fst (cn_ended x) ≡ₚ calls evs).
Proof.
  intros Hr. assert (Hx : connection_ok (calls evs) x).
  { induction Hr as [|evs ev x y _ IH Hs]; [apply connection_ok_start|]. unfold calls in *. rewrite map_app, concat_app. cbn [map concat].
    rewrite app_nil_r. by eapply step_ok. }
  destruct Hx as [A B C D F G]. split_and!; try done. intros Eg. rewrite <- G. unfold open_calls. rewrite (B Eg).
  destruct (cn_creating x); [|by rewrite app_nil_r]. destruct A as [_ A]. rewrite A in Eg by eauto. done.
Qed.

(** A client that was shut down while connected stays so. *)
Lemma shutdown_forever x ev y :
  isShuttingDown x = true -> connected x = false -> connecting x = false -> cn_creating x = None -> connection_step x ev y ->
  isShuttingDown y = true /\ connected y = false /\ connecting y = false /\ cn_creating y = None /\
  forall id, ev = ConnectCall id -> cn_ended y = cn_ended x ++ [(id, ConnectAfterShutdown)].
Proof.
  intros Hs Hc Hg Hn Hstep. destruct Hstep as [x id|x id|x id r H]; [| |by rewrite H in Hn].
  - unfold connect_call. rewrite Hc, Hs. cbn. split_and!; try done. by intros ? [= ->].
  - unfold shutdown_call. rewrite Hc. cbn. by split_and!.
Qed.
End connection.

(** A shutdown during the connection has no effect: the client is connected
    afterwards. *)
Lemma shutdown_while_connecting :
  exists x : connection nat nat,
    reaches [ConnectCall 0; ShutdownCall 1; SessionCreated (inl 7%nat)] x /\
    connected x = true /\ isShuttingDown x = false /\ cn_ended x = [(1%nat, Done); (0%nat, Done)].
Proof.
  exists (session_created (shutdown_call (connect_call Client_new 0) 1) 0 (inl 7%nat)). split.
  - eapply (reaches_step [ConnectCall 0; ShutdownCall 1] (SessionCreated (inl 7%nat))); [|by apply (StepCreated _ 0)].
    eapply (reaches_step [ConnectCall 0] (ShutdownCall 1)); [|apply StepShutdown].
    eapply (reaches_step [] (ConnectCall 0)); [apply reaches_start|apply StepConnect].
  - by cbn.
Qed.

Lemma connection_invariant_witness :
  exists x : connection nat nat, reaches [ConnectCall 0; ConnectCall 1; SessionCreated (inr 9%nat)] x /\
    map fst (cn_ended x) ≡ₚ [0; 1]%nat.
Proof.
  assert (Hr : reaches [ConnectCall 0; ConnectCall 1; SessionCreated (inr 9%nat)]
    (session_created (connect_call (connect_call (Client_new (S := nat)) 0) 1) 0 (inr 9%nat))).
  { eapply (reaches_step [ConnectCall 0; ConnectCall 1] (SessionCreated (inr 9%nat))); [|by apply StepCreated].
    eapply (reaches_step [ConnectCall 0] (ConnectCall 1)); [|apply StepConnect].
    eapply (reaches_step [] (ConnectCall 0)); [apply reaches_start|apply StepConnect]. }
  eexists. split; [exact Hr|]. destruct (connection_invariant _ _ Hr) as (_ & _ & _ & H). by apply H.
Defined.

(** ** Rows one by one *)

Section each_row.
Context {Er : Type}.
Implicit Types (p : paged) (pages : list paged).

Definition page_rows p : list (nat * Row) := match rs_rows (pg_result p) with Some l => zip (seq 0 (length l)) l | None => [] end.
Definition page_length p : nat := rs_rowLength (pg_result p).
Definition total_length pages : nat := sum_list (map page_length pages).

(** The calls of the final callback for the pages fetched one by one by the
    user: each result with the number of rows so far. *)
Fixpoint manual_callbacks (n : nat) pages : list ((ResultSet * nat) + Er) :=
  match pages with
  | [] => []
  | p :: pages' => let n := (n + page_length p)%nat in inl (pg_result p, n) :: manual_callbacks n pages'
  end.

Lemma auto_pages pages (final : paged + Er) (x : each_row Er) :
  Forall (fun p => is_Some (pg_next p)) pages ->
  er_waiting x = true -> er_nextPage x = false -> er_callbacks x = [] ->
  match final with inl p => pg_next p = None | inr _ => True end ->
  exists y, each_row_run true x (map PageAnswer (map inl pages ++ [final])) = Some y /\
    er_rows y = er_rows x ++ concat (map page_rows pages) ++ match final with inl p => page_rows p | inr _ => [] end /\
    er_callbacks y = [match final with
                      | inl p => inl (pg_result p, er_rowLength x + total_length pages + page_length p)%nat
                      | inr e => inr e
                      end] /\
    forall ev, each_row_step true y ev = None.
Proof.
  intros Hn. revert x. induction Hn as [|p pages [state Hp] _ IH]; intros x Hw Hx Hc Hf; cbn [map app each_row_run each_row_step].
  - rewrite Hw. eexists. split; [reflexivity|]. unfold total_length, page_length. cbn [map sum_list]. destruct final as [p|e]; cbn [pageCallback].
    + rewrite Hf. cbn. rewrite Hc. split_and!; [done|by rewrite Nat.add_0_r|]. by intros [|].
    + cbn. rewrite Hc, app_nil_r. split_and!; [done|done|]. intros [|]; cbn; [done|]. by rewrite Hx.
  - rewrite Hw. cbn [pageCallback]. rewrite Hp. match goal with |- exists y, each_row_run _ ?z _ = _ /\ _ => destruct (IH z) as (y & Hy & Hr & Hcb & He); [done..|] end.
    exists y. split_and!; [exact Hy| | |done].
    + rewrite Hr. cbn [er_rows]. unfold page_rows at 2. cbn [map concat]. by rewrite <- !app_assoc.
    + rewrite Hcb. cbn [er_rowLength]. change (total_length (p :: pages)) with (page_length p + total_length pages)%nat.
      change (rs_rowLength (pg_result p)) with (page_length p). destruct final; [|done]. do 3 f_equal. lia.
Qed.

Lemma manual_pages pages p (x : each_row Er) :
  Forall (fun p => is_Some (pg_next p)) pages -> pg_next p = None ->
  er_waiting x = true -> er_nextPage x = false ->
  exists y, each_row_run false x (concat (map (fun p => [PageAnswer (inl p); NextPageCall]) pages) ++ [PageAnswer (inl p)]) = Some y /\
    er_rows y = er_rows x ++ concat (map page_rows (pages ++ [p])) /\
    er_callbacks y = er_callbacks x ++ manual_callbacks (er_rowLength x) (pages ++ [p]) /\
    forall ev, each_row_step false y ev = None.
Proof.
  intros Hn Hlast. revert x. induction Hn as [|q pages [state Hq] _ IH]; intros x Hw Hx; cbn [map concat app each_row_run each_row_step].
  - rewrite Hw. cbn [pageCallback]. rewrite Hlast. eexists. split; [reflexivity|]. cbn. rewrite app_nil_r. split_and!; [done|done|]. by intros [|].
  - rewrite Hw. cbn [pageCallback]. rewrite Hq. cbn [er_nextPage er_waiting negb andb].
    match goal with |- exists y, each_row_run _ ?z _ = _ /\ _ => destruct (IH z) as (y & Hy & Hr & Hcb & He); [done..|] end.
    exists y. split_and!; [exact Hy| | |done].
    + rewrite Hr. cbn [er_rows]. unfold page_rows at 2. by rewrite <- !app_assoc.
    + rewrite Hcb. cbn [er_callbacks er_rowLength manual_callbacks]. by rewrite <- !app_assoc.
Qed.

(** C10: [eachRow] calls [rowCallback] for the rows of all the pages in order.
    With automatic paging the final callback is called exactly once: with the
    last result and the number of all rows, or with the first error.  Otherwise
    it is called once per page the user asks for, with the number of rows so
    far.  Afterwards nothing is requested. *)
Theorem eachRow_delivers pages p (final : paged + Er) :
  Forall (fun p => is_Some (pg_next p)) pages -> pg_next p = None ->
  match final with inl p => pg_next p = None | inr _ => True end ->
  (exists y, each_row_run true eachRow_start (map PageAnswer (map inl pages ++ [final])) = Some y /\
     er_rows y = concat (map page_rows pages) ++ match final with inl p => page_rows p | inr _ => [] end /\
     er_callbacks y = [match final with
                       | inl p => inl (pg_result p, total_length pages + page_length p)%nat
                       | inr e => inr e
                       end] /\
     forall ev, each_row_step true y ev = None) /\
  (exists y, each_row_run false eachRow_start (concat (map (fun p => [PageAnswer (inl p); NextPageCall]) pages) ++ [PageAnswer (inl p)]) = Some y /\
     er_rows y = concat (map page_rows (pages ++ [p])) /\ er_callbacks y = manual_callbacks 0 (pages ++ [p]) /\
     forall ev, each_row_step false y ev = None).
Proof.
  intros Hn Hp Hf. split.
  - by destruct (auto_pages pages final eachRow_start Hn) as (y & H1 & H2 & H3 & H4); [..|exists y].
  - by destruct (manual_pages pages p eachRow_start Hn Hp) as (y & H1 & H2 & H3 & H4); [..|exists y].
Qed.
End each_row.

Definition some_page (n : Z) (next : option (list Z)) : paged :=
  mkPaged next (mkResultSet (Some [some_row n]) 1 next None []).

Lemma eachRow_delivers_witness :
  exists y, each_row_run true eachRow_start [PageAnswer (inl (some_page 1 (Some [7]))); PageAnswer (inr 5)] = Some y /\ er_callbacks y = [inr 5].
Proof.
  destruct (eachRow_delivers [some_page 1 (Some [7])] (some_page 2 None) (inr 5)) as [(y & Hy & _ & Hc & _) _].
  - constructor; [by eexists|constructor].
  - reflexivity.
  - exact I.
  - by exists y.
Defined.
