(* ===== verification/Stream.v ===== *)
(** [lib/types/result-stream.js] and [stream] of [lib/client.js], which feeds a
    [ResultStream] with the rows of [eachRow].

    The stream of Node below it is not part of the model: it calls [_read] when it
    wants chunks, in [read(0)] or later, and [push] answers whether it takes more.
    Both are arbitrary functions of the number of chunks so far. *)
From S2P Require Import Prelude.
From S2P Require Import Results.
From S2P Require Import Client.

(** ** [ResultStream] *)

Section result_stream.
Context {A F C : Type} (accepts reads : nat -> bool).

(** The object given to [setHandlers]: whether it has a [resumeReadingHandler],
    and its [cancelHandler], given or put there by [cancel]. *)
Inductive cancel_handler := Given | Flag (callback : C).
Record stream_handlers := mkHandlers { sh_resume : bool; sh_cancel : option cancel_handler }.

(** The fields; a chunk that is [None] is null.  [st_pushed] are the chunks pushed
    and [st_resumed] the calls of [resumeReadingHandler]. *)
Record stream := mkStream {
  st_buffer : list (option A);
  st_paused : bool;
  st_readNext : option F;
  st_cancelAllowed : bool;
  st_handlers : option stream_handlers;
  st_highWaterMarkRows : Z;
  st_pushed : list (option A);
  st_resumed : list bool }.

Definition ResultStream_new : stream := mkStream [] true None false None 0 [] [].

Definition has_resume (x : stream) : bool := match st_handlers x with Some h => sh_resume h | None => false end.

Definition set_buffer (x : stream) (buffer : list (option A)) (paused : bool) (pushed : list (option A)) : stream :=
  mkStream buffer paused (st_readNext x) (st_cancelAllowed x) (st_handlers x) (st_highWaterMarkRows x) pushed (st_resumed x).
Definition set_readNext (x : stream) (readNext : option F) : stream :=
  mkStream (st_buffer x) (st_paused x) readNext (st_cancelAllowed x) (st_handlers x) (st_highWaterMarkRows x) (st_pushed x) (st_resumed x).
Definition resumed (x : stream) (b : bool) : stream :=
  mkStream (st_buffer x) (st_paused x) (st_readNext x) (st_cancelAllowed x) (st_handlers x) (st_highWaterMarkRows x) (st_pushed x) (st_resumed x ++ [b]).
Definition set_handlers (x : stream) (h : option stream_handlers) : stream :=
  mkStream (st_buffer x) (st_paused x) (st_readNext x) (st_cancelAllowed x) h (st_highWaterMarkRows x) (st_pushed x) (st_resumed x).

Definition checkAboveHighWaterMark (x : stream) : stream :=
  if negb (has_resume x) then x
  else if (st_highWaterMarkRows x =? 0) || negb (Z.of_nat (length (st_buffer x)) =? st_highWaterMarkRows x) then x
  else resumed x false.

Definition checkBelowHighWaterMark (x : stream) : stream :=
  if negb (has_resume x) then x
  else if (st_highWaterMarkRows x =? 0) || (st_highWaterMarkRows x <=? Z.of_nat (length (st_buffer x))) then x
  else resumed x true.

(** [while (!this.paused && this.buffer.length > 0)]: what is left in the buffer,
    [paused] and the chunks pushed. *)
Fixpoint push_loop (buffer : list (option A)) (pushed : list (option A)) : list (option A) * bool * list (option A) :=
  match buffer with
  | [] => ([], false, pushed)
  | chunk :: buffer' =>
      let pushed' := pushed ++ [chunk] in
      if accepts (length pushed) then push_loop buffer' pushed' else (buffer', true, pushed')
  end.

(** The result has the calls of [readNext]. *)
Definition read_ (x : stream) : stream * list F :=
  let '(buffer, paused, pushed) := push_loop (st_buffer x) (st_pushed x) in
  let x := checkBelowHighWaterMark (set_buffer x buffer paused pushed) in
  match st_readNext x, st_buffer x with
  | Some readNext, [] => if st_paused x then (x, []) else (set_readNext x None, [readNext])
  | _, _ => (x, [])
  end.

Definition valve (x : stream) (readNext : option F) : stream * list F :=
  let x := set_readNext x None in
  match readNext with
  | None => (x, [])
  | Some f => if st_paused x || (0 <? length (st_buffer x))%nat then (set_readNext x (Some f), []) else (x, [f])
  end.

(** The chunks so far give the answer of [read(0)]: whether it calls [_read]. *)
Definition add (x : stream) (chunk : option A) : stream * list F * nat :=
  let count := length (st_pushed x ++ st_buffer x) in
  let x := set_buffer x (st_buffer x ++ [chunk]) (st_paused x) (st_pushed x) in
  let size := length (st_buffer x) in
  let '(x, calls) := if reads count then read_ x else (x, []) in
  (checkAboveHighWaterMark x, calls, size).

(** What [cancel] does: it throws the error or passes it to the callback, fails
    since the handlers are missing, keeps the callback, or calls the handler: the
    one given, or the callback kept by an earlier call. *)
Inductive cancelled :=
  | NotAllowed (callback : option C)
  | HandlersMissing
  | Kept
  | HandlerCalled (callback : option C)
  | FlagCalled (flag : C) (callback : option C).

(** [noop] stands for a missing callback. *)
Definition cancel (noop : C) (x : stream) (callback : option C) : stream * cancelled :=
  if negb (st_cancelAllowed x) then (x, NotAllowed callback)
  else
    match st_handlers x with
    | None => (x, HandlersMissing)
    | Some h =>
        match sh_cancel h with
        | None => (set_handlers x (Some (mkHandlers (sh_resume h) (Some (Flag (default noop callback))))), Kept)
        | Some Given => (x, HandlerCalled callback)
        | Some (Flag flag) => (x, FlagCalled flag callback)
        end
    end.

Definition continuousPageDefaultHighWaterMark : Z := 10000.

(** [continuousPaging] is [None] when it is falsy, and so is [highWaterMarkRows]
    in it when it is missing. *)
Definition setHandlers (x : stream) (continuousPaging : option (option Z)) (h : stream_handlers) : stream :=
  match continuousPaging with
  | None => x
  | Some rows =>
      let highWaterMarkRows := match rows with Some n => if n =? 0 then continuousPageDefaultHighWaterMark else n | None => continuousPageDefaultHighWaterMark end in
      mkStream (st_buffer x) (st_paused x) (st_readNext x) true (Some h) highWaterMarkRows (st_pushed x) (st_resumed x)
  end.
End result_stream.
Arguments stream : clear implicits.
Arguments stream_handlers : clear implicits.
Arguments cancel_handler : clear implicits.
Arguments cancelled : clear implicits.

(** ** [Client.stream] *)

Section client_stream.
Context {Er C : Type} (accepts reads : nat -> bool) (isAutoPage : bool).

(** The execution of [eachRow], the stream, the events [error] and the calls of the
    user's callback.  The only function given to [_valve] is [pageValve]. *)
Record client_stream := mkClientStream {
  cs_rows : each_row Er;
  cs_stream : stream Row unit C;
  cs_errors : list Er;
  cs_callbacks : list (option Er) }.

(** [pageValve]: [result.nextPage()], which requests the page later. *)
Definition pageValve (x : client_stream) : client_stream :=
  match each_row_step isAutoPage (cs_rows x) NextPageCall with
  | Some rows => mkClientStream rows (cs_stream x) (cs_errors x) (cs_callbacks x)
  | None => x
  end.

Definition with_calls (x : client_stream) (r : stream Row unit C * list unit) : client_stream :=
  foldl (fun x _ => pageValve x) (mkClientStream (cs_rows x) r.1 (cs_errors x) (cs_callbacks x)) r.2.

Definition stream_add (x : client_stream) (chunk : option Row) : client_stream := with_calls x (add accepts reads (cs_stream x) chunk).1.

Definition onFinish (x : client_stream) (r : (ResultSet * nat) + Er) : client_stream :=
  let x := match r with inr e => mkClientStream (cs_rows x) (cs_stream x) (cs_errors x ++ [e]) (cs_callbacks x) | inl _ => x end in
  if match r with inl _ => er_nextPage (cs_rows x) | inr _ => false end then with_calls x (valve (cs_stream x) (Some tt))
  else
    let x := stream_add (with_calls x (valve (cs_stream x) None)) None in
    mkClientStream (cs_rows x) (cs_stream x) (cs_errors x) (cs_callbacks x ++ [match r with inr e => Some e | inl _ => None end]).

Definition stream_start : client_stream := mkClientStream eachRow_start ResultStream_new [] [].

(** A page arrives, or Node calls [_read]. *)
Inductive client_stream_event := PageArrives (a : paged + Er) | NodeReads.

(** The rows of the page are added, then the callback of [eachRow] is called if
    [eachRow] calls it. *)
Definition client_stream_step (x : client_stream) (ev : client_stream_event) : option client_stream :=
  match ev with
  | PageArrives a =>
      rows ← each_row_step isAutoPage (cs_rows x) (PageAnswer a);
      let added := map snd (drop (length (er_rows (cs_rows x))) (er_rows rows)) in
      let called := drop (length (er_callbacks (cs_rows x))) (er_callbacks rows) in
      let x := mkClientStream rows (cs_stream x) (cs_errors x) (cs_callbacks x) in
      Some (foldl onFinish (foldl stream_add x (map Some added)) called)
  | NodeReads => Some (with_calls x (read_ accepts (cs_stream x)))
  end.

Definition client_stream_run (x : client_stream) (evs : list client_stream_event) : option client_stream :=
  foldl (fun x ev => x ≫= fun x => client_stream_step x ev) (Some x) evs.
End client_stream.
Arguments client_stream : clear implicits.
Arguments client_stream_event : clear implicits.

From S2P Require Import JsNum.
From S2P Require Import JsStr.
From S2P Require Import ResultsTheorems.
From S2P Require Import ClientTheorems.

(** A [ResultStream] pushes the chunks in order and asks for a page only when it
    has none left; [Client.stream] gives the rows of all pages, then the end, and
    holds the rows of one page at most. *)

(** ** [ResultStream] *)

Section result_stream.
Context {A F C : Type} (accepts reads : nat -> bool).
Implicit Types (x : stream A F C).

(** The chunks added so far, in order. *)
Definition chunks x : list (option A) := st_pushed x ++ st_buffer x.

Lemma push_loop_chunks buffer pushed : (push_loop accepts buffer pushed).2 ++ (push_loop (A := A) accepts buffer pushed).1.1 = pushed ++ buffer.
Proof.
  revert pushed. induction buffer as [|c buffer IH]; intros pushed; cbn [push_loop]; [done|].
  destruct (accepts _); [rewrite IH|]; cbn; by rewrite <- app_assoc.
Qed.

(** The loop stops when the buffer is empty or the stream of Node is full. *)
Lemma push_loop_stops buffer pushed : (push_loop (A := A) accepts buffer pushed).1.2 = false -> (push_loop accepts buffer pushed).1.1 = [].
Proof. revert pushed. induction buffer as [|c buffer IH]; intros pushed; cbn [push_loop]; [done|]. destruct (accepts _); [apply IH|done]. Qed.

Lemma push_loop_all buffer pushed : (forall k, accepts k = true) -> push_loop (A := A) accepts buffer pushed = ([], false, pushed ++ buffer).
Proof.
  intros Ha. revert pushed. induction buffer as [|c buffer IH]; intros pushed; cbn [push_loop]; [by rewrite app_nil_r|]. by rewrite Ha, IH, <- app_assoc.
Qed.

Lemma push_loop_pushed buffer pushed : pushed `prefix_of` (push_loop (A := A) accepts buffer pushed).2.
Proof.
  revert pushed. induction buffer as [|c buffer IH]; intros pushed; cbn [push_loop]; [done|].
  destruct (accepts _); cbn; [etrans; [|apply IH]|]; by apply prefix_app_r.
Qed.

(** The marks change nothing else. *)
Definition same_flow (x y : stream A F C) : Prop := st_buffer y = st_buffer x /\ st_paused y = st_paused x /\ st_readNext y = st_readNext x /\ st_pushed y = st_pushed x.

Lemma checkAbove_flow x : same_flow x (checkAboveHighWaterMark x).
Proof. unfold checkAboveHighWaterMark. repeat case_match; done. Qed.

Lemma checkBelow_flow x : same_flow x (checkBelowHighWaterMark x).
Proof. unfold checkBelowHighWaterMark. repeat case_match; done. Qed.

(** What [_read] does: the chunks are the same; the function of [_valve] is called,
    and forgotten, when nothing is left. *)
Lemma read_spec x :
  let '(y, calls) := read_ accepts x in
  chunks y = chunks x /\ st_pushed x `prefix_of` st_pushed y /\ (calls = [] /\ st_readNext y = st_readNext x \/ st_readNext y = None /\ (exists f, st_readNext x = Some f /\ calls = [f]) /\ st_buffer y = [] /\ st_paused y = false) /\
  ((forall k, accepts k = true) -> st_buffer y = [] /\ st_paused y = false /\ st_readNext y = None).
Proof.
  unfold read_. pose proof (push_loop_pushed (st_buffer x) (st_pushed x)) as Hpre. pose proof (push_loop_chunks (st_buffer x) (st_pushed x)) as Hc. pose proof (fun H => push_loop_all (st_buffer x) (st_pushed x) H) as Ha.
  destruct (push_loop _ _ _) as [[buffer paused] pushed]. cbn in Hc, Hpre.
  destruct (checkBelow_flow (set_buffer x buffer paused pushed)) as (Hb & Hp & Hr & Hu).
  set (z := checkBelowHighWaterMark _) in *. cbn in Hb, Hp, Hr, Hu. unfold chunks.
  assert (Hall : (forall k, accepts k = true) -> buffer = [] /\ paused = false) by (intros H; specialize (Ha H); by simplify_eq).
  rewrite Hr, Hb, Hp. destruct (st_readNext x) as [f|] eqn:Ef, buffer as [|c buffer], paused; cbn; rewrite ?Hb, ?Hp, ?Hr, ?Hu, ?Ef; split_and!; try done; eauto 8; intros H; destruct (Hall H); done.
Qed.

Lemma valve_spec x readNext :
  let '(y, calls) := valve x readNext in
  st_buffer y = st_buffer x /\ st_paused y = st_paused x /\ st_pushed y = st_pushed x /\
  match readNext with
  | None => calls = [] /\ st_readNext y = None
  | Some f => if st_paused x || (0 <? length (st_buffer x))%nat then calls = [] /\ st_readNext y = Some f else calls = [f] /\ st_readNext y = None
  end.
Proof. unfold valve. destruct readNext as [f|]; [|done]. cbn [set_readNext st_paused st_buffer]. by destruct (_ || _). Qed.

Lemma add_spec x chunk :
  let '(y, calls, size) := add accepts reads x chunk in
  chunks y = chunks x ++ [chunk] /\ st_pushed x `prefix_of` st_pushed y /\ size = S (length (st_buffer x)) /\ (st_readNext x = None -> calls = [] /\ st_readNext y = None).
Proof.
  unfold add. set (z := set_buffer _ _ _ _). assert (Hz : chunks z = chunks x ++ [chunk]) by (unfold chunks; cbn; by rewrite app_assoc).
  pose proof (read_spec z) as Hr. destruct (if reads _ then read_ accepts z else (z, [])) as [y calls] eqn:Ey.
  destruct (checkAbove_flow y) as (Hb & _ & Hn & Hp). unfold chunks. rewrite Hb, Hn, Hp. fold (chunks y).
  assert (Hsz : length (st_buffer z) = S (length (st_buffer x))) by (cbn; rewrite length_app; cbn; lia).
  destruct (reads _); [rewrite Ey in Hr; destruct Hr as (Hc & Hpre & Hcall & _)|injection Ey as <- <-]; rewrite ?Hc; split_and!; try done.
  intros Hx. destruct Hcall as [[-> H]|(_ & (f & Hf & _) & _)]; [by rewrite H|]. cbn in Hf. congruence.
Qed.

(** The buffer has the end of the chunks. *)
Lemma buffer_suffix x y l : chunks y = chunks x ++ l -> st_pushed x `prefix_of` st_pushed y -> st_buffer y `suffix_of` st_buffer x ++ l.
Proof. unfold chunks. intros H [k Hk]. rewrite Hk, <- !app_assoc in H. apply app_inv_head in H. by exists k. Qed.
End result_stream.

(** ** [Client.stream] *)

Section client_stream.
Context {Er C : Type} (accepts reads : nat -> bool).
Implicit Types (x : client_stream Er C) (answers : list (paged + Er)).

Definition answer_rows (a : paged + Er) : list Row := match a with inl p => map snd (page_rows p) | inr _ => [] end.
Definition is_final (a : paged + Er) : bool := match a with inl p => match pg_next p with None => true | Some _ => false end | inr _ => true end.
Definition page_of (ev : client_stream_event Er) : option (paged + Er) := match ev with PageArrives a => Some a | NodeReads => None end.

(** The chunks of the last answer. *)
Definition last_chunks answers : list (option Row) :=
  match last answers with Some a => map Some (answer_rows a) ++ (if is_final a then [None] else []) | None => [] end.
Definition all_chunks answers : list (option Row) :=
  map Some (concat (map answer_rows answers)) ++ match last answers with Some a => if is_final a then [None] else [] | None => [] end.

(** The rows of a page are added. *)
Lemma stream_adds x rows :
  st_readNext (cs_stream x) = None ->
  let y := foldl (stream_add accepts reads false) x (map Some rows) in
  cs_rows y = cs_rows x /\ cs_errors y = cs_errors x /\ cs_callbacks y = cs_callbacks x /\ st_readNext (cs_stream y) = None /\
  chunks (cs_stream y) = chunks (cs_stream x) ++ map Some rows /\ st_pushed (cs_stream x) `prefix_of` st_pushed (cs_stream y).
Proof.
  revert x. induction rows as [|r rows IH]; intros x Hx; cbn [map foldl]; [by rewrite app_nil_r|].
  pose proof (add_spec accepts reads (cs_stream x) (Some r)) as Ha. unfold stream_add at 2 4 6 8 10 12.
  destruct (add _ _ _ _) as [[z calls] size]. destruct Ha as (Hc & Hp & _ & Hn). destruct (Hn Hx) as [-> Hz].
  destruct (IH (mkClientStream (cs_rows x) z (cs_errors x) (cs_callbacks x)) Hz) as (H1 & H2 & H3 & H4 & H5 & H6). cbn in *.
  split_and!; [done..| |by etrans]. by rewrite H5, Hc, <- app_assoc.
Qed.

(** The stream between two events: a page is requested and all chunks are pushed,
    the next page waits for the chunks to be pushed, or all is done. *)
Inductive stage := Requested | Waits | Over.

Definition at_stage (s : stage) x : Prop :=
  match s with
  | Requested => er_waiting (cs_rows x) = true /\ er_nextPage (cs_rows x) = false /\ st_readNext (cs_stream x) = None /\ st_buffer (cs_stream x) = []
  | Waits => er_waiting (cs_rows x) = false /\ er_nextPage (cs_rows x) = true /\ st_readNext (cs_stream x) = Some tt
  | Over => er_waiting (cs_rows x) = false /\ er_nextPage (cs_rows x) = false /\ st_readNext (cs_stream x) = None
  end.

Record stream_ok answers x (s : stage) : Prop := mkStreamOk {
  so_stage : at_stage s x;
  so_over : match last answers with Some a => is_final a | None => false end = true <-> s = Over;
  so_chunks : chunks (cs_stream x) = all_chunks answers;
  so_buffer : st_buffer (cs_stream x) `suffix_of` last_chunks answers;
  so_callbacks : cs_callbacks x = match last answers with Some (inr e) => [Some e] | Some (inl p) => if is_final (inl p) then [None] else [] | None => [] end;
  so_errors : cs_errors x = match last answers with Some (inr e) => [e] | _ => [] end }.

Lemma stream_read_ok answers x s : stream_ok answers x s ->
  exists y s', client_stream_step accepts reads false x NodeReads = Some y /\ stream_ok answers y s' /\
    ((forall k, accepts k = true) -> s <> Over -> s' = Requested).
Proof.
  intros [H1 H2 H3 H4 H5 H6]. cbn [client_stream_step]. pose proof (read_spec accepts (cs_stream x)) as Hr.
  destruct (read_ accepts (cs_stream x)) as [z calls]. destruct Hr as (Hc & Hp & Hcall & Hall).
  assert (Hb : st_buffer z `suffix_of` st_buffer (cs_stream x)).
  { rewrite <- (app_nil_r (st_buffer (cs_stream x))). apply buffer_suffix; [by rewrite app_nil_r|done]. }
  eexists _, (match s with Over => Over | _ => match st_readNext z with Some _ => Waits | None => Requested end end). split; [reflexivity|].
  destruct s; cbn [at_stage] in H1; destruct H1 as (Hw & Hn & Hf & Hrest) || destruct H1 as (Hw & Hn & Hf); rewrite ?Hf in Hcall.
  - destruct Hcall as [[-> Hz]|(_ & (f & [=] & _) & _)]. rewrite Hz. cbn. split; [|done]. rewrite Hrest in Hb. apply suffix_nil_inv in Hb.
    split; cbn; try done; [by rewrite Hc|rewrite Hb; apply suffix_nil].
  - destruct Hcall as [[-> Hz]|(Hz & (f & [= <-] & ->) & Hbz & Hpz)]; rewrite Hz; cbn.
    + split; [|intros Ha; specialize (Hall Ha) as (_ & _ & Hall); congruence]. split; cbn; rewrite ?Hc; try done; by etrans.
    + unfold pageValve, with_calls. cbn. rewrite Hn, Hw. cbn. split; [|done]. split; cbn; rewrite ?Hc; try done; by etrans.
  - destruct Hcall as [[-> Hz]|(_ & (f & [=] & _) & _)]. cbn. split; [|done]. split; cbn; rewrite ?Hc, ?Hz; try done; by etrans.
Qed.

Lemma all_chunks_snoc answers a : match last answers with Some a => is_final a | None => false end = false ->
  all_chunks (answers ++ [a]) = all_chunks answers ++ last_chunks (answers ++ [a]).
Proof.
  unfold all_chunks, last_chunks. rewrite last_snoc, map_app, concat_app, map_app. cbn. rewrite app_nil_r, <- !app_assoc. intros H. f_equal.
  destruct (last answers) as [b|]; [by rewrite H|done].
Qed.

Lemma stream_page_ok answers x s a y : stream_ok answers x s -> client_stream_step accepts reads false x (PageArrives a) = Some y ->
  exists s', stream_ok (answers ++ [a]) y s'.
Proof.
  intros [H1 H2 H3 H4 H5 H6]. cbn [client_stream_step each_row_step]. destruct (er_waiting (cs_rows x)) eqn:Hw; [|done]. cbn.
  destruct s; cbn [at_stage] in H1; try (destruct H1 as [H1 _]; congruence). destruct H1 as (_ & Hn & Hf & Hb).
  assert (Hover : match last answers with Some a => is_final a | None => false end = false) by (apply not_true_is_false; intros H; by apply H2 in H).
  set (rows := pageCallback false (cs_rows x) a).
  assert (Hadd : map snd (drop (length (er_rows (cs_rows x))) (er_rows rows)) = answer_rows a).
  { unfold rows. destruct a as [p|e]; cbn; [|by rewrite drop_all]. destruct (pg_next p); cbn; by rewrite drop_app_length. }
  rewrite Hadd. set (x0 := mkClientStream rows (cs_stream x) (cs_errors x) (cs_callbacks x)).
  destruct (stream_adds x0 (answer_rows a)) as (G1 & G2 & G3 & G4 & G5 & G6); [done|]. set (x1 := foldl _ x0 _) in *. clearbody x1. cbn in G1, G2, G3, G4, G5, G6.
  assert (Hb1 : st_buffer (cs_stream x1) `suffix_of` map Some (answer_rows a)).
  { pose proof (buffer_suffix _ _ _ G5 G6) as H. by rewrite Hb in H. }
  assert (Hnf : cs_callbacks x = [] /\ cs_errors x = []).
  { rewrite H5, H6. destruct (last answers) as [[p|e]|]; [|discriminate Hover|done]. by rewrite Hover. }
  destruct Hnf as [Hcb Her]. intros [= <-].
  pose proof (all_chunks_snoc answers a Hover) as Hall. unfold last_chunks in Hall. rewrite last_snoc in Hall.
  destruct (is_final a) eqn:Hfin.
  - exists Over. assert (Hcalled : exists r, drop (length (er_callbacks (cs_rows x))) (er_callbacks rows) = [r] /\
        match r with inr e => a = inr e | inl _ => exists p, a = inl p end /\ er_waiting rows = false /\ er_nextPage rows = false).
    { unfold rows. destruct a as [p|e]; cbn in *; [destruct (pg_next p); [done|]|]; cbn; rewrite drop_app_length; eexists; split_and!; try done; cbn; eauto. }
    destruct Hcalled as (r & -> & Hr & Hrw & Hrn). cbn [foldl].
    unfold onFinish. replace (match r with inl _ => _ | inr _ => false end) with false by (destruct r; cbn; by rewrite ?G1).
    set (x2 := match r with inl _ => x1 | inr e => _ end). assert (Hx2 : cs_rows x2 = rows /\ cs_stream x2 = cs_stream x1 /\ cs_callbacks x2 = [] /\
        cs_errors x2 = match a with inr e => [e] | inl _ => [] end).
    { unfold x2. destruct r as [r|e]; [destruct Hr as [p ->]|subst a]; cbn; rewrite ?G1, ?G2, ?G3, ?Hcb, ?Her; done. }
    destruct Hx2 as (X1 & X2 & X3 & X4). clearbody x2. unfold valve, with_calls. cbn [fst snd foldl]. rewrite X2. unfold stream_add. cbn [cs_stream].
    pose proof (add_spec accepts reads (set_readNext (cs_stream x1) None) None) as Ha. destruct (add _ _ _ _) as [[z calls] size].
    destruct Ha as (Hc & Hp & _ & Hz). destruct (Hz eq_refl) as [-> Hzr]. unfold with_calls. cbn [fst snd foldl cs_rows cs_callbacks cs_errors].
    change (chunks (set_readNext _ _)) with (chunks (cs_stream x1)) in Hc. change (st_pushed (set_readNext _ _)) with (st_pushed (cs_stream x1)) in Hp.
    split; cbn; rewrite ?last_snoc, ?X1, ?X3, ?X4; try done.
    + by rewrite Hc, G5, H3, Hall, <- app_assoc.
    + unfold last_chunks. rewrite last_snoc, Hfin. etrans; [apply (buffer_suffix _ _ _ Hc Hp)|]. destruct Hb1 as [k Hk]. exists k. cbn. by rewrite Hk, <- app_assoc.
    + destruct r as [r|e]; [destruct Hr as [p ->]|subst a]; cbn; [|done]. cbn in Hfin. by rewrite Hfin.
  - destruct a as [p|e]; [|done]. cbn in Hfin. destruct (pg_next p) as [state|] eqn:Hnext; [|done].
    assert (Hrows : er_waiting rows = false /\ er_nextPage rows = true /\ drop (length (er_callbacks (cs_rows x))) (er_callbacks rows) = [inl (pg_result p, er_rowLength rows)]).
    { unfold rows. cbn. rewrite Hnext. cbn. by rewrite drop_app_length. }
    destruct Hrows as (Hrw & Hrn & ->). cbn [foldl]. unfold onFinish. rewrite G1, Hrn.
    pose proof (valve_spec (cs_stream x1) (Some tt)) as Hv. destruct (valve (cs_stream x1) (Some tt)) as [z calls]. destruct Hv as (V1 & V2 & V3 & V4).
    assert (Hchunks : chunks z = all_chunks (answers ++ [inl p])).
    { unfold chunks. rewrite V1, V3. fold (chunks (cs_stream x1)). by rewrite G5, H3, Hall, app_nil_r. }
    destruct (st_paused (cs_stream x1) || (0 <? length (st_buffer (cs_stream x1)))%nat) eqn:Hpause; destruct V4 as [-> Vr].
    + exists Waits. unfold with_calls. cbn. split; cbn; rewrite ?last_snoc; cbn; rewrite ?Hnext, ?G1, ?G2, ?G3; try done.
      unfold last_chunks. rewrite last_snoc. cbn. by rewrite Hnext, app_nil_r, V1.
    + exists Requested. unfold with_calls. cbn. unfold pageValve. cbn. rewrite G1, Hrn, Hrw. cbn.
      apply orb_false_iff in Hpause as [_ Hlen]. assert (Hbuf : st_buffer (cs_stream x1) = []) by (destruct (st_buffer (cs_stream x1)); [done|discriminate Hlen]).
      split; cbn; rewrite ?last_snoc; cbn; rewrite ?Hnext, ?G2, ?G3, ?V1, ?Hbuf; try done. apply suffix_nil.
Qed.

Lemma client_stream_run_ok evs x : client_stream_run accepts reads false stream_start evs = Some x -> exists s, stream_ok (omap page_of evs) x s.
Proof.
  unfold client_stream_run. revert x. induction evs as [|ev evs IH] using rev_ind; intros x Hx.
  { injection Hx as <-. exists Requested. split; done || apply suffix_nil. }
  rewrite foldl_app in Hx. cbn in Hx. destruct (foldl _ _ evs) as [y|]; [|done]. destruct (IH y eq_refl) as [s Hs]. rewrite omap_app. destruct ev as [a|].
  - cbn [omap list_omap page_of]. by apply (stream_page_ok _ _ _ _ _ Hs).
  - destruct (stream_read_ok _ _ _ Hs) as (z & s' & Hz & Hok & _). cbn [omap list_omap page_of]. rewrite app_nil_r. exists s'. assert (Hxz : Some z = Some x) by (rewrite <- Hz; exact Hx). injection Hxz as <-. exact Hok.
Qed.

(** C11: [Client.stream], without automatic paging, gives Node the rows of all
    pages in order and then the end, however Node reads.  The stream holds rows of
    the last page only, and a page is requested when none is left; it is, as soon
    as Node reads and takes what there is.  The callback is called once, at the
    end, after the error event if a page failed. *)
Theorem stream_delivers evs x :
  client_stream_run accepts reads false stream_start evs = Some x ->
  let answers := omap page_of evs in
  st_pushed (cs_stream x) ++ st_buffer (cs_stream x) = all_chunks answers /\
  st_buffer (cs_stream x) `suffix_of` last_chunks answers /\
  (er_waiting (cs_rows x) = true -> st_buffer (cs_stream x) = []) /\
  cs_errors x = match last answers with Some (inr e) => [e] | _ => [] end /\
  match last answers with
  | Some (inr e) => cs_callbacks x = [Some e]
  | Some (inl p) => cs_callbacks x = match pg_next p with None => [None] | Some _ => [] end
  | None => cs_callbacks x = []
  end /\
  ((forall k, accepts k = true) -> cs_callbacks x = [] ->
    exists y, client_stream_step accepts reads false x NodeReads = Some y /\ er_waiting (cs_rows y) = true).
Proof.
  intros Hx answers. destruct (client_stream_run_ok evs x Hx) as [s Hs]. destruct (stream_read_ok _ _ _ Hs) as (y & s' & Hy & Hok & Hreq).
  destruct Hs as [H1 H2 H3 H4 H5 H6]. fold answers in H2, H3, H4, H5, H6. split_and!; try done.
  - intros Hw. destruct s; [apply H1| |]; destruct H1 as [H1 _]; congruence.
  - destruct (last answers) as [[p|e]|]; try done. rewrite H5. cbn. by destruct (pg_next p).
  - intros Ha Hcb. exists y. split; [done|]. assert (Hs : s <> Over).
    { intros Hs. apply H2 in Hs. rewrite H5 in Hcb. destruct (last answers) as [[p|e]|]; [|done..]. by rewrite Hs in Hcb. }
    rewrite (Hreq Ha Hs) in Hok. apply (so_stage _ _ _ Hok).
Qed.
End client_stream.

Lemma stream_delivers_witness :
  exists x, client_stream_run (fun k => negb (k =? 0)%nat) (fun _ => true) false (stream_start (Er := Z) (C := unit))
      [PageArrives (inl (some_page 1 (Some [7]))); NodeReads; PageArrives (inr 5); NodeReads] = Some x /\
    st_pushed (cs_stream x) ++ st_buffer (cs_stream x) = [Some (some_row 1); None] /\ cs_callbacks x = [Some 5].
Proof.
  eexists. split; [vm_compute; reflexivity|].
  match goal with |- st_pushed (cs_stream ?x) ++ _ = _ /\ _ =>
    destruct (stream_delivers (fun k => negb (k =? 0)%nat) (fun _ => true) [PageArrives (inl (some_page 1 (Some [7]))); NodeReads; PageArrives (inr 5); NodeReads] x
                ltac:(vm_compute; reflexivity)) as (H1 & _ & _ & _ & H2 & _) end.
  split; [exact H1|exact H2].
Defined.

(** A second call of [cancel] before the handler is set calls the callback of the
    first one, with the second callback as its error. *)
Example cancel_twice :
  let x := setHandlers (ResultStream_new (A := Row) (F := unit)) (Some None) (mkHandlers true None) in
  let '(x, first) := cancel (C := nat) 0%nat x (Some 1%nat) in
  (first, (cancel 0%nat x (Some 2%nat)).2) = (Kept, FlagCalled 1%nat (Some 2%nat)).
Proof. reflexivity. Qed.
