(* ===== verification/ClientExecution.v ===== *)
(** What the executions of the client send to the native session: a paged query
    read to its end with [for await], and a batch. *)
From S2P Require Import Prelude.
From S2P Require Import JsNum.
From S2P Require Import JsStr.
From S2P Require Import LongLib.
From S2P Require Import Utils.
From S2P Require Import JsVal.
From S2P Require Import TypeNames.
From S2P Require Import Encoder.
From S2P Require Import Options.
From S2P Require Import ExecOptions.
From S2P Require Import Results.
From S2P Require Import ResultsTheorems.
From S2P Require Import Concurrent.
From S2P Require Import Client.

(** ** Scripts *)

Lemma run_bind {W Er A B} (h : session W Er) (s : script A) (f : A -> script B) w :
  run h (s ≫= f) w =
    match run h s w with
    | (inl a, sent, w) => let '(out, sent', w) := run h (f a) w in (out, sent ++ sent', w)
    | (inr e, sent, w) => (inr e, sent, w)
    end.
Proof.
  revert w. induction s as [a|e|r k IH]; intros w.
  - cbn. by destruct (run h (f a) w) as [[? ?] ?].
  - done.
  - change (Await r k ≫= f) with (Await r (fun x => k x ≫= f)). cbn [run].
    destruct (h r w) as [[a|e] w']; [|done]. rewrite IH. destruct (run h (k a) w') as [[[b|e] t] w'']; [|done].
    by destruct (run h (f b) w'') as [[? ?] ?].
Qed.

(** A step that does not ask the session. *)
Lemma run_bind_done {W Er A B} (h : session W Er) (s : script A) (f : A -> script B) w a :
  run h s w = (inl a, [], w) -> run h (s ≫= f) w = run h (f a) w.
Proof. intros E. rewrite run_bind, E. by destruct (run h (f a) w) as [[? ?] ?]. Qed.

Lemma run_bind_sent {W Er A B} (h : session W Er) (s : script A) (f : A -> script B) w a sent w' :
  run h s w = (inl a, sent, w') -> run h (s ≫= f) w = let '(out, sent', w) := run h (f a) w' in (out, sent ++ sent', w).
Proof. intros E. by rewrite run_bind, E. Qed.

Lemma run_bind_raise {W Er A B} (h : session W Er) (s : script A) (f : A -> script B) w e sent w' :
  run h s w = (inr e, sent, w') -> run h (s ≫= f) w = (inr e, sent, w').
Proof. intros E. by rewrite run_bind, E. Qed.

Section executions.
Context `{LongLib} {P R : Type} `{EqDecision P} {W Er : Type}.
Context (alloc scratch : list Z) (toString_ toFixed20 : number -> jsstr) (encoder : Encoder).
Context (h : session W Er).

Abbreviation options := (DefaultExecutionOptions P R).
Abbreviation paged_script := (rustyPaged alloc scratch toString_ toFixed20 encoder (P := P) (R := R)).
Abbreviation encode_all := (encodeParams alloc scratch toString_ toFixed20 encoder).

(** The native options, and the options that hold them: the other fields are
    the same. *)
Lemma getRustOptions_wrapped (o o' : options) :
  wrapOptionsIfNotWrappedYet o = Ok o' ->
  isPrepared o' = isPrepared o /\ isPaged o' = isPaged o /\ getHints o' = getHints o /\ getPageState o' = getPageState o /\
  exists w0, getRustOptions o' = Ok (w0, o').
Proof.
  unfold getRustOptions, wrapOptionsIfNotWrappedYet. destruct (eo_rustWrapper o) as [w1|] eqn:E.
  - intros [= <-]. rewrite E. cbn. rewrite E. eauto 6.
  - intros (w1 & _ & [= <-])%bind_ok. cbn. eauto 6.
Qed.

(** The request of a page, and its answer. *)
Definition page_request (prepared : bool) (q : jsstr) (encs : list encoded) (w0 : rust_query_options) (page : option (list Z)) : request :=
  if prepared then ExecuteSinglePage q encs w0 page else QuerySinglePage q encs w0 page.

Definition page_answer (prepared : bool) (q : jsstr) (encs : list encoded) (w0 : rust_query_options) (page : option (list Z)) (w : W)
    : ((native_result * option (list Z)) + Er) * W :=
  if prepared then h (ExecuteSinglePage q encs w0 page) w else h (QuerySinglePage q encs w0 page) w.

(** What a page answer becomes, with [nextPageAsync] on the variables [f]. *)
Definition page_outcome (f : next_page_function) (a : (native_result * option (list Z)) + Er)
    : (paged * option (next_page_function (P := P) (R := R))) + (js_error + Er) :=
  match a with
  | inl (r, next) =>
      match ResultSet_new r (Some next) with
      | Ok rs => inl (mkPaged next rs, match next with Some _ => Some f | None => None end)
      | Throw e => inr (inl e)
      end
  | inr e => inr (inr e)
  end.

(** The query of an execution once its types are known. *)
Definition query_ready (prepared : bool) (q : jsstr) (types : list column_type) : query_text :=
  if prepared then Prepared types q else QueryString q.

(** The types against which the parameters are encoded. *)
Definition hints_ready (o : options) (types : list column_type) : result (list hint) :=
  if truthy (isPrepared o) then Ok (map HintType types) else to_hints (getHints o).

Lemma run_page query params (o : options) (r : native_result) next w :
  run h (rs ← lift (ResultSet_new r (Some next));
         Return (mkPaged next rs, match next with Some _ => Some (mkNextPage query params o) | None => None end)) w =
    (page_outcome (mkNextPage query params o) (inl (r, next)), [], w).
Proof. unfold page_outcome. by destruct (ResultSet_new r (Some next)). Qed.

(** One page, once the types are known. *)
Lemma rustyPaged_ready q types params (o : options) w0 hints encs page w :
  getRustOptions o = Ok (w0, o) -> hints_ready o types = Ok hints -> encode_all hints params = Ok encs ->
  match params with ObjectParams _ => False | _ => True end ->
  run h (paged_script true (query_ready (truthy (isPrepared o)) q types) params o page) w =
    let '(a, w') := page_answer (truthy (isPrepared o)) q encs w0 (page_to_send o page) w in
    (page_outcome (mkNextPage (query_ready (truthy (isPrepared o)) q types) params o) a, [page_request (truthy (isPrepared o)) q encs w0 (page_to_send o page)], w').
Proof.
  unfold hints_ready, query_ready, page_answer, page_request, rustyPaged. intros Ho Hh He Hp.
  replace (negb (truthy (isPrepared o)) && match params with ObjectParams _ => true | _ => false end) with false by (destruct params; by rewrite ?andb_false_r).
  rewrite (run_bind_done _ _ _ _ tt) by done. rewrite (run_bind_done _ _ _ _ (w0, o)) by (by rewrite Ho). cbv beta iota.
  destruct (truthy (isPrepared o)).
  - injection Hh as <-. rewrite run_bind. rewrite (run_bind_done _ _ _ _ (types, q)) by done. cbv beta iota.
    rewrite (run_bind_done _ _ _ _ encs) by (by rewrite He). cbn [run].
    destruct (h _ w) as [[[r next]|e] w']; [|done]. cbv beta iota. by rewrite run_page.
  - rewrite run_bind. rewrite (run_bind_done _ _ _ _ hints) by (by rewrite Hh).
    rewrite (run_bind_done _ _ _ _ encs) by (by rewrite He). cbn [run].
    destruct (h _ w) as [[[r next]|e] w']; [|done]. cbv beta iota. by rewrite run_page.
Qed.

(** The requests before the first page, and the state after them. *)
Definition connect_requests (connected : bool) : list request := if connected then [] else [Connect].
Definition prepare_requests (prepared : bool) (q : jsstr) : list request := if prepared then [PrepareStatement q] else [].

Definition connects (connected : bool) (w w' : W) : Prop := if connected then w' = w else h Connect w = (inl tt, w').
Definition prepares (prepared : bool) (q : jsstr) (w : W) (types : list column_type) (w' : W) : Prop :=
  if prepared then exists l, h (PrepareStatement q) w = (inl l, w') /\ types = map convertComplexType l else w' = w.

(** The first page: the client connects and the statement is prepared. *)
Lemma rustyPaged_first connected q types params (o : options) w0 page w w1 w2 :
  getRustOptions o = Ok (w0, o) -> match params with ObjectParams _ => False | _ => True end ->
  connects connected w w1 -> prepares (truthy (isPrepared o)) q w1 types w2 ->
  run h (paged_script connected (QueryString q) params o page) w =
    let '(out, sent, w') := run h (paged_script true (query_ready (truthy (isPrepared o)) q types) params o page) w2 in
    (out, connect_requests connected ++ prepare_requests (truthy (isPrepared o)) q ++ sent, w').
Proof.
  unfold rustyPaged, query_ready, prepares. intros Ho Hp Hc Hq.
  replace (negb (truthy (isPrepared o)) && match params with ObjectParams _ => true | _ => false end) with false by (destruct params; by rewrite ?andb_false_r).
  assert (E : run h (ensure_connected connected) w = (inl tt, connect_requests connected, w1)).
  { destruct connected; cbn in *; [by subst|by rewrite Hc]. }
  rewrite (run_bind_sent _ _ _ _ _ _ _ E), (run_bind_done _ (ensure_connected true) _ _ tt) by done.
  rewrite !(run_bind_done _ (lift (getRustOptions o)) _ _ (w0, o)) by (by rewrite Ho). cbv beta iota.
  destruct (truthy (isPrepared o)).
  - destruct Hq as (l & Hl & ->). rewrite !(run_bind h (_ ← prepare_text _; _)).
    rewrite (run_bind_done h (prepare_text (Prepared _ q)) _ _ (map convertComplexType l, q)) by done.
    rewrite (run_bind_sent h (prepare_text (QueryString q)) _ _ (map convertComplexType l, q) [PrepareStatement q] w2) by (cbn; by rewrite Hl).
    cbv beta iota. destruct (run h (encoded ← _; _) w2) as [[[[[r next] query]|e] sent] w']; [|done]. cbv beta iota.
    destruct (run h _ w') as [[out sent'] w'']. done.
  - subst w2. by destruct (run h _ w1) as [[out sent] w'].
Qed.

(** The pages that a session serves: the state asked for and the rows of each
    page, and the session afterwards. *)
Inductive served (prepared : bool) (q : jsstr) (encs : list encoded) (w0 : rust_query_options) :
    option (list Z) -> W -> list (option (list Z) * list Row) -> W -> Prop :=
  | served_last page w r w' rs rows :
      page_answer prepared q encs w0 page w = (inl (r, None), w') ->
      ResultSet_new r (Some None) = Ok rs -> rs_rows rs = Some rows ->
      served prepared q encs w0 page w [(page, rows)] w'
  | served_more page w r state w1 rs rows l w' :
      page_answer prepared q encs w0 page w = (inl (r, Some state), w1) ->
      ResultSet_new r (Some (Some state)) = Ok rs -> rs_rows rs = Some rows ->
      served prepared q encs w0 (Some state) w1 l w' ->
      served prepared q encs w0 page w ((page, rows) :: l) w'.

(** [nextPageAsync] of a result, if it has one, on the session and the requests
    so far, while the client is connected; the errors of the session are those of
    the driver. *)
Definition fetch_page (to_error : Er -> js_error) (f : option (next_page_function (P := P) (R := R)))
    : option (list Z -> W * list request -> result ResultSet * (W * list request)) :=
  (fun f state w =>
    let '(out, sent, w') := run h (nextPageAsync alloc scratch toString_ toFixed20 encoder true f state) w.1 in
    (match out with inl (rs, _) => Ok rs | inr (inl e) => Throw e | inr (inr e) => Throw (to_error e) end, (w', w.2 ++ sent))) <$> f.

Lemma ResultSet_new_state r s rs : ResultSet_new r (Some s) = Ok rs -> rs_rawPageState rs = s.
Proof. unfold ResultSet_new. intros (rows & _ & (t & _ & [= <-])%bind_ok)%bind_ok. done. Qed.

(** What is served is read from the first page on, up to an empty page. *)
Lemma served_read to_error q types params (o : options) w0 hints encs page w l w_end :
  getRustOptions o = Ok (w0, o) -> hints_ready o types = Ok hints -> encode_all hints params = Ok encs ->
  match params with ObjectParams _ => False | _ => True end ->
  served (truthy (isPrepared o)) q encs w0 page w l w_end ->
  let next := mkNextPage (query_ready (truthy (isPrepared o)) q types) params o in
  let requests := map (page_request (truthy (isPrepared o)) q encs w0) in
  let read := until_empty snd l in
  exists a w1 rs f w2, page_answer (truthy (isPrepared o)) q encs w0 page w = (a, w1) /\
    page_outcome next a = inl (mkPaged (rs_rawPageState rs) rs, f) /\ (f = None \/ f = Some next) /\
    (Forall (fun page => page.2 <> []) l -> w2 = w_end) /\
    forall log g, f = None \/ g = Some next ->
      pages_read (fetch_page to_error g) rs (w1, log ++ requests [page]) (map snd read) (w2, log ++ requests (map fst read)).
Proof.
  intros Ho Hh He Hp Hs. cbv zeta. set (next := mkNextPage _ params o).
  induction Hs as [page w r w' rs rows Ha Hrs Hr|page w r state w1 rs rows l w' Ha Hrs Hr Hs IH].
  - exists (inl (r, None)), w', rs, None, w'. split; [done|]. cbn [page_outcome]. rewrite Hrs, (ResultSet_new_state _ _ _ Hrs).
    split_and!; [done|by left|done|]. intros log g _. cbn [until_empty snd]. pose proof (ResultSet_new_state _ _ _ Hrs).
    destruct rows; apply read_last; auto.
  - destruct IH as (a & w2 & rs2 & f2 & w3 & Ha2 & Ho2 & Hf2 & Hend & Hp2).
    assert (Hstate := ResultSet_new_state _ _ _ Hrs).
    exists (inl (r, Some state)), w1, rs, (Some next), (match rows with [] => w1 | _ => w3 end). split; [done|].
    cbn [page_outcome]. rewrite Hrs, Hstate. split_and!; [done|by right| |].
    { intros [Hrow Hl]%Forall_cons. destruct rows; auto. done. }
    intros log g [?|Hg]; [done|subst g]. cbn [until_empty snd]. destruct rows as [|row rows].
    { apply read_last; auto. }
    cbn [map fst snd]. set (req := page_request _ q encs w0) in *.
    change (req page :: map req (map fst (until_empty snd l))) with ([req page] ++ map req (map fst (until_empty snd l))).
    rewrite app_assoc. eapply read_next; [done|done|done|reflexivity| |by apply Hp2; right].
    unfold nextPageAsync. cbn [fst snd np_query np_params np_options next].
    rewrite run_bind, (rustyPaged_ready q types params o w0 hints encs) by done. cbn [page_to_send].
    rewrite Ha2. fold next. rewrite Ho2. done.
Qed.

(** C3: a paged execution read to its end with [for await], while the client
    stays connected: the client connects if it has to, prepares the statement once
    if the options say so, before the first page, and requests each page once with the
    state that came with the one before it (the first one with the state of the
    options), without preparing again.  The loop gets the rows of the pages in
    order up to the first empty page, which is the last that is requested: of all
    pages, when none is empty. *)
Theorem paged_execution to_error connected q types params (o o' : options) w0 hints encs w w1 w2 l w_end :
  wrapOptionsIfNotWrappedYet o = Ok o' -> getRustOptions o' = Ok (w0, o') -> truthy (isPaged o) = true ->
  match params with ObjectParams _ => False | _ => True end ->
  connects connected w w1 -> prepares (truthy (isPrepared o)) q w1 types w2 ->
  hints_ready o types = Ok hints -> encode_all hints params = Ok encs ->
  served (truthy (isPrepared o)) q encs w0 (page_to_send o None) w2 l w_end ->
  let read := until_empty snd l in
  exists rs nextPage sent w',
    run h (execute alloc scratch toString_ toFixed20 encoder connected q params o) w = (inl (rs, nextPage), sent, w') /\
    exists fuel w'', for_await (fetch_page to_error nextPage) fuel rs (w', sent) =
      Some (concat (map snd read),
        (w'', connect_requests connected ++ prepare_requests (truthy (isPrepared o)) q ++
                map (page_request (truthy (isPrepared o)) q encs w0) (map fst read))) /\
      (Forall (fun page => page.2 <> []) l -> read = l /\ w'' = w_end).
Proof.
  intros Hw Ho Hpaged Hp Hc Hq Hh He Hs. destruct (getRustOptions_wrapped o o' Hw) as (Ep & Epg & Eh & Est & _).
  assert (Eps : page_to_send o' None = page_to_send o None) by (unfold page_to_send; by rewrite Est).
  unfold hints_ready in Hh. rewrite <- Ep in Hq, Hs, Hh. rewrite <- Eh in Hh. rewrite <- Eps in Hs. rewrite <- Ep. cbv zeta.
  destruct (served_read to_error q types params o' w0 hints encs _ _ _ _ Ho Hh He Hp Hs) as (a & w3 & rs & f & w4 & Ha & Hout & Hf & Hend & Hread).
  exists rs, f, (connect_requests connected ++ prepare_requests (truthy (isPrepared o')) q ++
              [page_request (truthy (isPrepared o')) q encs w0 (page_to_send o' None)]), w3.
  split.
  - unfold execute. rewrite (run_bind_done _ _ _ _ o') by (by rewrite Hw). rewrite Epg, Hpaged.
    rewrite run_bind, (rustyPaged_first connected q types params o' w0 None w w1 w2) by done.
    rewrite (rustyPaged_ready q types params o' w0 hints encs) by done. rewrite Ha, Hout. cbn. by rewrite app_nil_r.
  - specialize (Hread (connect_requests connected ++ prepare_requests (truthy (isPrepared o')) q) f Hf).
    rewrite <- !app_assoc in Hread. apply for_await_read in Hread as [fuel Hr]. exists fuel, w4. split; [exact Hr|].
    intros Hne. split; [by apply until_empty_id|auto].
Qed.

(** Parameters given by name are refused for a query that is not prepared, but
    for a prepared one they pass the check and are dropped. *)
Lemma prepared_named_params_dropped q types params (o : options) w0 page w :
  getRustOptions o = Ok (w0, o) -> truthy (isPrepared o) = true ->
  (run h (paged_script true (Prepared types q) (ObjectParams params) o page) w).1.2 = [ExecuteSinglePage q [] w0 (page_to_send o page)].
Proof.
  intros Ho Hp. unfold rustyPaged. rewrite Hp. cbn [negb andb]. cbv iota.
  rewrite (run_bind_done _ _ _ _ tt) by done. rewrite (run_bind_done _ _ _ _ (w0, o)) by (by rewrite Ho). cbv beta iota.
  rewrite run_bind, Hp. rewrite (run_bind_done _ _ _ _ (types, q)) by done. cbv beta iota.
  rewrite (run_bind_done _ _ _ _ []) by done. cbn [run].
  destruct (h _ w) as [[[r next]|e] w']; [|done]. cbv beta iota. by rewrite run_page.
Qed.

(** ** Batches *)

(** The statements that are not in [seen], each once, in order. *)
Fixpoint new_statements (seen : list jsstr) (l : list jsstr) : list jsstr :=
  match l with
  | [] => []
  | s :: l' => if bool_decide (s ∈ seen) then new_statements seen l' else s :: new_statements (s :: seen) l'
  end.

Lemma new_statements_ext (seen seen' l : list jsstr) :
  (forall s, s ∈ seen <-> s ∈ seen') -> new_statements seen l = new_statements seen' l.
Proof.
  revert seen seen'. induction l as [|s l IH]; intros seen seen' E; [done|]. cbn [new_statements].
  rewrite (bool_decide_ext _ _ (E s)), (IH _ _ E). case_bool_decide; [done|]. f_equal. apply IH.
  intros s'. by rewrite !elem_of_cons, E.
Qed.

(** Each of the statements once. *)
Lemma new_statements_spec (seen l : list jsstr) :
  NoDup (new_statements seen l) /\ forall s, s ∈ new_statements seen l <-> s ∈ l /\ s ∉ seen.
Proof.
  revert seen. induction l as [|s l IH]; intros seen; cbn [new_statements].
  - split; [constructor|]. intros s. split; [by intros ?%elem_of_nil|by intros [?%elem_of_nil _]].
  - case_bool_decide as Hin; [destruct (IH seen) as [Hn Hs]|destruct (IH (s :: seen)) as [Hn Hs]]; (split; [|intros s']).
    + done.
    + rewrite Hs, elem_of_cons. naive_solver.
    + constructor; [|done]. rewrite Hs, elem_of_cons. naive_solver.
    + rewrite !elem_of_cons, Hs, elem_of_cons. destruct (decide (s' = s)) as [->|]; naive_solver.
Qed.

(** What an element of a batch becomes, when [types_of] are the types of the
    prepared statements. *)
Definition batch_row (types_of : jsstr -> list complex_type) (prepared : bool) (hints : jv) (i : nat) (element : batch_query)
    : result (jsstr * list encoded) :=
  match batch_statement element with
  | None => Throw ArgumentError
  | Some s =>
      types ← (if prepared then Ok (map HintType (map convertComplexType (types_of s))) else hints_at hints i);
      row ← encode_all types (batch_params element);
      Ok (s, row)
  end.

Fixpoint batch_rows (types_of : jsstr -> list complex_type) (prepared : bool) (hints : jv) (i : nat) (queries : list batch_query)
    : result (list (jsstr * list encoded)) :=
  match queries with
  | [] => Ok []
  | element :: queries' =>
      x ← batch_row types_of prepared hints i element; rest ← batch_rows types_of prepared hints (S i) queries'; Ok (x :: rest)
  end.

Definition batch_prepares (prepared : bool) (seen : list jsstr) (l : list jsstr) : list request :=
  if prepared then map PrepareStatement (new_statements seen l) else [].

Lemma batch_types_spec types_of (prepared : bool) hints i s cache seen w :
  (prepared = true -> forall s w, h (PrepareStatement s) w = (inl (types_of s), w)) ->
  (forall s, getElement cache s = if bool_decide (s ∈ seen) then Some (map convertComplexType (types_of s)) else None) ->
  exists cache', (forall s', getElement cache' s' = if bool_decide (s' ∈ (if prepared then s :: seen else seen)) then Some (map convertComplexType (types_of s')) else None) /\
    run h (batch_types prepared hints i s cache) w =
      match (if prepared then Ok (map HintType (map convertComplexType (types_of s))) else hints_at hints i) with
      | Ok types => (inl (types, cache'), batch_prepares prepared seen [s], w)
      | Throw e => (inr (inl e), [], w)
      end.
Proof.
  intros Hs Hc. unfold batch_types, batch_prepares. destruct prepared; [|exists cache; split; [done|]; by destruct (hints_at hints i)].
  cbn [new_statements]. rewrite (Hc s). case_bool_decide as Hin.
  - exists cache. split; [|done]. intros s'. rewrite Hc. by rewrite (bool_decide_ext (s' ∈ s :: seen) (s' ∈ seen)) by (rewrite elem_of_cons; split; [intros [->|]|]; auto).
  - exists (storeElement cache s (map convertComplexType (types_of s))). split.
    + intros s'. unfold getElement, storeElement. rewrite obj_get_set. specialize (Hc s'). unfold getElement in Hc. rewrite Hc.
      destruct (decide (s = s')) as [->|E].
      * by rewrite bool_decide_eq_true_2 by (by left).
      * by rewrite (bool_decide_ext (s' ∈ s :: seen) (s' ∈ seen)) by (rewrite elem_of_cons; split; [intros [->|]|]; auto; done).
    + cbn. by rewrite Hs.
Qed.

(** The loop prepares each new statement once, and stops at the first element
    that is not valid. *)
Lemma batch_loop_spec types_of (prepared : bool) hints i queries cache seen w :
  (prepared = true -> forall s w, h (PrepareStatement s) w = (inl (types_of s), w)) ->
  (forall s, getElement cache s = if bool_decide (s ∈ seen) then Some (map convertComplexType (types_of s)) else None) ->
  match batch_rows types_of prepared hints i queries with
  | Ok rows => run h (batch_loop alloc scratch toString_ toFixed20 encoder prepared hints i queries cache) w =
      (inl rows, batch_prepares prepared seen (map fst rows), w)
  | Throw e => exists ss, run h (batch_loop alloc scratch toString_ toFixed20 encoder prepared hints i queries cache) w =
      (inr (inl e), map PrepareStatement ss, w)
  end.
Proof.
  intros Hs. revert i cache seen. induction queries as [|element queries IH]; intros i cache seen Hc; cbn [batch_rows batch_loop].
  { cbn. unfold batch_prepares. by destruct prepared. }
  unfold batch_row. destruct (batch_statement element) as [s|]; [|by exists []].
  destruct (batch_types_spec types_of prepared hints i s cache seen w Hs Hc) as (cache' & Hc' & Ht).
  destruct (if prepared then Ok (map HintType (map convertComplexType (types_of s))) else hints_at hints i) as [types|e]; cbn [mbind result_bind]; [|exists []; by rewrite (run_bind_raise _ _ _ _ _ _ _ Ht)].
  rewrite (run_bind_sent _ _ _ _ _ _ _ Ht). cbv beta iota. clear Ht.
  destruct (encode_all types (batch_params element)) as [row|e]; cbn [mbind result_bind].
  2: { exists (if prepared then new_statements seen [s] else []). rewrite (run_bind_raise _ _ _ _ (inl e) [] w) by done.
       cbn. rewrite app_nil_r. unfold batch_prepares. by destruct prepared. }
  rewrite (run_bind_done _ _ _ _ row) by done. specialize (IH (S i) cache' _ Hc').
  destruct (batch_rows types_of prepared hints (S i) queries) as [rows|e]; cbn [mbind result_bind].
  - rewrite (run_bind_sent _ _ _ _ _ _ _ IH). cbn. rewrite app_nil_r. unfold batch_prepares. destruct prepared; [|done].
    cbn [new_statements map fst]. case_bool_decide as Hin; [|done]. cbn [map app].
    rewrite (new_statements_ext (s :: seen) seen); [done|]. intros s'. rewrite elem_of_cons. split; [intros [->|]|]; auto.
  - destruct IH as (ss & IH). rewrite (run_bind_raise _ _ _ _ _ _ _ IH).
    exists ((if prepared then new_statements seen [s] else []) ++ ss). rewrite map_app. unfold batch_prepares. by destruct prepared.
Qed.

(** C9: a batch is one request, with the elements in order: before it the client
    connects and, when the statements are to be prepared, each distinct statement
    is prepared once, in the order of its first use.  When an element has no text
    or its parameters do not encode, its error is thrown and no batch is sent; an
    empty batch fails before the client connects. *)
Theorem batch_sends types_of queries (o o' : options) w0 w w1 :
  wrapOptionsIfNotWrappedYet o = Ok o' -> getRustOptions o' = Ok (w0, o') -> h Connect w = (inl tt, w1) ->
  (truthy (isPrepared o) = true -> forall s w, h (PrepareStatement s) w = (inl (types_of s), w)) ->
  let out := run h (rustyBatch alloc scratch toString_ toFixed20 encoder (Some queries) (Ok o)) w in
  match batch_rows types_of (truthy (isPrepared o)) (getHints o) 0 queries with
  | Ok [] => out = (inr (inl ArgumentError), [], w)
  | Ok rows =>
      let batch := BatchEncoded (truthy (isPrepared o)) (map fst rows) w0 (map snd rows) in
      out.1.2 = Connect :: (if truthy (isPrepared o) then map PrepareStatement (new_statements [] (map fst rows)) else []) ++ [batch] /\
      out.1.1 = (match (h batch w1).1 with
                 | inl r => match ResultSet_new r None with Ok rs => inl rs | Throw e => inr (inl e) end
                 | inr e => inr (inr e)
                 end)
  | Throw e => out.1.1 = inr (inl e) /\ forall b ss o rows, BatchEncoded b ss o rows ∉ out.1.2
  end.
Proof.
  intros Hw Ho Hc Hs out. destruct (getRustOptions_wrapped o o' Hw) as (Ep & _ & Eh & _).
  destruct queries as [|element queries]; [done|].
  assert (E : out = run h (_ ← Await Connect Return; rows ← batch_loop alloc scratch toString_ toFixed20 encoder (truthy (isPrepared o)) (getHints o) 0 (element :: queries) [];
    result ← Await (BatchEncoded (truthy (isPrepared o)) (map fst rows) w0 (map snd rows)) Return; lift (ResultSet_new result None)) w).
  { unfold out, rustyBatch. rewrite !(run_bind h (Await Connect Return)). cbn [run]. rewrite Hc.
    rewrite (run_bind_done _ (lift (Ok o)) _ _ o) by done. rewrite (run_bind_done _ _ _ _ o') by (by rewrite Hw).
    rewrite Ep, Eh. rewrite !(run_bind h (batch_loop _ _ _ _ _ _ _ _ _ _)).
    destruct (run h (batch_loop _ _ _ _ _ _ _ _ _ _) w1) as [[[rows|e] sent] w2]; [|done].
    by rewrite (run_bind_done _ (lift (getRustOptions o')) _ _ (w0, o')) by (by rewrite Ho). }
  rewrite E. clear out E. rewrite (run_bind_sent _ _ _ _ tt [Connect] w1) by (cbn; by rewrite Hc).
  pose proof (batch_loop_spec types_of (truthy (isPrepared o)) (getHints o) 0 (element :: queries) [] [] w1 Hs) as L.
  specialize (L (fun s => eq_refl)).
  destruct (batch_rows _ _ _ _ _) as [rows|e] eqn:Hrows.
  - rewrite (run_bind_sent _ _ _ _ _ _ _ L). destruct rows as [|x rows].
    { cbn [batch_rows] in Hrows. apply bind_ok in Hrows as (y & _ & (ys & _ & [=])%bind_ok). }
    rewrite run_bind. cbn [run]. destruct (h _ w1) as [[r|e] w2]; cbn [fst snd]; [destruct (ResultSet_new r None)|]; done.
  - destruct L as (ss & L). rewrite (run_bind_raise _ _ _ _ _ _ _ L). split; [done|]. cbn [fst snd].
    intros b sts o2 rows [[=]|(s & [=] & _)%list_elem_of_fmap]%elem_of_cons.
Qed.
End executions.

(** A session that serves two pages of one row. *)
Definition one_row (n : Z) : native_result := mkNativeResult (Some [[NPrim (VNumber (Int n))]]) [(str "ks", str "t", str "a", CNative 9)] None [].

Definition some_session : session nat js_error := fun r w =>
  match r return (answer_type r + js_error) * nat with
  | Connect => (inl tt, w)
  | PrepareStatement _ => (inl [CNative 9], w)
  | QueryUnpaged _ _ _ | ExecutePreparedUnpaged _ _ _ | BatchEncoded _ _ _ _ => (inl (one_row 0), S w)
  | QuerySinglePage _ _ _ page | ExecuteSinglePage _ _ _ page =>
      (inl (match page with None => (one_row 1, Some [7]) | Some _ => (one_row 2, None) end), S w)
  end.

(** Options for a prepared and paged execution, with their native part. *)
Definition some_options : DefaultExecutionOptions nat nat :=
  match DefaultExecutionOptions_new [(str "prepare", JBool true); (str "paged", JBool true)] (inr None)
          (mkClientContext [] JUndef 8%nat (ProfileManager_new None 7%nat 8%nat)) with
  | Ok o => match wrapOptionsIfNotWrappedYet o with Ok o => o | Throw _ => o end
  | Throw _ => mkExecutionOptions [] [] JUndef 0%nat (mkProfile [] JUndef None JUndef None JUndef) JUndef JUndef JUndef JUndef JUndef JUndef None
  end.
Definition some_native : rust_query_options :=
  match getRustOptions some_options with
  | Ok (w, _) => w
  | Throw _ => mkRustQueryOptions JUndef JUndef JUndef JUndef JUndef JUndef JUndef JUndef JUndef JUndef JUndef JUndef JUndef JUndef JUndef
  end.
Definition some_encoder : Encoder := mkEncoder (mkEncodingOptions false false true false false) 4.

Lemma paged_execution_witness :
  exists rs f sent w', run some_session (execute (H := LongModel) [] (replicate 9 0) (fun _ => []) (fun _ => []) some_encoder false (str "q")
      (ArrayParams [VNumber (Int 5)]) some_options) 0%nat = (inl (rs, f), sent, w') /\
    exists fuel w'', for_await (fetch_page (H := LongModel) [] (replicate 9 0) (fun _ => []) (fun _ => []) some_encoder some_session id f) fuel rs (w', sent) =
      Some ([mkRow [str "a"] [(str "a", VNumber (Int 1))]; mkRow [str "a"] [(str "a", VNumber (Int 2))]],
        (w'', [Connect; PrepareStatement (str "q"); ExecuteSinglePage (str "q") [EBuffer [0; 0; 0; 5]] some_native None;
               ExecuteSinglePage (str "q") [EBuffer [0; 0; 0; 5]] some_native (Some [7])])).
Proof.
  destruct (paged_execution (H := LongModel) [] (replicate 9 0) (fun _ => []) (fun _ => []) some_encoder some_session id false (str "q") [TSimple 9]
    (ArrayParams [VNumber (Int 5)]) some_options some_options some_native [HintType (TSimple 9)] [EBuffer [0; 0; 0; 5]] 0%nat 0%nat 0%nat
    [(None, [mkRow [str "a"] [(str "a", VNumber (Int 1))]]); (Some [7], [mkRow [str "a"] [(str "a", VNumber (Int 2))]])] 2%nat)
    as (rs & f & sent & w' & Hrun & fuel & w'' & Hf & _).
  - reflexivity.
  - reflexivity.
  - reflexivity.
  - exact I.
  - reflexivity.
  - by exists [CNative 9].
  - reflexivity.
  - reflexivity.
  - eapply served_more; [reflexivity..|]. eapply served_last; reflexivity.
  - exists rs, f, sent, w'. split; [exact Hrun|]. exists fuel, w''. exact Hf.
Defined.

Lemma batch_sends_witness :
  let queries := [BatchObject (Some (str "a")) (ArrayParams [VNumber (Int 1)]); BatchObject (Some (str "b")) (ArrayParams []);
                  BatchObject (Some (str "a")) (ArrayParams [VNumber (Int 2)])] in
  (run some_session (rustyBatch (H := LongModel) [] (replicate 9 0) (fun _ => []) (fun _ => []) some_encoder (Some queries) (Ok some_options)) 0%nat).1.2 =
    [Connect; PrepareStatement (str "a"); PrepareStatement (str "b");
     BatchEncoded true [str "a"; str "b"; str "a"] some_native [[EBuffer [0; 0; 0; 1]]; []; [EBuffer [0; 0; 0; 2]]]].
Proof.
  intros queries.
  apply (batch_sends (H := LongModel) [] (replicate 9 0) (fun _ => []) (fun _ => []) some_encoder some_session (fun _ => [CNative 9]) queries
    some_options some_options some_native 0%nat 0%nat); reflexivity.
Defined.
