(* ===== verification/MappingTree.v ===== *)
(** [lib/mapping/tree.js]: the radix tree of the mapper's caches.  Nodes are
    only reached from their parents, so the tree is a value; [getOrCreate]
    rebuilds the path it walks. *)
From S2P Require Import Prelude.

Section tree.
Context {K V : Type} `{EqDecision K}.

(** [Node]; a value of [None] is null. *)
Inductive tree_node := Node (key : list K) (value : option V) (edges : list tree_node).

Definition node_key (n : tree_node) : list K := match n with Node key _ _ => key end.
Definition node_value (n : tree_node) : option V := match n with Node _ value _ => value end.
Definition node_edges (n : tree_node) : list tree_node := match n with Node _ _ edges => edges end.

(** [Tree]: the root, [length], and the lengths emitted with the event
    ["add"]. *)
Record Tree := mkTree {
  tree_root : tree_node;
  tree_length : nat;
  tree_emitted : list nat }.

Definition Tree_new : Tree := mkTree (Node [] None []) 0 [].

(** The comparison of the node's key from position 1 on with the items of the
    iterator: the items that are left when all positions agree, or the position
    to branch at, with the items from that one on. *)
Inductive comparison :=
  | Agree (items : list K)
  | BranchAt (index : nat) (items : list K).

Fixpoint compare_key (i : nat) (key items : list K) : comparison :=
  match key with
  | [] => Agree items
  | k :: key' =>
      match items with
      | [] => BranchAt i []
      | item :: items' => if decide (k = item) then compare_key (S i) key' items' else BranchAt i items
      end
  end.

(** [value] is what [valueHandler] returns; it is not null. *)
Definition _createBranch (n : tree_node) (index : nat) (useNewValue : bool) (value : V) : tree_node :=
  let newBranch := Node (drop index (node_key n)) (node_value n) (node_edges n) in
  Node (take index (node_key n)) (if useNewValue then Some value else None) [newBranch].

(** [node.edges.push(new Node(items, value))] *)
Definition push_leaf (n : tree_node) (items : list K) (value : V) : tree_node :=
  Node (node_key n) (node_value n) (node_edges n ++ [Node items (Some value) []]).

Definition edge_matches (item : K) (e : tree_node) : bool :=
  match node_key e with k :: _ => bool_decide (k = item) | [] => false end.

(** The first edge that starts with the item, with [f] for the way down. *)
Definition find_edge (f : tree_node -> option V * tree_node * nat) (item : K)
    : list tree_node -> option (option V * list tree_node * nat) :=
  fix go (es : list tree_node) :=
    match es with
    | [] => None
    | e :: es' =>
        if edge_matches item e then let '(r, e', added) := f e in Some (r, e' :: es', added)
        else
          match go es' with
          | Some (r, es'', added) => Some (r, e :: es'', added)
          | None => None
          end
    end.

(** The loop of [getOrCreate] from the node [n] on: the value that is returned,
    the new node, and how many items were added. *)
Fixpoint getOrCreate_walk (n : tree_node) (items : list K) (value : V) : option V * tree_node * nat :=
  match compare_key 1 (tail (node_key n)) items with
  | BranchAt i [] => (Some value, _createBranch n i true value, 1%nat)
  | BranchAt i rest => (Some value, push_leaf (_createBranch n i false value) rest value, 1%nat)
  | Agree [] =>
      match n with
      | Node key None ((_ :: _) as edges) => (Some value, Node key (Some value) edges, 0%nat)
      | Node _ v _ => (v, n, 0%nat)
      end
  | Agree ((item :: rest) as items') =>
      match n with
      | Node key v edges =>
          match find_edge (fun e => getOrCreate_walk e rest value) item edges with
          | Some (r, edges', added) => (r, Node key v edges', added)
          | None => (Some value, push_leaf n items' value, 1%nat)
          end
      end
  end.

Definition _onItemAdded (t : Tree) : Tree :=
  mkTree (tree_root t) (S (tree_length t)) (tree_emitted t ++ [S (tree_length t)]).

Definition getOrCreate (t : Tree) (keys : list K) (value : V) : option V * Tree :=
  let '(r, root, added) := getOrCreate_walk (tree_root t) keys value in
  (r, Nat.iter added _onItemAdded (mkTree root (tree_length t) (tree_emitted t))).
End tree.
Arguments tree_node : clear implicits.
Arguments Tree : clear implicits.
Arguments comparison : clear implicits.
Arguments Tree_new {K V}.

Example getOrCreate_ex :
  let '(r1, t) := getOrCreate Tree_new [1; 2; 3] 10 in
  let '(r2, t) := getOrCreate t [1; 2; 4] 20 in
  let '(r3, t) := getOrCreate t [1; 2; 3] 30 in
  let '(r4, t) := getOrCreate t [1; 2; 4; 5] 40 in
  (r1, r2, r3, r4, tree_emitted t) = (Some 10, Some 20, Some 10, Some 40, [1; 2; 3]%nat).
Proof. vm_compute. reflexivity. Qed.
