(* ===== verification/MappingTreeTheorems.v ===== *)
(** The radix tree of the mapper is a map: [getOrCreate] gives the value that
    was stored first under the same sequence of keys. *)
From stdpp Require Import gmap.
From S2P Require Import Prelude.
From S2P Require Import MappingTree.

Section node_ind.
Context {K V : Type} (P : tree_node K V -> Prop).
Context (HP : forall key value edges, Forall P edges -> P (Node key value edges)).

Fixpoint node_induction (n : tree_node K V) : P n :=
  match n with
  | Node key value edges =>
      HP key value edges
        ((fix go (es : list (tree_node K V)) : Forall P es :=
            match es with
            | [] => Forall_nil_2 P
            | e :: es' => Forall_cons_2 P e es' (node_induction e) (go es')
            end) edges)
  end.
End node_ind.

Section lookups.
Context {K V : Type} `{EqDecision K}.

(** The value stored under the items below a node whose first key has matched. *)
Definition find_lookup (f : tree_node K V -> option V) (item : K) : list (tree_node K V) -> option V :=
  fix go (es : list (tree_node K V)) :=
    match es with
    | [] => None
    | e :: es' => if edge_matches item e then f e else go es'
    end.

Fixpoint lookup_node (n : tree_node K V) (items : list K) : option V :=
  match compare_key 1 (tail (node_key n)) items with
  | BranchAt _ _ => None
  | Agree [] => node_value n
  | Agree (item :: rest) => match n with Node _ _ edges => find_lookup (fun e => lookup_node e rest) item edges end
  end.

Definition below (v : option V) (edges : list (tree_node K V)) (items : list K) : option V :=
  match items with
  | [] => v
  | item :: rest => find_lookup (fun e => lookup_node e rest) item edges
  end.

Lemma compare_key_spec (i : nat) (key items : list K) :
  match compare_key i key items with
  | Agree rest => items = key ++ rest
  | BranchAt j rest =>
      exists p k key', key = p ++ k :: key' /\ items = p ++ rest /\ j = (i + length p)%nat /\ head rest <> Some k
  end.
Proof.
  revert i items. induction key as [|k key IH]; intros i items; cbn; [done|].
  destruct items as [|x items]; [exists [], k, key; cbn; rewrite Nat.add_0_r; done|].
  case_decide as Hk.
  - subst x. specialize (IH (S i) items). destruct (compare_key (S i) key items); [by rewrite IH|].
    destruct IH as (p & k' & key' & -> & -> & -> & Hh). exists (k :: p), k', key'. cbn. split_and!; [done..|lia|done].
  - exists [], k, key. cbn. split_and!; [done..|lia|congruence].
Qed.

Lemma compare_key_app (i : nat) (key rest : list K) : compare_key i key (key ++ rest) = Agree rest.
Proof. revert i. induction key as [|k key IH]; intros i; cbn; [done|]. by rewrite decide_True. Qed.

Lemma lookup_below key v edges rest : lookup_node (Node key v edges) (tail key ++ rest) = below v edges rest.
Proof. cbn [lookup_node node_key]. rewrite compare_key_app. by destruct rest. Qed.

Lemma lookup_off key v edges items :
  (forall rest, items <> tail key ++ rest) -> lookup_node (Node key v edges) items = None.
Proof.
  intros H. cbn [lookup_node node_key]. pose proof (compare_key_spec 1 (tail key) items) as S.
  destruct (compare_key 1 (tail key) items) as [rest|]; [by destruct (H rest)|done].
Qed.

(** Either the items go on after the key of the node, or they leave it. *)
Lemma prefix_dec (p items : list K) : {rest | items = p ++ rest} + {forall rest, items <> p ++ rest}.
Proof.
  revert items. induction p as [|k p IH]; intros items; [left; by exists items|].
  destruct items as [|x items]; [right; intros rest; done|].
  destruct (decide (x = k)) as [->|Hx]; [|right; intros rest; cbn; congruence].
  destruct (IH items) as [[rest ->]|Hn]; [left; by exists rest|right; intros rest; cbn; intros [= H]; by apply (Hn rest)].
Defined.

Lemma lookup_longer k0 p k key' v edges rest :
  lookup_node (Node (k0 :: p ++ k :: key') v edges) (p ++ rest) =
  match rest with
  | [] => None
  | x :: r => if decide (x = k) then lookup_node (Node (k :: key') v edges) r else None
  end.
Proof.
  destruct rest as [|x r].
  - apply lookup_off. cbn. intros r H. rewrite <- app_assoc in H. apply app_inv_head in H. done.
  - case_decide as Hx.
    + subst x. destruct (prefix_dec key' r) as [[r' ->]|Hn].
      * rewrite lookup_below with (key := k :: key').
        replace (p ++ k :: key' ++ r') with (tail (k0 :: p ++ k :: key') ++ r') by (cbn; by rewrite <- app_assoc).
        apply lookup_below.
      * rewrite lookup_off by (intros r' H; cbn in H; rewrite <- app_assoc in H; apply app_inv_head in H; cbn in H; injection H; apply Hn).
        rewrite lookup_off; [done|]. cbn. apply Hn.
    + apply lookup_off. cbn. intros r' H. rewrite <- app_assoc in H. apply app_inv_head in H. cbn in H. congruence.
Qed.

Lemma lookup_leaf k key' value r :
  lookup_node (Node (k :: key') (Some value) []) r = if decide (r = key') then Some value else None.
Proof.
  destruct (prefix_dec key' r) as [[r' ->]|Hn].
  - rewrite (lookup_below (k :: key')). destruct r'; cbn.
    + rewrite decide_True; [done|]. by rewrite app_nil_r.
    + rewrite decide_False; [done|]. intros H. rewrite <- (app_nil_r key') in H at 2. by apply app_inv_head in H.
  - rewrite lookup_off by apply Hn. rewrite decide_False; [done|]. intros ->. apply (Hn []). by rewrite app_nil_r.
Qed.

Lemma find_lookup_app f item es1 es2 :
  find_lookup f item (es1 ++ es2) =
  if existsb (edge_matches item) es1 then find_lookup f item es1 else find_lookup f item es2.
Proof. induction es1 as [|e es1 IH]; cbn; [done|]. by destruct (edge_matches item e). Qed.

Lemma find_lookup_none f item es : existsb (edge_matches item) es = false -> find_lookup f item es = None.
Proof. induction es as [|e es IH]; cbn; [done|]. by destruct (edge_matches item e). Qed.

(** [find_edge] goes down the first edge that starts with the item. *)
Lemma find_edge_spec f (item : K) (es : list (tree_node K V)) :
  match find_edge f item es with
  | None => existsb (edge_matches item) es = false
  | Some (r, es', added) =>
      exists l1 e l2 e', es = l1 ++ e :: l2 /\ es' = l1 ++ e' :: l2 /\ f e = (r, e', added) /\
        existsb (edge_matches item) l1 = false /\ edge_matches item e = true
  end.
Proof.
  induction es as [|e es IH]; cbn; [done|]. destruct (edge_matches item e) eqn:He.
  - destruct (f e) as [[r e'] added] eqn:Hf. by exists [], e, es, e'.
  - destruct (find_edge f item es) as [[[r es'] added]|]; [|done].
    destruct IH as (l1 & e0 & l2 & e' & -> & -> & Hf & H1 & H2). exists (e :: l1), e0, l2, e'. cbn. by rewrite He.
Qed.
End lookups.

Section walk.
Context {K V : Type} `{EqDecision K}.
Implicit Types (n e : tree_node K V) (items : list K) (value : V).

(** A node that holds a value or leads to one. *)
Definition useful (n : tree_node K V) : Prop := node_value n <> None \/ node_edges n <> [].

(** The edges of a node start with different keys, and lead to values. *)
Inductive wf : tree_node K V -> Prop :=
  | wf_node key v edges :
      Forall (fun e => wf e /\ node_key e <> [] /\ useful e) edges ->
      NoDup (map (fun e => head (node_key e)) edges) -> wf (Node key v edges).

(** What an operation on a node guarantees. *)
Record stored (n : tree_node K V) (items : list K) (value : V) (r : option V) (n' : tree_node K V) (added : nat) : Prop := mkStored {
  st_wf : wf n';
  st_useful : useful n';
  st_head : head (node_key n') = head (node_key n);
  st_result : r = Some (default value (lookup_node n items));
  st_lookup : forall j, lookup_node n' j = if decide (j = items) then r else lookup_node n j;
  st_added : (added <= match lookup_node n items with None => 1 | Some _ => 0 end)%nat }.

Lemma starts_with_head item e : edge_matches item e = true <-> head (node_key e) = Some item.
Proof.
  unfold edge_matches. destruct (node_key e) as [|k key]; cbn; [done|]. rewrite bool_decide_eq_true. naive_solver.
Qed.

Lemma starts_with_none item es :
  existsb (edge_matches item) es = false -> Some item ∉ map (fun e => head (node_key e)) es.
Proof.
  intros H Hin. apply list_elem_of_fmap in Hin as (e & He & Hin). apply not_true_iff_false in H. apply H.
  apply existsb_exists. exists e. split; [by apply list_elem_of_In|]. by apply starts_with_head.
Qed.

Lemma push_leaf_lookup n x r value j :
  existsb (edge_matches x) (node_edges n) = false ->
  lookup_node (push_leaf n (x :: r) value) j =
    if decide (j = tail (node_key n) ++ x :: r) then Some value else lookup_node n j.
Proof.
  destruct n as [key v es]. cbn [node_edges node_key push_leaf node_value]. intros Hes.
  destruct (prefix_dec (tail key) j) as [[rest ->]|Hn].
  - unfold push_leaf. cbn [node_edges node_key node_value]. rewrite !lookup_below. destruct rest as [|y rest]; cbn [below].
    + rewrite decide_False; [done|]. intros H. by apply app_inv_head in H.
    + rewrite find_lookup_app. destruct (existsb (edge_matches y) es) eqn:Hy.
      * rewrite decide_False; [done|]. intros H. apply app_inv_head in H. congruence.
      * cbn [find_lookup edge_matches node_key]. rewrite (find_lookup_none _ y es Hy). case_bool_decide as Hxy.
        -- subst y. rewrite lookup_leaf. destruct (decide (rest = r)) as [->|Hr]; [by rewrite decide_True|].
           rewrite decide_False; [done|]. intros H. apply app_inv_head in H. congruence.
        -- rewrite decide_False; [done|]. intros H. apply app_inv_head in H. congruence.
  - rewrite decide_False by apply Hn. unfold push_leaf. cbn [node_edges node_key node_value]. rewrite !lookup_off by apply Hn. done.
Qed.

Lemma push_leaf_wf n x r value :
  existsb (edge_matches x) (node_edges n) = false -> wf n -> wf (push_leaf n (x :: r) value).
Proof.
  intros Hx Hw. inversion Hw as [key v es Hes Hnd]; subst n. cbn in Hx. unfold push_leaf. cbn.
  constructor.
  - apply Forall_app. split; [done|]. apply Forall_singleton. split_and!; [|done|by left].
    constructor; [done|constructor].
  - rewrite map_app. cbn. apply NoDup_app. split_and!; [done| |apply NoDup_singleton].
    intros o Ho Ho'. apply list_elem_of_singleton in Ho' as ->. by apply (starts_with_none x es).
Qed.

Lemma createBranch_eq (k0 : K) p k key' (v : option V) es use value :
  _createBranch (Node (k0 :: p ++ k :: key') v es) (1 + length p) use value =
  Node (k0 :: p) (if use then Some value else None) [Node (k :: key') v es].
Proof. unfold _createBranch. cbn. by rewrite drop_app_length, take_app_length. Qed.

Lemma createBranch_lookup (k0 : K) p k key' (v : option V) es use value j :
  lookup_node (_createBranch (Node (k0 :: p ++ k :: key') v es) (1 + length p) use value) j =
    if decide (j = p) then (if use then Some value else None) else lookup_node (Node (k0 :: p ++ k :: key') v es) j.
Proof.
  rewrite createBranch_eq. destruct (prefix_dec p j) as [[rest ->]|Hn].
  - rewrite lookup_longer. rewrite (lookup_below (k0 :: p)). destruct rest as [|x r].
    + rewrite decide_True by apply app_nil_r. done.
    + rewrite decide_False by (intros H; rewrite <- (app_nil_r p) in H at 2; by apply app_inv_head in H).
      cbn [below find_lookup edge_matches node_key]. case_bool_decide as Hk.
      * by rewrite decide_True.
      * by rewrite decide_False by done.
  - rewrite decide_False by (intros ->; apply (Hn []); by rewrite app_nil_r).
    rewrite !lookup_off; [done| |apply Hn]. intros r ->. apply (Hn (k :: key' ++ r)). cbn. by rewrite <- app_assoc.
Qed.

Lemma createBranch_wf (k0 : K) p k key' (v : option V) es use value :
  wf (Node (k0 :: p ++ k :: key') v es) -> useful (Node (k0 :: p ++ k :: key') v es) ->
  wf (_createBranch (Node (k0 :: p ++ k :: key') v es) (1 + length p) use value).
Proof.
  rewrite createBranch_eq. intros Hw Hu. inversion Hw; subst. constructor; [|apply NoDup_singleton].
  apply Forall_singleton. split_and!; [by constructor|done|done].
Qed.

(** A branch for a key that ends inside the key of the node. *)
Lemma branch_here (k0 : K) p k key' (v : option V) es value :
  let n := Node (k0 :: p ++ k :: key') v es in
  wf n -> useful n -> stored n p value (Some value) (_createBranch n (1 + length p) true value) 1.
Proof.
  cbn zeta. intros Hw Hu.
  assert (Hn : lookup_node (Node (k0 :: p ++ k :: key') v es) p = None)
    by (pose proof (lookup_longer k0 p k key' v es []) as L; by rewrite app_nil_r in L).
  constructor; [by apply createBranch_wf|by left|by rewrite createBranch_eq|by rewrite Hn| |by rewrite Hn].
  intros j. apply createBranch_lookup.
Qed.

(** A branch for a key that leaves the key of the node. *)
Lemma branch_off (k0 : K) p k key' (v : option V) es x r value :
  let n := Node (k0 :: p ++ k :: key') v es in
  x <> k -> wf n -> useful n ->
  stored n (p ++ x :: r) value (Some value) (push_leaf (_createBranch n (1 + length p) false value) (x :: r) value) 1.
Proof.
  cbn zeta. intros Hx Hw Hu.
  assert (Hn : lookup_node (Node (k0 :: p ++ k :: key') v es) (p ++ x :: r) = None) by (by rewrite lookup_longer, decide_False).
  assert (Hs : existsb (edge_matches x) (node_edges (_createBranch (Node (k0 :: p ++ k :: key') v es) (1 + length p) false value)) = false).
  { rewrite createBranch_eq. cbn. rewrite bool_decide_eq_false_2 by done. done. }
  constructor; [apply push_leaf_wf; [done|by apply createBranch_wf]|by right; rewrite createBranch_eq|by rewrite createBranch_eq|by rewrite Hn| |by rewrite Hn].
  assert (Hk : tail (node_key (_createBranch (Node (k0 :: p ++ k :: key') v es) (1 + length p) false value)) = p) by (by rewrite createBranch_eq).
  intros j. rewrite push_leaf_lookup by done. rewrite Hk.
  case_decide as Hj; [done|]. rewrite createBranch_lookup. case_decide as Hp; [|done]. subst j.
  pose proof (lookup_longer k0 p k key' v es []) as L. by rewrite app_nil_r in L.
Qed.

(** A new leaf below the node. *)
Lemma leaf_below n x r value :
  wf n -> existsb (edge_matches x) (node_edges n) = false ->
  stored n (tail (node_key n) ++ x :: r) value (Some value) (push_leaf n (x :: r) value) 1.
Proof.
  intros Hw Hx.
  assert (Hn : lookup_node n (tail (node_key n) ++ x :: r) = None).
  { destruct n as [key v es]. cbn [node_key]. rewrite lookup_below. by apply find_lookup_none. }
  constructor; [by apply push_leaf_wf| |done|by rewrite Hn| |by rewrite Hn].
  - right. cbn. by destruct (node_edges n).
  - intros j. by apply push_leaf_lookup.
Qed.
End walk.

Section refinement.
Context {K V : Type} `{Countable K}.
Implicit Types (key : list K).
Implicit Types (n e : tree_node K V) (items : list K) (value : V).

(** Replacing the edge that leads to the items. *)
Lemma edge_stored (key : list K) (v : option V) l1 e l2 e' x items value r added :
  wf (Node key v (l1 ++ e :: l2)) -> existsb (edge_matches x) l1 = false -> edge_matches x e = true ->
  stored e items value r e' added ->
  stored (Node key v (l1 ++ e :: l2)) (tail key ++ x :: items) value r (Node key v (l1 ++ e' :: l2)) added.
Proof.
  intros Hw H1 He S. inversion Hw as [? ? ? Hes Hnd]; subst. apply Forall_app in Hes as [Hl1 Hl2].
  apply Forall_cons in Hl2 as [(_ & Hne & _) Hl2].
  assert (He' : edge_matches x e' = true) by (apply starts_with_head; rewrite (st_head _ _ _ _ _ _ S); by apply starts_with_head).
  assert (Hlook : forall (a : tree_node K V) y j, find_lookup (fun e => lookup_node e j) y (l1 ++ a :: l2) =
    if existsb (edge_matches y) l1 then find_lookup (fun e => lookup_node e j) y l1
    else if edge_matches y a then lookup_node a j else find_lookup (fun e => lookup_node e j) y l2)
    by (intros; by rewrite find_lookup_app).
  assert (Hn : lookup_node (Node key v (l1 ++ e :: l2)) (tail key ++ x :: items) = lookup_node e items)
    by (rewrite lookup_below; cbn [below]; by rewrite Hlook, H1, He).
  constructor; rewrite ?Hn.
  - constructor.
    + apply Forall_app. split; [done|]. apply Forall_cons. split; [|done].
      split_and!; [apply (st_wf _ _ _ _ _ _ S)| |apply (st_useful _ _ _ _ _ _ S)].
      apply starts_with_head in He'. by destruct (node_key e').
    + rewrite map_app in *. cbn in *. by rewrite (st_head _ _ _ _ _ _ S).
  - right. cbn. by destruct l1.
  - done.
  - apply (st_result _ _ _ _ _ _ S).
  - intros j. destruct (prefix_dec (tail key) j) as [[rest ->]|Hj].
    + rewrite !lookup_below. destruct rest as [|y rest]; cbn [below].
      { rewrite decide_False; [done|]. intros E. by apply app_inv_head in E. }
      rewrite !Hlook. destruct (decide (y = x)) as [->|Hyx].
      * rewrite H1, He, He', (st_lookup _ _ _ _ _ _ S). destruct (decide (rest = items)) as [->|Hr]; [by rewrite decide_True|].
        rewrite decide_False; [done|]. intros E. apply app_inv_head in E. congruence.
      * rewrite decide_False by (intros E; apply app_inv_head in E; congruence).
        assert (Hf : forall a : tree_node K V, edge_matches x a = true -> edge_matches y a = false).
        { intros a Ha. apply starts_with_head in Ha. apply not_true_iff_false. intros Hb. apply starts_with_head in Hb. congruence. }
        by rewrite (Hf e), (Hf e').
    + rewrite decide_False by apply Hj. by rewrite !lookup_off by apply Hj.
  - apply (st_added _ _ _ _ _ _ S).
Qed.

(** A key that ends at a node. *)
Lemma value_stored (key : list K) (v : option V) edges value :
  wf (Node key v edges) -> useful (Node key v edges) ->
  stored (Node key v edges) (tail key) value (Some (default value v)) (Node key (Some (default value v)) edges) 0.
Proof.
  intros Hw Hu. inversion Hw; subst.
  pose proof (lookup_below key v edges []) as Hn. rewrite app_nil_r in Hn. cbn [below] in Hn.
  constructor; [by constructor|by left|done|by rewrite Hn| |lia].
  intros j. destruct (prefix_dec (tail key) j) as [[rest ->]|Hj].
  - rewrite !lookup_below. destruct rest as [|y rest]; cbn [below].
    + rewrite decide_True; [done|]. by rewrite app_nil_r.
    + rewrite decide_False; [done|]. intros E. rewrite <- (app_nil_r (tail key)) in E at 2. by apply app_inv_head in E.
  - rewrite decide_False by (intros ->; apply (Hj []); by rewrite app_nil_r). by rewrite !lookup_off by apply Hj.
Qed.

Lemma walk_stored n items value :
  wf n -> (useful n \/ node_key n = [] /\ items <> []) ->
  let '(r, n', added) := getOrCreate_walk n items value in stored n items value r n' added.
Proof.
  revert items. induction n as [key v edges IH] using node_induction. intros items Hw Hu.
  cbn [getOrCreate_walk node_key]. pose proof (compare_key_spec 1 (tail key) items) as C.
  destruct (compare_key 1 (tail key) items) as [rest|i rest].
  - subst items. destruct rest as [|x rest].
    + rewrite app_nil_r in *.
      assert (Hu' : useful (Node key v edges)) by (destruct Hu as [?|[Hk Hi]]; [done|]; cbn in Hk; by subst key).
      pose proof (value_stored key v edges value Hw Hu') as S.
      destruct v as [u|]; [done|]. destruct edges as [|e es]; [by destruct Hu'|done].
    + pose proof (find_edge_spec (fun e => getOrCreate_walk e rest value) x edges) as F.
      destruct (find_edge _ x edges) as [[[r es'] added]|].
      * destruct F as (l1 & e & l2 & e' & -> & -> & Hf & H1 & He). inversion Hw as [? ? ? Hes Hnd]; subst.
        apply Forall_app in Hes as [_ Hes]. apply Forall_cons in Hes as [(Hwe & _ & Hue) _].
        apply Forall_app in IH as [_ IH]. apply Forall_cons in IH as [IH _].
        specialize (IH rest Hwe (or_introl Hue)). rewrite Hf in IH. by apply edge_stored.
      * apply (leaf_below (Node key v edges) x rest value Hw F).
  - destruct C as (p & k & key' & Hk & -> & -> & Hh). destruct key as [|k0 key]; [by destruct p|]. cbn in Hk. subst key.
    assert (Hu' : useful (Node (k0 :: p ++ k :: key') v edges)) by (destruct Hu as [?|[Hk _]]; [done|by cbn in Hk]).
    destruct rest as [|x r].
    + rewrite app_nil_r. by apply branch_here.
    + apply branch_off; [|done..]. cbn in Hh. congruence.
Qed.

(** The value under a sequence of keys. *)
Definition tree_lookup (t : Tree K V) (keys : list K) : option V := lookup_node (tree_root t) keys.

(** The calls of [getOrCreate], with the keys and the new values. *)
Fixpoint tree_run (t : Tree K V) (calls : list (list K * V)) : list (option V) * Tree K V :=
  match calls with
  | [] => ([], t)
  | (keys, value) :: calls' =>
      let '(r, t) := getOrCreate t keys value in
      let '(rs, t) := tree_run t calls' in (r :: rs, t)
  end.

(** The same on a map. *)
Fixpoint map_run (m : gmap (list K) V) (calls : list (list K * V)) : list V * gmap (list K) V :=
  match calls with
  | [] => ([], m)
  | (keys, value) :: calls' =>
      let r := default value (m !! keys) in
      let '(rs, m) := map_run (<[keys := r]> m) calls' in (r :: rs, m)
  end.

(** The tree stands for the map. *)
Record represents (t : Tree K V) (m : gmap (list K) V) : Prop := mkRepresents {
  rep_wf : wf (tree_root t);
  rep_root : node_key (tree_root t) = [];
  rep_lookup : forall keys, tree_lookup t keys = m !! keys;
  rep_length : (tree_length t <= size m)%nat;
  rep_emitted : tree_emitted t = seq 1 (tree_length t) }.

Lemma new_represents : represents Tree_new ∅.
Proof. constructor; [by repeat constructor|done| |cbn; lia|done]. intros [|k keys]; by rewrite lookup_empty. Qed.

Lemma walk_key n items value : node_key n = [] -> node_key (getOrCreate_walk n items value).1.2 = [].
Proof.
  destruct n as [key v es]. cbn [node_key]. intros ->. cbn [getOrCreate_walk node_key tail compare_key].
  destruct items as [|x items]; [by destruct v, es|].
  by destruct (find_edge _ x es) as [[[r es'] a]|].
Qed.

Lemma getOrCreate_represents t m keys value :
  represents t m -> keys <> [] ->
  let '(r, t') := getOrCreate t keys value in
  let u := default value (m !! keys) in r = Some u /\ represents t' (<[keys := u]> m).
Proof.
  intros R Hk. unfold getOrCreate.
  pose proof (walk_stored (tree_root t) keys value (rep_wf t m R) (or_intror (conj (rep_root t m R) Hk))) as S.
  pose proof (walk_key (tree_root t) keys value (rep_root t m R)) as Hkey.
  destruct (getOrCreate_walk (tree_root t) keys value) as [[r n'] added]. cbn [fst snd] in Hkey.
  pose proof (rep_lookup t m R keys) as Hl. unfold tree_lookup in Hl.
  pose proof (st_result _ _ _ _ _ _ S) as Hr. rewrite Hl in Hr. split; [done|].
  pose proof (st_added _ _ _ _ _ _ S) as Ha. rewrite Hl in Ha.
  assert (E : let t' := Nat.iter added _onItemAdded (mkTree n' (tree_length t) (tree_emitted t)) in
    tree_root t' = n' /\ tree_length t' = (tree_length t + added)%nat /\ tree_emitted t' = seq 1 (tree_length t + added)).
  { cbn zeta. assert (added = 0 \/ added = 1)%nat as [->| ->] by (destruct (m !! keys); lia); cbn;
      rewrite (rep_emitted t m R), ?Nat.add_0_r, ?Nat.add_1_r; split_and!; [done..|]. by rewrite seq_S. }
  destruct E as (E1 & E2 & E3). constructor.
  - rewrite E1. apply (st_wf _ _ _ _ _ _ S).
  - by rewrite E1.
  - intros j. unfold tree_lookup. rewrite E1, (st_lookup _ _ _ _ _ _ S). case_decide as Hj.
    + subst j. by rewrite lookup_insert_eq.
    + rewrite lookup_insert_ne by done. apply (rep_lookup t m R).
  - rewrite E2. pose proof (rep_length t m R). destruct (m !! keys) as [u|] eqn:Hm.
    + rewrite insert_id by done. lia.
    + rewrite map_size_insert_None by done. lia.
  - by rewrite E2, E3.
Qed.

(** C16: the radix tree of the mapper's caches refines a map from sequences of
    keys to values: any calls of [getOrCreate] with keys give, each, the value
    that was stored first under the same keys, or the new one; the tree then
    holds the same values as the map, its edges stay distinct and useful, and
    [length], which counts what was emitted, is at most the number of items. *)
Theorem getOrCreate_refines_map (calls : list (list K * V)) (Hkeys : Forall (fun c => c.1 <> []) calls) :
  let '(rs, t) := tree_run Tree_new calls in
  let '(us, m) := map_run ∅ calls in
  rs = Some <$> us /\ represents t m.
Proof.
  assert (G : forall t m, represents t m ->
    let '(rs, t) := tree_run t calls in let '(us, m) := map_run m calls in rs = Some <$> us /\ represents t m).
  2: apply G, new_represents.
  induction Hkeys as [|[keys value] calls Hk _ IH]; intros t m R; cbn [tree_run map_run]; [done|].
  pose proof (getOrCreate_represents t m keys value R Hk) as S.
  destruct (getOrCreate t keys value) as [r t']. destruct S as [-> R']. specialize (IH _ _ R').
  destruct (tree_run t' calls) as [rs t''], (map_run _ calls) as [us m']. destruct IH as [-> ?]. done.
Qed.
End refinement.

Lemma getOrCreate_refines_map_witness :
  let calls := [([1; 2; 3]%nat, 10); ([1; 2; 4]%nat, 20); ([1; 2]%nat, 30); ([1; 2]%nat, 40); ([1; 2; 4]%nat, 50)] in
  Forall (fun c : list nat * Z => c.1 <> []) calls /\ (tree_run Tree_new calls).1 = Some <$> (map_run ∅ calls).1.
Proof.
  cbv zeta. match goal with |- ?P /\ _ => assert (H : P) by (repeat constructor; done) end. split; [exact H|].
  pose proof (getOrCreate_refines_map _ H) as R.
  destruct (tree_run _ _) as [rs t], (map_run _ _) as [us m]. apply R.
Defined.

(** An item whose keys end at a branching node is not counted, and no event is
    emitted for it. *)
Lemma getOrCreate_uncounted :
  let '(r, t) := tree_run Tree_new [([1; 2], 10); ([1; 3], 20); ([1], 30)] in
  r = [Some 10; Some 20; Some 30] /\ tree_length t = 2%nat.
Proof. vm_compute. auto. Qed.
