(* ===== verification/Mapping.v ===== *)
(** The data of the mapper: operators and assignments ([lib/mapping/q.js]),
    documents and their options, the names of columns and properties
    ([table-mappings.js], [model-mapping-info.js]), the adaptation of the options
    ([doc-info-adapter.js]) and the keys of its caches ([cache.js]). *)
From S2P Require Import Prelude.
From S2P Require Import JsNum.
From S2P Require Import JsStr.
From S2P Require Import Utils.

(** ** [q.js] *)

(** The values of the properties of a document; [V] are the values of the
    language that the mapper does not look into. *)
Inductive jsval {V : Type} :=
  | Undefined
  | Value (v : V)
  | Array (l : list jsval)
  | Operator (key : jsstr) (value : jsval) (isInOperator : bool)
  | Both (key : jsstr) (value0 value1 : jsval)
  | Assignment (sign : jsstr) (value : jsval) (inverted : bool).
Arguments jsval : clear implicits.

(** The items of the keys of the caches: texts, and the flag [inverted]. *)
Abbreviation key_item := (jsstr + bool)%type.

Section q.
Context {V : Type}.

Definition q_in (arr : jsval V) : result (jsval V) :=
  match arr with Array _ => Ok (Operator (str "IN") arr true) | _ => Throw ArgumentError end.
Definition q_gt (v : jsval V) := Operator (str ">") v false.
Definition q_gte (v : jsval V) := Operator (str ">=") v false.
Definition q_lt (v : jsval V) := Operator (str "<") v false.
Definition q_lte (v : jsval V) := Operator (str "<=") v false.
Definition q_notEq (v : jsval V) := Operator (str "!=") v false.
Definition q_and (condition1 condition2 : jsval V) := Both (str "AND") condition1 condition2.
Definition q_incr (v : jsval V) := Assignment (str "+") v false.
Definition q_decr (v : jsval V) := Assignment (str "-") v false.
Definition q_append (v : jsval V) := Assignment (str "+") v false.
Definition q_prepend (v : jsval V) := Assignment (str "+") v true.
Definition q_remove (v : jsval V) := Assignment (str "-") v false.

Definition is_assignment (v : jsval V) : bool := match v with Assignment _ _ _ => true | _ => false end.

(** ** Documents *)

Abbreviation document := (obj (jsval V)).

(** [doc[key]] *)
Definition prop (doc : document) (key : jsstr) : jsval V := default Undefined (obj_get doc key).

(** The options of one operation.  [limit] and [ttl] are numbers, [orderBy] has
    texts, the flags are booleans. *)
Record docInfo := mkDocInfo {
  fields : option (list jsstr);
  limit : option Z;
  orderBy : option (obj jsstr);
  ttl : option Z;
  ifNotExists : bool;
  ifExists : bool;
  deleteOnlyColumns : bool;
  di_when : option document }.

(** [docInfo && docInfo.fields && docInfo.fields.length > 0] *)
Definition given_fields (di : option docInfo) : option (list jsstr) :=
  match di with
  | Some d => match fields d with Some (f :: fs) => Some (f :: fs) | _ => None end
  | None => None
  end.

Definition from_info {A} (f : docInfo -> A) (none : A) (di : option docInfo) : A :=
  match di with Some d => f d | None => none end.

(** ** [cache.js] *)

Definition item (s : string) : key_item := inl (str s).

Fixpoint _yieldOperators (value : jsval V) : list key_item :=
  match value with
  | Operator key _ _ => [inl key]
  | Both key a b => inl key :: _yieldOperators a ++ item "|/|" :: _yieldOperators b
  | _ => []
  end.

Definition _yieldKeyAndOperators (keys : list jsstr) (o : document) : list key_item :=
  concat (map (fun key => inl key :: _yieldOperators (prop o key)) keys).

Definition yield_q (value : jsval V) : list key_item :=
  match value with
  | Assignment sign _ inverted => [inl sign; inr inverted]
  | _ => _yieldOperators value
  end.

Definition _yieldKeyAndAllQs (keys : list jsstr) (o : document) : list key_item :=
  concat (map (fun key => inl key :: yield_q (prop o key)) keys).

Definition yield_fields (di : option docInfo) : list key_item :=
  match given_fields di with Some fs => item "|f|" :: map inl fs | None => [] end.

Definition yield_if (b : bool) (separator : string) : list key_item := if b then [item separator] else [].

Definition is_number (n : option Z) : bool := match n with Some _ => true | None => false end.

Definition yield_when (di : option docInfo) : list key_item :=
  match from_info di_when None di with
  | Some w => _yieldKeyAndOperators (map fst w) w
  | None => []
  end.

Definition _getSelectDocInfo (di : option docInfo) : list key_item :=
  yield_fields di ++ yield_if (is_number (from_info limit None di)) "|l|" ++
  match from_info orderBy None di with
  | Some o => item "|o|" :: concat (map (fun kv => [inl kv.1; inl kv.2]) o)
  | None => []
  end.

Definition getSelectKey (docKeys : list jsstr) (doc : document) (di : option docInfo) : list key_item :=
  _yieldKeyAndOperators docKeys doc ++ _getSelectDocInfo di.

Definition getSelectAllKey (di : option docInfo) : list key_item := item "root" :: _getSelectDocInfo di.

Definition getInsertKey (docKeys : list jsstr) (di : option docInfo) : list key_item :=
  map inl docKeys ++ yield_fields di ++ yield_if (is_number (from_info ttl None di)) "|t|" ++
  yield_if (from_info ifNotExists false di) "|e|".

Definition getUpdateKey (docKeys : list jsstr) (doc : document) (di : option docInfo) : list key_item :=
  _yieldKeyAndAllQs docKeys doc ++ yield_fields di ++ yield_if (is_number (from_info ttl None di)) "|t|" ++
  yield_if (from_info ifExists false di) "|e|" ++ yield_when di.

Definition getRemoveKey (docKeys : list jsstr) (doc : document) (di : option docInfo) : list key_item :=
  _yieldKeyAndOperators docKeys doc ++ yield_fields di ++ yield_if (from_info ifExists false di) "|e|" ++
  yield_if (from_info deleteOnlyColumns false di) "|dc|" ++ yield_when di.
End q.
Arguments docInfo : clear implicits.

(** ** [table-mappings.js] *)

(** The class [TableMappings]; [newObjectInstance] makes an empty object. *)
Class TableMappings := {
  mapping_getColumnName : jsstr -> jsstr;
  mapping_getPropertyName : jsstr -> jsstr }.

Definition DefaultTableMappings : TableMappings := {|
  mapping_getColumnName := fun propName => propName;
  mapping_getPropertyName := fun columnName => columnName |}.

Definition is_az (c : ascii) : bool := (97 <=? code c) && (code c <=? 122).
Definition is_AZ (c : ascii) : bool := (65 <=? code c) && (code c <=? 90).
Definition underscore : ascii := "_"%char.

(** [replace(/[a-z][A-Z]/g, ...)]: the matches do not overlap. *)
Fixpoint separate (s : jsstr) : jsstr :=
  match s with
  | a :: (b :: s') as s1 => if is_az a && is_AZ b then a :: underscore :: b :: separate s' else a :: separate s1
  | _ => s
  end.

Definition camel_getColumnName (propName : jsstr) : jsstr := toLowerCase (separate propName).

Definition upper (c : ascii) : ascii := if is_az c then chr (code c - 32) else c.

(** [replace(/_[a-z]/g, ...)] behind the first character. *)
Fixpoint capitalize (s : jsstr) : jsstr :=
  match s with
  | a :: (b :: s') as s1 => if bool_decide (a = underscore) && is_az b then upper b :: capitalize s' else a :: capitalize s1
  | _ => s
  end.

(** A match at offset 0 stays as it is. *)
Definition camel_getPropertyName (columnName : jsstr) : jsstr :=
  match columnName with
  | a :: (b :: s') as s1 => if bool_decide (a = underscore) && is_az b then a :: b :: capitalize s' else a :: capitalize s1
  | _ => columnName
  end.

Definition UnderscoreCqlToCamelCaseMappings : TableMappings := {|
  mapping_getColumnName := camel_getColumnName;
  mapping_getPropertyName := camel_getPropertyName |}.

Example camel_ex :
  camel_getColumnName (str "videoUserId") = str "video_user_id" /\
  camel_getPropertyName (str "video_user_id") = str "videoUserId" /\
  camel_getPropertyName (str "_id_x") = str "_idX".
Proof. vm_compute. auto. Qed.

(** The names of [UnderscoreCqlToCamelCaseMappings]: snake case to camel case and
    back. *)

(** Characters of words. *)
Definition word_character (c : ascii) : bool := is_az c || is_digit c.

Lemma ascii_forall (P : ascii -> bool) : forallb (fun n => P (chr (Z.of_nat n))) (seq 0 256) = true -> forall c, P c = true.
Proof.
  intros H c. rewrite forallb_forall in H. specialize (H (N.to_nat (N_of_ascii c))).
  unfold chr in H. rewrite Nat2Z.id in H || idtac. rewrite <- Z_nat_N, Nat2Z.id, N2Nat.id, ascii_N_embedding in H.
  apply H, in_seq. pose proof (N_ascii_bounded c). lia.
Qed.

Definition word_facts (c : ascii) : bool :=
  implb (is_az c) (bool_decide (lower (upper c) = c) && is_AZ (upper c)) &&
  implb (word_character c) (negb (bool_decide (c = underscore)) && negb (is_AZ c) && bool_decide (lower c = c)).

Lemma word_facts_hold c : word_facts c = true.
Proof. apply ascii_forall. vm_compute. reflexivity. Qed.

Lemma az_upper c : is_az c = true -> lower (upper c) = c /\ is_AZ (upper c) = true.
Proof.
  intros H. pose proof (word_facts_hold c) as F. unfold word_facts in F. rewrite H in F. cbn [implb] in F.
  apply andb_true_iff in F as [[F1%bool_decide_eq_true F2]%andb_true_iff _]. done.
Qed.

Lemma word_char c : word_character c = true -> c <> underscore /\ is_AZ c = false /\ lower c = c.
Proof.
  intros H. pose proof (word_facts_hold c) as F. unfold word_facts in F. rewrite H in F. cbn [implb] in F.
  apply andb_true_iff in F as [_ [[F1%negb_true_iff%bool_decide_eq_false F2%negb_true_iff]%andb_true_iff F3%bool_decide_eq_true]%andb_true_iff]. done.
Qed.

(** A word that another one can follow. *)
Definition ends_az (w : jsstr) : bool := match last w with Some c => is_az c | None => false end.

(** The words behind the first: they start with a letter, and one that is
    followed has a letter at its end, behind its first. *)
Fixpoint rest_ok (ws : list jsstr) : bool :=
  match ws with
  | [] => true
  | (b :: w) :: ws' => is_az b && forallb word_character w && (match ws' with [] => true | _ => ends_az w end) && rest_ok ws'
  | [] :: _ => false
  end.

Definition words_ok (w : jsstr) (ws : list jsstr) : bool :=
  negb (bool_decide (w = [])) && forallb word_character w && (match ws with [] => true | _ => ends_az w end) && rest_ok ws.

(** The column and the property made of the words. *)
Definition snake_tail (ws : list jsstr) : jsstr := concat (map (fun w => underscore :: w) ws).
Definition camel_tail (ws : list jsstr) : jsstr := concat (map (fun w => match w with b :: w => upper b :: w | [] => [] end) ws).

Lemma capitalize_cons a s : a <> underscore -> capitalize (a :: s) = a :: capitalize s.
Proof. intros Ha. destruct s as [|b s]; [done|]. cbn [capitalize]. by rewrite bool_decide_eq_false_2. Qed.

Lemma capitalize_word w s : forallb word_character w = true -> capitalize (w ++ s) = w ++ capitalize s.
Proof.
  induction w as [|a w IH]; [done|]. cbn [forallb app]. intros [Ha Hw]%andb_true_iff.
  destruct (word_char a Ha) as (Hu & _ & _). by rewrite capitalize_cons, IH.
Qed.

Lemma capitalize_tail ws : rest_ok ws = true -> capitalize (snake_tail ws) = camel_tail ws.
Proof.
  induction ws as [|[|b w] ws IH]; [done|done|]. cbn [rest_ok]. rewrite !andb_true_iff. intros [[[Hb Hw] _] Hr].
  unfold snake_tail, camel_tail. cbn [map concat app capitalize]. rewrite bool_decide_eq_true_2, Hb by done. cbn [andb]. f_equal.
  fold (snake_tail ws) (camel_tail ws). rewrite capitalize_word by done. by rewrite IH.
Qed.

(** A character that no capital follows stays. *)
Lemma separate_cons a s : (is_az a && match s with b :: _ => is_AZ b | [] => false end) = false -> separate (a :: s) = a :: separate s.
Proof. destruct s as [|b s]; [done|]. cbn [separate]. intros H. by rewrite H. Qed.

Lemma separate_word w : forallb word_character w = true -> separate w = w.
Proof.
  induction w as [|a w IH]; [done|]. cbn [forallb]. intros [Ha Hw]%andb_true_iff. rewrite separate_cons; [by rewrite IH|].
  destruct w as [|b w]; [by rewrite andb_false_r|]. cbn in Hw. apply andb_true_iff in Hw as [Hb _]. destruct (word_char b Hb) as (_ & -> & _).
  by rewrite andb_false_r.
Qed.

Lemma separate_before w b s : forallb word_character w = true -> ends_az w = true -> is_AZ b = true ->
  separate (w ++ b :: s) = w ++ underscore :: b :: separate s.
Proof.
  intros Hw He Hb. induction w as [|a w IH]; [done|]. cbn [forallb] in Hw. apply andb_true_iff in Hw as [Ha Hw].
  destruct w as [|a' w].
  - unfold ends_az in He. cbn in He. cbn [app separate]. by rewrite He, Hb.
  - cbn [app]. rewrite separate_cons; [f_equal; by apply IH|]. cbn in Hw. apply andb_true_iff in Hw as [Ha' _].
    destruct (word_char a' Ha') as (_ & -> & _). by rewrite andb_false_r.
Qed.

(** The words with their capitals, before the lower case. *)
Definition separated_tail (ws : list jsstr) : jsstr :=
  concat (map (fun w => match w with b :: w => underscore :: upper b :: w | [] => [] end) ws).

Lemma separate_tail w ws :
  forallb word_character w = true -> (match ws with [] => true | _ => ends_az w end) = true -> rest_ok ws = true ->
  separate (w ++ camel_tail ws) = w ++ separated_tail ws.
Proof.
  revert w. induction ws as [|[|b v] ws IH]; intros w Hw He Hr; [|done|].
  - unfold camel_tail, separated_tail. cbn. by rewrite app_nil_r, separate_word.
  - cbn [rest_ok] in Hr. rewrite !andb_true_iff in Hr. destruct Hr as [[[Hb Hv] Hev] Hr].
    unfold camel_tail, separated_tail. cbn [map concat app]. fold (camel_tail ws) (separated_tail ws).
    rewrite separate_before by (try done; by apply az_upper). by rewrite IH.
Qed.

Lemma lower_word w : forallb word_character w = true -> map lower w = w.
Proof.
  induction w as [|a w IH]; [done|]. cbn [forallb map]. intros [Ha Hw]%andb_true_iff. destruct (word_char a Ha) as (_ & _ & ->). by rewrite IH.
Qed.

Lemma lower_tail ws : rest_ok ws = true -> map lower (separated_tail ws) = snake_tail ws.
Proof.
  induction ws as [|[|b w] ws IH]; [done|done|]. cbn [rest_ok]. rewrite !andb_true_iff. intros [[[Hb Hw] _] Hr].
  unfold separated_tail, snake_tail. cbn [map concat app]. fold (separated_tail ws) (snake_tail ws).
  rewrite map_app, lower_word, IH by done. destruct (az_upper b Hb) as [-> _]. done.
Qed.

(** columns in snake case and properties in camel case stand for each other:
    for words of lower-case letters and digits, each behind the first starting
    with a letter, and each that is followed ending with a letter that is not
    its capital. *)
Theorem camel_case_roundtrip (w : jsstr) (ws : list jsstr) (Hok : words_ok w ws = true) :
  let names := UnderscoreCqlToCamelCaseMappings in
  let column := w ++ snake_tail ws in
  let property := w ++ camel_tail ws in
  mapping_getPropertyName (TableMappings := names) column = property /\
  mapping_getColumnName (TableMappings := names) property = column.
Proof.
  unfold words_ok in Hok. rewrite !andb_true_iff in Hok. destruct Hok as [[[Hne Hw] He] Hr]. cbv zeta. split.
  - cbn [mapping_getPropertyName UnderscoreCqlToCamelCaseMappings].
    assert (E : camel_getPropertyName (w ++ snake_tail ws) = capitalize (w ++ snake_tail ws)).
    { destruct w as [|a w]; [done|]. cbn [forallb] in Hw. apply andb_true_iff in Hw as [Ha _]. destruct (word_char a Ha) as (Hu & _ & _).
      cbn [app]. destruct (w ++ snake_tail ws) as [|b s]; [done|]. cbn [camel_getPropertyName capitalize]. by rewrite bool_decide_eq_false_2. }
    by rewrite E, capitalize_word, capitalize_tail.
  - cbn [mapping_getColumnName UnderscoreCqlToCamelCaseMappings]. unfold camel_getColumnName, toLowerCase.
    by rewrite separate_tail, map_app, lower_word, lower_tail.
Qed.

Lemma camel_case_roundtrip_witness :
  words_ok (str "video") [str "user"; str "id2"] = true /\
  camel_getColumnName (str "videoUserId2") = str "video_user_id2".
Proof.
  assert (H : words_ok (str "video") [str "user"; str "id2"] = true) by (vm_compute; reflexivity). split; [exact H|].
  exact (proj2 (camel_case_roundtrip (str "video") [str "user"; str "id2"] H)).
Defined.

(** Words of one letter, and words that end with a digit, do not come back. *)
Lemma camel_case_lost :
  camel_getColumnName (camel_getPropertyName (str "a_b_c")) = str "a_bc" /\
  camel_getColumnName (camel_getPropertyName (str "line2_text")) = str "line2text".
Proof. vm_compute. auto. Qed.
