(* ===== verification/MappingInfo.v ===== *)
(** [lib/mapping/model-mapping-info.js] and [doc-info-adapter.js]: the options of
    a model, and what the documents and their options mean for it. *)
From S2P Require Import Prelude.
From S2P Require Import JsNum.
From S2P Require Import JsStr.
From S2P Require Import Utils.
From S2P Require Import Mapping.

Section info.
Context {V : Type}.

(** A function of the user, from values to values. *)
Abbreviation user_fn := (jsval V -> jsval V).

(** [ModelColumnInfo] *)
Record ModelColumnInfo := mkColumnInfo {
  ci_columnName : jsstr;
  ci_propertyName : jsstr;
  ci_toModel : option user_fn;
  ci_fromModel : option user_fn }.

(** [toModel] and [fromModel] as the user gives them; the last is no function. *)
Inductive given_fn := NoFn | Fn (f : user_fn) | NotFn.

Definition check_fn (f : given_fn) : result (option user_fn) :=
  match f with NoFn => Ok None | Fn f => Ok (Some f) | NotFn => Throw TypeError end.

Definition ModelColumnInfo_new (columnName propertyName : jsstr) (toModel fromModel : given_fn) : result ModelColumnInfo :=
  t ← check_fn toModel; f ← check_fn fromModel; Ok (mkColumnInfo columnName propertyName t f).

(** The value of a column in the options: falsy, a text, or an object. *)
Inductive column_option :=
  | NoColumn
  | ColumnText (name : jsstr)
  | ColumnObject (name : option jsstr) (toModel fromModel : given_fn).

(** [a || b] on texts. *)
Definition or_text (a : option jsstr) (b : jsstr) : jsstr := match a with Some (c :: s) => c :: s | _ => b end.
Definition is_text (a : option jsstr) : bool := match a with Some (_ :: _) => true | _ => false end.

Definition ModelColumnInfo_parse (columnName : jsstr) (value : column_option) : result ModelColumnInfo :=
  match value with
  | NoColumn | ColumnText [] => ModelColumnInfo_new columnName columnName NoFn NoFn
  | ColumnText name => ModelColumnInfo_new columnName name NoFn NoFn
  | ColumnObject name toModel fromModel => ModelColumnInfo_new columnName (or_text name columnName) toModel fromModel
  end.

(** [ModelMappingInfo]; the maps [_columns] and [_documentProperties]. *)
Record ModelMappingInfo := mkInfo {
  mi_keyspace : jsstr;
  mi_tables : list (jsstr * bool);
  mi_mappings : TableMappings;
  mi_columns : obj ModelColumnInfo;
  mi_documentProperties : obj ModelColumnInfo }.

Definition ModelMappingInfo_new (keyspace : jsstr) (tables : list (jsstr * bool)) (mappings : TableMappings)
    (columns : obj ModelColumnInfo) : ModelMappingInfo :=
  mkInfo keyspace tables mappings columns (foldl (fun m c => obj_set m (ci_propertyName c) c) [] (map snd columns)).

Definition getColumnName (i : ModelMappingInfo) (propName : jsstr) : jsstr :=
  match obj_get (mi_documentProperties i) propName with
  | Some c => ci_columnName c
  | None => @mapping_getColumnName (mi_mappings i) propName
  end.

Definition getPropertyName (i : ModelMappingInfo) (columnName : jsstr) : jsstr :=
  match obj_get (mi_columns i) columnName with
  | Some c => ci_propertyName c
  | None => @mapping_getPropertyName (mi_mappings i) columnName
  end.

Definition getFromModelFn (i : ModelMappingInfo) (propName : jsstr) : option user_fn :=
  match obj_get (mi_documentProperties i) propName with Some c => ci_fromModel c | None => None end.

Definition getToModelFn (i : ModelMappingInfo) (columnName : jsstr) : option user_fn :=
  match obj_get (mi_columns i) columnName with Some c => ci_toModel c | None => None end.

(** The options of a model. *)
Inductive table_option := TableText (name : jsstr) | TableObject (name : option jsstr) (isView : bool) | NoTable.
Inductive mappings_option := NoMappings | Mappings (m : TableMappings) | NotMappings.

Record model_options := mkModelOptions {
  mo_tables : list table_option;
  mo_mappings : mappings_option;
  mo_columns : obj column_option;
  mo_keyspace : option jsstr }.

Definition parse_table (t : table_option) : result (jsstr * bool) :=
  let '(name, isView) :=
    match t with TableText name => (Some name, false) | TableObject name isView => (name, isView) | NoTable => (None, false) end in
  match name with Some (c :: s) => Ok (c :: s, isView) | _ => Throw PlainError end.

Definition createDefault (modelName currentKeyspace : jsstr) : ModelMappingInfo :=
  ModelMappingInfo_new currentKeyspace [(modelName, false)] DefaultTableMappings [].

Definition model_tables (modelName : jsstr) (l : list table_option) : result (list (jsstr * bool)) :=
  match l with [] => Ok [(modelName, false)] | _ => traverse parse_table l end.

Definition parse_columns (l : obj column_option) : result (obj ModelColumnInfo) :=
  traverse (fun kv => c ← ModelColumnInfo_parse kv.1 kv.2; Ok (kv.1, c)) l.

Definition ModelMappingInfo_create (modelName : jsstr) (currentKeyspace : option jsstr) (modelOptions : option model_options)
    : result ModelMappingInfo :=
  if negb (is_text currentKeyspace) && match modelOptions with None => true | Some o => negb (is_text (mo_keyspace o)) end
  then Throw PlainError
  else
    match modelOptions with
    | None => Ok (createDefault modelName (default [] currentKeyspace))
    | Some o =>
        tables ← model_tables modelName (mo_tables o);
        mappings ← match mo_mappings o with
                   | NoMappings => Ok DefaultTableMappings
                   | Mappings m => Ok m
                   | NotMappings => Throw PlainError
                   end;
        columns ← parse_columns (mo_columns o);
        Ok (ModelMappingInfo_new (or_text (mo_keyspace o) (default [] currentKeyspace)) tables mappings columns)
    end.

(** [models] of the options, when they are given. *)
Definition ModelMappingInfo_parse (models : option (obj (option model_options))) (currentKeyspace : option jsstr)
    : result (obj ModelMappingInfo) :=
  traverse (fun kv => i ← ModelMappingInfo_create kv.1 currentKeyspace kv.2; Ok (kv.1, i)) (default [] models).

(** ** [DocInfoAdapter] *)

(** What the generator knows of a property. *)
Record property_info := mkProperty {
  pi_propertyName : jsstr;
  pi_columnName : jsstr;
  pi_value : jsval V;
  pi_fromModel : option user_fn }.

Definition getPropertiesInfo (docKeys : list jsstr) (di : option (docInfo V)) (doc : obj (jsval V)) (i : ModelMappingInfo)
    : list property_info :=
  map (fun p => mkProperty p (getColumnName i p) (prop doc p) (getFromModelFn i p)) (default docKeys (given_fields di)).

Definition toUpperCase (s : jsstr) : jsstr := map upper s.

(** The columns to order by; texts with letters outside of ASCII are not an
    order. *)
Definition adaptOrderBy (di : option (docInfo V)) (i : ModelMappingInfo) : result (list (jsstr * jsstr)) :=
  match from_info orderBy None di with
  | None => Ok []
  | Some o =>
      traverse (fun kv =>
        let ordering := toUpperCase kv.2 in
        if bool_decide (ordering = str "ASC") || bool_decide (ordering = str "DESC")
        then Ok (getColumnName i kv.1, ordering) else Throw ArgumentError) o
  end.

(** The execution options of the user: a text is the name of a profile. *)
Record user_options := mkUserOptions {
  uo_executionProfile : option V;
  uo_fetchSize : option V;
  uo_pageState : option V;
  uo_timestamp : option V;
  uo_logged : option bool;
  uo_isIdempotent : option bool }.
Inductive execution_options := NoOptions | ProfileName (name : V) | Options (o : user_options).

(** The adapted options; [None] is undefined, [prepare] is always true. *)
Record adapted_options := mkAdapted {
  ao_executionProfile : option V;
  ao_fetchSize : option V;
  ao_pageState : option V;
  ao_timestamp : option V;
  ao_logged : option bool;
  ao_isIdempotent : option bool;
  ao_counter : option bool }.

Definition adaptOptions (e : execution_options) (isIdempotent : bool) : adapted_options :=
  match e with
  | NoOptions => mkAdapted None None None None None (Some isIdempotent) None
  | ProfileName n => mkAdapted (Some n) None None None None (Some isIdempotent) None
  | Options o =>
      mkAdapted (uo_executionProfile o) None None (uo_timestamp o) None
        (match uo_isIdempotent o with Some b => Some b | None => Some isIdempotent end) None
  end.

Definition adaptAllOptions (e : execution_options) (overrideIdempotency : bool) : adapted_options :=
  let idempotent o := if overrideIdempotency then Some true else o in
  match e with
  | NoOptions => mkAdapted None None None None None (idempotent None) None
  | ProfileName n => mkAdapted (Some n) None None None None (idempotent None) None
  | Options o =>
      mkAdapted (uo_executionProfile o) (uo_fetchSize o) (uo_pageState o) (uo_timestamp o) None
        (idempotent (uo_isIdempotent o)) None
  end.

Definition adaptBatchOptions (e : execution_options) (isIdempotent : bool) (isCounter : option bool) : adapted_options :=
  match e with
  | NoOptions => mkAdapted None None None None None (Some isIdempotent) isCounter
  | ProfileName n => mkAdapted (Some n) None None None None (Some isIdempotent) isCounter
  | Options o =>
      mkAdapted (uo_executionProfile o) None None (uo_timestamp o)
        (Some (match uo_logged o with Some false => false | _ => true end))
        (match uo_isIdempotent o with Some b => Some b | None => Some isIdempotent end) isCounter
  end.
End info.
Arguments ModelColumnInfo : clear implicits.
Arguments ModelMappingInfo : clear implicits.
Arguments property_info : clear implicits.
Arguments model_options : clear implicits.
Arguments column_option : clear implicits.
