(* ===== verification/QueryGenerator.v ===== *)
(** [lib/mapping/query-generator.js]: the CQL text of an operation and the
    function that takes its parameters from the document.

    The function is the value of a generated script that returns an array.  The
    script is modelled by its tokens; a name of a property stands between quotes
    and so has no quote, backslash or line break. *)
From S2P Require Import Prelude.
From S2P Require Import JsNum.
From S2P Require Import JsStr.
From S2P Require Import Utils.
From S2P Require Import Mapping.
From S2P Require Import MappingInfo.

Section generator.
Context {V : Type}.

(** The metadata of a table. *)
Record column := mkColumn { col_name : jsstr; col_code : Z; col_isStatic : bool }.
Record TableMetadata := mkTable {
  table_name : jsstr;
  partitionKeys : list column;
  clusteringKeys : list column;
  columns : list column;
  columnsByName : obj column }.

(** [dataTypes.list] and [dataTypes.counter]. *)
Definition code_list : Z := 32.
Definition code_counter : Z := 5.

(** ** Scripts *)

(** [doc['p']], [docInfo.when['p']], [docInfo['limit']], [docInfo['ttl']],
    [e.value], [e.value[i]], the call of the property's mapping function, and
    [e.map(v => ...)] with it. *)
Inductive expr :=
  | DocProp (p : jsstr)
  | WhenProp (p : jsstr)
  | InfoLimit
  | InfoTtl
  | DotValue (e : expr)
  | DotChild (e : expr) (second : bool)
  | MappingCall (p : jsstr) (e : expr)
  | MapCall (p : jsstr) (e : expr).

Inductive token := Comma | Expr (e : expr).

(** [l.join(", ")] *)
Fixpoint join_scripts (l : list (list token)) : list token :=
  match l with [] => [] | [s] => s | s :: l' => s ++ Comma :: join_scripts l' end.

Fixpoint _valueGetterSingle (prefix : expr) (propName : jsstr) (value : jsval V) (mapped : bool) : list token :=
  match value with
  | Both _ a b =>
      _valueGetterSingle (DotChild prefix false) propName a mapped ++
      Comma :: _valueGetterSingle (DotChild prefix true) propName b mapped
  | Operator _ _ isIn =>
      if isIn && mapped then [Expr (MapCall propName (DotValue prefix))]
      else if mapped then [Expr (MappingCall propName (DotValue prefix))]
      else [Expr (DotValue prefix)]
  | _ => if mapped then [Expr (MappingCall propName prefix)] else [Expr prefix]
  end.

Definition is_mapped (p : property_info V) : bool := match pi_fromModel p with Some _ => true | None => false end.

Definition _valueGetterExpression (propertiesInfo : list (property_info V)) (objectName : jsstr -> expr) : list token :=
  join_scripts (map (fun p =>
    _valueGetterSingle (objectName (pi_propertyName p)) (pi_propertyName p) (pi_value p) (is_mapped p)) propertiesInfo).

Definition _assignmentGetterExpression (propertiesInfo : list (property_info V)) : list token :=
  join_scripts (map (fun p =>
    let valueGetter := if is_assignment (pi_value p) then DotValue (DocProp (pi_propertyName p)) else DocProp (pi_propertyName p) in
    [Expr (if is_mapped p then MappingCall (pi_propertyName p) valueGetter else valueGetter)]) propertiesInfo).

(** The elements of [[script]]: nothing between two commas, or before the first,
    is a hole; a comma at the end adds nothing. *)
Fixpoint array_literal (script : list token) : list (option expr) :=
  match script with
  | [] => []
  | Comma :: s => None :: array_literal s
  | Expr e :: Comma :: s => Some e :: array_literal s
  | Expr e :: s => Some e :: array_literal s
  end.

(** Evaluation of the script.  A document whose values are not of the kinds the
    script was generated for is [Unmodelled]. *)
Section eval.
Context (doc : obj (jsval V)) (di : option (docInfo V)) (i : ModelMappingInfo V) (number : Z -> V).

Fixpoint eval (e : expr) : result (jsval V) :=
  match e with
  | DocProp p => Ok (prop doc p)
  | WhenProp p =>
      match from_info di_when None di with Some w => Ok (prop w p) | None => Throw TypeError end
  | InfoLimit =>
      match di with None => Throw TypeError | Some d => Ok (match limit d with Some n => Value (number n) | None => Undefined end) end
  | InfoTtl =>
      match di with None => Throw TypeError | Some d => Ok (match ttl d with Some n => Value (number n) | None => Undefined end) end
  | DotValue e =>
      v ← eval e;
      match v with
      | Operator _ w _ | Assignment _ w _ => Ok w
      | Both _ a b => Ok (Array [a; b])
      | Undefined => Throw TypeError
      | Value _ | Array _ => Throw Unmodelled
      end
  | DotChild e second =>
      v ← eval e;
      match v with
      | Both _ a b => Ok (if second then b else a)
      | Undefined => Throw TypeError
      | _ => Throw Unmodelled
      end
  | MappingCall p e =>
      v ← eval e;
      match getFromModelFn i p with Some f => Ok (f v) | None => Throw TypeError end
  | MapCall p e =>
      v ← eval e;
      match v, getFromModelFn i p with
      | Array [], _ => Ok (Array [])
      | Array l, Some f => Ok (Array (map f l))
      | Array _, None => Throw TypeError
      | Undefined, _ => Throw TypeError
      | _, _ => Throw Unmodelled
      end
  end.

Definition run_script (script : list token) : result (list (jsval V)) :=
  traverse (fun e => match e with Some e => eval e | None => Ok Undefined end) (array_literal script).
End eval.

(** ** Queries *)

(** The name between double quotes. *)
Definition quoted (name : jsstr) : jsstr := chr 34 :: name ++ [chr 34].
Definition comma_space : jsstr := str ", ".
Definition and_ : jsstr := str " AND ".

Fixpoint _getSingleCondition (columnName : jsstr) (value : jsval V) : jsstr :=
  match value with
  | Both key a b => _getSingleCondition columnName a ++ str " " ++ key ++ str " " ++ _getSingleCondition columnName b
  | Operator key _ _ => quoted columnName ++ str " " ++ key ++ str " ?"
  | _ => quoted columnName ++ str " = ?"
  end.

Definition _getConditionWithOperators (propertiesInfo : list (property_info V)) : jsstr :=
  join and_ (map (fun p => _getSingleCondition (pi_columnName p) (pi_value p)) propertiesInfo).

Definition is_some {A} (o : option A) : bool := match o with Some _ => true | None => false end.

Definition names (l : list (property_info V)) : jsstr := join comma_space (map (fun p => quoted (pi_columnName p)) l).

Definition getSelect (tableName keyspace : jsstr) (propertiesInfo fieldsInfo : list (property_info V))
    (orderByColumns : list (jsstr * jsstr)) (limit : option Z) : jsstr :=
  str "SELECT " ++ match fieldsInfo with [] => str "*" | _ => names fieldsInfo end ++
  str " FROM " ++ keyspace ++ str "." ++ tableName ++
  match propertiesInfo with [] => [] | _ => str " WHERE " ++ _getConditionWithOperators propertiesInfo end ++
  match orderByColumns with
  | [] => []
  | _ => str " ORDER BY " ++ join comma_space (map (fun o => quoted o.1 ++ str " " ++ o.2) orderByColumns)
  end ++
  if is_some limit then str " LIMIT ?" else [].

Definition selectParamsGetter (propertiesInfo : list (property_info V)) (limit : option Z) : list token :=
  _valueGetterExpression propertiesInfo DocProp ++
  if is_some limit then match propertiesInfo with [] => [] | _ => [Comma] end ++ [Expr InfoLimit] else [].

(** A query with its parameters' script, [isIdempotent] and [isCounter]. *)
Record query_info := mkQuery {
  query : jsstr;
  paramsGetter : list token;
  isIdempotent : bool;
  isCounter : option bool }.

Definition column_of (table : TableMetadata) (p : property_info V) : option column :=
  obj_get (columnsByName table) (pi_columnName p).

(** Not all columns are contained in the table. *)
Definition in_table (table : TableMetadata) (p : property_info V) : bool := is_some (column_of table p).

Definition _getInsertQuery (tableName keyspace : jsstr) (propertiesInfo : list (property_info V)) (ifNotExists : bool)
    (ttl : option Z) : jsstr :=
  str "INSERT INTO " ++ keyspace ++ str "." ++ tableName ++ str " (" ++ names propertiesInfo ++ str ") VALUES (" ++
  join comma_space (map (fun _ => str "?") propertiesInfo) ++ str ")" ++
  (if ifNotExists then str " IF NOT EXISTS" else []) ++ if is_some ttl then str " USING TTL ?" else [].

Definition _insertParamsGetter (propertiesInfo : list (property_info V)) (ttl : option Z) : list token :=
  _valueGetterExpression propertiesInfo DocProp ++ if is_some ttl then [Comma; Expr InfoTtl] else [].

Definition getInsert (table : TableMetadata) (keyspace : jsstr) (propertiesInfo : list (property_info V))
    (di : option (docInfo V)) (ifNotExists : bool) : query_info :=
  let filteredPropertiesInfo := filter (fun p => in_table table p = true) propertiesInfo in
  let ttl := from_info ttl None di in
  mkQuery (_getInsertQuery (table_name table) keyspace filteredPropertiesInfo ifNotExists ttl)
    (_insertParamsGetter filteredPropertiesInfo ttl) (negb ifNotExists) None.

(** The set of names [primaryKeys]. *)
Definition primaryKeys (table : TableMetadata) : list jsstr := map col_name (partitionKeys table ++ clusteringKeys table).
Definition is_primary (table : TableMetadata) (p : property_info V) : bool :=
  bool_decide (pi_columnName p ∈ primaryKeys table).

Definition set_clause (p : property_info V) : jsstr :=
  let name := quoted (pi_columnName p) in
  match pi_value p with
  | Assignment sign _ true => name ++ str " = ? " ++ sign ++ str " " ++ name
  | Assignment sign _ false => name ++ str " = " ++ name ++ str " " ++ sign ++ str " ?"
  | _ => name ++ str " = ?"
  end.

Definition key_clauses (l : list (property_info V)) : jsstr :=
  join and_ (map (fun p => quoted (pi_columnName p) ++ str " = ?") l).

Definition if_clause (ifExists : bool) (when : list (property_info V)) : jsstr :=
  if ifExists then str " IF EXISTS"
  else match when with [] => [] | _ => str " IF " ++ _getConditionWithOperators when end.

(** The properties of the SET and of the WHERE clause. *)
Definition to_set (table : TableMetadata) (l : list (property_info V)) := filter (fun p => is_primary table p = false) l.
Definition keys_of (table : TableMetadata) (l : list (property_info V)) := filter (fun p => is_primary table p = true) l.

Definition _getUpdateQuery (table : TableMetadata) (keyspace : jsstr) (propertiesInfo when : list (property_info V))
    (ifExists : bool) (ttl : option Z) : jsstr :=
  str "UPDATE " ++ keyspace ++ str "." ++ table_name table ++ str " " ++
  (if is_some ttl then str "USING TTL ? " else []) ++ str "SET " ++
  join comma_space (map set_clause (to_set table propertiesInfo)) ++ str " WHERE " ++
  key_clauses (keys_of table propertiesInfo) ++ if_clause ifExists when.

Definition when_script (when : list (property_info V)) : list token :=
  match when with [] => [] | _ => Comma :: _valueGetterExpression when WhenProp end.

Definition _updateParamsGetter (table : TableMetadata) (propertiesInfo when : list (property_info V)) (ttl : option Z) : list token :=
  (if is_some ttl then [Expr InfoTtl; Comma] else []) ++
  _assignmentGetterExpression (to_set table propertiesInfo) ++ [Comma] ++
  _valueGetterExpression (keys_of table propertiesInfo) DocProp ++ when_script when.

Definition list_assignment (table : TableMetadata) (p : property_info V) : bool :=
  match column_of table p with Some c => (col_code c =? code_list) && is_assignment (pi_value p) | None => false end.
Definition on_counter (table : TableMetadata) (p : property_info V) : bool :=
  match column_of table p with Some c => (col_code c =? code_counter) | None => false end.

(** An empty [when] stands for no condition. *)
Definition getUpdate (table : TableMetadata) (keyspace : jsstr) (propertiesInfo : list (property_info V))
    (di : option (docInfo V)) (when : list (property_info V)) (ifExists : bool) : query_info :=
  let ttl := from_info ttl None di in
  let filteredPropertiesInfo := filter (fun p => in_table table p = true) propertiesInfo in
  let idempotent := forallb (fun p => negb (list_assignment table p || on_counter table p)) propertiesInfo in
  let counter := existsb (on_counter table) propertiesInfo in
  mkQuery (_getUpdateQuery table keyspace filteredPropertiesInfo when ifExists ttl)
    (_updateParamsGetter table filteredPropertiesInfo when ttl)
    (idempotent && match when with [] => true | _ => false end && negb ifExists) (Some counter).

Definition _getDeleteQuery (table : TableMetadata) (keyspace : jsstr) (propertiesInfo when : list (property_info V))
    (ifExists deleteOnlyColumns : bool) : jsstr :=
  let columnsToDelete := names (to_set table propertiesInfo) in
  str "DELETE" ++
  (if deleteOnlyColumns then match columnsToDelete with [] => [] | _ => str " " ++ columnsToDelete end else []) ++
  str " FROM " ++ keyspace ++ str "." ++ table_name table ++ str " WHERE " ++
  key_clauses (keys_of table propertiesInfo) ++ if_clause ifExists when.

Definition _deleteParamsGetter (table : TableMetadata) (propertiesInfo when : list (property_info V)) : list token :=
  _valueGetterExpression (keys_of table propertiesInfo) DocProp ++ when_script when.

Definition getDelete (table : TableMetadata) (keyspace : jsstr) (propertiesInfo : list (property_info V))
    (di : option (docInfo V)) (when : list (property_info V)) (ifExists : bool) : query_info :=
  let filteredPropertiesInfo := filter (fun p => in_table table p = true) propertiesInfo in
  mkQuery (_getDeleteQuery table keyspace filteredPropertiesInfo when ifExists (from_info deleteOnlyColumns false di))
    (_deleteParamsGetter table filteredPropertiesInfo when)
    (match when with [] => negb ifExists | _ => false end) None.
End generator.

(** A counter update with a condition. *)
Example getUpdate_ex :
  let c n := mkColumn (str n) 9 false in
  let table := mkTable (str "t") [c "id"%string] [] [c "id"%string; c "v"%string] [(str "id", c "id"%string); (str "v", c "v"%string)] in
  let p n v := mkProperty (str n) (str n) v None in
  let q := getUpdate table (str "ks") [p "id"%string (Value 1); p "v"%string (q_incr (Value 2)); p "other"%string (Value 3)] None [p "w"%string (q_gt (Value 4))] false in
  query q = map (fun c => if decide (c = "'"%char) then chr 34 else c)
    (str "UPDATE ks.t SET 'v' = 'v' + ? WHERE 'id' = ? IF 'w' > ?") /\
  paramsGetter q = [Expr (DotValue (DocProp (str "v"))); Comma; Expr (DocProp (str "id")); Comma; Expr (DotValue (WhenProp (str "w")))] /\
  isIdempotent q = false.
Proof. vm_compute. auto. Qed.
