(* ===== verification/ObjectSelector.v ===== *)
(** [lib/mapping/object-selector.js]: the tables and views of a model that an
    operation uses.  The metadata of the server's tables is a parameter: [None]
    is a table that could not be retrieved. *)
From S2P Require Import Prelude.
From S2P Require Import JsNum.
From S2P Require Import JsStr.
From S2P Require Import Utils.
From S2P Require Import Mapping.
From S2P Require Import MappingInfo.
From S2P Require Import QueryGenerator.

(** [client.metadata] *)
Class MetadataClient := {
  getTable : jsstr -> jsstr -> option TableMetadata;
  getMaterializedView : jsstr -> jsstr -> option TableMetadata }.

Section selector.
Context {V : Type} `{MetadataClient}.
Implicit Types (propertiesInfo fieldsInfo when : list (property_info V)).

Inductive keyMatches := MatchAll | MatchNone | MatchSome.
#[export] Instance keyMatches_eq_dec : EqDecision keyMatches.
Proof. solve_decision. Defined.

Definition keysAreIncluded (keys : list column) propertiesInfo : keyMatches :=
  match keys with
  | [] => MatchAll
  | _ =>
      let matches := length (filter (fun p => existsb (fun k => bool_decide (pi_columnName p = col_name k)) keys = true) propertiesInfo) in
      if (matches =? 0)%nat then MatchNone else if (matches =? length keys)%nat then MatchAll else MatchSome
  end.

Definition staticColumnCount (table : TableMetadata) : nat := length (filter (fun c => col_isStatic c = true) (columns table)).
Definition hasStaticColumn (table : TableMetadata) : bool := (0 <? staticColumnCount table)%nat.

(** All the properties are columns of the table. *)
Definition all_in_table (table : TableMetadata) propertiesInfo : bool := forallb (in_table table) propertiesInfo.

(** The columns to order by are the first clustering keys. *)
Fixpoint order_matches (clusteringKeys : list column) (orderByColumns : list (jsstr * jsstr)) : bool :=
  match orderByColumns, clusteringKeys with
  | [], _ => true
  | _ :: _, [] => false
  | o :: os, k :: ks => bool_decide (col_name k = o.1) && order_matches ks os
  end.

(** The loop body of [getForSelect] that does not go on. *)
Definition selectable (allPKsDefined : bool) propertiesInfo fieldsInfo (orderByColumns : list (jsstr * jsstr))
    (table : TableMetadata) : bool :=
  bool_decide (keysAreIncluded (partitionKeys table) propertiesInfo = MatchAll) &&
  (negb allPKsDefined || bool_decide (keysAreIncluded (clusteringKeys table) propertiesInfo = MatchAll)) &&
  ((length propertiesInfo <=? length (partitionKeys table))%nat || forallb (is_primary table) propertiesInfo) &&
  all_in_table table fieldsInfo && order_matches (clusteringKeys table) orderByColumns.

Fixpoint first_table (f : TableMetadata -> bool) (tables : list (option TableMetadata)) : result jsstr :=
  match tables with
  | [] => Throw PlainError
  | None :: _ => Throw PlainError
  | Some t :: tables' => if f t then Ok (table_name t) else first_table f tables'
  end.

Definition getForSelect (info : ModelMappingInfo V) (allPKsDefined : bool) propertiesInfo fieldsInfo
    (orderByColumns : list (jsstr * jsstr)) : result jsstr :=
  first_table (selectable allPKsDefined propertiesInfo fieldsInfo orderByColumns)
    (map (fun t : jsstr * bool => if t.2 then getMaterializedView (mi_keyspace info) t.1 else getTable (mi_keyspace info) t.1) (mi_tables info)).

(** [info.tables[0].name]: a model has a table. *)
Definition getForSelectAll (info : ModelMappingInfo V) : result jsstr :=
  match mi_tables info with t :: _ => Ok t.1 | [] => Throw TypeError end.

(** The tables that are no views and that [f] accepts; none is an error. *)
Fixpoint filter_tables (f : TableMetadata -> bool) (tables : list (option TableMetadata)) : result (list TableMetadata) :=
  match tables with
  | [] => Ok []
  | None :: _ => Throw PlainError
  | Some t :: tables' => ts ← filter_tables f tables'; Ok (if f t then t :: ts else ts)
  end.

Definition tables_for (f : TableMetadata -> bool) (info : ModelMappingInfo V) : result (list TableMetadata) :=
  let tables := filter (fun t : jsstr * bool => t.2 = false) (mi_tables info) in
  ts ← filter_tables f (map (fun t : jsstr * bool => getTable (mi_keyspace info) t.1) tables);
  match ts with [] => Throw PlainError | _ => Ok ts end.

Definition insertable propertiesInfo (table : TableMetadata) : bool :=
  if negb (bool_decide (keysAreIncluded (partitionKeys table) propertiesInfo = MatchAll)) then false
  else
    match keysAreIncluded (clusteringKeys table) propertiesInfo with
    | MatchAll => true
    | MatchSome => false
    | MatchNone =>
        let staticColumns := staticColumnCount table in
        (length propertiesInfo =? length (partitionKeys table) + staticColumns)%nat && (0 <? staticColumns)%nat
    end.

Definition getForInsert (info : ModelMappingInfo V) propertiesInfo : result (list TableMetadata) :=
  tables_for (insertable propertiesInfo) info.

Definition updatable propertiesInfo when (table : TableMetadata) : bool :=
  if negb (bool_decide (keysAreIncluded (partitionKeys table) propertiesInfo = MatchAll)) then false
  else
    match keysAreIncluded (clusteringKeys table) propertiesInfo with
    | MatchSome => false
    | m =>
        if bool_decide (m = MatchNone) && negb (hasStaticColumn table) then false
        else
          let applicableColumns := length (filter (fun p => in_table table p = true) propertiesInfo) in
          if (applicableColumns <=? length (partitionKeys table) + length (clusteringKeys table))%nat &&
             (negb (hasStaticColumn table) || (applicableColumns <=? length (partitionKeys table))%nat)
          then false
          else all_in_table table when
    end.

Definition getForUpdate (info : ModelMappingInfo V) propertiesInfo when : result (list TableMetadata) :=
  tables_for (updatable propertiesInfo when) info.

Definition deletable propertiesInfo when (table : TableMetadata) : bool :=
  forallb (fun k => bool_decide (k ∈ map pi_columnName propertiesInfo)) (primaryKeys table) && all_in_table table when.

Definition getForDelete (info : ModelMappingInfo V) propertiesInfo when : result (list TableMetadata) :=
  tables_for (deletable propertiesInfo when) info.
End selector.
