(* ===== verification/MappingHandler.v ===== *)
(** [lib/mapping/mapping-handler.js] and [model-batch-item.js]: the executors of
    the operations of a model, and their caches.

    What an executor sends is a value; that the client is connected and answers
    is not modelled.  The creation of an executor waits for the metadata, so a
    cache is a step machine: an executor is asked for, and the creation that was
    begun for it finishes, in any order. *)
From S2P Require Import Prelude.
From S2P Require Import JsNum.
From S2P Require Import JsStr.
From S2P Require Import Utils.
From S2P Require Import MappingTree.
From S2P Require Import Mapping.
From S2P Require Import MappingInfo.
From S2P Require Import QueryGenerator.
From S2P Require Import ObjectSelector.

(** ** Queries of an operation *)

Section handler.
Context {V : Type} `{MetadataClient} (info : ModelMappingInfo V).

Definition when_info (di : option (docInfo V)) : list (property_info V) :=
  match from_info di_when None di with
  | Some w => getPropertiesInfo (map fst w) None w info
  | None => []
  end.

Definition is_nil {A} (l : list A) : bool := match l with [] => true | _ => false end.

Definition createInsertQueries (docKeys : list jsstr) (doc : obj (jsval V)) (di : option (docInfo V)) : result (list query_info) :=
  let propertiesInfo := getPropertiesInfo docKeys di doc info in
  let ifNotExists := from_info ifNotExists false di in
  tables ← getForInsert info propertiesInfo;
  if (1 <? length tables)%nat && ifNotExists then Throw PlainError
  else Ok (map (fun table => getInsert table (mi_keyspace info) propertiesInfo di ifNotExists) tables).

Definition createUpdateQueries (docKeys : list jsstr) (doc : obj (jsval V)) (di : option (docInfo V)) : result (list query_info) :=
  let propertiesInfo := getPropertiesInfo docKeys di doc info in
  let ifExists := from_info ifExists false di in
  let when := when_info di in
  if negb (is_nil when) && ifExists then Throw PlainError
  else
    tables ← getForUpdate info propertiesInfo when;
    if (1 <? length tables)%nat && (negb (is_nil when) || ifExists) then Throw PlainError
    else Ok (map (fun table => getUpdate table (mi_keyspace info) propertiesInfo di when ifExists) tables).

Definition createDeleteQueries (docKeys : list jsstr) (doc : obj (jsval V)) (di : option (docInfo V)) : result (list query_info) :=
  let propertiesInfo := getPropertiesInfo docKeys di doc info in
  let ifExists := from_info ifExists false di in
  let when := when_info di in
  if negb (is_nil when) && ifExists then Throw PlainError
  else
    tables ← getForDelete info propertiesInfo when;
    if (1 <? length tables)%nat && (negb (is_nil when) || ifExists) then Throw PlainError
    else Ok (map (fun table => getDelete table (mi_keyspace info) propertiesInfo di when ifExists) tables).

(** The query and the script of [getSelectExecutor]; selects are idempotent. *)
Definition createSelect (docKeys : list jsstr) (doc : obj (jsval V)) (di : option (docInfo V)) (allPKsDefined : bool)
    : result query_info :=
  let propertiesInfo := getPropertiesInfo docKeys None doc info in
  let fieldsInfo := getPropertiesInfo [] di doc info in
  orderByColumns ← adaptOrderBy di info;
  let limit := from_info limit None di in
  tableName ← getForSelect info allPKsDefined propertiesInfo fieldsInfo orderByColumns;
  Ok (mkQuery (getSelect tableName (mi_keyspace info) propertiesInfo fieldsInfo orderByColumns limit)
        (selectParamsGetter propertiesInfo limit) true None).

(** [getSelectAllExecutor] *)
Definition createSelectAll (di : option (docInfo V)) : result query_info :=
  let fieldsInfo := getPropertiesInfo [] di [] info in
  orderByColumns ← adaptOrderBy di info;
  let limit := from_info limit None di in
  tableName ← getForSelectAll info;
  Ok (mkQuery (getSelect tableName (mi_keyspace info) [] fieldsInfo orderByColumns limit)
        (selectParamsGetter (V := V) [] limit) true None).

(** ** Executors *)

(** The request that the client is given. *)
Inductive client_call :=
  | Execute (query : jsstr) (params : list (jsval V)) (options : @adapted_options V)
  | Batch (queries : list (jsstr * list (jsval V))) (options : @adapted_options V).

Context (number : Z -> V).

Definition query_and_params (doc : obj (jsval V)) (di : option (docInfo V)) (q : query_info) : result (jsstr * list (jsval V)) :=
  params ← run_script doc di info number (paramsGetter q); Ok (query q, params).

(** [_setSingleExecutor] for one query, [_setBatchExecutor] for more. *)
Definition run_executor (queries : list query_info) (doc : obj (jsval V)) (di : option (docInfo V))
    (executionOptions : @execution_options V) : result client_call :=
  match queries with
  | [q] =>
      qp ← query_and_params doc di q;
      Ok (Execute qp.1 qp.2 (adaptOptions executionOptions (isIdempotent q)))
  | _ =>
      qps ← traverse (query_and_params doc di) queries;
      Ok (Batch qps (adaptOptions executionOptions (forallb isIdempotent queries)))
  end.

(** [_executeSelect] *)
Definition _executeSelect (q : query_info) (doc : obj (jsval V)) (di : option (docInfo V))
    (executionOptions : @execution_options V) : result client_call :=
  qp ← query_and_params doc di q;
  Ok (Execute qp.1 qp.2 (adaptAllOptions executionOptions true)).
End handler.

(** ** Caches *)

(** A cached operation: the keys of the document, the key of the cache and what
    is created for a request. *)
Class CachedOperation (Req Q : Type) := {
  op_docKeys : Req -> list jsstr;
  op_key : Req -> list key_item;
  op_create : Req -> result Q }.

Section cache.
Context {Req Q : Type} `{CachedOperation Req Q}.

(** The tree, whose values are references to the items [{executor}], the items,
    the creations that have not finished, and the promises that were settled.
    [dropped] has the requests that failed at once. *)
Record executor_cache := mkCache {
  ec_tree : Tree key_item nat;
  ec_items : list (option Q);
  ec_pending : list (Req * nat);
  ec_answers : list (Req * result Q) }.

Definition executor_cache_new : executor_cache := mkCache Tree_new [] [] [].

Definition settle_request (c : executor_cache) (r : Req) (a : result Q) : executor_cache :=
  mkCache (ec_tree c) (ec_items c) (ec_pending c) (ec_answers c ++ [(r, a)]).

(** The item under the key, a new one if there is none; [None] is null. *)
Definition get_item (c : executor_cache) (key : list key_item) : option nat * executor_cache :=
  let new := length (ec_items c) in
  let '(item, tree) := getOrCreate (ec_tree c) key new in
  (item, mkCache tree (if bool_decide (item = Some new) then ec_items c ++ [None] else ec_items c) (ec_pending c) (ec_answers c)).

Inductive cache_event :=
  | Request (r : Req)
  | Created (j : nat).

(** [getInsertExecutor], [getUpdateExecutor], [getDeleteExecutor] and
    [getSelectExecutor], until they wait for the metadata and after it; [None]
    is an event that cannot happen. *)
Definition cache_step (c : executor_cache) (ev : cache_event) : option executor_cache :=
  match ev with
  | Request r =>
      match op_docKeys r with
      | [] => Some (settle_request c r (Throw PlainError))
      | _ =>
          let '(item, c) := get_item c (op_key r) in
          match item with
          | None => Some (settle_request c r (Throw TypeError))
          | Some i =>
              match ec_items c !! i with
              | Some (Some q) => Some (settle_request c r (Ok q))
              | _ => Some (mkCache (ec_tree c) (ec_items c) (ec_pending c ++ [(r, i)]) (ec_answers c))
              end
          end
      end
  | Created j =>
      match ec_pending c !! j with
      | None => None
      | Some (r, i) =>
          let c := mkCache (ec_tree c) (ec_items c) (delete j (ec_pending c)) (ec_answers c) in
          match op_create r with
          | Ok q => Some (settle_request (mkCache (ec_tree c) (<[i := Some q]> (ec_items c)) (ec_pending c) (ec_answers c)) r (Ok q))
          | Throw e => Some (settle_request c r (Throw e))
          end
      end
  end.

Fixpoint cache_run (c : executor_cache) (evs : list cache_event) : option executor_cache :=
  match evs with
  | [] => Some c
  | ev :: evs' => match cache_step c ev with Some c => cache_run c evs' | None => None end
  end.
End cache.
Arguments executor_cache : clear implicits.
Arguments cache_event : clear implicits.

Section operations.
Context {V : Type} `{MetadataClient} (info : ModelMappingInfo V).

(** A document and its options, and for a select [allPKsDefined]. *)
Definition mutation : Type := obj (jsval V) * option (docInfo V).
Definition selection : Type := mutation * bool.

Definition insert_operation : CachedOperation mutation (list query_info) := {|
  op_docKeys := fun r => map fst r.1;
  op_key := fun r => getInsertKey (map fst r.1) r.2;
  op_create := fun r => createInsertQueries info (map fst r.1) r.1 r.2 |}.

Definition update_operation : CachedOperation mutation (list query_info) := {|
  op_docKeys := fun r => map fst r.1;
  op_key := fun r => getUpdateKey (map fst r.1) r.1 r.2;
  op_create := fun r => createUpdateQueries info (map fst r.1) r.1 r.2 |}.

Definition remove_operation : CachedOperation mutation (list query_info) := {|
  op_docKeys := fun r => map fst r.1;
  op_key := fun r => getRemoveKey (map fst r.1) r.1 r.2;
  op_create := fun r => createDeleteQueries info (map fst r.1) r.1 r.2 |}.

Definition select_operation : CachedOperation selection query_info := {|
  op_docKeys := fun r => map fst r.1.1;
  op_key := fun r => getSelectKey (map fst r.1.1) r.1.1 r.1.2;
  op_create := fun r => createSelect info (map fst r.1.1) r.1.1 r.1.2 r.2 |}.

(** ** [ModelBatchMapper] *)

Inductive batch_item := InsertItem (m : mutation) | UpdateItem (m : mutation) | RemoveItem (m : mutation).

Definition getCacheKey (b : batch_item) : list key_item :=
  match b with
  | InsertItem (doc, di) => getInsertKey (map fst doc) di
  | UpdateItem (doc, di) => getUpdateKey (map fst doc) doc di
  | RemoveItem (doc, di) => getRemoveKey (map fst doc) doc di
  end.

(** Both conditions are an error that is thrown at once; other errors reject
    the promise. *)
Definition throws_at_once (b : batch_item) : bool :=
  match b with
  | InsertItem _ => false
  | UpdateItem (_, di) | RemoveItem (_, di) => negb (is_nil (when_info info di)) && from_info ifExists false di
  end.

Definition createQueries (b : batch_item) : result (list query_info) :=
  match b with
  | InsertItem (doc, di) => createInsertQueries info (map fst doc) doc di
  | UpdateItem (doc, di) => createUpdateQueries info (map fst doc) doc di
  | RemoveItem (doc, di) => createDeleteQueries info (map fst doc) doc di
  end.

(** A tree and its items [{queries}]: null or the promise of the queries. *)
Record batch_cache := mkBatchCache { bc_tree : Tree key_item nat; bc_items : list (option (result (list query_info))) }.

(** The cache that [insert], [update] and [remove] give to their items:
    [remove] gives that of [update]. *)
Record ModelBatchMapper := mkBatchMapper { bm_insert : batch_cache; bm_update : batch_cache; bm_remove : batch_cache }.

Definition ModelBatchMapper_new : ModelBatchMapper :=
  let c := mkBatchCache Tree_new [] in mkBatchMapper c c c.

Definition item_cache (m : ModelBatchMapper) (b : batch_item) : batch_cache :=
  match b with InsertItem _ => bm_insert m | UpdateItem _ | RemoveItem _ => bm_update m end.

Definition with_cache (m : ModelBatchMapper) (b : batch_item) (c : batch_cache) : ModelBatchMapper :=
  match b with
  | InsertItem _ => mkBatchMapper c (bm_update m) (bm_remove m)
  | UpdateItem _ | RemoveItem _ => mkBatchMapper (bm_insert m) c (bm_remove m)
  end.

(** [ModelBatchItem.getQueries] *)
Definition getQueries (m : ModelBatchMapper) (b : batch_item) : result (list query_info) * ModelBatchMapper :=
  let c := item_cache m b in
  let new := length (bc_items c) in
  let '(item, tree) := getOrCreate (bc_tree c) (getCacheKey b) new in
  match item with
  | None => (Throw TypeError, with_cache m b (mkBatchCache tree (bc_items c)))
  | Some i =>
      let items := if bool_decide (i = new) then bc_items c ++ [None] else bc_items c in
      match items !! i with
      | Some (Some qs) => (qs, with_cache m b (mkBatchCache tree items))
      | _ =>
          let qs := createQueries b in
          (qs, with_cache m b (mkBatchCache tree (if throws_at_once b then items else <[i := Some qs]> items)))
      end
  end.

(** [pushQueries]: the queries with their parameters, and the options. *)
Definition pushQueries (number : Z -> V) (m : ModelBatchMapper) (b : batch_item)
    : result (list (jsstr * list (jsval V)) * bool * option bool) * ModelBatchMapper :=
  let '(qs, m) := getQueries m b in
  let '(doc, di) := match b with InsertItem r | UpdateItem r | RemoveItem r => r end in
  (qs ← qs; l ← traverse (query_and_params info number doc di) qs;
   Ok (l, forallb isIdempotent qs, foldl (fun _ q => isCounter q) None qs), m).
End operations.
