(* ===== verification/ObjectSelectorTheorems.v ===== *)
(** The tables that the mapper selects are those whose keys the document gives. *)
From S2P Require Import Prelude.
From S2P Require Import JsNum.
From S2P Require Import JsStr.
From S2P Require Import Utils.
From S2P Require Import Mapping.
From S2P Require Import MappingInfo.
From S2P Require Import QueryGenerator.
From S2P Require Import ObjectSelector.

Section keys.
Context {V : Type}.
Implicit Types (l fieldsInfo when : list (property_info V)).

(** The columns of the properties, and the names of keys. *)
Definition cols l : list jsstr := map pi_columnName l.
Definition key_names (keys : list column) : list jsstr := map col_name keys.

Lemma matched_bool (keys : list column) (p : property_info V) :
  existsb (fun k => bool_decide (pi_columnName p = col_name k)) keys = true <-> pi_columnName p ∈ key_names keys.
Proof.
  rewrite existsb_exists. unfold key_names. rewrite list_elem_of_fmap. split.
  - intros (k & Hin & H%bool_decide_eq_true). exists k. split; [done|]. by apply list_elem_of_In.
  - intros (k & H & Hin). exists k. split; [by apply list_elem_of_In|]. by apply bool_decide_eq_true.
Qed.

(** The columns of the properties that are keys. *)
Lemma matched_cols (keys : list column) l :
  cols (filter (fun p => existsb (fun k => bool_decide (pi_columnName p = col_name k)) keys = true) l) =
  filter (fun c => c ∈ key_names keys) (cols l).
Proof.
  induction l as [|p l IH]; [done|]. unfold cols in *. cbn [map]. rewrite !filter_cons.
  destruct (decide (pi_columnName p ∈ key_names keys)) as [H|H]; case_decide as Hb; rewrite matched_bool in Hb; try done.
  cbn. by rewrite IH.
Qed.

(** For columns without repetitions the count of matches decides. *)
Lemma keysAreIncluded_spec (keys : list column) l :
  NoDup (cols l) -> NoDup (key_names keys) ->
  match keysAreIncluded keys l with
  | MatchAll => key_names keys ⊆ cols l
  | MatchNone => keys <> [] /\ forall c, c ∈ key_names keys -> c ∉ cols l
  | MatchSome => ~ key_names keys ⊆ cols l /\ ~ (forall c, c ∈ key_names keys -> c ∉ cols l)
  end.
Proof.
  intros Hc Hk. unfold keysAreIncluded. destruct keys as [|k keys]; [apply list_subseteq_nil|]. set (ks := k :: keys) in *.
  set (m := filter _ l). assert (Hm : length m = length (filter (fun c => c ∈ key_names ks) (cols l)))
    by (unfold m; rewrite <- matched_cols; unfold cols; by rewrite length_map).
  rewrite Hm. clear m Hm. set (g := filter (fun c => c ∈ key_names ks) (cols l)).
  assert (Hg : forall c, c ∈ g <-> c ∈ key_names ks /\ c ∈ cols l) by (intros c; unfold g; by rewrite list_elem_of_filter).
  assert (Hnd : NoDup g) by by apply NoDup_filter.
  assert (Hlen : length ks = length (key_names ks)) by (unfold key_names; by rewrite length_map).
  destruct (Nat.eqb_spec (length g) 0) as [H0|H0].
  - apply nil_length_inv in H0. split; [done|]. intros c Hin Hin'. assert (Hc' : c ∈ g) by by apply Hg. rewrite H0 in Hc'. by apply not_elem_of_nil in Hc'.
  - destruct (Nat.eqb_spec (length g) (length ks)) as [H1|H1].
    + assert (P : g ≡ₚ key_names ks).
      { apply submseteq_length_Permutation; [apply NoDup_submseteq; [done|]; intros c Hin; by apply Hg|lia]. }
      intros c Hin. rewrite <- P in Hin. by apply Hg.
    + split.
      * intros Hsub. apply H1. rewrite Hlen. apply Permutation_length, NoDup_Permutation; [done..|]. intros c. rewrite Hg. split; [tauto|]. auto.
      * intros Hno. destruct g as [|c g'] eqn:Eg; [done|]. assert (Hin : c ∈ c :: g') by left. apply Hg in Hin as [H2 H3]. by apply (Hno c).
Qed.

Lemma keysAreIncluded_all (keys : list column) l :
  NoDup (cols l) -> NoDup (key_names keys) -> keysAreIncluded keys l = MatchAll <-> key_names keys ⊆ cols l.
Proof.
  intros Hc Hk. pose proof (keysAreIncluded_spec keys l Hc Hk) as S. destruct (keysAreIncluded keys l) eqn:E; [done| |naive_solver].
  split; [done|]. intros Hs. destruct S as [Hne Hno]. destruct keys as [|k keys]; [done|].
  destruct (Hno (col_name k)); [left|apply Hs; left].
Qed.

Lemma all_in_table_spec (table : TableMetadata) l :
  all_in_table table l = true <-> forall c, c ∈ cols l -> is_Some (obj_get (columnsByName table) c).
Proof.
  unfold all_in_table, in_table, column_of. rewrite forallb_forall. unfold cols. setoid_rewrite list_elem_of_fmap. split.
  - intros H c (p & -> & Hp). apply list_elem_of_In in Hp. specialize (H p Hp). by destruct (obj_get _ _).
  - intros H p Hp. destruct (H (pi_columnName p)) as [c ->]; [exists p; split; [done|by apply list_elem_of_In]|done].
Qed.

Lemma order_matches_spec (keys : list column) (o : list (jsstr * jsstr)) :
  order_matches keys o = true <-> map fst o `prefix_of` key_names keys.
Proof.
  revert keys. induction o as [|x o IH]; intros keys; [split; [intros; apply prefix_nil|by destruct keys]|].
  destruct keys as [|k keys]; cbn; [split; [done|]; by intros ?%prefix_nil_not|].
  rewrite andb_true_iff, bool_decide_eq_true, IH. split.
  - intros [-> H]. by apply prefix_cons.
  - intros H. split; [by apply prefix_cons_inv_1 in H|by apply prefix_cons_inv_2 in H].
Qed.

(** What metadata promises of a table: its keys are distinct. *)
Definition distinct_keys (table : TableMetadata) : Prop := NoDup (primaryKeys table).

Lemma distinct_parts (table : TableMetadata) :
  distinct_keys table -> NoDup (key_names (partitionKeys table)) /\ NoDup (key_names (clusteringKeys table)).
Proof. unfold distinct_keys, primaryKeys, key_names. rewrite map_app. intros (H1 & _ & H2)%NoDup_app. done. Qed.

Lemma primaryKeys_elem (table : TableMetadata) c :
  c ∈ primaryKeys table <-> c ∈ key_names (partitionKeys table) \/ c ∈ key_names (clusteringKeys table).
Proof. unfold primaryKeys, key_names. by rewrite map_app, elem_of_app. Qed.

(** A select is for a table whose partition key is given, by nothing but
    primary keys. *)
Definition select_fits (allPKsDefined : bool) l fieldsInfo (orderByColumns : list (jsstr * jsstr)) (table : TableMetadata) : Prop :=
  key_names (partitionKeys table) ⊆ cols l /\ cols l ⊆ primaryKeys table /\
  (allPKsDefined = true -> key_names (clusteringKeys table) ⊆ cols l) /\
  (forall c, c ∈ cols fieldsInfo -> is_Some (obj_get (columnsByName table) c)) /\
  map fst orderByColumns `prefix_of` key_names (clusteringKeys table).

Lemma selectable_spec allPKsDefined l fieldsInfo orderByColumns (table : TableMetadata) :
  NoDup (cols l) -> distinct_keys table ->
  selectable allPKsDefined l fieldsInfo orderByColumns table = true <-> select_fits allPKsDefined l fieldsInfo orderByColumns table.
Proof.
  intros Hc Hd. destruct (distinct_parts table Hd) as [Hp Hk]. unfold selectable, select_fits.
  rewrite !andb_true_iff, !orb_true_iff, negb_true_iff, !bool_decide_eq_true, !keysAreIncluded_all, all_in_table_spec, order_matches_spec, Nat.leb_le by done.
  assert (E : forallb (is_primary table) l = true <-> cols l ⊆ primaryKeys table).
  { rewrite forallb_forall. unfold is_primary, cols. split.
    - intros H c (p & -> & Hin)%list_elem_of_fmap. apply list_elem_of_In in Hin. specialize (H p Hin). by apply bool_decide_eq_true in H.
    - intros H p Hin. apply bool_decide_eq_true. apply H. apply list_elem_of_fmap. exists p. split; [done|]. by apply list_elem_of_In. }
  rewrite E. clear E. split.
  - intros ((((H1 & H2) & H3) & H4) & H5). split_and!; [done| | |done..].
    + destruct H3 as [H3|H3]; [|done]. intros c Hin. apply primaryKeys_elem. left.
      assert (P : key_names (partitionKeys table) ≡ₚ cols l).
      { apply submseteq_length_Permutation; [by apply NoDup_submseteq|]. unfold cols, key_names. by rewrite !length_map. }
      by rewrite P.
    + intros ->. by destruct H2.
  - intros (H1 & H2 & H3 & H4 & H5). split_and!; [done| |by right|done..]. destruct allPKsDefined; [right; auto|by left].
Qed.

(** An insert gives the primary key, or exactly the partition key and the
    static columns. *)
Definition insert_fits l (table : TableMetadata) : Prop :=
  key_names (partitionKeys table) ⊆ cols l /\
  (key_names (clusteringKeys table) ⊆ cols l \/
   (forall c, c ∈ key_names (clusteringKeys table) -> c ∉ cols l) /\
   length l = (length (partitionKeys table) + staticColumnCount table)%nat /\ (0 < staticColumnCount table)%nat).

Lemma insertable_spec l (table : TableMetadata) :
  NoDup (cols l) -> distinct_keys table -> insertable l table = true <-> insert_fits l table.
Proof.
  intros Hc Hd. destruct (distinct_parts table Hd) as [Hp Hk]. unfold insertable, insert_fits.
  rewrite <- (keysAreIncluded_all (partitionKeys table)) by done. case_bool_decide as Ha; cbn [negb]; [|naive_solver].
  pose proof (keysAreIncluded_spec (clusteringKeys table) l Hc Hk) as S.
  pose proof (keysAreIncluded_all (clusteringKeys table) l Hc Hk) as A.
  destruct (keysAreIncluded (clusteringKeys table) l); [naive_solver| |naive_solver].
  rewrite andb_true_iff, Nat.eqb_eq, Nat.ltb_lt. naive_solver.
Qed.

(** An update gives the partition key, all or none of the clustering keys, and
    more columns; none only with static columns. *)
Definition update_fits l when (table : TableMetadata) : Prop :=
  let applicable := length (filter (fun p => in_table table p = true) l) in
  key_names (partitionKeys table) ⊆ cols l /\
  (key_names (clusteringKeys table) ⊆ cols l \/
   (forall c, c ∈ key_names (clusteringKeys table) -> c ∉ cols l) /\ hasStaticColumn table = true) /\
  (length (partitionKeys table) + length (clusteringKeys table) < applicable \/
   hasStaticColumn table = true /\ length (partitionKeys table) < applicable)%nat /\
  (forall c, c ∈ cols when -> is_Some (obj_get (columnsByName table) c)).

Lemma updatable_spec l when (table : TableMetadata) :
  NoDup (cols l) -> distinct_keys table -> updatable l when table = true <-> update_fits l when table.
Proof.
  intros Hc Hd. destruct (distinct_parts table Hd) as [Hp Hk]. unfold updatable, update_fits.
  rewrite <- (keysAreIncluded_all (partitionKeys table)) by done. case_bool_decide as Ha; cbn [negb]; [|naive_solver].
  rewrite <- all_in_table_spec. set (n := length (filter _ l)). set (s := hasStaticColumn table).
  pose proof (keysAreIncluded_spec (clusteringKeys table) l Hc Hk) as S.
  pose proof (keysAreIncluded_all (clusteringKeys table) l Hc Hk) as A.
  assert (T : (if (n <=? length (partitionKeys table) + length (clusteringKeys table))%nat && (negb s || (n <=? length (partitionKeys table))%nat)
    then false else all_in_table table when) = true <->
    (length (partitionKeys table) + length (clusteringKeys table) < n \/ s = true /\ length (partitionKeys table) < n)%nat /\ all_in_table table when = true).
  { destruct (Nat.leb_spec n (length (partitionKeys table) + length (clusteringKeys table))),
      (Nat.leb_spec n (length (partitionKeys table))), s; cbn; naive_solver lia. }
  destruct (keysAreIncluded (clusteringKeys table) l); [| |naive_solver].
  - rewrite bool_decide_eq_false_2 by done. cbn [andb]. rewrite T. naive_solver.
  - rewrite bool_decide_eq_true_2 by done. cbn [andb]. destruct s; cbn [negb]; [rewrite T; naive_solver|]. naive_solver.
Qed.

(** A delete gives the whole primary key. *)
Definition delete_fits l when (table : TableMetadata) : Prop :=
  primaryKeys table ⊆ cols l /\ (forall c, c ∈ cols when -> is_Some (obj_get (columnsByName table) c)).

Lemma deletable_spec l when (table : TableMetadata) : deletable l when table = true <-> delete_fits l when table.
Proof.
  unfold deletable, delete_fits. rewrite andb_true_iff, all_in_table_spec, forallb_forall. split; intros [H ?]; split; try done.
  - intros c Hin. apply list_elem_of_In in Hin. specialize (H c Hin). by apply bool_decide_eq_true in H.
  - intros c Hin. apply bool_decide_eq_true, H. by apply list_elem_of_In.
Qed.

(** ** The selections *)

Context `{MetadataClient} (info : ModelMappingInfo V).

(** The tables of the model that are no views, and all of them, as the metadata
    has them. *)
Definition model_tables_of : list (option TableMetadata) :=
  map (fun t : jsstr * bool => getTable (mi_keyspace info) t.1) (filter (fun t : jsstr * bool => t.2 = false) (mi_tables info)).
Definition model_sources : list (option TableMetadata) :=
  map (fun t : jsstr * bool => if t.2 then getMaterializedView (mi_keyspace info) t.1 else getTable (mi_keyspace info) t.1) (mi_tables info).

Lemma filter_tables_spec (f : TableMetadata -> bool) (ts : list TableMetadata) :
  filter_tables f (map Some ts) = Ok (filter (fun t => f t = true) ts).
Proof.
  induction ts as [|t ts IH]; [done|]. cbn [map filter_tables]. rewrite IH, filter_cons. unfold mbind, result_bind.
  by destruct (f t); [rewrite decide_True|rewrite decide_False].
Qed.

Lemma filter_tables_missing (f : TableMetadata -> bool) ts : None ∈ ts -> filter_tables f ts = Throw PlainError.
Proof.
  induction ts as [|[t|] ts IH]; intros Hin; [by apply not_elem_of_nil in Hin| |done].
  apply elem_of_cons in Hin as [?|Hin]; [done|]. cbn. by rewrite (IH Hin).
Qed.

(** The tables that fit, in the order of the model. *)
Definition selects (fits : TableMetadata -> Prop) (r : result (list TableMetadata)) : Prop :=
  match r with
  | Ok ts => exists all, model_tables_of = map Some all /\ sublist ts all /\ ts <> [] /\
      (forall t, t ∈ ts <-> t ∈ all /\ fits t)
  | Throw e => e = PlainError /\
      (None ∈ model_tables_of \/ forall t, Some t ∈ model_tables_of -> ~ fits t)
  end.

Lemma none_or_all {A} (ts : list (option A)) : None ∈ ts \/ exists all, ts = map Some all.
Proof.
  induction ts as [|[t|] ts IH]; [right; by exists []| |left; left].
  destruct IH as [IH|[all ->]]; [left; by right|right; by exists (t :: all)].
Qed.

Lemma tables_for_selects (f : TableMetadata -> bool) (fits : TableMetadata -> Prop) :
  (forall t, Some t ∈ model_tables_of -> f t = true <-> fits t) -> selects fits (tables_for f info).
Proof.
  intros Hf. unfold tables_for. fold model_tables_of. cbv zeta. destruct (none_or_all model_tables_of) as [Hn|[all Hall]].
  { rewrite filter_tables_missing by done. cbn. by split; [|left]. }
  assert (Hin : forall t, t ∈ filter (fun t => f t = true) all <-> t ∈ all /\ fits t).
  { intros t. rewrite list_elem_of_filter. assert (Hs : t ∈ all -> Some t ∈ model_tables_of) by (intros; rewrite Hall; by apply list_elem_of_fmap_2).
    naive_solver. }
  rewrite Hall, filter_tables_spec. cbn. destruct (filter _ all) as [|t ts] eqn:E.
  - split; [done|]. right. rewrite Hall. intros t (t' & [= <-] & Ht)%list_elem_of_fmap Hfit. assert (Hbad : t ∈ []) by (by apply Hin). by apply not_elem_of_nil in Hbad.
  - exists all. split_and!; [done| |done|done]. rewrite <- E. apply sublist_filter.
Qed.

(** The first that fits, before one that could not be retrieved. *)
Lemma first_table_spec (f : TableMetadata -> bool) ts name :
  first_table f ts = Ok name <->
  exists before t after, ts = map Some before ++ Some t :: after /\ f t = true /\ table_name t = name /\
    Forall (fun t => f t = false) before.
Proof.
  induction ts as [|[t|] ts IH]; cbn.
  - split; [done|]. intros (before & t & after & Hts & _). by destruct before.
  - destruct (f t) eqn:Hf.
    + split; [intros [= <-]; by exists [], t, ts|]. intros (before & t' & after & Hts & Hf' & <- & Hb).
      destruct before as [|b before]; [by injection Hts as -> _|]. injection Hts as -> _. inversion Hb; congruence.
    + rewrite IH. split.
      * intros (before & t' & after & -> & Hf' & Hn & Hb). exists (t :: before), t', after. split_and!; [done..|by constructor].
      * intros (before & t' & after & Hts & Hf' & Hn & Hb). destruct before as [|b before]; [injection Hts as -> _; congruence|].
        injection Hts as -> ->. inversion Hb; subst. by exists before, t', after.
  - split; [done|]. intros (before & t & after & Hts & _). by destruct before.
Qed.

(** C17: the selections of the mapper, for documents whose properties are of
    different columns and tables with distinct keys: [getForInsert],
    [getForUpdate] and [getForDelete] give the tables of the model whose keys,
    static and conditional columns fit the document, in the order of the model,
    and throw exactly when there is none or the metadata of one is missing;
    [getForSelect] gives the first table or view whose partition key is given,
    by primary keys only, with the fields and the order that are asked for. *)
Theorem selectors_fit l fieldsInfo when (allPKsDefined : bool) (orderByColumns : list (jsstr * jsstr)) (name : jsstr)
  (Hcols : NoDup (cols l)) (Hkeys : forall t, Some t ∈ model_tables_of ++ model_sources -> distinct_keys t) :
  selects (insert_fits l) (getForInsert info l) /\
  selects (update_fits l when) (getForUpdate info l when) /\
  selects (delete_fits l when) (getForDelete info l when) /\
  (getForSelect info allPKsDefined l fieldsInfo orderByColumns = Ok name <->
   exists before t after, model_sources = map Some before ++ Some t :: after /\ table_name t = name /\
     select_fits allPKsDefined l fieldsInfo orderByColumns t /\
     Forall (fun t => ~ select_fits allPKsDefined l fieldsInfo orderByColumns t) before).
Proof.
  assert (Ht : forall t, Some t ∈ model_tables_of -> distinct_keys t) by (intros t Ht; apply Hkeys, elem_of_app; by left).
  assert (Hs : forall t, Some t ∈ model_sources -> distinct_keys t) by (intros t H1; apply Hkeys, elem_of_app; by right).
  split_and!.
  - apply tables_for_selects. intros t H1. apply insertable_spec; auto.
  - apply tables_for_selects. intros t H1. apply updatable_spec; auto.
  - apply tables_for_selects. intros t H1. apply deletable_spec.
  - unfold getForSelect. fold model_sources. rewrite first_table_spec. clear Hkeys Ht.
    split; intros (before & t & after & E & H1 & H2 & H3); exists before, t, after; (split; [done|]); rewrite E in Hs;
      assert (Dt : distinct_keys t) by (apply Hs, elem_of_app; right; left);
      assert (Db : forall b, b ∈ before -> distinct_keys b) by (intros b Hb; apply Hs, elem_of_app; left; by apply list_elem_of_fmap_2).
    + split_and!; [done|by apply selectable_spec|]. rewrite Forall_forall in H3 |- *. intros b Hb F.
      apply selectable_spec in F; [|done|by apply Db]. rewrite (H3 b Hb) in F. done.
    + split_and!; [by apply selectable_spec|done|]. rewrite Forall_forall in H3 |- *. intros b Hb.
      apply not_true_iff_false. intros F. apply selectable_spec in F; [|done|by apply Db]. by apply (H3 b Hb).
Qed.
End keys.

(** A table with a partition key, a clustering key, a static column and
    another one. *)
Definition sample_table : TableMetadata :=
  let c n s := mkColumn (str n) 9 s in
  let cs := [c "id"%string false; c "ck"%string false; c "s"%string true; c "v"%string false] in
  mkTable (str "t") (take 1 cs) (take 1 (drop 1 cs)) cs (map (fun x => (col_name x, x)) cs).
Definition sample_metadata : MetadataClient := {|
  getTable := fun _ name => if decide (name = str "t") then Some sample_table else None;
  getMaterializedView := fun _ _ => None |}.
Definition sample_info : ModelMappingInfo Z := createDefault (str "t") (str "ks").

Lemma selectors_fit_witness :
  let l := getPropertiesInfo [str "id"; str "ck"] None [] sample_info in
  exists before t after,
    @model_sources Z sample_metadata sample_info = map Some before ++ Some t :: after /\ table_name t = str "t" /\
    select_fits true l [] [] t /\ Forall (fun t => ~ select_fits true l [] [] t) before.
Proof.
  cbv zeta.
  assert (Hc : NoDup (cols (getPropertiesInfo [str "id"; str "ck"] None [] sample_info))) by (apply (bool_decide_eq_true_1 _); vm_compute; reflexivity).
  assert (Hk : forall t, Some t ∈ @model_tables_of Z sample_metadata sample_info ++ @model_sources Z sample_metadata sample_info -> distinct_keys t).
  { intros t Ht. assert (t = sample_table) as ->.
    { apply elem_of_cons in Ht as [[= ->]|Ht]; [done|]. apply elem_of_cons in Ht as [[= ->]|Ht]; [done|]. by apply not_elem_of_nil in Ht. }
    unfold distinct_keys. apply (bool_decide_eq_true_1 _). vm_compute. reflexivity. }
  apply (@selectors_fit Z sample_metadata sample_info _ [] [] true [] (str "t") Hc Hk). vm_compute. reflexivity.
Defined.

(** The matches are counted, so a column that two properties give twice counts
    for a missing key. *)
Lemma keysAreIncluded_counts :
  let p n := mkProperty (V := Z) (str n) (str "a") Undefined None in
  keysAreIncluded [mkColumn (str "a") 9 false; mkColumn (str "b") 9 false] [p "x"%string; p "y"%string] = MatchAll.
Proof. vm_compute. reflexivity. Qed.
