(* ===== verification/MappingResults.v ===== *)
(** What the mapper makes of results: [lib/mapping/result-mapper.js] and
    [result.js], the adapters that [mapping-handler.js] keeps, and [mapper.js]
    and [model-mapper.js], which put the pieces together.

    The adapter of a select is a script that is made of the names of the columns;
    what it does is a definition for names that stand for themselves between
    quotes. *)
From S2P Require Import Prelude.
From S2P Require Import JsNum.
From S2P Require Import JsStr.
From S2P Require Import LongLib.
From S2P Require Import Utils.
From S2P Require Import TypeNames.
From S2P Require Import Encoder.
From S2P Require Import Results.
From S2P Require Import Mapping.
From S2P Require Import MappingInfo.
From S2P Require Import QueryGenerator.
From S2P Require Import ObjectSelector.
From S2P Require Import MappingHandler.
From S2P Require Import ObjectSelectorTheorems.

(** ** Adapters *)

Section results.
Context (info : ModelMappingInfo value).

(** A document, and [rs.columns]: the names and types; [None] is null. *)
Abbreviation document := (obj (jsval value)).
Abbreviation columns := (option (list (jsstr * column_type))).

(** The columns that a result of the native driver gives: none, and not null, when
    it has no rows. *)
Definition native_columns (r : native_result) : columns := Some (map (fun c => (c.1.2, c.2)) (getColumnsMetadata r)).

(** [row[name]] *)
Definition cell (row : Row) (name : jsstr) : jsval value := match obj_get (row_cells row) name with Some v => Value v | None => Undefined end.

(** A name that is the same between quotes in a script. *)
Definition plain_name (name : jsstr) : bool :=
  forallb (fun c => negb ((code c =? 39) || (code c =? 92) || (code c =? 10) || (code c =? 13))) name.

(** The script of [getSelectAdapter]. *)
Definition newline : jsstr := [chr 10].
Definition select_line (name : jsstr) : jsstr :=
  str "  item['" ++ getPropertyName info name ++ str "'] = " ++
  match getToModelFn info name with
  | None => str "row['" ++ name ++ str "'];" ++ newline
  | Some _ => str "info.getToModelFn('" ++ name ++ str "')(row['" ++ name ++ str "']);" ++ newline
  end.
Definition select_script (names : list jsstr) : jsstr :=
  str "(function rowAdapter(row, info) {" ++ newline ++ str "  const item = info.newInstance();" ++ newline ++
  concat (map select_line names) ++ str "  return item;" ++ newline ++ str "})".

(** An adapter: [noop], the script for the names, or the closure of
    [_getConditionalRowAdapter]. *)
Inductive adapter := Noop | SelectAdapter (names : list jsstr) | ConditionalAdapter (names : list jsstr).

(** One assignment of the script, and of the loop of the conditional adapter. *)
Definition select_cell (row : Row) (item : document) (name : jsstr) : document :=
  obj_set item (getPropertyName info name) (match getToModelFn info name with Some f => f (cell row name) | None => cell row name end).
Definition conditional_cell (row : Row) (item : document) (name : jsstr) : document := obj_set item (getPropertyName info name) (cell row name).

(** [rowAdapter(row, info)]; [None] is undefined, [newInstance] an object without
    properties. *)
Definition adapt (a : adapter) (row : Row) : option document :=
  match a with
  | Noop => None
  | SelectAdapter names => Some (foldl (select_cell row) [] names)
  | ConditionalAdapter names => Some (foldl (conditional_cell row) [] (tail names))
  end.

Definition boolean_code : Z := 4.
Definition is_applied_column (c : jsstr * column_type) : bool :=
  bool_decide (c.1 = str "[applied]") && match c.2 with TSimple code => code =? boolean_code | _ => false end.

Definition getSelectAdapter (cols : columns) : result adapter :=
  match cols with None => Throw PlainError | Some l => Ok (SelectAdapter (map fst l)) end.

Definition getMutationAdapter (cols : columns) : adapter :=
  match cols with
  | None => Noop
  | Some [c] => if is_applied_column c then Noop else ConditionalAdapter [c.1]
  | Some l => ConditionalAdapter (map fst l)
  end.

(** [{canCache, fn}] *)
Definition getCustomQueryAdapter (cols : columns) : result (bool * adapter) :=
  match cols with
  | None | Some [] => Ok (true, Noop)
  | Some (c :: l) =>
      if is_applied_column c then Ok (false, ConditionalAdapter (map fst (c :: l)))
      else a ← getSelectAdapter cols; Ok (true, a)
  end.

(** ** [Result] *)

Record mresult := mkMResult { mr_rs : ResultSet; mr_adapter : adapter; mr_isEmptyLwt : bool }.

Definition Result_new (rs : ResultSet) (cols : columns) (a : adapter) : mresult :=
  mkMResult rs a (match cols with Some [c] => (rs_rowLength rs =? 1)%nat && bool_decide (c.1 = str "[applied]") | _ => false end).

Definition Result_length (r : mresult) : nat := if mr_isEmptyLwt r then O else rs_rowLength (mr_rs r).
Definition Result_wasApplied (r : mresult) : bool := wasApplied (mr_rs r).

(** [None] is null; the document is [None] when the adapter gives undefined. *)
Definition Result_first (r : mresult) : result (option (option document)) :=
  if (rs_rowLength (mr_rs r) =? 0)%nat || mr_isEmptyLwt r then Ok None
  else match rs_rows (mr_rs r) with Some (row :: _) => Ok (Some (adapt (mr_adapter r) row)) | _ => Throw TypeError end.

Definition Result_iterator (r : mresult) : result (list (option document)) :=
  if mr_isEmptyLwt r then Ok []
  else match rs_rows (mr_rs r) with Some rows => Ok (map (adapt (mr_adapter r)) rows) | None => Throw TypeError end.

Definition Result_toArray (r : mresult) : list (option document) :=
  if mr_isEmptyLwt r then [] else match rs_rows (mr_rs r) with Some rows => map (adapt (mr_adapter r)) rows | None => [] end.

(** The calls of the callback. *)
Definition Result_forEach (r : mresult) : result (list (option document * nat)) :=
  docs ← Result_iterator r; Ok (zip docs (seq 0 (length docs))).

(** ** The adapters that are kept *)

(** A select keeps the adapter of its first result: [resultAdapter]. *)
Definition select_result (kept : option adapter) (rs : ResultSet) (cols : columns) : result (mresult * option adapter) :=
  a ← match kept with Some a => Ok a | None => getSelectAdapter cols end; Ok (Result_new rs cols a, Some a).

(** [getExecutorFromQuery]: the map [customQueries]. *)
Definition custom_result (kept : obj adapter) (query : jsstr) (rs : ResultSet) (cols : columns) : result (mresult * obj adapter) :=
  match obj_get kept query with
  | Some a => Ok (Result_new rs cols a, kept)
  | None =>
      match getCustomQueryAdapter cols with
      | Ok (canCache, fn) => Ok (Result_new rs cols fn, if canCache then obj_set kept query fn else kept)
      | Throw e => Throw e
      end
  end.

Definition mutation_result (rs : ResultSet) (cols : columns) : mresult := Result_new rs cols (getMutationAdapter cols).

(** Results of custom queries, one after the other. *)
Fixpoint custom_results (kept : obj adapter) (l : list (jsstr * ResultSet * columns)) : Prelude.result (list mresult * obj adapter) :=
  match l with
  | [] => Ok ([], kept)
  | (query, rs, cols) :: l' =>
      match custom_result kept query rs cols with
      | Ok (r, kept) => match custom_results kept l' with Ok (rs, kept) => Ok (r :: rs, kept) | Throw e => Throw e end
      | Throw e => Throw e
      end
  end.
End results.

(** ** [Mapper] *)

Section mapper.
Context {V : Type} `{MetadataClient}.

(** [_modelMappingInfos] and [_modelMappers]: a model mapper is the number of its
    creation and its mapping information. *)
Record mapper := mkMapper {
  mp_keyspace : option jsstr;
  mp_infos : obj (ModelMappingInfo V);
  mp_mappers : obj (nat * ModelMappingInfo V) }.

Definition Mapper_new (keyspace : option jsstr) (models : option (obj (option (model_options V)))) : result mapper :=
  infos ← ModelMappingInfo_parse models keyspace; Ok (mkMapper keyspace infos []).

Definition forModel (m : mapper) (name : jsstr) : result ((nat * ModelMappingInfo V) * mapper) :=
  match obj_get (mp_mappers m) name with
  | Some mm => Ok (mm, m)
  | None =>
      info ← match obj_get (mp_infos m) name with
             | Some info => Ok info
             | None => if is_text (mp_keyspace m) then Ok (createDefault name (default [] (mp_keyspace m))) else Throw PlainError
             end;
      let mm := (length (mp_mappers m), info) in
      Ok (mm, mkMapper (mp_keyspace m) (mp_infos m) (obj_set (mp_mappers m) name mm))
  end.

(** [ModelMapper]: a text in the place of [docInfo] is the name of a profile. *)
Definition model_arguments {D E : Type} (text : D -> option E) (docInfo : option D) (executionOptions : option E) : option D * option E :=
  match executionOptions, docInfo with
  | None, Some d => match text d with Some e => (None, Some e) | None => (docInfo, executionOptions) end
  | _, _ => (docInfo, executionOptions)
  end.

(** [batch]: the items with the models they come from ([None] is no
    ModelBatchItem).  First the queries of the items are asked for in turn, then
    each item adds its own when they are there: [order] is the order in which the
    promises are settled.  An error that is thrown at once is like a rejection.  The result has the queries, [isIdempotent] and
    [isCounter] of the request. *)
Context (number : Z -> V).

Fixpoint batch_queries (m : list (ModelBatchMapper)) (items : list (option (nat * ModelMappingInfo V * batch_item (V := V))))
    : list (result (list (jsstr * list (jsval V)) * bool * option bool)) * list ModelBatchMapper :=
  match items with
  | [] => ([], m)
  | None :: items' => let '(l, m) := batch_queries m items' in (Throw PlainError :: l, m)
  | Some (i, info, b) :: items' =>
      match m !! i with
      | None => let '(l, m) := batch_queries m items' in (Throw PlainError :: l, m)
      | Some bm =>
          let '(q, bm) := pushQueries info number bm b in
          let '(l, m) := batch_queries (<[i := bm]> m) items' in (q :: l, m)
      end
  end.

Definition batch_push (acc : list (jsstr * list (jsval V)) * bool * option bool) (q : list (jsstr * list (jsval V)) * bool * option bool) :=
  (acc.1.1 ++ q.1.1, acc.1.2 && q.1.2, q.2).

Definition Mapper_batch (m : list ModelBatchMapper) (items : list (option (nat * ModelMappingInfo V * batch_item (V := V)))) (order : list nat)
    (executionOptions : @execution_options V) : result (@client_call V) * list ModelBatchMapper :=
  match items with
  | [] => (Throw ArgumentError, m)
  | _ =>
      let '(pushed, m) := batch_queries m items in
      (qs ← traverse (fun i => default (Throw PlainError) (pushed !! i)) order;
       let '(queries, isIdempotent, isCounter) := foldl batch_push ([], true, None) qs in
       Ok (Batch queries (adaptBatchOptions executionOptions isIdempotent isCounter)), m)
  end.
End mapper.

(** ** Documents *)

Section documents.
Context (info : ModelMappingInfo value).
Implicit Types (rs : ResultSet) (row : Row) (names : list jsstr).

(** The property that a column becomes. *)
Definition select_property row name : jsstr * jsval value :=
  (getPropertyName info name, match getToModelFn info name with Some f => f (cell row name) | None => cell row name end).

Lemma foldl_set_properties {A B} (f : A -> jsstr * B) l item : NoDup (map fst item ++ map (fun a => (f a).1) l) ->
  foldl (fun o a => obj_set o (f a).1 (f a).2) item l = item ++ map f l.
Proof.
  revert item. induction l as [|a l IH]; intros item Hd; cbn [foldl map]; [by rewrite app_nil_r|].
  assert (Hn : (f a).1 ∉ map fst item).
  { intros Hin. apply NoDup_app in Hd as (_ & Hd & _). apply (Hd _ Hin). by left. }
  rewrite obj_set_new by done. rewrite IH; [by rewrite <- app_assoc, <- surjective_pairing|].
  cbn [map] in Hd. rewrite map_app. cbn. by rewrite <- app_assoc.
Qed.

Lemma select_document row names : NoDup (map (getPropertyName info) names) ->
  adapt info (SelectAdapter names) row = Some (map (select_property row) names).
Proof. intros Hd. cbn [adapt]. unfold select_cell. f_equal. apply (foldl_set_properties (select_property row) names []). exact Hd. Qed.

(** The conditional adapter leaves out the first column. *)
Lemma conditional_document row name names : NoDup (map (getPropertyName info) names) ->
  adapt info (ConditionalAdapter (name :: names)) row = Some (map (fun n => (getPropertyName info n, cell row n)) names).
Proof. intros Hd. cbn [adapt tail]. unfold conditional_cell. f_equal. apply (foldl_set_properties (fun n => (getPropertyName info n, cell row n)) names []). exact Hd. Qed.

(** The result of a select has a document for each row, with a property for
    each column, converted by [toModel]; [toArray], the iterator, [forEach],
    [first] and [length] agree on them. *)
Theorem select_documents rs cols rows r kept :
  rs_rows rs = Some rows -> rs_rowLength rs = length rows -> NoDup (map (getPropertyName info) (map fst cols)) ->
  match cols with [c] => c.1 <> str "[applied]" | _ => True end ->
  select_result None rs (Some cols) = Ok (r, kept) ->
  let docs := map (fun row => Some (map (select_property row) (map fst cols))) rows in
  Result_toArray info r = docs /\ Result_iterator info r = Ok docs /\ Result_forEach info r = Ok (zip docs (seq 0 (length docs))) /\
  Result_first info r = Ok (head docs) /\ Result_length r = length docs.
Proof.
  intros Hr Hl Hd Hc [= <- _] docs.
  assert (He : mr_isEmptyLwt (Result_new rs (Some cols) (SelectAdapter (map fst cols))) = false).
  { cbn. destruct cols as [|c [|]]; try done. rewrite bool_decide_eq_false_2 by done. by rewrite andb_false_r. }
  assert (Hdocs : map (adapt info (SelectAdapter (map fst cols))) rows = docs).
  { apply map_ext. intros row. by apply select_document. }
  assert (Hit : Result_iterator info (Result_new rs (Some cols) (SelectAdapter (map fst cols))) = Ok docs).
  { unfold Result_iterator. rewrite He. cbn [mr_rs Result_new mr_adapter]. by rewrite Hr, Hdocs. }
  split_and!.
  - unfold Result_toArray. rewrite He. cbn [mr_rs Result_new mr_adapter]. by rewrite Hr, Hdocs.
  - exact Hit.
  - unfold Result_forEach. by rewrite Hit.
  - unfold Result_first. rewrite He, orb_false_r. cbn [mr_rs Result_new mr_adapter]. rewrite Hl, Hr. unfold docs. destruct rows as [|row rows]; [done|].
    cbn [length Nat.eqb map head]. by rewrite select_document.
  - unfold Result_length. rewrite He. cbn [mr_rs Result_new]. unfold docs. by rewrite length_map.
Qed.

(** A document that is stored and selected comes back, when [toModel] undoes
    [fromModel] and the name of its column leads back to each property. *)
Lemma document_roundtrip (doc : obj (jsval value)) (ws : list value) :
  NoDup (map fst doc) ->
  Forall2 (fun kv w =>
    match getFromModelFn info kv.1 with Some f => f kv.2 | None => kv.2 end = Value w /\
    match getToModelFn info (getColumnName info kv.1) with Some f => f (Value w) | None => Value w end = kv.2 /\
    getPropertyName info (getColumnName info kv.1) = kv.1) doc ws ->
  let names := map (fun kv => getColumnName info kv.1) doc in
  adapt info (SelectAdapter names) (mkRow names (zip names ws)) = Some doc.
Proof.
  intros Hd Hw names.
  assert (Hp : map (getPropertyName info) names = map fst doc).
  { unfold names. rewrite map_map. clear Hd names. induction Hw as [|kv w doc ws (_ & _ & Hkv) Hw IH]; cbn; [done|]. by rewrite Hkv, IH. }
  rewrite select_document by by rewrite Hp. f_equal.
  assert (Hnames : NoDup names).
  { apply (NoDup_fmap_1 (getPropertyName info)). change (NoDup (map (getPropertyName info) names)). by rewrite Hp. }
  unfold names in *. clear Hp Hd.
  assert (Hcells : forall i kv w, doc !! i = Some kv -> ws !! i = Some w ->
    cell (mkRow (map (fun kv => getColumnName info kv.1) doc) (zip (map (fun kv => getColumnName info kv.1) doc) ws)) (getColumnName info kv.1) = Value w).
  { unfold cell. cbn [row_cells]. clear -Hnames Hw. induction Hw as [|kv0 w0 doc ws _ Hw IH]; intros i kv w Hi Hj; [done|].
    cbn [map zip] in *. apply NoDup_cons in Hnames as [Hn Hnames]. destruct i as [|i]; cbn in Hi, Hj.
    - injection Hi as ->. injection Hj as ->. cbn [obj_get]. by rewrite decide_True.
    - cbn [obj_get]. rewrite decide_False; [by apply (IH Hnames i)|].
      intros E. apply Hn. rewrite <- E. apply list_elem_of_fmap. exists kv. split; [done|]. by apply list_elem_of_lookup_2 in Hi. }
  rewrite map_map. apply list_eq. intros i. rewrite list_lookup_fmap. destruct (doc !! i) as [kv|] eqn:Hi; [|done]. cbn. f_equal.
  destruct (Forall2_lookup_l _ _ _ _ _ Hw Hi) as (w & Hj & H1 & H2 & H3). unfold select_property.
  rewrite (Hcells i kv w Hi Hj), H2, H3. by destruct kv.
Qed.

(** A result without rows: the array is empty and the iterator throws. *)
Lemma void_result rs cols a : rs_rows rs = None -> mr_isEmptyLwt (Result_new rs cols a) = false ->
  Result_toArray info (Result_new rs cols a) = [] /\ Result_iterator info (Result_new rs cols a) = Throw TypeError.
Proof. intros Hr He. unfold Result_toArray, Result_iterator. rewrite He. cbn [mr_rs Result_new]. by rewrite Hr. Qed.

(** ** Custom queries *)

Definition adapter_of (cols : option (list (jsstr * column_type))) : adapter := match getCustomQueryAdapter cols with Ok (_, a) => a | Throw _ => Noop end.
Definition cacheable (cols : option (list (jsstr * column_type))) : bool := match getCustomQueryAdapter cols with Ok (b, _) => b | Throw _ => false end.

(** The result of a conditional update starts with whether it was applied. *)
Definition conditional (cols : option (list (jsstr * column_type))) : bool := match cols with Some (c :: _) => is_applied_column c | _ => false end.

Lemma conditional_cacheable cols : cacheable cols = negb (conditional cols).
Proof. unfold cacheable, getCustomQueryAdapter, conditional. destruct cols as [[|c l]|]; [done| |done]. by destruct (is_applied_column c). Qed.

Lemma getCustomQueryAdapter_total cols : getCustomQueryAdapter cols = Ok (cacheable cols, adapter_of cols).
Proof.
  unfold cacheable, adapter_of, getCustomQueryAdapter. destruct cols as [[|c l]|]; [done| |done].
  by destruct (is_applied_column c).
Qed.

(** C19: The cache of custom queries is not seen: when a query always has the
    same columns, or is a conditional update, whose columns vary with its outcome,
    every result is adapted as without the cache. *)
Theorem custom_queries_transparent (columns_of : jsstr -> option (list (jsstr * column_type))) l :
  Forall (fun x => x.2 = columns_of x.1.1 \/ conditional x.2 = true /\ conditional (columns_of x.1.1) = true) l ->
  exists kept, custom_results [] l = Ok (map (fun x => Result_new x.1.2 x.2 (adapter_of x.2)) l, kept).
Proof.
  intros Hl0. assert (Hl : Forall (fun x => x.2 = columns_of x.1.1 \/ cacheable x.2 = false /\ cacheable (columns_of x.1.1) = false) l).
  { eapply Forall_impl; [exact Hl0|]. intros x [Hx|[H1 H2]]; [by left|right]. by rewrite !conditional_cacheable, H1, H2. }
  clear Hl0. assert (Hk : forall q a, obj_get (@nil (jsstr * adapter)) q = Some a -> cacheable (columns_of q) = true /\ a = adapter_of (columns_of q)) by done.
  revert Hk. generalize (@nil (jsstr * adapter)) as kept. induction Hl as [|[[query rs] cols] l Hx Hl IH]; intros kept Hk; cbn [custom_results map]; [by eexists|].
  cbn [fst snd] in Hx. unfold custom_result. destruct (obj_get kept query) as [a|] eqn:Ea.
  - destruct (Hk _ _ Ea) as [Hc ->]. destruct Hx as [->|[_ Hx]]; [|congruence]. destruct (IH kept Hk) as [kept' ->]. by eexists.
  - rewrite getCustomQueryAdapter_total. destruct (IH (if cacheable cols then obj_set kept query (adapter_of cols) else kept)) as [kept' ->]; [|by eexists].
    intros q a. destruct (cacheable cols) eqn:Hc; [|apply Hk]. rewrite obj_get_set. destruct (decide (query = q)) as [<-|]; [|apply Hk].
    intros [= <-]. destruct Hx as [->|[Hx _]]; [done|congruence].
Qed.
End documents.

(** The names of the columns are put between quotes as they are: the script for
    a column it's is not the one that is meant. *)
Example quote_in_script :
  select_line (createDefault (str "m") (str "ks")) (str "it's") = str "  item['it's'] = row['it's'];" ++ newline.
Proof. reflexivity. Qed.

Definition result_info : ModelMappingInfo value :=
  ModelMappingInfo_new (str "ks") [(str "t", false)] UnderscoreCqlToCamelCaseMappings [].
Definition sample_row : Row := mkRow [str "user_id"; str "n"] [(str "user_id", VNumber (Int 7)); (str "n", VNumber (Int 8))].
Definition sample_rs : ResultSet := mkResultSet (Some [sample_row]) 1 None None [].
Definition sample_columns : list (jsstr * column_type) := [(str "user_id", TSimple 9); (str "n", TSimple 9)].

Lemma select_documents_witness :
  exists r kept, select_result None sample_rs (Some sample_columns) = Ok (r, kept) /\
    Result_toArray result_info r = [Some [(str "userId", Value (VNumber (Int 7))); (str "n", Value (VNumber (Int 8)))]].
Proof.
  do 2 eexists. split; [reflexivity|].
  refine (eq_trans (proj1 (select_documents result_info sample_rs sample_columns [sample_row] _ _ eq_refl eq_refl _ I eq_refl)) _); [|reflexivity].
  change (map (getPropertyName result_info) (map fst sample_columns)) with [str "userId"; str "n"].
  apply NoDup_cons. split; [intros H; apply list_elem_of_singleton in H; discriminate H|]. apply NoDup_singleton.
Defined.

Lemma custom_queries_transparent_witness :
  let l := [(str "q", sample_rs, Some sample_columns); (str "q", mkResultSet None 0 None None [], Some sample_columns)] in
  Forall (fun x => x.2 = Some sample_columns \/ conditional x.2 = true /\ conditional (Some sample_columns) = true) l /\
  exists kept, custom_results [] l = Ok (map (fun x => Result_new x.1.2 x.2 (adapter_of x.2)) l, kept).
Proof.
  intros l. assert (Hl : Forall (fun x => x.2 = Some sample_columns \/ conditional x.2 = true /\ conditional (Some sample_columns) = true) l).
  { constructor; [by left|]. constructor; [by left|]. constructor. }
  split; [exact Hl|]. exact (custom_queries_transparent (fun _ => Some sample_columns) l Hl).
Defined.

(** ** [Mapper] *)

Section mappers.
Context {V : Type} `{MetadataClient}.

(** A model has one model mapper, which later calls give too. *)
Lemma forModel_kept (m m1 : mapper (V := V)) name mm : forModel m name = Ok (mm, m1) ->
  forModel m1 name = Ok (mm, m1) /\ forall other x, obj_get (mp_mappers m) other = Some x -> obj_get (mp_mappers m1) other = Some x.
Proof.
  unfold forModel. destruct (obj_get (mp_mappers m) name) as [x|] eqn:Ex; [intros [= <- <-]; by rewrite Ex|].
  destruct (match obj_get (mp_infos m) name with Some _ => _ | None => _ end) as [i|e]; [|done]. cbn. intros [= <- <-]. cbn. rewrite obj_get_set, decide_True by done.
  split; [done|]. intros other x Hx. rewrite obj_get_set. destruct (decide (name = other)) as [<-|]; [congruence|done].
Qed.

Context (number : Z -> V).

Lemma traverse_lookup {A B} (f : A -> result B) l out : Forall2 (fun a b => f a = Ok b) l out -> traverse f l = Ok out.
Proof. induction 1 as [|a b l out Hf _ IH]; [done|]. cbn. by rewrite Hf, IH. Qed.

Lemma batch_push_all (l : list (list (jsstr * list (jsval V)) * bool * option bool)) acc :
  foldl batch_push acc l =
    (acc.1.1 ++ concat (map (fun q => q.1.1) l), acc.1.2 && forallb (fun q => q.1.2) l, match last l with Some q => q.2 | None => acc.2 end).
Proof.
  revert acc. induction l as [|q l IH]; intros acc; cbn [foldl map concat forallb]; [rewrite app_nil_r, andb_true_r; by destruct acc as [[]]|].
  rewrite (IH (batch_push acc q)). unfold batch_push. rewrite last_cons. cbn [fst snd]. rewrite <- app_assoc, <- andb_assoc. by destruct (last l).
Qed.

Lemma forallb_Permutation {A} (f : A -> bool) l k : l ≡ₚ k -> forallb f l = forallb f k.
Proof. induction 1; cbn; [done|congruence|by rewrite !andb_assoc, (andb_comm (f y))|congruence]. Qed.

(** C18: A batch of the mapper sends the queries of all its items, those of each
    item together, in the order in which their promises are settled, is
    idempotent when all of them are, and is a counter batch when the last of them is
    one; when an item fails nothing is sent. *)
Theorem mapper_batch_sends m items order executionOptions pushed m' :
  items <> [] -> batch_queries number m items = (pushed, m') -> order ≡ₚ seq 0 (length pushed) ->
  (forall qs, pushed = map Ok qs -> exists queries isCounter,
     Mapper_batch number m items order executionOptions = (Ok (Batch queries (adaptBatchOptions executionOptions (forallb (fun q => q.1.2) qs) isCounter)), m') /\
     isCounter = (i ← last order; q ← qs !! i; q.2) /\
     queries = concat (map (fun i => match qs !! i with Some q => q.1.1 | None => [] end) order) /\ queries ≡ₚ concat (map (fun q => q.1.1) qs)) /\
  (forall e, Throw e ∈ pushed -> exists e', Mapper_batch number m items order executionOptions = (Throw e', m')).
Proof.
  intros Hi Hb Ho. unfold Mapper_batch. destruct items as [|item items]; [done|]. rewrite Hb. split.
  - intros qs ->. rewrite length_map in Ho.
    assert (Hq : exists out, Forall2 (fun i q => qs !! i = Some q) order out).
    { assert (Hall : Forall (fun i => (i < length qs)%nat) order) by (rewrite Ho; apply Forall_seq; lia). clear Ho Hb.
      induction Hall as [|i order Hlt _ [out IH]]; [by exists []|]. destruct (lookup_lt_is_Some_2 _ _ Hlt) as [q Hq]. exists (q :: out). by constructor. }
    destruct Hq as [out Hout].
    assert (Hout' : out ≡ₚ qs).
    { assert (E : map Some out = map (fun i => qs !! i) order) by (clear -Hout; induction Hout as [|i q order out Hq _ IH]; cbn; [done|]; by rewrite Hq, IH).
      assert (P : map Some out ≡ₚ map Some qs).
      { rewrite E, Ho. apply Permutation_refl'. clear. apply list_eq. intros i. change (((fun i => qs !! i) <$> seq 0 (length qs)) !! i = (Some <$> qs) !! i). rewrite !list_lookup_fmap.
        destruct (qs !! i) as [q|] eqn:Eq; [rewrite lookup_seq_lt by (by apply lookup_lt_Some in Eq)|rewrite lookup_seq_ge by (by apply lookup_ge_None in Eq)]; cbn; [|done]. by rewrite Eq. }
      pose proof (Permutation_map (fun o : option _ => default ([], false, None) o) P) as P2. rewrite !map_map in P2. cbn in P2. by rewrite !map_id in P2. }
    rewrite (traverse_lookup _ order out).
    2:{ eapply Forall2_impl; [exact Hout|]. intros i q Hq. cbn beta. change (map Ok qs) with (Ok <$> qs). by rewrite list_lookup_fmap, Hq. }
    cbn. rewrite (batch_push_all out ([], true, None)). cbn.
    rewrite (forallb_Permutation _ _ _ Hout'). eexists _, _. split; [reflexivity|]. split_and!.
    + assert (L : last out = i ← last order; qs !! i); [|rewrite L; by destruct (last order)].
      clear -Hout. induction Hout as [|i q order out Hq Ho IH]; [done|]. rewrite !last_cons, IH.
      destruct (last order) as [j|] eqn:Ej; cbn; [|by rewrite Hq]. apply last_Some in Ej as [l ->].
      apply Forall2_app_inv_l in Ho as (l1 & l2 & _ & Hl & _). apply Forall2_cons_inv_l in Hl as (q' & ? & Hq' & _). by rewrite Hq'.
    + clear -Hout. induction Hout as [|i q order out Hq _ IH]; cbn; [done|]. by rewrite Hq, IH.
    + rewrite <- !flat_map_concat_map. by apply Permutation_flat_map.
  - intros e He. apply list_elem_of_lookup in He as [i He]. assert (Hin : i ∈ order) by (rewrite Ho, elem_of_seq; apply lookup_lt_Some in He; lia).
    assert (Ht : exists e', traverse (fun i => default (Throw PlainError) (pushed !! i)) order = Throw e').
    { clear -He Hin. induction order as [|j order IH]; [by apply elem_of_nil in Hin|]. cbn. apply elem_of_cons in Hin as [<-|Hin].
      - rewrite He. cbn. by eexists.
      - destruct (IH Hin) as [e' ->]. destruct (default _ (pushed !! j)); cbn; by eexists. }
    destruct Ht as [e' ->]. cbn. by eexists.
Qed.
End mappers.

Definition sample_item : nat * ModelMappingInfo Z * batch_item (V := Z) :=
  (0%nat, sample_info, InsertItem ([(str "id", Value 1); (str "ck", Value 2); (str "v", Value 3)], None)).

Lemma mapper_batch_sends_witness :
  exists queries isCounter m', @Mapper_batch Z sample_metadata id [ModelBatchMapper_new] [Some sample_item; Some sample_item] [1; 0]%nat NoOptions =
    (Ok (Batch queries (adaptBatchOptions NoOptions true isCounter)), m') /\ length queries = 2%nat.
Proof.
  destruct (@batch_queries Z sample_metadata id [ModelBatchMapper_new] [Some sample_item; Some sample_item]) as [pushed m'] eqn:E.
  assert (Hp : exists qs, pushed = map Ok qs /\ length qs = 2%nat /\ forallb (fun q => q.1.2) qs = true /\ map (fun q => length q.1.1) qs = [1; 1]%nat).
  { assert (E' : pushed = (@batch_queries Z sample_metadata id [ModelBatchMapper_new] [Some sample_item; Some sample_item]).1) by by rewrite E.
    clear E. subst pushed. vm_compute. match goal with |- exists qs, [Ok ?a; Ok ?b] = _ /\ _ => exists [a; b] end. by split_and!. }
  destruct Hp as (qs & Hqs & Hl & Hid & Hlens).
  assert (Ho : [1; 0]%nat ≡ₚ seq 0 (length pushed)) by (rewrite Hqs, length_map, Hl; apply perm_swap).
  destruct (proj1 (@mapper_batch_sends Z sample_metadata id [ModelBatchMapper_new] [Some sample_item; Some sample_item] [1; 0]%nat NoOptions pushed m'
    ltac:(discriminate) E Ho) qs Hqs) as (queries & isCounter & Hb & _ & _ & Hperm).
  exists queries, isCounter, m'. rewrite Hid in Hb. split; [exact Hb|]. rewrite Hperm.
  destruct qs as [|a [|b [|]]]; try discriminate Hl. cbn in *. rewrite !length_app. injection Hlens as -> ->. done.
Defined.
