(* ===== verification/QueryGeneratorTheorems.v ===== *)
(** The queries of the mapper and their parameters fit: with the parameters in
    the place of the question marks, in order, every clause has its value. *)
From S2P Require Import Prelude.
From S2P Require Import JsNum.
From S2P Require Import JsStr.
From S2P Require Import Utils.
From S2P Require Import Mapping.
From S2P Require Import MappingInfo.
From S2P Require Import QueryGenerator.
From S2P Require Import ObjectSelector.
From S2P Require Import MappingHandler.

(** ** Filling in the parameters *)

Section fill.
Context {P : Type}.

Definition mark : ascii := "?"%char.

(** The parameters in the place of the marks; there must be as many of both. *)
Fixpoint fill (q : jsstr) (ps : list P) : option (list (ascii + P)) :=
  match q with
  | [] => match ps with [] => Some [] | _ => None end
  | c :: q' =>
      if decide (c = mark) then match ps with p :: ps' => cons (inr p) <$> fill q' ps' | [] => None end
      else cons (inl c) <$> fill q' ps
  end.

Definition txt (s : jsstr) : list (ascii + P) := map inl s.
Definition stxt (s : string) : list (ascii + P) := txt (str s).

(** A text without marks. *)
Definition plain (s : jsstr) : bool := negb (existsb (fun c => bool_decide (c = mark)) s).

Lemma plain_app s t : plain (s ++ t) = plain s && plain t.
Proof. unfold plain. by rewrite existsb_app, negb_orb. Qed.

Lemma fill_app q1 q2 ps1 ps2 t1 t2 :
  fill q1 ps1 = Some t1 -> fill q2 ps2 = Some t2 -> fill (q1 ++ q2) (ps1 ++ ps2) = Some (t1 ++ t2).
Proof.
  revert ps1 t1. induction q1 as [|c q1 IH]; intros ps1 t1; cbn.
  - destruct ps1; [|done]. by intros [= <-].
  - case_decide.
    + destruct ps1 as [|p ps1]; [done|]. intros (t & Ht & ->)%fmap_Some_1 H2. cbn. by rewrite (IH _ _ Ht H2).
    + intros (t & Ht & ->)%fmap_Some_1 H2. by rewrite (IH _ _ Ht H2).
Qed.

Lemma fill_plain s : plain s = true -> fill s [] = Some (txt s).
Proof.
  unfold plain. induction s as [|c s IH]; cbn; [done|]. case_bool_decide; cbn; [done|]. intros Hs.
  rewrite decide_False by done. by rewrite (IH Hs).
Qed.

Lemma fill_plain_app s q ps t : plain s = true -> fill q ps = Some t -> fill (s ++ q) ps = Some (txt s ++ t).
Proof. intros H1 H2. apply (fill_app s q [] ps); [by apply fill_plain|done]. Qed.

Lemma fill_mark p : fill (str "?") [p] = Some [inr p].
Proof. reflexivity. Qed.

Lemma fill_app_plain q s ps t : plain s = true -> fill q ps = Some t -> fill (q ++ s) ps = Some (t ++ txt s).
Proof. intros H1 H2. rewrite <- (app_nil_r ps). apply fill_app; [done|by apply fill_plain]. Qed.

Fixpoint join_tokens (sep : list (ascii + P)) (l : list (list (ascii + P))) : list (ascii + P) :=
  match l with [] => [] | [t] => t | t :: l' => t ++ sep ++ join_tokens sep l' end.

(** Joined clauses take the parameters of each. *)
Lemma fill_join {A} (sep : jsstr) (q : A -> jsstr) (ps : A -> list P) (t : A -> list (ascii + P)) l :
  plain sep = true -> Forall (fun x => fill (q x) (ps x) = Some (t x)) l ->
  fill (join sep (map q l)) (concat (map ps l)) = Some (join_tokens (txt sep) (map t l)).
Proof.
  intros Hs. induction 1 as [|x l Hx Hl IH]; [done|]. destruct l as [|y l].
  - cbn. by rewrite app_nil_r.
  - change (concat (map ps (x :: y :: l))) with (ps x ++ concat (map ps (y :: l))).
    change (join sep (map q (x :: y :: l))) with (q x ++ sep ++ join sep (map q (y :: l))).
    change (join_tokens (txt sep) (map t (x :: y :: l))) with (t x ++ txt sep ++ join_tokens (txt sep) (map t (y :: l))).
    apply fill_app; [done|]. by apply fill_plain_app.
Qed.

(** No list of clauses is joined to nothing. *)
Lemma fill_nothing q (ps : list P) t : fill q ps = Some t -> ps <> [] -> q <> [].
Proof. by destruct q, ps. Qed.
End fill.

(** ** Scripts *)

Fixpoint sep (es : list expr) : list token :=
  match es with [] => [] | [e] => [Expr e] | e :: es' => Expr e :: Comma :: sep es' end.

Lemma array_literal_sep es : array_literal (sep es) = map Some es.
Proof. induction es as [|e es IH]; [done|]. destruct es; [done|]. cbn in *. by rewrite IH. Qed.

Lemma sep_app es1 es2 : es1 <> [] -> es2 <> [] -> sep es1 ++ Comma :: sep es2 = sep (es1 ++ es2).
Proof.
  intros H1 H2. induction es1 as [|e es IH]; [done|]. destruct es as [|e' es].
  - by destruct es2.
  - specialize (IH ltac:(done)). cbn in *. by rewrite IH.
Qed.

Lemma join_scripts_sep ess : Forall (fun es => es <> []) ess -> join_scripts (map sep ess) = sep (concat ess).
Proof.
  induction 1 as [|es ess He Hs IH]; [done|]. destruct ess as [|es' ess].
  - cbn. by rewrite app_nil_r.
  - change (join_scripts (map sep (es :: es' :: ess))) with (sep es ++ Comma :: join_scripts (map sep (es' :: ess))).
    rewrite IH. cbn [concat]. apply sep_app; [done|]. inversion Hs; subst. by destruct es'.
Qed.

Section scripts.
Context {V : Type}.
Implicit Types (v : jsval V) (p : property_info V).

Fixpoint single_exprs (prefix : expr) (propName : jsstr) v (mapped : bool) : list expr :=
  match v with
  | Both _ a b => single_exprs (DotChild prefix false) propName a mapped ++ single_exprs (DotChild prefix true) propName b mapped
  | Operator _ _ isIn =>
      [if isIn && mapped then MapCall propName (DotValue prefix)
       else if mapped then MappingCall propName (DotValue prefix) else DotValue prefix]
  | _ => [if mapped then MappingCall propName prefix else prefix]
  end.

Lemma single_exprs_nonempty prefix propName v mapped : single_exprs prefix propName v mapped <> [].
Proof. revert prefix. induction v; intros prefix; cbn; try done. intros H. apply app_eq_nil in H as [H _]. by apply IHv1 in H. Qed.

Lemma valueGetterSingle_sep prefix propName v mapped :
  _valueGetterSingle prefix propName v mapped = sep (single_exprs prefix propName v mapped).
Proof.
  revert prefix. induction v; intros prefix; cbn; try by destruct mapped.
  - by destruct isInOperator, mapped.
  - rewrite IHv1, IHv2. apply sep_app; apply single_exprs_nonempty.
Qed.

Definition value_exprs (objectName : jsstr -> expr) p : list expr :=
  single_exprs (objectName (pi_propertyName p)) (pi_propertyName p) (pi_value p) (is_mapped p).

Lemma valueGetterExpression_sep l objectName :
  _valueGetterExpression l objectName = sep (concat (map (value_exprs objectName) l)).
Proof.
  unfold _valueGetterExpression. rewrite <- join_scripts_sep.
  - rewrite map_map. f_equal. apply map_ext. intros p. apply valueGetterSingle_sep.
  - apply Forall_map, Forall_true. intros p. apply single_exprs_nonempty.
Qed.

Definition set_expr p : expr :=
  let g := if is_assignment (pi_value p) then DotValue (DocProp (pi_propertyName p)) else DocProp (pi_propertyName p) in
  if is_mapped p then MappingCall (pi_propertyName p) g else g.

Lemma assignmentGetterExpression_sep l : _assignmentGetterExpression l = sep (map set_expr l).
Proof.
  unfold _assignmentGetterExpression.
  replace (map set_expr l) with (concat (map (fun p => [set_expr p]) l)) by (induction l as [|p l IH]; cbn; [|rewrite IH]; done).
  rewrite <- join_scripts_sep by (apply Forall_map, Forall_true; done). by rewrite map_map.
Qed.

Lemma value_exprs_nonempty objectName l : l <> [] -> concat (map (value_exprs objectName) l) <> [].
Proof.
  destruct l as [|p l]; [done|]. intros _ H. cbn in H. apply app_eq_nil in H as [H _]. by apply single_exprs_nonempty in H.
Qed.

(** ** The values of a property *)

Definition apply_fn (f : option (jsval V -> jsval V)) v : jsval V := match f with Some f => f v | None => v end.
Definition apply_each (f : option (jsval V -> jsval V)) v : jsval V :=
  match f, v with Some f, Array l => Array (map f l) | Some f, _ => f v | None, _ => v end.

Fixpoint params_of (f : option (jsval V -> jsval V)) v : list (jsval V) :=
  match v with
  | Both _ a b => params_of f a ++ params_of f b
  | Operator _ w isIn => [if isIn then apply_each f w else apply_fn f w]
  | _ => [apply_fn f v]
  end.

(** The operand of IN is an array, as [q.in_] makes it. *)
Fixpoint arrays v : bool :=
  match v with
  | Both _ a b => arrays a && arrays b
  | Operator _ w true => match w with Array _ => true | _ => false end
  | _ => true
  end.

Context (doc : obj (jsval V)) (di : option (docInfo V)) (i : ModelMappingInfo V) (number : Z -> V).
Local Abbreviation ev := (eval doc di i number).

Lemma traverse_app {A B} (g : A -> result B) l k ys zs :
  traverse g l = Ok ys -> traverse g k = Ok zs -> traverse g (l ++ k) = Ok (ys ++ zs).
Proof.
  rewrite !traverse_ok. apply Forall2_app.
Qed.

Lemma single_exprs_eval prefix propName v :
  ev prefix = Ok v -> arrays v = true ->
  traverse ev (single_exprs prefix propName v (is_some (getFromModelFn i propName))) = Ok (params_of (getFromModelFn i propName) v).
Proof.
  revert prefix. set (f := getFromModelFn i propName).
  assert (C : forall prefix w, ev prefix = Ok w ->
    traverse ev [if is_some f then MappingCall propName prefix else prefix] = Ok [apply_fn f w]).
  { intros prefix w Hw. cbn. destruct f as [g|] eqn:Hf; cbn -[getFromModelFn]; rewrite Hw; cbn -[getFromModelFn]; [|done]. unfold f in Hf. by rewrite Hf. }
  induction v; intros prefix Hp Ha; cbn [single_exprs params_of].
  1-3, 6: by apply C.
  - assert (Hd : ev (DotValue prefix) = Ok v) by (cbn; by rewrite Hp).
    destruct isInOperator; cbn [andb]; [|rewrite <- (C (DotValue prefix) v Hd); done].
    cbn in Ha. destruct v; try done. destruct f as [g|] eqn:Hf; cbn -[getFromModelFn]; rewrite Hp; cbn -[getFromModelFn]; [|done].
    unfold f in Hf. rewrite Hf. by destruct l.
  - cbn in Ha. apply andb_true_iff in Ha as [Ha Hb].
    apply traverse_app; [apply IHv1|apply IHv2]; try done; cbn; by rewrite Hp.
Qed.
End scripts.

(** ** Clauses *)

Section clauses.
Context {V : Type}.
Implicit Types (v : jsval V) (p : property_info V) (f : option (jsval V -> jsval V)).
Abbreviation tokens := (list (ascii + jsval V)).

Fixpoint plain_value v : bool :=
  match v with
  | Both key a b => plain key && plain_value a && plain_value b
  | Operator key _ _ => plain key
  | Assignment sign _ _ => plain sign
  | _ => true
  end.

(** A condition with its values. *)
Fixpoint condition_tokens (col : jsstr) f v : tokens :=
  match v with
  | Both key a b => condition_tokens col f a ++ txt (str " " ++ key ++ str " ") ++ condition_tokens col f b
  | Operator key w isIn => txt (quoted col ++ str " " ++ key ++ str " ") ++ [inr (if isIn then apply_each f w else apply_fn f w)]
  | _ => txt (quoted col ++ str " = ") ++ [inr (apply_fn f v)]
  end.

Definition condition_of p : tokens := condition_tokens (pi_columnName p) (pi_fromModel p) (pi_value p).

(** The clause [col = v] of a key. *)
Definition key_of p : tokens := txt (quoted (pi_columnName p) ++ str " = ") ++ map inr (params_of (pi_fromModel p) (pi_value p)).

(** The operand of an assignment, or the value itself. *)
Definition set_value p : jsval V := apply_fn (pi_fromModel p) (match pi_value p with Assignment _ w _ => w | v => v end).

Definition set_of p : tokens :=
  let name := quoted (pi_columnName p) in
  match pi_value p with
  | Assignment sign _ true => txt (name ++ str " = ") ++ [inr (set_value p)] ++ txt (str " " ++ sign ++ str " " ++ name)
  | Assignment sign _ false => txt (name ++ str " = " ++ name ++ str " " ++ sign ++ str " ") ++ [inr (set_value p)]
  | _ => txt (name ++ str " = ") ++ [inr (set_value p)]
  end.

Definition params_of_property p : list (jsval V) := params_of (pi_fromModel p) (pi_value p).

(** One parameter for one question mark: no pair of conditions. *)
Definition single v : bool := match v with Both _ _ _ => false | _ => true end.

Lemma quoted_plain s : plain s = true -> plain (quoted s) = true.
Proof. intros H. unfold quoted. change (chr 34 :: s ++ [chr 34]) with ([chr 34] ++ s ++ [chr 34]). by rewrite !plain_app, H. Qed.

Lemma txt_app (s t : jsstr) : txt (P := jsval V) (s ++ t) = txt s ++ txt t.
Proof. apply map_app. Qed.

(** A mark behind a text. *)
Lemma fill_text_mark (s : jsstr) v : plain s = true -> fill (s ++ str "?") [v] = Some (txt s ++ [inr v]).
Proof. intros H. by apply fill_plain_app. Qed.

Lemma fill_equals (name : jsstr) v :
  plain name = true -> fill (quoted name ++ str " = ?") [v] = Some (txt (quoted name ++ str " = ") ++ [inr v]).
Proof.
  intros H. change (str " = ?") with (str " = " ++ str "?"). rewrite app_assoc. apply fill_text_mark.
  by rewrite plain_app, quoted_plain.
Qed.

Lemma condition_fill col f v :
  plain col = true -> plain_value v = true ->
  fill (_getSingleCondition col v) (params_of f v) = Some (condition_tokens col f v).
Proof.
  intros Hc. pose proof (quoted_plain col Hc) as Hq.
  induction v; intros Hv; cbn [_getSingleCondition params_of condition_tokens]; try by apply fill_equals.
  - cbn in Hv. change (str " ?") with (str " " ++ str "?").
    replace (quoted col ++ str " " ++ key ++ str " " ++ str "?") with ((quoted col ++ str " " ++ key ++ str " ") ++ str "?") by (by rewrite <- !app_assoc).
    apply fill_text_mark. by rewrite !plain_app, Hq, Hv.
  - cbn in Hv. apply andb_true_iff in Hv as [[Hk H1]%andb_true_iff H2].
    replace (_getSingleCondition col v1 ++ str " " ++ key ++ str " " ++ _getSingleCondition col v2)
      with (_getSingleCondition col v1 ++ (str " " ++ key ++ str " ") ++ _getSingleCondition col v2) by (by rewrite <- !app_assoc).
    apply fill_app; [by apply IHv1|]. apply fill_plain_app; [by rewrite !plain_app, Hk|by apply IHv2].
Qed.

(** What is assumed of a property of the document [doc]. *)
Record good (i : ModelMappingInfo V) (doc : obj (jsval V)) (p : property_info V) : Prop := mkGood {
  good_value : pi_value p = prop doc (pi_propertyName p);
  good_fn : pi_fromModel p = getFromModelFn i (pi_propertyName p);
  good_column : plain (pi_columnName p) = true;
  good_plain : plain_value (pi_value p) = true;
  good_arrays : arrays (pi_value p) = true }.

Lemma key_fill p : plain (pi_columnName p) = true -> single (pi_value p) = true ->
  fill (quoted (pi_columnName p) ++ str " = ?") (params_of_property p) = Some (key_of p).
Proof.
  intros Hc Hs. unfold key_of, params_of_property.
  assert (exists v, params_of (pi_fromModel p) (pi_value p) = [v]) as [v ->] by (destruct (pi_value p); eauto; done).
  by apply fill_equals.
Qed.

Lemma set_fill p : plain (pi_columnName p) = true -> plain_value (pi_value p) = true ->
  fill (set_clause p) [set_value p] = Some (set_of p).
Proof.
  intros Hc Hv. pose proof (quoted_plain _ Hc) as Hq. unfold set_clause, set_of.
  destruct (pi_value p) as [| | | | |sign w inverted]; try by apply fill_equals. cbn in Hv. destruct inverted.
  - change (str " = ? ") with (str " = " ++ str "?" ++ str " ").
    replace (quoted (pi_columnName p) ++ (str " = " ++ str "?" ++ str " ") ++ sign ++ str " " ++ quoted (pi_columnName p))
      with ((quoted (pi_columnName p) ++ str " = ") ++ str "?" ++ (str " " ++ sign ++ str " " ++ quoted (pi_columnName p)))
      by (by rewrite <- !app_assoc).
    apply fill_plain_app; [by rewrite plain_app, Hq|].
    apply (fill_app_plain (str "?") _ _ [inr (set_value p)]); [by rewrite !plain_app, Hv, Hq|apply fill_mark].
  - change (str " ?") with (str " " ++ str "?").
    replace (quoted (pi_columnName p) ++ str " = " ++ quoted (pi_columnName p) ++ str " " ++ sign ++ str " " ++ str "?")
      with ((quoted (pi_columnName p) ++ str " = " ++ quoted (pi_columnName p) ++ str " " ++ sign ++ str " ") ++ str "?")
      by (by rewrite <- !app_assoc).
    apply fill_text_mark. by rewrite !plain_app, Hq, Hv.
Qed.

(** ** Evaluation of the getters *)

Context (doc : obj (jsval V)) (di : option (docInfo V)) (i : ModelMappingInfo V) (number : Z -> V).

Lemma run_sep es : run_script doc di i number (sep es) = traverse (eval doc di i number) es.
Proof.
  unfold run_script. rewrite array_literal_sep. induction es as [|e es IH]; cbn; [done|]. by rewrite IH.
Qed.

Lemma is_mapped_good o p : good i o p -> is_mapped p = is_some (getFromModelFn i (pi_propertyName p)).
Proof. intros G. unfold is_mapped. by rewrite (good_fn i o p G). Qed.

Lemma values_eval (o : obj (jsval V)) (objectName : jsstr -> expr) l :
  (forall name, eval doc di i number (objectName name) = Ok (prop o name)) -> Forall (good i o) l ->
  traverse (eval doc di i number) (concat (map (value_exprs objectName) l)) = Ok (concat (map params_of_property l)).
Proof.
  intros Ho. induction 1 as [|p l G Gl IH]; [done|]. cbn [map concat]. apply traverse_app; [|done].
  unfold value_exprs, params_of_property. rewrite (is_mapped_good o p G), (good_fn i o p G).
  apply single_exprs_eval; [|apply (good_arrays i o p G)]. by rewrite Ho, <- (good_value i o p G).
Qed.

Lemma sets_eval l : Forall (good i doc) l ->
  traverse (eval doc di i number) (map set_expr l) = Ok (map set_value l).
Proof.
  intros Hl. apply traverse_ok. apply Forall2_fmap. induction Hl as [|p l G Gl IH]; constructor; [|done].
  unfold set_expr, set_value. rewrite (is_mapped_good doc p G), (good_fn i doc p G).
  assert (E : eval doc di i number (if is_assignment (pi_value p) then DotValue (DocProp (pi_propertyName p)) else DocProp (pi_propertyName p)) =
    Ok (match pi_value p with Assignment _ w _ => w | v => v end)).
  { pose proof (good_value i doc p G) as Hv. destruct (pi_value p); cbn; by rewrite <- Hv. }
  destruct (getFromModelFn i (pi_propertyName p)) as [f|] eqn:Hf; cbn -[getFromModelFn]; [|apply E]. rewrite E. cbn -[getFromModelFn].
  by rewrite Hf.
Qed.
End clauses.

(** ** Statements with their values *)

Section bound.
Context {V : Type} (number : Z -> V) (keyspace : jsstr) (table : TableMetadata).
Abbreviation tokens := (list (ascii + jsval V)).
Implicit Types (l keys when : list (property_info V)).

Definition table_text : jsstr := keyspace ++ str "." ++ table_name table.

Definition and_joined (l : list tokens) : tokens := join_tokens (stxt " AND ") l.
Definition comma_joined (l : list tokens) : tokens := join_tokens (stxt ", ") l.

Definition bound_number (before : string) (n : option Z) (after : string) : tokens :=
  match n with Some n => stxt before ++ [inr (Value (number n))] ++ stxt after | None => [] end.

Definition bound_if (ifExists : bool) when : tokens :=
  if ifExists then stxt " IF EXISTS"
  else match when with [] => [] | _ => stxt " IF " ++ and_joined (map condition_of when) end.

Definition bound_update (ttl : option Z) l when (ifExists : bool) : tokens :=
  txt (str "UPDATE " ++ table_text ++ str " ") ++ bound_number "USING TTL " ttl " " ++ stxt "SET " ++
  comma_joined (map set_of (to_set table l)) ++ stxt " WHERE " ++ and_joined (map key_of (keys_of table l)) ++ bound_if ifExists when.

Definition bound_insert (ttl : option Z) l (ifNotExists : bool) : tokens :=
  txt (str "INSERT INTO " ++ table_text ++ str " (" ++ names l ++ str ") VALUES (") ++
  comma_joined (map (fun p => map inr (params_of_property p)) l) ++ stxt ")" ++
  (if ifNotExists then stxt " IF NOT EXISTS" else []) ++ bound_number " USING TTL " ttl "".

Definition bound_delete (onlyColumns : bool) l when (ifExists : bool) : tokens :=
  txt (str "DELETE" ++
    (if onlyColumns then match names (to_set table l) with [] => [] | _ => str " " ++ names (to_set table l) end else []) ++
    str " FROM " ++ table_text ++ str " WHERE ") ++ and_joined (map key_of (keys_of table l)) ++ bound_if ifExists when.
End bound.

(** The SELECT statement of a table or view. *)
Definition bound_select {V} (number : Z -> V) (keyspace tableName : jsstr) (l fieldsInfo : list (property_info V))
    (orderByColumns : list (jsstr * jsstr)) (limit : option Z) : list (ascii + jsval V) :=
  txt (str "SELECT " ++ match fieldsInfo with [] => str "*" | _ => names fieldsInfo end ++ str " FROM " ++ keyspace ++ str "." ++ tableName) ++
  match l with [] => [] | _ => stxt " WHERE " ++ and_joined (map condition_of l) end ++
  txt (match orderByColumns with
       | [] => []
       | _ => str " ORDER BY " ++ join comma_space (map (fun o => quoted o.1 ++ str " " ++ o.2) orderByColumns)
       end) ++ bound_number number " LIMIT " limit "".

Section parts.
Context {V : Type} (info : ModelMappingInfo V) (doc : obj (jsval V)) (di : option (docInfo V)) (number : Z -> V).
Implicit Types (l when : list (property_info V)).

(** The query and the parameters that its script gives make the statement. *)
Definition makes (q : query_info) (t : list (ascii + jsval V)) : Prop :=
  exists ps, run_script doc di info number (paramsGetter q) = Ok ps /\ fill (query q) ps = Some t.

Lemma plain_join (sep : jsstr) (ws : list jsstr) :
  plain sep = true -> Forall (fun w => plain w = true) ws -> plain (join sep ws) = true.
Proof.
  intros Hs. induction 1 as [|w ws Hw Hws IH]; [done|]. destruct ws as [|w' ws]; [done|].
  change (join sep (w :: w' :: ws)) with (w ++ sep ++ join sep (w' :: ws)). by rewrite !plain_app, Hw, Hs, IH.
Qed.

Lemma plain_names l : Forall (fun p => plain (pi_columnName p) = true) l -> plain (names l) = true.
Proof. intros H. apply plain_join; [done|]. apply Forall_map. eapply Forall_impl; [exact H|]. intros p. apply quoted_plain. Qed.

Lemma conditions_fill o l : Forall (good info o) l ->
  fill (_getConditionWithOperators l) (concat (map params_of_property l)) = Some (and_joined (map condition_of l)).
Proof.
  intros H. apply fill_join; [done|]. eapply Forall_impl; [exact H|]. intros p G.
  apply condition_fill; [apply (good_column _ _ _ G)|apply (good_plain _ _ _ G)].
Qed.

Lemma keys_fill o l : Forall (good info o) l -> Forall (fun p => single (pi_value p) = true) l ->
  fill (key_clauses l) (concat (map params_of_property l)) = Some (and_joined (map key_of l)).
Proof.
  intros H Hs. apply fill_join; [done|]. apply Forall_forall. intros p Hp. rewrite Forall_forall in H, Hs.
  apply key_fill; [apply (good_column _ _ _ (H p Hp))|by apply Hs].
Qed.

Lemma concat_singles {A B} (f : A -> B) (l : list A) : concat (map (fun x => [f x]) l) = map f l.
Proof. induction l as [|x l IH]; cbn; [done|]. by rewrite IH. Qed.

Lemma sets_fill o l : Forall (good info o) l ->
  fill (join comma_space (map set_clause l)) (map set_value l) = Some (comma_joined (map set_of l)).
Proof.
  intros H. rewrite <- (concat_singles set_value). apply fill_join; [done|]. eapply Forall_impl; [exact H|]. intros p G.
  apply set_fill; [apply (good_column _ _ _ G)|apply (good_plain _ _ _ G)].
Qed.

(** The conditions that [docInfo.when] gives. *)
Definition good_when when : Prop :=
  match from_info di_when None di with Some w => Forall (good info w) when | None => when = [] end.

Lemma when_eval when : good_when when ->
  traverse (eval doc di info number) (concat (map (value_exprs WhenProp) when)) = Ok (concat (map params_of_property when)).
Proof.
  unfold good_when. intros H. destruct (from_info di_when None di) as [w|] eqn:Hw; [|by subst when].
  apply values_eval with w; [|done]. intros name. cbn. by rewrite Hw.
Qed.

Lemma when_fill when ifExists : good_when when -> (ifExists = true -> when = []) ->
  fill (if_clause ifExists when) (concat (map params_of_property when)) = Some (bound_if ifExists when).
Proof.
  unfold good_when, if_clause, bound_if. intros H He. destruct ifExists; [by rewrite (He eq_refl)|].
  destruct when as [|p when]; [done|]. destruct (from_info di_when None di) as [w|]; [|done].
  apply fill_plain_app; [done|]. by apply conditions_fill with w.
Qed.

Lemma when_script_sep es when : es <> [] -> sep es ++ when_script when = sep (es ++ concat (map (value_exprs WhenProp) when)).
Proof.
  intros He. unfold when_script. destruct when as [|p when]; [by rewrite !app_nil_r|].
  rewrite valueGetterExpression_sep. apply sep_app; [done|]. by apply value_exprs_nonempty.
Qed.

(** The value of [docInfo.ttl], when it is a number. *)
Definition number_params (n : option Z) : list (jsval V) := match n with Some n => [Value (number n)] | None => [] end.

Lemma ttl_eval n : from_info ttl None di = Some n -> eval doc di info number InfoTtl = Ok (Value (number n)).
Proof. destruct di as [d|]; cbn; [|done]. by intros ->. Qed.

Lemma limit_eval n : from_info limit None di = Some n -> eval doc di info number InfoLimit = Ok (Value (number n)).
Proof. destruct di as [d|]; cbn; [|done]. by intros ->. Qed.

Lemma number_fill before (n : option Z) after :
  plain (str before) = true -> plain (str after) = true ->
  fill (if is_some n then str before ++ str "?" ++ str after else []) (number_params n) = Some (bound_number number before n after).
Proof.
  intros Hb Ha. destruct n as [n|]; [|done]. cbn [is_some]. apply fill_plain_app; [done|].
  by apply (fill_app_plain (str "?") _ _ [inr (Value (number n))]).
Qed.

Context (keyspace : jsstr) (Hks : plain keyspace = true).

Definition singles l : Prop := Forall (fun p => single (pi_value p) = true) l.

Lemma update_makes (table : TableMetadata) l when (ifExists : bool) :
  plain (table_name table) = true -> good_when when -> (ifExists = true -> when = []) ->
  let set := to_set table l in let keys := keys_of table l in
  Forall (good info doc) set -> Forall (good info doc) keys -> singles keys -> set <> [] -> keys <> [] ->
  forall b c,
  let t := from_info ttl None di in
  makes (mkQuery (_getUpdateQuery table keyspace l when ifExists t) (_updateParamsGetter table l when t) b c)
    (bound_update number keyspace table t l when ifExists).
Proof.
  intros Ht Hw He set keys Hset Hkeys Hs Hset0 Hkeys0 b c t.
  exists (number_params t ++ map set_value set ++ concat (map params_of_property keys) ++ concat (map params_of_property when)). split.
  - cbn [paramsGetter]. unfold _updateParamsGetter. fold set keys. rewrite assignmentGetterExpression_sep, valueGetterExpression_sep.
    rewrite when_script_sep by (by apply value_exprs_nonempty). cbn [app].
    rewrite sep_app; [|by destruct set|intros H; apply app_eq_nil in H as [H _]; by apply value_exprs_nonempty in H].
    replace ((if is_some t then [Expr InfoTtl; Comma] else []) ++ sep (map set_expr set ++ concat (map (value_exprs DocProp) keys) ++ concat (map (value_exprs WhenProp) when)))
      with (sep ((if is_some t then [InfoTtl] else []) ++ map set_expr set ++ concat (map (value_exprs DocProp) keys) ++ concat (map (value_exprs WhenProp) when)))
      by (destruct t; [|done]; by destruct set).
    rewrite run_sep. apply traverse_app; [|apply traverse_app; [by apply sets_eval|apply traverse_app; [by apply values_eval with doc|by apply when_eval]]].
    destruct t as [n|] eqn:Htl; [|done]. cbn -[eval]. by rewrite (ttl_eval n).
  - cbn [query]. unfold _getUpdateQuery, bound_update. fold set keys.
    replace (str "UPDATE " ++ keyspace ++ str "." ++ table_name table ++ str " " ++
      (if is_some t then str "USING TTL ? " else []) ++ str "SET " ++ join comma_space (map set_clause set) ++ str " WHERE " ++ key_clauses keys ++ if_clause ifExists when)
    with ((str "UPDATE " ++ table_text keyspace table ++ str " ") ++ (if is_some t then str "USING TTL " ++ str "?" ++ str " " else []) ++
      str "SET " ++ join comma_space (map set_clause set) ++ str " WHERE " ++ key_clauses keys ++ if_clause ifExists when)
      by (unfold table_text; rewrite <- !app_assoc; by destruct t).
    apply fill_plain_app; [unfold table_text; by rewrite !plain_app, Hks, Ht|]. apply fill_app; [by apply number_fill|].
    apply fill_plain_app; [done|]. apply fill_app; [by apply sets_fill with doc|]. apply fill_plain_app; [done|].
    apply fill_app; [by apply keys_fill with doc|by apply when_fill].
Qed.

Lemma delete_makes (table : TableMetadata) l when (ifExists only : bool) :
  plain (table_name table) = true -> good_when when -> (ifExists = true -> when = []) ->
  let set := to_set table l in let keys := keys_of table l in
  Forall (good info doc) set -> Forall (good info doc) keys -> singles keys -> keys <> [] ->
  forall b c,
  makes (mkQuery (_getDeleteQuery table keyspace l when ifExists only) (_deleteParamsGetter table l when) b c)
    (bound_delete keyspace table only l when ifExists).
Proof.
  intros Ht Hw He set keys Hset Hkeys Hs Hkeys0 b c.
  exists (concat (map params_of_property keys) ++ concat (map params_of_property when)). split.
  - cbn [paramsGetter]. unfold _deleteParamsGetter. fold keys. rewrite valueGetterExpression_sep.
    rewrite when_script_sep by (by apply value_exprs_nonempty). rewrite run_sep.
    apply traverse_app; [by apply values_eval with doc|by apply when_eval].
  - cbn [query]. unfold _getDeleteQuery, bound_delete. fold set keys.
    set (cols := if only then _ else _).
    assert (Hcols : plain cols = true).
    { assert (plain (names set) = true) as Hn by (apply plain_names; eapply Forall_impl; [exact Hset|]; intros p G; apply (good_column _ _ _ G)).
      unfold cols. destruct only; [|done]. by destruct (names set). }
    replace (str "DELETE" ++ cols ++ str " FROM " ++ keyspace ++ str "." ++ table_name table ++ str " WHERE " ++ key_clauses keys ++ if_clause ifExists when)
      with ((str "DELETE" ++ cols ++ str " FROM " ++ table_text keyspace table ++ str " WHERE ") ++ key_clauses keys ++ if_clause ifExists when)
      by (unfold table_text; by rewrite <- !app_assoc).
    apply fill_plain_app; [unfold table_text; by rewrite !plain_app, Hcols, Hks, Ht|].
    apply fill_app; [by apply keys_fill with doc|by apply when_fill].
Qed.

(** The question marks of the values to insert. *)
Lemma marks_fill l : singles l ->
  fill (join comma_space (map (fun _ => str "?") l)) (concat (map params_of_property l)) =
    Some (comma_joined (map (fun p => map inr (params_of_property p)) l)).
Proof.
  intros H. apply (fill_join comma_space (fun _ => str "?")); [done|]. eapply Forall_impl; [exact H|]. intros p Hp.
  unfold params_of_property. cbn in Hp |- *. revert Hp. by destruct (pi_value p).
Qed.

Lemma insert_makes (table : TableMetadata) l (ifNotExists : bool) :
  plain (table_name table) = true -> Forall (good info doc) l -> singles l -> l <> [] ->
  forall b c,
  let t := from_info ttl None di in
  makes (mkQuery (_getInsertQuery (table_name table) keyspace l ifNotExists t) (_insertParamsGetter l t) b c)
    (bound_insert number keyspace table t l ifNotExists).
Proof.
  intros Ht Hl Hs Hl0 b c t. exists (concat (map params_of_property l) ++ number_params t). split.
  - cbn [paramsGetter]. unfold _insertParamsGetter. rewrite valueGetterExpression_sep.
    replace (sep (concat (map (value_exprs DocProp) l)) ++ (if is_some t then [Comma; Expr InfoTtl] else []))
      with (sep (concat (map (value_exprs DocProp) l) ++ (if is_some t then [InfoTtl] else [])))
      by (destruct t; cbn [is_some]; [|by rewrite !app_nil_r]; rewrite <- sep_app; [done|by apply value_exprs_nonempty|done]).
    rewrite run_sep. apply traverse_app; [by apply values_eval with doc|].
    destruct t as [n|] eqn:Htl; [|done]. cbn -[eval]. by rewrite (ttl_eval n).
  - cbn [query]. unfold _getInsertQuery, bound_insert.
    assert (Hn : plain (names l) = true) by (apply plain_names; eapply Forall_impl; [exact Hl|]; intros p G; apply (good_column _ _ _ G)).
    replace (str "INSERT INTO " ++ keyspace ++ str "." ++ table_name table ++ str " (" ++ names l ++ str ") VALUES (" ++
      join comma_space (map (fun _ => str "?") l) ++ str ")" ++ (if ifNotExists then str " IF NOT EXISTS" else []) ++ (if is_some t then str " USING TTL ?" else []))
    with ((str "INSERT INTO " ++ table_text keyspace table ++ str " (" ++ names l ++ str ") VALUES (") ++
      join comma_space (map (fun _ => str "?") l) ++ str ")" ++ (if ifNotExists then str " IF NOT EXISTS" else []) ++
      (if is_some t then str " USING TTL " ++ str "?" ++ str "" else []))
      by (unfold table_text; by rewrite <- !app_assoc).
    apply fill_plain_app; [unfold table_text; by rewrite !plain_app, Hks, Ht, Hn|].
    apply fill_app; [by apply marks_fill|]. apply fill_plain_app; [done|].
    assert (E : (if ifNotExists then stxt " IF NOT EXISTS" else []) = txt (P := jsval V) (if ifNotExists then str " IF NOT EXISTS" else [])) by by destruct ifNotExists.
    rewrite E. apply fill_plain_app; [by destruct ifNotExists|by apply number_fill].
Qed.

Lemma select_makes (tableName : jsstr) l fieldsInfo (orderByColumns : list (jsstr * jsstr)) :
  plain tableName = true -> Forall (good info doc) l -> Forall (fun p => plain (pi_columnName p) = true) fieldsInfo ->
  Forall (fun o => plain o.1 && plain o.2 = true) orderByColumns ->
  forall b c,
  let n := from_info limit None di in
  makes (mkQuery (getSelect tableName keyspace l fieldsInfo orderByColumns n) (selectParamsGetter l n) b c)
    (bound_select number keyspace tableName l fieldsInfo orderByColumns n).
Proof.
  intros Ht Hl Hf Ho b c n. exists (concat (map params_of_property l) ++ number_params n). split.
  - cbn [paramsGetter]. unfold selectParamsGetter. rewrite valueGetterExpression_sep.
    replace (_ ++ _) with (sep (concat (map (value_exprs DocProp) l) ++ (if is_some n then [InfoLimit] else []))).
    + rewrite run_sep. apply traverse_app; [by apply values_eval with doc|].
      destruct n as [m|] eqn:Hn; [|done]. cbn -[eval]. by rewrite (limit_eval m).
    + destruct n; cbn [is_some]; [|by rewrite !app_nil_r]. destruct l as [|p l]; [done|].
      rewrite <- sep_app; [done|by apply value_exprs_nonempty|done].
  - cbn [query]. unfold getSelect, bound_select.
    set (cols := match fieldsInfo with [] => str "*" | _ => names fieldsInfo end).
    set (order := match orderByColumns with [] => [] | _ => _ end).
    assert (Hcols : plain cols = true) by (unfold cols; pose proof (plain_names fieldsInfo Hf); by destruct fieldsInfo).
    assert (Horder : plain order = true).
    { unfold order. destruct orderByColumns as [|o os]; [done|]. rewrite plain_app. cbn [andb]. apply andb_true_iff. split; [done|].
      apply plain_join; [done|]. apply Forall_map. eapply Forall_impl; [exact Ho|]. cbv beta. intros o' [Ha Hd]%andb_true_iff.
      by rewrite !plain_app, quoted_plain, Hd. }
    replace (str "SELECT " ++ _) with ((str "SELECT " ++ cols ++ str " FROM " ++ keyspace ++ str "." ++ tableName) ++
      match l with [] => [] | _ => str " WHERE " ++ _getConditionWithOperators l end ++ order ++
      (if is_some n then str " LIMIT " ++ str "?" ++ str "" else [])) by (by rewrite <- !app_assoc).
    apply fill_plain_app; [by rewrite !plain_app, Hcols, Hks, Ht|].
    apply fill_app; [destruct l as [|p l]; [done|]; apply fill_plain_app; [done|by apply conditions_fill with doc]|].
    apply fill_plain_app; [done|by apply number_fill].
Qed.
(** *** Queries that do not fit their parameters *)

Definition marks (q : jsstr) : nat := length (List.filter (fun c => bool_decide (c = mark)) q).

Lemma marks_app q1 q2 : marks (q1 ++ q2) = (marks q1 + marks q2)%nat.
Proof. unfold marks. by rewrite List.filter_app, length_app. Qed.

Lemma fill_marks {P} q (ps : list P) t : fill q ps = Some t -> marks q = length ps.
Proof.
  revert ps t. induction q as [|c q IH]; intros ps t; cbn; [by destruct ps|]. unfold marks in *. cbn [List.filter].
  case_decide as D.
  - destruct ps as [|p ps]; [done|]. intros (t' & Ht & _)%fmap_Some_1. rewrite bool_decide_true by done. cbn. by rewrite (IH _ _ Ht).
  - intros (t' & Ht & _)%fmap_Some_1. rewrite bool_decide_false by done. by apply (IH _ _ Ht).
Qed.

Lemma plain_marks s : plain s = true -> marks s = 0%nat.
Proof. intros Hs. by apply (fill_marks (P := unit) s [] _ (fill_plain s Hs)). Qed.

(** Clauses of one mark each. *)
Lemma marks_join (sep : jsstr) {A} (q : A -> jsstr) (l : list A) :
  plain sep = true -> Forall (fun x => marks (q x) = 1%nat) l -> marks (join sep (map q l)) = length l.
Proof.
  intros Hs. induction 1 as [|x l Hx Hl IH]; [done|]. destruct l as [|y l]; [done|].
  change (join sep (map q (x :: y :: l))) with (q x ++ sep ++ join sep (map q (y :: l))).
  by rewrite !marks_app, Hx, (plain_marks sep), IH.
Qed.

Lemma keys_marks o l : Forall (good info o) l -> marks (key_clauses l) = length l.
Proof.
  intros Hl. apply marks_join; [done|]. eapply Forall_impl; [exact Hl|]. intros p G.
  exact (fill_marks _ _ _ (fill_equals (pi_columnName p) (@Undefined V) (good_column _ _ _ G))).
Qed.

Lemma sets_marks o l : Forall (good info o) l -> marks (join comma_space (map set_clause l)) = length l.
Proof. intros Hl. rewrite <- (length_map set_value). exact (fill_marks _ _ _ (sets_fill o l Hl)). Qed.

(** The parameters of the keys are more than the keys when one has a pair of
    conditions. *)
Definition all_single l : bool := forallb (fun p => single (pi_value p)) l.

Lemma all_single_singles l : all_single l = true <-> Forall (fun p => single (pi_value p) = true) l.
Proof. unfold all_single. by rewrite forallb_forall, Forall_forall; setoid_rewrite list_elem_of_In. Qed.

Lemma value_exprs_length objectName l :
  (length l + (if all_single l then 0 else 1) <= length (concat (map (value_exprs objectName) l)))%nat.
Proof.
  induction l as [|p l IH]; [done|]. cbn [map concat all_single forallb length]. rewrite length_app. unfold all_single in *.
  assert (H1 : (1 + (if single (pi_value p) then 0 else 1) <= length (value_exprs objectName p))%nat).
  { unfold value_exprs. pose proof (fun e (v : jsval V) => single_exprs_nonempty e (pi_propertyName p) v (is_mapped p)) as N.
    destruct (pi_value p) as [| | | |key a b|]; cbn; try lia. rewrite length_app.
    pose proof (N (DotChild (objectName (pi_propertyName p)) false) a). pose proof (N (DotChild (objectName (pi_propertyName p)) true) b).
    do 2 (destruct (single_exprs _ _ _ _); [done|]). cbn. lia. }
  destruct (single (pi_value p)), (forallb _ l); cbn [andb]; lia.
Qed.

Lemma when_length when : good_when when ->
  length (concat (map (value_exprs WhenProp) when)) = length (concat (map params_of_property when)).
Proof. intros H%when_eval%traverse_ok. by apply Forall2_length in H. Qed.

Lemma array_literal_comma es s : es <> [] -> array_literal (sep es ++ Comma :: s) = map Some es ++ array_literal s.
Proof.
  intros He. induction es as [|e es IH]; [done|]. destruct es as [|e' es]; [done|].
  change (sep (e :: e' :: es) ++ Comma :: s) with (Expr e :: Comma :: (sep (e' :: es) ++ Comma :: s)).
  cbn [array_literal map app]. f_equal. by apply IH.
Qed.

Lemma unfit q : marks (query q) <> length (array_literal (paramsGetter q)) -> forall t, ~ makes q t.
Proof.
  intros Hne t (ps & Hps & Hf). apply Hne. rewrite (fill_marks _ _ _ Hf). unfold run_script in Hps.
  apply traverse_ok, Forall2_length in Hps. done.
Qed.

(** The keys of a WHERE clause and the conditions of a statement: how many
    parameters there are, and how many marks. *)
Lemma where_length (keys when : list (property_info V)) : keys <> [] -> good_when when ->
  length (array_literal (_valueGetterExpression keys DocProp ++ when_script when)) =
    (length (concat (map (value_exprs DocProp) keys)) + length (concat (map params_of_property when)))%nat.
Proof.
  intros Hk Hw. rewrite valueGetterExpression_sep, when_script_sep by (by apply value_exprs_nonempty).
  by rewrite array_literal_sep, length_map, length_app, when_length.
Qed.

Lemma table_text_marks (table : TableMetadata) : plain (table_name table) = true -> plain (table_text keyspace table) = true.
Proof. intros Ht. unfold table_text. by rewrite !plain_app, Hks, Ht. Qed.

Lemma update_unfit (table : TableMetadata) l when (ifExists : bool) :
  plain (table_name table) = true -> good_when when -> (ifExists = true -> when = []) ->
  let set := to_set table l in let keys := keys_of table l in
  Forall (good info doc) set -> Forall (good info doc) keys -> keys <> [] -> all_single keys && negb (is_nil set) = false ->
  forall b c t,
  let n := from_info ttl None di in
  ~ makes (mkQuery (_getUpdateQuery table keyspace l when ifExists n) (_updateParamsGetter table l when n) b c) t.
Proof.
  intros Ht Hw He set keys Hset Hkeys Hkeys0 Hno b c t n. apply unfit. cbn [query paramsGetter].
  assert (Q : marks (_getUpdateQuery table keyspace l when ifExists n) =
    ((if is_some n then 1 else 0) + length set + length keys + length (concat (map params_of_property when)))%nat).
  { unfold _getUpdateQuery. fold set keys.
    replace (str "UPDATE " ++ _) with ((str "UPDATE " ++ table_text keyspace table ++ str " ") ++ (if is_some n then str "USING TTL ? " else []) ++
      str "SET " ++ join comma_space (map set_clause set) ++ str " WHERE " ++ key_clauses keys ++ if_clause ifExists when)
      by (unfold table_text; by rewrite <- !app_assoc).
    rewrite marks_app, plain_marks by (by rewrite !plain_app, table_text_marks).
    rewrite !marks_app, (sets_marks doc), (keys_marks doc) by done.
    rewrite (fill_marks _ _ _ (when_fill when ifExists Hw He)).
    change (marks (str "SET ")) with 0%nat. change (marks (str " WHERE ")) with 0%nat. destruct n; cbn [is_some];
      [change (marks (str "USING TTL ? ")) with 1%nat|change (marks []) with 0%nat]; lia. }
  assert (S : length (array_literal (_updateParamsGetter table l when n)) =
    ((if is_some n then 1 else 0) + Nat.max 1 (length set) + length (concat (map (value_exprs DocProp) keys)) +
      length (concat (map params_of_property when)))%nat).
  { unfold _updateParamsGetter. fold set keys. rewrite assignmentGetterExpression_sep.
    assert (R : forall s, length (array_literal (sep (map set_expr set) ++ [Comma] ++ s)) = (Nat.max 1 (length set) + length (array_literal s))%nat).
    { intros s. destruct set as [|p set']; [done|]. cbn [app]. rewrite array_literal_comma by done. rewrite length_app, !length_map. cbn. lia. }
    destruct n; cbn [is_some app array_literal length]; [|]; cbn [app] in R; rewrite R, where_length by done; lia. }
  rewrite Q, S. pose proof (value_exprs_length DocProp keys).
  destruct (all_single keys); [|lia]. destruct set; [cbn; lia|discriminate].
Qed.

Lemma delete_unfit (table : TableMetadata) l when (ifExists only : bool) :
  plain (table_name table) = true -> good_when when -> (ifExists = true -> when = []) ->
  let set := to_set table l in let keys := keys_of table l in
  Forall (good info doc) set -> Forall (good info doc) keys -> keys <> [] -> all_single keys = false ->
  forall b c t,
  ~ makes (mkQuery (_getDeleteQuery table keyspace l when ifExists only) (_deleteParamsGetter table l when) b c) t.
Proof.
  intros Ht Hw He set keys Hset Hkeys Hkeys0 Hno b c t. apply unfit. cbn [query paramsGetter].
  unfold _deleteParamsGetter, _getDeleteQuery. fold set keys. rewrite where_length by done.
  set (cols := if only then _ else _).
  assert (Hcols : plain cols = true).
  { assert (plain (names set) = true) as Hn by (apply plain_names; eapply Forall_impl; [exact Hset|]; intros p G; apply (good_column _ _ _ G)).
    unfold cols. destruct only; [|done]. by destruct (names set). }
  replace (str "DELETE" ++ _) with ((str "DELETE" ++ cols ++ str " FROM " ++ table_text keyspace table ++ str " WHERE ") ++ key_clauses keys ++ if_clause ifExists when)
    by (unfold table_text; by rewrite <- !app_assoc).
  rewrite marks_app, plain_marks by (by rewrite !plain_app, Hcols, table_text_marks).
  rewrite marks_app, (keys_marks doc), (fill_marks _ _ _ (when_fill when ifExists Hw He)) by done.
  pose proof (value_exprs_length DocProp keys) as Hv. rewrite Hno in Hv. lia.
Qed.

Lemma insert_unfit (table : TableMetadata) l (ifNotExists : bool) :
  plain (table_name table) = true -> Forall (good info doc) l -> l <> [] -> all_single l = false ->
  forall b c t,
  let n := from_info ttl None di in
  ~ makes (mkQuery (_getInsertQuery (table_name table) keyspace l ifNotExists n) (_insertParamsGetter l n) b c) t.
Proof.
  intros Ht Hl Hl0 Hno b c t n. apply unfit. cbn [query paramsGetter].
  assert (Q : marks (_getInsertQuery (table_name table) keyspace l ifNotExists n) = (length l + if is_some n then 1 else 0)%nat).
  { assert (Hn : plain (names l) = true) by (apply plain_names; eapply Forall_impl; [exact Hl|]; intros p G; apply (good_column _ _ _ G)).
    unfold _getInsertQuery.
    replace (str "INSERT INTO " ++ _) with ((str "INSERT INTO " ++ table_text keyspace table ++ str " (" ++ names l ++ str ") VALUES (") ++
      join comma_space (map (fun _ => str "?") l) ++ (str ")" ++ (if ifNotExists then str " IF NOT EXISTS" else [])) ++
      (if is_some n then str " USING TTL ?" else [])) by (unfold table_text; by rewrite <- !app_assoc).
    rewrite marks_app, plain_marks by (by rewrite !plain_app, table_text_marks, Hn).
    rewrite marks_app, marks_join by (done || by apply Forall_true).
    rewrite marks_app, (plain_marks (str ")" ++ _)) by (by destruct ifNotExists). by destruct n. }
  assert (S : length (array_literal (_insertParamsGetter l n)) =
    (length (concat (map (value_exprs DocProp) l)) + if is_some n then 1 else 0)%nat).
  { unfold _insertParamsGetter. rewrite valueGetterExpression_sep. destruct n; cbn [is_some].
    - rewrite array_literal_comma by (by apply value_exprs_nonempty). rewrite length_app, length_map. done.
    - by rewrite app_nil_r, array_literal_sep, length_map, Nat.add_0_r. }
  rewrite Q, S. pose proof (value_exprs_length DocProp l) as Hv. rewrite Hno in Hv. lia.
Qed.
End parts.
