(* ===== verification/MappingQueries.v ===== *)
(** The operations of the mapper, from the document to the statement that is
    sent: the composition of the adapter, the selector and the generator. *)
From S2P Require Import Prelude.
From S2P Require Import JsNum.
From S2P Require Import JsStr.
From S2P Require Import Utils.
From S2P Require Import Mapping.
From S2P Require Import MappingInfo.
From S2P Require Import QueryGenerator.
From S2P Require Import ObjectSelector.
From S2P Require Import MappingHandler.
From S2P Require Import QueryGeneratorTheorems.
From S2P Require Import ObjectSelectorTheorems.

Section operations.
Context {V : Type} `{MetadataClient} (info : ModelMappingInfo V) (number : Z -> V).
Context (docKeys : list jsstr) (doc : obj (jsval V)) (di : option (docInfo V)).

(** The names of the columns and the operators have no question marks, and the
    operands of IN are arrays. *)
Definition fine (o : obj (jsval V)) (keys : list jsstr) : bool :=
  forallb (fun p => plain (getColumnName info p) && plain_value (prop o p) && arrays (prop o p)) keys.

Record request_fine : Prop := mkRequestFine {
  rf_doc : fine doc docKeys = true;
  rf_fields : fine doc (default [] (given_fields di)) = true;
  rf_when : match from_info di_when None di with Some w => fine w (map fst w) = true | None => True end;
  rf_order : forallb (fun kv => plain (getColumnName info kv.1)) (default [] (from_info orderBy None di)) = true;
  rf_keyspace : plain (mi_keyspace info) = true }.

(** The metadata of a table: it has a partition key, its keys are different
    columns of it. *)
Record table_fine (t : TableMetadata) : Prop := mkTableFine {
  tf_name : plain (table_name t) = true;
  tf_partition : partitionKeys t <> [];
  tf_distinct : distinct_keys t;
  tf_columns : forall c, c ∈ primaryKeys t -> is_Some (obj_get (columnsByName t) c) }.

(** The properties of the document, and those of them in the table. *)
Definition properties : list (property_info V) := getPropertiesInfo docKeys di doc info.
Definition table_properties (t : TableMetadata) := filter (fun p => in_table t p = true) properties.

Context (Hreq : request_fine).

Lemma fine_good o keys : fine o keys = true ->
  Forall (good info o) (map (fun p => mkProperty p (getColumnName info p) (prop o p) (getFromModelFn info p)) keys).
Proof.
  unfold fine. rewrite forallb_forall. intros Hf. apply Forall_map, Forall_forall. intros p Hin.
  apply list_elem_of_In in Hin. specialize (Hf p Hin). rewrite !andb_true_iff in Hf. destruct Hf as [[? ?] ?]. by constructor.
Qed.

Lemma properties_good : Forall (good info doc) properties.
Proof.
  apply fine_good. pose proof (rf_fields Hreq) as F. unfold given_fields in *. destruct di as [d|]; [|apply (rf_doc Hreq)].
  destruct (fields d) as [[|f fs]|]; [apply (rf_doc Hreq)|exact F|apply (rf_doc Hreq)].
Qed.

Lemma Forall_filtered {A} (P Q : A -> Prop) `{forall x, Decision (Q x)} l : Forall P l -> Forall P (filter Q l).
Proof. rewrite !Forall_forall. intros HP x [_ Hx]%list_elem_of_filter. auto. Qed.

Lemma table_properties_good t : Forall (good info doc) (table_properties t).
Proof. apply Forall_filtered, properties_good. Qed.

Lemma when_good : good_when info di (when_info info di).
Proof.
  unfold good_when, when_info. pose proof (rf_when Hreq) as W. destruct (from_info di_when None di) as [w|]; [|done].
  by apply fine_good.
Qed.

(** A selected table has a key among its properties. *)
Lemma keys_given t : table_fine t -> key_names (partitionKeys t) ⊆ cols properties ->
  keys_of t (table_properties t) <> [] /\ table_properties t <> [].
Proof.
  intros T Hsub. assert (exists c, c ∈ key_names (partitionKeys t)) as [c Hc].
  { pose proof (tf_partition t T). destruct (partitionKeys t) as [|c cs]; [done|]. exists (col_name c). left. }
  pose proof (Hsub c Hc) as Hin. unfold cols in Hin. apply list_elem_of_fmap in Hin as (p & -> & Hp).
  assert (Hpk : pi_columnName p ∈ primaryKeys t) by (apply primaryKeys_elem; by left).
  assert (Hpt : p ∈ table_properties t).
  { apply list_elem_of_filter. split; [|done]. unfold in_table, column_of. by destruct (tf_columns t T _ Hpk) as [col ->]. }
  assert (Hpk' : p ∈ keys_of t (table_properties t)).
  { apply list_elem_of_filter. split; [|done]. by apply bool_decide_eq_true. }
  split; intros E; rewrite E in *; by apply not_elem_of_nil in Hpt || by apply not_elem_of_nil in Hpk'.
Qed.

Lemma selected_table (fits : TableMetadata -> Prop) r ts t :
  selects info fits r -> r = Ok ts -> t ∈ ts -> Some t ∈ model_tables_of info /\ fits t.
Proof.
  intros S -> Hin. destruct S as (all & Hall & _ & _ & Hiff). apply Hiff in Hin as [Hin Hf]. split; [|done].
  rewrite Hall. by apply list_elem_of_fmap_2.
Qed.

Lemma Forall2_mapped {A B} (P : A -> B -> Prop) (f : A -> B) l : (forall x, x ∈ l -> P x (f x)) -> Forall2 P l (map f l).
Proof. induction l as [|x l IH]; intros Hl; constructor; [apply Hl; left|apply IH; intros y Hy; apply Hl; by right]. Qed.

(** ** The queries of the operations *)

Context (Htables : forall t, Some t ∈ model_tables_of info ++ model_sources info -> table_fine t).
Context (Hcols : NoDup (cols properties)).

Local Abbreviation ks := (mi_keyspace info).
Local Abbreviation if_exists := (from_info ifExists false di).
Local Abbreviation if_not_exists := (from_info ifNotExists false di).

Lemma model_table_fine t : Some t ∈ model_tables_of info -> table_fine t.
Proof. intros Ht. apply Htables, elem_of_app. by left. Qed.

Lemma insert_selects : selects info (insert_fits properties) (getForInsert info properties).
Proof. apply tables_for_selects. intros t Ht. apply insertable_spec; [done|]. by apply tf_distinct, model_table_fine. Qed.

Lemma update_selects : selects info (update_fits properties (when_info info di)) (getForUpdate info properties (when_info info di)).
Proof. apply tables_for_selects. intros t Ht. apply updatable_spec; [done|]. by apply tf_distinct, model_table_fine. Qed.

Lemma delete_selects : selects info (delete_fits properties (when_info info di)) (getForDelete info properties (when_info info di)).
Proof. apply tables_for_selects. intros t Ht. apply deletable_spec. Qed.

(** A query that fits its parameters makes the statement; one that does not
    fit them makes none. *)
Definition sends (fit : bool) (q : query_info) (statement : list (ascii + jsval V)) : Prop :=
  if fit then makes info doc di number q statement else forall t, ~ makes info doc di number q t.

Lemma insert_queries qs :
  createInsertQueries info docKeys doc di = Ok qs ->
  exists ts, getForInsert info properties = Ok ts /\
    Forall2 (fun t q => sends (all_single (table_properties t)) q (bound_insert number ks t (from_info ttl None di) (table_properties t) if_not_exists)) ts qs.
Proof.
  unfold createInsertQueries. fold properties. intros Hqs. apply bind_ok in Hqs as (ts & Hts & Hqs). exists ts. split; [done|].
  destruct ((1 <? length ts)%nat && if_not_exists); [done|]. injection Hqs as <-. apply Forall2_mapped. intros t Hin.
  destruct (selected_table _ _ ts t insert_selects Hts Hin) as [Ht [Hpk _]]. pose proof (model_table_fine t Ht) as T.
  destruct (keys_given t T Hpk) as [_ Hne]. unfold getInsert, sends. fold (table_properties t).
  destruct (all_single (table_properties t)) eqn:Hs.
  - apply all_single_singles in Hs. apply insert_makes; [apply (rf_keyspace Hreq)|apply (tf_name t T)|apply table_properties_good|done..].
  - intros t'. apply insert_unfit; [apply (rf_keyspace Hreq)|apply (tf_name t T)|apply table_properties_good|done..].
Qed.

(** With [when] and [ifExists] an error was thrown. *)
Lemma no_both (qs : list query_info) (r : result (list query_info)) :
  (if negb (is_nil (when_info info di)) && if_exists then Throw PlainError else r) = Ok qs ->
  r = Ok qs /\ (if_exists = true -> when_info info di = []).
Proof. destruct (when_info info di), if_exists; cbn; naive_solver. Qed.

Lemma update_queries qs :
  createUpdateQueries info docKeys doc di = Ok qs ->
  exists ts, getForUpdate info properties (when_info info di) = Ok ts /\
    Forall2 (fun t q => sends (all_single (keys_of t (table_properties t)) && negb (is_nil (to_set t (table_properties t)))) q
      (bound_update number ks t (from_info ttl None di) (table_properties t) (when_info info di) if_exists)) ts qs.
Proof.
  unfold createUpdateQueries. fold properties. cbv zeta. intros [Hqs Hwe]%no_both. apply bind_ok in Hqs as (ts & Hts & Hqs).
  exists ts. split; [done|]. destruct ((1 <? length ts)%nat && _); [done|]. injection Hqs as <-. apply Forall2_mapped. intros t Hin.
  destruct (selected_table _ _ ts t update_selects Hts Hin) as [Ht [Hpk _]]. pose proof (model_table_fine t Ht) as T.
  destruct (keys_given t T Hpk) as [Hne _]. unfold getUpdate, sends. cbv zeta. fold (table_properties t).
  destruct (all_single _ && _) eqn:Hs; [apply andb_true_iff in Hs as [Hs%all_single_singles Hset]|intros t'];
    [apply update_makes|apply update_unfit]; try done;
    try apply (rf_keyspace Hreq); try apply (tf_name t T); try apply when_good; try (apply Forall_filtered, table_properties_good).
  by destruct (to_set t (table_properties t)).
Qed.

Lemma delete_queries qs :
  createDeleteQueries info docKeys doc di = Ok qs ->
  exists ts, getForDelete info properties (when_info info di) = Ok ts /\
    Forall2 (fun t q => sends (all_single (keys_of t (table_properties t))) q
      (bound_delete ks t (from_info deleteOnlyColumns false di) (table_properties t) (when_info info di) if_exists)) ts qs.
Proof.
  unfold createDeleteQueries. fold properties. cbv zeta. intros [Hqs Hwe]%no_both. apply bind_ok in Hqs as (ts & Hts & Hqs).
  exists ts. split; [done|]. destruct ((1 <? length ts)%nat && _); [done|]. injection Hqs as <-. apply Forall2_mapped. intros t Hin.
  destruct (selected_table _ _ ts t delete_selects Hts Hin) as [Ht [Hpk _]]. pose proof (model_table_fine t Ht) as T.
  destruct (keys_given t T) as [Hne _]; [intros c Hc; apply Hpk, primaryKeys_elem; by left|]. unfold getDelete, sends. cbv zeta. fold (table_properties t).
  destruct (all_single _) eqn:Hs; [apply all_single_singles in Hs|intros t'];
    [apply delete_makes|apply delete_unfit]; try done;
    try apply (rf_keyspace Hreq); try apply (tf_name t T); try apply when_good; apply Forall_filtered, table_properties_good.
Qed.

Lemma order_plain o : adaptOrderBy di info = Ok o -> Forall (fun x => plain x.1 && plain x.2 = true) o.
Proof.
  unfold adaptOrderBy. pose proof (rf_order Hreq) as F. destruct (from_info orderBy None di) as [ob|]; [|intros [= <-]; constructor].
  rewrite traverse_ok. cbn in F. rewrite forallb_forall in F. intros H2. apply Forall_forall. intros x Hx.
  apply list_elem_of_lookup in Hx as [i Hi]. destruct (Forall2_lookup_r _ _ _ _ _ H2 Hi) as (kv & Hkv & Hf).
  apply list_elem_of_lookup_2, list_elem_of_In in Hkv. specialize (F kv Hkv). cbv zeta in Hf.
  destruct (bool_decide (toUpperCase kv.2 = str "ASC")) eqn:Ha; cbn [orb] in Hf.
  - injection Hf as <-. apply bool_decide_eq_true in Ha. cbn [fst snd]. by rewrite F, Ha.
  - destruct (bool_decide (toUpperCase kv.2 = str "DESC")) eqn:Hd; [|done]. injection Hf as <-. apply bool_decide_eq_true in Hd.
    cbn [fst snd]. by rewrite F, Hd.
Qed.

(** The properties to search for, and the fields to give. *)
Definition searched : list (property_info V) := getPropertiesInfo docKeys None doc info.
Definition selected_fields : list (property_info V) := getPropertiesInfo [] di doc info.

Lemma select_queries allPKsDefined q :
  createSelect info docKeys doc di allPKsDefined = Ok q ->
  exists o tableName, adaptOrderBy di info = Ok o /\
    getForSelect info allPKsDefined searched selected_fields o = Ok tableName /\
    makes info doc di number q (bound_select number ks tableName searched selected_fields o (from_info limit None di)).
Proof.
  unfold createSelect. fold searched selected_fields. intros Hq. apply bind_ok in Hq as (o & Ho & Hq). cbv zeta in Hq.
  apply bind_ok in Hq as (name & Hname & Hq). injection Hq as <-. exists o, name. split_and!; [done..|].
  assert (Hn : plain name = true).
  { unfold getForSelect in Hname. apply first_table_spec in Hname as (before & t & after & Hs & _ & <- & _).
    apply (tf_name t), Htables, elem_of_app. right. unfold model_sources. rewrite Hs. apply elem_of_app. right. left. }
  apply select_makes; [apply (rf_keyspace Hreq)|done|apply fine_good, (rf_doc Hreq)| |by apply order_plain].
  assert (G : Forall (good info doc) selected_fields) by apply fine_good, (rf_fields Hreq).
  eapply Forall_impl; [exact G|]. intros p Gp. apply (good_column _ _ _ Gp).
Qed.

(** C8: what an operation of the mapper sends.  For names without question
    marks, operands of IN that are arrays, a document with different columns and
    tables with proper keys: when the queries of an insert, update or delete can
    be created, there is one for each selected table, in order.  A query with
    the parameters that its generated function takes from the document is the
    statement in which every clause has its own value (assignments, keys,
    conditions and the TTL) if no value to insert and no key of an update or
    delete is a pair of conditions (of [q.and]), and if an update has something
    to set; otherwise there are not as many parameters as question marks, and no
    statement can be made of it.  The query of a select, pairs of conditions
    included, always makes its statement, with its conditions, order and
    limit. *)
Theorem operations_send_statements (allPKsDefined : bool) :
  (forall qs, createInsertQueries info docKeys doc di = Ok qs ->
     exists ts, getForInsert info properties = Ok ts /\
       Forall2 (fun t q => sends (all_single (table_properties t)) q
         (bound_insert number ks t (from_info ttl None di) (table_properties t) if_not_exists)) ts qs) /\
  (forall qs, createUpdateQueries info docKeys doc di = Ok qs ->
     exists ts, getForUpdate info properties (when_info info di) = Ok ts /\
       Forall2 (fun t q => sends (all_single (keys_of t (table_properties t)) && negb (is_nil (to_set t (table_properties t)))) q
         (bound_update number ks t (from_info ttl None di) (table_properties t) (when_info info di) if_exists)) ts qs) /\
  (forall qs, createDeleteQueries info docKeys doc di = Ok qs ->
     exists ts, getForDelete info properties (when_info info di) = Ok ts /\
       Forall2 (fun t q => sends (all_single (keys_of t (table_properties t))) q
         (bound_delete ks t (from_info deleteOnlyColumns false di) (table_properties t) (when_info info di) if_exists)) ts qs) /\
  (forall q, createSelect info docKeys doc di allPKsDefined = Ok q ->
     exists o tableName, adaptOrderBy di info = Ok o /\
       getForSelect info allPKsDefined searched selected_fields o = Ok tableName /\
       makes info doc di number q (bound_select number ks tableName searched selected_fields o (from_info limit None di))).
Proof.
  split_and!.
  - intros qs Hqs. by apply insert_queries.
  - intros qs Hqs. by apply update_queries.
  - intros qs Hqs. by apply delete_queries.
  - intros q Hq. by apply select_queries.
Qed.
End operations.

(** An update of the sample table: [v] is incremented where [id] and [ck] are
    given, under a condition on [s]. *)
Definition sample_doc : obj (jsval Z) := [(str "v", q_incr (Value 5)); (str "id", Value 1); (str "ck", Value 2)].
Definition sample_docInfo : docInfo Z :=
  mkDocInfo None None None (Some 60) false false false (Some [(str "s", q_and (q_gt (Value 7)) (q_lt (Value 9)))]).

(** The sample document fits a table. *)
Definition sample_fits (t : TableMetadata) : bool :=
  let l := @table_properties Z sample_info (map fst sample_doc) sample_doc (Some sample_docInfo) t in
  all_single (keys_of t l) && negb (is_nil (to_set t l)).

Lemma operations_send_statements_witness :
  exists qs, @createUpdateQueries Z sample_metadata sample_info (map fst sample_doc) sample_doc (Some sample_docInfo) = Ok qs /\
    exists ts, @getForUpdate Z sample_metadata sample_info (properties sample_info (map fst sample_doc) sample_doc (Some sample_docInfo))
      (when_info sample_info (Some sample_docInfo)) = Ok ts /\
    Forall2 (fun t q => sends sample_info (fun n => n) sample_doc (Some sample_docInfo) (sample_fits t) q
      (bound_update (fun n => n) (str "ks") t (Some 60) (table_properties sample_info (map fst sample_doc) sample_doc (Some sample_docInfo) t)
        (when_info sample_info (Some sample_docInfo)) false)) ts qs /\ map sample_fits ts = [true].
Proof.
  eexists. split; [vm_compute; reflexivity|].
  assert (Hall : forall t, Some t ∈ @model_tables_of Z sample_metadata sample_info ++ @model_sources Z sample_metadata sample_info -> t = sample_table).
  { intros t Ht. apply elem_of_cons in Ht as [[= ->]|Ht]; [done|]. apply elem_of_cons in Ht as [[= ->]|Ht]; [done|]. by apply not_elem_of_nil in Ht. }
  assert (Ht : forall t, Some t ∈ @model_tables_of Z sample_metadata sample_info ++ @model_sources Z sample_metadata sample_info -> table_fine t).
  { intros t ->%Hall. constructor; [vm_compute; reflexivity|done|apply (bool_decide_eq_true_1 _); vm_compute; reflexivity|].
    intros c Hc. repeat (apply elem_of_cons in Hc as [->|Hc]; [vm_compute; eauto|]). by apply not_elem_of_nil in Hc. }
  assert (Hc : NoDup (cols (properties sample_info (map fst sample_doc) sample_doc (Some sample_docInfo)))).
  { apply (bool_decide_eq_true_1 _). vm_compute. reflexivity. }
  destruct (@operations_send_statements Z sample_metadata sample_info (fun n => n) (map fst sample_doc) sample_doc (Some sample_docInfo)
    ltac:(constructor; vm_compute; reflexivity) Ht Hc true) as (_ & U & _).
  destruct (U _ ltac:(vm_compute; reflexivity)) as (ts & Hts & F). exists ts. split_and!; [exact Hts|exact F|].
  vm_compute in Hts. injection Hts as <-. vm_compute. reflexivity.
Defined.
