(* ===== verification/MappingCache.v ===== *)
(** The caches of executors: with the laws [CacheLaws] of an operation, an
    executor from the cache is the one that would be created for the request,
    for any order of requests and creations. *)
From stdpp Require Import gmap.
From S2P Require Import Prelude.
From S2P Require Import JsNum.
From S2P Require Import JsStr.
From S2P Require Import Utils.
From S2P Require Import MappingTree.
From S2P Require Import MappingTreeTheorems.
From S2P Require Import Mapping.
From S2P Require Import MappingInfo.
From S2P Require Import QueryGenerator.
From S2P Require Import ObjectSelector.
From S2P Require Import MappingHandler.

(** What a cache needs of an operation: there is a key. *)
Class CacheKeys {Req Q} (op : CachedOperation Req Q) : Prop := {
  key_nonempty : forall r, op_docKeys r <> [] -> op_key r <> [] }.

(** And, for the requests in [P]: requests with the same key get the same. *)
Class CacheLaws {Req Q} (op : CachedOperation Req Q) (P : Req -> Prop) : Prop := {
  key_sound : forall r1 r2, P r1 -> P r2 -> op_docKeys r1 <> [] -> op_docKeys r2 <> [] ->
    op_key r1 = op_key r2 -> op_create r1 = op_create r2 }.

Lemma snoc_front {A} (l k : list A) x : (l ++ [x]) ++ k ≡ₚ x :: l ++ k.
Proof. rewrite <- app_assoc. symmetry. apply Permutation_middle. Qed.

Lemma snoc_back {A} (l k : list A) x : l ++ k ++ [x] ≡ₚ x :: l ++ k.
Proof. rewrite app_assoc. symmetry. apply Permutation_cons_append. Qed.

Section cache.
Context {Req Q : Type} {op : CachedOperation Req Q} (P : Req -> Prop) `{!CacheKeys op}.
Implicit Types (c : executor_cache Req Q) (r : Req).

(** What a request is to be given. *)
Definition expected r : result Q := match op_docKeys r with [] => Throw PlainError | _ => op_create r end.

(** What a request can be given: what is created for some request with its key. *)
Definition shared r (a : result Q) : Prop :=
  match op_docKeys r with
  | [] => a = Throw PlainError
  | _ => exists r', P r' /\ op_docKeys r' <> [] /\ op_key r' = op_key r /\ a = op_create r'
  end.

Fixpoint requested (evs : list (cache_event Req)) : list Req :=
  match evs with
  | [] => []
  | Request r :: evs' => r :: requested evs'
  | Created _ :: evs' => requested evs'
  end.

(** The references of the tree are to different items; what an item holds, and
    what is created for it, belongs to its key. *)
Record cache_inv (m : gmap (list key_item) nat) c : Prop := mkCacheInv {
  ci_tree : represents (ec_tree c) m;
  ci_item : forall k i, m !! k = Some i -> (i < length (ec_items c))%nat;
  ci_inj : forall k1 k2 i, m !! k1 = Some i -> m !! k2 = Some i -> k1 = k2;
  ci_pending : forall r i, (r, i) ∈ ec_pending c -> P r /\ op_docKeys r <> [] /\ m !! op_key r = Some i;
  ci_items : forall i q, ec_items c !! i = Some (Some q) ->
    exists r, P r /\ op_docKeys r <> [] /\ m !! op_key r = Some i /\ op_create r = Ok q;
  ci_answers : forall r a, (r, a) ∈ ec_answers c -> shared r a }.

Lemma new_cache_inv : cache_inv ∅ executor_cache_new.
Proof.
  constructor; cbn; [apply new_represents|intros k i; by rewrite lookup_empty|intros ? ? ?; by rewrite lookup_empty|..].
  - intros r i H. by apply not_elem_of_nil in H.
  - done.
  - intros r a H. by apply not_elem_of_nil in H.
Qed.

Lemma answer_inv m c r a : cache_inv m c -> shared r a -> cache_inv m (settle_request c r a).
Proof.
  intros [] Hs. constructor; cbn; try done. intros r' a' [Ha|Ha]%elem_of_app; [auto|]. apply list_elem_of_singleton in Ha. by injection Ha as -> ->.
Qed.

(** The item of a key, old or new. *)
Lemma get_item_inv m c (key : list key_item) :
  cache_inv m c -> key <> [] ->
  exists m' i c', get_item c key = (Some i, c') /\ cache_inv m' c' /\ m' !! key = Some i /\ (i < length (ec_items c'))%nat /\
    ec_pending c' = ec_pending c /\ ec_answers c' = ec_answers c.
Proof.
  intros I Hk. unfold get_item.
  pose proof (getOrCreate_represents (ec_tree c) m key (length (ec_items c)) (ci_tree m c I) Hk) as S.
  destruct (getOrCreate (ec_tree c) key (length (ec_items c))) as [item tree]. cbv zeta in S. destruct S as [-> R].
  destruct (m !! key) as [i|] eqn:Hm; cbn [default] in *.
  - pose proof (ci_item m c I key i Hm) as Hlt. rewrite insert_id in R by done. rewrite bool_decide_eq_false_2 by (intros [= E]; lia).
    exists m, i. eexists. split; [reflexivity|]. split_and!; try done. destruct I. by constructor.
  - exists (<[key := length (ec_items c)]> m), (length (ec_items c)). eexists. split; [by rewrite bool_decide_eq_true_2|].
    assert (Hne : forall k i, m !! k = Some i -> k <> key /\ i <> length (ec_items c))
      by (intros k i Hki; split; [congruence|]; pose proof (ci_item m c I k i Hki); lia).
    split_and!; cbn; [|by rewrite lookup_insert_eq|rewrite length_app; cbn; lia|done..]. constructor; cbn.
    + done.
    + intros k i. rewrite length_app. cbn. rewrite lookup_insert_Some. intros [[_ <-]|[_ Hki]]; [lia|]. pose proof (ci_item m c I k i Hki). lia.
    + intros k1 k2 i. rewrite !lookup_insert_Some. intros [[-> <-]|[Hk1 H1]] [[-> E]|[Hk2 H2]]; try done.
      * by destruct (Hne k2 _ H2).
      * subst i. by destruct (Hne k1 _ H1).
      * by apply (ci_inj m c I k1 k2 i).
    + intros r i Hp. destruct (ci_pending m c I r i Hp) as (H1 & H2 & H3). split_and!; [done..|].
      rewrite lookup_insert_ne; [done|]. intros E. by destruct (Hne (op_key r) i H3).
    + intros i q. rewrite lookup_app_Some. intros [Hi|[_ Hi]].
      * destruct (ci_items m c I i q Hi) as (r & H1 & H2 & H3 & H4). exists r. split_and!; [done..| |done].
        rewrite lookup_insert_ne; [done|]. intros E. by destruct (Hne (op_key r) i H3).
      * by destruct (i - length (ec_items c))%nat.
    + apply (ci_answers m c I).
Qed.

(** A creation stores what every request with the key expects. *)
Lemma created_inv m c j r i q :
  cache_inv m c -> ec_pending c !! j = Some (r, i) -> op_create r = Ok q ->
  cache_inv m (mkCache (ec_tree c) (<[i := Some q]> (ec_items c)) (delete j (ec_pending c)) (ec_answers c)).
Proof.
  intros I Hj Hq. destruct (ci_pending m c I r i (list_elem_of_lookup_2 _ _ _ Hj)) as (HP & Hd & Hm).
  constructor; cbn; [apply (ci_tree m c I)| |apply (ci_inj m c I)| | |apply (ci_answers m c I)].
  - intros k i' Hk. rewrite length_insert. by apply (ci_item m c I k).
  - intros r' i' Hp. apply (ci_pending m c I). by apply list_elem_of_delete_inv in Hp.
  - intros i' q' Hi. apply list_lookup_insert_Some in Hi as [(<- & [= <-] & _)|[_ Hi]]; [by exists r|by apply (ci_items m c I)].
Qed.

Lemma dropped_inv m c j : cache_inv m c -> cache_inv m (mkCache (ec_tree c) (ec_items c) (delete j (ec_pending c)) (ec_answers c)).
Proof.
  intros []. constructor; cbn; try done. intros r i Hp. apply ci_pending0. by apply list_elem_of_delete_inv in Hp.
Qed.

Lemma cache_step_inv m c ev c' :
  cache_inv m c -> Forall P (requested [ev]) -> cache_step c ev = Some c' ->
  (exists m', cache_inv m' c') /\
  map fst (ec_answers c') ++ map fst (ec_pending c') ≡ₚ requested [ev] ++ map fst (ec_answers c) ++ map fst (ec_pending c).
Proof.
  intros I HP Hs. destruct ev as [r|j]; cbn [cache_step] in Hs.
  - cbn [requested] in HP. rewrite Forall_singleton in HP. destruct (op_docKeys r) as [|k ks] eqn:Hd.
    { injection Hs as <-. split; [exists m; apply answer_inv; [done|by unfold shared; rewrite Hd]|]. cbn [ec_answers ec_pending settle_request]. rewrite map_app. cbn [requested app map]. apply snoc_front. }
    assert (Hd' : op_docKeys r <> []) by (by rewrite Hd).
    destruct (get_item_inv m c (op_key r) I (key_nonempty r Hd')) as (m' & i & c1 & E & I' & Hm & Hlt & Hp & Ha).
    rewrite E in Hs. destruct (ec_items c1 !! i) as [[q|]|] eqn:Hi; [| |apply lookup_ge_None in Hi; lia].
    + injection Hs as <-. destruct (ci_items m' c1 I' i q Hi) as (r' & HP' & Hd2 & Hm' & Hc).
      assert (Ek : op_key r = op_key r') by (by apply (ci_inj m' c1 I' _ _ i)).
      split; [exists m'; apply answer_inv; [done|]|].
      * unfold shared. rewrite Hd. by exists r'.
      * cbn [ec_answers ec_pending settle_request]. rewrite map_app, Hp, Ha. cbn [requested app map]. apply snoc_front.
    + injection Hs as <-. split.
      * exists m'. constructor; cbn; [apply (ci_tree m' c1 I')|apply (ci_item m' c1 I')|apply (ci_inj m' c1 I')| |apply (ci_items m' c1 I')|apply (ci_answers m' c1 I')].
        intros r' i' [Hin|Hin]%elem_of_app; [by apply (ci_pending m' c1 I')|]. apply list_elem_of_singleton in Hin. by injection Hin as -> ->.
      * cbn [ec_answers ec_pending]. rewrite map_app, Hp, Ha. cbn [requested app map]. apply snoc_back.
  - destruct (ec_pending c !! j) as [[r i]|] eqn:Hj; [|done]. cbv zeta in Hs.
    destruct (ci_pending m c I r i (list_elem_of_lookup_2 _ _ _ Hj)) as (HPr & Hd & Hm).
    assert (Hex : shared r (op_create r)) by (unfold shared; destruct (op_docKeys r) eqn:Hk; [done|]; exists r; by rewrite Hk).
    assert (Perm : map fst (ec_pending c) ≡ₚ r :: map fst (delete j (ec_pending c))).
    { pose proof (delete_Permutation (ec_pending c) j (r, i) Hj) as D. rewrite D at 1. done. }
    destruct (op_create r) as [q|e] eqn:Hq; injection Hs as <-; cbn [requested map concat app].
    + split; [exists m; apply answer_inv; [by apply created_inv with r|done]|]. cbn [ec_answers ec_pending settle_request]. rewrite map_app, Perm. cbn [map fst requested concat app]. rewrite snoc_front. apply Permutation_middle.
    + split; [exists m; apply answer_inv; [by apply dropped_inv|done]|]. cbn [ec_answers ec_pending settle_request]. rewrite map_app, Perm. cbn [map fst requested concat app]. rewrite snoc_front. apply Permutation_middle.
Qed.

(** Every request is answered once, or waits for its creation, and its answer is
    what is created for a request with its key. *)
Lemma cache_run_shares (evs : list (cache_event Req)) c :
  Forall P (requested evs) -> cache_run executor_cache_new evs = Some c ->
  Forall (fun ra => P ra.1 /\ shared ra.1 ra.2) (ec_answers c) /\
  map fst (ec_answers c) ++ map fst (ec_pending c) ≡ₚ requested evs.
Proof.
  assert (G : forall m c0, cache_inv m c0 -> Forall P (requested evs) -> cache_run c0 evs = Some c ->
    (exists m', cache_inv m' c) /\
    map fst (ec_answers c) ++ map fst (ec_pending c) ≡ₚ requested evs ++ map fst (ec_answers c0) ++ map fst (ec_pending c0)).
  { induction evs as [|ev evs IH]; intros m c0 I HP Hr; cbn [cache_run] in Hr; [injection Hr as <-; split; [by exists m|done]|].
    destruct (cache_step c0 ev) as [c1|] eqn:Hs; [|done].
    assert (Er : requested (ev :: evs) = requested [ev] ++ requested evs) by by destruct ev. rewrite Er in *.
    apply Forall_app in HP as [HP1 HP2].
    destruct (cache_step_inv m c0 ev c1 I HP1 Hs) as [[m' I'] E1].
    destruct (IH m' c1 I' HP2 Hr) as [? E2]. split; [done|]. rewrite E2, E1, !app_assoc.
    apply Permutation_app_tail, Permutation_app_tail, Permutation_app_comm. }
  intros HP Hr. destruct (G ∅ executor_cache_new new_cache_inv HP Hr) as [[m I] E]. cbn in E. rewrite app_nil_r in E. split; [|done].
  apply Forall_forall. intros [r a] Hin. split; [|by apply (ci_answers m c I)].
  rewrite Forall_forall in HP. apply HP. rewrite <- E. apply elem_of_app. left. by apply (list_elem_of_fmap_2 fst _ _ Hin).
Qed.

(** With the laws: its answer is what is created for it. *)
Lemma cache_run_answers `{!CacheLaws op P} (evs : list (cache_event Req)) c :
  Forall P (requested evs) -> cache_run executor_cache_new evs = Some c ->
  Forall (fun ra => ra.2 = expected ra.1) (ec_answers c) /\
  map fst (ec_answers c) ++ map fst (ec_pending c) ≡ₚ requested evs.
Proof.
  intros HP Hr. destruct (cache_run_shares evs c HP Hr) as [F E]. split; [|done].
  eapply Forall_impl; [exact F|]. intros [r a] [HPr S]. unfold shared, expected in *. cbn [fst snd] in *.
  destruct (op_docKeys r) as [|k ks] eqn:Hd; [done|]. destruct S as (r' & HP' & Hd' & Hk & ->). apply key_sound; try done. by rewrite Hd.
Qed.
End cache.

(** The keys of the mapper's caches: what a request with a given key gets depends
    on nothing else, for requests without conditions, or with the same shape. *)

(** ** Values without their operands *)

Section erase.
Context {V : Type}.
Implicit Types (v : jsval V) (p : property_info V) (l when : list (property_info V)).

(** What a condition and its script depend on, and an assignment. *)
Fixpoint erase_operator v : jsval V :=
  match v with
  | Operator key _ isIn => Operator key Undefined isIn
  | Both key a b => Both key (erase_operator a) (erase_operator b)
  | _ => Undefined
  end.
Definition erase v : jsval V :=
  match v with Assignment sign _ inverted => Assignment sign Undefined inverted | _ => erase_operator v end.

Definition with_value (f : jsval V -> jsval V) p : property_info V :=
  mkProperty (pi_propertyName p) (pi_columnName p) (f (pi_value p)) (pi_fromModel p).

Lemma filter_with_value f (P : property_info V -> Prop) `{forall p, Decision (P p)} l :
  (forall p, P (with_value f p) <-> P p) -> filter P (map (with_value f) l) = map (with_value f) (filter P l).
Proof.
  intros HP. induction l as [|p l IH]; [done|]. cbn [map]. rewrite !filter_cons, IH.
  destruct (decide (P p)); [rewrite decide_True by (by apply HP)|rewrite decide_False by (by rewrite HP)]; done.
Qed.

(** Columns do not depend on values. *)
Section values.
Context (f : jsval V -> jsval V).
Local Abbreviation E := (map (with_value f)).

Lemma keysAreIncluded_value keys l : keysAreIncluded keys (E l) = keysAreIncluded keys l.
Proof. unfold keysAreIncluded. destruct keys; [done|]. rewrite filter_with_value by done. by rewrite length_map. Qed.

Lemma in_table_value t l : filter (fun p => in_table t p = true) (E l) = E (filter (fun p => in_table t p = true) l).
Proof. by apply filter_with_value. Qed.

Lemma all_in_table_value t l : all_in_table t (E l) = all_in_table t l.
Proof. unfold all_in_table. induction l as [|p l IH]; cbn; [done|]. by rewrite IH. Qed.

Lemma insertable_value l t : insertable (E l) t = insertable l t.
Proof. unfold insertable. by rewrite !keysAreIncluded_value, length_map. Qed.

Lemma updatable_value l when t : updatable (E l) (E when) t = updatable l when t.
Proof. unfold updatable. by rewrite !keysAreIncluded_value, in_table_value, all_in_table_value, length_map. Qed.

Lemma deletable_value l when t : deletable (E l) (E when) t = deletable l when t.
Proof. unfold deletable. rewrite all_in_table_value. by rewrite map_map. Qed.

Lemma selectable_value b l fs o t : selectable b (E l) fs o t = selectable b l fs o t.
Proof.
  unfold selectable. rewrite !keysAreIncluded_value, length_map.
  replace (forallb (is_primary t) (E l)) with (forallb (is_primary t) l); [done|].
  induction l as [|p l IH]; cbn; [done|]. by rewrite IH.
Qed.

Lemma names_value l : names (E l) = names l.
Proof. unfold names. by rewrite map_map. Qed.

Lemma to_set_value t l : to_set t (E l) = E (to_set t l).
Proof. by apply filter_with_value. Qed.

Lemma keys_of_value t l : keys_of t (E l) = E (keys_of t l).
Proof. by apply filter_with_value. Qed.

Lemma key_clauses_value l : key_clauses (E l) = key_clauses l.
Proof. unfold key_clauses. by rewrite map_map. Qed.
End values.

(** Conditions, and the scripts of values, depend on the operators. *)
Section operators.
Context (f : jsval V -> jsval V) (Hf : forall v, erase_operator (f v) = erase_operator v).
Local Abbreviation E := (map (with_value f)).

Lemma condition_erase col v : _getSingleCondition col (erase_operator v) = _getSingleCondition col v.
Proof. induction v; cbn; try done. by rewrite IHv1, IHv2. Qed.

Lemma getter_erase prefix name v mapped :
  _valueGetterSingle prefix name (erase_operator v) mapped = _valueGetterSingle prefix name v mapped.
Proof. revert prefix. induction v; intros prefix; cbn; try done. by rewrite IHv1, IHv2. Qed.

Lemma conditions_value l : _getConditionWithOperators (E l) = _getConditionWithOperators l.
Proof.
  unfold _getConditionWithOperators. rewrite map_map. f_equal. apply map_ext. intros p. cbn.
  by rewrite <- condition_erase, Hf, condition_erase.
Qed.

Lemma getters_value l o : _valueGetterExpression (E l) o = _valueGetterExpression l o.
Proof.
  unfold _valueGetterExpression. rewrite map_map. f_equal. apply map_ext. intros p. cbn.
  by rewrite <- getter_erase, Hf, getter_erase.
Qed.

Lemma if_clause_value b when : if_clause b (E when) = if_clause b when.
Proof. unfold if_clause. rewrite conditions_value. by destruct when. Qed.

Lemma when_script_value when : when_script (E when) = when_script when.
Proof. unfold when_script. rewrite getters_value. by destruct when. Qed.
End operators.

Lemma erase_operator_erase v : erase_operator (erase v) = erase_operator v.
Proof. destruct v; cbn; try done. f_equal; [induction v1|induction v2]; cbn; congruence. Qed.

Lemma erase_operator_twice v : erase_operator (erase_operator v) = erase_operator v.
Proof. induction v; cbn; congruence. Qed.

(** Assignments depend on their signs. *)
Local Abbreviation EA := (map (with_value erase)).

Lemma sets_value l : map set_clause (EA l) = map set_clause l.
Proof. rewrite map_map. apply map_ext. intros p. unfold set_clause. cbn. by destruct (pi_value p). Qed.

Lemma assignment_value v : is_assignment (erase v) = is_assignment v.
Proof. by destruct v. Qed.

Lemma assignments_value l : _assignmentGetterExpression (EA l) = _assignmentGetterExpression l.
Proof. unfold _assignmentGetterExpression. rewrite map_map. f_equal. apply map_ext. intros p. cbn. by rewrite assignment_value. Qed.

(** ** The queries *)

Definition same_number (a b : option Z) : Prop := is_some a = is_some b.

Lemma getInsert_value t ks l di1 di2 b :
  same_number (from_info ttl None di1) (from_info ttl None di2) ->
  getInsert t ks (map (with_value erase_operator) l) di1 b = getInsert t ks l di2 b.
Proof.
  unfold same_number, getInsert. intros Ht. rewrite in_table_value. unfold _getInsertQuery, _insertParamsGetter.
  rewrite names_value, getters_value, map_map by apply erase_operator_twice. by rewrite Ht.
Qed.

Lemma getUpdate_value t ks l di1 di2 when b :
  same_number (from_info ttl None di1) (from_info ttl None di2) ->
  getUpdate t ks (EA l) di1 (map (with_value erase_operator) when) b = getUpdate t ks l di2 when b.
Proof.
  unfold same_number, getUpdate. intros Ht. cbv zeta. rewrite in_table_value. unfold _getUpdateQuery, _updateParamsGetter.
  rewrite to_set_value, keys_of_value, sets_value, assignments_value, key_clauses_value, getters_value by apply erase_operator_erase.
  rewrite if_clause_value, when_script_value by apply erase_operator_twice. rewrite Ht. f_equal.
  - f_equal. f_equal; [|by destruct when]. generalize l. clear. intros l. induction l as [|p l IH]; cbn; [done|]. rewrite IH. f_equal.
    unfold list_assignment. cbn. by rewrite assignment_value.
  - f_equal. generalize l. clear. intros l. induction l as [|p l IH]; cbn; [done|]. by rewrite IH.
Qed.

Lemma getDelete_value t ks l di1 di2 when b :
  from_info deleteOnlyColumns false di1 = from_info deleteOnlyColumns false di2 ->
  getDelete t ks (map (with_value erase_operator) l) di1 (map (with_value erase_operator) when) b = getDelete t ks l di2 when b.
Proof.
  unfold getDelete. intros Hd. cbv zeta. rewrite in_table_value. unfold _getDeleteQuery, _deleteParamsGetter.
  rewrite to_set_value, keys_of_value, names_value, key_clauses_value, getters_value by apply erase_operator_twice.
  rewrite if_clause_value, when_script_value by apply erase_operator_twice. rewrite Hd. by destruct when.
Qed.
End erase.

(** ** Requests of the same shape *)

Section same.
Context {V : Type} `{MetadataClient} (info : ModelMappingInfo V).
Implicit Types (doc : obj (jsval V)) (di : option (docInfo V)).

(** The same keys, and values that [f] does not tell apart. *)
Definition same_doc (f : jsval V -> jsval V) doc1 doc2 : Prop :=
  map fst doc1 = map fst doc2 /\ forall p, p ∈ map fst doc1 -> f (prop doc1 p) = f (prop doc2 p).

Lemma prop_absent doc p : p ∉ map fst doc -> prop doc p = Undefined.
Proof.
  unfold prop. induction doc as [|[k v] doc IH]; [done|]. cbn. rewrite not_elem_of_cons. intros [H1 H2].
  rewrite decide_False by done. by apply IH.
Qed.

Lemma same_doc_all f doc1 doc2 p : same_doc f doc1 doc2 -> f (prop doc1 p) = f (prop doc2 p).
Proof.
  intros [Hk Hv]. destruct (decide (p ∈ map fst doc1)) as [Hp|Hp]; [by apply Hv|].
  rewrite !prop_absent; [done|by rewrite <- Hk|done].
Qed.

Lemma properties_same f (ks : list jsstr) di1 di2 doc1 doc2 :
  given_fields di1 = given_fields di2 -> same_doc f doc1 doc2 ->
  map (with_value f) (getPropertiesInfo ks di1 doc1 info) = map (with_value f) (getPropertiesInfo ks di2 doc2 info).
Proof.
  intros Hg Hd. unfold getPropertiesInfo. rewrite Hg, !map_map. apply map_ext. intros p. unfold with_value. cbn.
  by rewrite (same_doc_all f doc1 doc2).
Qed.

Definition same_when di1 di2 : Prop :=
  map (with_value erase_operator) (when_info info di1) = map (with_value erase_operator) (when_info info di2).

Lemma tables_for_ext (f g : TableMetadata -> bool) : (forall t, f t = g t) -> tables_for f info = tables_for g info.
Proof.
  intros Hfg. unfold tables_for. cbv zeta. set (ts := map _ _).
  assert (E : filter_tables f ts = filter_tables g ts); [|by rewrite E].
  induction ts as [|[t|] ts IH]; cbn; [done| |done]. by rewrite IH, Hfg.
Qed.

Lemma createInsert_same doc1 di1 doc2 di2 :
  same_doc erase_operator doc1 doc2 -> given_fields di1 = given_fields di2 ->
  same_number (from_info ttl None di1) (from_info ttl None di2) ->
  from_info ifNotExists false di1 = from_info ifNotExists false di2 ->
  createInsertQueries info (map fst doc1) doc1 di1 = createInsertQueries info (map fst doc2) doc2 di2.
Proof.
  intros Hd Hg Ht He. unfold createInsertQueries. rewrite <- (proj1 Hd), He.
  pose proof (properties_same erase_operator (map fst doc1) di1 di2 doc1 doc2 Hg Hd) as El.
  set (l1 := getPropertiesInfo _ di1 doc1 info) in *. set (l2 := getPropertiesInfo _ di2 doc2 info) in *. cbv zeta.
  assert (T : getForInsert info l1 = getForInsert info l2).
  { apply tables_for_ext. intros t. rewrite <- (insertable_value erase_operator l1), El. apply insertable_value. }
  rewrite T. destruct (getForInsert info l2) as [ts|e]; [|done]. cbn. destruct (_ && _); [done|]. f_equal. apply map_ext. intros t.
  rewrite <- (getInsert_value t (mi_keyspace info) l1 di1 di1), El by done. by apply getInsert_value.
Qed.

(** The conditions are empty together. *)
Lemma same_when_nil di1 di2 : same_when di1 di2 -> is_nil (when_info info di1) = is_nil (when_info info di2).
Proof. unfold same_when. by destruct (when_info info di1), (when_info info di2). Qed.

Lemma createUpdate_same doc1 di1 doc2 di2 :
  same_doc erase doc1 doc2 -> given_fields di1 = given_fields di2 -> same_when di1 di2 ->
  same_number (from_info ttl None di1) (from_info ttl None di2) ->
  from_info ifExists false di1 = from_info ifExists false di2 ->
  createUpdateQueries info (map fst doc1) doc1 di1 = createUpdateQueries info (map fst doc2) doc2 di2.
Proof.
  intros Hd Hg Hw Ht He. unfold createUpdateQueries. rewrite <- (proj1 Hd), He, (same_when_nil di1 di2 Hw).
  pose proof (properties_same erase (map fst doc1) di1 di2 doc1 doc2 Hg Hd) as El. unfold same_when in Hw.
  set (l1 := getPropertiesInfo _ di1 doc1 info) in *. set (l2 := getPropertiesInfo _ di2 doc2 info) in *. cbv zeta.
  destruct (_ && _); [done|].
  assert (T : getForUpdate info l1 (when_info info di1) = getForUpdate info l2 (when_info info di2)).
  { apply tables_for_ext. intros t. unfold updatable.
    rewrite <- (keysAreIncluded_value erase (partitionKeys t) l1), <- (keysAreIncluded_value erase (clusteringKeys t) l1), El, !keysAreIncluded_value.
    rewrite <- (all_in_table_value erase_operator t (when_info info di1)), Hw, all_in_table_value.
    rewrite <- (length_map (with_value erase) (filter _ l1)), <- in_table_value, El, in_table_value, length_map. done. }
  rewrite T. destruct (getForUpdate info l2 _) as [ts|e]; [|done]. cbn. destruct (_ && _); [done|]. f_equal. apply map_ext. intros t.
  rewrite <- (getUpdate_value t (mi_keyspace info) l1 di1 di1), El, Hw by done. by apply getUpdate_value.
Qed.

Lemma createDelete_same doc1 di1 doc2 di2 :
  same_doc erase_operator doc1 doc2 -> given_fields di1 = given_fields di2 -> same_when di1 di2 ->
  from_info deleteOnlyColumns false di1 = from_info deleteOnlyColumns false di2 ->
  from_info ifExists false di1 = from_info ifExists false di2 ->
  createDeleteQueries info (map fst doc1) doc1 di1 = createDeleteQueries info (map fst doc2) doc2 di2.
Proof.
  intros Hd Hg Hw Ho He. unfold createDeleteQueries. rewrite <- (proj1 Hd), He, (same_when_nil di1 di2 Hw).
  pose proof (properties_same erase_operator (map fst doc1) di1 di2 doc1 doc2 Hg Hd) as El. unfold same_when in Hw.
  set (l1 := getPropertiesInfo _ di1 doc1 info) in *. set (l2 := getPropertiesInfo _ di2 doc2 info) in *. cbv zeta.
  destruct (_ && _); [done|].
  assert (T : getForDelete info l1 (when_info info di1) = getForDelete info l2 (when_info info di2)).
  { apply tables_for_ext. intros t. rewrite <- (deletable_value erase_operator l1), El, Hw. apply deletable_value. }
  rewrite T. destruct (getForDelete info l2 _) as [ts|e]; [|done]. cbn. destruct (_ && _); [done|]. f_equal. apply map_ext. intros t.
  rewrite <- (getDelete_value t (mi_keyspace info) l1 di1 di1), El, Hw by done. by apply getDelete_value.
Qed.

Lemma createSelect_same doc1 di1 doc2 di2 b :
  same_doc erase_operator doc1 doc2 -> given_fields di1 = given_fields di2 ->
  from_info orderBy None di1 = from_info orderBy None di2 ->
  same_number (from_info limit None di1) (from_info limit None di2) ->
  createSelect info (map fst doc1) doc1 di1 b = createSelect info (map fst doc2) doc2 di2 b.
Proof.
  unfold same_number. intros Hd Hg Ho Hn. unfold createSelect. rewrite <- (proj1 Hd).
  pose proof (properties_same erase_operator (map fst doc1) None None doc1 doc2 eq_refl Hd) as El.
  pose proof (properties_same erase_operator [] di1 di2 doc1 doc2 Hg Hd) as Ef.
  set (l1 := getPropertiesInfo _ None doc1 info) in *. set (l2 := getPropertiesInfo _ None doc2 info) in *.
  set (f1 := getPropertiesInfo [] di1 doc1 info) in *. set (f2 := getPropertiesInfo [] di2 doc2 info) in *. cbv zeta.
  assert (O : adaptOrderBy di1 info = adaptOrderBy di2 info) by (unfold adaptOrderBy; by rewrite Ho).
  rewrite O. destruct (adaptOrderBy di2 info) as [o|e]; [|done]. rewrite !bind_ok_l.
  assert (T : getForSelect info b l1 f1 o = getForSelect info b l2 f2 o).
  { unfold getForSelect. set (ts := map _ _). induction ts as [|[t|] ts IH]; cbn [first_table]; [done| |done]. rewrite IH.
    assert (S : selectable b l1 f1 o t = selectable b l2 f2 o t); [|by rewrite S].
    rewrite <- (selectable_value erase_operator b l1), El, selectable_value. unfold selectable.
    by rewrite <- (all_in_table_value erase_operator t f1), Ef, all_in_table_value. }
  rewrite T. destruct (getForSelect info b l2 f2 o) as [name|e]; [|done]. rewrite !bind_ok_l. f_equal.
  assert (Hnames : names f1 = names f2) by (rewrite <- (names_value erase_operator f1), Ef; apply names_value).
  assert (Hf : is_nil f1 = is_nil f2) by (destruct f1, f2; done).
  assert (Hl : is_nil l1 = is_nil l2) by (destruct l1, l2; done).
  assert (Hc : _getConditionWithOperators l1 = _getConditionWithOperators l2)
    by (rewrite <- (conditions_value erase_operator erase_operator_twice l1), El; by apply conditions_value, erase_operator_twice).
  assert (Hv : _valueGetterExpression l1 DocProp = _valueGetterExpression l2 DocProp)
    by (rewrite <- (getters_value erase_operator erase_operator_twice l1), El; by apply getters_value, erase_operator_twice).
  unfold getSelect, selectParamsGetter. rewrite Hnames, Hc, Hv, Hn. f_equal; [|by destruct l1, l2].
  destruct f1, f2; try done; by destruct l1, l2.
Qed.
End same.
