(* ===== verification/MappingCacheTheorems.v ===== *)
(** The operations of the mapper satisfy the laws of their caches: the keys are
    read back without ambiguity when no name is one of their separators and
    operators, and when the requests have no conditions, or have their document
    and fields in common. *)
From stdpp Require Import gmap.
From S2P Require Import Prelude.
From S2P Require Import JsNum.
From S2P Require Import JsStr.
From S2P Require Import Utils.
From S2P Require Import MappingTree.
From S2P Require Import Mapping.
From S2P Require Import MappingInfo.
From S2P Require Import QueryGenerator.
From S2P Require Import ObjectSelector.
From S2P Require Import MappingHandler.
From S2P Require Import ObjectSelectorTheorems.
From S2P Require Import MappingCache.

(** ** Reading keys back *)

Definition operator_texts : list jsstr := map str ["IN"; ">"; ">="; "<"; "<="; "!="]%string.
Definition inner_texts : list jsstr := str "AND" :: str "+" :: str "-" :: operator_texts.
Definition separators : list jsstr := map str ["|f|"; "|l|"; "|o|"; "|t|"; "|e|"; "|dc|"; "|/|"]%string.

(** Items that belong to a value. *)
Definition inner (x : key_item) : bool := match x with inl s => bool_decide (s ∈ inner_texts) | inr _ => true end.
Definition separator (x : key_item) : bool := match x with inl s => bool_decide (s ∈ separators) | inr _ => false end.

(** A name of a property. *)
Definition name_ok (s : jsstr) : bool := negb (inner (inl s)) && negb (separator (inl s)).

(** The rest of a key behind a value, and behind names. *)
Definition starts (P : key_item -> bool) (r : list key_item) : bool := match r with x :: _ => P x | [] => true end.
Definition behind_value : list key_item -> bool := starts (fun x => negb (inner x)).
Definition behind_names : list key_item -> bool := starts separator.
Definition starts_not (s : string) : list key_item -> bool := starts (fun x => negb (bool_decide (x = item s))).

Section values.
Context {V : Type}.
Implicit Types (v : jsval V).

(** Values that are made by [q]. *)
Fixpoint q_made v : bool :=
  match v with
  | Operator key _ isIn => bool_decide (key ∈ operator_texts) && Bool.eqb isIn (bool_decide (key = str "IN"))
  | Both key a b => bool_decide (key = str "AND") && q_made a && q_made b
  | Assignment sign _ _ => bool_decide (sign = str "+") || bool_decide (sign = str "-")
  | _ => true
  end.

Lemma operator_inner key : key ∈ operator_texts -> inner (inl key) = true.
Proof. intros H. apply bool_decide_eq_true. by do 3 right. Qed.

Lemma operator_not_and key : key ∈ operator_texts -> key <> str "AND".
Proof. intros H ->. by apply (bool_decide_eq_true_2 _) in H. Qed.

(** How the first item tells the kinds of values apart. *)
Lemma operators_read v1 v2 r1 r2 :
  q_made v1 = true -> q_made v2 = true -> behind_value r1 = true -> behind_value r2 = true ->
  _yieldOperators v1 ++ r1 = _yieldOperators v2 ++ r2 -> erase_operator v1 = erase_operator v2 /\ r1 = r2.
Proof.
  assert (P : forall v r r', behind_value r = true -> q_made v = true -> r = _yieldOperators v ++ r' -> erase_operator v = Undefined /\ r = r').
  { intros v r r' Hr Hv E. destruct v as [| | |key w isIn|key a b|]; cbn in E |- *; try done; subst r; cbn in Hr, Hv.
    - apply andb_true_iff in Hv as [Hk%bool_decide_eq_true _]. pose proof (operator_inner key Hk) as Hi. cbn in Hi. by rewrite Hi in Hr.
    - apply andb_true_iff in Hv as [[Hk _]%andb_true_iff _]. apply bool_decide_eq_true in Hk. by subst key. }
  revert v2 r1 r2. induction v1 as [| | |key w IH isIn|key a IHa b IHb|]; intros v2 r1 r2 H1 H2 Hr1 Hr2 E.
  1-3, 6: cbn [erase_operator]; destruct (P v2 r1 r2 Hr1 H2 E) as [-> ->]; done.
  - destruct v2 as [| | |key' w' isIn'|key' a' b'|].
    1-3, 6: destruct (P (Operator key w isIn) r2 r1 Hr2 H1 (eq_sym E)) as [-> ->]; done.
    + cbn in E, H1, H2 |- *. injection E as -> ->. apply andb_true_iff in H1 as [_ H1%Bool.eqb_prop], H2 as [_ H2%Bool.eqb_prop]. by subst.
    + cbn in E, H1, H2. injection E as -> _. apply andb_true_iff in H1 as [H1%bool_decide_eq_true _].
      apply andb_true_iff in H2 as [[H2%bool_decide_eq_true _]%andb_true_iff _]. by apply operator_not_and in H1.
  - destruct v2 as [| | |key' w' isIn'|key' a' b'|].
    1-3, 6: destruct (P (Both key a b) r2 r1 Hr2 H1 (eq_sym E)) as [? ->]; done.
    + cbn in E, H1, H2. injection E as -> _. apply andb_true_iff in H2 as [H2%bool_decide_eq_true _].
      apply andb_true_iff in H1 as [[H1%bool_decide_eq_true _]%andb_true_iff _]. by apply operator_not_and in H2.
    + cbn in E, H1, H2 |- *. injection E as -> E. rewrite <- !app_assoc in E. cbn [app] in E.
      rewrite !andb_true_iff in H1, H2. destruct H1 as [[_ Ha] Hb], H2 as [[_ Ha'] Hb'].
      apply IHa in E as [-> E']; [|done..]. injection E' as E'.
      destruct (IHb b' _ _ Hb Hb' Hr1 Hr2 E') as [-> ->]. done.
Qed.

(** For updates. *)
Lemma qs_read v1 v2 r1 r2 :
  q_made v1 = true -> q_made v2 = true -> behind_value r1 = true -> behind_value r2 = true ->
  yield_q v1 ++ r1 = yield_q v2 ++ r2 -> erase v1 = erase v2 /\ r1 = r2.
Proof.
  intros H1 H2 Hr1 Hr2 E.
  assert (S : forall sign w inverted v r r', q_made (Assignment sign w inverted) = true -> q_made v = true -> behind_value r' = true ->
    [inl sign; inr inverted] ++ r = _yieldOperators v ++ r' -> False).
  { intros sign w inverted v r r' Hs Hv Hr' E'. cbn in Hs. apply orb_true_iff in Hs. rewrite !bool_decide_eq_true in Hs.
    destruct v as [| | |key u isIn|key a b|]; cbn in E', Hv.
    1-3, 6: subst r'; cbn in Hr'; destruct Hs as [-> | ->]; done.
    - injection E' as <- <-. apply andb_true_iff in Hv as [Hv _]. destruct Hs as [-> | ->]; done.
    - injection E' as <- _. apply andb_true_iff in Hv as [[Hv _]%andb_true_iff _]. destruct Hs as [-> | ->]; done. }
  destruct v1 as [| | |key w isIn|key a b|sign w inverted], v2 as [| | |key' w' isIn'|key' a' b'|sign' w' inverted'];
    try (by apply operators_read); try (by exfalso; eapply S with (r' := r2); [exact H1|exact H2|..]);
    try (by exfalso; eapply S with (r' := r1); [exact H2|exact H1|..|symmetry; exact E]).
  cbn in E. by injection E as -> -> ->.
Qed.

(** ** Documents *)

Section documents.
Context (y : jsval V -> list key_item) (f : jsval V -> jsval V).
Context (y_read : forall v1 v2 r1 r2,
  q_made v1 = true -> q_made v2 = true -> behind_value r1 = true -> behind_value r2 = true ->
  y v1 ++ r1 = y v2 ++ r2 -> f v1 = f v2 /\ r1 = r2).
Implicit Types (doc : obj (jsval V)).

Definition yield_doc (keys : list jsstr) doc : list key_item := concat (map (fun key => inl key :: y (prop doc key)) keys).

Definition names_ok (keys : list jsstr) : Prop := Forall (fun k => name_ok k = true) keys.
Definition values_made (keys : list jsstr) doc : Prop := Forall (fun k => q_made (prop doc k) = true) keys.

Lemma behind_doc keys doc r : names_ok keys -> behind_value r = true -> behind_value (yield_doc keys doc ++ r) = true.
Proof. intros [|k ks Hk _] Hr; [done|]. unfold name_ok in Hk. apply andb_true_iff in Hk. cbn. apply Hk. Qed.

(** With the same keys. *)
Lemma values_read keys doc1 doc2 r1 r2 :
  names_ok keys -> values_made keys doc1 -> values_made keys doc2 -> behind_value r1 = true -> behind_value r2 = true ->
  yield_doc keys doc1 ++ r1 = yield_doc keys doc2 ++ r2 ->
  (forall k, k ∈ keys -> f (prop doc1 k) = f (prop doc2 k)) /\ r1 = r2.
Proof.
  intros Hn H1 H2 Hr1 Hr2. revert H1 H2. unfold values_made. induction Hn as [|k ks Hk Hks IH]; intros H1 H2 E.
  - split; [|done]. intros k Hin. by apply not_elem_of_nil in Hin.
  - apply Forall_cons in H1 as [H1 H1s]. apply Forall_cons in H2 as [H2 H2s]. unfold yield_doc in E. cbn [map concat app] in E.
    injection E as E. rewrite <- !app_assoc in E.
    apply y_read in E as [Ev E]; [|done..|by apply behind_doc|by apply behind_doc]. destruct (IH H1s H2s E) as [Hv ->].
    split; [|done]. intros k' [->|Hin]%elem_of_cons; [done|by apply Hv].
Qed.

Lemma doc_read keys1 keys2 doc1 doc2 r1 r2 :
  names_ok keys1 -> names_ok keys2 -> values_made keys1 doc1 -> values_made keys2 doc2 ->
  behind_names r1 = true -> behind_names r2 = true ->
  yield_doc keys1 doc1 ++ r1 = yield_doc keys2 doc2 ++ r2 ->
  keys1 = keys2 /\ (forall k, k ∈ keys1 -> f (prop doc1 k) = f (prop doc2 k)) /\ r1 = r2.
Proof.
  assert (B : forall r, behind_names r = true -> behind_value r = true).
  { intros [|x r] Hr; [done|]. cbn in *. destruct x as [s|]; [|done]. cbn in Hr |- *. apply bool_decide_eq_true in Hr.
    apply negb_true_iff, bool_decide_eq_false. intros Hi. assert (F : forallb (fun s => negb (bool_decide (s ∈ inner_texts))) separators = true) by (vm_compute; done).
    rewrite forallb_forall in F. apply list_elem_of_In in Hr. specialize (F s Hr). by rewrite bool_decide_eq_true_2 in F. }
  assert (N : forall k ks doc r r', name_ok k = true -> behind_names r' = true -> yield_doc (k :: ks) doc ++ r <> r').
  { intros k ks doc r r' Hk Hr <-. cbn in Hr. unfold name_ok in Hk. apply andb_true_iff in Hk as [_ Hk]. cbn in Hk. by rewrite Hr in Hk. }
  intros Hn1. revert keys2. induction Hn1 as [|k ks Hk Hks IH]; intros keys2 Hn2 H1 H2 Hr1 Hr2 E.
  - destruct Hn2 as [|k2 ks2 Hk2 _]; [split_and!; [done| |done]; intros k Hin; by apply not_elem_of_nil in Hin|].
    by destruct (N k2 ks2 doc2 r2 r1 Hk2 Hr1).
  - destruct Hn2 as [|k2 ks2 Hk2 Hks2]; [by destruct (N k ks doc1 r1 r2 Hk Hr2)|]. unfold values_made in H1, H2.
    apply Forall_cons in H1 as [H1 H1s]. apply Forall_cons in H2 as [H2 H2s]. unfold yield_doc in E. cbn [map concat app] in E.
    injection E as -> E. rewrite <- !app_assoc in E.
    apply y_read in E as [Ev E]; [|done..|by apply behind_doc; [|apply B]|by apply behind_doc; [|apply B]].
    destruct (IH ks2 Hks2 H1s H2s Hr1 Hr2 E) as (-> & Hv & ->). split_and!; [done| |done].
    intros k' [->|Hin]%elem_of_cons; [done|by apply Hv].
Qed.
End documents.
End values.

(** ** The rest of a key *)

Section rest.
Context {V : Type}.
Implicit Types (di : option (docInfo V)) (r : list key_item) (P : key_item -> bool).

Lemma starts_if P (b : bool) (s : string) r : P (item s) = true -> starts P r = true -> starts P (yield_if b s ++ r) = true.
Proof. by destruct b. Qed.

Lemma starts_last P (b : bool) (s : string) : P (item s) = true -> starts P (yield_if b s) = true.
Proof. by destruct b. Qed.

Lemma starts_fields P di r : P (item "|f|") = true -> starts P r = true -> starts P (yield_fields di ++ r) = true.
Proof. unfold yield_fields. by destruct (given_fields di). Qed.

Lemma starts_doc P (y : jsval V -> list key_item) ks doc :
  (forall k, name_ok k = true -> P (inl k) = true) -> names_ok ks -> starts P (yield_doc y ks doc) = true.
Proof. intros HP [|k ks' Hk _]; [done|]. by apply HP. Qed.

Lemma starts_head (s : string) r : starts_not s r = true -> head r <> Some (item s).
Proof. unfold starts_not, starts. destruct r as [|x r]; [done|]. cbn. intros Hx [= ->]. by rewrite bool_decide_eq_true_2 in Hx. Qed.

(** A name is not in a value, and no separator. *)
Lemma name_not_inner k : name_ok k = true -> negb (inner (inl k)) = true.
Proof. unfold name_ok. by intros [? _]%andb_true_iff. Qed.

Lemma name_not_item (s : string) k : separator (item s) = true -> name_ok k = true -> negb (bool_decide (inl k = item s)) = true.
Proof.
  intros Hs Hk. apply negb_true_iff, bool_decide_eq_false. intros E. unfold name_ok in Hk. rewrite E, Hs in Hk.
  by rewrite andb_false_r in Hk.
Qed.

Lemma yield_names (ks : list jsstr) : map inl ks = yield_doc (V := V) (fun _ => []) ks [].
Proof. induction ks as [|k ks IH]; cbn; [done|]. by rewrite IH. Qed.

Lemma names_read (ks1 ks2 : list jsstr) r1 r2 :
  names_ok ks1 -> names_ok ks2 -> behind_names r1 = true -> behind_names r2 = true ->
  map inl ks1 ++ r1 = map inl ks2 ++ r2 -> ks1 = ks2 /\ r1 = r2.
Proof.
  intros H1 H2 Hr1 Hr2 E. rewrite !yield_names in E.
  apply (doc_read (fun _ => []) (fun _ => Undefined)) in E as (-> & _ & ->); try done; by apply Forall_true.
Qed.

Lemma fields_read di1 di2 r1 r2 :
  names_ok (default [] (given_fields di1)) -> names_ok (default [] (given_fields di2)) ->
  behind_names r1 = true -> behind_names r2 = true -> starts_not "|f|" r1 = true -> starts_not "|f|" r2 = true ->
  yield_fields di1 ++ r1 = yield_fields di2 ++ r2 -> given_fields di1 = given_fields di2 /\ r1 = r2.
Proof.
  unfold yield_fields. intros H1 H2 Hr1 Hr2 Hf1%starts_head Hf2%starts_head.
  destruct (given_fields di1) as [f1|], (given_fields di2) as [f2|]; cbn [app]; intros E; [|by subst r2|by subst r1|done].
  injection E as E. by destruct (names_read f1 f2 r1 r2 H1 H2 Hr1 Hr2 E) as [-> ->].
Qed.

Lemma if_read (b1 b2 : bool) (s : string) r1 r2 :
  starts_not s r1 = true -> starts_not s r2 = true -> yield_if b1 s ++ r1 = yield_if b2 s ++ r2 -> b1 = b2 /\ r1 = r2.
Proof.
  intros H1%starts_head H2%starts_head. destruct b1, b2; cbn; intros E; [by injection E as ->|by subst r2|by subst r1|done].
Qed.

Lemma last_if_read (b1 b2 : bool) (s : string) : yield_if b1 s = yield_if b2 s -> b1 = b2.
Proof. by destruct b1, b2. Qed.

(** The document of the conditions. *)
Definition when_doc di : obj (jsval V) := default [] (from_info di_when None di).

Lemma yield_when_doc di : yield_when di = yield_doc _yieldOperators (map fst (when_doc di)) (when_doc di).
Proof. unfold yield_when, when_doc. by destruct (from_info di_when None di). Qed.

Lemma when_info_doc (info : ModelMappingInfo V) di : when_info info di = getPropertiesInfo (map fst (when_doc di)) None (when_doc di) info.
Proof. unfold when_info, when_doc. by destruct (from_info di_when None di). Qed.

Definition order_items (o : option (obj jsstr)) : list key_item :=
  match o with Some o => item "|o|" :: concat (map (fun kv => [inl kv.1; inl kv.2]) o) | None => [] end.

Lemma order_read o1 o2 : order_items o1 = order_items o2 -> o1 = o2.
Proof.
  destruct o1 as [o1|], o2 as [o2|]; try done. intros [= E]. f_equal. revert o2 E.
  induction o1 as [|[k v] o1 IH]; intros [|[k' v'] o2]; cbn; try done. intros [= -> -> E]. by rewrite (IH o2 E).
Qed.

Lemma starts_order P o : P (item "|o|") = true -> starts P (order_items o) = true.
Proof. by destruct o. Qed.
End rest.

(** The first item of the rest of a key. *)
Ltac starts_tac :=
  unfold behind_names, behind_value, starts_not;
  repeat first
    [ apply starts_if; [reflexivity|]
    | apply starts_last; reflexivity
    | apply starts_fields; [reflexivity|]
    | apply starts_order; reflexivity
    | apply starts_doc; [intros; (apply name_not_inner; assumption) || (apply name_not_item; [reflexivity|assumption])|assumption]
    | reflexivity ].

(** ** The laws *)

Section laws.
Context {V : Type} `{MetadataClient} (info : ModelMappingInfo V).
Implicit Types (r : mutation (V := V)).

(** Names that are no separators or operators, and values that [q] makes. *)
Record request_ok r : Prop := mkRequestOk {
  ro_names : names_ok (map fst r.1);
  ro_values : values_made (map fst r.1) r.1;
  ro_fields : names_ok (default [] (given_fields r.2));
  ro_when : names_ok (map fst (when_doc r.2));
  ro_when_values : values_made (map fst (when_doc r.2)) (when_doc r.2) }.

(** No conditions; or the given keys and fields. *)
Definition of_shape (s : option (list jsstr * option (list jsstr))) r : Prop :=
  match s with
  | None => when_doc r.2 = []
  | Some (ks, fs) => map fst r.1 = ks /\ given_fields r.2 = fs
  end.

(** An insert has no operators. *)
Definition no_operators r : Prop := Forall (fun k => erase_operator (prop r.1 k) = Undefined) (map fst r.1).

#[export] Instance insert_keys : CacheKeys (insert_operation info).
Proof.
  split. intros [doc di] Hd. unfold op_docKeys, op_key in *. cbn in *. unfold getInsertKey. by destruct (map fst doc).
Qed.

#[export] Instance insert_laws : CacheLaws (insert_operation info) (fun r => request_ok r /\ no_operators r).
Proof.
  split.
  - intros [doc1 di1] [doc2 di2] [[On1 _ Of1 _ _] N1] [[On2 _ Of2 _ _] N2] _ _. unfold op_key, op_create. cbn [insert_operation fst snd] in *.
    unfold getInsertKey. intros E.
    apply (names_read (V := V)) in E as [Ek E]; [|done|done|starts_tac..]. apply fields_read in E as [Ef E]; [|done|done|starts_tac..].
    apply if_read in E as [Et E%last_if_read]; [|starts_tac..].
    apply createInsert_same; [split; [done|]|done|done|done]. intros p Hp.
    unfold no_operators in *. rewrite Forall_forall in N1, N2. cbn [fst snd] in N1, N2. rewrite N1 by done. rewrite N2; [done|]. by rewrite <- Ek.
Qed.

#[export] Instance select_keys : CacheKeys (select_operation info).
Proof.
  split. intros [[doc di] b'] Hd. unfold op_docKeys, op_key in *. cbn in *. unfold getSelectKey, _yieldKeyAndOperators. by destruct (map fst doc).
Qed.

#[export] Instance select_laws (b : bool) : CacheLaws (select_operation info) (fun q => request_ok q.1 /\ q.2 = b).
Proof.
  split.
  - intros [[doc1 di1] b1] [[doc2 di2] b2] [[On1 Ov1 Of1 _ _] Eb1] [[On2 Ov2 Of2 _ _] Eb2] _ _. unfold op_key, op_create.
    cbn [select_operation fst snd] in *. unfold getSelectKey, _getSelectDocInfo. fold (order_items (from_info orderBy None di1)) (order_items (from_info orderBy None di2)).
    intros E. apply (doc_read _yieldOperators erase_operator operators_read) in E as (Ek & Ev & E); [|done|done|done|done|starts_tac..].
    apply fields_read in E as [Ef E]; [|done|done|starts_tac..]. apply if_read in E as [El Eo%order_read]; [|starts_tac..].
    subst b1 b2. apply createSelect_same; [by split|done|done|done].
Qed.

(** The conditions of the same keys. *)
Lemma same_when_read (di1 di2 : option (docInfo V)) :
  names_ok (map fst (when_doc di1)) -> names_ok (map fst (when_doc di2)) ->
  values_made (map fst (when_doc di1)) (when_doc di1) -> values_made (map fst (when_doc di2)) (when_doc di2) ->
  yield_when di1 = yield_when di2 -> same_when info di1 di2.
Proof.
  intros N1 N2 W1 W2 E. rewrite !yield_when_doc in E. unfold same_when. rewrite !when_info_doc.
  assert (E' : yield_doc _yieldOperators (map fst (when_doc di1)) (when_doc di1) ++ [] = yield_doc _yieldOperators (map fst (when_doc di2)) (when_doc di2) ++ [])
    by (by rewrite E).
  apply (doc_read _yieldOperators erase_operator operators_read) in E' as (Ek & Ev & _); [|done..]. rewrite <- Ek. by apply properties_same.
Qed.

Lemma no_when (di : option (docInfo V)) : when_doc di = [] -> yield_when di = [].
Proof. rewrite yield_when_doc. by intros ->. Qed.

(** The front of the key of an update or a delete: the document and the fields. *)
Lemma front_read (y : jsval V -> list key_item) (f : jsval V -> jsval V) s (r1 r2 : mutation (V := V)) t1 t2 :
  (forall v1 v2 l1 l2, q_made v1 = true -> q_made v2 = true -> behind_value l1 = true -> behind_value l2 = true ->
     y v1 ++ l1 = y v2 ++ l2 -> f v1 = f v2 /\ l1 = l2) ->
  request_ok r1 -> request_ok r2 -> of_shape s r1 -> of_shape s r2 ->
  (when_doc r1.2 = [] -> behind_names t1 = true) -> (when_doc r2.2 = [] -> behind_names t2 = true) ->
  behind_value t1 = true -> behind_value t2 = true -> starts_not "|f|" t1 = true -> starts_not "|f|" t2 = true ->
  yield_doc y (map fst r1.1) r1.1 ++ yield_fields r1.2 ++ t1 = yield_doc y (map fst r2.1) r2.1 ++ yield_fields r2.2 ++ t2 ->
  same_doc f r1.1 r2.1 /\ given_fields r1.2 = given_fields r2.2 /\ t1 = t2.
Proof.
  intros Hy [On1 Ov1 Of1 _ _] [On2 Ov2 Of2 _ _] S1 S2 B1 B2 V1 V2 F1 F2 E. destruct s as [[ks fs]|]; cbn in S1, S2.
  - destruct S1 as [K1 G1], S2 as [K2 G2]. unfold same_doc. rewrite K1, K2 in *.
    apply (values_read y f Hy) in E as [Ev E]; [|done|done|done|by apply starts_fields..].
    unfold yield_fields in E. rewrite G1, G2 in *. apply app_inv_head in E. by split_and!.
  - apply (doc_read y f Hy) in E as (Ek & Ev & E); [|done..|by apply starts_fields; [|apply B1]|by apply starts_fields; [|apply B2]].
    apply fields_read in E as [Ef E]; [|done|done|by apply B1|by apply B2|done|done]. done.
Qed.

#[export] Instance update_keys : CacheKeys (update_operation info).
Proof.
  split. intros [doc di] Hd. unfold op_docKeys, op_key in *. cbn in *. unfold getUpdateKey, _yieldKeyAndAllQs. by destruct (map fst doc).
Qed.

#[export] Instance update_laws s : CacheLaws (update_operation info) (fun r => request_ok r /\ of_shape s r).
Proof.
  split.
  - intros [doc1 di1] [doc2 di2] [O1 S1] [O2 S2] _ _. unfold op_key, op_create. cbn [update_operation fst snd].
    pose proof (ro_when _ O1) as N1. pose proof (ro_when _ O2) as N2. cbn [snd] in N1, N2.
    unfold getUpdateKey. intros E. apply (front_read yield_q erase s (doc1, di1) (doc2, di2)) in E as (Ed & Ef & E);
      cbn [fst snd]; [|apply qs_read|done|done|done|done| | |rewrite yield_when_doc; starts_tac..].
    2-3: intros W; rewrite (no_when _ W); starts_tac.
    apply if_read in E as [Et E]; [|rewrite yield_when_doc; starts_tac..].
    apply if_read in E as [Ee E]; [|rewrite yield_when_doc; starts_tac..].
    apply createUpdate_same; [done|done| |done|done].
    apply same_when_read; [done|done|apply (ro_when_values _ O1)|apply (ro_when_values _ O2)|done].
Qed.

#[export] Instance remove_keys : CacheKeys (remove_operation info).
Proof.
  split. intros [doc di] Hd. unfold op_docKeys, op_key in *. cbn in *. unfold getRemoveKey, _yieldKeyAndOperators. by destruct (map fst doc).
Qed.

#[export] Instance remove_laws s : CacheLaws (remove_operation info) (fun r => request_ok r /\ of_shape s r).
Proof.
  split.
  - intros [doc1 di1] [doc2 di2] [O1 S1] [O2 S2] _ _. unfold op_key, op_create. cbn [remove_operation fst snd].
    pose proof (ro_when _ O1) as N1. pose proof (ro_when _ O2) as N2. cbn [snd] in N1, N2.
    unfold getRemoveKey. intros E. apply (front_read _yieldOperators erase_operator s (doc1, di1) (doc2, di2)) in E as (Ed & Ef & E);
      cbn [fst snd]; [|apply operators_read|done|done|done|done| | |rewrite yield_when_doc; starts_tac..].
    2-3: intros W; rewrite (no_when _ W); starts_tac.
    apply if_read in E as [Ee E]; [|rewrite yield_when_doc; starts_tac..].
    apply if_read in E as [Eo E]; [|rewrite yield_when_doc; starts_tac..].
    apply createDelete_same; [done|done| |done|done].
    apply same_when_read; [done|done|apply (ro_when_values _ O1)|apply (ro_when_values _ O2)|done].
Qed.
End laws.

(** A cached operation answers every request once, with what is created for it,
    whatever was asked and created before. *)
Definition answers_correct {Req Q} (op : CachedOperation Req Q) (P : Req -> Prop) : Prop :=
  forall evs c, Forall P (requested evs) -> cache_run executor_cache_new evs = Some c ->
    Forall (fun ra => ra.2 = expected ra.1) (ec_answers c) /\
    map fst (ec_answers c) ++ map fst (ec_pending c) ≡ₚ requested evs.

(** And whatever is asked: it answers every request once, with what is created
    for one of the requests with the same key (so with its own kind of result). *)
Definition answers_shared {Req Q} (op : CachedOperation Req Q) : Prop :=
  forall evs c, cache_run executor_cache_new evs = Some c ->
    Forall (fun ra => shared (op := op) (fun r => r ∈ requested evs) ra.1 ra.2) (ec_answers c) /\
    map fst (ec_answers c) ++ map fst (ec_pending c) ≡ₚ requested evs.

Lemma keys_shared {Req Q} (op : CachedOperation Req Q) `{!CacheKeys op} : answers_shared op.
Proof.
  intros evs c Hc. destruct (cache_run_shares (fun r => r ∈ requested evs) evs c) as [F E]; [by apply Forall_forall|done|].
  split; [|done]. eapply Forall_impl; [exact F|]. by intros ra [_ ?].
Qed.

(** C7: the caches of the mapper.  For every interleaving of requests and
    creations, executors being shared between requests with the same key through
    the radix tree, each request of an insert, update, delete or select is
    answered at most once and none is lost; its answer is what is created for
    some request of the run with the same key.  The caches do not show (the
    answer is the queries that its own document and options give, or their
    error) when names are no separators or operators, values are made by [q],
    an insert has no operators, updates have no conditions (nor deletes), or have
    the document's keys and fields in common, and selects have [allPKsDefined] in
    common.  (Without these restrictions they do show: [condition_lost],
    [delete_condition_lost], [get_after_find].) *)
Theorem mapper_cache_answers {V : Type} {M : MetadataClient} (info : ModelMappingInfo V)
  (s : option (list jsstr * option (list jsstr))) (b : bool) :
  (answers_shared (insert_operation info) /\ answers_shared (update_operation info) /\
   answers_shared (remove_operation info) /\ answers_shared (select_operation info)) /\
  answers_correct (insert_operation info) (fun r => request_ok r /\ no_operators r) /\
  answers_correct (update_operation info) (fun r => request_ok r /\ of_shape s r) /\
  answers_correct (remove_operation info) (fun r => request_ok r /\ of_shape s r) /\
  answers_correct (select_operation info) (fun q => request_ok q.1 /\ q.2 = b).
Proof.
  split; [split_and!; apply keys_shared, _|].
  split_and!; intros evs c HP Hc; by apply (cache_run_answers _ evs c HP Hc).
Qed.

Definition doc_of (l : list (string * Z)) : obj (jsval Z) := map (fun kv => (str kv.1, Value kv.2)) l.

Lemma mapper_cache_answers_witness :
  let op := @update_operation Z sample_metadata sample_info in
  let r1 := (doc_of [("id", 1); ("ck", 2); ("v", 3)]%string, None) in
  let r2 := (doc_of [("id", 4); ("ck", 5); ("v", 6)]%string, None) in
  exists c, @cache_run _ _ op executor_cache_new [Request r1; Request r2; Created 1; Request r2; Created 0] = Some c /\
    length (ec_answers c) = 3%nat /\ Forall (fun ra => ra.2 = @expected _ _ op ra.1) (ec_answers c).
Proof.
  cbv zeta. eexists. split; [vm_compute; reflexivity|]. split; [reflexivity|].
  apply (proj1 (proj2 (proj2 (@mapper_cache_answers Z sample_metadata sample_info None true))) 
    [Request (doc_of [("id", 1); ("ck", 2); ("v", 3)]%string, None); Request (doc_of [("id", 4); ("ck", 5); ("v", 6)]%string, None); Created 1;
     Request (doc_of [("id", 4); ("ck", 5); ("v", 6)]%string, None); Created 0]).
  - repeat constructor.
  - vm_compute. reflexivity.
Defined.

(** ** Requests that share an executor wrongly *)

Definition only_when (w : obj (jsval Z)) : docInfo Z := mkDocInfo None None None None false false false (Some w).

(** An update under a condition is given the executor of an update of the
    property of the condition: the condition is lost. *)
Lemma condition_lost :
  let op := @update_operation Z sample_metadata sample_info in
  let r1 := (doc_of [("id", 1); ("ck", 2); ("v", 3); ("s", 4)]%string, None) in
  let r2 := (doc_of [("id", 1); ("ck", 2); ("v", 3)]%string, Some (only_when (doc_of [("s", 4)]%string))) in
  exists c q1 q2, @cache_run _ _ op executor_cache_new [Request r1; Created 0; Request r2] = Some c /\
    ec_answers c = [(r1, Ok [q1]); (r2, Ok [q1])] /\ @op_create _ _ op r2 = Ok [q2] /\ query q1 <> query q2.
Proof. cbv zeta. do 3 eexists. split_and!; [vm_compute; reflexivity..|vm_compute; discriminate]. Qed.

(** A delete under a condition that follows one of a document with the same
    property deletes without it. *)
Lemma delete_condition_lost :
  let op := @remove_operation Z sample_metadata sample_info in
  let r1 := (doc_of [("id", 1); ("ck", 2); ("s", 4)]%string, None) in
  let r2 := (doc_of [("id", 1); ("ck", 2)]%string, Some (only_when (doc_of [("s", 4)]%string))) in
  exists c q1 q2, @cache_run _ _ op executor_cache_new [Request r1; Created 0; Request r2] = Some c /\
    ec_answers c = [(r1, Ok [q1]); (r2, Ok [q1])] /\ @op_create _ _ op r2 = Ok [q2] /\ query q1 <> query q2.
Proof. cbv zeta. do 3 eexists. split_and!; [vm_compute; reflexivity..|vm_compute; discriminate]. Qed.

(** [allPKsDefined] is not in the key: what [find] has created, [get] is given
    without the check of the primary key. *)
Lemma get_after_find :
  let op := @select_operation Z sample_metadata sample_info in
  let r := (doc_of [("id", 1)]%string, None) in
  exists c q, @cache_run _ _ op executor_cache_new [Request (r, false); Created 0; Request (r, true)] = Some c /\
    ec_answers c = [((r, false), Ok q); ((r, true), Ok q)] /\ @op_create _ _ op (r, true) = Throw PlainError.
Proof. cbv zeta. do 2 eexists. split_and!; vm_compute; reflexivity. Qed.

(** In a batch, a delete that follows an update of the same document is that
    update. *)
Lemma batch_remove_updates :
  let m := (doc_of [("id", 1); ("ck", 2); ("v", 3)]%string, None) in
  let get := @getQueries Z sample_metadata sample_info in
  exists q1 q2, let '(a1, b) := get ModelBatchMapper_new (UpdateItem m) in
    a1 = Ok [q1] /\ (get b (RemoveItem m)).1 = Ok [q1] /\
    @createQueries Z sample_metadata sample_info (RemoveItem m) = Ok [q2] /\ query q1 <> query q2.
Proof. cbv zeta. do 2 eexists. vm_compute. split_and!; [reflexivity..|discriminate]. Qed.

(** With a static column, an update by the keys alone is accepted: it sets
    nothing, and its first parameter is a hole. *)
Lemma update_sets_nothing :
  exists q, @createUpdateQueries Z sample_metadata sample_info [str "id"; str "ck"] (doc_of [("id", 1); ("ck", 2)]%string) None = Ok [q] /\
    array_literal (paramsGetter q) = [None; Some (DocProp (str "id")); Some (DocProp (str "ck"))].
Proof. eexists. split; vm_compute; reflexivity. Qed.

(** The operators of the keys of a delete are dropped: it is for equality. *)
Lemma delete_drops_operators :
  exists q, @createDeleteQueries Z sample_metadata sample_info [str "id"; str "ck"] [(str "id", Value 1); (str "ck", q_gt (Value 2))] None = Ok [q] /\
    query q = query (getDelete sample_table (str "ks") (getPropertiesInfo [str "id"; str "ck"] None (doc_of [("id", 1); ("ck", 2)]%string) sample_info) None [] false).
Proof. eexists. split; vm_compute; reflexivity. Qed.
